(* ===== verification/_CoqProject ===== *)
-Q . S2P
Prelude.v
GoStrings.v
Utf8.v
Strconv.v
Stream.v
Trim.v
Json.v
JsonSpec.v
JsonIndent.v
JsonMap.v
JsonStruct.v
Quota.v
Net.v
JsonLines.v
Socks5.v
Socks5Spec.v
GpuProbe.v
Observability.v
Circuit.v
Float64.v
CryptoWrap.v
CryptoWrapSpec.v
FloatError.v
JsonAny.v
Regex.v
PII.v
Release.v
KeyPool.v
Rotation.v
RotationStore.v
RotationStoreSpec.v
Usage.v
VendorError.v
ConnectTarget.v
GatewayTypes.v
Secret.v
SecretFlight.v
KeyMaterial.v
SecretText.v
Flags.v
SshTunnel.v
CheckKeys.v
Headers.v
Diagnostics.v
GatewayConfig.v
Gateway.v
GatewayServer.v
GatewaySpec.v
AuditLog.v
GatewayWire.v
Tunnel.v
Client.v
GatewayCmd.v
Serving.v
RouterConfig.v
RequestBody.v
SmartRoute.v
SmartRouteSpec.v
PolicyScript.v
Selection.v
Attribution.v
FairShare.v
LiveProbe.v
Failover.v
FailoverSpec.v
Admission.v
AdmissionSpec.v
Health.v
Router.v
RouterServe.v
BodyRead.v
Relay.v
ProxyHandler.v
Bench.v
RouterCmd.v
Demo.v
YamlForms.v
Integration.v
ToolReports.v
DemoRun.v
