(* ===== verification/Prelude.v ===== *)
(** * llm-cluster-router: a verification library

    The repository holds two HTTP proxies in front of language-model servers.

    - The _router_ ([src/main.go] with [src/internal/config], [circuit],
      [keypool], [health], [router], [piiroute], [proxy], [quota]) spreads
      OpenAI-style requests over a fleet of upstream nodes.  A bearer token gives
      the request its workload class; the handler buffers the body within a
      queue and a semaphore, selects a node by health, breaker, class, tier,
      model, capability and privacy, calls it, and fails over to other nodes or
      to other keys of the same node.  A prober ejects and restores nodes.
    - The _gateway_ ([src/internal/channel]) sits before metered vendors.  It
      authenticates its callers, replaces their credentials by a key leased
      from a pool, accounts requests and tokens per key over a tumbling window,
      retires keys on vendor errors, and offers a guarded CONNECT tunnel.

    The code is translated operation by operation, under the source's names.
    Go's shared objects are explicit state: a mutex-protected object is a
    record and each method a function on it; the nodes of a router snapshot are
    one store, a list, and a pointer is an index of it; what runs concurrently
    without a common lock is a step relation over the atomic operations.

    ** Shared foundations

    - [Prelude] (this file): Go's 64-bit integers with their wrap-around, time,
      the error monad, generic lemmas, the tactics and hint databases.
    - [GoStrings], [Net], [Headers], [Float64]: the parts of Go's library the
      source uses: string functions, [net.ParseIP] and [net.SplitHostPort],
      [http.Header] with names up to case as a setoid, and IEEE binary64 through the
      Standard Library's executable [SpecFloat].
    - [FloatError]: what one binary64 operation returns, as a real number with
      its rounding error; the token buckets are analysed with it.
    - [Utf8], [Json], [JsonSpec], [JsonMap], [JsonAny]: the parts of
      [encoding/json] the source uses.  [Json] is the parser with its errors and
      the printer; [JsonSpec] proves that they are inverse and that the fuel is
      enough; [JsonMap] is a body decoded into a map of raw members and marshalled
      again; [JsonAny] decodes into [any], numbers into float64 and back;
      [JsonStruct] decodes into structs, slices and fields; [JsonLines] is what a
      struct of strings and integers is written as, and logs of one object per
      line; [JsonIndent] is [json.MarshalIndent], whose text parses back
      ([parse_indented]), and in its module [Quote] the verb [%q], whose output is
      printable ([Quote_visible]).
    - [Trim], [Flags]: white space around texts; [flag.FlagSet],
      [strconv.ParseBool] and [time.ParseDuration] ([parse_assignments]).
    - [Regex]: the regular expressions the source compiles, with their matcher and
      its specification.

    ** The router

    - [Circuit]: [src/internal/circuit/breaker.go].  The breaker is open exactly
      when the failures since the last success reach the threshold
      ([breaker_trips_at_threshold]) and refuses every call until its cooldown
      is over ([breaker_open_refuses]).
    - [KeyPool]: [src/internal/keypool/keypool.go].  Round robin over the keys
      ([keypool_round_robin]); a cooled key is not used while another is ready
      ([keypool_exhausted_isolated]).
    - [RouterConfig]: [src/internal/config/config.go], [diagaddr.go].  What a
      configuration that loads satisfies ([load_config_sound]).
    - [Selection]: [upstreamNode], [buildReloadable], [Reload],
      [selectNodeFromSnapExcluding], [handleModels] of [src/main.go] and
      [src/internal/router/helpers.go].  A selected node passes every filter and
      has the best priority ([selected_node_eligible]); a turn of the cursor
      gives each node its weight ([weighted_round_robin]); a failed reload
      changes nothing ([reload_all_or_nothing]).  The class [Selector] states
      what selection promises; the failover theorems use only that.
    - [RequestBody]: [src/internal/router/helpers.go].  The model field of a body,
      the rewrite of the model name and the defaults of a node, and the token
      counts of an answer: only the named fields change ([model_rewrite_exact],
      [request_defaults_fill]).
    - [SmartRoute], [SmartRouteSpec]: [src/internal/smartroute].  What a policy
      that loads satisfies ([policy_validates]), which rule decides
      ([decide_total]), that the policy's parameters only fill gaps
      ([rewrite_fills_gaps]), and the body that panics ([null_body_panics]).
    - [PolicyScript]: [src/scripts/validate-smartroute.go], and what its exit status
      vouches for ([validator_passes_what_loads]).
    - [PII]: [src/internal/piiroute].  The patterns, the checksums and the decoded
      pass; an address anywhere in a body, escaped or not, is found
      ([email_in_body_detected]); the checksum finds every one-digit change
      ([checksum_catches_one_digit]).
    - [FairShare]: [src/internal/fairshare].  Over any history a tenant is granted
      no more than its burst and its rate times the time, plus what rounding adds
      ([fair_share_bound]), and a tenant that waited is served
      ([fair_share_serves]).
    - [LiveProbe]: [src/internal/health/liveprobe.go], the bucket for forced
      probes ([forced_probes_bounded]).
    - [Attribution]: the agent label, its bounded buffer and the drainer
      ([attribution_delivers]).
    - [Failover], [FailoverSpec]: [setUpstreamAuth], [doUpstream] and the attempt
      loop of [handleProxy].  At most five attempts ([failover_bounded]), to
      fresh nodes except right after a key was cooled ([attempts_distinct]); the
      answer relayed is the last real one ([relay_faithful]); no foreign
      credential reaches a gateway node ([gateway_node_credentials]).
      [key_cooled_relay_closed] and [same_node_retried_per_key] exhibit two runs
      that contradict the comments of the source.
    - [Admission]: the counters, the semaphore and the deferred releases of
      [handleProxy] as a step relation.  At every interleaving each counter is
      the number of its holders ([counters_exact]), the limits hold
      ([admission_bounds]), and every state can drain to zero
      ([admission_drains]).  [buffering_exceeds_documented_ceiling] reaches a
      state above the ceiling a comment claims.
    - [AdmissionSpec]: the contract of admission with no counter in it: a request is
      the ticket of what it holds, the guards count tickets, and a request that
      leaves gives back what it holds in any order.  The handler refines it by
      forward simulation ([admission_refines_tickets]).
    - [Health]: [src/internal/health/probe.go], [runHealthPass], [probeNode],
      [handleHealth], readiness.  The flag as a function of the history
      ([health_flag_exact]), recovery ([node_recovers]), the verdict of one
      probe ([probe_decides]).
    - [Router]: [ClassBearerAuth] of [src/internal/proxy/helpers.go] and
      [handleProxy] as a whole.  A customer request reaches only nodes open to
      customers ([customer_isolated]), and a body with personal data only local
      nodes ([personal_stays_local]), through every failover; the body each node
      is sent is an object with the fields its own configuration asks for, or,
      when the caller's body is not an object, the caller's bytes
      ([wire_body_exact]).
    - [BodyRead]: the read of the caller's body under its idle timeout: a caller
      that falls silent is cut off ([body_read_bounds_silence]).
    - [Relay]: the copy of a streamed answer to the caller, with its bounded
      capture and the token rates read from it ([relay_transparent]).
    - [ProxyHandler]: [handleProxy] and [src/internal/proxy/helpers.go] once more
      with all they say: every response, every row of a metric, the limited body,
      the semaphore and the fair share around the core of [Router], the bearer
      middleware and the public listener.  The handler is its core behind gates
      ([handler_refines_core]); the request counter moves by one for every attempt
      that was failed over, for the answer the client got and for a stream that
      broke, each under its own label ([requests_total_exact]); the body in memory is bounded
      ([buffered_within_limit]); rejects are counted under known labels
      ([reject_labels_known]).
    - [RouterServe]: [newRouter], [runServe], [watchReloadSignal], [healthLoop] and
      the muxes of [src/main.go].  Which paths need a credential
      ([mux_auth_boundary]); over any history of signals the settings in force are
      those of one file ([reload_history]); the passes of the prober
      ([health_passes_spaced]); the diagnostic listeners have a host
      ([diagnostics_have_host]); the channel setting only changes a label
      ([channel_is_a_label]).
    - [Quota]: [src/internal/quota] and [src/internal/router/minimax.go]: what is
      posted when a quota is met ([slack_post_exact]) and the one MiniMax base URL
      ([min_chat_url_exact]).

    ** The gateway

    - [Rotation], [RotationStore], [RotationStoreSpec]: [rotation.go] and
      [rotation_store.go].  The store is written against the interface
      [RotationPolicy] and proved against the class [PolicyContract], which
      the three policies discharge.  For every history of calls: the request cap
      is exact ([request_cap_exact]), leases are conserved
      ([lease_conservation]), grants and refusals are what they say
      ([reserve_outcome]), Retry-After is the exact wait between its floor and its
      ceiling, the floor prevailing ([retry_after_true]), windows
      tumble on their grid ([window_tumbles]).  The invariants are proved by
      simulating each method with steps on single keys.
    - [Usage], [VendorError]: [usage.go], [vendor_error.go].  The token total
      and the vendor's error code are read back ([result_reads_last],
      [vendor_code_read_back]).
    - [GatewayTypes], [Secret], [KeyMaterial], [GatewayConfig]: [config.go],
      [secret.go], [budget_advisory.go].  What validation guarantees
      ([validate_sound]), one key per configured slot ([pool_one_key_per_slot]),
      and the AES key in each of its spellings ([aes_key_read_back]).
    - [SecretFlight]: the resolver of [secret.go] under concurrent callers, with its
      cache and its single flight, as a step relation.  A backend answers a
      reference once and everybody gets that answer ([secret_resolved_once]), and
      all callers can return ([resolution_drains]).
    - [SecretText]: the texts of the failures and warnings of [secret.go], which say
      nothing of the secret, even when the command failed after printing it
      ([failures_say_nothing_of_the_secret]).
    - [Gateway], [GatewayServer], [GatewaySpec]: [auth.go], [forward.go],
      [proxy_auth.go], [caller_id.go], [server.go].  No caller credential goes
      upstream ([credential_boundary]), who is served ([authorize_proxy_exact],
      [unauthenticated_is_inert], [tokenless_never_reachable]), every lease is
      settled once ([handler_leaks_no_lease]), what is audited is charged
      ([audit_reconciles]), construction ([new_server_sound]).
    - [AuditLog]: the audit stream and the bodies of refusals in [server.go].  The
      log has one line for each event, which reads back ([audit_log_reads_back]),
      and its tokens add up to those of the events ([audit_tokens_reconcile]).
    - [GatewayWire]: all the handler says about a request: the response, the audit
      event and the counters, which name one outcome ([answers_cannot_drift]).
    - [GatewayCmd]: [src/cmd/helixchannel/gateway.go] and the dispatch of its
      [main.go].  What the command brings up ([gateway_command_guarded]) and how
      its legs end together ([legs_end_together], [legs_drain]).
    - [Serving]: the serve loops of [server.go], [client.go] and [aes_bridge.go] and
      those of the listener factories.  A cancelled server leaves nothing running
      ([cancelled_server_is_gone]); the bridge only hands out sealed connections
      ([bridge_dial_exact]); the loop of the AES factory serves nobody
      ([aes_loop_closes_everything]).
    - [ConnectTarget], [Tunnel]: [connect_target.go] and the CONNECT half of
      [server.go].  Every spelling of a loopback target (names of this
      host, the numeric forms of IPv4, IPv6, mapped and with a zone) is refused, but
      for a proxy bound to loopback only, which refuses its own port
      ([loopback_spellings_refused], [aton_decides]); tunnel slots are exact
      ([tunnel_slots_exact]); deadlines only tighten ([deadlines_only_tighten]).

    - [CryptoWrap], [CryptoWrapSpec]: [src/internal/crypto/wrap.go], the record
      framing between client and gateway.  What is written is what is read,
      however the network cuts it and wherever deadlines expire
      ([stream_roundtrip]); whatever an adversary sends, only sealed records are
      delivered, and tampering is reported and counted exactly where the wire
      has a length out of bounds, a cut record or one that does not open
      ([read_only_authentic]).

    - [Client]: [client.go], [aes_bridge.go], [shutdown.go].  What the two copies of
      the client proxy's tunnel deliver, with which credential it was asked for, and
      when the handler returns and closes it ([client_tunnel_transparent]); the
      gateway of [Tunnel] admits it ([client_admitted]); the bridge serves only this
      machine ([bridge_serves_loopback]); shutdown leaves nothing running
      ([shutdown_complete]).

    ** Around them

    - [Strconv], [Stream]: integers and their texts; a connection as the script of
      its reads.
    - [Socks5], [Socks5Spec]: [src/internal/proxy/socks5/client.go].  The handshake
      ([socks_dial_exact], [long_host_misread]), the request ([request_frames]) and
      the events of the answer ([sse_stream_exact]).
    - [GpuProbe]: [src/internal/gpuprobe].  The probe reads back what the tool
      printed ([collect_reads_back]).
    - [Observability]: the redaction of trace events ([scrub_removes],
      [scrub_keeps_secret]) and the tamper forwarder of the listener
      ([forwarder_exact]).
    - [YamlForms]: the hand-written YAML decoders of [config.go],
      [rotation_store.go] and [agents.go] over an abstract node.  Durations
      ([duration_read_back]), the forms of a rotation ([rotation_forms]), and defaults
      from the file to the forwarded body ([yaml_defaults_reach_body]).
    - [SshTunnel]: [src/internal/tunnel].  What every phase of a dial returns and
      leaves open ([dial_exact], [listener_outlives_dial]).
    - [CheckKeys], [Diagnostics]: the other subcommands of [src/cmd/helixchannel] and
      [src/internal/cli].  Their verdicts and exit statuses
      ([check_keys_exit_exact], [kilo_pass_exact], [endpoint_check_exact],
      [lightsail_pass_exact]), and that they print no secret
      ([check_keys_hides_secrets], [kilo_hides_key]).
    - [Bench]: the benchmark client of [src/main.go].  Every request is run once
      ([bench_runs_each_once]), measured by its own events
      ([bench_measures_stream]) and counted once ([report_accounts]); the
      percentiles stay inside their lists ([report_never_panics]).
    - [RouterCmd]: the subcommands of [src/main.go] other than serve.  probe-gpu
      from the driver's output to the document, read back by a reader of its own
      ([gpu_report_reads_back]); bench
      ends exactly as its workers let it ([bench_ends_with_its_workers]) and writes
      one document ([bench_report_reads_back]).
    - [ToolReports]: what the subcommands of [src/cmd/helixchannel/main.go] print
      ([version_forms_agree]), and the request whose context is gone before its
      body is read ([lightsail_needs_whole_body]).
    - [Demo]: [src/cmd/dual-listener-demo] and the trace appender.  Every event has
      its line ([agentrace_keeps_every_event]); connections and sessions are counted
      alike ([demo_counters_agree]), but for a request of unknown length
      ([chunked_request_panics]).
    - [DemoRun]: the demonstration as a process, registration of metrics and the
      tracer.  It ends with its context and not before ([demo_ends_with_context],
      [demo_drains]), which its [main] never cancels
      ([demo_main_never_shuts_down]).
    - [Integration]: [src/internal/cdp] and the clients of
      [src/internal/proxy/integration].  The request a server frames
      ([chat_request_frames]), the reply that is read ([chat_reply_read]), the
      DevTools probe ([ping_exact]), and the dial through the proxy, which leaves
      no socket behind when it fails ([dial_thru_leaves_nothing]).
    - [Release]: [src/internal/relcheck].  When a warning is given
      ([warning_iff]) and how often the tag is fetched ([fetches_spaced]).

    ** Parameters

    Code outside the repository is an argument: the answers of the network and
    what other goroutines do meanwhile ([Failover.Env], [Router.World],
    [Gateway]'s [env], [Health]'s [probes]), [url.Parse], the process
    environment, files, the YAML decoder, the 1Password command, clocks, the
    operator's own quota patterns.  AES-GCM is the class [CryptoWrap.AEAD] with
    its documented laws, SHA-256 a function; [http.ReadResponse] is a parameter of
    [Client] that takes a header off a stream and loses nothing, or does not
    return.  The iteration order of a Go map is an argument too.

    ** Bounds

    - The failover loop is a [Fixpoint] on the attempts left, started at the
      source's own constant [maxFailoverAttempts], 5; there is no other fuel in
      it, so it is total.
    - The JSON parser recurses on a fuel of twice the length and two, which
      [JsonSpec.fuel_enough] proves enough for every input; the writer of
      [CryptoWrap] on the length of what is left, [write_counts_records].
    - The theorems of [FairShare] take the requests of a window below 2^50 and its
      length below 2^53 nanoseconds, where a float64 holds the integers exactly.
    - The readers of [Socks5] and [Client] recurse on a bound of the reads a finite
      script allows, proved enough by [stream_loop_spec], [headers_loop_spec] and
      [copy_loop_spec].
    - Loops over a string or a list recurse on it, or on its length where a step
      consumes more than one byte.
    - Integers wrap at 64 bits where the source computes with them.  Where a
      counter would need 2^63 operations to wrap, the theorem says so with a
      hypothesis on the cursor or on the length of the history.  The counters of
      requests, errors and reclaimed leases of [RotationStore], which grow with
      the calls, are kept without wrapping; its token counters wrap.
    - A [Time] is a [Z] of nanoseconds, without the range of [time.Time].

    ** Not modelled

    - Sockets, TLS, the HTTP client and server of the standard library, the
      reverse proxy behind the AES bridge, the SOCKS5 server and the Prometheus
      and OpenTelemetry libraries are code outside the repository: what they answer
      is an argument.  The set-up calls that only hand constants to them (the OTLP
      exporter, the propagator, histogram buckets, timeouts of a client) have no
      definition.
    - Log lines and the two long advisory sentences of [budget_advisory.go] are
      output nothing reads back; the advisories themselves are in [GatewayConfig].
    - Aliases and constructors that only rename ([var x = pkg.X], functional
      options, interfaces with one implementation) are inlined.
    - The YAML library is outside: configuration starts from the decoded record,
      and the four decoders written by hand from an abstract node.
    - A cleanup of [FairShare] between the lookup of a bucket and its use by the
      same call, where the code holds no lock, is outside the histories.
    - [ToLower] and [EqualFold] act on ASCII letters only. *)

From Stdlib Require Import ZArith Lia Bool.
From stdpp Require Import base option list gmap strings.

#[global] Open Scope Z_scope.

(** ** Machine integers of Go

    Go's [int] is 64 bits wide on every platform this program ships to; [int64]
    and [int] share [wrap64], [uint64] uses [wrapu64].  Values are kept in [Z]
    and every operation that can leave the range says so by wrapping. *)

Definition max_int64 : Z := 2 ^ 63 - 1.
Definition min_int64 : Z := - 2 ^ 63.

Definition wrap64 (z : Z) : Z := (z + 2 ^ 63) mod 2 ^ 64 - 2 ^ 63.
Definition wrapu64 (z : Z) : Z := z mod 2 ^ 64.

Definition in_int64 (z : Z) : Prop := min_int64 <= z <= max_int64.

(** Go's [a + b], [a * b] on [int64]. *)
Definition i64_add (a b : Z) : Z := wrap64 (a + b).
Definition i64_mul (a b : Z) : Z := wrap64 (a * b).

(** ** time.Time and time.Duration

    A [Time] is the number of nanoseconds since Go's zero time (January 1, year
    1, UTC), so [time.Time{}] is [0] and [IsZero] is equality with [0].  A
    [Duration] is an [int64] number of nanoseconds. *)

Abbreviation Time := Z (only parsing).
Abbreviation Duration := Z (only parsing).

Definition Nanosecond : Duration := 1.
Definition Second : Duration := 1000000000.
Definition Minute : Duration := 60 * Second.
Definition Hour : Duration := 60 * Minute.

Definition time_zero : Time := 0.
Definition time_is_zero (t : Time) : bool := t =? 0.

(** [t.Sub(u)] saturates at the ends of [int64]. *)
Definition time_sub (t u : Time) : Duration :=
  Z.max min_int64 (Z.min max_int64 (t - u)).

(** [t.Add(d)]. *)
Definition time_add (t : Time) (d : Duration) : Time := t + d.

(** [t.After(u)]. *)
Definition time_after (t u : Time) : bool := u <? t.

(** Nanoseconds between year 1 and the Unix epoch, and [t.UnixNano()]. *)
Definition unix_epoch : Time := 62135596800 * Second.
Definition unix_nano (t : Time) : Z := wrap64 (t - unix_epoch).

(** ** Notations *)

Declare Scope go_scope.
Delimit Scope go_scope with go.

(** String equality as a boolean, Go's [==] on strings. *)
Notation "s =s t" := (String.eqb s t) (at level 70, no associativity) : go_scope.
#[global] Open Scope go_scope.

(** ** Automation *)

(** [zbool] turns every boolean comparison on [Z] and [string] of the goal and
    of the hypotheses into the proposition it decides, by case analysis. *)
Ltac zbool :=
  repeat match goal with
  | H : context [Z.leb ?a ?b] |- _ => destruct (Z.leb_spec a b)
  | |- context [Z.leb ?a ?b] => destruct (Z.leb_spec a b)
  | H : context [Z.ltb ?a ?b] |- _ => destruct (Z.ltb_spec a b)
  | |- context [Z.ltb ?a ?b] => destruct (Z.ltb_spec a b)
  | H : context [Z.eqb ?a ?b] |- _ => destruct (Z.eqb_spec a b)
  | |- context [Z.eqb ?a ?b] => destruct (Z.eqb_spec a b)
  | H : context [String.eqb ?a ?b] |- _ => destruct (String.eqb_spec a b)
  | |- context [String.eqb ?a ?b] => destruct (String.eqb_spec a b)
  end.

(** [breb] destructs the [if]s and [match]es of the goal, then simplifies. *)
Ltac breb := repeat (case_match; simplify_eq/=).

(** The hint database of the development: [go] holds the invariants of the
    components and the range facts of the Go primitives. *)
Create HintDb go.

(** ** Facts about the integer and time primitives *)

Lemma wrap64_small z : in_int64 z -> wrap64 z = z.
Proof.
  unfold in_int64, wrap64, min_int64, max_int64; intros H.
  rewrite Z.mod_small; lia.
Qed.

Lemma wrap64_range z : in_int64 (wrap64 z).
Proof.
  unfold in_int64, wrap64, min_int64, max_int64.
  pose proof (Z.mod_pos_bound (z + 2 ^ 63) (2 ^ 64) ltac:(lia)); lia.
Qed.

Lemma wrapu64_small z : 0 <= z < 2 ^ 64 -> wrapu64 z = z.
Proof. apply Z.mod_small. Qed.

Lemma wrapu64_range z : 0 <= wrapu64 z < 2 ^ 64.
Proof. apply Z.mod_pos_bound; lia. Qed.

Lemma i64_add_small a b : in_int64 (a + b) -> i64_add a b = a + b.
Proof. apply wrap64_small. Qed.

(** Below the saturation bounds [Sub] is subtraction, and it preserves every
    comparison with an [int64] that is not an end of the range. *)
Lemma time_sub_exact t u : in_int64 (t - u) -> time_sub t u = t - u.
Proof. unfold in_int64, time_sub; lia. Qed.

Lemma time_sub_ge t u d : min_int64 < d <= max_int64 -> d <= time_sub t u <-> d <= t - u.
Proof. unfold time_sub, min_int64, max_int64; lia. Qed.

Lemma time_sub_lt t u d : min_int64 < d <= max_int64 -> time_sub t u < d <-> t - u < d.
Proof. unfold time_sub, min_int64, max_int64; lia. Qed.

Lemma time_after_spec t u : time_after t u = true <-> u < t.
Proof. unfold time_after; apply Z.ltb_lt. Qed.

Lemma time_after_false t u : time_after t u = false <-> t <= u.
Proof. unfold time_after; apply Z.ltb_ge. Qed.

#[export] Hint Resolve wrap64_range wrapu64_range : go.

(** An [or] of disjoint bit ranges is a sum. *)
Lemma lor_disjoint a b k : 0 <= k -> 0 <= b < 2 ^ k -> Z.lor (a * 2 ^ k) b = a * 2 ^ k + b.
Proof.
  intros Hk Hb. rewrite <- Z.lxor_lor, <- Z.add_nocarry_lxor; [done| |].
  all: apply Z.bits_inj'; intros n Hn; rewrite Z.land_spec, Z.bits_0.
  all: destruct (decide (n < k)); [rewrite Z.mul_pow2_bits_low by lia; done|].
  all: destruct (decide (b = 0)) as [->|]; [by rewrite Z.bits_0, andb_false_r|].
  all: rewrite (Z.bits_above_log2 b n); [by rewrite andb_false_r|lia|].
  all: enough (Z.log2 b < k) by lia; apply Z.log2_lt_pow2; lia.
Qed.

(** ** Sequences of consecutive integers *)

Lemma fmap_seqZ_S {A} (f : Z -> A) (n : nat) :
  f <$> seqZ 0 (Z.of_nat (S n)) = f 0 :: ((fun k => f (1 + k)) <$> seqZ 0 (Z.of_nat n)).
Proof.
  rewrite (seqZ_cons 0 (Z.of_nat (S n))) by lia.
  replace (Z.pred (Z.of_nat (S n))) with (Z.of_nat n) by lia.
  change (Z.succ 0) with (1 + 0). rewrite <- (fmap_add_seqZ 1 0), fmap_cons, <- list_fmap_compose.
  done.
Qed.
