(* ===== verification/GoStrings.v ===== *)
(** * The parts of Go's strings, bytes and strconv the program uses

    A Go string is a sequence of bytes; [string] of the Standard Library is
    that sequence, and [bytes] its list form.  [ToLower], [EqualFold] are the
    ASCII case mappings: the program applies them to header names, host names
    and flags, and the Unicode case folding of non-ASCII letters is not
    modelled (such bytes are left unchanged). *)

From Stdlib Require Import ZArith Lia Ascii String.
From stdpp Require Import base option list gmap strings.
From S2P Require Import Prelude.

Module GoStrings.

Abbreviation bytes := (list ascii).

Definition to_bytes (s : string) : bytes := list_ascii_of_string s.
Definition of_bytes (b : bytes) : string := string_of_list_ascii b.

(** ** Characters *)

Definition code (c : ascii) : Z := Z.of_nat (nat_of_ascii c).

Definition is_digit (c : ascii) : bool := (48 <=? code c) && (code c <=? 57).
Definition is_upper (c : ascii) : bool := (65 <=? code c) && (code c <=? 90).
Definition is_lower (c : ascii) : bool := (97 <=? code c) && (code c <=? 122).

Definition lower_char (c : ascii) : ascii :=
  if is_upper c then ascii_of_nat (nat_of_ascii c + 32) else c.
Definition upper_char (c : ascii) : ascii :=
  if is_lower c then ascii_of_nat (nat_of_ascii c - 32) else c.

(** The characters [encoding/json] and the tail scanners skip. *)
Definition is_json_space (c : ascii) : bool :=
  (code c =? 32) || (code c =? 9) || (code c =? 10) || (code c =? 13).

(** ** Searching *)

Fixpoint has_prefix (p s : bytes) : bool :=
  match p, s with
  | [], _ => true
  | c :: p', d :: s' => Ascii.eqb c d && has_prefix p' s'
  | _ :: _, [] => false
  end.

(** [bytes.Index]. *)
Fixpoint index (sep s : bytes) : option nat :=
  if has_prefix sep s then Some 0%nat
  else match s with
       | [] => None
       | _ :: s' => S <$> index sep s'
       end.

(** [bytes.LastIndex], for a non-empty separator. *)
Fixpoint last_index (sep s : bytes) : option nat :=
  match s with
  | [] => if has_prefix sep [] then Some 0%nat else None
  | _ :: s' =>
      match last_index sep s' with
      | Some n => Some (S n)
      | None => if has_prefix sep s then Some 0%nat else None
      end
  end.

Definition contains (s sub : bytes) : bool := bool_decide (is_Some (index sub s)).

(** The string forms. *)
Definition HasPrefix (s p : string) : bool := has_prefix (to_bytes p) (to_bytes s).
Definition HasSuffix (s p : string) : bool := has_prefix (rev (to_bytes p)) (rev (to_bytes s)).
Definition Contains (s sub : string) : bool := contains (to_bytes s) (to_bytes sub).

Definition TrimPrefix (s p : string) : string :=
  if HasPrefix s p then of_bytes (drop (String.length p) (to_bytes s)) else s.
Definition TrimSuffix (s p : string) : string :=
  if HasSuffix s p then of_bytes (take (String.length s - String.length p) (to_bytes s)) else s.

(** [strings.TrimRight(s, c)] for a one-character cutset. *)
Definition trim_right_char (c : ascii) (s : string) : string :=
  of_bytes (rev ((fix go l := match l with
                  | [] => []
                  | d :: l' => if Ascii.eqb c d then go l' else l
                  end) (rev (to_bytes s)))).

(** ** Case mapping *)

Fixpoint ToLower (s : string) : string :=
  match s with
  | EmptyString => EmptyString
  | String c s' => String (lower_char c) (ToLower s')
  end.

Definition EqualFold (s t : string) : bool := ToLower s =s ToLower t.

(** ** TrimSpace

    The Unicode white space of [unicode.IsSpace], as UTF-8 sequences: a prefix
    or suffix of a string decodes to one of these code points exactly when it
    is one of these byte sequences. *)
Definition byte (n : nat) : ascii := ascii_of_nat n.
Definition space_seqs : list bytes :=
  [[byte 9]; [byte 10]; [byte 11]; [byte 12]; [byte 13]; [byte 32];
   [byte 194; byte 133]; [byte 194; byte 160]; [byte 225; byte 154; byte 128]] ++
  ((fun k => [byte 226; byte 128; byte k]) <$> seq 128 11) ++
  [[byte 226; byte 128; byte 168]; [byte 226; byte 128; byte 169]; [byte 226; byte 128; byte 175];
   [byte 226; byte 129; byte 159]; [byte 227; byte 128; byte 128]].

(** The length of the white-space sequence that starts [s], or 0. *)
Definition space_len (seqs : list bytes) (s : bytes) : nat :=
  match List.find (fun q => has_prefix q s) seqs with
  | Some q => length q
  | None => 0
  end.

Fixpoint trim_left (seqs : list bytes) (fuel : nat) (s : bytes) : bytes :=
  match fuel with
  | O => s
  | S fuel' =>
      match space_len seqs s with
      | O => s
      | n => trim_left seqs fuel' (drop n s)
      end
  end.

Definition trim_bytes (s : bytes) : bytes :=
  let l := trim_left space_seqs (length s) s in
  rev (trim_left (@rev ascii <$> space_seqs) (length l) (rev l)).

Definition TrimSpace (s : string) : string := of_bytes (trim_bytes (to_bytes s)).

(** ** Decimal integers *)

Definition digit_val (c : ascii) : Z := code c - 48.

Definition dec_value (ds : bytes) : Z := foldl (fun acc c => acc * 10 + digit_val c) 0 ds.

(** The leading run of characters that satisfy [f], and the rest. *)
Fixpoint span (f : ascii -> bool) (s : bytes) : bytes * bytes :=
  match s with
  | [] => ([], [])
  | c :: s' => if f c then let '(a, b) := span f s' in (c :: a, b) else ([], s)
  end.

(** [http.CanonicalHeaderKey] on a token: the first letter and the letters after
    a hyphen are upper case, the others lower case. *)
Fixpoint canonical_go (up : bool) (s : string) : string :=
  match s with
  | EmptyString => EmptyString
  | String c s' =>
      String (if up then upper_char c else lower_char c) (canonical_go (Ascii.eqb c "-") s')
  end.
Definition CanonicalHeaderKey (s : string) : string := canonical_go true s.

(** ** Lemmas *)

Lemma has_prefix_spec p s : has_prefix p s = true <-> exists r, s = p ++ r.
Proof.
  revert s; induction p as [|c p IH]; intros s; simpl.
  - split; eauto.
  - destruct s as [|d s]; [split; [done | by intros [r ?]]|].
    rewrite andb_true_iff, Ascii.eqb_eq, IH. split.
    + intros [-> [r ->]]. by exists r.
    + intros [r [= -> ->]]. eauto.
Qed.

Lemma index_Some sep s n :
  index sep s = Some n ->
  exists post, s = take n s ++ sep ++ post /\ (n <= length s)%nat /\
    forall m, (m < n)%nat -> has_prefix sep (drop m s) = false.
Proof.
  revert n; induction s as [|c s IH]; intros n; simpl.
  - destruct (has_prefix sep []) eqn:E; [|done]. intros [= <-].
    apply has_prefix_spec in E as [r E]. exists r. split_and!; [done | lia | lia].
  - destruct (has_prefix sep (c :: s)) eqn:E.
    + intros [= <-]. apply has_prefix_spec in E as [r E]. exists r. split_and!; [done | lia | lia].
    + intros (m & Hm & ->)%fmap_Some. destruct (IH m Hm) as (post & Hs & Hl & Hno).
      exists post. simpl. split_and!; [by f_equal | lia |].
      intros [|j] Hj; [done | apply Hno; lia].
Qed.

Lemma index_None sep s m : index sep s = None -> has_prefix sep (drop m s) = false.
Proof.
  revert m; induction s as [|c s IH]; intros m; simpl.
  - case_match eqn:E; [done|]. by rewrite drop_nil.
  - case_match eqn:E; [done|]. intros H%fmap_None. destruct m; [done | simpl; by apply IH].
Qed.

Lemma last_index_Some sep s n :
  sep <> [] -> last_index sep s = Some n ->
  exists post, s = take n s ++ sep ++ post /\
    forall m, (n < m)%nat -> has_prefix sep (drop m s) = false.
Proof.
  intros Hne. assert (Hnil : has_prefix sep [] = false) by (by destruct sep).
  revert n; induction s as [|c s IH]; intros n; simpl.
  - by rewrite Hnil.
  - destruct (last_index sep s) as [m|] eqn:E.
    + intros [= <-]. destruct (IH m eq_refl) as (post & Hs & Hno).
      exists post. simpl. split; [by f_equal|]. intros [|j] Hj; [lia | apply Hno; lia].
    + case_match eqn:Ep; [|done]. intros [= <-].
      apply has_prefix_spec in Ep as [r Ep]. exists r. split; [done|].
      assert (Hno : forall j, has_prefix sep (drop j s) = false).
      { clear -E Hnil. revert E; induction s as [|d s IH]; intros E j; [by rewrite drop_nil|].
        simpl in E. destruct (last_index sep s) eqn:E'; [done|]. case_match eqn:Ed; [done|].
        destruct j; [done | simpl; by apply IH]. }
      intros [|j] Hj; [lia | apply Hno].
Qed.

Lemma last_index_None sep s m :
  sep <> [] -> last_index sep s = None -> has_prefix sep (drop m s) = false.
Proof.
  intros Hne. assert (Hnil : has_prefix sep [] = false) by (by destruct sep).
  revert m; induction s as [|c s IH]; intros m E; [by rewrite drop_nil|].
  simpl in E. destruct (last_index sep s) eqn:E'; [done|]. case_match eqn:Ed; [done|].
  destruct m; [done | simpl; by apply IH].
Qed.

(** A separator that occurs exactly where it is expected, and not later, is the
    one [last_index] reports. *)
Lemma last_index_app sep pre post :
  sep <> [] -> (forall m, (length pre < m)%nat -> has_prefix sep (drop m (pre ++ sep ++ post)) = false) ->
  last_index sep (pre ++ sep ++ post) = Some (length pre).
Proof.
  intros Hne Hno.
  assert (Hhit : has_prefix sep (drop (length pre) (pre ++ sep ++ post)) = true).
  { rewrite drop_app_length. apply has_prefix_spec. eauto. }
  destruct (last_index sep (pre ++ sep ++ post)) as [n|] eqn:E.
  - destruct (last_index_Some _ _ _ Hne E) as (r & Hs & Hlater). f_equal.
    destruct (lt_eq_lt_dec n (length pre)) as [[Hlt|?]|Hgt]; [|done|].
    + rewrite Hlater in Hhit by done. done.
    + specialize (Hno n Hgt).
      assert (Hn : has_prefix sep (drop n (pre ++ sep ++ post)) = true).
      { rewrite Hs.
        assert (Hlen : (n <= length (pre ++ sep ++ post))%nat).
        { destruct (decide (n <= length (pre ++ sep ++ post))%nat) as [|Hn]; [done|].
          rewrite drop_ge in Hno by lia.
          rewrite take_ge in Hs by lia.
          apply (f_equal length) in Hs. rewrite !length_app in Hs.
          destruct sep; [done|]. simpl in Hs. lia. }
        rewrite drop_app_length' by (rewrite length_take; lia).
        apply has_prefix_spec. eauto. }
      congruence.
  - by rewrite (last_index_None _ _ (length pre) Hne E) in Hhit.
Qed.

Lemma span_spec f s :
  let '(a, b) := span f s in
  s = a ++ b /\ Forall (fun c => f c = true) a /\ (b = [] \/ exists c b', b = c :: b' /\ f c = false).
Proof.
  induction s as [|c s IH]; simpl; [split_and!; auto|].
  destruct (f c) eqn:E.
  - destruct (span f s) as [a b]. destruct IH as (-> & Ha & Hb). split_and!; auto.
  - split_and!; eauto 10.
Qed.

Lemma span_app f a b :
  Forall (fun c => f c = true) a -> (b = [] \/ exists c b', b = c :: b' /\ f c = false) ->
  span f (a ++ b) = (a, b).
Proof.
  intros Ha Hb. induction Ha as [|c a Hc Ha IH]; simpl.
  - destruct Hb as [-> | (c & b' & -> & Hc)]; [done|]. simpl. by rewrite Hc.
  - by rewrite Hc, IH.
Qed.

Lemma dec_value_snoc ds c : dec_value (ds ++ [c]) = dec_value ds * 10 + digit_val c.
Proof. unfold dec_value. by rewrite foldl_app. Qed.

Lemma digit_val_range c : is_digit c = true -> 0 <= digit_val c <= 9.
Proof. unfold is_digit, digit_val. rewrite andb_true_iff, !Z.leb_le. lia. Qed.

Lemma dec_value_nonneg ds : Forall (fun c => is_digit c = true) ds -> 0 <= dec_value ds.
Proof.
  induction ds as [|c ds IH] using rev_ind; intros H; [done|].
  apply Forall_app in H as [H1 H2]. inversion_clear H2.
  rewrite dec_value_snoc. pose proof (digit_val_range c ltac:(done)). specialize (IH H1). lia.
Qed.

Lemma ToLower_idemp s : ToLower (ToLower s) = ToLower s.
Proof.
  induction s as [|c s IH]; simpl; [done|]. rewrite IH. f_equal.
  destruct c as [[] [] [] [] [] [] [] []]; vm_compute; reflexivity.
Qed.

Lemma EqualFold_spec s t : EqualFold s t = true <-> ToLower s = ToLower t.
Proof. apply String.eqb_eq. Qed.

Lemma lower_canonical up s : ToLower (canonical_go up s) = ToLower s.
Proof.
  revert up; induction s as [|c s IH]; intros up; simpl; [done|]. rewrite IH. f_equal.
  destruct up; destruct c as [[] [] [] [] [] [] [] []]; vm_compute; reflexivity.
Qed.

(** Header names that differ in letter case only have the same canonical key. *)
Lemma canonical_ToLower up s : canonical_go up (ToLower s) = canonical_go up s.
Proof.
  revert up; induction s as [|c s IH]; intros up; simpl; [done|].
  assert (Ec : Ascii.eqb (lower_char c) "-" = Ascii.eqb c "-")
    by (destruct c as [[] [] [] [] [] [] [] []]; vm_compute; reflexivity).
  rewrite Ec, IH. f_equal. destruct up; destruct c as [[] [] [] [] [] [] [] []]; vm_compute; reflexivity.
Qed.

Lemma EqualFold_canonical s t :
  EqualFold s t = true <-> CanonicalHeaderKey s = CanonicalHeaderKey t.
Proof.
  rewrite EqualFold_spec. unfold CanonicalHeaderKey. split; intros H.
  - by rewrite <- (canonical_ToLower true s), H, canonical_ToLower.
  - by rewrite <- (lower_canonical true s), H, lower_canonical.
Qed.

(** *** Trimming *)

Definition nonempty_seqs (seqs : list bytes) : Prop := Forall (fun q => q <> []) seqs.

Lemma space_len_0 seqs s :
  nonempty_seqs seqs -> space_len seqs s = 0%nat <-> Forall (fun q => has_prefix q s = false) seqs.
Proof.
  unfold space_len. induction 1 as [|q seqs Hq _ IH]; simpl.
  - by split; [constructor|].
  - destruct (has_prefix q s) eqn:E.
    + split; [by destruct q|]. intros H. inversion H; congruence.
    + rewrite IH. split; [by constructor|]. intros H. by inversion H.
Qed.

Lemma trim_left_drop seqs fuel s : exists n, trim_left seqs fuel s = drop n s.
Proof.
  revert s; induction fuel as [|fuel IH]; intros s; simpl; [by exists 0%nat|].
  destruct (space_len seqs s) as [|k] eqn:E; [by exists 0%nat|].
  destruct (IH (drop (S k) s)) as [n Hn]. exists (S k + n)%nat. by rewrite Hn, drop_drop.
Qed.

Lemma trim_left_done seqs fuel s :
  nonempty_seqs seqs -> (length s <= fuel)%nat -> space_len seqs (trim_left seqs fuel s) = 0%nat.
Proof.
  intros Hne. revert s; induction fuel as [|fuel IH]; intros s Hl; simpl.
  - destruct s; [|simpl in Hl; lia]. apply space_len_0; [done|].
    eapply Forall_impl; [exact Hne|]. by intros [].
  - destruct (space_len seqs s) as [|k] eqn:E; [done|]. apply IH. rewrite length_drop. lia.
Qed.

Lemma trim_left_fixed seqs fuel s : space_len seqs s = 0%nat -> trim_left seqs fuel s = s.
Proof. destruct fuel; simpl; [done|]. by intros ->. Qed.

Lemma space_seqs_nonempty : nonempty_seqs space_seqs /\ nonempty_seqs (@rev ascii <$> space_seqs).
Proof. split; apply Forall_forall; intros q Hq ->; vm_compute in Hq; by repeat (inversion_clear Hq as [|? ? ? Hq']; try rename Hq' into Hq). Qed.

Lemma has_prefix_take q n s : has_prefix q s = false -> has_prefix q (take n s) = false.
Proof.
  intros H. destruct (has_prefix q (take n s)) eqn:E; [|done].
  apply has_prefix_spec in E as [r E]. rewrite <- H. symmetry. apply has_prefix_spec.
  exists (r ++ drop n s). by rewrite app_assoc, <- E, take_drop.
Qed.

Lemma trim_bytes_idemp s : trim_bytes (trim_bytes s) = trim_bytes s.
Proof.
  destruct space_seqs_nonempty as [Hn1 Hn2]. unfold trim_bytes at 2 3.
  set (l := trim_left space_seqs (length s) s).
  assert (Hl : space_len space_seqs l = 0%nat) by (by apply trim_left_done).
  set (r := trim_left (@rev ascii <$> space_seqs) (length l) (rev l)).
  assert (Hr : space_len (@rev ascii <$> space_seqs) r = 0%nat)
    by (apply trim_left_done; [done|by rewrite length_rev]).
  assert (Hr' : exists n, rev r = take n l).
  { destruct (trim_left_drop (@rev ascii <$> space_seqs) (length l) (rev l)) as [n Hn].
    exists (length l - n)%nat. unfold r. rewrite Hn. rewrite <- (rev_involutive l) at 2.
    by rewrite <- List.firstn_rev, length_rev || (rewrite skipn_rev, rev_involutive, rev_involutive). }
  assert (Hl' : space_len space_seqs (rev r) = 0%nat).
  { destruct Hr' as [n ->]. apply space_len_0 in Hl; [|done]. apply space_len_0; [done|].
    eapply Forall_impl; [exact Hl|]. intros q. apply has_prefix_take. }
  unfold trim_bytes. rewrite (trim_left_fixed _ _ (rev r)) by done.
  by rewrite rev_involutive, trim_left_fixed.
Qed.

Lemma of_to_bytes s : of_bytes (to_bytes s) = s.
Proof. apply string_of_list_ascii_of_string. Qed.

Lemma to_of_bytes b : to_bytes (of_bytes b) = b.
Proof. apply list_ascii_of_string_of_list_ascii. Qed.

Lemma to_bytes_inj s t : to_bytes s = to_bytes t -> s = t.
Proof. intros H. by rewrite <- (of_to_bytes s), <- (of_to_bytes t), H. Qed.

Lemma to_bytes_app a b : to_bytes (a ++ b)%string = to_bytes a ++ to_bytes b.
Proof. induction a as [|c a IH]; [done|]. exact (f_equal (cons c) IH). Qed.

Lemma TrimSpace_idemp s : TrimSpace (TrimSpace s) = TrimSpace s.
Proof. unfold TrimSpace. by rewrite to_of_bytes, trim_bytes_idemp. Qed.

End GoStrings.
