(* ===== verification/Utf8.v ===== *)
(** * UTF-8 and byte-wise scanners

    [unicode/utf8] as the program uses it through [encoding/json], [regexp] and
    [range] over a string, and the loop shape those share: look at the front of
    the input, emit something, consume at least one byte ([walk]). *)

From Stdlib Require Import ZArith Lia Ascii String.
From stdpp Require Import base option list.
From S2P Require Import Prelude GoStrings.

Module Utf8.
Import GoStrings.

(** ** Scanning loops *)

(** [step] answers, at a non-empty input, what to emit and how much to consume
    (0 counts as 1). *)
Fixpoint walk_fuel {A} (step : bytes -> list A * nat) (fuel : nat) (s : bytes) : list A :=
  match fuel, s with
  | S fuel', _ :: s' => let '(o, n) := step s in o ++ walk_fuel step fuel' (drop (n - 1) s')
  | _, _ => []
  end.

Definition walk {A} (step : bytes -> list A * nat) (s : bytes) : list A :=
  walk_fuel step (length s) s.

(** ** Runes *)

Definition rune_error : Z := 65533.

Definition cont (c : ascii) : bool := (128 <=? code c) && (code c <=? 191).

Definition in_range (lo hi : Z) (c : ascii) : bool := (lo <=? code c) && (code c <=? hi).

Definition low6 (c : ascii) : Z := code c - 128.

(** The range of the second byte after a lead byte of a three- or four-byte
    sequence: it excludes overlong forms, surrogates and code points above
    U+10FFFF. *)
Definition second_lo (c : Z) : Z := if c =? 224 then 160 else if c =? 240 then 144 else 128.
Definition second_hi (c : Z) : Z := if c =? 237 then 159 else if c =? 244 then 143 else 191.

(** [utf8.DecodeRune] on a non-empty input; [None] is [RuneError] of width 1. *)
Definition decode_rune (s : bytes) : option (Z * nat) :=
  match s with
  | [] => None
  | c0 :: s1 =>
      let c := code c0 in
      if c <? 128 then Some (c, 1%nat)
      else if (194 <=? c) && (c <=? 223) then
        match s1 with
        | c1 :: _ => if cont c1 then Some ((c - 192) * 64 + low6 c1, 2%nat) else None
        | _ => None
        end
      else if (224 <=? c) && (c <=? 239) then
        match s1 with
        | c1 :: c2 :: _ =>
            if in_range (second_lo c) (second_hi c) c1 && cont c2
            then Some ((c - 224) * 4096 + low6 c1 * 64 + low6 c2, 3%nat) else None
        | _ => None
        end
      else if (240 <=? c) && (c <=? 244) then
        match s1 with
        | c1 :: c2 :: c3 :: _ =>
            if in_range (second_lo c) (second_hi c) c1 && cont c2 && cont c3
            then Some ((c - 240) * 262144 + low6 c1 * 4096 + low6 c2 * 64 + low6 c3, 4%nat) else None
        | _ => None
        end
      else None
  end.

Definition is_surrogate (r : Z) : bool := (55296 <=? r) && (r <=? 57343).

Definition valid_rune (r : Z) : bool := (0 <=? r) && (r <=? 1114111) && negb (is_surrogate r).

Definition chr (z : Z) : ascii := ascii_of_nat (Z.to_nat z).

(** [utf8.AppendRune]: an invalid rune is written as U+FFFD. *)
Definition encode_rune (r : Z) : bytes :=
  if negb (valid_rune r) then [byte 239; byte 191; byte 189]
  else if r <? 128 then [chr r]
  else if r <? 2048 then [chr (192 + r / 64); chr (128 + r mod 64)]
  else if r <? 65536 then [chr (224 + r / 4096); chr (128 + r / 64 mod 64); chr (128 + r mod 64)]
  else [chr (240 + r / 262144); chr (128 + r / 4096 mod 64); chr (128 + r / 64 mod 64); chr (128 + r mod 64)].

(** The rune and the width at the front, [RuneError] of width 1 if malformed. *)
Definition front_rune (s : bytes) : Z * nat := default (rune_error, 1%nat) (decode_rune s).

(** [for _, r := range s]. *)
Definition runes (s : bytes) : list Z := walk (fun s => let '(r, n) := front_rune s in ([r], n)) s.

(** [s] with every malformed byte replaced by U+FFFD. *)
Definition sanitized (s : bytes) : bytes := flat_map encode_rune (runes s).

Definition valid_utf8 (s : bytes) : Prop := sanitized s = s.

#[export] Instance valid_utf8_dec s : Decision (valid_utf8 s).
Proof. unfold valid_utf8. apply _. Defined.

(** ** Lemmas *)

Lemma walk_nil {A} (step : bytes -> list A * nat) : walk step [] = [].
Proof. done. Qed.

Lemma walk_fuel_enough {A} (step : bytes -> list A * nat) f s :
  (length s <= f)%nat -> walk_fuel step f s = walk step s.
Proof.
  unfold walk. revert s. induction (lt_wf f) as [f _ IH]. intros [|c s] Hf; [by destruct f|].
  destruct f as [|f]; simpl in *; [lia|]. destruct (step (c :: s)) as [o n]. f_equal.
  rewrite IH by (rewrite ?length_drop; lia).
  destruct (decide (f = length s)) as [->|]; [|symmetry; apply IH; rewrite ?length_drop; lia].
  symmetry. destruct (drop (n - 1) s) eqn:E; [by destruct (length s)|].
  rewrite <- E. apply IH; rewrite ?length_drop; lia.
Qed.

Lemma walk_step {A} (step : bytes -> list A * nat) c s :
  walk step (c :: s) = (step (c :: s)).1 ++ walk step (drop (Nat.max 1 (step (c :: s)).2) (c :: s)).
Proof.
  unfold walk at 1. simpl. destruct (step (c :: s)) as [o n]. simpl. f_equal.
  rewrite walk_fuel_enough by (rewrite length_drop; lia).
  f_equal. destruct n as [|n]; simpl; [done|]. by rewrite Nat.sub_0_r.
Qed.

(** The front of the input decides a step that consumes exactly [p]. *)
Lemma walk_app {A} (step : bytes -> list A * nat) p s o :
  p <> [] -> step (p ++ s) = (o, length p) -> walk step (p ++ s) = o ++ walk step s.
Proof.
  intros Hp Hs. destruct p as [|c p]; [done|].
  change ((c :: p) ++ s) with (c :: p ++ s) in *. rewrite walk_step, Hs. simpl fst; simpl snd.
  change (c :: p ++ s) with ((c :: p) ++ s). do 2 f_equal. by apply (drop_app_length (c :: p) s).
Qed.

Lemma code_range c : 0 <= code c < 256.
Proof. unfold code. pose proof (nat_ascii_bounded c). lia. Qed.

Lemma code_chr z : 0 <= z < 256 -> code (chr z) = z.
Proof. intros H. unfold code, chr. rewrite nat_ascii_embedding by lia. lia. Qed.

Lemma chr_code c : chr (code c) = c.
Proof. unfold chr, code. rewrite Nat2Z.id. apply ascii_nat_embedding. Qed.

Lemma code_inj c d : code c = code d -> c = d.
Proof. intros H. rewrite <- (chr_code c), <- (chr_code d). by f_equal. Qed.

(** Evaluate the tests on bytes whose codes are known up to linear arithmetic. *)
Ltac enc_codes :=
  rewrite ?code_chr by (Z.div_mod_to_equations; lia);
  repeat match goal with
  | |- context [Z.eqb ?a ?b] => destruct (Z.eqb_spec a b); try (exfalso; Z.div_mod_to_equations; lia); cbv iota
  end;
  repeat match goal with
  | |- context [Z.leb ?a ?b] => destruct (Z.leb_spec a b); try (exfalso; Z.div_mod_to_equations; lia)
  | |- context [Z.ltb ?a ?b] => destruct (Z.ltb_spec a b); try (exfalso; Z.div_mod_to_equations; lia)
  end; simpl; do 2 f_equal; Z.div_mod_to_equations; lia.

(** Decoding what was encoded, whatever follows. *)
Lemma decode_encode r s : valid_rune r = true -> decode_rune (encode_rune r ++ s) = Some (r, length (encode_rune r)).
Proof.
  intros Hv. unfold encode_rune. rewrite Hv. simpl negb.
  unfold valid_rune, is_surrogate in Hv. apply andb_true_iff in Hv as [Hv Hs].
  apply andb_true_iff in Hv as [H0 H1]. apply Z.leb_le in H0, H1.
  assert (Hsur : r < 55296 \/ 57343 < r).
  { destruct (Z.leb_spec 55296 r), (Z.leb_spec r 57343); simpl in Hs; try done; lia. }
  destruct (Z.ltb_spec r 128); [|destruct (Z.ltb_spec r 2048); [|destruct (Z.ltb_spec r 65536)]]; simpl length; simpl app.
  - unfold decode_rune. rewrite code_chr by lia. by rewrite (proj2 (Z.ltb_lt r 128)).
  - unfold decode_rune, cont, low6. enc_codes.
  - unfold decode_rune, in_range, cont, low6, second_lo, second_hi. enc_codes.
  - unfold decode_rune, in_range, cont, low6, second_lo, second_hi. enc_codes.
Qed.

(** The bytes of a multi-byte sequence are those of its rune. *)
Lemma valid_rune_spec r : valid_rune r = true <-> 0 <= r <= 1114111 /\ (r < 55296 \/ 57343 < r).
Proof.
  unfold valid_rune, is_surrogate. rewrite !andb_true_iff, negb_true_iff, andb_false_iff, !Z.leb_le, !Z.leb_gt. lia.
Qed.

Ltac chr_is c := transitivity (chr (code c)); [f_equal; Z.div_mod_to_equations; lia|apply chr_code].

Lemma encode_two c0 c1 r :
  194 <= code c0 <= 223 -> 128 <= code c1 <= 191 -> r = (code c0 - 192) * 64 + (code c1 - 128) ->
  valid_rune r = true /\ encode_rune r = [c0; c1].
Proof.
  intros H0 H1 Hr. assert (Hv : valid_rune r = true) by (apply valid_rune_spec; lia). split; [done|].
  unfold encode_rune. rewrite Hv. simpl negb. cbv iota.
  rewrite (proj2 (Z.ltb_ge r 128)), (proj2 (Z.ltb_lt r 2048)) by lia.
  f_equal; [chr_is c0|f_equal; chr_is c1].
Qed.

Lemma encode_three c0 c1 c2 r :
  224 <= code c0 <= 239 -> second_lo (code c0) <= code c1 <= second_hi (code c0) -> 128 <= code c2 <= 191 ->
  r = (code c0 - 224) * 4096 + (code c1 - 128) * 64 + (code c2 - 128) ->
  valid_rune r = true /\ encode_rune r = [c0; c1; c2].
Proof.
  unfold second_lo, second_hi. intros H0 H1 H2 Hr.
  assert (Hv : 2048 <= r < 65536 /\ valid_rune r = true /\ 128 <= code c1 <= 191).
  { rewrite valid_rune_spec. zbool; lia. }
  destruct Hv as (Hb & Hv & Hc). split; [done|].
  unfold encode_rune. rewrite Hv. simpl negb. cbv iota.
  rewrite (proj2 (Z.ltb_ge r 128)), (proj2 (Z.ltb_ge r 2048)), (proj2 (Z.ltb_lt r 65536)) by lia.
  clear H1. f_equal; [chr_is c0|f_equal; [chr_is c1|f_equal; chr_is c2]].
Qed.

Lemma encode_four c0 c1 c2 c3 r :
  240 <= code c0 <= 244 -> second_lo (code c0) <= code c1 <= second_hi (code c0) ->
  128 <= code c2 <= 191 -> 128 <= code c3 <= 191 ->
  r = (code c0 - 240) * 262144 + (code c1 - 128) * 4096 + (code c2 - 128) * 64 + (code c3 - 128) ->
  valid_rune r = true /\ encode_rune r = [c0; c1; c2; c3].
Proof.
  unfold second_lo, second_hi. intros H0 H1 H2 H3 Hr.
  assert (Hv : 65536 <= r /\ valid_rune r = true /\ 128 <= code c1 <= 191).
  { rewrite valid_rune_spec. zbool; lia. }
  destruct Hv as (Hb & Hv & Hc). split; [done|].
  unfold encode_rune. rewrite Hv. simpl negb. cbv iota.
  rewrite (proj2 (Z.ltb_ge r 128)), (proj2 (Z.ltb_ge r 2048)), (proj2 (Z.ltb_ge r 65536)) by lia.
  clear H1. f_equal; [chr_is c0|f_equal; [chr_is c1|f_equal; [chr_is c2|f_equal; chr_is c3]]].
Qed.

(** What was decoded is the encoding of the rune. *)
Lemma decode_rune_spec s r n :
  decode_rune s = Some (r, n) ->
  valid_rune r = true /\ n = length (encode_rune r) /\ exists t, s = encode_rune r ++ t.
Proof.
  destruct s as [|c0 s1]; [done|]. unfold decode_rune, in_range, cont, low6.
  pose proof (code_range c0) as R0.
  destruct (Z.ltb_spec (code c0) 128).
  { intros [= <- <-]. assert (Hv : valid_rune (code c0) = true) by (apply valid_rune_spec; lia).
    split; [done|]. unfold encode_rune. rewrite Hv. simpl negb. cbv iota.
    rewrite (proj2 (Z.ltb_lt _ 128)) by done. rewrite chr_code. eauto. }
  repeat case_match; try done; intros [= <- <-]; subst;
    repeat match goal with H : _ && _ = true |- _ => apply andb_true_iff in H as [? ?] end;
    repeat match goal with H : Z.leb _ _ = true |- _ => apply Z.leb_le in H end.
  - edestruct encode_two as [Hv He]; [| |reflexivity|rewrite He; eauto]; lia.
  - edestruct encode_three as [Hv He]; [| | |reflexivity|rewrite He; eauto]; lia.
  - edestruct encode_four as [Hv He]; [| | | |reflexivity|rewrite He; eauto]; lia.
Qed.

Lemma runes_encode r s : valid_rune r = true -> runes (encode_rune r ++ s) = r :: runes s.
Proof.
  intros Hv. unfold runes. erewrite (walk_app _ (encode_rune r) s [r]); [done| |].
  - unfold encode_rune. by repeat case_match.
  - unfold front_rune. by rewrite decode_encode.
Qed.

Lemma encode_invalid r : valid_rune r = false -> encode_rune r = encode_rune rune_error.
Proof. intros H. unfold encode_rune. by rewrite H. Qed.

Definition clean_rune (r : Z) : Z := if valid_rune r then r else rune_error.

Lemma encode_clean r : encode_rune r = encode_rune (clean_rune r).
Proof. unfold clean_rune. destruct (valid_rune r) eqn:E; [done|by apply encode_invalid]. Qed.

Lemma valid_clean r : valid_rune (clean_rune r) = true.
Proof. unfold clean_rune. by destruct (valid_rune r) eqn:E. Qed.

Lemma runes_flat_map rs s : runes (flat_map encode_rune rs ++ s) = (clean_rune <$> rs) ++ runes s.
Proof.
  induction rs as [|r rs IH]; [done|]. simpl. rewrite <- app_assoc, encode_clean, runes_encode by apply valid_clean.
  by rewrite IH.
Qed.

Lemma flat_map_clean rs : flat_map encode_rune (clean_rune <$> rs) = flat_map encode_rune rs.
Proof. induction rs as [|r rs IH]; [done|]. rewrite fmap_cons. cbn [flat_map]. by rewrite IH, <- encode_clean. Qed.

(** Whatever runes are written, the result is valid UTF-8. *)
Lemma valid_flat_map rs : valid_utf8 (flat_map encode_rune rs).
Proof.
  pose proof (runes_flat_map rs []) as H. rewrite app_nil_r in H. unfold valid_utf8, sanitized.
  rewrite H. change (runes []) with (@nil Z). rewrite app_nil_r. apply flat_map_clean.
Qed.

Lemma valid_sanitized s : valid_utf8 (sanitized s).
Proof. apply valid_flat_map. Qed.

Lemma sanitized_step c s :
  sanitized (c :: s) = encode_rune (front_rune (c :: s)).1 ++ sanitized (drop (front_rune (c :: s)).2 (c :: s)).
Proof.
  unfold sanitized, runes at 1. rewrite walk_step. unfold runes. destruct (front_rune (c :: s)) as [r n] eqn:E.
  simpl fst; simpl snd. rewrite flat_map_app. simpl flat_map at 1. rewrite app_nil_r. do 3 f_equal.
  unfold front_rune in E. destruct (decode_rune (c :: s)) as [[r' n']|] eqn:Ed; injection E as <- <-; [|done].
  apply decode_rune_spec in Ed as (_ & -> & _). f_equal. unfold encode_rune. repeat case_match; done.
Qed.

End Utf8.
