(* ===== verification/Strconv.v ===== *)
(** * Integers and their decimal texts

    The parts of Go's [strconv] the program uses: [Itoa], [Atoi], and
    [ParseUint] in base ten at a bit size. *)

From Stdlib Require Import ZArith Lia Ascii String.
From stdpp Require Import base option list strings.
From S2P Require Import Prelude GoStrings Utf8.

Module Strconv.
Import GoStrings Utf8.

Definition digits (ds : bytes) : Prop := Forall (fun c => is_digit c = true) ds.

(** Decimal digits of a positive integer. *)
Fixpoint dec_go (fuel : nat) (z : Z) (acc : bytes) : bytes :=
  match fuel with
  | O => acc
  | S fuel => let acc := chr (48 + z mod 10) :: acc in if z <? 10 then acc else dec_go fuel (z / 10) acc
  end.

Definition dec_digits (z : Z) : bytes := dec_go (S (Z.to_nat (Z.log2 z))) z [].

(** [strconv.Itoa]. *)
Definition Itoa (z : Z) : bytes :=
  match z with
  | Z0 => ["0"%char]
  | Zpos _ => dec_digits z
  | Zneg _ => "-"%char :: dec_digits (- z)
  end.

(** Digits and nothing else, at least one. *)
Definition parse_digits (ds : bytes) : option Z :=
  if bool_decide (ds = []) || negb (forallb is_digit ds) then None else Some (dec_value ds).

(** [strconv.Atoi]: an optional sign, digits, and the range of [int]. *)
Definition Atoi (s : bytes) : option Z :=
  let '(neg, ds) :=
    match s with
    | c :: s' => if Ascii.eqb c "-" then (true, s') else if Ascii.eqb c "+" then (false, s') else (false, s)
    | [] => (false, s)
    end in
  n ← parse_digits ds;
  let v := if neg : bool then - n else n in
  if (min_int64 <=? v) && (v <=? max_int64) then Some v else None.

(** [strconv.ParseUint(s, 10, bits)]. *)
Definition ParseUint10 (bits : Z) (s : bytes) : option Z :=
  n ← parse_digits s; if n <? 2 ^ bits then Some n else None.

(** ** Lemmas *)

Lemma is_digit_chr z : 0 <= z < 10 -> is_digit (chr (48 + z)) = true.
Proof. intros H. unfold is_digit. rewrite code_chr by lia. zbool; done || lia. Qed.

Lemma dec_go_spec fuel : forall z acc,
  0 < z < 2 ^ Z.of_nat fuel -> digits acc ->
  exists c ds, dec_go fuel z acc = c :: ds /\ c <> "0"%char /\ digits (c :: ds).
Proof.
  induction fuel as [|fuel IH]; intros z acc Hz Hacc; [simpl in Hz; lia|]. simpl dec_go.
  pose proof (Z.mod_pos_bound z 10 ltac:(lia)) as Hm.
  assert (Hd : digits (chr (48 + z mod 10) :: acc)) by (constructor; [by apply is_digit_chr|done]).
  destruct (Z.ltb_spec z 10).
  - eexists _, _. split_and!; [done| |done]. rewrite Z.mod_small by lia. intros Hc%(f_equal code).
    rewrite code_chr in Hc by lia. vm_compute (code "0") in Hc. lia.
  - apply IH; [|done]. rewrite Nat2Z.inj_succ, Z.pow_succ_r in Hz by lia. Z.div_mod_to_equations. lia.
Qed.

Lemma dec_digits_spec z : 0 < z -> exists c ds, dec_digits z = c :: ds /\ c <> "0"%char /\ digits (c :: ds).
Proof.
  intros Hz. apply dec_go_spec; [|constructor]. pose proof (Z.log2_nonneg z). pose proof (Z.log2_spec z Hz).
  rewrite Nat2Z.inj_succ, Z2Nat.id by lia. lia.
Qed.

Lemma dec_go_value fuel : forall z acc,
  0 < z < 2 ^ Z.of_nat fuel -> dec_value (dec_go fuel z acc) = z * 10 ^ Z.of_nat (length acc) + dec_value acc.
Proof.
  assert (Hcons : forall c acc, dec_value (c :: acc) = digit_val c * 10 ^ Z.of_nat (length acc) + dec_value acc).
  { intros c acc. induction acc as [|x acc IH] using rev_ind; [unfold dec_value; simpl; lia|].
    rewrite app_comm_cons, !dec_value_snoc, IH, length_app. simpl length.
    rewrite Nat2Z.inj_add, Z.pow_add_r by lia. change (10 ^ Z.of_nat 1) with 10. ring. }
  induction fuel as [|fuel IH]; intros z acc Hz; [simpl in Hz; lia|]. simpl dec_go.
  pose proof (Z.mod_pos_bound z 10 ltac:(lia)) as Hm.
  assert (Hd : digit_val (chr (48 + z mod 10)) = z mod 10) by (unfold digit_val; rewrite code_chr by lia; lia).
  destruct (Z.ltb_spec z 10).
  - rewrite Hcons, Hd, Z.mod_small by lia. done.
  - rewrite IH, Hcons, Hd by (rewrite Nat2Z.inj_succ, Z.pow_succ_r in Hz by lia; Z.div_mod_to_equations; lia).
    simpl length. rewrite Nat2Z.inj_succ, Z.pow_succ_r by lia.
    rewrite (Z.div_mod z 10) at 3 by lia. ring.
Qed.

Lemma parse_digits_dec z : 0 < z -> parse_digits (dec_digits z) = Some z.
Proof.
  intros Hz. destruct (dec_digits_spec z Hz) as (c & ds & E & _ & Hd). unfold parse_digits.
  assert (Hv : dec_value (dec_digits z) = z).
  { unfold dec_digits. pose proof (Z.log2_nonneg z). pose proof (Z.log2_spec z Hz).
    rewrite dec_go_value by (rewrite Nat2Z.inj_succ, Z2Nat.id by lia; lia).
    change (dec_value []) with 0. simpl length. lia. }
  rewrite Hv, E. rewrite bool_decide_eq_false_2 by done.
  rewrite (proj2 (forallb_forall is_digit (c :: ds))); [done|].
  intros x Hx%list_elem_of_In. by eapply Forall_forall in Hd.
Qed.

(** Every [int] is read back. *)
Lemma Atoi_Itoa z : in_int64 z -> Atoi (Itoa z) = Some z.
Proof.
  intros Hz. unfold in_int64 in Hz.
  assert (Hr : (min_int64 <=? z) && (z <=? max_int64) = true) by (apply andb_true_iff; lia).
  destruct z as [|p|p]; [by vm_compute| |].
  - cbn [Itoa]. destruct (dec_digits_spec (Zpos p)) as (c & ds & E & _ & Hd); [lia|].
    pose proof (parse_digits_dec (Zpos p) ltac:(lia)) as Hp. rewrite E in Hp |- *. unfold Atoi.
    apply Forall_cons_1 in Hd as [Hc _].
    destruct (Ascii.eqb_spec c "-") as [->|_]; [by vm_compute in Hc|].
    destruct (Ascii.eqb_spec c "+") as [->|_]; [by vm_compute in Hc|].
    rewrite Hp. cbn [mbind option_bind]. by rewrite Hr.
  - cbn [Itoa]. change (- Zneg p) with (Zpos p). unfold Atoi. rewrite Ascii.eqb_refl.
    rewrite parse_digits_dec by lia. cbn [mbind option_bind]. change (- Zpos p) with (Zneg p). by rewrite Hr.
Qed.

Lemma parse_digits_range ds n : parse_digits ds = Some n -> 0 <= n.
Proof.
  unfold parse_digits. destruct (bool_decide _); [done|]. destruct (forallb is_digit ds) eqn:E; [|done].
  intros [= <-]. apply dec_value_nonneg, Forall_forall. intros c Hc. apply (proj1 (forallb_forall is_digit ds) E).
  by apply list_elem_of_In.
Qed.

Lemma ParseUint10_range bits s n : ParseUint10 bits s = Some n -> 0 <= n < 2 ^ bits.
Proof.
  unfold ParseUint10. intros (m & Hm & H)%bind_Some. apply parse_digits_range in Hm.
  destruct (Z.ltb_spec m (2 ^ bits)); [|done]. injection H as <-. lia.
Qed.

End Strconv.
