(* ===== verification/Stream.v ===== *)
(** * Byte streams

    A connection as the script of what its next [Read]s return.  A script decides
    how the bytes are cut up and where an error comes, so a theorem over all
    scripts is one over all timings of the network.  [Read] and [io.ReadFull] are
    the two ways the program takes bytes off one. *)

From Stdlib Require Import ZArith Lia Ascii String.
From stdpp Require Import base option list.
From S2P Require Import Prelude GoStrings.

Module Stream.
Import GoStrings.

Inductive connError := Timeout | EOF | UnexpectedEOF | Broken (msg : string).

(** One return of [Conn.Read]. *)
Record event := { ev_bytes : bytes; ev_err : option connError }.

(** An exhausted script is a connection the peer has closed. *)
Definition conn : Type := list event.

Definition leftover (k : nat) (ev : event) : event := {| ev_bytes := drop k (ev_bytes ev); ev_err := ev_err ev |}.

(** [Conn.Read] into a buffer of [k] bytes. *)
Definition Read (k : nat) (c : conn) : bytes * option connError * conn :=
  match c with
  | [] => ([], Some EOF, [])
  | ev :: c' =>
      if (length (ev_bytes ev) <=? k)%nat then (ev_bytes ev, ev_err ev, c')
      else (take k (ev_bytes ev), None, leftover k ev :: c')
  end.

(** [io.ReadFull]: an error that comes with the last byte is dropped; the end
    of the stream after some bytes is [ErrUnexpectedEOF]. *)
Fixpoint read_at_least (started : bool) (need : nat) (c : conn) : bytes * option connError * conn :=
  match need, c with
  | O, _ => ([], None, c)
  | S _, [] => ([], Some (if started then UnexpectedEOF else EOF), [])
  | S _, ev :: c' =>
      let n := length (ev_bytes ev) in
      if (need <? n)%nat then (take need (ev_bytes ev), None, leftover need ev :: c')
      else if (need =? n)%nat then (ev_bytes ev, None, c')
      else
        let started := started || negb (n =? 0)%nat in
        match ev_err ev with
        | Some EOF => (ev_bytes ev, Some (if started then UnexpectedEOF else EOF), c')
        | Some e => (ev_bytes ev, Some e, c')
        | None =>
            let '(bs, err, c'') := read_at_least started (need - n) c' in
            (ev_bytes ev ++ bs, err, c'')
        end
  end.

Definition ReadFull (need : nat) (c : conn) : bytes * option connError * conn := read_at_least false need c.

(** ** Scripts *)

(** All the bytes of a script, and the part before its first error. *)
Definition data (c : conn) : bytes := concat (List.map ev_bytes c).

(** A stream on which no read fails before the end. *)
Definition clean (c : conn) : Prop := Forall (fun ev => ev_err ev = None) c.

(** ** Lemmas *)

Lemma data_leftover k ev c : data (leftover k ev :: c) = drop k (ev_bytes ev) ++ data c.
Proof. done. Qed.

Lemma Read_spec k c bs err c' :
  Read k c = (bs, err, c') -> data c = bs ++ data c' /\ (length bs <= k)%nat.
Proof.
  destruct c as [|ev c0]; simpl; [intros [= <- <- <-]; split; [done|simpl; lia]|].
  destruct (Nat.leb_spec (length (ev_bytes ev)) k); intros [= <- <- <-].
  - split; [done|lia].
  - rewrite data_leftover, app_assoc, take_drop. split; [done|]. rewrite length_take. lia.
Qed.

Lemma read_at_least_spec c : forall st n bs err c',
  read_at_least st n c = (bs, err, c') ->
  data c = bs ++ data c' /\ (err = None -> length bs = n) /\ (is_Some err -> (length bs < n)%nat) /\ (clean c -> clean c').
Proof.
  induction c as [|ev c IH]; intros st n bs err c' H.
  - destruct n; injection H as <- <- <-; split_and!; try done. intros _. simpl. lia.
  - destruct n as [|n].
    { injection H as <- <- <-. by split_and!. }
    cbn [read_at_least] in H. destruct (Nat.ltb_spec (S n) (length (ev_bytes ev))).
    { injection H as <- <- <-. rewrite data_leftover, app_assoc, take_drop. split_and!; [done| |by intros [? ?]|].
      - intros _. rewrite length_take. lia.
      - intros [He Hc]%Forall_cons_1. by constructor. }
    destruct (Nat.eqb_spec (S n) (length (ev_bytes ev))).
    { injection H as <- <- <-. split_and!; [done|done|by intros [? ?]|by intros [? ?]%Forall_cons_1]. }
    destruct (ev_err ev) as [e|] eqn:Ee.
    { assert (bs = ev_bytes ev /\ is_Some err /\ c' = c) as (-> & [e' ->] & ->) by (destruct e; injection H as <- <- <-; eauto).
      split_and!; [done|done|intros _; lia|by intros [? ?]%Forall_cons_1]. }
    destruct (read_at_least _ _ c) as [[bs0 err0] c0] eqn:E. injection H as <- <- <-.
    apply IH in E as (Hd & Hl & Hs & Hc). rewrite length_app. split_and!.
    + change (data (ev :: c)) with (ev_bytes ev ++ data c). by rewrite Hd, app_assoc.
    + intros ->. rewrite Hl by done. lia.
    + intros Hs'. apply Hs in Hs'. lia.
    + intros [_ ?]%Forall_cons_1. by apply Hc.
Qed.

(** On a clean stream that holds the bytes asked for, they are what is read. *)
Lemma ReadFull_clean n c pre rest :
  clean c -> data c = pre ++ rest -> length pre = n ->
  exists c', ReadFull n c = (pre, None, c') /\ clean c' /\ data c' = rest.
Proof.
  intros Hc Hd Hn. destruct (ReadFull n c) as [[bs err] c'] eqn:E.
  pose proof E as E'. apply read_at_least_spec in E' as (Hd' & Hl & _ & Hc').
  assert (err = None) as ->.
  { clear Hd' Hl Hc'. subst n. unfold ReadFull in E. revert E. generalize false. revert pre Hd bs err c'.
    induction c as [|ev c IH]; intros pre Hd bs err c' st H.
    - destruct pre; [|done]. by injection H as <- <- <-.
    - apply Forall_cons_1 in Hc as [He Hc]. destruct (length pre) as [|n] eqn:El; [by injection H as <- <- <-|].
      cbn [read_at_least] in H. destruct (Nat.ltb_spec (S n) (length (ev_bytes ev))); [by injection H as <- <- <-|].
      destruct (Nat.eqb_spec (S n) (length (ev_bytes ev))); [by injection H as <- <- <-|]. rewrite He in H.
      destruct (read_at_least _ _ c) as [[bs0 err0] c0] eqn:E. injection H as <- <- <-.
      assert (Hp : pre = ev_bytes ev ++ drop (length (ev_bytes ev)) pre).
      { change (ev_bytes ev ++ data c = pre ++ rest) in Hd. apply (f_equal (take (length (ev_bytes ev)))) in Hd.
        rewrite take_app_length, take_app_le in Hd by lia. rewrite Hd at 1. by rewrite take_drop. }
      refine (IH Hc (drop (length (ev_bytes ev)) pre) _ bs0 err0 c0 _ _).
      + change (ev_bytes ev ++ data c = pre ++ rest) in Hd. rewrite Hp, <- app_assoc in Hd. by apply app_inv_head in Hd.
      + rewrite length_drop, El. exact E. }
  rewrite Hd in Hd'. apply app_inj_1 in Hd' as [-> ->]; [|rewrite Hl; auto]. eauto.
Qed.

End Stream.
