(* ===== verification/Trim.v ===== *)
(** * White space at the ends

    When [strings.TrimSpace] leaves a text alone, and what it takes off. *)

From Stdlib Require Import ZArith Lia Ascii String.
From stdpp Require Import base option list.
From S2P Require Import Prelude GoStrings Utf8.

Module Trim.
Import GoStrings Utf8.

Definition LF : ascii := chr 10.

Definition plain (c : ascii) : Prop := 33 <= code c <= 126.

Definition trimmed (s : bytes) : Prop :=
  space_len space_seqs s = 0%nat /\ space_len (@rev ascii <$> space_seqs) (rev s) = 0%nat.

Lemma trim_trimmed s : trimmed s -> trim_bytes s = s.
Proof. intros [H1 H2]. unfold trim_bytes. by rewrite (trim_left_fixed _ _ s), trim_left_fixed, rev_involutive. Qed.

(** No white-space sequence begins or ends with a plain character. *)
Definition starts_odd (q : bytes) : bool :=
  match q with b :: _ => (code b <? 33) || (126 <? code b) | [] => false end.

Lemma space_len_plain seqs c s : forallb starts_odd seqs = true -> plain c -> space_len seqs (c :: s) = 0%nat.
Proof.
  intros Hs Hc. unfold space_len. induction seqs as [|q seqs IH]; [done|].
  cbn [forallb] in Hs. apply andb_true_iff in Hs as [Hq Hs]. cbn [List.find].
  destruct q as [|b q]; [done|]. cbn [has_prefix]. destruct (Ascii.eqb_spec b c) as [->|]; [|by apply IH].
  unfold plain in Hc. cbn [starts_odd] in Hq. zbool; done || lia.
Qed.

Lemma lead_plain c s : plain c -> space_len space_seqs (c :: s) = 0%nat.
Proof. apply space_len_plain. vm_compute. reflexivity. Qed.

Lemma trail_plain c s : plain c -> space_len (@rev ascii <$> space_seqs) (c :: s) = 0%nat.
Proof. apply space_len_plain. vm_compute. reflexivity. Qed.

#[local] Opaque space_seqs.

Lemma trimmed_plain s c d : head s = Some c -> last s = Some d -> plain c -> plain d -> trimmed s.
Proof.
  intros Hh Hl Hc Hd. split.
  - destruct s as [|x s]; [done|]. injection Hh as ->. exact (lead_plain c s Hc).
  - apply last_Some in Hl as [s' ->]. rewrite rev_app_distr. exact (trail_plain d (rev s') Hd).
Qed.

#[local] Transparent space_seqs.

Lemma trim_lead s : trim_bytes (" "%char :: s) = trim_bytes s.
Proof. reflexivity. Qed.

Lemma trim_left_step seqs fuel s n :
  space_len seqs s = S n -> trim_left seqs (S fuel) s = trim_left seqs fuel (drop (S n) s).
Proof. intros H. cbn [trim_left]. by rewrite H. Qed.

Lemma trim_tail s x : trimmed s -> x = " "%char \/ x = LF -> s <> [] -> (exists c t, s = c :: t /\ plain c) -> trim_bytes (s ++ [x]) = s.
Proof.
  intros [H1 H2] Hx Hne (c & t & -> & Hc). unfold trim_bytes. rewrite (trim_left_fixed _ _ ((c :: t) ++ [x]))
    by exact (lead_plain c (t ++ [x]) Hc).
  rewrite rev_app_distr, length_app. cbn [rev app length]. rewrite Nat.add_comm. cbn [Nat.add].
  assert (Hs : forall l, space_len (@rev ascii <$> space_seqs) (x :: l) = 1%nat) by (intros l; destruct Hx as [-> | ->]; done).
  rewrite (trim_left_step _ _ _ 0) by apply Hs. cbn [drop]. rewrite trim_left_fixed by exact H2.
  exact (rev_involutive (c :: t)).
Qed.

Lemma all_plain_trimmed s : Forall plain s -> trimmed s.
Proof.
  intros H. destruct s as [|c s]; [split; vm_compute; reflexivity|].
  destruct (last (c :: s)) as [d|] eqn:E; [|by apply last_None in E].
  apply (trimmed_plain _ c d); [done|done|by apply Forall_cons_1 in H as [? _]|].
  apply last_Some_elem_of in E. by eapply Forall_forall in H.
Qed.

End Trim.
