(* ===== verification/Json.v ===== *)
(** * JSON text

    The grammar of [encoding/json]: the scanner of [checkValid] with its nesting
    limit, as a recursive-descent parser into a tree that keeps the text of
    strings and numbers; [Compact] with HTML escaping, which is how a
    [json.RawMessage] is marshalled; the string encoder and decoder.  A
    [RawMessage] is represented by the tree of its text: the program only
    stores it, decodes it or marshals it, and marshalling compacts it, so the
    white space between its tokens cannot be observed. *)

From Stdlib Require Import ZArith Lia Ascii String.
From stdpp Require Import base option list.
From S2P Require Import Prelude GoStrings Utf8.

Module Json.
Import GoStrings Utf8.

(** ** Trees *)

(** A number literal by its parts: sign, integer digits, fraction digits, and
    the exponent with its letter and sign as written. *)
Record number := {
  n_neg : bool;
  n_int : bytes;
  n_frac : option bytes;
  n_exp : option (ascii * option ascii * bytes);
}.

Inductive json :=
| JNull
| JBool (b : bool)
| JNum (n : number)
| JStr (raw : bytes)                     (* the text between the quotes *)
| JArr (l : list json)
| JObj (l : list (bytes * json)).        (* keys as written, in order *)

Definition dquote : ascii := byte 34.
Definition bslash : ascii := byte 92.

(** ** Lexical elements *)

Fixpoint skip_ws (s : bytes) : bytes :=
  match s with
  | c :: s' => if is_json_space c then skip_ws s' else s
  | [] => []
  end.

Definition is_hex (c : ascii) : bool :=
  is_digit c || ((65 <=? code c) && (code c <=? 70)) || ((97 <=? code c) && (code c <=? 102)).

(** The escapes other than [u]. *)
Definition simple_escape (c : ascii) : option ascii :=
  if Ascii.eqb c dquote then Some dquote
  else if Ascii.eqb c bslash then Some bslash
  else if Ascii.eqb c "/" then Some "/"%char
  else if Ascii.eqb c "b" then Some (byte 8)
  else if Ascii.eqb c "f" then Some (byte 12)
  else if Ascii.eqb c "n" then Some (byte 10)
  else if Ascii.eqb c "r" then Some (byte 13)
  else if Ascii.eqb c "t" then Some (byte 9)
  else None.

(** After the opening quote: the raw text and what follows the closing quote. *)
Fixpoint string_lit (s : bytes) : option (bytes * bytes) :=
  match s with
  | [] => None
  | c :: s1 =>
      if Ascii.eqb c dquote then Some ([], s1)
      else if Ascii.eqb c bslash then
        match s1 with
        | e :: s2 =>
            if bool_decide (is_Some (simple_escape e)) then
              '(r, t) ← string_lit s2; Some (c :: e :: r, t)
            else if Ascii.eqb e "u" then
              match s2 with
              | h1 :: h2 :: h3 :: h4 :: s3 =>
                  if forallb is_hex [h1; h2; h3; h4] then
                    '(r, t) ← string_lit s3; Some (c :: e :: h1 :: h2 :: h3 :: h4 :: r, t)
                  else None
              | _ => None
              end
            else None
        | [] => None
        end
      else if code c <? 32 then None
      else '(r, t) ← string_lit s1; Some (c :: r, t)
  end.

Definition is_e (c : ascii) : bool := Ascii.eqb c "e" || Ascii.eqb c "E".
Definition is_sign (c : ascii) : bool := Ascii.eqb c "+" || Ascii.eqb c "-".

Definition lex_int (s : bytes) : option (bytes * bytes) :=
  match s with
  | c :: t =>
      if Ascii.eqb c "0" then Some ([c], t)
      else if is_digit c then Some (span is_digit s) else None
  | [] => None
  end.

Definition lex_digits (s : bytes) : option (bytes * bytes) :=
  let '(ds, t) := span is_digit s in
  match ds with [] => None | _ => Some (ds, t) end.

Definition lex_frac (s : bytes) : option (option bytes * bytes) :=
  match s with
  | c :: t => if Ascii.eqb c "." then '(ds, t) ← lex_digits t; Some (Some ds, t) else Some (None, s)
  | [] => Some (None, s)
  end.

Definition lex_exp (s : bytes) : option (option (ascii * option ascii * bytes) * bytes) :=
  match s with
  | c :: t =>
      if is_e c then
        let '(sg, t) := match t with d :: t' => if is_sign d then (Some d, t') else (None, t) | [] => (None, t) end in
        '(ds, t) ← lex_digits t; Some (Some (c, sg, ds), t)
      else Some (None, s)
  | [] => Some (None, s)
  end.

Definition lex_number (s : bytes) : option (number * bytes) :=
  let '(neg, s) := match s with c :: t => if Ascii.eqb c "-" then (true, t) else (false, s) | [] => (false, s) end in
  '(i, s) ← lex_int s;
  '(f, s) ← lex_frac s;
  '(e, s) ← lex_exp s;
  Some ({| n_neg := neg; n_int := i; n_frac := f; n_exp := e |}, s).

Definition lex_word (w s : bytes) : option bytes :=
  if has_prefix w s then Some (drop (length w) s) else None.

(** ** The parser *)

Definition maxNestingDepth : Z := 10000.

(** [value] at the first character of a value, [elements] at the first
    character of an array element, [members] at the opening quote of a key;
    [d] is the number of containers open around it. *)
Fixpoint value (fuel : nat) (d : Z) (s : bytes) : option (json * bytes) :=
  match fuel with
  | O => None
  | S fuel' =>
      match s with
      | [] => None
      | c :: t =>
          if Ascii.eqb c dquote then '(r, t) ← string_lit t; Some (JStr r, t)
          else if Ascii.eqb c "{" then
            if maxNestingDepth <? d + 1 then None
            else match skip_ws t with
                 | c' :: t' => if Ascii.eqb c' "}" then Some (JObj [], t')
                               else '(ms, t) ← members fuel' (d + 1) (c' :: t'); Some (JObj ms, t)
                 | [] => None
                 end
          else if Ascii.eqb c "[" then
            if maxNestingDepth <? d + 1 then None
            else match skip_ws t with
                 | c' :: t' => if Ascii.eqb c' "]" then Some (JArr [], t')
                               else '(vs, t) ← elements fuel' (d + 1) (c' :: t'); Some (JArr vs, t)
                 | [] => None
                 end
          else if Ascii.eqb c "t" then t ← lex_word (to_bytes "true") s; Some (JBool true, t)
          else if Ascii.eqb c "f" then t ← lex_word (to_bytes "false") s; Some (JBool false, t)
          else if Ascii.eqb c "n" then t ← lex_word (to_bytes "null") s; Some (JNull, t)
          else '(n, t) ← lex_number s; Some (JNum n, t)
      end
  end
with elements (fuel : nat) (d : Z) (s : bytes) : option (list json * bytes) :=
  match fuel with
  | O => None
  | S fuel' =>
      '(v, t) ← value fuel' d s;
      match skip_ws t with
      | c :: t => if Ascii.eqb c "," then '(vs, t) ← elements fuel' d (skip_ws t); Some (v :: vs, t)
                  else if Ascii.eqb c "]" then Some ([v], t) else None
      | [] => None
      end
  end
with members (fuel : nat) (d : Z) (s : bytes) : option (list (bytes * json) * bytes) :=
  match fuel with
  | O => None
  | S fuel' =>
      match s with
      | c :: t =>
          if Ascii.eqb c dquote then
            '(k, t) ← string_lit t;
            match skip_ws t with
            | c :: t =>
                if Ascii.eqb c ":" then
                  '(v, t) ← value fuel' d (skip_ws t);
                  match skip_ws t with
                  | c :: t => if Ascii.eqb c "," then '(ms, t) ← members fuel' d (skip_ws t); Some ((k, v) :: ms, t)
                              else if Ascii.eqb c "}" then Some ([(k, v)], t) else None
                  | [] => None
                  end
                else None
            | [] => None
            end
          else None
      | [] => None
      end
  end.

(** Every call of the parser consumes a character or hands the same input to
    [value]: twice the length is fuel enough. *)
Definition fuel_for (s : bytes) : nat := 2 * length s + 2.

(** A whole document: the text [json.Unmarshal] accepts. *)
Definition parse (s : bytes) : option json :=
  let s := skip_ws s in
  '(v, t) ← value (fuel_for s) 0 s;
  match skip_ws t with [] => Some v | _ => None end.

(** ** Printing *)

Definition num_text (n : number) : bytes :=
  (if n_neg n then ["-"%char] else []) ++ n_int n ++
  match n_frac n with Some ds => "."%char :: ds | None => [] end ++
  match n_exp n with
  | Some (e, sg, ds) => e :: match sg with Some c => [c] | None => [] end ++ ds
  | None => []
  end.

Fixpoint join (l : list bytes) : bytes :=
  match l with
  | [] => []
  | [x] => x
  | x :: l => x ++ ","%char :: join l
  end.

Definition quoted (raw : bytes) : bytes := dquote :: raw ++ [dquote].

Fixpoint print (v : json) : bytes :=
  match v with
  | JNull => to_bytes "null"
  | JBool b => to_bytes (if b then "true" else "false")
  | JNum n => num_text n
  | JStr r => quoted r
  | JArr l => "["%char :: join (List.map print l) ++ ["]"%char]
  | JObj l => "{"%char :: join (List.map (fun kv => quoted kv.1 ++ ":"%char :: print kv.2) l) ++ ["}"%char]
  end.

(** ** String contents *)

Definition hex_val (c : ascii) : Z :=
  if is_digit c then code c - 48 else if (97 <=? code c) then code c - 87 else code c - 55.

Definition hex4 (h1 h2 h3 h4 : ascii) : Z :=
  hex_val h1 * 4096 + hex_val h2 * 256 + hex_val h3 * 16 + hex_val h4.

Definition u_escape (s : bytes) : option Z :=
  match s with
  | b :: u :: h1 :: h2 :: h3 :: h4 :: _ =>
      if Ascii.eqb b bslash && Ascii.eqb u "u" && forallb is_hex [h1; h2; h3; h4]
      then Some (hex4 h1 h2 h3 h4) else None
  | _ => None
  end.

(** [utf16.DecodeRune] on a surrogate pair. *)
Definition pair_rune (r1 r2 : Z) : option Z :=
  if (55296 <=? r1) && (r1 <? 56320) && (56320 <=? r2) && (r2 <? 57344)
  then Some ((r1 - 55296) * 1024 + (r2 - 56320) + 65536) else None.

(** One element of a string literal: the rune it denotes and its length. *)
Definition unquote_step (s : bytes) : list Z * nat :=
  match u_escape s with
  | Some r =>
      if is_surrogate r then
        match u_escape (drop 6 s) ≫= pair_rune r with
        | Some r' => ([r'], 12%nat)
        | None => ([rune_error], 6%nat)
        end
      else ([r], 6%nat)
  | None =>
      match s with
      | b :: e :: _ =>
          if Ascii.eqb b bslash
          then ([code (default e (simple_escape e))], 2%nat)
          else let '(r, n) := front_rune s in ([r], n)
      | _ => let '(r, n) := front_rune s in ([r], n)
      end
  end.

(** [unquote] on the text between the quotes. *)
Definition unquote (raw : bytes) : bytes := flat_map encode_rune (walk unquote_step raw).

Definition hex_digit (z : Z) : ascii := if z <? 10 then chr (48 + z) else chr (87 + z).

Definition u_text (r : Z) : bytes :=
  [bslash; "u"%char; hex_digit (r / 4096 mod 16); hex_digit (r / 256 mod 16); hex_digit (r / 16 mod 16);
   hex_digit (r mod 16)].

(** The encoding of one rune inside a string, HTML escaping on; [None] is a
    malformed byte. *)
Definition esc_rune (r : Z) : bytes :=
  if (r =? 34) || (r =? 92) then [bslash; chr r]
  else if r =? 8 then [bslash; "b"%char]
  else if r =? 12 then [bslash; "f"%char]
  else if r =? 10 then [bslash; "n"%char]
  else if r =? 13 then [bslash; "r"%char]
  else if r =? 9 then [bslash; "t"%char]
  else if (r <? 32) || (r =? 60) || (r =? 62) || (r =? 38) || (r =? 8232) || (r =? 8233) then u_text r
  else encode_rune r.

Definition escape_step (s : bytes) : bytes * nat :=
  match decode_rune s with
  | Some (r, n) => (esc_rune r, n)
  | None => (u_text rune_error, 1%nat)
  end.

(** [appendString] without the quotes. *)
Definition escape (s : bytes) : bytes := walk escape_step s.

(** [Compact] with escaping rewrites these characters of the text. *)
Definition html_step (s : bytes) : bytes * nat :=
  match s with
  | c :: _ =>
      if (code c =? 60) || (code c =? 62) || (code c =? 38) then (u_text (code c), 1%nat)
      else match decode_rune s with
           | Some (r, n) => if (r =? 8232) || (r =? 8233) then (u_text r, n) else ([c], 1%nat)
           | None => ([c], 1%nat)
           end
  | [] => ([], 1%nat)
  end.

Definition html (raw : bytes) : bytes := walk html_step raw.

(** The tree of the text [RawMessage.MarshalJSON] contributes to a document. *)
Fixpoint html_json (v : json) : json :=
  match v with
  | JStr r => JStr (html r)
  | JArr l => JArr (List.map html_json l)
  | JObj l => JObj (List.map (fun kv => (html kv.1, html_json kv.2)) l)
  | v => v
  end.

End Json.
