(* ===== verification/JsonSpec.v ===== *)
(** * Correctness of the JSON model

    The parser reads back what the printer writes, its fuel is enough, the trees
    it returns are exactly the printable ones, and the string decoder inverts
    the string encoder. *)

From Stdlib Require Import ZArith Lia Ascii String.
From stdpp Require Import base option list.
From S2P Require Import Prelude GoStrings Utf8 Strconv Json.

Module JsonSpec.
Import GoStrings Utf8 Strconv Json.

(** [parser] decomposes the steps of a parser that succeeded. *)
Ltac parser :=
  repeat match goal with
  | H : (_ ≫= _) = Some _ |- _ => apply bind_Some in H as (? & ? & ?)
  | H : (let '(_, _) := ?p in _) = Some _ |- _ => destruct p eqn:?
  | x : (_ * _)%type |- _ => destruct x
  end; simplify_eq/=.

(** ** Induction over trees *)

Section json_induction.
Context (P : json -> Prop).
Hypotheses (Hnull : P JNull) (Hbool : forall b, P (JBool b)) (Hnum : forall n, P (JNum n))
  (Hstr : forall r, P (JStr r)) (Harr : forall l, Forall P l -> P (JArr l))
  (Hobj : forall l, Forall (fun kv => P kv.2) l -> P (JObj l)).

Fixpoint json_tree_ind (v : json) : P v :=
  match v with
  | JNull => Hnull
  | JBool b => Hbool b
  | JNum n => Hnum n
  | JStr r => Hstr r
  | JArr l => Harr l ((fix go l : Forall P l :=
      match l with [] => Forall_nil_2 _ | v :: l => Forall_cons_2 _ _ _ (json_tree_ind v) (go l) end) l)
  | JObj l => Hobj l ((fix go l : Forall (fun kv => P kv.2) l :=
      match l with [] => Forall_nil_2 _ | kv :: l => Forall_cons_2 _ _ _ (json_tree_ind kv.2) (go l) end) l)
  end.
End json_induction.

(** ** Lexical elements *)

Lemma skip_ws_suffix s : exists w, s = w ++ skip_ws s.
Proof.
  induction s as [|c s [w IH]]; simpl; [by exists []|]. destruct (is_json_space c); [|by exists []].
  exists (c :: w). by rewrite IH at 1.
Qed.

Lemma skip_ws_length s : (length (skip_ws s) <= length s)%nat.
Proof. destruct (skip_ws_suffix s) as [w H]. rewrite H at 2. rewrite length_app. lia. Qed.

Definition not_space (s : bytes) : Prop := match s with c :: _ => is_json_space c = false | [] => True end.

Lemma skip_ws_id s : not_space s -> skip_ws s = s.
Proof. destruct s as [|c s]; simpl; [done|]. by intros ->. Qed.

(** The text of a string literal. *)
Definition str_ok (raw : bytes) : Prop := string_lit (raw ++ [dquote]) = Some (raw, []).

Lemma string_lit_app s r t :
  string_lit s = Some (r, t) -> s = r ++ dquote :: t /\ forall t', string_lit (r ++ dquote :: t') = Some (r, t').
Proof.
  revert r t. induction s as [s IH] using (induction_ltof1 _ (@length ascii)). unfold ltof in IH.
  intros r t H. destruct s as [|c s]; [done|]. simpl in H.
  destruct (Ascii.eqb_spec c dquote) as [->|Hq]; [by simplify_eq|].
  destruct (Ascii.eqb_spec c bslash) as [->|Hb].
  - destruct s as [|e s]; [done|]. destruct (bool_decide (is_Some (simple_escape e))) eqn:E1.
    + parser. destruct (IH s ltac:(simpl; lia) _ _ H) as [-> Hr]. split; [done|]. intros t'. simpl.
      by rewrite E1, Hr.
    + destruct (Ascii.eqb_spec e "u") as [->|]; [|done].
      do 4 (destruct s as [|? s]; [done|]). match type of H with (if ?b then _ else _) = _ => destruct b eqn:E2; [|done] end.
      parser. destruct (IH s ltac:(simpl; lia) _ _ H) as [-> Hr]. split; [done|]. intros t'. simpl in *.
      by rewrite E2, Hr.
  - destruct (code c <? 32) eqn:E1; [done|]. parser.
    destruct (IH s ltac:(simpl; lia) _ _ H) as [-> Hr]. split; [done|]. intros t'. simpl.
    rewrite (proj2 (Ascii.eqb_neq c dquote) Hq), (proj2 (Ascii.eqb_neq c bslash) Hb). by rewrite E1, Hr.
Qed.

Lemma str_ok_lit raw t : str_ok raw -> string_lit (raw ++ dquote :: t) = Some (raw, t).
Proof. intros H. by apply string_lit_app in H as [_ H]. Qed.

Lemma string_lit_ok s r t : string_lit s = Some (r, t) -> s = r ++ dquote :: t /\ str_ok r.
Proof. intros H. apply string_lit_app in H as [-> H]. split; [done|apply H]. Qed.

(** The parts of a number literal. *)
Record num_ok (n : number) : Prop := {
  ok_int : n_int n = ["0"%char] \/ exists c ds, n_int n = c :: ds /\ c <> "0"%char /\ digits (c :: ds);
  ok_frac : match n_frac n with Some ds => ds <> [] /\ digits ds | None => True end;
  ok_exp : match n_exp n with
           | Some (e, sg, ds) => is_e e = true /\ match sg with Some c => is_sign c = true | None => True end /\
                                 ds <> [] /\ digits ds
           | None => True
           end;
}.

(** What may follow a number. *)
Definition num_stop (t : bytes) : Prop :=
  match t with c :: _ => is_digit c = false /\ c <> "."%char /\ is_e c = false | [] => True end.

Lemma stop_span t : num_stop t -> t = [] \/ exists c t', t = c :: t' /\ is_digit c = false.
Proof. destruct t as [|c t]; simpl; [by left|]. intros (H & _). right. eauto. Qed.

Lemma lex_digits_app ds t :
  ds <> [] -> digits ds -> (t = [] \/ exists c t', t = c :: t' /\ is_digit c = false) ->
  lex_digits (ds ++ t) = Some (ds, t).
Proof. intros Hne Hd Ht. unfold lex_digits. rewrite span_app by done. by destruct ds. Qed.

Lemma lex_digits_inv s ds t : lex_digits s = Some (ds, t) -> s = ds ++ t /\ ds <> [] /\ digits ds.
Proof.
  unfold lex_digits. pose proof (span_spec is_digit s) as H. destruct (span is_digit s) as [a b].
  destruct H as (-> & Hd & _). destruct a; [done|]. by intros [= <- <-].
Qed.

Lemma exp_head n : num_ok n -> forall t, num_stop t ->
  let e := match n_exp n with Some (e, sg, ds) => e :: match sg with Some c => [c] | None => [] end ++ ds | None => [] end in
  lex_exp (e ++ t) = Some (n_exp n, t) /\ (e ++ t = [] \/ exists c t', e ++ t = c :: t' /\ is_digit c = false /\ c <> "."%char).
Proof.
  intros [_ _ He] t Ht. destruct (n_exp n) as [[[e sg] ds]|]; simpl.
  - destruct He as (He & Hs & Hne & Hd). rewrite He.
    assert (Hsp : is_digit e = false /\ e <> "."%char).
    { unfold is_e in He. apply orb_true_iff in He as [He|He]; apply Ascii.eqb_eq in He; subst; done. }
    split; [|right; eauto]. destruct sg as [c|]; simpl.
    + rewrite Hs, lex_digits_app; auto using stop_span.
    + destruct ds as [|d ds]; [done|]. simpl. assert (Hn : is_sign d = false).
      { inversion Hd as [|? ? H1 _]; subst. unfold is_sign. destruct (Ascii.eqb_spec d "+"), (Ascii.eqb_spec d "-"); by subst. }
      rewrite Hn. change (d :: ds ++ t) with ((d :: ds) ++ t).
      rewrite lex_digits_app; auto using stop_span.
  - destruct t as [|c t]; simpl; [auto|]. destruct Ht as (H1 & H2 & H3). rewrite H3. split; [done|right; eauto].
Qed.

Lemma lex_number_app n t : num_ok n -> num_stop t -> lex_number (num_text n ++ t) = Some (n, t).
Proof.
  intros Hok Ht. destruct (exp_head n Hok t Ht) as [He Hh]. destruct Hok as [Hi Hf _]. unfold num_text.
  destruct n as [ng i f e]. simpl in *. set (et := match e with Some _ => _ | None => _ end) in *. clearbody et.
  rewrite <- !app_assoc.
  assert (Hfrac : lex_frac (match f with Some ds => "."%char :: ds | None => [] end ++ et ++ t) = Some (f, et ++ t)).
  { destruct f as [ds|]; simpl.
    - destruct Hf as [Hne Hd]. rewrite lex_digits_app; [done..|]. destruct Hh as [|(c & t' & H1 & H2 & _)]; eauto.
    - destruct Hh as [->|(c & t' & -> & _ & H2)]; [done|]. simpl. by rewrite (proj2 (Ascii.eqb_neq c ".") H2). }
  set (fs := match f with Some ds => _ | None => _ end ++ et ++ t) in *.
  assert (Hfs : fs = [] \/ exists c t', fs = c :: t' /\ is_digit c = false).
  { subst fs. destruct f; simpl; [right; eauto|]. destruct Hh as [->|(c & t' & -> & H1 & _)]; eauto. }
  clearbody fs. assert (Hint : lex_int (i ++ fs) = Some (i, fs)).
  { destruct Hi as [->|(c & ds & -> & Hc & Hd)]; [done|]. simpl lex_int.
    rewrite (proj2 (Ascii.eqb_neq c "0") Hc). inversion Hd as [|? ? H1 _]; subst. rewrite H1. f_equal.
    inversion Hd; subst. by rewrite span_app. }
  assert (Hhd : exists c r, i ++ fs = c :: r /\ c <> "-"%char).
  { destruct Hi as [->|(c & ds & -> & Hc & Hd)]; simpl; [by eexists _, _|]. exists c, (ds ++ fs). split; [done|].
    inversion Hd as [|? ? H1 _]; subst. by intros ->. }
  unfold lex_number. destruct ng; simpl.
  - by rewrite Hint; simpl; rewrite Hfrac; simpl; rewrite He.
  - destruct Hhd as (c & r & Hcr & Hc). rewrite Hcr in *. rewrite (proj2 (Ascii.eqb_neq c "-") Hc).
    by rewrite Hint; simpl; rewrite Hfrac; simpl; rewrite He.
Qed.

Lemma lex_int_inv s i t :
  lex_int s = Some (i, t) ->
  s = i ++ t /\ (i = ["0"%char] \/ exists c ds, i = c :: ds /\ c <> "0"%char /\ digits (c :: ds)).
Proof.
  destruct s as [|c s]; [done|]. unfold lex_int. destruct (Ascii.eqb_spec c "0") as [->|Hc]; [intros [= <- <-]; auto|].
  destruct (is_digit c) eqn:Ed; [|done]. pose proof (span_spec is_digit (c :: s)) as Hs.
  destruct (span is_digit (c :: s)) as [x y] eqn:Hsp. intros [= <- <-]. destruct Hs as (Hs & Hd & _).
  split; [done|]. right. simpl in Hsp. rewrite Ed in Hsp. destruct (span is_digit s) as [x' y'].
  simplify_eq. eauto.
Qed.

Lemma lex_frac_inv s f t :
  lex_frac s = Some (f, t) ->
  s = match f with Some ds => "."%char :: ds | None => [] end ++ t /\
  match f with Some ds => ds <> [] /\ digits ds | None => True end.
Proof.
  destruct s as [|c s]; simpl; [by intros [= <- <-]|].
  destruct (Ascii.eqb_spec c ".") as [->|]; [|by intros [= <- <-]].
  intros H. parser. apply lex_digits_inv in H as (-> & Hd). done.
Qed.

Lemma lex_exp_inv s e t :
  lex_exp s = Some (e, t) ->
  s = match e with Some (e, sg, ds) => e :: match sg with Some c => [c] | None => [] end ++ ds | None => [] end ++ t /\
  match e with
  | Some (e, sg, ds) => is_e e = true /\ match sg with Some c => is_sign c = true | None => True end /\ ds <> [] /\ digits ds
  | None => True
  end.
Proof.
  destruct s as [|c s]; simpl; [by intros [= <- <-]|]. destruct (is_e c) eqn:Ee; [|by intros [= <- <-]].
  destruct s as [|d s]; [done|]. destruct (is_sign d) eqn:Es; intros H; parser.
  all: apply lex_digits_inv in H as (H & Hd); rewrite ?H; done.
Qed.

Lemma lex_number_inv s n t : lex_number s = Some (n, t) -> s = num_text n ++ t /\ num_ok n.
Proof.
  unfold lex_number. intros H.
  assert (exists ng s0, s = (if ng : bool then ["-"%char] else []) ++ s0 /\
    (match s with c :: t => if Ascii.eqb c "-" then (true, t) else (false, s) | [] => (false, s) end) = (ng, s0))
    as (ng & s0 & -> & E).
  { destruct s as [|c s]; [by exists false, []|].
    destruct (Ascii.eqb_spec c "-") as [->|]; [by exists true, s|by exists false, (c :: s)]. }
  rewrite E in H. clear E. apply bind_Some in H as ([i s1] & Hi & H). apply bind_Some in H as ([f s2] & Hf & H).
  apply bind_Some in H as ([e s3] & He & H). simplify_eq. unfold num_text; simpl.
  apply lex_int_inv in Hi as [-> Hi]. apply lex_frac_inv in Hf as [-> Hf]. apply lex_exp_inv in He as [-> He].
  split; [by rewrite <- !app_assoc|by split].
Qed.

(** ** The parser *)

(** Depth of nesting of a tree. *)
Fixpoint depth (v : json) : Z :=
  match v with
  | JArr l => 1 + foldr Z.max 0 (List.map depth l)
  | JObj l => 1 + foldr Z.max 0 (List.map (fun kv => depth kv.2) l)
  | _ => 0
  end.

(** Trees whose text is lexically right. *)
Fixpoint lexed (v : json) : Prop :=
  match v with
  | JNum n => num_ok n
  | JStr r => str_ok r
  | JArr l => foldr and True (List.map lexed l)
  | JObj l => foldr and True (List.map (fun kv => str_ok kv.1 /\ lexed kv.2) l)
  | _ => True
  end.

Definition wf (v : json) : Prop := lexed v /\ depth v <= maxNestingDepth.

Lemma max_nonneg l : 0 <= foldr Z.max 0 l.
Proof. induction l; simpl; lia. Qed.

(** Nothing that continues a token. *)
Definition sep (t : bytes) : Prop := num_stop t.

Lemma print_head v :
  lexed v -> exists c t, print v = c :: t /\ is_json_space c = false /\ Ascii.eqb c "]" = false.
Proof.
  destruct v as [| |n| | |]; simpl; intros Hl; try (by eexists _, _).
  - destruct b; by eexists _, _.
  - destruct Hl as [Hi _ _]. unfold num_text. destruct (n_neg n); simpl; [by eexists _, _|].
    destruct Hi as [->|(c & ds & -> & _ & Hd)]; simpl; [by eexists _, _|]. eexists _, _. split; [done|].
    inversion Hd as [|? ? H1 _]; subst. split; [|apply Ascii.eqb_neq; by intros ->].
    unfold is_digit in H1. unfold is_json_space.
    apply andb_true_iff in H1 as [H1%Z.leb_le H2%Z.leb_le]. zbool; simpl; try done; lia.
Qed.

Lemma print_not_space v t : lexed v -> skip_ws (print v ++ t) = print v ++ t.
Proof. intros H. destruct (print_head v H) as (c & r & -> & Hc & _). apply skip_ws_id. done. Qed.

Definition reads (v : json) : Prop := forall f d t,
  lexed v -> d + depth v <= maxNestingDepth -> (2 * length (print v) + 1 <= f)%nat -> sep t ->
  value f d (print v ++ t) = Some (v, t).

Definition member_text (kv : bytes * json) : bytes := quoted kv.1 ++ ":"%char :: print kv.2.

Lemma join_cons x l : join (x :: l) = x ++ match l with [] => [] | _ => ","%char :: join l end.
Proof. destruct l; simpl; [by rewrite app_nil_r|done]. Qed.

Lemma elements_print l : forall v f d t,
  Forall reads (v :: l) -> Forall lexed (v :: l) ->
  d + foldr Z.max 0 (List.map depth (v :: l)) <= maxNestingDepth ->
  (2 * length (join (List.map print (v :: l))) + 2 <= f)%nat ->
  elements f d (join (List.map print (v :: l)) ++ "]"%char :: t) = Some (v :: l, t).
Proof.
  induction l as [|w l IH]; intros v f d t Hr Hl Hd Hf.
  all: inversion Hr as [|? ? Hv Hr']; subst; inversion Hl as [|? ? Hlv Hl']; subst.
  all: cbn [List.map] in *; rewrite join_cons in *; cbn [foldr] in Hd.
  all: destruct f as [|f]; [lia|]; cbn [elements].
  - rewrite app_nil_r in *. rewrite Hv by (try done; lia). done.
  - rewrite <- app_assoc. rewrite length_app in Hf. cbn [List.map length] in Hf.
    specialize (IH w f d t Hr' Hl'). cbn [List.map] in IH.
    assert (Hs : not_space (join (print w :: List.map print l) ++ "]"%char :: t)).
    { inversion Hl' as [|? ? Hw _]; subst. destruct (print_head w Hw) as (c & r & Hp & Hc & _). by rewrite join_cons, Hp. }
    set (js := join (print w :: List.map print l)) in *. clearbody js.
    rewrite Hv by (try done; lia). simpl. rewrite skip_ws_id by done. rewrite IH; [done| |lia].
    cbn [foldr] in *. lia.
Qed.

Lemma members_print l : forall kv f d t,
  Forall (fun kv => reads kv.2) (kv :: l) -> Forall (fun kv => str_ok kv.1 /\ lexed kv.2) (kv :: l) ->
  d + foldr Z.max 0 (List.map (fun kv => depth kv.2) (kv :: l)) <= maxNestingDepth ->
  (2 * length (join (List.map member_text (kv :: l))) + 2 <= f)%nat ->
  members f d (join (List.map member_text (kv :: l)) ++ "}"%char :: t) = Some (kv :: l, t).
Proof.
  induction l as [|kw l IH]; intros [k v] f d t Hr Hl Hd Hf.
  all: inversion Hr as [|? ? Hv Hr']; subst; inversion Hl as [|? ? [Hk Hlv] Hl']; subst.
  all: cbn [List.map] in *; rewrite join_cons in *; cbn [foldr fst snd] in *.
  all: rewrite length_app in Hf; unfold member_text at 1 in Hf; unfold member_text at 1; unfold quoted in *.
  all: cbn [fst snd app] in *; cbn [length] in Hf; rewrite !length_app in Hf; cbn [length] in Hf.
  all: destruct f as [|f]; [lia|]; cbn [members]; rewrite Ascii.eqb_refl, <- !app_assoc; cbn [app].
  - rewrite str_ok_lit by done. simpl. rewrite print_not_space, Hv by (try done; simpl; lia). done.
  - specialize (IH kw f d t Hr' Hl'). cbn [List.map] in IH.
    assert (Hs : not_space (join (member_text kw :: List.map member_text l) ++ "}"%char :: t)) by (by rewrite join_cons).
    set (js := join (member_text kw :: List.map member_text l)) in *. clearbody js.
    rewrite str_ok_lit by done. simpl. rewrite print_not_space, Hv by (try done; simpl; lia).
    simpl. rewrite skip_ws_id by done. rewrite IH; [done|cbn [foldr] in *; lia|simpl in Hf; lia].
Qed.

Lemma Forall_foldr_and {A} (P : A -> Prop) l : foldr and True (List.map P l) <-> Forall P l.
Proof. induction l as [|x l IH]; simpl; [done|]. by rewrite Forall_cons, IH. Qed.

Lemma num_text_head n : num_ok n -> exists c t, num_text n = c :: t /\ (is_digit c = true \/ c = "-"%char).
Proof.
  intros [Hi _ _]. unfold num_text. destruct (n_neg n); simpl; [eauto|].
  destruct Hi as [->|(c & ds & -> & _ & Hd)]; simpl; [eauto|]. inversion Hd; subst. eauto.
Qed.

(** No token but a number starts like a number. *)
Lemma number_head c : is_digit c = true \/ c = "-"%char ->
  Ascii.eqb c dquote = false /\ Ascii.eqb c "{" = false /\ Ascii.eqb c "[" = false /\ Ascii.eqb c "t" = false /\
  Ascii.eqb c "f" = false /\ Ascii.eqb c "n" = false.
Proof. intros [H| ->]; [|done]. rewrite !Ascii.eqb_neq. split_and!; by intros ->. Qed.

Lemma value_print v : reads v.
Proof.
  induction v as [|b|n|r|l IH|l IH] using json_tree_ind; intros f d t Hl Hd Hf Ht;
    (destruct f as [|f]; [lia|]); cbn [value print] in *.
  - done.
  - by destruct b.
  - cbn [lexed] in Hl. destruct (num_text_head n Hl) as (c & r & Hn & Hc).
    pose proof (lex_number_app n t Hl Ht) as Hx. rewrite Hn in *. cbn [app].
    destruct (number_head c Hc) as (-> & -> & -> & -> & -> & ->). cbn [app] in Hx. by rewrite Hx.
  - simpl. rewrite <- app_assoc. simpl. by rewrite str_ok_lit.
  - cbn [lexed depth] in *. apply Forall_foldr_and in Hl. simpl.
    rewrite (proj2 (Z.ltb_ge maxNestingDepth (d + 1))) by (pose proof (max_nonneg (List.map depth l)); lia).
    rewrite <- app_assoc. cbn [app]. destruct l as [|v l]; [done|].
    assert (Hh : exists c r, join (List.map print (v :: l)) ++ "]"%char :: t = c :: r /\ is_json_space c = false /\
      Ascii.eqb c "]" = false).
    { inversion Hl as [|? ? Hv _]; subst. destruct (print_head v Hv) as (c & r & Hp & Hc). cbn [List.map].
      rewrite join_cons, Hp. eexists _, _. split; [done|done]. }
    simpl length in Hf. rewrite length_app in Hf. simpl length in Hf.
    pose proof (elements_print l v f (d + 1) t IH Hl ltac:(lia) ltac:(simpl in *; lia)) as Hx.
    destruct Hh as (c & r & Hcr & Hsp & Hc). rewrite Hcr in *. rewrite skip_ws_id by done. by rewrite Hc, Hx.
  - cbn [lexed depth] in *. apply Forall_foldr_and in Hl.
    change (fun kv : bytes * json => quoted kv.1 ++ ":"%char :: print kv.2) with member_text in *. simpl.
    rewrite (proj2 (Z.ltb_ge maxNestingDepth (d + 1)))
      by (pose proof (max_nonneg (List.map (fun kv => depth kv.2) l)); lia).
    rewrite <- app_assoc. cbn [app]. destruct l as [|kv l]; [done|].
    cbn [length] in Hf. rewrite length_app in Hf. cbn [length] in Hf.
    pose proof (members_print l kv f (d + 1) t IH Hl ltac:(lia) ltac:(lia)) as Hx.
    assert (Hh : exists r, join (List.map member_text (kv :: l)) ++ "}"%char :: t = dquote :: r).
    { cbn [List.map]. rewrite join_cons. by eexists. }
    destruct Hh as (r & Hcr). rewrite Hcr in *. rewrite skip_ws_id by reflexivity. by simpl; rewrite Hx.
Qed.

(** What the parser returns is well formed, and it consumes its input. *)
Definition post_value (d : Z) (s : bytes) (v : json) (t : bytes) : Prop :=
  lexed v /\ d + depth v <= maxNestingDepth /\ (length t < length s)%nat.

Definition post_list {A} (ok : A -> Prop) (dep : A -> Z) (d : Z) (s : bytes) (l : list A) (t : bytes) : Prop :=
  Forall ok l /\ d + foldr Z.max 0 (List.map dep l) <= maxNestingDepth /\ (length t < length s)%nat.

Lemma string_lit_length s r t : string_lit s = Some (r, t) -> (length t < length s)%nat.
Proof. intros H. apply string_lit_ok in H as [-> _]. rewrite length_app. simpl. lia. Qed.

Lemma lex_word_length w s t : w <> [] -> lex_word w s = Some t -> (length t < length s)%nat.
Proof.
  intros Hw. unfold lex_word. destruct (has_prefix w s) eqn:E; [|done]. intros [= <-].
  apply has_prefix_spec in E as [r ->]. rewrite drop_app_length, length_app. destruct w; [done|]. simpl. lia.
Qed.

Lemma lex_number_length s n t : lex_number s = Some (n, t) -> (length t < length s)%nat.
Proof.
  intros H. apply lex_number_inv in H as [-> Hn]. destruct (num_text_head n Hn) as (c & r & -> & _).
  rewrite length_app. simpl. lia.
Qed.

(** The step from a shorter input to the one white space leads to. *)
Lemma skip_ws_cons s c t : skip_ws s = c :: t -> (S (length t) <= length s)%nat.
Proof. intros H. pose proof (skip_ws_length s) as L. rewrite H in L. done. Qed.

Section post.
Context (f : nat).
Context (IHv : forall d s v t, 0 <= d <= maxNestingDepth -> value f d s = Some (v, t) -> post_value d s v t).
Context (IHe : forall d s vs t, 0 <= d <= maxNestingDepth -> elements f d s = Some (vs, t) ->
  post_list lexed depth d s vs t).
Context (IHm : forall d s ms t, 0 <= d <= maxNestingDepth -> members f d s = Some (ms, t) ->
  post_list (fun kv => str_ok kv.1 /\ lexed kv.2) (fun kv => depth kv.2) d s ms t).

Lemma value_post d s v t : 0 <= d <= maxNestingDepth -> value (S f) d s = Some (v, t) -> post_value d s v t.
Proof using IHe IHm.
  intros Hd H. cbn [value] in H. destruct s as [|c s]; [done|]. unfold post_value.
  destruct (Ascii.eqb c dquote).
  { parser. pose proof (string_lit_length _ _ _ H). apply string_lit_ok in H as [-> Hr]. simpl in *. split_and!; [done|lia..]. }
  destruct (Ascii.eqb c "{").
  { destruct (Z.ltb_spec maxNestingDepth (d + 1)); [done|]. destruct (skip_ws s) as [|c' t'] eqn:Es; [done|].
    apply skip_ws_cons in Es. destruct (Ascii.eqb c' "}"); [simplify_eq/=; split_and!; [done|lia..]|].
    parser. destruct (IHm (d + 1) _ _ _ ltac:(lia) H) as (Hl & Hm & Ht). simpl in *.
    split_and!; [by apply Forall_foldr_and|lia..]. }
  destruct (Ascii.eqb c "[").
  { destruct (Z.ltb_spec maxNestingDepth (d + 1)); [done|]. destruct (skip_ws s) as [|c' t'] eqn:Es; [done|].
    apply skip_ws_cons in Es. destruct (Ascii.eqb c' "]"); [simplify_eq/=; split_and!; [done|lia..]|].
    parser. destruct (IHe (d + 1) _ _ _ ltac:(lia) H) as (Hl & Hm & Ht). simpl in *.
    split_and!; [by apply Forall_foldr_and|lia..]. }
  repeat case_match; parser;
    try (apply lex_word_length in H; [simpl in *; split_and!; [done|lia..]|done]).
  pose proof (lex_number_length _ _ _ H). apply lex_number_inv in H as [_ Hn]. simpl in *. split_and!; [done|lia..].
Qed.

Lemma elements_post d s vs t :
  0 <= d <= maxNestingDepth -> elements (S f) d s = Some (vs, t) -> post_list lexed depth d s vs t.
Proof using IHv IHe.
  intros Hd H. cbn [elements] in H. apply bind_Some in H as ([v s1] & Hv & H).
  destruct (IHv _ _ _ _ Hd Hv) as (Hl & Hdv & Hs1). destruct (skip_ws s1) as [|c s2] eqn:E2; [done|].
  apply skip_ws_cons in E2. destruct (Ascii.eqb c ",").
  - parser. destruct (IHe _ _ _ _ Hd H) as (Hls & Hm & Ht). pose proof (skip_ws_length s2).
    split_and!; [by constructor|simpl; lia..].
  - destruct (Ascii.eqb c "]"); [|done]. simplify_eq. split_and!; [by repeat constructor|simpl; lia..].
Qed.

Lemma members_post d s ms t :
  0 <= d <= maxNestingDepth -> members (S f) d s = Some (ms, t) ->
  post_list (fun kv => str_ok kv.1 /\ lexed kv.2) (fun kv => depth kv.2) d s ms t.
Proof using IHv IHm.
  intros Hd H. cbn [members] in H. destruct s as [|c s]; [done|]. destruct (Ascii.eqb c dquote); [|done].
  apply bind_Some in H as ([k s1] & Hk & H). pose proof (string_lit_length _ _ _ Hk). apply string_lit_ok in Hk as [_ Hk].
  destruct (skip_ws s1) as [|c1 s2] eqn:E1; [done|]. apply skip_ws_cons in E1. destruct (Ascii.eqb c1 ":"); [|done].
  apply bind_Some in H as ([v s3] & Hv & H). destruct (IHv _ _ _ _ Hd Hv) as (Hl & Hdv & Hs3).
  pose proof (skip_ws_length s2). destruct (skip_ws s3) as [|c3 s4] eqn:E3; [done|]. apply skip_ws_cons in E3.
  destruct (Ascii.eqb c3 ",").
  - parser. destruct (IHm _ _ _ _ Hd H) as (Hls & Hm & Ht). pose proof (skip_ws_length s4).
    split_and!; [by constructor|simpl; lia..].
  - destruct (Ascii.eqb c3 "}"); [|done]. simplify_eq. split_and!; [by repeat constructor|simpl; lia..].
Qed.
End post.

Lemma parser_post f :
  (forall d s v t, 0 <= d <= maxNestingDepth -> value f d s = Some (v, t) -> post_value d s v t) /\
  (forall d s vs t, 0 <= d <= maxNestingDepth -> elements f d s = Some (vs, t) -> post_list lexed depth d s vs t) /\
  (forall d s ms t, 0 <= d <= maxNestingDepth -> members f d s = Some (ms, t) ->
     post_list (fun kv => str_ok kv.1 /\ lexed kv.2) (fun kv => depth kv.2) d s ms t).
Proof.
  induction f as [|f (IHv & IHe & IHm)]; [done|]. split_and!; intros *.
  - by apply value_post.
  - by apply elements_post.
  - by apply members_post.
Qed.

Lemma parse_wf s v : parse s = Some v -> wf v.
Proof.
  unfold parse. intros H. apply bind_Some in H as ([v' t] & Hv & H).
  apply (proj1 (parser_post _)) in Hv; [|done]. destruct Hv as (Hl & Hd & _). case_match; simplify_eq. by split.
Qed.

(** The parser reads back what the printer writes. *)
Lemma parse_print v : wf v -> parse (print v) = Some v.
Proof.
  intros [Hl Hd]. unfold parse. pose proof (print_not_space v [] Hl) as Hs. rewrite app_nil_r in Hs. rewrite Hs.
  pose proof (value_print v (fuel_for (print v)) 0 [] Hl ltac:(lia) ltac:(unfold fuel_for; lia) I) as Hv.
  rewrite app_nil_r in Hv. by rewrite Hv.
Qed.

(** *** The fuel is enough: more fuel never changes an answer. *)

Definition value_fuel (n : nat) : Prop := forall f g d s, 0 <= d <= maxNestingDepth -> (length s <= n)%nat ->
  (2 * length s + 1 <= f)%nat -> (2 * length s + 1 <= g)%nat -> value f d s = value g d s.

Definition list_fuel {A} (p : nat -> Z -> bytes -> option (list A * bytes)) (n : nat) : Prop :=
  forall f g d s, 0 <= d <= maxNestingDepth -> (length s <= n)%nat ->
    (2 * length s + 2 <= f)%nat -> (2 * length s + 2 <= g)%nat -> p f d s = p g d s.

Lemma value_fuel_step n : list_fuel elements n -> list_fuel members n -> value_fuel (S n).
Proof.
  intros He Hm f g d s Hd Hn Hf Hg. destruct f as [|f]; [lia|]. destruct g as [|g]; [lia|]. cbn [value].
  destruct s as [|c s]; [done|]. simpl in *. destruct (Ascii.eqb c dquote); [done|].
  destruct (Ascii.eqb c "{"); [|destruct (Ascii.eqb c "["); [|done]].
  all: destruct (Z.ltb_spec maxNestingDepth (d + 1)); [done|].
  all: destruct (skip_ws s) as [|c' t] eqn:E; [done|]; apply skip_ws_cons in E; case_match; [done|].
  - rewrite (Hm f g (d + 1) (c' :: t)); [done|lia|simpl; lia..].
  - rewrite (He f g (d + 1) (c' :: t)); [done|lia|simpl; lia..].
Qed.

Lemma elements_fuel_step n : value_fuel (S n) -> list_fuel elements n -> list_fuel elements (S n).
Proof.
  intros Hv He f g d s Hd Hn Hf Hg. destruct f as [|f]; [lia|]. destruct g as [|g]; [lia|]. cbn [elements].
  rewrite (Hv f g d s) by lia. destruct (value g d s) as [[v t]|] eqn:Ev; [|done]. simpl.
  apply (proj1 (parser_post g)) in Ev as (_ & _ & Hl); [|done].
  destruct (skip_ws t) as [|c t'] eqn:E; [done|]. apply skip_ws_cons in E. pose proof (skip_ws_length t').
  case_match; [|done]. rewrite (He f g d (skip_ws t')); [done|lia..].
Qed.

Lemma members_fuel_step n : value_fuel n -> list_fuel members n -> list_fuel members (S n).
Proof.
  intros Hv Hm f g d s Hd Hn Hf Hg. destruct f as [|f]; [lia|]. destruct g as [|g]; [lia|]. cbn [members].
  destruct s as [|c s]; [done|]. simpl in *. destruct (Ascii.eqb c dquote); [|done].
  destruct (string_lit s) as [[k s1]|] eqn:Ek; [|done]. simpl. apply string_lit_length in Ek.
  destruct (skip_ws s1) as [|c1 s2] eqn:E1; [done|]. apply skip_ws_cons in E1. case_match; [|done].
  pose proof (skip_ws_length s2). rewrite (Hv f g d (skip_ws s2)) by lia.
  destruct (value g d (skip_ws s2)) as [[v s3]|] eqn:Ev; [|done]. simpl.
  apply (proj1 (parser_post g)) in Ev as (_ & _ & Hl); [|done].
  destruct (skip_ws s3) as [|c3 s4] eqn:E3; [done|]. apply skip_ws_cons in E3. pose proof (skip_ws_length s4).
  case_match; [|done]. rewrite (Hm f g d (skip_ws s4)); [done|lia..].
Qed.

Lemma fuel_enough n : value_fuel n /\ list_fuel elements n /\ list_fuel members n.
Proof.
  induction n as [|n (IHv & IHe & IHm)].
  - split_and!; intros f g d [|c s] Hd Hn Hf Hg; simpl in *; try lia.
    all: destruct f as [|[|f]], g as [|[|g]]; try lia; done.
  - assert (Hv : value_fuel (S n)) by auto using value_fuel_step. eauto using elements_fuel_step, members_fuel_step.
Qed.

(** *** White space around a document is ignored. *)

Lemma skip_ws_idemp s : skip_ws (skip_ws s) = skip_ws s.
Proof. induction s as [|c s IH]; simpl; [done|]. destruct (is_json_space c) eqn:E; [done|]. simpl. by rewrite E. Qed.

Lemma parse_skip_ws s : parse (skip_ws s) = parse s.
Proof. unfold parse. by rewrite skip_ws_idemp. Qed.

(** ** String contents *)

Lemma hex_digit_ok z : 0 <= z < 16 -> is_hex (hex_digit z) = true /\ hex_val (hex_digit z) = z.
Proof.
  intros H. assert (Hc : z = 0 \/ z = 1 \/ z = 2 \/ z = 3 \/ z = 4 \/ z = 5 \/ z = 6 \/ z = 7 \/ z = 8 \/ z = 9 \/
    z = 10 \/ z = 11 \/ z = 12 \/ z = 13 \/ z = 14 \/ z = 15) by lia.
  repeat (destruct Hc as [->|Hc]; [by vm_compute|]). subst. by vm_compute.
Qed.

Lemma u_escape_text r s : 0 <= r < 65536 -> u_escape (u_text r ++ s) = Some r.
Proof.
  intros Hr. unfold u_text. cbn [app u_escape]. rewrite !Ascii.eqb_refl. cbn [andb forallb].
  destruct (hex_digit_ok (r / 4096 mod 16)) as [-> E1]; [apply Z.mod_pos_bound; lia|].
  destruct (hex_digit_ok (r / 256 mod 16)) as [-> E2]; [apply Z.mod_pos_bound; lia|].
  destruct (hex_digit_ok (r / 16 mod 16)) as [-> E3]; [apply Z.mod_pos_bound; lia|].
  destruct (hex_digit_ok (r mod 16)) as [-> E4]; [apply Z.mod_pos_bound; lia|].
  cbn [andb]. unfold hex4. rewrite E1, E2, E3, E4. f_equal. Z.div_mod_to_equations. lia.
Qed.

(** The elements of the text of a string literal. *)
Inductive lit : bytes -> Prop :=
| lit_nil : lit []
| lit_simple e t : is_Some (simple_escape e) -> lit t -> lit (bslash :: e :: t)
| lit_u h1 h2 h3 h4 t :
    forallb is_hex [h1; h2; h3; h4] = true -> lit t -> lit (bslash :: "u"%char :: h1 :: h2 :: h3 :: h4 :: t)
| lit_char c t : c <> dquote -> c <> bslash -> 32 <= code c -> lit t -> lit (c :: t).

Lemma lit_app a b : lit a -> lit b -> lit (a ++ b).
Proof. intros Ha Hb. induction Ha; simpl; [done|constructor; done..]. Qed.

Lemma lit_str_ok raw : lit raw -> str_ok raw.
Proof.
  unfold str_ok. induction 1 as [|e t He _ IH|h1 h2 h3 h4 t Hh _ IH|c t H1 H2 H3 _ IH]; [done|..].
  - simpl. rewrite bool_decide_eq_true_2 by done. by rewrite IH.
  - simpl in *. by rewrite Hh, IH.
  - simpl. rewrite (proj2 (Ascii.eqb_neq c dquote) H1), (proj2 (Ascii.eqb_neq c bslash) H2).
    by rewrite (proj2 (Z.ltb_ge _ 32)), IH by done.
Qed.

Lemma string_lit_lit s r t : string_lit s = Some (r, t) -> lit r.
Proof.
  revert r t. induction s as [s IH] using (induction_ltof1 _ (@length ascii)). unfold ltof in IH.
  intros r t H. destruct s as [|c s]; [done|]. simpl in H.
  destruct (Ascii.eqb_spec c dquote) as [->|Hq]; [simplify_eq; constructor|].
  destruct (Ascii.eqb_spec c bslash) as [->|Hb].
  - destruct s as [|e s]; [done|]. case_bool_decide as E1.
    + parser. constructor; [done|]. eapply IH; [|done]. simpl; lia.
    + destruct (Ascii.eqb_spec e "u") as [->|]; [|done].
      do 4 (destruct s as [|? s]; [done|]). match type of H with (if ?b then _ else _) = _ => destruct b eqn:E2; [|done] end.
      parser. constructor; [done|]. eapply IH; [|done]. simpl; lia.
  - destruct (Z.ltb_spec (code c) 32); [done|]. parser. constructor; [done..|]. eapply IH; [|done]. simpl; lia.
Qed.

Lemma str_ok_lit_iff raw : str_ok raw <-> lit raw.
Proof. split; [apply string_lit_lit|apply lit_str_ok]. Qed.

(** Bytes of a multi-byte sequence are ordinary characters of a literal. *)
Definition high (c : ascii) : Prop := 128 <= code c.

Lemma high_plain c : high c -> c <> dquote /\ c <> bslash /\ 32 <= code c.
Proof. unfold high. intros H. split_and!; [by intros -> ..|lia]. Qed.

Lemma lit_high p t : Forall high p -> lit t -> lit (p ++ t).
Proof. induction 1 as [|c p Hc _ IH]; intros Ht; [done|]. apply high_plain in Hc as (? & ? & ?). constructor; auto. Qed.

Lemma lit_high_inv p t : Forall high p -> lit (p ++ t) -> lit t.
Proof.
  induction 1 as [|c p Hc _ IH]; intros H; [done|]. apply high_plain in Hc as (H1 & H2 & _).
  inversion H; subst; try done. auto.
Qed.

Lemma encode_high r : 128 <= r -> Forall high (encode_rune r).
Proof.
  intros Hr. unfold encode_rune. destruct (valid_rune r) eqn:Hv; simpl negb; cbv iota.
  2:{ repeat constructor; done. }
  apply valid_rune_spec in Hv. rewrite (proj2 (Z.ltb_ge r 128)) by lia.
  repeat case_match; repeat constructor; unfold high; rewrite code_chr; Z.div_mod_to_equations; lia.
Qed.

Lemma lit_u_text r : lit (u_text r).
Proof.
  assert (H : forall z, is_hex (hex_digit (z mod 16)) = true) by (intros z; apply hex_digit_ok, Z.mod_pos_bound; lia).
  unfold u_text. apply lit_u; [|constructor]. cbn [forallb]. by rewrite !H.
Qed.

Lemma lit_ascii c : 32 <= code c -> c <> dquote -> c <> bslash -> lit [c].
Proof. intros. by repeat constructor. Qed.

Lemma encode_ascii r : 0 <= r < 128 -> encode_rune r = [chr r].
Proof.
  intros Hr. unfold encode_rune. rewrite (proj2 (valid_rune_spec r)) by lia. simpl negb. cbv iota.
  by rewrite (proj2 (Z.ltb_lt r 128)) by lia.
Qed.

Lemma encode_length_pos r : encode_rune r <> [].
Proof. unfold encode_rune. by repeat case_match. Qed.

(** The cases of [esc_rune]. *)
Lemma esc_rune_cases r : 0 <= r ->
  (exists e, esc_rune r = [bslash; e] /\ simple_escape e = Some (chr r) /\ r < 128) \/
  (esc_rune r = u_text r /\ r < 65536 /\ is_surrogate r = false) \/
  (esc_rune r = encode_rune r /\ 32 <= r /\ r <> 34 /\ r <> 92 /\ r <> 60 /\ r <> 62 /\ r <> 38).
Proof.
  intros H0. unfold esc_rune.
  destruct (Z.eqb_spec r 34) as [->|]; [left; by eexists|]. destruct (Z.eqb_spec r 92) as [->|]; [left; by eexists|].
  simpl. do 5 (match goal with |- context [r =? ?n] => destruct (Z.eqb_spec r n) as [->|]; [left; by eexists|] end).
  unfold is_surrogate.
  destruct (Z.ltb_spec r 32); simpl; [right; left; split_and!; [done|lia|]; apply andb_false_iff; left; apply Z.leb_gt; lia|].
  do 5 (match goal with |- context [r =? ?n] => destruct (Z.eqb_spec r n) as [->|]; [right; left; by vm_compute|] end).
  right; right. split_and!; done || lia.
Qed.

(** *** Decoding an element *)

Lemma unquote_simple e t c :
  simple_escape e = Some c -> unquote_step (bslash :: e :: t) = ([code c], 2%nat).
Proof.
  intros He. unfold unquote_step. assert (Hu : u_escape (bslash :: e :: t) = None).
  { do 4 (destruct t as [|? t]; [done|]). unfold u_escape. destruct (Ascii.eqb_spec e "u") as [->|]; [done|].
    by rewrite andb_false_r. }
  by rewrite Hu, Ascii.eqb_refl, He.
Qed.

Lemma unquote_plain c t : c <> bslash -> unquote_step (c :: t) = (let '(r, n) := front_rune (c :: t) in ([r], n)).
Proof.
  intros Hc%Ascii.eqb_neq. unfold unquote_step. assert (Hu : u_escape (c :: t) = None).
  { do 5 (destruct t as [|? t]; [done|]). unfold u_escape. by rewrite Hc. }
  rewrite Hu. destruct t; [done|]. by rewrite Hc.
Qed.

Lemma unquote_u_text r t : 0 <= r < 65536 -> is_surrogate r = false -> unquote_step (u_text r ++ t) = ([r], 6%nat).
Proof. intros Hr Hs. unfold unquote_step. by rewrite u_escape_text, Hs. Qed.

Lemma unquote_encode r t :
  valid_rune r = true -> r <> 92 -> unquote_step (encode_rune r ++ t) = ([r], length (encode_rune r)).
Proof.
  intros Hv Hb. pose proof (decode_encode r t Hv) as Hd.
  assert (Hc : exists c q, encode_rune r = c :: q /\ c <> bslash).
  { destruct (Z.lt_ge_cases r 128) as [Hlt|Hge].
    - apply valid_rune_spec in Hv as [Hv _]. rewrite encode_ascii by lia. eexists _, _. split; [done|].
      intros H%(f_equal code). rewrite code_chr in H by lia. by vm_compute in H.
    - pose proof (encode_high r Hge) as Hh. destruct (encode_rune r) as [|c q] eqn:E; [by apply encode_length_pos in E|].
      exists c, q. split; [done|]. inversion Hh; subst. by apply high_plain. }
  destruct Hc as (c & q & Hcq & Hc). rewrite Hcq in *. cbn [app]. rewrite unquote_plain by done.
  unfold front_rune. cbn [app] in Hd. by rewrite Hd.
Qed.

Lemma esc_rune_reads r t :
  valid_rune r = true -> unquote_step (esc_rune r ++ t) = ([r], length (esc_rune r)).
Proof.
  intros Hv. pose proof Hv as Hr. apply valid_rune_spec in Hr.
  destruct (esc_rune_cases r ltac:(lia)) as [(e & -> & He & Hlt)|[(-> & Hlt & Hs)|(-> & H1 & _ & H2 & _)]].
  - cbn [app]. rewrite (unquote_simple e t _ He), code_chr by lia. done.
  - by apply unquote_u_text; [lia|].
  - by apply unquote_encode.
Qed.

Lemma esc_rune_pos r : 0 <= r -> esc_rune r <> [].
Proof.
  intros H. destruct (esc_rune_cases r H) as [(e & -> & _)|[(-> & _)|(-> & _)]]; [done..|]. apply encode_length_pos.
Qed.

(** Decoding an encoded string gives the string with malformed bytes replaced. *)
Lemma unquote_escape s : unquote (escape s) = sanitized s.
Proof.
  unfold unquote, sanitized. f_equal. unfold escape, runes.
  induction s as [s IH] using (induction_ltof1 _ (@length ascii)). unfold ltof in IH.
  destruct s as [|c s]; [done|]. rewrite !walk_step.
  unfold escape_step at 1 3, front_rune. destruct (decode_rune (c :: s)) as [[r n]|] eqn:Ed; simpl fst; simpl snd.
  - apply decode_rune_spec in Ed as (Hv & Hn & _). cbn [default fst snd].
    rewrite (walk_app _ (esc_rune r) _ [r]); [|apply esc_rune_pos; apply valid_rune_spec in Hv; lia|by apply esc_rune_reads].
    f_equal. apply IH. rewrite length_drop. simpl. lia.
  - cbn [default fst snd]. rewrite (walk_app _ (u_text rune_error) _ [rune_error]); [|done|by apply unquote_u_text].
    f_equal. apply IH. rewrite length_drop. simpl. lia.
Qed.

Lemma lit_escape s : lit (escape s).
Proof.
  unfold escape. induction s as [s IH] using (induction_ltof1 _ (@length ascii)). unfold ltof in IH.
  destruct s as [|c s]; [constructor|]. rewrite walk_step. apply lit_app; [|apply IH; rewrite length_drop; simpl; lia].
  unfold escape_step. destruct (decode_rune (c :: s)) as [[r n]|] eqn:Ed; [|apply lit_u_text]. cbn [fst].
  apply decode_rune_spec in Ed as (Hv & _). apply valid_rune_spec in Hv.
  destruct (esc_rune_cases r ltac:(lia)) as [(e & -> & He & _)|[(-> & _)|(-> & H1 & H2 & H3 & _)]].
  - constructor; [by rewrite He|constructor].
  - apply lit_u_text.
  - destruct (Z.lt_ge_cases r 128).
    + rewrite encode_ascii by lia. apply lit_ascii; rewrite ?code_chr by lia; [lia|..].
      all: intros Hx%(f_equal code); rewrite code_chr in Hx by lia; by vm_compute in Hx.
    + rewrite <- (app_nil_r (encode_rune r)). apply lit_high; [by apply encode_high|constructor].
Qed.

Lemma valid_unquote raw : valid_utf8 (unquote raw).
Proof. apply valid_flat_map. Qed.

(** *** HTML escaping changes the text of a string, not the string *)

Definition html_special (r : Z) : bool := (r =? 60) || (r =? 62) || (r =? 38) || (r =? 8232) || (r =? 8233).

Lemma html_copy c t :
  html_special (code c) = false -> match decode_rune (c :: t) with Some (r, _) => html_special r = false | None => True end ->
  html (c :: t) = c :: html t.
Proof.
  unfold html_special. intros Hc Hd. unfold html. rewrite walk_step. unfold html_step.
  apply orb_false_iff in Hc as [Hc _]. apply orb_false_iff in Hc as [Hc _]. rewrite Hc.
  destruct (decode_rune (c :: t)) as [[r n]|]; [|done].
  apply orb_false_iff in Hd as [Hd H2]. apply orb_false_iff in Hd as [_ H1]. by rewrite H1, H2.
Qed.

Lemma html_ascii c t : code c < 128 -> html_special (code c) = false -> html (c :: t) = c :: html t.
Proof. intros H1 H2. apply html_copy; [done|]. unfold decode_rune. by rewrite (proj2 (Z.ltb_lt _ 128)). Qed.

Lemma cont_decode c t : cont c = true -> decode_rune (c :: t) = None /\ html_special (code c) = false.
Proof.
  unfold cont. rewrite andb_true_iff, !Z.leb_le. intros [H1 H2]. unfold decode_rune, html_special. split; zbool; simpl; done || lia.
Qed.

Lemma html_cont p t : Forall (fun c => cont c = true) p -> html (p ++ t) = p ++ html t.
Proof.
  induction 1 as [|c p Hc _ IH]; [done|]. simpl. destruct (cont_decode c (p ++ t) Hc) as [Hd Hs].
  rewrite html_copy; [by rewrite IH|done|by rewrite Hd].
Qed.

Lemma encode_lead r : 128 <= r -> valid_rune r = true ->
  exists c q, encode_rune r = c :: q /\ html_special (code c) = false /\ Forall (fun c => cont c = true) q.
Proof.
  intros Hr Hv. unfold encode_rune. rewrite Hv. apply valid_rune_spec in Hv. simpl negb. cbv iota.
  rewrite (proj2 (Z.ltb_ge r 128)) by lia.
  assert (Hcont : forall z, cont (chr (128 + z mod 64)) = true).
  { intros z. pose proof (Z.mod_pos_bound z 64 ltac:(lia)). unfold cont. rewrite code_chr by lia.
    apply andb_true_iff; rewrite !Z.leb_le; lia. }
  assert (Hlead : forall z, 192 <= z < 256 -> html_special (code (chr z)) = false).
  { intros z Hz. rewrite code_chr by lia. unfold html_special. zbool; done || lia. }
  repeat case_match; zbool; eexists _, _; (split; [done|]); (split; [apply Hlead; Z.div_mod_to_equations; lia|]);
    repeat constructor; apply Hcont.
Qed.

Lemma html_encode r t :
  valid_rune r = true -> html_special r = false -> html (encode_rune r ++ t) = encode_rune r ++ html t.
Proof.
  intros Hv Hs. pose proof (decode_encode r t Hv) as Hd. destruct (Z.lt_ge_cases r 128) as [Hlt|Hge].
  - pose proof (proj1 (valid_rune_spec r) Hv). rewrite encode_ascii in * by lia. cbn [app] in *.
    apply html_ascii; by rewrite code_chr by lia.
  - destruct (encode_lead r Hge Hv) as (c & q & Hcq & Hc & Hq). rewrite Hcq in *. cbn [app] in *.
    rewrite html_copy; [by rewrite html_cont|done|by rewrite Hd].
Qed.

Lemma html_escaped r t : html_special r = true -> html (encode_rune r ++ t) = u_text r ++ html t.
Proof.
  unfold html_special. rewrite !orb_true_iff, !Z.eqb_eq. intros Hr. unfold html.
  rewrite (walk_app html_step (encode_rune r) t (u_text r)); [done|apply encode_length_pos|].
  repeat destruct Hr as [Hr|Hr]; subst; done.
Qed.

Lemma special_unicode r : html_special r = true -> 0 <= r < 65536 /\ is_surrogate r = false /\ valid_rune r = true.
Proof. unfold html_special. rewrite !orb_true_iff, !Z.eqb_eq. intros Hr. repeat destruct Hr as [Hr|Hr]; subst; done. Qed.

(** A run of continuation bytes in the escaped text was there before. *)
Lemma html_cont_inv p : forall t x,
  Forall (fun c => cont c = true) p -> html t = p ++ x -> exists y, t = p ++ y.
Proof.
  induction p as [|c p IH]; intros t x Hp H; [by exists t|]. inversion Hp as [|? ? Hc Hp']; subst.
  destruct t as [|d t]; [done|]. unfold html in H. rewrite walk_step in H. cbn [app] in H.
  assert (Hstep : html_step (d :: t) = ([d], 1%nat)).
  { unfold html_step in *. destruct (_ || _); [by inversion H; subst|].
    destruct (decode_rune (d :: t)) as [[r n]|]; [|done]. destruct (_ || _); [by inversion H; subst|done]. }
  rewrite Hstep in H. injection H as -> H. destruct (IH t x Hp' H) as [y ->]. by exists y.
Qed.

Lemma html_decode_None c t : decode_rune (c :: t) = None -> decode_rune (c :: html t) = None.
Proof.
  intros H. destruct (decode_rune (c :: html t)) as [[r n]|] eqn:E; [exfalso|done].
  apply decode_rune_spec in E as (Hv & _ & x & E). destruct (Z.lt_ge_cases r 128) as [Hlt|Hge].
  - pose proof (proj1 (valid_rune_spec r) Hv). rewrite encode_ascii in E by lia. simplify_eq/=.
    rewrite code_chr in H by lia. rewrite (proj2 (Z.ltb_lt r 128)) in H by lia. done.
  - destruct (encode_lead r Hge Hv) as (d & q & Hdq & _ & Hq). rewrite Hdq in E. cbn [app] in E. injection E as -> E.
    destruct (html_cont_inv q t x Hq E) as [y ->].
    pose proof (decode_encode r y Hv) as Hd. rewrite Hdq in Hd. cbn [app] in Hd. congruence.
Qed.

Lemma html_six h1 h2 h3 h4 t : forallb is_hex [h1; h2; h3; h4] = true ->
  html (bslash :: "u"%char :: h1 :: h2 :: h3 :: h4 :: t) = bslash :: "u"%char :: h1 :: h2 :: h3 :: h4 :: html t.
Proof.
  assert (Hx : forall h s, is_hex h = true -> html (h :: s) = h :: html s).
  { intros h s Hh. unfold is_hex, is_digit in Hh. rewrite !orb_true_iff, !andb_true_iff, !Z.leb_le in Hh.
    apply html_ascii; [lia|]. unfold html_special. rewrite !orb_false_iff, !Z.eqb_neq. lia. }
  cbn [forallb]. rewrite !andb_true_iff. intros (H1 & H2 & H3 & H4 & _).
  rewrite 2!html_ascii by done. by rewrite !Hx.
Qed.

Lemma html_simple e t : is_Some (simple_escape e) -> html (bslash :: e :: t) = bslash :: e :: html t.
Proof.
  intros [c He]. rewrite html_ascii by done. f_equal. unfold simple_escape in He.
  apply html_ascii; repeat (case_match; [match goal with H : Ascii.eqb _ _ = true |- _ => apply Ascii.eqb_eq in H; by subst end|]); done.
Qed.

Lemma lit_bslash s : lit (bslash :: s) ->
  (exists e t, s = e :: t /\ is_Some (simple_escape e) /\ lit t) \/
  (exists h1 h2 h3 h4 t, s = "u"%char :: h1 :: h2 :: h3 :: h4 :: t /\ forallb is_hex [h1; h2; h3; h4] = true /\ lit t).
Proof. intros H. inversion H; subst; [left; eauto 10|right; eauto 10|done]. Qed.

(** A plain character of a literal starts a rune or is a malformed byte. *)
Lemma lit_char_cases c t : lit (c :: t) -> c <> bslash ->
  (exists r t', c :: t = encode_rune r ++ t' /\ valid_rune r = true /\ r <> 92 /\ decode_rune (c :: t) = Some (r, length (encode_rune r)) /\ lit t') \/
  (decode_rune (c :: t) = None /\ html_special (code c) = false /\ 128 <= code c /\ lit t).
Proof.
  intros Hl Hc. assert (Ht : lit t) by (by inversion Hl; subst).
  destruct (decode_rune (c :: t)) as [[r n]|] eqn:E; [left|right].
  - apply decode_rune_spec in E as (Hv & -> & t' & E). exists r, t'. split_and!; [done..| |done|].
    + intros ->. by inversion E.
    + destruct (Z.lt_ge_cases r 128).
      * pose proof (proj1 (valid_rune_spec r) Hv). rewrite encode_ascii in E by lia. by simplify_eq/=.
      * rewrite E in Hl. eapply lit_high_inv; [|exact Hl]. by apply encode_high.
  - assert (Hge : 128 <= code c).
    { unfold decode_rune in E. by destruct (Z.ltb_spec (code c) 128). }
    split_and!; [done| |done..]. pose proof (code_range c). unfold html_special. zbool; done || lia.
Qed.

Lemma lit_html raw : lit raw -> lit (html raw).
Proof.
  induction raw as [s IH] using (induction_ltof1 _ (@length ascii)). unfold ltof in IH. intros Hl.
  destruct (decide (head s = Some bslash)) as [Hb|Hb].
  - destruct s as [|? s]; simplify_eq/=. destruct (lit_bslash _ Hl) as [(e & t & -> & He & Ht)|(h1 & h2 & h3 & h4 & t & -> & Hh & Ht)].
    + rewrite html_simple by done. constructor; [done|]. apply IH; [simpl; lia|done].
    + rewrite html_six by done. apply lit_u; [done|]. apply IH; [simpl; lia|done].
  - destruct s as [|c s]; [constructor|]. simpl in Hb. assert (Hc : c <> bslash) by congruence.
    destruct (lit_char_cases c s Hl Hc) as [(r & t & Ers & Hv & _ & _ & Ht)|(Hd & Hs & Hge & Ht)].
    + assert (Hlen : (length t < length (c :: s))%nat).
      { rewrite Ers, length_app. pose proof (encode_length_pos r). destruct (encode_rune r); [done|]. simpl. lia. }
      rewrite Ers in *. destruct (html_special r) eqn:Hsp.
      * rewrite html_escaped by done. apply lit_app; [apply lit_u_text|by apply IH].
      * rewrite html_encode by done. destruct (Z.lt_ge_cases r 128).
        -- pose proof (proj1 (valid_rune_spec r) Hv). rewrite encode_ascii in * by lia. cbn [app] in *. simplify_eq.
           inversion Hl; subst; try done. constructor; auto.
        -- apply lit_high; [by apply encode_high|by apply IH].
    + rewrite html_copy; [|done|by rewrite Hd]. apply high_plain in Hge as (? & ? & ?).
      constructor; [done..|]. apply IH; [simpl; lia|done].
Qed.

(** The second half of a surrogate pair is found in the escaped text exactly
    when it was there before. *)
Lemma html_pair r t : lit t -> u_escape (html t) ≫= pair_rune r = u_escape t ≫= pair_rune r.
Proof.
  intros Hl. destruct (decide (head t = Some bslash)) as [Hb|Hb].
  - destruct t as [|? t]; [done|]. injection Hb as ->. destruct (lit_bslash _ Hl) as [(e & t' & -> & [c He] & Ht)|(h1 & h2 & h3 & h4 & t' & -> & Hh & Ht)].
    + rewrite html_simple by (by rewrite He). assert (Hn : forall x, u_escape (bslash :: e :: x) = None).
      { intros x. do 4 (destruct x as [|? x]; [done|]). unfold u_escape.
        destruct (Ascii.eqb_spec e "u") as [->|]; [done|]. by rewrite andb_false_r. }
      by rewrite !Hn.
    + by rewrite html_six.
  - destruct t as [|c t]; [done|]. simpl in Hb. assert (Hc : c <> bslash) by congruence.
    assert (Hn : forall d x, d <> bslash -> u_escape (d :: x) = None).
    { intros d x Hd%Ascii.eqb_neq. do 5 (destruct x as [|? x]; [done|]). unfold u_escape. by rewrite Hd. }
    rewrite (Hn c t) by done.
    destruct (lit_char_cases c t Hl Hc) as [(r' & t' & Ers & Hv & Hnb & _ & Ht)|(Hd & Hs & Hge & Ht)].
    + rewrite Ers. destruct (html_special r') eqn:Hsp.
      * rewrite html_escaped by done. destruct (special_unicode r' Hsp) as (Hr & _). rewrite u_escape_text by done.
        simpl. unfold pair_rune. unfold html_special in Hsp. rewrite !orb_true_iff, !Z.eqb_eq in Hsp.
        rewrite (proj2 (Z.leb_gt 56320 r')), andb_false_r by lia. done.
      * rewrite html_encode by done. destruct (encode_rune r') as [|d q] eqn:E; [by apply encode_length_pos in E|].
        cbn [app] in *. simplify_eq. by rewrite Hn.
    + rewrite html_copy; [|done|by rewrite Hd]. by rewrite Hn.
Qed.

Lemma unquote_html_u h1 h2 h3 h4 t : forallb is_hex [h1; h2; h3; h4] = true -> lit t ->
  (forall t', (length t' <= length t)%nat -> lit t' -> walk unquote_step (html t') = walk unquote_step t') ->
  let s := bslash :: "u"%char :: h1 :: h2 :: h3 :: h4 :: t in
  walk unquote_step (html s) = walk unquote_step s.
Proof.
  intros Hh Ht IH s. subst s. rewrite html_six by done. set (p := [bslash; "u"%char; h1; h2; h3; h4]).
  assert (Hu : forall x, u_escape (p ++ x) = Some (hex4 h1 h2 h3 h4)).
  { intros x. subst p. cbn [app]. unfold u_escape. by rewrite !Ascii.eqb_refl, Hh. }
  change (walk unquote_step (p ++ html t) = walk unquote_step (p ++ t)). set (r := hex4 h1 h2 h3 h4) in *.
  destruct (is_surrogate r) eqn:Es.
  2:{ assert (Hst : forall x, unquote_step (p ++ x) = ([r], length p)) by (intros x; unfold unquote_step; by rewrite Hu, Es).
      rewrite !(walk_app unquote_step p _ [r]) by (done || apply Hst). by rewrite (IH t). }
  pose proof (html_pair r t Ht) as Hp. destruct (u_escape t ≫= pair_rune r) as [r'|] eqn:Ep.
  - assert (exists g1 g2 g3 g4 t', t = bslash :: "u"%char :: g1 :: g2 :: g3 :: g4 :: t' /\
      forallb is_hex [g1; g2; g3; g4] = true /\ lit t') as (g1 & g2 & g3 & g4 & t' & -> & Hg & Ht').
    { apply bind_Some in Ep as (x & Hx & _). destruct t as [|c t]; [done|].
      assert (c = bslash) as ->.
      { do 5 (destruct t as [|? t]; [done|]). unfold u_escape in Hx. by destruct (Ascii.eqb_spec c bslash). }
      destruct (lit_bslash _ Ht) as [(e & t' & -> & [c He] & _)|(g1 & g2 & g3 & g4 & t1 & -> & H)]; [|by exists g1, g2, g3, g4, t1].
      do 4 (destruct t' as [|? t']; [done|]). unfold u_escape in Hx.
      destruct (Ascii.eqb_spec e "u") as [->|]; [done|]. by rewrite andb_false_r in Hx. }
    rewrite html_six in * by done. set (q := [bslash; "u"%char; g1; g2; g3; g4]).
    change (p ++ bslash :: "u"%char :: g1 :: g2 :: g3 :: g4 :: html t') with ((p ++ q) ++ html t').
    change (p ++ bslash :: "u"%char :: g1 :: g2 :: g3 :: g4 :: t') with ((p ++ q) ++ t').
    assert (Hst : forall x, unquote_step ((p ++ q) ++ x) = ([r'], 12%nat)).
    { intros x. unfold unquote_step. rewrite <- app_assoc, Hu, Es. change (drop 6 (p ++ q ++ x)) with (q ++ x).
      assert (Hq : u_escape (q ++ x) = u_escape (q ++ t')) by (subst q; cbn [app]; unfold u_escape; by rewrite Hg).
      rewrite Hq. cbn [app] in Ep. change (bslash :: "u"%char :: g1 :: g2 :: g3 :: g4 :: t') with (q ++ t') in Ep.
      by rewrite Ep. }
    rewrite !(walk_app unquote_step (p ++ q) _ [r']) by (done || apply Hst). f_equal. apply IH; [simpl; lia|done].
  - assert (Hst : forall x, u_escape x ≫= pair_rune r = None -> unquote_step (p ++ x) = ([rune_error], length p)).
    { intros x Hx. unfold unquote_step. rewrite Hu, Es. change (drop 6 (p ++ x)) with x. by rewrite Hx. }
    rewrite !(walk_app unquote_step p _ [rune_error]) by (done || by apply Hst). by rewrite (IH t).
Qed.

Lemma unquote_html raw : lit raw -> unquote (html raw) = unquote raw.
Proof.
  intros Hl. unfold unquote. f_equal. revert Hl.
  induction raw as [s IH] using (induction_ltof1 _ (@length ascii)). unfold ltof in IH. intros Hl.
  destruct (decide (head s = Some bslash)) as [Hb|Hb].
  - destruct s as [|? s]; [done|]. injection Hb as ->.
    destruct (lit_bslash _ Hl) as [(e & t & -> & [c He] & Ht)|(h1 & h2 & h3 & h4 & t & -> & Hh & Ht)].
    + rewrite html_simple by (by rewrite He).
      change (bslash :: e :: html t) with ([bslash; e] ++ html t). change (bslash :: e :: t) with ([bslash; e] ++ t).
      rewrite !(walk_app unquote_step [bslash; e] _ [code c]) by (done || by apply unquote_simple).
      f_equal. apply IH; [simpl; lia|done].
    + apply unquote_html_u; [done..|]. intros t' Hlen Ht'. apply IH; [simpl; lia|done].
  - destruct s as [|c s]; [done|]. simpl in Hb. assert (Hc : c <> bslash) by congruence.
    destruct (lit_char_cases c s Hl Hc) as [(r & t & Ers & Hv & Hnb & _ & Ht)|(Hd & Hs & Hge & Ht)].
    + assert (Hlen : (length t < length (c :: s))%nat).
      { rewrite Ers, length_app. pose proof (encode_length_pos r). destruct (encode_rune r); [done|]. simpl. lia. }
      rewrite Ers. rewrite (walk_app unquote_step (encode_rune r) t [r]) by (apply encode_length_pos || by apply unquote_encode).
      destruct (html_special r) eqn:Hsp.
      * destruct (special_unicode r Hsp) as (Hr & Hsur & _).
        rewrite html_escaped, (walk_app unquote_step (u_text r) _ [r]) by (done || by apply unquote_u_text).
        f_equal. by apply IH.
      * rewrite html_encode, (walk_app unquote_step (encode_rune r) _ [r])
          by (done || apply encode_length_pos || by apply unquote_encode). f_equal. by apply IH.
    + rewrite html_copy; [|done|by rewrite Hd].
      assert (Hst : forall x, decode_rune (c :: x) = None -> unquote_step ([c] ++ x) = ([rune_error], 1%nat)).
      { intros x Hx. cbn [app]. rewrite unquote_plain by done. unfold front_rune. by rewrite Hx. }
      change (c :: html s) with ([c] ++ html s). change (c :: s) with ([c] ++ s).
      rewrite !(walk_app unquote_step [c] _ [rune_error]) by (done || apply Hst; auto using html_decode_None).
      f_equal. apply IH; [simpl; lia|done].
Qed.

(** Compacting a value keeps it well formed. *)
Lemma html_json_lexed v : lexed v -> lexed (html_json v).
Proof.
  induction v as [| | |r|l IH|l IH] using json_tree_ind; simpl; try done.
  - rewrite !str_ok_lit_iff. apply lit_html.
  - rewrite !Forall_foldr_and. intros H. apply Forall_forall. intros x Hx.
    apply list_elem_of_In, in_map_iff in Hx as (y & <- & Hy%list_elem_of_In).
    rewrite Forall_forall in IH, H. auto.
  - rewrite !Forall_foldr_and. intros H. apply Forall_forall. intros x Hx.
    apply list_elem_of_In, in_map_iff in Hx as (y & <- & Hy%list_elem_of_In).
    rewrite Forall_forall in IH, H. destruct (H y Hy) as [Hk Hv]. simpl. rewrite str_ok_lit_iff in *.
    auto using lit_html.
Qed.

Lemma html_json_depth v : depth (html_json v) = depth v.
Proof.
  induction v as [| | |r|l IH|l IH] using json_tree_ind; simpl; try done; do 2 f_equal; rewrite map_map.
  all: induction IH as [|v l Hv _ IHl]; simpl in *; [done|]; by rewrite Hv, IHl.
Qed.

End JsonSpec.
