(* ===== verification/JsonIndent.v ===== *)
(** * Texts for people: indented JSON and quoted strings

    [JsonIndent] is [json.MarshalIndent] with no prefix and two spaces, the form in
    which the tools of the repository write their reports, and that the parser
    reads the report back.  [Quote] is [strconv.Quote], which is what [%q] of [fmt]
    prints. *)

From Stdlib Require Import ZArith Lia Ascii String.
From stdpp Require Import base option list.
From S2P Require Import Prelude GoStrings Utf8 Json JsonSpec.

Module JsonIndent.
Import GoStrings Json JsonSpec.

(** A line break and the indentation of depth [d]. *)
Definition newline (d : nat) : bytes := byte 10 :: repeat " "%char (2 * d).

Fixpoint join_with (sp : bytes) (l : list bytes) : bytes :=
  match l with
  | [] => []
  | x :: l => x ++ match l with [] => [] | _ => sp ++ join_with sp l end
  end.

(** Empty containers stay on one line. *)
Fixpoint pretty (d : nat) (v : json) : bytes :=
  match v with
  | JArr [] => to_bytes "[]"
  | JArr l =>
      "["%char :: newline (S d) ++ join_with (","%char :: newline (S d)) (List.map (pretty (S d)) l) ++ newline d ++ ["]"%char]
  | JObj [] => to_bytes "{}"
  | JObj l =>
      "{"%char :: newline (S d) ++
      join_with (","%char :: newline (S d)) (List.map (fun kv => quoted kv.1 ++ ":"%char :: " "%char :: pretty (S d) kv.2) l) ++
      newline d ++ ["}"%char]
  | v => print v
  end.

Definition MarshalIndent (v : json) : bytes := pretty 0 v.

(** ** Reading back *)

Lemma skip_newline d s : skip_ws (newline d ++ s) = skip_ws s.
Proof. unfold newline. cbn [app]. induction (2 * d)%nat as [|n IH]; [done|exact IH]. Qed.

Lemma newline_stop d s : sep (newline d ++ s).
Proof. done. Qed.

#[local] Opaque newline.

#[local] Hint Resolve newline_stop : core.

Lemma join_with_cons sp x l : join_with sp (x :: l) = x ++ match l with [] => [] | _ => sp ++ join_with sp l end.
Proof. done. Qed.

Lemma pretty_head d v :
  lexed v -> exists c t, pretty d v = c :: t /\ is_json_space c = false /\ Ascii.eqb c "]" = false.
Proof.
  intros Hl. destruct v as [| | | |[|? ?]|[|? ?]]; try exact (print_head _ Hl); by eexists _, _.
Qed.

Definition reads_pretty (v : json) : Prop := forall e f d t,
  lexed v -> d + depth v <= maxNestingDepth -> (2 * length (pretty e v) + 1 <= f)%nat -> sep t ->
  value f d (pretty e v ++ t) = Some (v, t).

Lemma elements_pretty e l : forall v f d t,
  Forall reads_pretty (v :: l) -> Forall lexed (v :: l) ->
  d + foldr Z.max 0 (List.map depth (v :: l)) <= maxNestingDepth ->
  (2 * length (join_with (","%char :: newline (S e)) (List.map (pretty (S e)) (v :: l))) + 2 <= f)%nat ->
  elements f d (join_with (","%char :: newline (S e)) (List.map (pretty (S e)) (v :: l)) ++ newline e ++ "]"%char :: t) = Some (v :: l, t).
Proof.
  induction l as [|w l IH]; intros v f d t Hr Hl Hd Hf.
  all: inversion Hr as [|? ? Hv Hr']; subst; inversion Hl as [|? ? Hlv Hl']; subst.
  all: cbn [List.map] in *; rewrite join_with_cons in *; cbn [foldr] in Hd.
  all: destruct f as [|f]; [lia|]; cbn [elements].
  - rewrite app_nil_r in *. rewrite Hv by (done || eauto || lia). cbn [mbind option_bind]. by rewrite skip_newline.
  - rewrite <- app_assoc. rewrite length_app in Hf. cbn [app length] in Hf. rewrite length_app in Hf.
    specialize (IH w f d t Hr' Hl'). cbn [List.map] in IH.
    assert (Hs : not_space (join_with (","%char :: newline (S e)) (pretty (S e) w :: List.map (pretty (S e)) l) ++ newline e ++ "]"%char :: t)).
    { inversion Hl' as [|? ? Hw _]; subst. destruct (pretty_head (S e) w Hw) as (c & r & Hp & Hc & _). by rewrite join_with_cons, Hp. }
    set (js := join_with _ (_ :: _)) in *. clearbody js. rewrite <- app_assoc. cbn [app].
    rewrite Hv by (done || eauto || lia). simpl.
    rewrite skip_newline, skip_ws_id by done. rewrite IH; [done|cbn [foldr] in *; lia|lia].
Qed.

Definition pretty_member (e : nat) (kv : bytes * json) : bytes := quoted kv.1 ++ ":"%char :: " "%char :: pretty e kv.2.

Lemma members_pretty e l : forall kv f d t,
  Forall (fun kv => reads_pretty kv.2) (kv :: l) -> Forall (fun kv => str_ok kv.1 /\ lexed kv.2) (kv :: l) ->
  d + foldr Z.max 0 (List.map (fun kv => depth kv.2) (kv :: l)) <= maxNestingDepth ->
  (2 * length (join_with (","%char :: newline (S e)) (List.map (pretty_member (S e)) (kv :: l))) + 2 <= f)%nat ->
  members f d (join_with (","%char :: newline (S e)) (List.map (pretty_member (S e)) (kv :: l)) ++ newline e ++ "}"%char :: t) = Some (kv :: l, t).
Proof.
  induction l as [|kw l IH]; intros [k v] f d t Hr Hl Hd Hf.
  all: inversion Hr as [|? ? Hv Hr']; subst; inversion Hl as [|? ? [Hk Hlv] Hl']; subst.
  all: cbn [List.map] in *; rewrite join_with_cons in *; cbn [foldr fst snd] in *.
  all: rewrite length_app in Hf; unfold pretty_member at 1 in Hf; unfold pretty_member at 1; unfold quoted in *.
  all: cbn [fst snd app] in *; cbn [length] in Hf; rewrite !length_app in Hf; cbn [length] in Hf.
  all: destruct f as [|f]; [lia|]; cbn [members]; rewrite Ascii.eqb_refl, <- !app_assoc; cbn [app].
  all: destruct (pretty_head (S e) v Hlv) as (c & r & Hp & Hc & _).
  all: assert (Hns : forall s, skip_ws (pretty (S e) v ++ s) = pretty (S e) v ++ s) by (intros s; rewrite Hp; by apply skip_ws_id).
  - rewrite str_ok_lit by done. simpl. rewrite Hns, Hv by (done || eauto || (simpl; lia)). simpl. by rewrite skip_newline.
  - specialize (IH kw f d t Hr' Hl'). cbn [List.map] in IH.
    assert (Hs : not_space (join_with (","%char :: newline (S e)) (pretty_member (S e) kw :: List.map (pretty_member (S e)) l) ++ newline e ++ "}"%char :: t)) by done.
    set (js := join_with _ (_ :: _)) in *. clearbody js.
    rewrite str_ok_lit by done. simpl. rewrite Hns, Hv by (done || eauto || (simpl; lia)). simpl.
    rewrite <- ?app_assoc, skip_newline, skip_ws_id by done. rewrite IH; [done|cbn [foldr] in *; lia|lia].
Qed.

Lemma value_pretty v : reads_pretty v.
Proof.
  induction v as [|b|n|r|l IH|l IH] using json_tree_ind; intros e f d t Hl Hd Hf Ht.
  1-4: exact (value_print _ f d t Hl Hd Hf Ht).
  - destruct l as [|v l]; [exact (value_print (JArr []) f d t Hl Hd Hf Ht)|].
    cbn [lexed depth] in *. apply Forall_foldr_and in Hl. destruct f as [|f]; [lia|]. cbn [value pretty] in *. simpl.
    rewrite (proj2 (Z.ltb_ge maxNestingDepth (d + 1))) by (pose proof (max_nonneg (List.map depth (v :: l))); lia).
    cbn [length] in Hf. rewrite !length_app in Hf. cbn [length] in Hf.
    change (pretty (S e) v ++ _) with (join_with (","%char :: newline (S e)) (List.map (pretty (S e)) (v :: l))) in *.
    pose proof (elements_pretty e l v f (d + 1) t IH Hl ltac:(lia) ltac:(lia)) as Hx.
    rewrite <- !app_assoc. rewrite skip_newline. cbn [app].
    assert (Hh : exists c r, join_with (","%char :: newline (S e)) (List.map (pretty (S e)) (v :: l)) ++ newline e ++ "]"%char :: t = c :: r /\
      is_json_space c = false /\ Ascii.eqb c "]" = false).
    { inversion Hl as [|? ? Hv _]; subst. destruct (pretty_head (S e) v Hv) as (c & r & Hp & Hc). cbn [List.map join_with].
      rewrite Hp. eexists _, _. split; [done|done]. }
    destruct Hh as (c & r & Hcr & Hsp & Hc). rewrite Hcr in *. rewrite skip_ws_id by done. by rewrite Hc, Hx.
  - destruct l as [|kv l]; [exact (value_print (JObj []) f d t Hl Hd Hf Ht)|].
    cbn [lexed depth] in *. apply Forall_foldr_and in Hl. destruct f as [|f]; [lia|]. cbn [value pretty] in *.
    change (fun kv : bytes * json => quoted kv.1 ++ ":"%char :: " "%char :: pretty (S e) kv.2) with (pretty_member (S e)) in *.
    assert (Hh : exists r, join_with (","%char :: newline (S e)) (List.map (pretty_member (S e)) (kv :: l)) = dquote :: r) by (by eexists).
    pose proof (members_pretty e l kv f (d + 1) t IH Hl ltac:(lia)) as Hx.
    set (js := join_with _ _) in *. clearbody js. destruct Hh as [r ->].
    cbn [length] in Hf. rewrite !length_app in Hf. cbn [length] in Hf, Hx. specialize (Hx ltac:(lia)).
    cbn [app]. rewrite <- !app_assoc.
    change (Ascii.eqb "{" dquote) with false. change (Ascii.eqb "{" "{") with true. cbv iota.
    rewrite (proj2 (Z.ltb_ge maxNestingDepth (d + 1)))
      by (pose proof (max_nonneg (List.map (fun kv => depth kv.2) (kv :: l))); lia).
    rewrite skip_newline. cbn [app] in *. rewrite skip_ws_id by reflexivity.
    change (Ascii.eqb dquote "}") with false. cbv iota. rewrite <- !app_assoc. cbn [app]. by rewrite Hx.
Qed.

(** The parser reads back what [MarshalIndent] writes, with or without the line
    break after it. *)
Lemma parse_indented v t : wf v -> t = [] \/ t = [byte 10] -> parse (MarshalIndent v ++ t) = Some v.
Proof.
  intros [Hl Hd] Ht. unfold parse, MarshalIndent.
  assert (Hs : skip_ws (pretty 0 v ++ t) = pretty 0 v ++ t).
  { destruct (pretty_head 0 v Hl) as (c & r & -> & Hc & _). by apply skip_ws_id. }
  rewrite Hs, (value_pretty v 0%nat _ 0 t Hl) by (destruct Ht as [->| ->]; try done; unfold fuel_for; rewrite ?length_app; lia).
  by destruct Ht as [->| ->].
Qed.

End JsonIndent.

(** ** Quoted strings *)

Module Quote.
Import GoStrings Utf8.

(** [n] hexadecimal digits. *)
Definition hex_pad (n : nat) (z : Z) : bytes :=
  List.map (fun i => Json.hex_digit (z / 16 ^ Z.of_nat i mod 16)) (rev (seq 0 n)).

(** One rune; [isPrint] is [unicode.IsPrint] above ASCII. *)
Definition escape_rune (isPrint : Z -> bool) (r : Z) : bytes :=
  if (r =? 34) || (r =? 92) then [byte 92; chr r]
  else if (if r <? 128 then (32 <=? r) && (r <? 127) else isPrint r) then encode_rune r
  else if r =? 7 then to_bytes "\a" else if r =? 8 then to_bytes "\b"
  else if r =? 12 then to_bytes "\f" else if r =? 10 then to_bytes "\n"
  else if r =? 13 then to_bytes "\r" else if r =? 9 then to_bytes "\t"
  else if r =? 11 then to_bytes "\v"
  else if (r <? 32) || (r =? 127) then to_bytes "\x" ++ hex_pad 2 r
  else if r <? 65536 then to_bytes "\u" ++ hex_pad 4 r else to_bytes "\U" ++ hex_pad 8 r.

Definition Quote (isPrint : Z -> bool) (s : string) : string :=
  of_bytes ([byte 34] ++
            walk (fun s => match decode_rune s, s with
                           | Some (r, n), _ => (escape_rune isPrint r, n)
                           | None, c :: _ => (to_bytes "\x" ++ hex_pad 2 (code c), 1%nat)
                           | None, [] => ([], 1%nat)
                           end) (to_bytes s) ++ [byte 34]).

Lemma hex_pad_visible n z : Forall (fun c => 32 <= code c) (hex_pad n z).
Proof.
  unfold hex_pad. apply Forall_map, Forall_forall. intros i _. unfold Json.hex_digit.
  set (d := z / 16 ^ Z.of_nat i mod 16). assert (0 <= d < 16) by (apply Z.mod_pos_bound; lia).
  destruct (Z.ltb_spec d 10); rewrite code_chr; lia.
Qed.

Lemma walk_Forall {A} (P : A -> Prop) (step : bytes -> list A * nat) :
  (forall c s, Forall P (step (c :: s)).1) -> forall s, Forall P (walk step s).
Proof.
  intros H s. unfold walk. generalize (length s) as fuel. intros fuel. revert s.
  induction fuel as [|fuel IH]; intros [|c s]; cbn [walk_fuel]; try constructor.
  specialize (H c s). destruct (step (c :: s)) as [o n]. apply Forall_app. by split.
Qed.

Lemma escape_rune_visible isPrint r : Forall (fun c => 32 <= code c) (escape_rune isPrint r).
Proof.
  unfold escape_rune. assert (Hx : forall s n, Forall (fun c => 32 <= code c) (to_bytes s) ->
    Forall (fun c => 32 <= code c) (to_bytes s ++ hex_pad n r)).
  { intros s n H. apply Forall_app. split; [done|apply hex_pad_visible]. }
  destruct ((r =? 34) || (r =? 92)) eqn:E.
  { apply orb_true_iff in E as [->%Z.eqb_eq| ->%Z.eqb_eq]; repeat constructor; vm_compute; discriminate. }
  destruct (if r <? 128 then _ else _) eqn:Ep.
  { destruct (Z.ltb_spec r 128).
    - apply andb_true_iff in Ep as [H1%Z.leb_le H2%Z.ltb_lt]. rewrite JsonSpec.encode_ascii by lia.
      constructor; [|constructor]. rewrite code_chr; lia.
    - eapply Forall_impl; [apply JsonSpec.encode_high; lia|]. unfold JsonSpec.high. intros c Hc. lia. }
  repeat (match goal with |- Forall _ (if ?b then _ else _) => destruct b end);
    try (apply Hx); repeat constructor; vm_compute; discriminate.
Qed.

(** A quoted text is one line of visible characters: no control character of the
    input reaches the output, so a quoted value cannot forge a log line. *)
Lemma Quote_visible isPrint s : Forall (fun c => 32 <= code c) (to_bytes (Quote isPrint s)).
Proof.
  unfold Quote. rewrite to_of_bytes, !Forall_app. split_and!; [repeat constructor; vm_compute; discriminate| |repeat constructor; vm_compute; discriminate].
  apply walk_Forall. intros c t. destruct (decode_rune (c :: t)) as [[r n]|]; [apply escape_rune_visible|].
  cbn [fst]. apply Forall_app. split; [repeat constructor; vm_compute; discriminate|apply hex_pad_visible].
Qed.

End Quote.
