(* ===== verification/JsonMap.v ===== *)
(** * Decoding JSON into Go values

    [json.Unmarshal] into a struct with a string field and into
    [map[string]json.RawMessage], and [json.Marshal] of such a map.  A Go map is
    a list sorted by key without repetition: [Marshal] writes the keys in byte
    order, and the other uses of the maps do not see an order. *)

From Stdlib Require Import ZArith Lia Ascii String Sorted.
From stdpp Require Import base option list.
From S2P Require Import Prelude GoStrings Utf8 Json JsonSpec.

Module JsonMap.
Import GoStrings Utf8 Json JsonSpec.

(** ** Maps *)

(** The byte order of Go strings. *)
Fixpoint bytes_ltb (a b : bytes) : bool :=
  match a, b with
  | _, [] => false
  | [], _ :: _ => true
  | x :: a', y :: b' => if Ascii.eqb x y then bytes_ltb a' b' else code x <? code y
  end.

Abbreviation gomap A := (list (bytes * A)).

Fixpoint put {A} (k : bytes) (v : A) (m : gomap A) : gomap A :=
  match m with
  | [] => [(k, v)]
  | (k', v') :: m' =>
      if bytes_ltb k k' then (k, v) :: m
      else if bool_decide (k = k') then (k, v) :: m'
      else (k', v') :: put k v m'
  end.

Fixpoint get {A} (k : bytes) (m : gomap A) : option A :=
  match m with
  | [] => None
  | (k', v') :: m' => if bool_decide (k = k') then Some v' else get k m'
  end.

(** ** Unmarshal *)

(** An error, a nil map, or a value. *)
Inductive decoded (A : Type) := DErr | DNil | DVal (a : A).
Arguments DErr {A}. Arguments DNil {A}. Arguments DVal {A} a.

Definition members_map (ms : list (bytes * json)) : gomap json :=
  foldl (fun m kv => put (unquote kv.1) kv.2 m) [] ms.

(** [json.Unmarshal(body, &payload)] for a nil [map[string]json.RawMessage]. *)
Definition unmarshal_map (body : bytes) : decoded (gomap json) :=
  match parse body with
  | Some JNull => DNil
  | Some (JObj ms) => DVal (members_map ms)
  | _ => DErr
  end.

(** The text of [json.Marshal] of such a map. *)
Definition marshal_map (m : gomap json) : bytes :=
  print (JObj (List.map (fun kv => (escape kv.1, html_json kv.2)) m)).

(** Case folding of a key: the ASCII letters, and the two other characters that
    fold to an ASCII letter, U+017F and U+212A. *)
Definition fold_step (s : bytes) : bytes * nat :=
  match s with
  | c :: _ =>
      if has_prefix [byte 197; byte 191] s then (["s"%char], 2%nat)
      else if has_prefix [byte 226; byte 132; byte 170] s then (["k"%char], 3%nat)
      else ([lower_char c], 1%nat)
  | [] => ([], 1%nat)
  end.

Definition fold_key (k : bytes) : bytes := walk fold_step k.

(** Whether the member's key selects the struct field of that (lower-case) name. *)
Definition selects (name : string) (key : bytes) : bool := bool_decide (fold_key (unquote key) = to_bytes name).

(** A string field: the last string wins, null leaves it alone, and any other
    value makes [Unmarshal] fail in the end. *)
Definition store_string (name : string) (acc : option bytes) (kv : bytes * json) : option bytes :=
  if selects name kv.1 then
    match kv.2 with
    | JStr r => (fun _ => unquote r) <$> acc
    | JNull => acc
    | _ => None
    end
  else acc.

Definition string_field (name : string) (ms : list (bytes * json)) : option bytes :=
  foldl (store_string name) (Some []) ms.

(** ** Lemmas: the order and maps *)

Definition bytes_lt (a b : bytes) : Prop := bytes_ltb a b = true.

Lemma bytes_ltb_irrefl a : bytes_ltb a a = false.
Proof. induction a as [|x a IH]; simpl; [done|]. by rewrite Ascii.eqb_refl. Qed.

Lemma bytes_lt_trans a b c : bytes_lt a b -> bytes_lt b c -> bytes_lt a c.
Proof.
  unfold bytes_lt. revert b c. induction a as [|x a IH]; intros [|y b] [|z c]; simpl; try done.
  destruct (Ascii.eqb_spec x y), (Ascii.eqb_spec y z), (Ascii.eqb_spec x z); subst; try done;
    rewrite ?Z.ltb_lt; eauto; lia.
Qed.

Lemma bytes_lt_total a b : bytes_ltb a b = false -> a = b \/ bytes_lt b a.
Proof.
  unfold bytes_lt. revert b. induction a as [|x a IH]; intros [|y b]; simpl; try done; [auto..|].
  destruct (Ascii.eqb_spec x y) as [->|Hxy].
  - rewrite Ascii.eqb_refl. intros H. destruct (IH b H) as [->|]; auto.
  - intros H%Z.ltb_ge. right. destruct (Ascii.eqb_spec y x); [by subst|]. apply Z.ltb_lt.
    assert (code x <> code y) by (by intros ?%code_inj). lia.
Qed.

(** Strictly increasing keys. *)
Definition sorted {A} (m : gomap A) : Prop := StronglySorted (fun a b => bytes_lt a.1 b.1) m.

Lemma get_put_eq {A} k (v : A) m : get k (put k v m) = Some v.
Proof.
  induction m as [|[k' v'] m IH]; simpl; [by rewrite bool_decide_eq_true_2|].
  destruct (bytes_ltb k k'); simpl; [by rewrite bool_decide_eq_true_2|].
  case_bool_decide; simpl; [by rewrite bool_decide_eq_true_2|]. by rewrite bool_decide_eq_false_2.
Qed.

Lemma get_put_ne {A} k k' (v : A) m : k <> k' -> get k (put k' v m) = get k m.
Proof.
  intros Hne. induction m as [|[k2 v2] m IH]; simpl; [by rewrite bool_decide_eq_false_2|].
  destruct (bytes_ltb k' k2); simpl; [by rewrite (bool_decide_eq_false_2 (k = k'))|].
  case_bool_decide; subst; simpl; [by rewrite !bool_decide_eq_false_2|]. by rewrite IH.
Qed.

Lemma put_Forall {A} (P : bytes * A -> Prop) k v m : P (k, v) -> Forall P m -> Forall P (put k v m).
Proof.
  intros Hk. induction 1 as [|[k' v'] m Hx Hm IH]; simpl; [by constructor|].
  destruct (bytes_ltb k k'); [by repeat constructor|]. case_bool_decide; by constructor.
Qed.

Lemma put_sorted {A} k (v : A) m : sorted m -> sorted (put k v m).
Proof.
  induction 1 as [|[k' v'] m Hm IH Hall]; simpl; [by repeat constructor|].
  destruct (bytes_ltb k k') eqn:E.
  - constructor; [by constructor|]. constructor; [done|].
    eapply Forall_impl; [exact Hall|]. intros x Hx. eapply bytes_lt_trans; [exact E|exact Hx].
  - case_bool_decide; [subst; by constructor|]. constructor; [done|]. apply put_Forall; [|done].
    destruct (bytes_lt_total _ _ E) as [->|]; done.
Qed.

Lemma members_map_sorted ms : sorted (members_map ms).
Proof.
  unfold members_map. apply (rev_ind (fun ms => sorted (foldl _ [] ms))); [constructor|].
  intros x l IH. rewrite foldl_app. by apply put_sorted.
Qed.

(** Inserting the entries of a sorted map in order rebuilds it. *)
Lemma put_last {A} k (v : A) m : Forall (fun kv => bytes_lt kv.1 k) m -> put k v m = m ++ [(k, v)].
Proof.
  induction 1 as [|[k' v'] m Hk _ IH]; simpl; [done|]. simpl in Hk.
  destruct (bytes_ltb k k') eqn:E.
  - pose proof (bytes_lt_trans _ _ _ E Hk) as Hx. unfold bytes_lt in Hx. by rewrite bytes_ltb_irrefl in Hx.
  - case_bool_decide as Hkk; [subst; unfold bytes_lt in Hk; by rewrite bytes_ltb_irrefl in Hk|]. by rewrite IH.
Qed.

Lemma foldl_put_sorted {A} (m : gomap A) : forall acc,
  sorted (acc ++ m) -> foldl (fun m kv => put kv.1 kv.2 m) acc m = acc ++ m.
Proof.
  induction m as [|[k v] m IH]; intros acc Hs; simpl; [by rewrite app_nil_r|].
  rewrite put_last; [rewrite IH; rewrite <- app_assoc; done|].
  unfold sorted in Hs. clear IH. induction acc as [|x acc IHa]; [constructor|].
  simpl in Hs. apply StronglySorted_inv in Hs as [Hs Hx]. constructor; [|by apply IHa].
  apply Forall_app in Hx as [_ Hx]. by inversion Hx.
Qed.

Lemma get_sorted_in {A} (m : gomap A) k v : sorted m -> (k, v) ∈ m <-> get k m = Some v.
Proof.
  induction 1 as [|[k' v'] m Hm IH Hall]; simpl; [split; [by intros ?%elem_of_nil|done]|].
  rewrite elem_of_cons, IH. case_bool_decide as E.
  - subst. split; [intros [H|H]; [by simplify_eq|]|intros [= ->]; by left].
    rewrite <- IH in H. rewrite Forall_forall in Hall. specialize (Hall _ H). unfold bytes_lt in Hall. simpl in Hall.
    by rewrite bytes_ltb_irrefl in Hall.
  - split; [intros [H|H]; [by simplify_eq|done]|by right].
Qed.

(** ** Round trip of maps *)

Lemma members_map_escape (m : gomap json) (f : json -> json) :
  sorted m -> Forall (fun kv => valid_utf8 kv.1) m ->
  members_map (List.map (fun kv => (escape kv.1, f kv.2)) m) = List.map (fun kv => (kv.1, f kv.2)) m.
Proof.
  intros Hs Hv. unfold members_map.
  transitivity (foldl (fun m kv => put kv.1 kv.2 m) [] (List.map (fun kv => (kv.1, f kv.2)) m)).
  - generalize (@nil (bytes * json)). clear Hs. induction Hv as [|[k v] m Hk _ IH]; intros acc; simpl; [done|].
    simpl in Hk. rewrite unquote_escape, Hk. apply IH.
  - apply foldl_put_sorted. simpl. induction Hs as [|x m Hm IH Hall]; simpl; [constructor|]. inversion Hv; subst.
    constructor; [by apply IH|]. apply Forall_forall. intros y (z & <- & Hz)%list_elem_of_In%in_map_iff.
    rewrite Forall_forall in Hall. apply (Hall z). by apply list_elem_of_In.
Qed.

(** The entries a decoded object can have. *)
Definition entry_ok (kv : bytes * json) : Prop :=
  valid_utf8 kv.1 /\ lexed kv.2 /\ 1 + depth kv.2 <= maxNestingDepth.

(** The text of an object whose members are well formed. *)
Lemma object_parses {A} (f : A -> bytes * json) (m : list A) :
  Forall (fun x => str_ok (f x).1 /\ lexed (f x).2 /\ 1 + depth (f x).2 <= maxNestingDepth) m ->
  parse (print (JObj (List.map f m))) = Some (JObj (List.map f m)).
Proof.
  intros Hm. apply parse_print. split.
  - simpl. rewrite map_map. apply Forall_foldr_and. eapply Forall_impl; [exact Hm|]. naive_solver.
  - cbn [depth]. rewrite map_map. enough (foldr Z.max 0 (List.map (fun x => depth (f x).2) m) <= maxNestingDepth - 1)
      by (simpl in *; lia).
    induction Hm as [|x m (_ & _ & Hd) _ IH]; simpl; [unfold maxNestingDepth; lia|]. lia.
Qed.

Lemma marshal_parses (m : gomap json) :
  Forall entry_ok m -> parse (marshal_map m) = Some (JObj (List.map (fun kv => (escape kv.1, html_json kv.2)) m)).
Proof.
  intros Hm. apply object_parses. eapply Forall_impl; [exact Hm|]. intros kv (_ & Hl & Hd). simpl.
  rewrite html_json_depth. split_and!; [apply lit_str_ok, lit_escape|by apply html_json_lexed|done].
Qed.

(** Marshalling a map and decoding it gives the same map, its values compacted. *)
Lemma unmarshal_marshal (m : gomap json) :
  sorted m -> Forall entry_ok m ->
  unmarshal_map (marshal_map m) = DVal (List.map (fun kv => (kv.1, html_json kv.2)) m).
Proof.
  intros Hs Hm. unfold unmarshal_map. rewrite marshal_parses by done. f_equal. apply members_map_escape; [done|].
  eapply Forall_impl; [exact Hm|]. by intros x [H _].
Qed.

(** The same for values that are written as they are. *)
Lemma unmarshal_object (m : gomap json) :
  sorted m -> Forall entry_ok m -> unmarshal_map (print (JObj (List.map (fun kv => (escape kv.1, kv.2)) m))) = DVal m.
Proof.
  intros Hs Hm. unfold unmarshal_map. rewrite object_parses.
  - f_equal. rewrite (members_map_escape m (fun v => v)); [|done|].
    + induction m as [|[k v] m IH]; simpl; [done|]. inversion Hs; inversion Hm; subst. f_equal. by apply IH.
    + eapply Forall_impl; [exact Hm|]. by intros x [H _].
  - eapply Forall_impl; [exact Hm|]. intros kv (_ & Hl & Hd). simpl. split_and!; [apply lit_str_ok, lit_escape|done..].
Qed.

Lemma members_map_ok ms : wf (JObj ms) -> Forall entry_ok (members_map ms).
Proof.
  intros [Hl Hd]. simpl in Hl, Hd. apply Forall_foldr_and in Hl. unfold members_map.
  assert (H : Forall entry_ok []) by constructor. revert H. generalize (@nil (bytes * json)).
  induction Hl as [|[k v] ms [Hk Hv] _ IH]; intros acc Hacc; simpl in *; [done|].
  apply IH; [lia|]. apply put_Forall; [|done]. split_and!; [apply valid_unquote|done|simpl; lia].
Qed.

Lemma unmarshal_ok body m : unmarshal_map body = DVal m -> sorted m /\ Forall entry_ok m.
Proof.
  unfold unmarshal_map. destruct (parse body) as [[]|] eqn:E; try done. intros [= <-].
  split; [apply members_map_sorted|]. by apply members_map_ok, (parse_wf body).
Qed.

Lemma get_map {A B} (f : A -> B) k (m : gomap A) : get k (List.map (fun kv => (kv.1, f kv.2)) m) = f <$> get k m.
Proof. induction m as [|[k' v'] m IH]; simpl; [done|]. by case_bool_decide. Qed.

End JsonMap.
