(* ===== verification/JsonStruct.v ===== *)
(** * Decoding JSON into Go structs

    [json.Unmarshal] into the structs the command-line tools declare: strings,
    integers, slices and nested structs.  A decoder takes the value the field
    holds already, because a key that appears twice is decoded twice into the
    same memory; a value of the wrong type makes the whole call fail in the end. *)

From Stdlib Require Import ZArith Lia Ascii String.
From stdpp Require Import base option list strings.
From S2P Require Import Prelude GoStrings Utf8 Strconv Json JsonMap.

Module JsonStruct.
Import GoStrings Json JsonMap.

Abbreviation decoder A := (A -> json -> option A).

Definition dec_string : decoder bytes := fun old v =>
  match v with JStr r => Some (unquote r) | JNull => Some old | _ => None end.

(** An [int] field takes a literal [strconv.ParseInt] accepts. *)
Definition dec_int : decoder Z := fun old v =>
  match v with JNum n => Strconv.Atoi (num_text n) | JNull => Some old | _ => None end.

(** A slice is its backing array as far as it was ever written, and its length:
    decoding a second array reuses the elements of the first. *)
Record slice (A : Type) := { backing : list A; slen : nat }.
Arguments backing {A}.
Arguments slen {A}.

Definition nil_slice {A} : slice A := {| backing := []; slen := 0 |}.
Definition elements {A} (s : slice A) : list A := take (slen s) (backing s).

Fixpoint dec_elems {A} (zero : A) (d : decoder A) (old : list A) (l : list json) : option (list A) :=
  match l with
  | [] => Some old
  | v :: l => x ← d (default zero (head old)) v; r ← dec_elems zero d (tail old) l; Some (x :: r)
  end.

Definition dec_slice {A} (zero : A) (d : decoder A) : decoder (slice A) := fun old v =>
  match v with
  | JNull | JArr [] => Some nil_slice
  | JArr l => b ← dec_elems zero d (backing old) l; Some {| backing := b; slen := length l |}
  | _ => None
  end.

(** A struct: each member goes to the field its key selects; the field names are
    given in lower case. *)
Definition dec_member {A} (fields : list (string * decoder A)) (acc : option A) (kv : bytes * json) : option A :=
  a ← acc;
  match list_find (fun f => selects f.1 kv.1 = true) fields with
  | Some (_, f) => f.2 a kv.2
  | None => Some a
  end.

Definition dec_struct {A} (fields : list (string * decoder A)) : decoder A := fun old v =>
  match v with
  | JObj ms => foldl (dec_member fields) (Some old) ms
  | JNull => Some old
  | _ => None
  end.

(** [json.Unmarshal(body, &x)] with [x] at its zero value. *)
Definition unmarshal {A} (zero : A) (d : decoder A) (body : bytes) : option A := parse body ≫= d zero.

(** ** A body without repeated keys *)

(** An array that is decoded once gives one element per value, in order. *)
Lemma dec_elems_fresh {A} (zero : A) (d : decoder A) l : dec_elems zero d [] l = mapM (d zero) l.
Proof.
  induction l as [|v l IH]; [done|]. cbn [dec_elems mapM head default tail]. unfold default, id, mapM in *.
  destruct (d zero v); [|done]. cbn. by rewrite IH.
Qed.

Lemma dec_slice_fresh {A} (zero : A) (d : decoder A) l s :
  dec_slice zero d nil_slice (JArr l) = Some s -> mapM (d zero) l = Some (elements s).
Proof.
  destruct l as [|v l]; [intros [= <-]; done|]. cbn [dec_slice backing nil_slice]. rewrite dec_elems_fresh.
  intros (b & Hb & [= <-])%bind_Some. unfold elements. cbn [backing slen].
  rewrite take_ge; [done|]. apply length_mapM in Hb. cbn [length] in Hb. lia.
Qed.

End JsonStruct.
