(* ===== verification/Quota.v ===== *)
(** * Quota notifications and the MiniMax pilot

    Models [src/internal/quota/quota.go], [encode_json.go] and
    [src/internal/router/minimax.go].  The compiled pattern is an argument: the
    predicate it decides on a body. *)

From Stdlib Require Import ZArith Lia Ascii String.
From stdpp Require Import base option list gmap strings.
From S2P Require Import Prelude GoStrings Utf8 Json JsonSpec JsonMap.

Module Quota.
Import GoStrings Json JsonSpec JsonMap.

(** ** The detector *)

Record Detector := { pattern : bytes -> bool; webhookURL : string; channel : string }.

(** [New]; [compile] is [regexp.Compile]. *)
Definition New (compile : string -> option (bytes -> bool)) (pat webhook channel : string) : option Detector :=
  if pat =s "" then None
  else re ← compile pat; Some {| pattern := re; webhookURL := webhook; channel := channel |}.

(** [Matches] on a detector that may be nil. *)
Definition Matches (d : option Detector) (body : bytes) : bool :=
  match d with Some d => pattern d body | None => false end.

Definition backticks : bytes := ["`"; "`"; "`"]%char.

Definition buildSlackText (model node vendor : string) (body : bytes) : bytes :=
  let preview := if Nat.ltb 200 (length body) then take 200 body else body in
  to_bytes ":warning: *Quota fallback* | model=`" ++ to_bytes model ++ to_bytes "` node=`" ++ to_bytes node ++
  to_bytes "` vendor=`" ++ to_bytes vendor ++ "`"%char :: byte 10 :: backticks ++ preview ++ backticks.

(** [encodeJSON] of a map of strings. *)
Definition encodeJSON (m : gomap bytes) : bytes := print (JObj (List.map (fun kv => (escape kv.1, JStr (escape kv.2))) m)).

(** The post of [postSlack]: its URL and body. *)
Definition postSlack (d : Detector) (model node vendor : string) (body : bytes) : string * bytes :=
  let payload := put (to_bytes "text") (buildSlackText model node vendor body) [] in
  let payload := if channel d =s "" then payload else put (to_bytes "channel") (to_bytes (channel d)) payload in
  (webhookURL d, encodeJSON payload).

(** [Notify]: the posts it starts. *)
Definition Notify (d : option Detector) (model node vendor : string) (body : bytes) : list (string * bytes) :=
  match d with
  | None => []
  | Some d => if webhookURL d =s "" then [] else [postSlack d model node vendor body]
  end.

(** ** The MiniMax pilot *)

Definition MinChatBase : string := "https://api.minimaxi.com/v1".
Definition MinChatCompletionPath : string := "/text/chatcompletion_v2".
Definition forbiddenMinimaxBases : list string := ["https://api.minimax.io/v1"; "https://api.minimax.com/v1"]%string.

Inductive minError := ErrMinEmptyAPIKey | ErrMinForbiddenHost.

(** [MinChatURL]; [url.JoinPath] of the canonical base and the relative path puts
    one slash between them. *)
Definition MinChatURL (base : string) : string + minError :=
  if existsb (String.eqb base) forbiddenMinimaxBases then inr ErrMinForbiddenHost
  else
    let base := if base =s "" then MinChatBase else base in
    if negb (base =s MinChatBase) then inr ErrMinForbiddenHost
    else inl (base ++ "/" ++ TrimPrefix MinChatCompletionPath "/")%string.

Definition MinChatAuthorizationHeader (apiKey : string) : string + minError :=
  if TrimSpace apiKey =s "" then inr ErrMinEmptyAPIKey else inl ("Bearer " ++ TrimSpace apiKey)%string.

Definition IsMinChatModel (model : string) : bool :=
  existsb (String.eqb (TrimSpace model)) ["MiniMax-M3"; "MiniMax-Text-01"; "minimax-M3"; "minimax-Text-01"]%string.

(** ** Properties *)

Definition text_key : bytes := to_bytes "text".
Definition channel_key : bytes := to_bytes "channel".

Lemma strings_wf (m : gomap bytes) : wf (JObj (List.map (fun kv => (escape kv.1, JStr (escape kv.2))) m)).
Proof.
  split.
  - cbn [lexed]. rewrite map_map. apply Forall_foldr_and, Forall_true. intros kv. cbn. split; apply lit_str_ok, lit_escape.
  - cbn [depth]. rewrite map_map. cbn [depth snd]. assert (foldr Z.max 0 (List.map (fun _ : bytes * bytes => 0) m) = 0) as ->; [|done].
    induction m as [|kv m IH]; [done|]. cbn. by rewrite IH.
Qed.

(** A matched body is notified once, and only with a webhook: the post is a JSON
    object that reads back, its text holds at most 200 bytes of the body, and
    nothing is posted for a node without a detector. *)
Theorem slack_post_exact d model node vendor body :
  Notify None model node vendor body = [] /\
  (webhookURL d = ""%string -> Notify (Some d) model node vendor body = []) /\
  (webhookURL d <> ""%string -> exists post ms, Notify (Some d) model node vendor body = [(webhookURL d, post)] /\
     parse post = Some (JObj ms) /\ (text_key, JStr (escape (buildSlackText model node vendor body))) ∈ ms /\
     (channel d <> ""%string <-> exists v, (channel_key, v) ∈ ms)) /\
  exists pre post, buildSlackText model node vendor body = pre ++ take 200 body ++ post /\
    forall body', buildSlackText model node vendor body' = pre ++ take 200 body' ++ post.
Proof.
  split_and!; [done|by intros H; cbn; rewrite H| |].
  - intros H. cbn [Notify]. destruct (String.eqb_spec (webhookURL d) ""); [done|]. unfold postSlack.
    set (text := buildSlackText model node vendor body). destruct (String.eqb_spec (channel d) "") as [Hc|Hc].
    + eexists _, _. split; [reflexivity|]. unfold encodeJSON. rewrite parse_print by apply strings_wf. split; [reflexivity|].
      split; [apply elem_of_cons; by left|]. split; [done|]. intros (v & Hv). cbn in Hv. apply list_elem_of_singleton in Hv. discriminate Hv.
    + eexists _, _. split; [reflexivity|]. unfold encodeJSON. rewrite parse_print by apply strings_wf. split; [reflexivity|].
      cbn. split; [apply elem_of_cons; right; apply elem_of_cons; by left|]. split; [|done]. intros _.
      exists (JStr (escape (to_bytes (channel d)))). apply elem_of_cons. by left.
  - exists (to_bytes ":warning: *Quota fallback* | model=`" ++ to_bytes model ++ to_bytes "` node=`" ++ to_bytes node ++
      to_bytes "` vendor=`" ++ to_bytes vendor ++ "`"%char :: byte 10 :: backticks), backticks.
    assert (Hp : forall b : bytes, (if Nat.ltb 200 (length b) then take 200 b else b) = take 200 b).
    { intros b. destruct (Nat.ltb_spec 200 (length b)); [done|]. by rewrite take_ge. }
    split; [|intros body']; unfold buildSlackText; rewrite Hp; by rewrite <- !app_assoc.
Qed.

(** The pilot's URL is built for the canonical base or none given, and for
    nothing else: the deny list refuses nothing more. *)
Theorem min_chat_url_exact base :
  MinChatURL base = if (base =s "") || (base =s MinChatBase) then inl "https://api.minimaxi.com/v1/text/chatcompletion_v2"%string else inr ErrMinForbiddenHost.
Proof.
  unfold MinChatURL. destruct (String.eqb_spec base "") as [->|]; [reflexivity|]. destruct (String.eqb_spec base MinChatBase) as [->|]; [reflexivity|].
  cbn [orb negb]. by destruct (existsb _ _).
Qed.

(** A credential is never an empty bearer token. *)
Theorem min_chat_auth_exact apiKey h :
  MinChatAuthorizationHeader apiKey = inl h -> h = ("Bearer " ++ TrimSpace apiKey)%string /\ TrimSpace apiKey <> ""%string.
Proof. unfold MinChatAuthorizationHeader. destruct (String.eqb_spec (TrimSpace apiKey) ""); [done|]. by intros [= <-]. Qed.

End Quota.
