(* ===== verification/Net.v ===== *)
(** * The parts of Go's package net the gateway relies on

    Address literals as [net.ParseIP] reads them (dotted quads without leading
    zeros, IPv6 with one ellipsis and an optional trailing dotted quad, zones
    refused), the predicates of [net.IP], and [net.SplitHostPort].  Host strings
    are byte sequences. *)

From Stdlib Require Import ZArith Lia Ascii String.
From stdpp Require Import base option list gmap strings.
From S2P Require Import Prelude GoStrings.

Module Net.
Import GoStrings.

(** ** Splitting *)

Definition index_byte (c : ascii) (s : bytes) : option nat := fst <$> list_find (fun d => d = c) s.

Fixpoint last_index_byte (c : ascii) (s : bytes) : option nat :=
  match s with
  | [] => None
  | d :: s' =>
      match last_index_byte c s' with
      | Some n => Some (S n)
      | None => if Ascii.eqb c d then Some 0%nat else None
      end
  end.

Lemma last_index_byte_app c a b :
  last_index_byte c b = None -> last_index_byte c (a ++ c :: b) = Some (length a).
Proof.
  intros Hb. induction a as [|x a IH]; simpl.
  - by rewrite Hb, Ascii.eqb_refl.
  - by rewrite IH.
Qed.

(** [strings.Split(s, c)] for a one-byte separator. *)
Fixpoint split (c : ascii) (s : bytes) : list bytes :=
  match s with
  | [] => [[]]
  | d :: s' =>
      if Ascii.eqb c d then [] :: split c s'
      else match split c s' with
           | [] => [[d]]
           | p :: ps => (d :: p) :: ps
           end
  end.

(** ** net.IP *)

(** An IP is its bytes: 4, 16, or none for the nil IP. *)
Abbreviation IP := (list Z).

Definition v4InV6Prefix : IP := [0; 0; 0; 0; 0; 0; 0; 0; 0; 0; 255; 255].
Definition IPv4 (a b c d : Z) : IP := v4InV6Prefix ++ [a; b; c; d].

Definition To4 (ip : IP) : option IP :=
  if decide (length ip = 4%nat) then Some ip
  else if decide (length ip = 16%nat /\ take 12 ip = v4InV6Prefix) then Some (drop 12 ip)
  else None.

Definition IPv6loopback : IP := replicate 15 0 ++ [1].
Definition IPv6unspecified : IP := replicate 16 0.
Definition IPv4zero : IP := IPv4 0 0 0 0.

(** [ip.Equal(x)]: an IPv4 address and its IPv6 form are the same. *)
Definition Equal (ip x : IP) : bool :=
  if decide (length ip = length x) then bool_decide (ip = x)
  else if decide (length ip = 4%nat /\ length x = 16%nat)
  then bool_decide (take 12 x = v4InV6Prefix /\ ip = drop 12 x)
  else if decide (length ip = 16%nat /\ length x = 4%nat)
  then bool_decide (take 12 ip = v4InV6Prefix /\ drop 12 ip = x)
  else false.

Definition IsLoopback (ip : IP) : bool :=
  match To4 ip with
  | Some (a :: _) => a =? 127
  | Some [] => false
  | None => Equal ip IPv6loopback
  end.

Definition IsUnspecified (ip : IP) : bool := Equal ip IPv4zero || Equal ip IPv6unspecified.

(** ** Address literals *)

(** One field of a dotted quad. *)
Definition parse_octet (f : bytes) : option Z :=
  match f with
  | [] => None
  | c :: rest =>
      if forallb is_digit f then
        if Ascii.eqb c "0" && negb (Nat.eqb (length rest) 0) then None
        else if dec_value f <=? 255 then Some (dec_value f) else None
      else None
  end.

Definition parse_ipv4_fields (s : bytes) : option IP :=
  match split "." s with
  | [a; b; c; d] =>
      match parse_octet a, parse_octet b, parse_octet c, parse_octet d with
      | Some a, Some b, Some c, Some d => Some [a; b; c; d]
      | _, _, _, _ => None
      end
  | _ => None
  end.

Definition hex_val (c : ascii) : option Z :=
  if is_digit c then Some (code c - 48)
  else if (97 <=? code c) && (code c <=? 102) then Some (code c - 87)
  else if (65 <=? code c) && (code c <=? 70) then Some (code c - 55)
  else None.

Definition is_hex (c : ascii) : bool := bool_decide (is_Some (hex_val c)).
Definition hex_value (ds : bytes) : Z :=
  foldl (fun acc c => acc * 16 + default 0 (hex_val c)) 0 ds.

(** The loop of [parseIPv6]: [out] holds the bytes written so far, [ell] the
    position of the ellipsis.  Each turn writes two or four bytes, so eight
    turns fill the address. *)
Fixpoint ipv6_groups (fuel : nat) (s : bytes) (out : IP) (ell : option nat)
    : option (bytes * IP * option nat) :=
  match fuel with
  | O => Some (s, out, ell)
  | S fuel' =>
      if Nat.ltb (length out) 16 then
        let '(ds, rest) := span is_hex s in
        if Nat.ltb 4 (length ds) then None
        else if Nat.eqb (length ds) 0 then None
        else
          match rest with
          | [] => Some ([], out ++ [hex_value ds / 256; hex_value ds mod 256], ell)
          | c :: rest1 =>
              if Ascii.eqb c "." then
                if bool_decide (ell = None) && negb (Nat.eqb (length out) 12) then None
                else if Nat.ltb 16 (length out + 4) then None
                else
                  match parse_ipv4_fields s with
                  | Some q => Some ([], out ++ q, ell)
                  | None => None
                  end
              else
                let out := out ++ [hex_value ds / 256; hex_value ds mod 256] in
                if negb (Ascii.eqb c ":") then None
                else
                  match rest1 with
                  | [] => None
                  | c2 :: rest2 =>
                      if Ascii.eqb c2 ":" then
                        match ell with
                        | Some _ => None
                        | None =>
                            match rest2 with
                            | [] => Some ([], out, Some (length out))
                            | _ => ipv6_groups fuel' rest2 out (Some (length out))
                            end
                        end
                      else ipv6_groups fuel' rest1 out ell
                  end
          end
      else Some (s, out, ell)
  end.

Definition expand (out : IP) (ell : option nat) : option IP :=
  if Nat.ltb (length out) 16 then
    match ell with
    | None => None
    | Some e => Some (take e out ++ replicate (16 - length out) 0 ++ drop e out)
    end
  else match ell with None => Some out | Some _ => None end.

(** [parseIPv6] on a string without a zone ([net.ParseIP] refuses zones). *)
Definition parse_ipv6 (s : bytes) : option IP :=
  let '(ell, s) := match s with
                   | c1 :: c2 :: s' =>
                       if Ascii.eqb c1 ":" && Ascii.eqb c2 ":" then (Some 0%nat, s') else (None, s)
                   | _ => (None, s)
                   end in
  if bool_decide (ell = Some 0%nat) && Nat.eqb (length s) 0 then Some IPv6unspecified
  else
    match ipv6_groups 8 s [] ell with
    | Some ([], out, ell) => expand out ell
    | _ => None
    end.

(** [net.ParseIP]: the first of [.], [:] and [%] decides the family. *)
Definition ParseIP (s : bytes) : option IP :=
  match List.find (fun c => Ascii.eqb c "." || Ascii.eqb c ":" || Ascii.eqb c "%") s with
  | Some c =>
      if Ascii.eqb c "." then (fun q => v4InV6Prefix ++ q) <$> parse_ipv4_fields s
      else if Ascii.eqb c ":" then
        (if bool_decide (is_Some (index_byte "%" s)) then None else parse_ipv6 s)
      else None
  | None => None
  end.

(** ** net.SplitHostPort *)

Definition SplitHostPort (hp : bytes) : option (bytes * bytes) :=
  match last_index_byte ":" hp with
  | None => None
  | Some i =>
      let finish host j k :=
        if bool_decide (is_Some (index_byte "[" (drop j hp))) then None
        else if bool_decide (is_Some (index_byte "]" (drop k hp))) then None
        else Some (host, drop (S i) hp) in
      if bool_decide (head hp = Some "["%char) then
        match index_byte "]" hp with
        | None => None
        | Some e =>
            if Nat.eqb (S e) (length hp) then None
            else if Nat.eqb (S e) i then finish (take (e - 1) (drop 1 hp)) 1%nat (S e)
            else None
        end
      else
        let host := take i hp in
        if bool_decide (is_Some (index_byte ":" host)) then None
        else finish host 0%nat 0%nat
  end.

(** ** Lemmas *)

Lemma To4_IPv4 a b c d : To4 (IPv4 a b c d) = Some [a; b; c; d].
Proof. reflexivity. Qed.

Lemma IsLoopback_IPv4 a b c d : IsLoopback (IPv4 a b c d) = (a =? 127).
Proof. unfold IsLoopback. by rewrite To4_IPv4. Qed.

(** A loopback address is 127.0.0.0/8, in either form, or ::1. *)
Lemma IsLoopback_spec ip :
  IsLoopback ip = true <->
  (exists q, To4 ip = Some q /\ head q = Some 127) \/ ip = IPv6loopback.
Proof.
  unfold IsLoopback. destruct (To4 ip) as [q|] eqn:E.
  - destruct q as [|a q]; split.
    + done.
    + intros [(q & [= <-] & Hq) | ->]; [done|]. by vm_compute in E.
    + intros H%Z.eqb_eq. left. exists (a :: q). simpl. by subst.
    + intros [(q' & [= <-] & Hq) | ->]; [|by vm_compute in E]. simpl in Hq. injection Hq as ->. done.
  - unfold Equal. split.
    + case_decide; [intros H'%bool_decide_eq_true; by right|].
      repeat case_decide; try done; intros Hb%bool_decide_eq_true; exfalso.
      destruct_and!; simplify_eq.
    + intros [(q & ? & _) | ->]; [done|]. reflexivity.
Qed.

Lemma parse_octet_range f n : parse_octet f = Some n -> 0 <= n <= 255.
Proof.
  destruct f as [|c f]; [done|]. unfold parse_octet.
  destruct (forallb is_digit (c :: f)) eqn:Hd; [|done].
  case_match; [done|]. zbool; [|done]. intros [= <-]. split; [|done].
  apply dec_value_nonneg, Forall_forall. intros x Hx%list_elem_of_In.
  by apply (proj1 (forallb_forall _ _) Hd).
Qed.

Lemma split_no_sep c s : Forall (fun d => d <> c) s -> split c s = [s].
Proof.
  induction 1 as [|d s Hd _ IH]; [done|]. simpl.
  destruct (Ascii.eqb_spec c d); [by subst|]. by rewrite IH.
Qed.

Lemma split_app c s r :
  Forall (fun d => d <> c) s -> split c (s ++ c :: r) = s :: split c r.
Proof.
  induction 1 as [|d s Hd _ IH]; simpl; [by rewrite Ascii.eqb_refl|].
  destruct (Ascii.eqb_spec c d); [by subst|]. by rewrite IH.
Qed.

(** ** The text forms of IPv6 addresses *)

Definition colons : bytes := [":"; ":"]%char.

(** A group: one to four hexadecimal digits. *)
Definition v6_group (g : bytes) : Prop := (1 <= length g <= 4)%nat /\ Forall (fun c => is_hex c = true) g.

Definition group_bytes (g : bytes) : IP := [hex_value g / 256; hex_value g mod 256].

(** Groups with a colon between them, the last of which may be a dotted quad
    when [q] holds. *)
Inductive v6_run (q : bool) : bytes -> IP -> Prop :=
| run_group g : v6_group g -> v6_run q g (group_bytes g)
| run_quad f s a b c d :
    q = true -> (length f <= 3)%nat -> Forall (fun x => is_digit x = true) f -> f <> [] ->
    parse_ipv4_fields (f ++ "."%char :: s) = Some [a; b; c; d] -> Forall (fun x => is_digit x = true \/ x = "."%char) s ->
    v6_run q (f ++ "."%char :: s) [a; b; c; d]
| run_cons g s bs : v6_group g -> v6_run q s bs -> v6_run q (g ++ ":"%char :: s) (group_bytes g ++ bs).

(** Sixteen bytes written out, or fewer around one ellipsis. *)
Inductive v6_text : bytes -> IP -> Prop :=
| v6_full s bs : v6_run true s bs -> length bs = 16%nat -> v6_text s bs
| v6_mid s1 b1 s2 b2 :
    v6_run false s1 b1 -> v6_run true s2 b2 -> (length b1 + length b2 <= 14)%nat ->
    v6_text (s1 ++ colons ++ s2) (b1 ++ replicate (16 - length b1 - length b2) 0 ++ b2)
| v6_left s bs :
    v6_run true s bs -> (length bs <= 14)%nat -> v6_text (colons ++ s) (replicate (16 - length bs) 0 ++ bs)
| v6_right s bs :
    v6_run false s bs -> (length bs <= 14)%nat -> v6_text (s ++ colons) (bs ++ replicate (16 - length bs) 0)
| v6_none : v6_text colons (replicate 16 0).

Lemma digit_hex c : is_digit c = true -> is_hex c = true.
Proof. intros H. unfold is_hex, hex_val. rewrite H. apply bool_decide_eq_true. eauto. Qed.

Lemma hex_other c : is_hex c = true ->
  c <> ":"%char /\ c <> "."%char /\ c <> "%"%char /\ c <> "["%char /\ c <> "]"%char.
Proof. intros H. split_and!; by intros ->. Qed.

Lemma run_chars q s bs : v6_run q s bs -> Forall (fun c => is_hex c = true \/ c = ":"%char \/ c = "."%char) s.
Proof.
  assert (Hg : forall g, v6_group g -> Forall (fun c => is_hex c = true \/ c = ":"%char \/ c = "."%char) g).
  { intros g [_ Hg]. eapply Forall_impl; [exact Hg|]. simpl. auto. }
  induction 1 as [g H|f s a b c d _ _ Hf _ _ Hs|g s bs H Hr IH]; [by apply Hg| |].
  - apply Forall_app. split; [eapply Forall_impl; [exact Hf|]; simpl; intros; left; by apply digit_hex|].
    constructor; [auto|]. eapply Forall_impl; [exact Hs|]. simpl. intros x [Hx|Hx]; [left; by apply digit_hex|auto].
  - apply Forall_app. split; [by apply Hg|]. constructor; [auto|done].
Qed.

(** A run begins with a hexadecimal digit. *)
Lemma run_head q s bs : v6_run q s bs -> exists c s', s = c :: s' /\ is_hex c = true.
Proof.
  assert (Hg : forall g, v6_group g -> exists c g', g = c :: g' /\ is_hex c = true).
  { intros [|c g] [Hl Hg]; simpl in Hl; [lia|]. inversion Hg; subst. eauto. }
  intros [g H|f s0 a b c d _ _ Hf Hne _ _|g s0 bs0 H _]; [by apply Hg| |].
  - destruct f as [|x f]; [done|]. inversion Hf; subst. exists x. eexists. split; [done|by apply digit_hex].
  - destruct (Hg g H) as (c & g' & -> & Hc). exists c. eexists. by split.
Qed.

Lemma group_span g rest :
  v6_group g -> (rest = [] \/ exists c r, rest = c :: r /\ is_hex c = false) -> span is_hex (g ++ rest) = (g, rest).
Proof. intros [_ Hg] Hr. by apply span_app. Qed.

(** One turn of the loop on a group that a colon follows. *)
Lemma groups_turn fuel g rest out ell :
  v6_group g -> (length out < 16)%nat -> rest <> [] ->
  ipv6_groups (S fuel) (g ++ ":"%char :: rest) out ell =
  match rest with
  | [] => None
  | c2 :: rest2 =>
      if Ascii.eqb c2 ":" then
        match ell with
        | Some _ => None
        | None =>
            match rest2 with
            | [] => Some ([], out ++ group_bytes g, Some (length (out ++ group_bytes g)))
            | _ => ipv6_groups fuel rest2 (out ++ group_bytes g) (Some (length (out ++ group_bytes g)))
            end
        end
      else ipv6_groups fuel rest (out ++ group_bytes g) ell
  end.
Proof.
  intros Hg Ho Hr. cbn [ipv6_groups]. rewrite (proj2 (Nat.ltb_lt _ _) Ho).
  rewrite group_span by (done || right; by eexists _, _). destruct Hg as [Hl _].
  rewrite (proj2 (Nat.ltb_ge _ _)), (proj2 (Nat.eqb_neq _ _)) by lia.
  change (Ascii.eqb ":" ".") with false. change (Ascii.eqb ":" ":") with true. cbn [negb].
  by destruct rest as [|c2 [|c3 rest2]].
Qed.

Lemma groups_run q s bs : v6_run q s bs -> forall fuel out ell,
  (length out + length bs <= 16)%nat -> (length bs <= 2 * fuel)%nat -> (ell = None -> length out + length bs = 16)%nat ->
  ipv6_groups fuel s out ell = Some ([], out ++ bs, ell).
Proof.
  induction 1 as [g Hg|f s a b c d _ Hl Hf Hne Hp Hs|g s bs Hg Hr IH]; intros fuel out ell Ho Hfu He;
    rewrite ?length_app in *; cbn [length group_bytes] in *; (destruct fuel as [|fuel]; [lia|]).
  - cbn [ipv6_groups]. rewrite (proj2 (Nat.ltb_lt _ _)) by lia.
    pose proof (group_span g [] Hg (or_introl eq_refl)) as Hsp. rewrite app_nil_r in Hsp. rewrite Hsp.
    destruct Hg as [Hl _]. by rewrite (proj2 (Nat.ltb_ge _ _)), (proj2 (Nat.eqb_neq _ _)) by lia.
  - cbn [ipv6_groups]. rewrite (proj2 (Nat.ltb_lt _ _)) by lia.
    assert (Hfl : (0 < length f)%nat) by (destruct f; [done|simpl; lia]).
    rewrite span_app; [|eapply Forall_impl; [exact Hf|]; apply digit_hex|right; by eexists _, _].
    rewrite (proj2 (Nat.ltb_ge _ _)), (proj2 (Nat.eqb_neq _ _)) by lia. change (Ascii.eqb "." ".") with true. cbv iota.
    assert (Hc : bool_decide (ell = None) && negb (length out =? 12)%nat = false).
    { destruct ell; [done|]. specialize (He eq_refl). by rewrite (proj2 (Nat.eqb_eq _ _)) by lia. }
    rewrite Hc, (proj2 (Nat.ltb_ge _ _)), Hp by lia. done.
  - destruct (run_head _ _ _ Hr) as (c & s' & -> & Hc). rewrite groups_turn by (done || lia).
    apply hex_other in Hc as (Hc & _). rewrite (proj2 (Ascii.eqb_neq _ _) Hc).
    rewrite IH, <- app_assoc; [done|..]; rewrite ?length_app; cbn [length group_bytes]; [lia|lia|intros E; specialize (He E); lia].
Qed.

(** The loop up to the ellipsis. *)
Lemma groups_then s bs : v6_run false s bs -> forall fuel out rest,
  (length out + length bs <= 14)%nat ->
  ipv6_groups (length bs / 2 + fuel) (s ++ colons ++ rest) out None =
  match rest with
  | [] => Some ([], out ++ bs, Some (length (out ++ bs)))
  | _ => ipv6_groups fuel rest (out ++ bs) (Some (length (out ++ bs)))
  end.
Proof.
  induction 1 as [g Hg|f s a b c d Hq|g s bs Hg Hr IH]; intros fuel out rest Ho; [|done|].
  - change (length (group_bytes g) / 2 + fuel)%nat with (S fuel). cbn [length group_bytes] in Ho.
    change (colons ++ rest) with (":"%char :: ":"%char :: rest). rewrite groups_turn by (done || lia).
    change (Ascii.eqb ":" ":") with true. by destruct rest.
  - rewrite length_app in Ho. cbn [length group_bytes] in Ho.
    replace (length (group_bytes g ++ bs) / 2 + fuel)%nat with (S (length bs / 2 + fuel)).
    2: { rewrite length_app. cbn [length group_bytes]. replace (2 + length bs)%nat with (length bs + 1 * 2)%nat by lia.
         rewrite Nat.div_add by lia. lia. }
    rewrite <- app_assoc. cbn [app]. destruct (run_head _ _ _ Hr) as (c & s' & -> & Hc). cbn [app].
    rewrite groups_turn by (done || lia). apply hex_other in Hc as (Hc & _). rewrite (proj2 (Ascii.eqb_neq _ _) Hc).
    rewrite app_comm_cons, IH by (rewrite length_app; cbn [length group_bytes]; lia). by rewrite <- !app_assoc.
Qed.

Lemma run_even s bs : v6_run false s bs -> (2 * (length bs / 2) = length bs /\ 2 <= length bs)%nat.
Proof.
  induction 1 as [g Hg|f s a b c d Hq|g s bs Hg Hr IH]; [done|done|]. rewrite length_app. cbn [length group_bytes].
  replace (2 + length bs)%nat with (length bs + 1 * 2)%nat by lia. rewrite Nat.div_add by lia. lia.
Qed.

(** [parse_ipv6] on text that does not begin with an ellipsis. *)
Lemma parse_ipv6_run s c s' : s = c :: s' -> is_hex c = true ->
  parse_ipv6 s = match ipv6_groups 8 s [] None with Some ([], out, ell) => expand out ell | _ => None end.
Proof.
  intros -> Hc. unfold parse_ipv6. apply hex_other in Hc as (Hc & _). destruct s' as [|c2 s']; [done|].
  by rewrite (proj2 (Ascii.eqb_neq _ _) Hc).
Qed.

Lemma parse_ipv6_text s ip : v6_text s ip -> parse_ipv6 s = Some ip.
Proof.
  intros H. destruct H as [s bs Hr Hl|s1 b1 s2 b2 H1 H2 Hl|s bs Hr Hl|s bs Hr Hl|]; [| | | |done].
  - destruct (run_head _ _ _ Hr) as (c & s' & Hs & Hc). rewrite (parse_ipv6_run s c s' Hs Hc).
    rewrite (groups_run _ _ _ Hr) by (simpl; lia). unfold expand. simpl. by rewrite Hl.
  - destruct (run_head _ _ _ H1) as (c & s' & Hs & Hc).
    rewrite (parse_ipv6_run (s1 ++ colons ++ s2) c (s' ++ colons ++ s2)) by (by rewrite ?Hs).
    destruct (run_even _ _ H1) as [Hev Hge].
    pose proof (groups_then _ _ H1 (8 - length b1 / 2) [] s2 ltac:(simpl; lia)) as E.
    replace (length b1 / 2 + (8 - length b1 / 2))%nat with 8%nat in E by lia. rewrite E. clear E.
    destruct (run_head _ _ _ H2) as (c2 & s2' & Hs2 & _). rewrite Hs2 at 1. cbn [app].
    rewrite (groups_run _ _ _ H2) by (done || lia). unfold expand. rewrite length_app, (proj2 (Nat.ltb_lt _ _)) by lia.
    by rewrite take_app_length, drop_app_length, Nat.sub_add_distr.
  - unfold parse_ipv6. change (colons ++ s) with (":"%char :: ":"%char :: s). cbv iota beta. rewrite !Ascii.eqb_refl. cbn [andb].
    destruct (run_head _ _ _ Hr) as (c & s' & -> & _). cbn [length Nat.eqb]. rewrite andb_false_r.
    rewrite (groups_run _ _ _ Hr) by (done || simpl; lia). unfold expand. cbn [app].
    by rewrite (proj2 (Nat.ltb_lt _ _)) by lia.
  - destruct (run_head _ _ _ Hr) as (c & s' & Hs & Hc).
    rewrite (parse_ipv6_run (s ++ colons) c (s' ++ colons)) by (by rewrite ?Hs).
    destruct (run_even _ _ Hr) as [Hev Hge].
    pose proof (groups_then _ _ Hr (8 - length bs / 2) [] [] ltac:(simpl; lia)) as E.
    replace (length bs / 2 + (8 - length bs / 2))%nat with 8%nat in E by lia. rewrite app_nil_r in E. rewrite E. cbn [app]. unfold expand.
    by rewrite (proj2 (Nat.ltb_lt _ _)), firstn_all, skipn_all, app_nil_r by lia.
Qed.

Lemma v6_chars s ip : v6_text s ip -> Forall (fun c => is_hex c = true \/ c = ":"%char \/ c = "."%char) s.
Proof.
  assert (Hc : Forall (fun c => is_hex c = true \/ c = ":"%char \/ c = "."%char) colons) by (repeat constructor; auto).
  destruct 1; rewrite ?Forall_app; eauto 6 using run_chars.
Qed.

(** The first separator of such a text is a colon. *)
Lemma v6_find s ip : v6_text s ip ->
  List.find (fun c => Ascii.eqb c "." || Ascii.eqb c ":" || Ascii.eqb c "%") s = Some ":"%char.
Proof.
  set (f := fun c => _).
  assert (Hg : forall g rest, v6_group g -> List.find f (g ++ ":"%char :: rest) = Some ":"%char).
  { intros g rest [_ Hg]. induction Hg as [|c g Hc _ IH]; [done|]. simpl.
    apply hex_other in Hc as (H1 & H2 & H3 & _).
    unfold f at 1. by rewrite !(proj2 (Ascii.eqb_neq _ _)) by done. }
  assert (Hr : forall s bs, v6_run false s bs -> forall rest, List.find f (s ++ ":"%char :: rest) = Some ":"%char).
  { intros s0 bs H rest. inversion H; subst; [by apply Hg|done|]. rewrite <- app_assoc. by apply Hg. }
  destruct 1 as [s bs H Hl|s1 b1 s2 b2 H1 H2 Hl|s bs H Hl|s bs H Hl|]; try done; try by eapply Hr.
  inversion H; subst; [done|done|by apply Hg].
Qed.

(** Every text form of an IPv6 address is read as that address. *)
Lemma ParseIP_v6 s ip : v6_text s ip -> ParseIP s = Some ip.
Proof.
  intros H. unfold ParseIP. rewrite (v6_find s ip H). change (Ascii.eqb ":" ".") with false. change (Ascii.eqb ":" ":") with true.
  cbv iota. rewrite bool_decide_eq_false_2; [by apply parse_ipv6_text|].
  unfold index_byte. rewrite fmap_is_Some. intros [[i c] (Hi & -> & _)%list_find_Some].
  pose proof (v6_chars s ip H) as Hc. eapply Forall_lookup_1 in Hc; [|exact Hi]. by destruct Hc as [Hc|[Hc|Hc]].
Qed.

(** ** Examples checked against the documented behaviour *)

Example parse_v4 : ParseIP (to_bytes "127.0.0.1") = Some (IPv4 127 0 0 1).
Proof. vm_compute. reflexivity. Qed.
Example parse_v4_zero : ParseIP (to_bytes "127.0.0.01") = None.
Proof. vm_compute. reflexivity. Qed.
Example parse_v6_loop : ParseIP (to_bytes "::1") = Some IPv6loopback.
Proof. vm_compute. reflexivity. Qed.
Example parse_v6_mapped : ParseIP (to_bytes "::ffff:127.0.0.1") = Some (IPv4 127 0 0 1).
Proof. vm_compute. reflexivity. Qed.
Example parse_v6_full : ParseIP (to_bytes "2001:db8:0:0:0:0:2:1") = ParseIP (to_bytes "2001:DB8::2:1").
Proof. vm_compute. reflexivity. Qed.
Example parse_v6_two_ellipses : ParseIP (to_bytes "1::2::3") = None.
Proof. vm_compute. reflexivity. Qed.
Example parse_v6_zone : ParseIP (to_bytes "fe80::1%eth0") = None.
Proof. vm_compute. reflexivity. Qed.
Lemma v6_digit (c : ascii) : is_hex c = true -> v6_group [c].
Proof. intros H. split; [simpl; lia|by constructor]. Qed.

Example split_v6 : SplitHostPort (to_bytes "[::1]:80") = Some (to_bytes "::1", to_bytes "80").
Proof. vm_compute. reflexivity. Qed.
Example split_bare : SplitHostPort (to_bytes ":443") = Some ([], to_bytes "443").
Proof. vm_compute. reflexivity. Qed.
Example split_colons : SplitHostPort (to_bytes "::1:80") = None.
Proof. vm_compute. reflexivity. Qed.

End Net.
