(* ===== verification/JsonLines.v ===== *)
(** * Writing JSON

    What [encoding/json] writes for the strings, integers and [omitempty] members
    of a struct of such fields, and logs with one object per line: the text of a
    tree holds no control character, so the lines of a log are its objects. *)

From Stdlib Require Import ZArith Lia Ascii String.
From stdpp Require Import base option list strings.
From S2P Require Import Prelude GoStrings Utf8 Strconv Json JsonSpec JsonMap Net Trim.

Module JsonLines.
Import GoStrings Json JsonSpec JsonMap.

(** An integer as [json.Marshal] writes it. *)
Definition int_num (z : Z) : number :=
  {| n_neg := z <? 0; n_int := if z =? 0 then ["0"%char] else Strconv.dec_digits (Z.abs z); n_frac := None; n_exp := None |}.

Definition JText (s : string) : json := JStr (escape (to_bytes s)).
Definition JInt (z : Z) : json := JNum (int_num z).

(** The [omitempty] members. *)
Definition opt_text (name s : string) : list (bytes * json) := if s =s "" then [] else [(to_bytes name, JText s)].
Definition opt_int (name : string) (z : Z) : list (bytes * json) := if z =? 0 then [] else [(to_bytes name, JInt z)].

(** ** Lemmas *)

Definition visible (s : bytes) : Prop := Forall (fun c => 32 <= code c) s.

Lemma digits_visible ds : Strconv.digits ds -> visible ds.
Proof. intros H. eapply Forall_impl; [exact H|]. intros c Hc. unfold is_digit in Hc. apply andb_true_iff in Hc as [Hc%Z.leb_le _]. lia. Qed.

Lemma lit_visible raw : lit raw -> visible raw.
Proof.
  assert (Hesc : forall c, is_Some (simple_escape c) -> 32 <= code c).
  { intros c. unfold simple_escape.
    repeat (match goal with |- context [Ascii.eqb c ?d] => destruct (Ascii.eqb_spec c d) as [->|_]; [intros _; vm_compute; discriminate|] end).
    by intros []. }
  assert (Hhex : forall c, is_hex c = true -> 32 <= code c).
  { intros c. unfold is_hex, is_digit. rewrite !orb_true_iff, !andb_true_iff, !Z.leb_le. lia. }
  induction 1 as [|e t He _ IH|h1 h2 h3 h4 t Hh _ IH|c t _ _ Hc _ IH]; [constructor| | |by constructor].
  - repeat constructor; [vm_compute; discriminate|by apply Hesc|done].
  - cbn in Hh. rewrite !andb_true_iff in Hh. destruct Hh as (H1 & H2 & H3 & H4 & _).
    repeat constructor; try (by apply Hhex); try done; vm_compute; discriminate.
Qed.

Lemma num_visible n : num_ok n -> visible (num_text n).
Proof.
  intros [Hi Hf He]. unfold num_text, visible. rewrite !Forall_app. split_and!.
  - destruct (n_neg n); [|constructor]. constructor; [vm_compute; discriminate|constructor].
  - destruct Hi as [->|(c & ds & -> & _ & Hd)]; [|exact (digits_visible _ Hd)]. constructor; [vm_compute; discriminate|constructor].
  - destruct (n_frac n) as [ds|]; [|constructor]. destruct Hf as [_ Hd]. constructor; [vm_compute; discriminate|exact (digits_visible _ Hd)].
  - destruct (n_exp n) as [[[e sg] ds]|]; [|constructor]. destruct He as (He & Hs & _ & Hd). constructor.
    + unfold is_e in He. apply orb_true_iff in He as [->%Ascii.eqb_eq| ->%Ascii.eqb_eq]; vm_compute; discriminate.
    + apply Forall_app. split; [|exact (digits_visible _ Hd)]. destruct sg as [c|]; [|constructor]. constructor; [|constructor].
      unfold is_sign in Hs. apply orb_true_iff in Hs as [->%Ascii.eqb_eq| ->%Ascii.eqb_eq]; vm_compute; discriminate.
Qed.

Lemma quoted_visible raw : str_ok raw -> visible (quoted raw).
Proof.
  intros Hr%str_ok_lit_iff. unfold quoted, visible. constructor; [vm_compute; discriminate|]. apply Forall_app. split; [by apply lit_visible|].
  constructor; [vm_compute; discriminate|constructor].
Qed.

Lemma join_visible l : Forall visible l -> visible (join l).
Proof.
  intros H. induction H as [|x l Hx Hl IH]; [constructor|]. rewrite join_cons. apply Forall_app. split; [done|].
  destruct l; [constructor|]. constructor; [vm_compute; discriminate|done].
Qed.

(** The printed text of a tree holds no control character, so no line break. *)
Lemma print_visible v : lexed v -> visible (print v).
Proof.
  induction v as [|b|n|r|l IH|l IH] using json_tree_ind; intros Hl; cbn [print].
  - repeat constructor; vm_compute; discriminate.
  - destruct b; repeat constructor; vm_compute; discriminate.
  - by apply num_visible.
  - by apply quoted_visible.
  - cbn [lexed] in Hl. rewrite Forall_foldr_and in Hl. constructor; [vm_compute; discriminate|]. apply Forall_app. split.
    + apply join_visible, Forall_map. rewrite Forall_forall in *. auto.
    + constructor; [vm_compute; discriminate|constructor].
  - cbn [lexed] in Hl. rewrite Forall_foldr_and in Hl. constructor; [vm_compute; discriminate|]. apply Forall_app. split.
    + apply join_visible, Forall_map. rewrite Forall_forall in *. intros kv Hkv. destruct (Hl kv Hkv) as [H1 H2].
      apply Forall_app. split; [by apply quoted_visible|]. constructor; [vm_compute; discriminate|by apply IH].
    + constructor; [vm_compute; discriminate|constructor].
Qed.

Lemma int_num_ok z : num_ok (int_num z).
Proof.
  split; cbn; try done. destruct (Z.eqb_spec z 0) as [->|Hz]; [by left|]. right. apply Strconv.dec_digits_spec. lia.
Qed.

Lemma int_num_text z : num_text (int_num z) = Strconv.Itoa z.
Proof. unfold num_text, int_num. cbn. destruct z; cbn; by rewrite ?app_nil_r. Qed.

Lemma text_ok s : lexed (JText s).
Proof. cbn. apply lit_str_ok, lit_escape. Qed.

Lemma key_ok (name : string) : forallb (fun c => bool_decide (c <> dquote /\ c <> bslash) && (32 <=? code c)) (to_bytes name) = true -> str_ok (to_bytes name).
Proof.
  intros H. apply lit_str_ok. induction (to_bytes name) as [|c s IH]; [constructor|]. cbn in H. rewrite !andb_true_iff, bool_decide_eq_true in H.
  destruct H as (((H1 & H2) & H3%Z.leb_le) & H4). constructor; auto.
Qed.

Definition member_ok (kv : bytes * json) : Prop := str_ok kv.1 /\ lexed kv.2 /\ depth kv.2 = 0.

Lemma opt_text_ok name s : str_ok (to_bytes name) -> Forall member_ok (opt_text name s).
Proof. intros H. unfold opt_text. destruct (s =s ""); constructor; [|constructor]. split_and!; [done|apply text_ok|done]. Qed.

Lemma opt_int_ok name z : str_ok (to_bytes name) -> Forall member_ok (opt_int name z).
Proof. intros H. unfold opt_int. destruct (z =? 0); constructor; [|constructor]. split_and!; [done|apply int_num_ok|done]. Qed.

Lemma flat_object_wf ms : Forall member_ok ms -> wf (JObj ms).
Proof.
  intros Hms. split.
  - cbn [lexed]. apply Forall_foldr_and. eapply Forall_impl; [exact Hms|]. by intros kv (H1 & H2 & _).
  - cbn [depth]. assert (foldr Z.max 0 (List.map (fun kv => depth kv.2) ms) = 0) as ->; [|done].
    induction Hms as [|kv ms (_ & _ & Hd) _ IH]; [done|]. cbn. rewrite Hd, IH. done.
Qed.

(** ** One object per line *)

Definition ndjson (vs : list json) : bytes := concat ((fun v => print v ++ [Trim.LF]) <$> vs).

Lemma ndjson_cons v vs : ndjson (v :: vs) = print v ++ [Trim.LF] ++ ndjson vs.
Proof. unfold ndjson. cbn. by rewrite <- app_assoc. Qed.

Lemma ndjson_app vs ws : ndjson (vs ++ ws) = ndjson vs ++ ndjson ws.
Proof. unfold ndjson. by rewrite fmap_app, concat_app. Qed.

Lemma print_no_LF v : wf v -> Forall (fun d => d <> Trim.LF) (print v).
Proof. intros [Hl _]. eapply Forall_impl; [apply (print_visible _ Hl)|]. intros d Hd ->. vm_compute in Hd. by apply Hd. Qed.

Lemma ndjson_reads_back vs : Forall wf vs ->
  Net.split Trim.LF (ndjson vs) = (print <$> vs) ++ [[]] /\ mapM parse (print <$> vs) = Some vs.
Proof.
  intros H. split.
  - induction H as [|v vs Hv _ IH]; [done|]. rewrite ndjson_cons. cbn [app fmap list_fmap]. rewrite Net.split_app by (by apply print_no_LF). by rewrite IH.
  - apply mapM_Some_2. rewrite Forall2_fmap_l. apply Forall_Forall2_diag. eapply Forall_impl; [exact H|]. intros v Hv. by apply parse_print.
Qed.

End JsonLines.
