(* ===== verification/Socks5.v ===== *)
(** * The SOCKS5 client

    Models [src/internal/proxy/socks5/client.go]: the handshake of [dialSOCKS5]
    (RFC 1928, no authentication), [splitHostPort], the hand-built HTTP request
    of [StreamSSE], the reader of the answer's header block and the reader of its
    server-sent events.

    A socket is the script of its reads, the results of its writes, what it sent,
    whether it is closed and its deadline; the operations run in a state and error
    monad over it.  A channel of chunks is the list of what was put into it. *)

From Stdlib Require Import ZArith Lia Ascii String.
From stdpp Require Import base option list.
From S2P Require Import Prelude GoStrings Utf8 Strconv Stream Net.

Module Socks5.
Import GoStrings Utf8 Strconv Stream Net.

(** ** Sockets *)

Record sock := {
  inp : conn;
  (** The results of the next writes: [None] is success, [Some (n, e)] an error
      after [n] bytes; an exhausted list is success. *)
  writes : list (option (nat * connError));
  outp : bytes;
  closed : bool;
  deadline : option Time;
}.

Inductive dialError :=
  | DialProxy (e : connError)
  | SetDeadlineFailed (e : connError)
  | TargetAddr
  | WriteGreeting (e : connError)
  | ReadGreeting (e : connError)
  | BadGreetingVersion (v : Z)
  | ErrAuthRequired
  | WriteConnect (e : connError)
  | ReadReplyHeader (e : connError)
  | BadReplyVersion (v : Z)
  | ErrServerReply (Code : Z)
  | ReadFqdnLen (e : connError)
  | UnknownATYP (v : Z)
  | ReadReplyTail (e : connError).

Definition M (A : Type) : Type := sock -> (dialError + A) * sock.

Definition mret_ {A} (a : A) : M A := fun s => (inr a, s).
Definition bind {A B} (m : M A) (f : A -> M B) : M B :=
  fun s => match m s with (inl e, s) => (inl e, s) | (inr a, s) => f a s end.

Notation "x ⇐ m ; k" := (bind m (fun x => k)) (at level 100, m at next level, right associativity).

Definition closeSock (s : sock) : sock :=
  {| inp := inp s; writes := writes s; outp := outp s; closed := true; deadline := deadline s |}.

(** [_ = conn.Close(); return nil, err]. *)
Definition fail {A} (e : dialError) : M A := fun s => (inl e, closeSock s).

(** [conn.Write]. *)
Definition sock_write (b : bytes) (s : sock) : option connError * sock :=
  let put n := {| inp := inp s; writes := tail (writes s); outp := outp s ++ take n b; closed := closed s;
                  deadline := deadline s |} in
  match head (writes s) with
  | Some (Some (n, e)) => (Some e, put n)
  | _ => (None, put (length b))
  end.

Definition write_or (err : connError -> dialError) (b : bytes) : M unit :=
  fun s => match sock_write b s with (Some e, s) => fail (err e) s | (None, s) => (inr tt, s) end.

(** [io.ReadFull(conn, make([]byte, n))]. *)
Definition read_or (err : connError -> dialError) (n : nat) : M bytes :=
  fun s =>
    let '(bs, e, c) := ReadFull n (inp s) in
    let s := {| inp := c; writes := writes s; outp := outp s; closed := closed s; deadline := deadline s |} in
    match e with Some e => fail (err e) s | None => (inr bs, s) end.

Definition setDeadline (d : option Time) (s : sock) : sock :=
  {| inp := inp s; writes := writes s; outp := outp s; closed := closed s; deadline := d |}.

(** ** The handshake *)

(** [net.SplitHostPort] with the bare host as fallback, port 443. *)
Definition splitHostPort (addr : bytes) : option (bytes * Z) :=
  let '(host, portStr) := default (addr, to_bytes "443") (SplitHostPort addr) in
  p ← ParseUint10 16 portStr; Some (host, p).

(** The byte at an index. *)
Definition at_ (b : bytes) (i : nat) : Z := code (nth i b (byte 0)).

Definition greeting : bytes := [chr 5; chr 1; chr 0].

(** [byte(x)] keeps the low eight bits. *)
Definition low8 (z : Z) : ascii := chr (Z.land z 255).

Definition connect_request (host : bytes) (port : Z) : bytes :=
  [chr 5; chr 1; chr 0; chr 3; low8 (Z.of_nat (length host))] ++ host ++ [low8 (Z.shiftr port 8); low8 port].

(** The length of the address in the reply. *)
Definition reply_addr_len (atyp : Z) : M nat :=
  if atyp =? 1 then mret_ 4%nat
  else if atyp =? 3 then l ⇐ read_or ReadFqdnLen 1; mret_ (Z.to_nat (at_ l 0))
  else if atyp =? 4 then mret_ 16%nat
  else fail (UnknownATYP atyp).

Definition handshake (target : bytes) : M unit :=
  match splitHostPort target with
  | None => fail TargetAddr
  | Some (host, port) =>
      _ ⇐ write_or WriteGreeting greeting;
      greet ⇐ read_or ReadGreeting 2;
      if negb (at_ greet 0 =? 5) then fail (BadGreetingVersion (at_ greet 0))
      else if (at_ greet 1 =? 255) || negb (at_ greet 1 =? 0) then fail ErrAuthRequired
      else
        _ ⇐ write_or WriteConnect (connect_request host port);
        hdr ⇐ read_or ReadReplyHeader 4;
        if negb (at_ hdr 0 =? 5) then fail (BadReplyVersion (at_ hdr 0))
        else if negb (at_ hdr 1 =? 0) then fail (ErrServerReply (at_ hdr 1))
        else
          addrLen ⇐ reply_addr_len (at_ hdr 3);
          _ ⇐ read_or ReadReplyTail (addrLen + 2);
          fun s => (inr tt, setDeadline None s)
  end.

(** [dialSOCKS5]: [dial] is the result of connecting to the proxy and
    [setDeadlineErr] that of the first [SetDeadline]; the socket is absent only
    when there never was one. *)
Definition dialSOCKS5 (now handshakeTimeout : Z) (dial : connError + sock) (setDeadlineErr : option connError)
    (target : bytes) : (dialError + unit) * option sock :=
  match dial with
  | inl e => (inl (DialProxy e), None)
  | inr s =>
      match setDeadlineErr with
      | Some e => (inl (SetDeadlineFailed e), Some (closeSock s))
      | None =>
          let '(r, s) := handshake target (setDeadline (Some (time_add now handshakeTimeout)) s) in (r, Some s)
      end
  end.

(** ** Server-sent events *)

Fixpoint indexOf_from (needle : bytes) (i : nat) (s : bytes) : option nat :=
  if (length needle <=? length s)%nat then
    if has_prefix needle s then Some i
    else match s with [] => None | _ :: s' => indexOf_from needle (S i) s' end
  else None.

Definition indexOf (haystack needle : bytes) : option nat :=
  match needle with [] => Some 0%nat | _ => indexOf_from needle 0 haystack end.

Definition CR : ascii := chr 13.
Definition LF : ascii := chr 10.
Definition CRLF : bytes := [CR; LF].

Definition trimCR (s : bytes) : bytes :=
  match last s with Some c => if Ascii.eqb c CR then take (length s - 1) s else s | None => s end.

Definition parseDataLine (line : bytes) : option bytes :=
  if bool_decide (line = []) then None
  else if (6 <? length line)%nat && has_prefix (to_bytes "data: ") line then Some (drop 6 line)
  else None.

Definition DONE : bytes := to_bytes "[DONE]".

Record SSEChunk := { Data : bytes; IsDone : bool }.

Definition chunk (payload : bytes) : SSEChunk := {| Data := payload; IsDone := bool_decide (payload = DONE) |}.

(** The inner loop: the chunks of the complete lines in the buffer, whether
    [[DONE]] ended it, and the rest of the buffer. *)
Fixpoint drain_lines (fuel : nat) (bodyBuf : bytes) : list SSEChunk * bool * bytes :=
  match fuel with
  | O => ([], false, bodyBuf)
  | S fuel =>
      match indexOf bodyBuf [LF] with
      | None => ([], false, bodyBuf)
      | Some idx =>
          let line := trimCR (take idx bodyBuf) in
          let bodyBuf := drop (idx + 1) bodyBuf in
          match parseDataLine line with
          | Some payload =>
              if bool_decide (payload = DONE) then ([chunk payload], true, bodyBuf)
              else let '(cs, fin, b) := drain_lines fuel bodyBuf in (chunk payload :: cs, fin, b)
          | None => drain_lines fuel bodyBuf
          end
      end
  end.

Definition readBuf : nat := Z.to_nat 8192.

(** An upper bound on the reads a script allows. *)
Definition reads_left (c : conn) : nat := S (length c + length (data c)).

(** The outer loop. *)
Fixpoint stream_loop (fuel : nat) (bodyBuf : bytes) (c : conn) : list SSEChunk * option connError * conn :=
  match fuel with
  | O => ([], None, c)
  | S fuel =>
      let '(cs, fin, bodyBuf) := drain_lines (S (length bodyBuf)) bodyBuf in
      if fin : bool then (cs, None, c)
      else
        let '(bs, err, c) := Read readBuf c in
        match err with
        | Some EOF => (cs, None, c)
        | Some e => (cs, Some e, c)
        | None => let '(cs', err, c) := stream_loop fuel (bodyBuf ++ bs) c in (cs ++ cs', err, c)
        end
  end.

Definition streamBodyLines (initial : bytes) (c : conn) : list SSEChunk * option connError * conn :=
  stream_loop (reads_left c) initial c.

(** ** The HTTP exchange *)

Inductive headerError := ReadHeaders (e : connError) | HeadersTooLarge.

Fixpoint headers_loop (fuel : nat) (headerBuf : bytes) (c : conn) : (headerError + bytes) * conn :=
  match fuel with
  | O => (inl HeadersTooLarge, c)
  | S fuel =>
      let '(bs, err, c) := Read readBuf c in
      let headerBuf := headerBuf ++ bs in
      match err with
      | Some e => (inl (ReadHeaders e), c)
      | None =>
          match indexOf headerBuf (CRLF ++ CRLF) with
          | Some idx => (inr (drop (idx + 4) headerBuf), c)
          | None => if 16384 <? Z.of_nat (length headerBuf) then (inl HeadersTooLarge, c) else headers_loop fuel headerBuf c
          end
      end
  end.

Definition readHTTPHeaders (c : conn) : (headerError + bytes) * conn := headers_loop (reads_left c) [] c.

Definition buildHTTPRequest (target method path authHeader body : bytes) : bytes :=
  let host := match splitHostPort target with Some (host, _) => host | None => [] end in
  method ++ to_bytes " " ++ path ++ to_bytes " " ++ to_bytes "HTTP/1.1" ++ CRLF ++
  to_bytes "Host: " ++ host ++ CRLF ++
  to_bytes "Authorization: " ++ authHeader ++ CRLF ++
  to_bytes "Content-Type: application/json" ++ CRLF ++
  to_bytes "Accept: text/event-stream" ++ CRLF ++
  to_bytes "Connection: close" ++ CRLF ++
  to_bytes "Content-Length: " ++ Itoa (Z.of_nat (length body)) ++ CRLF ++ CRLF ++ body.

Inductive streamError :=
  | SDial (e : dialError) | SWrite (e : connError) | SHeaders (e : headerError) | SBody (e : connError).

(** [StreamSSE]: what was put into the two channels, and the socket, closed by
    the deferred call. *)
Definition StreamSSE (now : Z) (dial : connError + sock) (setDeadlineErr : option connError)
    (target httpMethod httpPath authHeaderValue streamBody : bytes)
  : list SSEChunk * option streamError * option sock :=
  match dialSOCKS5 now (15 * Second) dial setDeadlineErr target with
  | (inl e, s) => ([], Some (SDial e), s)
  | (inr _, None) => ([], None, None)
  | (inr _, Some s) =>
      match sock_write (buildHTTPRequest target httpMethod httpPath authHeaderValue streamBody) s with
      | (Some e, s) => ([], Some (SWrite e), Some (closeSock s))
      | (None, s) =>
          let with_inp c := closeSock {| inp := c; writes := writes s; outp := outp s; closed := closed s;
                                         deadline := deadline s |} in
          match readHTTPHeaders (inp s) with
          | (inl e, c) => ([], Some (SHeaders e), Some (with_inp c))
          | (inr bodyBuf, c) =>
              let '(cs, err, c) := streamBodyLines bodyBuf c in (cs, SBody <$> err, Some (with_inp c))
          end
      end
  end.

End Socks5.
