(* ===== verification/Socks5Spec.v ===== *)
(** * What the SOCKS5 client promises

    The handshake takes exactly the proxy's two replies off the stream and names
    the target so that a server reads the same name; the events handed out are
    those of the answer's body, however the network cuts it up. *)

From Stdlib Require Import ZArith Lia Ascii String.
From stdpp Require Import base option list.
From S2P Require Import Prelude GoStrings Utf8 Strconv Stream Net Socks5.

Module Socks5Spec.
Import GoStrings Utf8 Strconv Stream Net Socks5.

(** ** Searching *)

Lemma index_intro sep s n :
  (n <= length s)%nat -> has_prefix sep (drop n s) = true ->
  (forall m, (m < n)%nat -> has_prefix sep (drop m s) = false) -> index sep s = Some n.
Proof.
  revert n; induction s as [|c s IH]; intros n Hn Hp Hno.
  - simpl in Hn. assert (n = 0%nat) as -> by lia. simpl in *. by rewrite Hp.
  - destruct n as [|n]; simpl in Hp |- *; [by rewrite Hp|].
    pose proof (Hno 0%nat ltac:(lia)) as H0. simpl in H0. rewrite H0, (IH n); [done|simpl in Hn; lia|done|].
    intros m Hm. apply (Hno (S m)). lia.
Qed.

Lemma has_prefix_app_long sep s t : (length sep <= length s)%nat -> has_prefix sep (s ++ t) = has_prefix sep s.
Proof.
  revert s; induction sep as [|c sep IH]; intros [|d s] H; simpl in *; [done|done|lia|]. rewrite IH by lia. done.
Qed.

Lemma has_prefix_length sep s : has_prefix sep s = true -> (length sep <= length s)%nat.
Proof. intros [r ->]%has_prefix_spec. rewrite length_app. lia. Qed.

(** A match is found at the same place once more bytes have come. *)
Lemma index_app sep s t n : index sep s = Some n -> index sep (s ++ t) = Some n.
Proof.
  intros H. pose proof H as H'. apply index_Some in H' as (post & Hs & Hn & Hno).
  assert (Hd : has_prefix sep (drop n s) = true).
  { apply has_prefix_spec. exists post. rewrite Hs at 1. rewrite drop_app_length'; [done|]. rewrite length_take. lia. }
  pose proof (has_prefix_length _ _ Hd) as Hlen. rewrite length_drop in Hlen.
  apply index_intro.
  - rewrite length_app. lia.
  - rewrite drop_app_le by lia. rewrite has_prefix_app_long; [done|]. rewrite length_drop. lia.
  - intros m Hm. rewrite drop_app_le by lia. rewrite has_prefix_app_long; [by apply Hno|]. rewrite length_drop. lia.
Qed.

(** Without a match yet, the buffer ends before the match does. *)
Lemma index_app_late sep s t n :
  index sep (s ++ t) = Some n -> index sep s = None -> (length s < n + length sep)%nat.
Proof.
  intros H Hs. destruct (Nat.lt_ge_cases (length s) (n + length sep)) as [|Hge]; [done|].
  apply index_Some in H as (post & He & _ & _).
  pose proof (index_None sep s n Hs) as Hno. rewrite <- (has_prefix_app_long sep (drop n s) t) in Hno
    by (rewrite length_drop; lia).
  assert (Hp : has_prefix sep (drop n (s ++ t)) = true).
  { apply has_prefix_spec. exists post. rewrite He at 1. rewrite drop_app_length'; [done|].
    rewrite length_take, length_app. lia. }
  rewrite drop_app_le in Hp by lia. congruence.
Qed.

(** [indexOf] is [bytes.Index]. *)
Lemma indexOf_index s needle : needle <> [] -> indexOf s needle = index needle s.
Proof.
  intros Hne. assert (H : forall i, indexOf_from needle i s = Nat.add i <$> index needle s).
  { induction s as [|c s IH]; intros i.
    - destruct needle; [done|]. done.
    - cbn [indexOf_from index]. destruct (has_prefix needle (c :: s)) eqn:E.
      + apply has_prefix_length in E as Hl. apply Nat.leb_le in Hl. rewrite Hl. simpl. f_equal. lia.
      + destruct (Nat.leb_spec (length needle) (length (c :: s))).
        * rewrite IH. destruct (index needle s); simpl; f_equal; lia.
        * destruct (index needle s) as [m|] eqn:Em; [|done]. apply index_Some in Em as (p & Hs & Hm & _).
          apply (f_equal length) in Hs. rewrite !length_app, length_take in Hs. simpl in *. lia. }
  destruct needle; [done|]. unfold indexOf. rewrite H. by destruct (index _ s).
Qed.

(** ** Scripts *)

(** An error comes without bytes, as on a TCP connection. *)
Definition polite (c : conn) : Prop := Forall (fun ev => ev_err ev = None \/ ev_bytes ev = []) c.

(** The bytes before the first error, and that error. *)
Fixpoint readable (c : conn) : bytes * connError :=
  match c with
  | [] => ([], EOF)
  | ev :: c =>
      match ev_err ev with
      | Some e => ([], e)
      | None => (ev_bytes ev ++ (readable c).1, (readable c).2)
      end
  end.

Lemma clean_polite c : clean c -> polite c.
Proof. intros Hc. eapply Forall_impl; [exact Hc|]. simpl. auto. Qed.

Lemma clean_readable c : clean c -> readable c = (data c, EOF).
Proof.
  induction c as [|ev c IH]; intros Hc; [done|]. apply Forall_cons_1 in Hc as [He Hc]. simpl. rewrite He, IH by done. done.
Qed.

Lemma Read_readable k c bs err c' :
  polite c -> (0 < k)%nat -> Read k c = (bs, err, c') ->
  polite c' /\
  match err with
  | Some e => readable c = ([], e)
  | None => readable c = (bs ++ (readable c').1, (readable c').2) /\ (reads_left c' < reads_left c)%nat
  end.
Proof.
  intros Hp Hk. destruct c as [|ev c]; simpl; [intros [= <- <- <-]; split; [constructor|done]|].
  apply Forall_cons_1 in Hp as [He Hp]. destruct (Nat.leb_spec (length (ev_bytes ev)) k); intros [= <- <- <-].
  - split; [done|]. destruct (ev_err ev); [done|]. split; [done|]. unfold reads_left, data. simpl.
    rewrite length_app. lia.
  - destruct He as [He|He]; [|rewrite He in *; simpl in *; lia]. split; [constructor; [by left|done]|].
    simpl. rewrite He. simpl. rewrite app_assoc, take_drop. split; [done|].
    unfold reads_left, data. simpl. rewrite !length_app, length_drop. lia.
Qed.

(** ** Server-sent events *)

(** The lines of a text that a line feed ends. *)
Definition complete_lines (s : bytes) : list bytes := removelast (split LF s).

(** The payloads up to [[DONE]]. *)
Fixpoint until_done (ps : list bytes) : list SSEChunk :=
  match ps with
  | [] => []
  | p :: ps => if bool_decide (p = DONE) then [chunk p] else chunk p :: until_done ps
  end.

(** The events of a body: its data lines, up to [[DONE]]. *)
Definition sse (body : bytes) : list SSEChunk :=
  until_done (omap (fun l => parseDataLine (trimCR l)) (complete_lines body)).

Definition finished (cs : list SSEChunk) : bool := existsb IsDone cs.

Lemma split_nonempty c s : split c s <> [].
Proof. destruct s as [|d s]; simpl; [done|]. destruct (Ascii.eqb c d); [done|]. by destruct (split c s). Qed.

Lemma sse_no_line b : Forall (fun d => d <> LF) b -> sse b = [].
Proof. intros H. unfold sse, complete_lines. by rewrite split_no_sep. Qed.

Lemma sse_line l t :
  Forall (fun d => d <> LF) l ->
  sse (l ++ LF :: t) =
  match parseDataLine (trimCR l) with
  | Some p => if bool_decide (p = DONE) then [chunk p] else chunk p :: sse t
  | None => sse t
  end.
Proof.
  intros H. unfold sse, complete_lines. rewrite split_app by done.
  pose proof (split_nonempty LF t). destruct (split LF t) as [|p ps] eqn:E; [done|].
  cbn [removelast omap list_omap]. by destruct (parseDataLine (trimCR l)).
Qed.

Lemma index_LF b :
  match index [LF] b with
  | Some n => exists t, b = take n b ++ LF :: t /\ drop (n + 1) b = t /\ Forall (fun d => d <> LF) (take n b)
  | None => Forall (fun d => d <> LF) b
  end.
Proof.
  induction b as [|d b IH]; [constructor|]. cbn [index has_prefix]. destruct (Ascii.eqb_spec LF d) as [<-|Hd].
  - simpl. exists b. repeat split; constructor.
  - simpl. destruct (index [LF] b) as [n|]; simpl.
    + destruct IH as (t & Hb & Ht & Hf). exists t. split_and!; [by rewrite Hb at 1|done|by constructor].
    + by constructor.
Qed.

(** The inner loop hands out the events of the complete lines and keeps what is
    needed for the rest. *)
Lemma drain_lines_spec fuel : forall b cs fin r x,
  (length b < fuel)%nat -> drain_lines fuel b = (cs, fin, r) ->
  finished cs = fin /\ sse (b ++ x) = if fin then cs else cs ++ sse (r ++ x).
Proof.
  induction fuel as [|fuel IH]; intros b cs fin r x Hf H; [lia|]. cbn [drain_lines] in H.
  rewrite indexOf_index in H by done. pose proof (index_LF b) as Hi.
  destruct (index [LF] b) as [n|]; [|by injection H as <- <- <-].
  destruct Hi as (t & Hb & Ht & Hl). rewrite Ht in H.
  assert (Hlt : (length t < fuel)%nat).
  { apply (f_equal length) in Hb. rewrite length_app in Hb. simpl in Hb. lia. }
  assert (Hs : sse (b ++ x) = sse (take n b ++ LF :: t ++ x)).
  { f_equal. rewrite Hb at 1. by rewrite <- app_assoc. }
  rewrite Hs, sse_line by done. destruct (parseDataLine (trimCR (take n b))) as [p|]; [|by apply IH].
  case_bool_decide as Hp.
  - injection H as <- <- <-. split; [|done]. unfold finished. simpl. by rewrite bool_decide_eq_true_2.
  - destruct (drain_lines fuel t) as [[cs0 fin0] r0] eqn:E. injection H as <- <- <-.
    destruct (IH _ _ _ _ x Hlt E) as [Hd Hx]. split.
    + unfold finished in *. simpl. by rewrite bool_decide_eq_false_2.
    + rewrite Hx. by destruct fin0.
Qed.

Lemma drain_lines_rest fuel : forall b cs r,
  (length b < fuel)%nat -> drain_lines fuel b = (cs, false, r) -> Forall (fun d => d <> LF) r.
Proof.
  induction fuel as [|fuel IH]; intros b cs r Hf H; [lia|]. cbn [drain_lines] in H.
  rewrite indexOf_index in H by done. pose proof (index_LF b) as Hi.
  destruct (index [LF] b) as [n|]; [|by injection H as <- <-].
  destruct Hi as (t & Hb & Ht & Hl). rewrite Ht in H.
  assert (Hlt : (length t < fuel)%nat).
  { apply (f_equal length) in Hb. rewrite length_app in Hb. simpl in Hb. lia. }
  destruct (parseDataLine _) as [p|]; [|by eapply IH]. case_bool_decide; [done|].
  destruct (drain_lines fuel t) as [[cs0 fin0] r0] eqn:E. injection H as <- -> <-. by eapply IH.
Qed.

(** What the reader reports of the error that ends the stream. *)
Definition reported (e : connError) : option connError := match e with EOF => None | e => Some e end.

Lemma finished_app cs cs' : finished (cs ++ cs') = finished cs || finished cs'.
Proof. apply existsb_app. Qed.

(** Cutting does not matter: the events are those of the bytes that came before
    the stream failed or ended. *)
Lemma stream_loop_spec fuel : forall b c,
  polite c -> (reads_left c <= fuel)%nat ->
  exists c', stream_loop fuel b c =
    (sse (b ++ (readable c).1), if finished (sse (b ++ (readable c).1)) then None else reported (readable c).2, c').
Proof.
  induction fuel as [|fuel IH]; intros b c Hp Hf; [unfold reads_left in Hf; lia|]. cbn [stream_loop].
  destruct (drain_lines (S (length b)) b) as [[cs fin] r] eqn:E.
  pose proof (drain_lines_spec _ _ _ _ _ (readable c).1 (Nat.lt_succ_diag_r _) E) as [Hd Hx]. rewrite Hx.
  destruct fin; [rewrite Hd; eauto|]. pose proof (drain_lines_rest _ _ _ _ (Nat.lt_succ_diag_r _) E) as Hr.
  destruct (Read readBuf c) as [[bs err] c'] eqn:Er.
  apply Read_readable in Er as [Hp' Hc]; [|done|unfold readBuf; lia]. destruct err as [e|].
  - rewrite Hc. simpl. rewrite app_nil_r, sse_no_line, app_nil_r, Hd by done. destruct e; eauto.
  - destruct Hc as [Hc Hl]. destruct (IH (r ++ bs) c' Hp' ltac:(lia)) as [c'' ->]. rewrite Hc. simpl.
    rewrite <- app_assoc, finished_app, Hd. eauto.
Qed.

(** ** The header block *)

Lemma headers_loop_spec fuel : forall h c n,
  polite c -> (reads_left c <= fuel)%nat -> index (CRLF ++ CRLF) (h ++ (readable c).1) = Some n -> Z.of_nat n <= 16381 ->
  index (CRLF ++ CRLF) h = None ->
  exists rest c', headers_loop fuel h c = (inr rest, c') /\ polite c' /\ (readable c').2 = (readable c).2 /\
    rest ++ (readable c').1 = drop (n + 4) (h ++ (readable c).1).
Proof.
  induction fuel as [|fuel IH]; intros h c n Hp Hf Hn Hb Hh; [unfold reads_left in Hf; lia|].
  cbn [headers_loop]. destruct (Read readBuf c) as [[bs err] c'] eqn:Er.
  apply Read_readable in Er as [Hp' Hc]; [|done|unfold readBuf; lia]. destruct err as [e|].
  { rewrite Hc in Hn. cbn [fst] in Hn. rewrite app_nil_r in Hn. congruence. }
  destruct Hc as [Hc Hl]. rewrite Hc in Hn |- *. cbn [fst snd] in Hn |- *. rewrite app_assoc in Hn.
  rewrite indexOf_index by done. destruct (index (CRLF ++ CRLF) (h ++ bs)) as [m|] eqn:Em.
  - pose proof (index_app _ _ (readable c').1 _ Em) as Hm. assert (m = n) as -> by congruence.
    eexists _, c'. split_and!; [done|done|done|]. apply index_Some in Em as (post & He & Hle & _).
    rewrite (app_assoc h bs), (drop_app_le (h ++ bs)); [done|]. apply (f_equal length) in He.
    rewrite !length_app, length_take, length_app in He. rewrite length_app in Hle |- *. simpl in He. lia.
  - pose proof (index_app_late _ _ _ _ Hn Em) as Hlen. simpl in Hlen.
    destruct (Z.ltb_spec 16384 (Z.of_nat (length (h ++ bs)))); [lia|].
    destruct (IH (h ++ bs) c' n Hp' ltac:(lia) Hn Hb Em) as (rest & c'' & H1 & H2 & H3 & H4).
    exists rest, c''. by rewrite H4, <- app_assoc.
Qed.

(** Header block and events together. *)
Lemma response_events c head body :
  polite c -> (readable c).1 = head ++ CRLF ++ CRLF ++ body ->
  index (CRLF ++ CRLF) (readable c).1 = Some (length head) -> Z.of_nat (length head) <= 16381 ->
  exists rest c' c'', readHTTPHeaders c = (inr rest, c') /\
    streamBodyLines rest c' = (sse body, if finished (sse body) then None else reported (readable c).2, c'').
Proof.
  intros Hp He Hi Hl. destruct (headers_loop_spec (reads_left c) [] c (length head)) as (rest & c' & H1 & H2 & H3 & H4);
    [done|done|done|done|done|].
  assert (Hb : rest ++ (readable c').1 = body).
  { rewrite H4. simpl. rewrite He, !app_assoc, drop_app_length'; [done|]. rewrite !length_app. simpl. lia. }
  destruct (stream_loop_spec (reads_left c') rest c' H2 ltac:(done)) as [c'' H5]. exists rest, c', c''.
  split; [done|]. unfold streamBodyLines. by rewrite H5, Hb, H3.
Qed.

(** ** The connect request *)

(** What an RFC 1928 server makes of a request with a domain name: the name, the
    port and the bytes after the request. *)
Definition decode_request (b : bytes) : option (bytes * Z * bytes) :=
  match b with
  | ver :: cmd :: _ :: atyp :: len :: rest =>
      let n := Z.to_nat (code len) in
      if (code ver =? 5) && (code cmd =? 1) && (code atyp =? 3) && (n + 2 <=? length rest)%nat then
        Some (take n rest, 256 * at_ rest n + at_ rest (n + 1), drop (n + 2) rest)
      else None
  | _ => None
  end.

Lemma code_low8 z : code (low8 z) = z mod 256.
Proof.
  unfold low8. change 255 with (Z.ones 8). rewrite Z.land_ones by lia. change (2 ^ 8) with 256.
  pose proof (Z.mod_pos_bound z 256). rewrite code_chr by lia. done.
Qed.

Lemma at_app b c t : at_ (b ++ c :: t) (length b) = code c.
Proof. unfold at_. by rewrite app_nth2, Nat.sub_diag by lia. Qed.

Lemma connect_decodes host port :
  Z.of_nat (length host) <= 255 -> 0 <= port < 65536 ->
  decode_request (connect_request host port) = Some (host, port, []).
Proof.
  intros Hh Hp. unfold connect_request, decode_request. cbn [app].
  rewrite code_low8, Z.mod_small, Nat2Z.id by lia. rewrite !code_chr by lia. cbn [Z.eqb Pos.eqb andb].
  rewrite length_app. cbn [length]. rewrite (proj2 (Nat.leb_le _ _)) by lia.
  rewrite take_app_length, at_app.
  replace (host ++ [low8 (Z.shiftr port 8); low8 port]) with ((host ++ [low8 (Z.shiftr port 8)]) ++ [low8 port]) at 1
    by by rewrite <- app_assoc.
  replace (length host + 1)%nat with (length (host ++ [low8 (Z.shiftr port 8)])) by (rewrite length_app; done).
  rewrite at_app, !code_low8, drop_ge by (rewrite length_app; simpl; lia). do 2 f_equal.
  rewrite Z.shiftr_div_pow2 by lia. change (2 ^ 8) with 256. f_equal. Z.div_mod_to_equations. lia.
Qed.

(** ** The handshake *)

(** A server's success reply. *)
Definition reply_ok (reply : bytes) : Prop :=
  exists rsv atyp addr p1 p2, reply = [chr 5; chr 0; rsv; atyp] ++ addr ++ [p1; p2] /\
    ((code atyp = 1 /\ length addr = 4%nat) \/ (code atyp = 4 /\ length addr = 16%nat) \/
     (code atyp = 3 /\ exists l name, addr = l :: name /\ code l = Z.of_nat (length name))).

Lemma write_or_spec err b s :
  match write_or err b s with
  | (inl _, s') => closed s' = true
  | (inr _, s') => inp s' = inp s /\ outp s' = outp s ++ b /\ closed s' = closed s /\ deadline s' = deadline s
  end.
Proof.
  unfold write_or, sock_write, fail. destruct (head (writes s)) as [[[n e]|]|]; simpl; rewrite ?firstn_all; done.
Qed.

Lemma read_or_spec err n s :
  match read_or err n s with
  | (inl _, s') => closed s' = true
  | (inr bs, s') => data (inp s) = bs ++ data (inp s') /\ length bs = n /\ outp s' = outp s /\ closed s' = closed s
  end.
Proof.
  unfold read_or, fail. destruct (ReadFull n (inp s)) as [[bs e] c] eqn:E.
  apply read_at_least_spec in E as (Hd & Hl & _ & _). destruct e; simpl; auto.
Qed.

Lemma reply_addr_len_spec rsv atyp s :
  match reply_addr_len (code atyp) s with
  | (inl _, s') => closed s' = true
  | (inr n, s') => outp s' = outp s /\ closed s' = closed s /\ exists pre, data (inp s) = pre ++ data (inp s') /\
      forall addr tail, length addr = n -> length tail = 2%nat -> reply_ok ([chr 5; chr 0; rsv; atyp] ++ pre ++ addr ++ tail)
  end.
Proof.
  unfold reply_addr_len.
  assert (Hok : forall addr tail, length tail = 2%nat ->
    (code atyp = 1 /\ length addr = 4%nat) \/ (code atyp = 4 /\ length addr = 16%nat) \/
    (code atyp = 3 /\ exists l name, addr = l :: name /\ code l = Z.of_nat (length name)) ->
    reply_ok ([chr 5; chr 0; rsv; atyp] ++ addr ++ tail)).
  { intros addr tail Ht Ha. destruct tail as [|p1 [|p2 [|]]]; try done. by exists rsv, atyp, addr, p1, p2. }
  destruct (Z.eqb_spec (code atyp) 1) as [E1|]; [|destruct (Z.eqb_spec (code atyp) 3) as [E3|];
    [|destruct (Z.eqb_spec (code atyp) 4) as [E4|]; [|done]]].
  1,3: split_and!; [done..|]; exists []; split; [done|]; intros addr tail Ha Ht; cbn [app]; apply Hok; auto.
  unfold bind. pose proof (read_or_spec ReadFqdnLen 1 s) as Hr. destruct (read_or _ 1 s) as [[e|l] s1]; [done|].
  simpl. destruct Hr as (Hd & Hl & Ho & Hc). split_and!; [done..|]. exists l. split; [done|]. intros addr tail Ha Ht.
  destruct l as [|l []]; try done. rewrite app_assoc. apply Hok; [done|]. right; right. split; [done|]. exists l, addr.
  split; [done|]. rewrite Ha. unfold at_. simpl. unfold code. rewrite Nat2Z.id. done.
Qed.

(** Whatever the proxy answers, the handshake either fails and closes the
    socket, or has sent the greeting and the request, and has taken the method
    choice and one complete success reply off the stream, not a byte more. *)
Lemma handshake_outcome target s :
  match handshake target s with
  | (inl _, s') => closed s' = true
  | (inr _, s') => exists host port reply, splitHostPort target = Some (host, port) /\ reply_ok reply /\
      data (inp s) = [chr 5; chr 0] ++ reply ++ data (inp s') /\
      outp s' = outp s ++ greeting ++ connect_request host port /\ closed s' = closed s /\ deadline s' = None
  end.
Proof.
  unfold handshake. destruct (splitHostPort target) as [[host port]|]; [|done]. unfold bind.
  pose proof (write_or_spec WriteGreeting greeting s) as H1. destruct (write_or _ greeting s) as [[e|[]] s1]; [done|].
  destruct H1 as (Hi1 & Ho1 & Hc1 & _).
  pose proof (read_or_spec ReadGreeting 2 s1) as H2. destruct (read_or _ 2 s1) as [[e|g] s2]; [done|].
  destruct H2 as (Hi2 & Hl2 & Ho2 & Hc2). destruct g as [|g0 [|g1 []]]; try done. unfold at_. cbn [nth].
  destruct (Z.eqb_spec (code g0) 5) as [E0|]; [|done]. destruct (Z.eqb_spec (code g1) 0) as [E1|]; [|by rewrite orb_true_r].
  rewrite E1. cbn [Z.eqb negb orb].
  pose proof (write_or_spec WriteConnect (connect_request host port) s2) as H3.
  destruct (write_or _ _ s2) as [[e|[]] s3]; [done|]. destruct H3 as (Hi3 & Ho3 & Hc3 & _).
  pose proof (read_or_spec ReadReplyHeader 4 s3) as H4. destruct (read_or _ 4 s3) as [[e|h] s4]; [done|].
  destruct H4 as (Hi4 & Hl4 & Ho4 & Hc4). destruct h as [|h0 [|h1 [|h2 [|h3 []]]]]; try done. cbn [nth].
  destruct (Z.eqb_spec (code h0) 5) as [F0|]; [|done]. destruct (Z.eqb_spec (code h1) 0) as [F1|]; [|done]. cbn [negb].
  pose proof (reply_addr_len_spec h2 h3 s4) as H5. destruct (reply_addr_len (code h3) s4) as [[e|n] s5]; [done|].
  destruct H5 as (Ho5 & Hc5 & pre & Hi5 & Hok).
  pose proof (read_or_spec ReadReplyTail (n + 2) s5) as H6. destruct (read_or _ _ s5) as [[e|tl] s6]; [done|].
  destruct H6 as (Hi6 & Hl6 & Ho6 & Hc6). exists host, port, ([chr 5; chr 0; h2; h3] ++ pre ++ tl).
  rewrite <- (chr_code g0), <- (chr_code g1), E0, E1 in Hi2. rewrite <- (chr_code h0), <- (chr_code h1), F0, F1 in Hi4.
  split_and!; [done| | | |simpl; congruence|done].
  - rewrite <- (take_drop n tl). apply Hok; [rewrite length_take|rewrite length_drop]; lia.
  - rewrite <- Hi1, Hi2, <- Hi3, Hi4, Hi5, Hi6. simpl. by rewrite <- !app_assoc.
  - simpl. by rewrite Ho6, Ho5, Ho4, Ho3, Ho2, Ho1, <- app_assoc.
Qed.

(** A socket nothing goes wrong on, with these bytes still to come. *)
Definition well (s : sock) (rest : bytes) : Prop := clean (inp s) /\ data (inp s) = rest /\ writes s = [].

Lemma write_or_well err b s rest :
  well s rest -> exists s', write_or err b s = (inr tt, s') /\ well s' rest.
Proof. intros (Hc & Hd & Hw). unfold write_or, sock_write. rewrite Hw. simpl. eexists. split; [done|]. done. Qed.

Lemma read_or_well err n s pre rest :
  well s (pre ++ rest) -> length pre = n -> exists s', read_or err n s = (inr pre, s') /\ well s' rest.
Proof.
  intros (Hc & Hd & Hw) Hn. destruct (ReadFull_clean n (inp s) pre rest) as (c' & Hr & Hc' & Hd'); [done..|].
  unfold read_or. rewrite Hr. eexists. split; [done|]. done.
Qed.

Lemma reply_addr_len_well atyp s addr tail rest :
  well s (addr ++ tail ++ rest) ->
  (code atyp = 1 /\ length addr = 4%nat) \/ (code atyp = 4 /\ length addr = 16%nat) \/
  (code atyp = 3 /\ exists l name, addr = l :: name /\ code l = Z.of_nat (length name)) ->
  exists n s' a, reply_addr_len (code atyp) s = (inr n, s') /\ well s' (a ++ tail ++ rest) /\ length a = n.
Proof.
  intros Hs [[E Hl]|[[E Hl]|(E & l & name & -> & Hl)]]; rewrite E; unfold reply_addr_len; cbn [Z.eqb Pos.eqb].
  1,2: by eexists _, s, addr.
  destruct (read_or_well ReadFqdnLen 1 s [l] (name ++ tail ++ rest)) as (s' & Hr & Hw); [done..|].
  exists (length name), s', name. unfold bind. rewrite Hr. unfold at_. cbn [nth]. rewrite Hl, Nat2Z.id. done.
Qed.

(** Against a server that accepts, the handshake succeeds. *)
Lemma handshake_completes target s host port reply rest :
  splitHostPort target = Some (host, port) -> reply_ok reply -> well s ([chr 5; chr 0] ++ reply ++ rest) ->
  exists s', handshake target s = (inr tt, s') /\ well s' rest.
Proof.
  intros Ht (rsv & atyp & addr & p1 & p2 & -> & Ha) Hs. unfold handshake. rewrite Ht. unfold bind.
  destruct (write_or_well WriteGreeting greeting _ _ Hs) as (s1 & -> & H1).
  destruct (read_or_well ReadGreeting 2 _ _ _ H1 eq_refl) as (s2 & -> & H2).
  unfold at_. cbn [nth]. rewrite !code_chr by lia. cbn [Z.eqb Pos.eqb negb orb].
  destruct (write_or_well WriteConnect (connect_request host port) _ _ H2) as (s3 & -> & H3).
  rewrite <- !app_assoc in H3. destruct (read_or_well ReadReplyHeader 4 _ _ _ H3 eq_refl) as (s4 & -> & H4).
  cbn [nth]. rewrite !code_chr by lia. cbn [Z.eqb Pos.eqb negb orb].
  destruct (reply_addr_len_well atyp s4 addr [p1; p2] rest H4 Ha) as (n & s5 & a & -> & H5 & Hn).
  destruct (read_or_well ReadReplyTail (n + 2) s5 (a ++ [p1; p2]) rest) as (s6 & -> & H6).
  { by rewrite <- app_assoc. }
  { rewrite length_app. simpl. lia. }
  eexists. split; [done|]. done.
Qed.

(** ** The HTTP request *)

Definition no_cr (l : bytes) : Prop := Forall (fun c => c <> CR) l.

Lemma index_skip l t : no_cr l -> index (CRLF ++ CRLF) (l ++ t) = Nat.add (length l) <$> index (CRLF ++ CRLF) t.
Proof.
  induction 1 as [|c l Hc _ IH]; [change ([] ++ t) with t; by destruct (index _ t)|].
  change ((c :: l) ++ t) with (c :: l ++ t). cbn [index].
  assert (E : has_prefix (CRLF ++ CRLF) (c :: l ++ t) = false).
  { cbn [CRLF app has_prefix]. by destruct (Ascii.eqb_spec CR c) as [<-|]. }
  rewrite E, IH. by destruct (index _ t).
Qed.

Lemma index_cons_no sep c s : has_prefix sep (c :: s) = false -> index sep (c :: s) = S <$> index sep s.
Proof. intros E. cbn [index]. by rewrite E. Qed.

(** The blank line after a block of header lines is the first one. *)
Lemma blank_line ls body :
  ls <> [] -> Forall (fun l => l <> [] /\ no_cr l) ls ->
  exists head, concat (List.map (fun l => l ++ CRLF) ls) = head ++ CRLF /\
    index (CRLF ++ CRLF) (head ++ CRLF ++ CRLF ++ body) = Some (length head).
Proof.
  intros Hne H. induction H as [|l ls [Hl Hn] Hls IH]; [done|]. destruct ls as [|l' ls].
  - exists l. split; [apply app_nil_r|]. rewrite index_skip by done. simpl. f_equal. lia.
  - destruct IH as (head & He & Hi); [done|]. exists (l ++ CRLF ++ head). cbn [List.map concat] in *. rewrite He.
    rewrite <- !app_assoc. split; [done|]. rewrite index_skip by done.
    assert (Hx : exists x r, head ++ CRLF ++ CRLF ++ body = x :: r /\ x <> CR).
    { apply Forall_cons_1 in Hls as [[Hl' Hn'] _]. destruct l' as [|x l']; [done|]. apply Forall_cons_1 in Hn' as [Hx _].
      assert (Hd : x :: (l' ++ CRLF ++ concat (List.map (fun l => l ++ CRLF) ls)) = head ++ CRLF).
      { rewrite <- He. simpl. by rewrite <- app_assoc. }
      destruct head as [|y head]; [by injection Hd as ->|]. injection Hd as -> _. by eexists _, _. }
    destruct Hx as (x & r & Hx & Hxc). rewrite Hx in Hi |- *.
    change (CRLF ++ x :: r) with (CR :: LF :: x :: r).
    rewrite (index_cons_no _ CR), (index_cons_no _ LF), Hi; [|done|].
    + cbn [fmap option_fmap option_map]. f_equal. rewrite !length_app. simpl. lia.
    + cbn [CRLF app has_prefix]. destruct (Ascii.eqb_spec CR x); [done|]. by rewrite andb_false_r.
Qed.

(** The request as a server frames it: the header block ends where the body
    begins, and its last line states the length of that body. *)
Theorem request_frames target method path authHeader body host port :
  splitHostPort target = Some (host, port) -> no_cr host -> no_cr method -> no_cr path -> no_cr authHeader ->
  Z.of_nat (length body) <= max_int64 ->
  exists head ds, buildHTTPRequest target method path authHeader body =
      (head ++ to_bytes "Content-Length: " ++ ds) ++ CRLF ++ CRLF ++ body /\
    index (CRLF ++ CRLF) (buildHTTPRequest target method path authHeader body) =
      Some (length (head ++ to_bytes "Content-Length: " ++ ds)) /\
    Atoi ds = Some (Z.of_nat (length body)).
Proof.
  intros Ht Hh Hm Hp Ha Hb.
  set (first := [method ++ to_bytes " " ++ path ++ to_bytes " " ++ to_bytes "HTTP/1.1"; to_bytes "Host: " ++ host;
    to_bytes "Authorization: " ++ authHeader; to_bytes "Content-Type: application/json";
    to_bytes "Accept: text/event-stream"; to_bytes "Connection: close"]).
  set (ds := Itoa (Z.of_nat (length body))).
  assert (Hds : no_cr ds).
  { unfold ds, Itoa. destruct (Z.of_nat (length body)) as [|q|q] eqn:E; [by repeat constructor| |lia].
    destruct (dec_digits_spec (Zpos q)) as (c & r & -> & _ & Hd); [lia|]. eapply Forall_impl; [exact Hd|].
    intros x Hx ->. by vm_compute in Hx. }
  assert (Hcr : forall s, forallb (fun c => negb (Ascii.eqb c CR)) (to_bytes s) = true -> no_cr (to_bytes s)).
  { intros s E. apply Forall_forall. intros x Hx%list_elem_of_In -> . by apply (proj1 (forallb_forall _ _) E) in Hx. }
  destruct (blank_line (first ++ [to_bytes "Content-Length: " ++ ds]) body) as (head & He & Hi).
  { by destruct first. }
  { unfold first. repeat constructor; try (by intros [? ?]%app_eq_nil); try done;
      repeat apply Forall_app_2; try done; by apply Hcr. }
  assert (Hbuild : buildHTTPRequest target method path authHeader body = head ++ CRLF ++ CRLF ++ body).
  { rewrite (app_assoc head), <- He. unfold buildHTTPRequest. rewrite Ht. fold ds. unfold first.
    cbn [List.map concat app]. rewrite <- !app_assoc. by rewrite app_nil_l. }
  exists (concat (List.map (fun l => l ++ CRLF) first)), ds.
  assert (Hhead : head = concat (List.map (fun l => l ++ CRLF) first) ++ to_bytes "Content-Length: " ++ ds).
  { rewrite List.map_app, concat_app in He. cbn [List.map concat] in He. rewrite app_nil_r, app_assoc in He.
    apply app_inv_tail in He. by rewrite He. }
  rewrite <- Hhead, Hbuild. split_and!; [done|done|]. apply Atoi_Itoa. unfold in_int64, min_int64. lia.
Qed.

(** ** The theorems *)

(** Dialling through the proxy, whatever it answers: on an error the connection
    is closed and never returned open; on success the proxy was sent the greeting
    and a request it decodes to the very host and port asked for, exactly one
    method choice and one success reply were read, so the first byte the caller
    reads is the target's, and the handshake deadline is lifted. *)
Theorem socks_dial_exact now timeout s setErr target r os host port :
  splitHostPort target = Some (host, port) -> Z.of_nat (length host) <= 255 ->
  dialSOCKS5 now timeout (inr s) setErr target = (r, os) ->
  exists s', os = Some s' /\
    match r with
    | inl _ => closed s' = true
    | inr _ => exists reply request, reply_ok reply /\ data (inp s) = [chr 5; chr 0] ++ reply ++ data (inp s') /\
        outp s' = outp s ++ greeting ++ request /\ decode_request request = Some (host, port, []) /\
        closed s' = closed s /\ deadline s' = None
    end.
Proof.
  intros Ht Hh. unfold dialSOCKS5. destruct setErr as [e|]; [intros [= <- <-]; by eexists|].
  set (s0 := setDeadline _ s). pose proof (handshake_outcome target s0) as H.
  destruct (handshake target s0) as [[e|[]] s']; intros [= <- <-]; exists s'; split; try done.
  destruct H as (host' & port' & reply & Ht' & Hr & Hd & Ho & Hc & Hl). rewrite Ht in Ht'. injection Ht' as <- <-.
  exists reply, (connect_request host port). split_and!; try done. apply connect_decodes; [done|].
  unfold splitHostPort in Ht. destruct (default _ _) as [h ps]. apply bind_Some in Ht as (p & Hp & [= _ <-]).
  by apply ParseUint10_range in Hp.
Qed.

(** A host name of more than 255 bytes: its length does not fit the length byte,
    so the proxy reads a shorter name and takes the rest of the request for
    tunnelled data. *)
Theorem long_host_misread host port :
  255 < Z.of_nat (length host) ->
  exists host' port' rest, decode_request (connect_request host port) = Some (host', port', rest) /\
    host' <> host /\ rest <> [] /\ exists more, host = host' ++ more.
Proof.
  intros Hh. unfold connect_request, decode_request. cbn [app]. rewrite code_low8, !code_chr by lia.
  set (n := Z.to_nat (Z.of_nat (length host) mod 256)). cbn [Z.eqb Pos.eqb andb].
  assert (Hn : (n < length host)%nat).
  { unfold n. pose proof (Z.mod_pos_bound (Z.of_nat (length host)) 256). lia. }
  rewrite (proj2 (Nat.leb_le _ _)) by (rewrite length_app; simpl; lia). eexists _, _, _. split; [done|].
  rewrite take_app_le by lia. split_and!.
  - intros E%(f_equal length). rewrite length_take in E. lia.
  - intros E%(f_equal length). rewrite length_drop, length_app in E. simpl in E. lia.
  - exists (drop n host). by rewrite take_drop.
Qed.

(** C36: The events of an answer: against a proxy that accepts and a server that
    answers, [StreamSSE] sends the handshake and the request, hands out exactly
    the data lines of the answer's body up to [[DONE]], in order and whole,
    however the network cuts the bytes up, and closes the connection. *)
Theorem sse_stream_exact now s target method path auth body host port reply block answer :
  splitHostPort target = Some (host, port) -> reply_ok reply ->
  well s ([chr 5; chr 0] ++ reply ++ block ++ CRLF ++ CRLF ++ answer) ->
  index (CRLF ++ CRLF) (block ++ CRLF ++ CRLF ++ answer) = Some (length block) -> Z.of_nat (length block) <= 16381 ->
  exists s', StreamSSE now (inr s) None target method path auth body = (sse answer, None, Some s') /\
    outp s' = outp s ++ greeting ++ connect_request host port ++ buildHTTPRequest target method path auth body /\
    closed s' = true.
Proof.
  intros Ht Hr Hs Hi Hl. unfold StreamSSE, dialSOCKS5. set (s0 := setDeadline _ s).
  assert (Hs0 : well s0 ([chr 5; chr 0] ++ reply ++ block ++ CRLF ++ CRLF ++ answer)) by done.
  destruct (handshake_completes target s0 host port reply _ Ht Hr Hs0) as (s1 & H1 & Hc & Hd & Hw).
  pose proof (handshake_outcome target s0) as Ho. rewrite H1 in Ho |- *.
  destruct Ho as (host' & port' & _ & Ht' & _ & _ & Ho & _). rewrite Ht in Ht'. injection Ht' as <- <-.
  unfold sock_write. rewrite Hw. cbn [head inp].
  destruct (response_events (inp s1) block answer) as (rest & c' & c'' & -> & ->);
    rewrite ?clean_readable by done; cbn [fst]; [by apply clean_polite|done|by rewrite Hd|done|].
  cbn [snd reported]. exists (closeSock {| inp := c''; writes := tail []; outp := outp s1 ++ take (length (buildHTTPRequest target method path auth body)) (buildHTTPRequest target method path auth body); closed := closed s1; deadline := deadline s1 |}).
  split_and!; [by destruct (finished (sse answer))| |done]. cbn [outp closeSock]. rewrite firstn_all, Ho. cbn [outp s0 setDeadline].
  by rewrite <- !app_assoc.
Qed.

(** ** Examples and witnesses *)

Definition text (s : string) : event := {| ev_bytes := to_bytes s; ev_err := None |}.
Definition crlf : string := of_bytes CRLF.
Definition lf : string := of_bytes [LF].

(** A proxy that accepts, and an answer in two events cut inside a line. *)
Definition ex_reply : bytes := [chr 5; chr 0; chr 0; chr 1; chr 127; chr 0; chr 0; chr 1; chr 4; chr 56].
Definition ex_head : string := "HTTP/1.1 200 OK" ++ crlf ++ "Content-Type: text/event-stream".
Definition ex_body : string := "data: hel" ++ lf ++ lf ++ "data: lo" ++ lf ++ lf ++ "data: [DONE]" ++ lf ++ "data: x" ++ lf.
Definition ex_sock : sock :=
  {| inp := [{| ev_bytes := [chr 5]; ev_err := None |}; {| ev_bytes := [chr 0] ++ ex_reply; ev_err := None |};
             text (ex_head ++ crlf); text (crlf ++ "data: h"); text ("el" ++ lf ++ lf ++ "data: lo" ++ lf);
             text (lf ++ "data: [DONE]" ++ lf ++ "data: x" ++ lf)];
     writes := []; outp := []; closed := false; deadline := None |}.

Example ex_events : sse (to_bytes ex_body) = [chunk (to_bytes "hel"); chunk (to_bytes "lo"); chunk DONE].
Proof. vm_compute. reflexivity. Qed.

(** The body of an answer with a chunked transfer encoding is not decoded: an
    event that spans two chunks is cut where the first one ends. *)
Example chunked_answer_cut :
  sse (to_bytes ("9" ++ crlf ++ "data: hel" ++ crlf ++ "3" ++ crlf ++ "lo" ++ lf ++ crlf ++ "0" ++ crlf ++ crlf))
  = [chunk (to_bytes "hel")].
Proof. vm_compute. reflexivity. Qed.

(** The lines that come with the end of the stream in one read are lost. *)
Example last_events_lost :
  (streamBodyLines [] [{| ev_bytes := to_bytes ("data: a" ++ lf); ev_err := Some EOF |}]).1 = ([], None).
Proof. vm_compute. reflexivity. Qed.

Lemma socks_dial_exact_witness :
  exists s', (dialSOCKS5 0 1 (inr ex_sock) None (to_bytes "api.example.com:1080")).2 = Some s' /\ closed s' = false /\
    deadline s' = None.
Proof.
  destruct (socks_dial_exact 0 1 ex_sock None (to_bytes "api.example.com:1080")
    (inr tt)
    (dialSOCKS5 0 1 (inr ex_sock) None (to_bytes "api.example.com:1080")).2
    (to_bytes "api.example.com") 1080) as (s' & Hs & H); [vm_compute; reflexivity|vm_compute; discriminate|vm_compute; reflexivity|].
  exists s'. split; [exact Hs|]. destruct H as (reply & request & _ & _ & _ & _ & Hc & Hd). split; [exact Hc|exact Hd].
Defined.

Lemma long_host_misread_witness :
  exists h p r, decode_request (connect_request (replicate 300 "a"%char) 443) = Some (h, p, r) /\ r <> [].
Proof.
  destruct (long_host_misread (replicate 300 "a"%char) 443) as (h & p & r & H & _ & Hr & _); [vm_compute; reflexivity|].
  exists h, p, r. split; [exact H|exact Hr].
Defined.

Lemma sse_stream_exact_witness :
  exists s', StreamSSE 0 (inr ex_sock) None (to_bytes "api.example.com:1080") (to_bytes "POST") (to_bytes "/v1") (to_bytes "k")
    (to_bytes "{}") = ([chunk (to_bytes "hel"); chunk (to_bytes "lo"); chunk DONE], None, Some s') /\ closed s' = true.
Proof.
  destruct (sse_stream_exact 0 ex_sock (to_bytes "api.example.com:1080") (to_bytes "POST") (to_bytes "/v1") (to_bytes "k")
    (to_bytes "{}") (to_bytes "api.example.com") 1080 ex_reply (to_bytes ex_head) (to_bytes ex_body)) as (s' & H & _ & Hc).
  - vm_compute. reflexivity.
  - exists (chr 0), (chr 1), [chr 127; chr 0; chr 0; chr 1], (chr 4), (chr 56). split; [reflexivity|left; split; reflexivity].
  - split; [repeat constructor|split; vm_compute; reflexivity].
  - vm_compute. reflexivity.
  - vm_compute. discriminate.
  - exists s'. rewrite <- ex_events. split; [exact H|exact Hc].
Defined.

Lemma request_frames_witness :
  exists n, index (CRLF ++ CRLF) (buildHTTPRequest (to_bytes "h:1") (to_bytes "GET") (to_bytes "/") (to_bytes "k") (to_bytes "x"))
    = Some n.
Proof.
  destruct (request_frames (to_bytes "h:1") (to_bytes "GET") (to_bytes "/") (to_bytes "k") (to_bytes "x") (to_bytes "h") 1)
    as (hd & ds & _ & H & _); [vm_compute; reflexivity|repeat constructor; discriminate..|vm_compute; discriminate|].
  eexists. exact H.
Defined.

End Socks5Spec.
