(* ===== verification/GpuProbe.v ===== *)
(** * The GPU probe

    Models [src/internal/gpuprobe/probe.go]: the CSV of two [nvidia-smi] queries
    is parsed into snapshots and the processes of the second are attached to the
    GPUs of the first by UUID.  The command runner is an argument. *)

From Stdlib Require Import ZArith Lia Ascii String.
From stdpp Require Import base option list gmap strings.
From S2P Require Import Prelude GoStrings Utf8 Strconv Trim Net.

Module GpuProbe.
Import GoStrings Utf8 Strconv Trim Net.

(** ** Data *)

Record Process := { PID : Z; ProcessName : bytes; UsedMemoryMiB : Z }.

Record Snapshot := {
  Index : Z;
  UUID : bytes;
  PCIBusID : bytes;
  Name : bytes;
  MemoryTotalMiB : Z;
  MemoryUsedMiB : Z;
  UtilizationGPU : Z;
  TemperatureC : Z;
  Processes : list Process;
}.

Inductive probeError :=
  | Runner (msg : string)
  | FieldCount (n : nat) (line : bytes)
  | BadInt (what : string) (field : bytes).

Definition R (A : Type) : Type := (probeError + A)%type.

Definition bind {A B} (m : R A) (f : A -> R B) : R B := match m with inl e => inl e | inr a => f a end.

Notation "x ⇐ m ; k" := (bind m (fun x => k)) (at level 100, m at next level, right associativity).

(** ** Lines and fields *)

Definition splitCSVLines (raw : bytes) : list bytes :=
  filter (fun l => l <> []) (trim_bytes <$> split LF (trim_bytes raw)).

Definition splitCSVFields (line : bytes) : list bytes := trim_bytes <$> split "," line.

Definition trim_suffix (s p : bytes) : bytes :=
  if has_prefix (rev p) (rev s) then take (length s - length p) s else s.

Definition parseMetricInt (raw : bytes) : option Z :=
  let cleaned := trim_bytes raw in
  let cleaned := foldl (fun c suffix => trim_bytes (trim_suffix c suffix)) cleaned [to_bytes "MiB"; to_bytes "%"] in
  Atoi cleaned.

Definition parseOptionalMetricInt (raw : bytes) : option Z :=
  let cleaned := trim_bytes raw in
  if bool_decide (cleaned = [] \/ cleaned = to_bytes "N/A" \/ cleaned = to_bytes "[N/A]") then Some 0
  else parseMetricInt cleaned.

Definition int_or (what : string) (parse : bytes -> option Z) (field : bytes) : R Z :=
  match parse field with Some z => inr z | None => inl (BadInt what field) end.

(** ** The two parsers *)

Definition parse_gpu_line (line : bytes) : R Snapshot :=
  match splitCSVFields line with
  | [f0; f1; f2; f3; f4; f5; f6; f7] =>
      index ⇐ int_or "gpu index" parseMetricInt f0;
      memoryTotal ⇐ int_or "total memory" parseMetricInt f4;
      memoryUsed ⇐ int_or "used memory" parseMetricInt f5;
      utilization ⇐ int_or "utilization" parseMetricInt f6;
      temperature ⇐ int_or "temperature" parseMetricInt f7;
      inr {| Index := index; UUID := f1; PCIBusID := f2; Name := f3; MemoryTotalMiB := memoryTotal;
             MemoryUsedMiB := memoryUsed; UtilizationGPU := utilization; TemperatureC := temperature; Processes := [] |}
  | fields => inl (FieldCount (length fields) line)
  end.

Fixpoint parse_gpu_lines (lines : list bytes) (gpus : list Snapshot) : R (list Snapshot) :=
  match lines with
  | [] => inr gpus
  | line :: lines => g ⇐ parse_gpu_line line; parse_gpu_lines lines (gpus ++ [g])
  end.

Definition ParseGPUCSV (raw : bytes) : R (list Snapshot) := parse_gpu_lines (splitCSVLines raw) [].

Abbreviation procs := (gmap bytes (list Process)).

(** A missing key reads as the empty slice. *)
Definition procs_of (m : procs) (uuid : bytes) : list Process := default [] (m !! uuid).

Definition parse_app_line (line : bytes) : R (bytes * Process) :=
  match splitCSVFields line with
  | [f0; f1; f2; f3] =>
      pid ⇐ int_or "pid" parseMetricInt f1;
      usedMemory ⇐ int_or "process memory" parseOptionalMetricInt f3;
      inr (f0, {| PID := pid; ProcessName := f2; UsedMemoryMiB := usedMemory |})
  | fields => inl (FieldCount (length fields) line)
  end.

Fixpoint parse_app_lines (lines : list bytes) (processes : procs) : R procs :=
  match lines with
  | [] => inr processes
  | line :: lines =>
      up ⇐ parse_app_line line;
      parse_app_lines lines (<[up.1 := procs_of processes up.1 ++ [up.2]]> processes)
  end.

Definition ParseComputeAppsCSV (raw : bytes) : R procs := parse_app_lines (splitCSVLines raw) ∅.

Definition with_processes (g : Snapshot) (ps : list Process) : Snapshot :=
  {| Index := Index g; UUID := UUID g; PCIBusID := PCIBusID g; Name := Name g; MemoryTotalMiB := MemoryTotalMiB g;
     MemoryUsedMiB := MemoryUsedMiB g; UtilizationGPU := UtilizationGPU g; TemperatureC := TemperatureC g; Processes := ps |}.

Definition AttachProcesses (gpus : list Snapshot) (processes : procs) : list Snapshot :=
  (fun g => with_processes g (procs_of processes (UUID g))) <$> gpus.

(** [runGPU] and [runApps] are what the runner returns for the two queries. *)
Definition CollectSnapshots (runGPU runApps : R bytes) : R (list Snapshot) :=
  gpuCSV ⇐ runGPU;
  gpus ⇐ ParseGPUCSV gpuCSV;
  computeCSV ⇐ runApps;
  processes ⇐ ParseComputeAppsCSV computeCSV;
  inr (AttachProcesses gpus processes).

(** ** What nvidia-smi prints *)

Definition sep : bytes := to_bytes ", ".

Definition print_gpu (g : Snapshot) : bytes :=
  Itoa (Index g) ++ sep ++ UUID g ++ sep ++ PCIBusID g ++ sep ++ Name g ++ sep ++
  Itoa (MemoryTotalMiB g) ++ to_bytes " MiB" ++ sep ++ Itoa (MemoryUsedMiB g) ++ to_bytes " MiB" ++ sep ++
  Itoa (UtilizationGPU g) ++ to_bytes " %" ++ sep ++ Itoa (TemperatureC g).

(** A line of the second query; the memory may be unavailable. *)
Definition print_app (up : bytes * (Z * bytes * option Z)) : bytes :=
  let '(uuid, (pid, name, mem)) := up in
  uuid ++ sep ++ Itoa pid ++ sep ++ name ++ sep ++
  match mem with Some m => Itoa m ++ to_bytes " MiB" | None => to_bytes "[N/A]" end.

Definition print_lines (ls : list bytes) : bytes := concat (List.map (fun l => l ++ [LF]) ls).

Definition app_process (up : bytes * (Z * bytes * option Z)) : Process :=
  {| PID := up.2.1.1; ProcessName := up.2.1.2; UsedMemoryMiB := default 0 up.2.2 |}.

(** ** Lemmas: integers in fields *)

Definition int_char (c : ascii) : Prop := is_digit c = true \/ c = "-"%char.

Lemma int_char_plain c : int_char c -> plain c /\ c <> ","%char /\ c <> LF /\ c <> "B"%char /\ c <> "%"%char.
Proof.
  intros [H|H]; [|subst; vm_compute; repeat split; discriminate]. apply andb_true_iff in H as [H1 H2].
  unfold plain. split_and!; [lia|lia|..]; intros ->; vm_compute in H1, H2; done.
Qed.

Lemma Itoa_chars z : Forall int_char (Itoa z) /\ exists c t, Itoa z = c :: t.
Proof.
  assert (Hd : forall p, Forall int_char (dec_digits (Zpos p)) /\ exists c t, dec_digits (Zpos p) = c :: t).
  { intros p. destruct (dec_digits_spec (Zpos p)) as (c & ds & -> & _ & Hd); [lia|]. split; [|eauto].
    eapply Forall_impl; [exact Hd|]. by left. }
  destruct z as [|p|p]; cbn [Itoa].
  - split; [repeat constructor|eauto].
  - apply Hd.
  - destruct (Hd p) as [H _]. split; [constructor; [by right|exact H]|eauto].
Qed.

Lemma Itoa_trimmed z u : (u = [] \/ exists d, last u = Some d /\ plain d) -> trimmed (Itoa z ++ u).
Proof.
  intros Hu. destruct (Itoa_chars z) as [Hc (c & t & E)]. rewrite E in *.
  assert (Hp : plain c) by (apply Forall_cons_1 in Hc as [Hc _]; by apply int_char_plain).
  destruct Hu as [->|(d & Hd & Hpd)].
  - rewrite app_nil_r. destruct (last (c :: t)) as [d|] eqn:El; [|by apply last_None in El].
    eapply trimmed_plain; [done|done|done|]. apply last_Some_elem_of in El. eapply Forall_forall in Hc; [|done].
    by apply int_char_plain.
  - eapply (trimmed_plain _ c d); [done| |done|done]. rewrite last_app, Hd. done.
Qed.

Lemma trim_suffix_app a p : trim_suffix (a ++ p) p = a.
Proof.
  unfold trim_suffix. rewrite rev_app_distr, (proj2 (has_prefix_spec _ _)) by eauto.
  rewrite length_app, Nat.add_sub, take_app_length. done.
Qed.

Lemma trim_suffix_no s p d e : last s = Some d -> last p = Some e -> e <> d -> trim_suffix s p = s.
Proof.
  intros Hs Hp He. apply last_Some in Hs as [s' ->]. apply last_Some in Hp as [p' ->]. unfold trim_suffix.
  rewrite !rev_app_distr. cbn [rev app has_prefix]. by destruct (Ascii.eqb_spec e d).
Qed.

Lemma Itoa_last z : exists d, last (Itoa z) = Some d /\ d <> "B"%char /\ d <> "%"%char.
Proof.
  destruct (Itoa_chars z) as [Hc (c & t & E)]. destruct (last (Itoa z)) as [d|] eqn:El; [|rewrite E in El; by apply last_None in El].
  exists d. split; [done|]. apply last_Some_elem_of in El. eapply Forall_forall in Hc; [|done]. by apply int_char_plain.
Qed.

Lemma trim_itoa_space z : trim_bytes (Itoa z ++ [" "%char]) = Itoa z.
Proof.
  destruct (Itoa_chars z) as [Hc (c & t & E)]. apply trim_tail; [|by left|by rewrite E|].
  - rewrite <- (app_nil_r (Itoa z)). apply Itoa_trimmed. by left.
  - exists c, t. split; [done|]. rewrite E in Hc. apply Forall_cons_1 in Hc as [Hc _]. by apply int_char_plain.
Qed.

(** The three spellings of an integer. *)
Lemma parseMetricInt_print z u :
  in_int64 z -> u = [] \/ u = to_bytes " MiB" \/ u = to_bytes " %" -> parseMetricInt (Itoa z ++ u) = Some z.
Proof.
  intros Hz Hu. unfold parseMetricInt. cbn [foldl].
  assert (Ht : trim_bytes (Itoa z) = Itoa z).
  { apply trim_trimmed. rewrite <- (app_nil_r (Itoa z)). apply Itoa_trimmed. by left. }
  rewrite (trim_trimmed (Itoa z ++ u)) by (apply Itoa_trimmed; destruct Hu as [->|[->| ->]]; [by left|right..];
    eexists; (split; [done|vm_compute; split; discriminate])).
  destruct (Itoa_last z) as (d & Hd & HB & HP).
  assert (Hend : forall p e, last p = Some e -> e = "B"%char \/ e = "%"%char -> trim_suffix (Itoa z) p = Itoa z).
  { intros p e Hp He. eapply trim_suffix_no; [done|done|]. by destruct He; subst. }
  destruct Hu as [->|[->| ->]].
  - rewrite app_nil_r. rewrite (Hend _ "B"%char), Ht, (Hend _ "%"%char), Ht by auto. by apply Atoi_Itoa.
  - change (to_bytes " MiB") with ([" "%char] ++ to_bytes "MiB"). rewrite app_assoc, trim_suffix_app, trim_itoa_space.
    rewrite (Hend _ "%"%char), Ht by auto. by apply Atoi_Itoa.
  - rewrite (trim_suffix_no (Itoa z ++ _) (to_bytes "MiB") "%"%char "B"%char) by (rewrite ?last_app; done).
    rewrite (trim_trimmed (Itoa z ++ _)) by (apply Itoa_trimmed; right; eexists; split; [done|vm_compute; split; discriminate]).
    change (to_bytes " %") with ([" "%char] ++ to_bytes "%"). rewrite app_assoc, trim_suffix_app, trim_itoa_space.
    by apply Atoi_Itoa.
Qed.

(** ** Lemmas: lines and fields *)

Definition no_char (c : ascii) (s : bytes) : Prop := Forall (fun d => d <> c) s.

Lemma no_char_lit c s : forallb (fun d => negb (Ascii.eqb d c)) (to_bytes s) = true -> no_char c (to_bytes s).
Proof.
  intros E. apply Forall_forall. intros x Hx%list_elem_of_In ->. apply (proj1 (forallb_forall _ _) E) in Hx.
  by rewrite Ascii.eqb_refl in Hx.
Qed.

Fixpoint join (f : bytes) (fs : list bytes) : bytes :=
  match fs with [] => f | g :: gs => f ++ sep ++ join g gs end.

Lemma fields_join fs : forall f,
  Forall (no_char ",") (f :: fs) -> Forall trimmed (f :: fs) -> splitCSVFields (join f fs) = f :: fs.
Proof.
  unfold splitCSVFields. induction fs as [|g fs IH]; intros f Hn Ht; apply Forall_cons_1 in Hn as [Hf Hn];
    apply Forall_cons_1 in Ht as [Htf Ht]; cbn [join].
  - rewrite split_no_sep by done. cbn. by rewrite trim_trimmed.
  - change (sep ++ join g fs) with (","%char :: " "%char :: join g fs). rewrite split_app by done. cbn [fmap list_fmap].
    rewrite trim_trimmed by done. f_equal. specialize (IH g Hn Ht).
    cbn [split]. destruct (split "," (join g fs)) as [|p ps] eqn:E; [by apply (f_equal length) in IH|].
    change (("," =? " ")%char) with false. cbn iota. rewrite fmap_cons, trim_lead in *. exact IH.
Qed.

(** A line with something at both ends. *)
Definition solid (l : bytes) : Prop :=
  no_char LF l /\ (exists c t, l = c :: t /\ plain c) /\ (exists t d, l = t ++ [d] /\ plain d).

Lemma solid_trimmed l : solid l -> trimmed l.
Proof.
  intros (_ & (c & t & E & Hc) & u & d & E' & Hd). apply (trimmed_plain l c d); [by rewrite E|by rewrite E', last_snoc|done|done].
Qed.

Lemma lines_body ls : forall l, Forall solid (l :: ls) ->
  exists body, print_lines (l :: ls) = body ++ [LF] /\ split LF body = l :: ls /\
    (exists c t, body = c :: t /\ plain c) /\ (exists t d, body = t ++ [d] /\ plain d).
Proof.
  induction ls as [|m ls IH]; intros l [(Hn & (c & t & E & Hc) & u & d & E' & Hd) Hls]%Forall_cons_1.
  - exists l. unfold print_lines. cbn. rewrite app_nil_r, split_no_sep by done. split_and!; eauto.
  - destruct (IH m Hls) as (body & Hb & Hs & _ & u' & d' & E2 & Hd'). exists (l ++ LF :: body).
    unfold print_lines in *. cbn [List.map concat] in *. rewrite Hb, split_app, Hs by done. split_and!; [|done|..].
    + by rewrite <- !app_assoc.
    + rewrite E. cbn [app]. eauto.
    + exists (l ++ LF :: u'), d'. rewrite E2. by rewrite <- app_assoc.
Qed.

(** A printed text of such lines is split into those lines. *)
Lemma lines_print ls : Forall solid ls -> splitCSVLines (print_lines ls) = ls.
Proof.
  intros H. unfold splitCSVLines. destruct ls as [|l ls]; [reflexivity|].
  destruct (lines_body ls l H) as (body & -> & Hs & (c & t & E & Hc) & u & d & E' & Hd).
  rewrite trim_tail; [|eapply trimmed_plain; [by rewrite E|by rewrite E', last_snoc|done|done]|by right|by rewrite E|eauto].
  rewrite Hs. assert (Hm : trim_bytes <$> (l :: ls) = l :: ls).
  { clear Hs. induction H as [|x xs Hx _ IH]; [done|]. rewrite fmap_cons, IH, trim_trimmed by (by apply solid_trimmed). done. }
  rewrite Hm. clear Hm Hs. induction H as [|x xs (_ & (c' & t' & Hx & _) & _) _ IH]; [done|].
  rewrite filter_cons_True by (by rewrite Hx). by rewrite IH.
Qed.

(** ** The theorem *)

(** A text that survives a CSV field. *)
Definition field_ok (f : bytes) : Prop := no_char "," f /\ no_char LF f /\ trimmed f.

Record gpu_ok (g : Snapshot) : Prop := {
  g_ints : Forall in_int64 [Index g; MemoryTotalMiB g; MemoryUsedMiB g; UtilizationGPU g; TemperatureC g];
  g_texts : Forall field_ok [UUID g; PCIBusID g; Name g];
  g_procs : Processes g = [];
}.

Record app_ok (up : bytes * (Z * bytes * option Z)) : Prop := {
  a_uuid : exists c t, up.1 = c :: t /\ plain c;
  a_texts : Forall field_ok [up.1; up.2.1.2];
  a_pid : in_int64 up.2.1.1;
  a_mem : from_option in_int64 True up.2.2;
}.

Lemma Itoa_field z u : u = [] \/ u = to_bytes " MiB" \/ u = to_bytes " %" -> field_ok (Itoa z ++ u).
Proof.
  intros Hu. destruct (Itoa_chars z) as [Hc _]. split_and!.
  1,2: apply Forall_app; split; [eapply Forall_impl; [exact Hc|]; intros x Hx; by apply int_char_plain|].
  1,2: destruct Hu as [->|[->| ->]]; [constructor|by apply no_char_lit..].
  apply Itoa_trimmed. destruct Hu as [->|[->| ->]]; [by left|right..]; eexists; (split; [done|vm_compute; split; discriminate]).
Qed.

Lemma splitCSVFields_join f fs : Forall field_ok (f :: fs) -> splitCSVFields (join f fs) = f :: fs.
Proof. intros H. apply fields_join; (eapply Forall_impl; [exact H|]); intros x Hx; apply Hx. Qed.

Lemma parse_gpu_print g : gpu_ok g -> parse_gpu_line (print_gpu g) = inr g.
Proof.
  intros [Hi Ht Hp]. unfold parse_gpu_line.
  assert (E : print_gpu g = join (Itoa (Index g) ++ []) [UUID g; PCIBusID g; Name g; Itoa (MemoryTotalMiB g) ++ to_bytes " MiB";
    Itoa (MemoryUsedMiB g) ++ to_bytes " MiB"; Itoa (UtilizationGPU g) ++ to_bytes " %"; Itoa (TemperatureC g) ++ []]).
  { unfold print_gpu. cbn [join]. by rewrite !app_nil_r, <- !app_assoc. }
  rewrite E, splitCSVFields_join.
  - repeat (apply Forall_cons_1 in Hi as [?Hz Hi]). unfold int_or.
    rewrite !parseMetricInt_print by auto. cbn [bind]. destruct g. cbn in *. by subst.
  - repeat (apply Forall_cons_1 in Ht as [?Hz Ht]). repeat (constructor; [first [assumption | apply Itoa_field; auto]|]). constructor.
Qed.

Lemma parse_app_print up : app_ok up -> parse_app_line (print_app up) = inr (up.1, app_process up).
Proof.
  destruct up as [uuid [[pid name] mem]]. intros [_ Ht Hp Hm]. cbn [fst snd] in *.
  repeat (apply Forall_cons_1 in Ht as [?Hz Ht]). unfold parse_app_line.
  set (m := match mem with Some m => Itoa m ++ to_bytes " MiB" | None => to_bytes "[N/A]" end).
  assert (Hf : field_ok m).
  { subst m. destruct mem as [m|]; [apply Itoa_field; auto|]. split_and!; [by apply no_char_lit..|]. split; vm_compute; reflexivity. }
  assert (E : print_app (uuid, (pid, name, mem)) = join uuid [Itoa pid ++ []; name; m]).
  { unfold print_app. cbn [join]. by rewrite app_nil_r. }
  rewrite E, splitCSVFields_join by (repeat (constructor; [first [assumption | apply Itoa_field; auto]|]); constructor).
  unfold int_or. rewrite parseMetricInt_print by auto. cbn [bind].
  assert (Hparse : parseOptionalMetricInt m = Some (default 0 mem)).
  { unfold parseOptionalMetricInt. rewrite (trim_trimmed m) by apply Hf. subst m. destruct mem as [m|]; [|reflexivity].
    rewrite bool_decide_eq_false_2; [by apply parseMetricInt_print; auto|].
    destruct (Itoa_chars m) as [Hc (c & t & Em)]. rewrite Em in Hc |- *. apply Forall_cons_1 in Hc as [Hc _].
    intros [?|[Hx|Hx]]; [done|..]; injection Hx as -> _; destruct Hc as [Hc|Hc]; by vm_compute in Hc. }
  by rewrite Hparse.
Qed.

Lemma parse_gpu_lines_app ls : forall acc, Forall gpu_ok ls -> parse_gpu_lines (print_gpu <$> ls) acc = inr (acc ++ ls).
Proof.
  induction ls as [|g ls IH]; intros acc H; [by rewrite app_nil_r|]. apply Forall_cons_1 in H as [Hg H].
  rewrite fmap_cons. cbn [parse_gpu_lines]. rewrite parse_gpu_print by done. cbn [bind]. by rewrite IH, <- app_assoc.
Qed.

(** The processes of one GPU, in the order of the query. *)
Definition of_uuid (apps : list (bytes * (Z * bytes * option Z))) (uuid : bytes) : list Process :=
  app_process <$> filter (fun up => up.1 = uuid) apps.

Lemma parse_app_lines_spec apps : forall m, Forall app_ok apps ->
  exists m', parse_app_lines (print_app <$> apps) m = inr m' /\ forall u, procs_of m' u = procs_of m u ++ of_uuid apps u.
Proof.
  induction apps as [|up apps IH]; intros m H; [exists m; split; [done|]; intros u; by rewrite app_nil_r|].
  apply Forall_cons_1 in H as [Hu H]. rewrite fmap_cons. cbn [parse_app_lines]. rewrite parse_app_print by done. cbn [bind fst snd].
  destruct (IH (<[up.1:=procs_of m up.1 ++ [app_process up]]> m) H) as (m' & Hm & Hp). exists m'. split; [exact Hm|].
  intros u. rewrite Hp. unfold of_uuid, procs_of. rewrite filter_cons. destruct (decide (up.1 = u)) as [<-|Hne].
  - rewrite lookup_insert_eq. cbn. by rewrite <- app_assoc.
  - by rewrite lookup_insert_ne.
Qed.

Definition ends_plain (s : bytes) : Prop := exists t d, s = t ++ [d] /\ plain d.

Lemma ends_app a s : ends_plain s -> ends_plain (a ++ s).
Proof. intros (t & d & -> & Hd). exists (a ++ t), d. by rewrite <- app_assoc. Qed.

Lemma Itoa_ends z : ends_plain (Itoa z).
Proof.
  destruct (Itoa_last z) as (d & Hd & _). pose proof Hd as Hd'. apply last_Some in Hd as [l E]. exists l, d. split; [done|].
  apply last_Some_elem_of in Hd'. destruct (Itoa_chars z) as [Hc _]. eapply Forall_forall in Hc; [|done]. by apply int_char_plain.
Qed.

Lemma print_gpu_solid g : gpu_ok g -> solid (print_gpu g).
Proof.
  intros [_ Ht _]. destruct (Itoa_chars (Index g)) as [Hi (c & t & Ei)]. unfold print_gpu.
  assert (Hint : forall z, no_char LF (Itoa z)).
  { intros z. destruct (Itoa_chars z) as [Hc _]. eapply Forall_impl; [exact Hc|]. intros x Hx. by apply int_char_plain. }
  repeat (apply Forall_cons_1 in Ht as [(_ & ?Hz & _) Ht]). split_and!.
  - repeat apply Forall_app_2; first [assumption | apply Hint | by apply no_char_lit].
  - rewrite Ei. eexists _, _. split; [reflexivity|]. rewrite Ei in Hi. apply Forall_cons_1 in Hi as [Hi _]. by apply int_char_plain.
  - repeat apply ends_app. apply Itoa_ends.
Qed.

Lemma print_app_solid up : app_ok up -> solid (print_app up).
Proof.
  destruct up as [uuid [[pid name] mem]]. intros [(c & t & E & Hc) Ht _ _]. cbn [fst snd] in *.
  repeat (apply Forall_cons_1 in Ht as [(_ & ?Hz & _) Ht]).
  assert (Hint : forall z, no_char LF (Itoa z)).
  { intros z. destruct (Itoa_chars z) as [Hi _]. eapply Forall_impl; [exact Hi|]. intros x Hx. by apply int_char_plain. }
  unfold print_app. split_and!.
  - destruct mem; repeat apply Forall_app_2; first [assumption | apply Hint | by apply no_char_lit].
  - rewrite E. eexists _, _. split; [reflexivity|done].
  - repeat apply ends_app. destruct mem as [m|]; [apply ends_app; exists (to_bytes " Mi"), "B"%char|exists (to_bytes "[N/A"), "]"%char];
      (split; [reflexivity|vm_compute; split; discriminate]).
Qed.

(** The probe reads back what [nvidia-smi] printed: every GPU of the first query
    with its figures, in order, each with exactly the processes the second query
    lists under its UUID, in order, an unavailable memory figure counting as
    zero. *)
Theorem collect_reads_back gpus apps :
  Forall gpu_ok gpus -> Forall app_ok apps ->
  CollectSnapshots (inr (print_lines (print_gpu <$> gpus))) (inr (print_lines (print_app <$> apps)))
  = inr ((fun g => with_processes g (of_uuid apps (UUID g))) <$> gpus).
Proof.
  intros Hg Ha. unfold CollectSnapshots, ParseGPUCSV, ParseComputeAppsCSV. cbn [bind].
  rewrite !lines_print by (apply Forall_fmap; eapply Forall_impl; [eassumption|]; eauto using print_gpu_solid, print_app_solid).
  rewrite parse_gpu_lines_app by done. cbn [bind app].
  destruct (parse_app_lines_spec apps ∅ Ha) as (m & -> & Hm). cbn [bind]. f_equal. unfold AttachProcesses.
  apply list_fmap_ext. intros i g _. rewrite Hm. unfold procs_of at 1. by rewrite lookup_empty.
Qed.

(** ** Witness *)

Definition ex_gpu : Snapshot :=
  {| Index := 0; UUID := to_bytes "GPU-1"; PCIBusID := to_bytes "00000000:01:00.0"; Name := to_bytes "RTX 4090";
     MemoryTotalMiB := 24564; MemoryUsedMiB := 512; UtilizationGPU := 7; TemperatureC := 41; Processes := [] |}.
Definition ex_apps : list (bytes * (Z * bytes * option Z)) :=
  [(to_bytes "GPU-1", (4242, to_bytes "vllm", Some 400)); (to_bytes "GPU-2", (7, to_bytes "x", Some 1));
   (to_bytes "GPU-1", (9, to_bytes "y", None))].

Lemma collect_reads_back_witness :
  exists gs, CollectSnapshots (inr (print_lines (print_gpu <$> [ex_gpu]))) (inr (print_lines (print_app <$> ex_apps))) = inr gs /\
    (length ∘ Processes) <$> gs = [2%nat].
Proof.
  eexists. split; [apply (collect_reads_back [ex_gpu] ex_apps)|vm_compute; reflexivity].
  - repeat constructor; vm_compute; discriminate.
  - repeat constructor; try (vm_compute; discriminate); eexists _, _; (split; [reflexivity|vm_compute; split; discriminate]).
Defined.

End GpuProbe.
