(* ===== verification/Circuit.v ===== *)
(** * The per-upstream circuit breaker

    Models [src/internal/circuit/breaker.go]: the three-state breaker
    consulted by node selection and scored by the failover loop.  The mutex
    makes every method one atomic step, so a method is a function on the
    breaker record; the injected clock is the [now] argument. *)

From Stdlib Require Import ZArith Lia.
From stdpp Require Import base option list gmap strings.
From S2P Require Import Prelude.

Module Circuit.

(** [State] is a Go string; [Other] is any string but the three constants (the
    zero value of a breaker built without [NewBreaker], for instance). *)
Inductive State : Type :=
| Closed
| Open
| HalfOpen
| Other (s : string).

#[export] Instance State_eq_dec : EqDecision State.
Proof. solve_decision. Defined.

Definition state_string (s : State) : string :=
  match s with
  | Closed => "closed"
  | Open => "open"
  | HalfOpen => "half_open"
  | Other s => s
  end.

(** The breaker.  [gauge] is the row of the Prometheus [StateGauge] of this
    breaker's node, label to value, as the breaker last wrote it. *)
Record Breaker := {
  state : State;
  failures : Z;
  threshold : Z;
  cooldown : Duration;
  openedAt : Time;
  nodeName : string;
  gauge : gmap string Z;
}.

Definition set_state (cb : Breaker) (s : State) : Breaker :=
  {| state := s; failures := failures cb; threshold := threshold cb;
     cooldown := cooldown cb; openedAt := openedAt cb; nodeName := nodeName cb;
     gauge := gauge cb |}.

Definition set_failures (cb : Breaker) (n : Z) : Breaker :=
  {| state := state cb; failures := n; threshold := threshold cb;
     cooldown := cooldown cb; openedAt := openedAt cb; nodeName := nodeName cb;
     gauge := gauge cb |}.

Definition set_openedAt (cb : Breaker) (t : Time) : Breaker :=
  {| state := state cb; failures := failures cb; threshold := threshold cb;
     cooldown := cooldown cb; openedAt := t; nodeName := nodeName cb;
     gauge := gauge cb |}.

Definition set_nodeName (cb : Breaker) (n : string) : Breaker :=
  {| state := state cb; failures := failures cb; threshold := threshold cb;
     cooldown := cooldown cb; openedAt := openedAt cb; nodeName := n;
     gauge := gauge cb |}.

Definition set_gauge (cb : Breaker) (g : gmap string Z) : Breaker :=
  {| state := state cb; failures := failures cb; threshold := threshold cb;
     cooldown := cooldown cb; openedAt := openedAt cb; nodeName := nodeName cb;
     gauge := g |}.

Definition NewBreaker (threshold : Z) (cooldown : Duration) : Breaker :=
  {| state := Closed;
     failures := 0;
     threshold := if threshold <=? 0 then 5 else threshold;
     cooldown := if cooldown <=? 0 then 30 * Second else cooldown;
     openedAt := time_zero;
     nodeName := "";
     gauge := ∅ |}.

(** [recordState] writes one gauge sample per state constant. *)
Definition recordState (cb : Breaker) (st : State) : Breaker :=
  if nodeName cb =s "" then cb
  else
    set_gauge cb
      (foldl (fun g s => <[state_string s := if decide (s = st) then 1 else 0]> g)
         (gauge cb) [Closed; Open; HalfOpen]).

Definition transition (cb : Breaker) (next : State) : Breaker :=
  recordState (set_state cb next) next.

Definition WithName (cb : Breaker) (name : string) : Breaker :=
  let cb := set_nodeName cb name in recordState cb (state cb).

(** The routing-time check; an open breaker past its cooldown moves to
    half-open as a side effect. *)
Definition Allow (now : Time) (cb : Breaker) : bool * Breaker :=
  match state cb with
  | Closed => (true, cb)
  | Open =>
      if cooldown cb <=? time_sub now (openedAt cb)
      then (true, transition cb HalfOpen)
      else (false, cb)
  | HalfOpen => (true, cb)
  | Other _ => (true, cb)
  end.

Definition RecordSuccess (cb : Breaker) : Breaker :=
  let cb := set_failures cb 0 in
  if decide (state cb = Closed) then cb else transition cb Closed.

Definition RecordFailure (now : Time) (cb : Breaker) : Breaker :=
  match state cb with
  | HalfOpen => transition (set_openedAt cb now) Open
  | Closed =>
      let cb := set_failures cb (i64_add (failures cb) 1) in
      if threshold cb <=? failures cb
      then transition (set_openedAt cb now) Open
      else cb
  | Open => cb
  | Other _ => cb
  end.

Definition GetState (cb : Breaker) : State := state cb.

Record BreakerStats := {
  StState : State;
  ConsecutiveFailures : Z;
  Threshold : Z;
  CooldownRemaining : Duration;
  NodeName : string;
}.

Definition Stats (now : Time) (cb : Breaker) : BreakerStats :=
  {| StState := state cb;
     ConsecutiveFailures := failures cb;
     Threshold := threshold cb;
     CooldownRemaining :=
       (if decide (state cb = Open) then
          let elapsed := time_sub now (openedAt cb) in
          let remaining := wrap64 (cooldown cb - elapsed) in
          if remaining <? 0 then 0 else remaining
        else 0);
     NodeName := nodeName cb |}.

(** ** Histories

    One method call of a caller, and the breaker after a history of calls. *)
Inductive op : Type :=
| OpAllow (now : Time)
| OpSuccess
| OpFailure (now : Time).

Definition apply_op (cb : Breaker) (o : op) : Breaker :=
  match o with
  | OpAllow now => snd (Allow now cb)
  | OpSuccess => RecordSuccess cb
  | OpFailure now => RecordFailure now cb
  end.

Definition run (cb : Breaker) (ops : list op) : Breaker := foldl apply_op cb ops.

(** The answers the [Allow] calls of a history return, in order. *)
Fixpoint allow_answers (cb : Breaker) (ops : list op) : list bool :=
  match ops with
  | [] => []
  | o :: ops' =>
      match o with
      | OpAllow now => [fst (Allow now cb)]
      | _ => []
      end ++ allow_answers (apply_op cb o) ops'
  end.

(** ** Specification

    The contract is stated on the history alone: the number of failures since
    the last success decides whether a breaker that is never asked has
    tripped. *)
Fixpoint trailing_failures (acc : Z) (ops : list op) : Z :=
  match ops with
  | [] => acc
  | OpFailure _ :: ops' => trailing_failures (acc + 1) ops'
  | OpSuccess :: ops' => trailing_failures 0 ops'
  | OpAllow _ :: ops' => trailing_failures acc ops'
  end.

Definition is_allow (o : op) : bool := match o with OpAllow _ => true | _ => false end.
Definition is_success (o : op) : bool := match o with OpSuccess => true | _ => false end.

Definition op_time (o : op) : option Time :=
  match o with OpAllow t | OpFailure t => Some t | OpSuccess => None end.

(** A breaker as [NewBreaker] builds it and the methods keep it. *)
Record wf (cb : Breaker) : Prop := {
  wf_threshold : 0 < threshold cb <= max_int64;
  wf_cooldown : 0 < cooldown cb <= max_int64;
  wf_failures : 0 <= failures cb <= threshold cb;
  wf_closed : state cb = Closed -> failures cb < threshold cb;
  wf_state : forall s, state cb <> Other s;
}.

(** The gauge row of a named breaker is one-hot on the current state. *)
Definition gauge_ok (cb : Breaker) : Prop :=
  nodeName cb <> "" ->
  forall s, In s [Closed; Open; HalfOpen] ->
  gauge cb !! state_string s = Some (if decide (s = state cb) then 1 else 0).

(** ** Lemmas *)

(** What a transition leaves alone. *)
Lemma transition_fields cb s :
  state (transition cb s) = s /\ failures (transition cb s) = failures cb /\
  threshold (transition cb s) = threshold cb /\
  cooldown (transition cb s) = cooldown cb /\
  openedAt (transition cb s) = openedAt cb /\
  nodeName (transition cb s) = nodeName cb.
Proof. unfold transition, recordState; case_match; auto 10. Qed.

Lemma transition_wf cb s :
  wf cb -> s = HalfOpen \/ s = Open \/ (s = Closed /\ failures cb < threshold cb) ->
  wf (transition cb s).
Proof.
  intros [] Hs.
  destruct (transition_fields cb s) as (E1 & E2 & E3 & E4 & _).
  constructor; rewrite ?E1, ?E2, ?E3, ?E4; auto; destruct Hs as [->|[->|[-> ?]]]; done.
Qed.

Lemma NewBreaker_wf t c :
  t <= max_int64 -> c <= max_int64 -> wf (NewBreaker t c).
Proof.
  intros Ht Hc; unfold NewBreaker, Second.
  constructor; simpl; try discriminate; unfold max_int64 in *; zbool; lia.
Qed.

Lemma Allow_wf now cb : wf cb -> wf (snd (Allow now cb)).
Proof.
  intros H; unfold Allow; repeat case_match; simpl; auto.
  apply transition_wf; auto.
Qed.

Lemma RecordSuccess_wf cb : wf cb -> wf (RecordSuccess cb).
Proof.
  intros []; unfold RecordSuccess.
  assert (wf (set_failures cb 0)) by (constructor; simpl; auto; lia).
  case_match; auto. apply transition_wf; auto; simpl; right; right; split; [done | lia].
Qed.

Lemma RecordFailure_wf now cb : wf cb -> wf (RecordFailure now cb).
Proof.
  intros Hwf; pose proof Hwf as []; unfold RecordFailure.
  destruct (state cb) eqn:E; auto.
  - assert (Hadd : i64_add (failures cb) 1 = failures cb + 1)
      by (apply i64_add_small; unfold in_int64, min_int64, max_int64 in *; specialize (wf_closed0 eq_refl); lia).
    specialize (wf_closed0 eq_refl). simpl; rewrite Hadd.
    destruct (Z.leb_spec (threshold cb) (failures cb + 1)).
    + destruct (transition_fields (set_openedAt (set_failures cb (failures cb + 1)) now) Open)
        as (E1 & E2 & E3 & E4 & _); simpl in *.
      constructor; rewrite ?E1, ?E2, ?E3, ?E4; try done; lia.
    + constructor; simpl; try rewrite E; try done; lia.
  - apply transition_wf; [constructor; simpl; auto; rewrite E; done | auto].
Qed.

Lemma apply_op_wf cb o : wf cb -> wf (apply_op cb o).
Proof. destruct o; simpl; auto using Allow_wf, RecordSuccess_wf, RecordFailure_wf. Qed.

Lemma run_wf cb ops : wf cb -> wf (run cb ops).
Proof. revert cb; induction ops; simpl; auto using apply_op_wf. Qed.

#[export] Hint Resolve NewBreaker_wf run_wf apply_op_wf : go.

(** The gauge after a recorded state is one-hot on that state. *)
Lemma recordState_gauge cb st :
  nodeName cb <> "" -> forall s, In s [Closed; Open; HalfOpen] ->
  gauge (recordState cb st) !! state_string s = Some (if decide (s = st) then 1 else 0).
Proof.
  intros Hn s Hin; unfold recordState.
  destruct (String.eqb_spec (nodeName cb) ""); [done|]; simpl.
  destruct Hin as [<-|[<-|[<-|[]]]]; by simplify_map_eq.
Qed.

Lemma transition_gauge_ok cb st : gauge_ok (transition cb st).
Proof.
  intros Hn s Hin. destruct (transition_fields cb st) as (E & _ & _ & _ & _ & En).
  rewrite En in Hn; rewrite E. by apply recordState_gauge.
Qed.

Lemma apply_op_gauge_ok cb o : gauge_ok cb -> gauge_ok (apply_op cb o).
Proof.
  intros H; destruct o; simpl; unfold Allow, RecordSuccess, RecordFailure;
    repeat (case_match; simpl); auto using transition_gauge_ok.
Qed.

Lemma apply_op_name cb o : nodeName (apply_op cb o) = nodeName cb.
Proof.
  destruct o; simpl; unfold Allow, RecordSuccess, RecordFailure;
    repeat (case_match; simpl); auto;
    match goal with |- context [transition ?c ?s] =>
      destruct (transition_fields c s) as (_ & _ & _ & _ & _ & ->) end; auto.
Qed.

(** Thresholds never change after construction. *)
Lemma apply_op_threshold cb o :
  threshold (apply_op cb o) = threshold cb /\ cooldown (apply_op cb o) = cooldown cb.
Proof.
  destruct o; simpl; unfold Allow, RecordSuccess, RecordFailure;
    repeat (case_match; simpl); auto;
    match goal with |- context [transition ?c ?s] =>
      destruct (transition_fields c s) as (_ & _ & -> & -> & _) end; auto.
Qed.

(** The relation between a breaker nobody asks and the number of failures
    since its last success. *)
Definition counts (cb : Breaker) (n : Z) : Prop :=
  (state cb = Closed /\ failures cb = n /\ n < threshold cb) \/
  (state cb = Open /\ threshold cb <= n).

Lemma apply_op_counts cb n o :
  wf cb -> counts cb n -> is_allow o = false -> counts (apply_op cb o) (trailing_failures n [o]).
Proof.
  intros Hwf Hc Ho; destruct o as [|  | now]; [done | |]; simpl; pose proof Hwf as [].
  - left. unfold RecordSuccess; case_decide; simpl in *.
    + repeat split; auto; lia.
    + destruct (transition_fields (set_failures cb 0) Closed) as (-> & -> & -> & _).
      simpl; repeat split; auto; lia.
  - unfold RecordFailure. destruct Hc as [(E & Ef & Hlt)|(E & Hle)]; rewrite E; simpl.
    + rewrite i64_add_small by (unfold in_int64, min_int64, max_int64 in *; lia).
      destruct (Z.leb_spec (threshold cb) (failures cb + 1)).
      * right. match goal with |- context [transition ?c ?s] =>
          destruct (transition_fields c s) as (-> & _ & -> & _) end. simpl; split; [done | lia].
      * left; simpl; repeat split; auto; lia.
    + right; split; [done | lia].
Qed.

Lemma run_counts cb n ops :
  wf cb -> counts cb n -> Forall (fun o => is_allow o = false) ops ->
  counts (run cb ops) (trailing_failures n ops).
Proof.
  revert cb n; induction ops as [|o ops IH]; intros cb n Hwf Hc Hall; [done|].
  inversion_clear Hall.
  pose proof (apply_op_counts cb n o Hwf Hc ltac:(done)) as Hc'.
  specialize (IH _ _ (apply_op_wf _ o Hwf) Hc' ltac:(done)).
  by destruct o.
Qed.

(** Before the cooldown has elapsed nothing but a success moves an open
    breaker. *)
Lemma open_op_stays cb o :
  wf cb -> state cb = Open -> is_success o = false ->
  (forall t, op_time o = Some t -> t < openedAt cb + cooldown cb) ->
  apply_op cb o = cb.
Proof.
  intros [] E Ho Ht; destruct o as [t| |t]; [| done |]; simpl; unfold Allow, RecordFailure; rewrite E; auto.
  specialize (Ht t eq_refl).
  destruct (Z.leb_spec (cooldown cb) (time_sub t (openedAt cb))) as [Hc|]; auto.
  apply time_sub_ge in Hc; unfold min_int64, max_int64 in *; lia.
Qed.

(** ** Theorems *)

(** A fresh breaker that is scored by any history of successes
    and failures is open exactly when the failures since the last success have
    reached the (defaulted) threshold, and is closed otherwise. *)
Theorem breaker_trips_at_threshold t c ops :
  t <= max_int64 -> c <= max_int64 ->
  Forall (fun o => is_allow o = false) ops ->
  let cb := run (NewBreaker t c) ops in
  (state cb = Open <-> threshold (NewBreaker t c) <= trailing_failures 0 ops) /\
  (state cb = Closed <-> trailing_failures 0 ops < threshold (NewBreaker t c)).
Proof.
  intros Ht Hc Hops cb.
  assert (Hwf := NewBreaker_wf t c Ht Hc).
  assert (Hthr : threshold cb = threshold (NewBreaker t c)).
  { subst cb; generalize (NewBreaker t c); clear; induction ops as [|o ops IH]; intros b; [done|].
    simpl. rewrite IH. apply apply_op_threshold. }
  assert (Hcnt : counts cb (trailing_failures 0 ops)).
  { apply run_counts; auto. left; repeat split; auto. apply Hwf. }
  rewrite <- Hthr.
  destruct Hcnt as [(-> & _ & ?)|(-> & ?)]; split; split; intros; try done; lia.
Qed.

(** An open breaker refuses every call until its cooldown has elapsed or a
    success is recorded, whatever else is recorded meanwhile. *)
Theorem breaker_open_refuses cb ops :
  wf cb -> state cb = Open ->
  Forall (fun o => is_success o = false) ops ->
  Forall (fun o => forall t, op_time o = Some t -> t < openedAt cb + cooldown cb) ops ->
  Forall (fun a => a = false) (allow_answers cb ops) /\ run cb ops = cb.
Proof.
  intros Hwf E Hs Ht; induction ops as [|o ops IH]; [by split; [constructor|]|].
  inversion_clear Hs as [|? ? Ho Hs']; inversion_clear Ht as [|? ? Hto Ht'].
  simpl. rewrite (open_op_stays cb o) by auto.
  destruct (IH Hs' Ht') as [IHa IHr]. split; [|done].
  apply Forall_app; split; [|done].
  destruct o as [t| |]; constructor; auto.
  unfold Allow; rewrite E.
  destruct (Z.leb_spec (cooldown cb) (time_sub t (openedAt cb))) as [Hc|]; [|done].
  destruct Hwf; specialize (Hto t eq_refl).
  apply time_sub_ge in Hc; unfold min_int64, max_int64 in *; lia.
Qed.

(** Once the cooldown has elapsed an open breaker admits a probe and becomes
    half-open; the probe's success closes it with a clean count, its failure
    reopens it from the instant of the failure. *)
Theorem breaker_probe_cycle cb now now' :
  wf cb -> state cb = Open -> openedAt cb + cooldown cb <= now ->
  exists hb, Allow now cb = (true, hb) /\ state hb = HalfOpen /\
    state (RecordSuccess hb) = Closed /\ failures (RecordSuccess hb) = 0 /\
    state (RecordFailure now' hb) = Open /\ openedAt (RecordFailure now' hb) = now'.
Proof.
  intros [] E Hnow. exists (transition cb HalfOpen).
  destruct (transition_fields cb HalfOpen) as (Es & _ & _ & _ & _).
  unfold Allow, RecordSuccess, RecordFailure; rewrite E, Es; simpl.
  destruct (Z.leb_spec (cooldown cb) (time_sub now (openedAt cb))) as [|Hc].
  - rewrite Es, decide_False by done.
    destruct (transition_fields (set_failures (transition cb HalfOpen) 0) Closed) as (-> & -> & _).
    destruct (transition_fields (set_openedAt (transition cb HalfOpen) now') Open) as (-> & _ & _ & _ & -> & _).
    auto 10.
  - apply time_sub_lt in Hc; unfold min_int64, max_int64 in *; lia.
Qed.

(** The gauge of a named breaker is 1 in exactly the current state and 0 in the
    two others, after any history. *)
Theorem breaker_gauge_one_hot t c name ops :
  gauge_ok (run (WithName (NewBreaker t c) name) ops).
Proof.
  assert (H : gauge_ok (WithName (NewBreaker t c) name)).
  { intros Hn s Hin. unfold WithName in *.
    assert (Hnn : name <> "").
    { unfold recordState in Hn; simpl in Hn. by destruct (String.eqb_spec name ""); simpl in Hn. }
    rewrite recordState_gauge by done.
    unfold recordState; by destruct (String.eqb_spec (nodeName (set_nodeName (NewBreaker t c) name)) ""). }
  revert H; generalize (WithName (NewBreaker t c) name).
  induction ops as [|o ops IH]; intros b Hb; [done|]. apply IH, apply_op_gauge_ok, Hb.
Qed.

(** The cooldown [Stats] reports agrees with the routing check: on a breaker
    opened in the past it lies between 0 and the cooldown, and is 0 exactly when
    [Allow] would admit a call. *)
Theorem breaker_stats_agree now cb :
  wf cb -> state cb = Open -> openedAt cb <= now ->
  0 <= CooldownRemaining (Stats now cb) <= cooldown cb /\
  (CooldownRemaining (Stats now cb) = 0 <-> fst (Allow now cb) = true).
Proof.
  intros [] E Hnow. unfold Stats, Allow; simpl. rewrite decide_True, E by done.
  assert (Hs : 0 <= time_sub now (openedAt cb) <= max_int64)
    by (unfold time_sub, min_int64, max_int64 in *; lia).
  rewrite wrap64_small by (unfold in_int64, min_int64, max_int64 in *; lia).
  split.
  - destruct (Z.ltb_spec (cooldown cb - time_sub now (openedAt cb)) 0); lia.
  - destruct (Z.ltb_spec (cooldown cb - time_sub now (openedAt cb)) 0),
      (Z.leb_spec (cooldown cb) (time_sub now (openedAt cb))); simpl; split; intros; try done; lia.
Qed.

(** ** Witnesses *)

Definition ex_history : list op := [OpFailure 1; OpSuccess; OpFailure 2; OpFailure 3; OpFailure 4].

Lemma breaker_trips_at_threshold_witness :
  trailing_failures 0 ex_history = 3 /\ state (run (NewBreaker 3 10) ex_history) = Open.
Proof.
  split; [reflexivity|]. apply (breaker_trips_at_threshold 3 10 ex_history).
  - vm_compute. discriminate.
  - vm_compute. discriminate.
  - repeat constructor.
  - vm_compute. discriminate.
Defined.

Lemma breaker_open_refuses_witness :
  allow_answers (run (NewBreaker 3 10) ex_history) [OpAllow 5; OpFailure 6; OpAllow 13] = [false; false] /\
  run (run (NewBreaker 3 10) ex_history) [OpAllow 5; OpFailure 6; OpAllow 13] = run (NewBreaker 3 10) ex_history.
Proof.
  split; [reflexivity|].
  apply (breaker_open_refuses (run (NewBreaker 3 10) ex_history) [OpAllow 5; OpFailure 6; OpAllow 13]).
  - apply run_wf, NewBreaker_wf; vm_compute; discriminate.
  - reflexivity.
  - repeat constructor.
  - repeat (apply Forall_cons; split); try apply Forall_nil_2; intros t Ht; injection Ht as <-; vm_compute; reflexivity.
Defined.

End Circuit.
