(* ===== verification/Float64.v ===== *)
(** * float64

    The source computes budget ratios and token buckets in [float64].  The
    library models [float64] by the executable IEEE 754 specification of the
    Standard Library ([SpecFloat]) at precision 53 and maximal exponent 1024,
    rounding to nearest even like Go, and proves the facts the budget code
    relies on: integers below 2^53 convert exactly and order-preservingly, and
    multiplication by 1 is exact on them. *)

From Stdlib Require Import ZArith Lia SpecFloat.
From stdpp Require Import base tactics.
From S2P Require Import Prelude.

Module Float64.

Abbreviation float64 := spec_float.

(** [float64(z)] for an integer [z]. *)
Definition of_int (z : Z) : float64 := binary_normalize 53 1024 z 0 false.

Definition mul (x y : float64) : float64 := SFmul 53 1024 x y.
Definition add (x y : float64) : float64 := SFadd 53 1024 x y.
Definition sub (x y : float64) : float64 := SFsub 53 1024 x y.
Definition div (x y : float64) : float64 := SFdiv 53 1024 x y.
Definition leb (x y : float64) : bool := SFleb x y.
Definition ltb (x y : float64) : bool := SFltb x y.

Definition zero : float64 := of_int 0.
Definition one : float64 := of_int 1.

(** The float64 literal [0.8]: the quotient 4/5 correctly rounded. *)
Definition f0_8 : float64 := div (of_int 4) (of_int 5).

(** [d.Seconds()] of a duration. *)
Definition Seconds (d : Duration) : float64 :=
  add (of_int (Z.quot d Second)) (div (of_int (Z.rem d Second)) (of_int 1000000000)).

(** ** Lemmas *)

Lemma digits_bounds (m : positive) :
  2 ^ (Zpos (digits2_pos m) - 1) <= Zpos m < 2 ^ Zpos (digits2_pos m).
Proof.
  assert (Hs : forall p, 2 ^ Zpos (Pos.succ p) = 2 * 2 ^ Zpos p)
    by (intros p; rewrite Pos2Z.inj_succ, Z.pow_succ_r by lia; done).
  assert (Hp : forall p, 2 ^ (Zpos (Pos.succ p) - 1) = 2 * 2 ^ (Zpos p - 1)).
  { intros p. replace (Zpos (Pos.succ p) - 1) with (Z.succ (Zpos p - 1)) by lia.
    by rewrite Z.pow_succ_r by lia. }
  induction m as [m IH|m IH|]; simpl digits2_pos; [| | done]; rewrite Hs, Hp; lia.
Qed.

Lemma digits_lt (m : positive) n : 0 <= n -> Zpos m < 2 ^ n -> Zpos (digits2_pos m) <= n.
Proof.
  intros Hn Hm. pose proof (digits_bounds m) as [H _].
  assert (Zpos (digits2_pos m) - 1 < n); [|lia].
  apply (Z.pow_lt_mono_r_iff 2); lia.
Qed.

Lemma digits_iter_xO (m d : positive) :
  Zpos (digits2_pos (Pos.iter xO m d)) = Zpos (digits2_pos m) + Zpos d.
Proof.
  induction d as [|d IH] using Pos.peano_ind; [simpl; lia|].
  rewrite Pos.iter_succ. simpl. lia.
Qed.

Lemma iter_xO_val (m d : positive) : Zpos (Pos.iter xO m d) = Zpos m * 2 ^ Zpos d.
Proof.
  induction d as [|d IH] using Pos.peano_ind; [simpl; lia|].
  rewrite Pos.iter_succ, Pos2Z.inj_succ, Z.pow_succ_r by lia.
  rewrite Pos2Z.inj_xO, IH. lia.
Qed.

(** A 53-digit mantissa with an exponent in range is left alone by rounding. *)
Lemma round_exact s m e :
  Zpos (digits2_pos m) = 53 -> -1074 <= e <= 971 ->
  binary_round_aux 53 1024 s (Zpos m) e loc_Exact = S754_finite s m e.
Proof.
  intros Hd He. unfold binary_round_aux, shr_fexp, fexp, emin. simpl Zdigits2.
  rewrite Hd. replace (Z.max (53 + e - 53) (3 - 1024 - 53) - e) with 0 by lia.
  simpl. rewrite Hd. replace (Z.max (53 + e - 53) (3 - 1024 - 53) - e) with 0 by lia.
  unfold shr, shr_m. by rewrite (proj2 (Z.leb_le e (1024 - 53))) by lia.
Qed.

(** The canonical form of a positive integer below 2^53. *)
Lemma of_int_canonical (m : positive) :
  Zpos m < 2 ^ 53 ->
  exists m', of_int (Zpos m) = S754_finite false m' (Zpos (digits2_pos m) - 53) /\
    Zpos (digits2_pos m') = 53 /\ Zpos m' = Zpos m * 2 ^ (53 - Zpos (digits2_pos m)).
Proof.
  intros Hm. pose proof (digits_lt m 53 ltac:(lia) Hm) as Hd.
  unfold of_int, binary_normalize, binary_round, fexp, emin.
  replace (Z.max (Zpos (digits2_pos m) + 0 - 53) (3 - 1024 - 53))
    with (Zpos (digits2_pos m) - 53) by lia.
  unfold shl_align.
  destruct (Zpos (digits2_pos m) - 53 - 0) as [|d|d] eqn:E; [| lia |].
  - exists m. replace (Zpos (digits2_pos m) - 53) with 0 by lia.
    replace (53 - Zpos (digits2_pos m)) with 0 by lia.
    rewrite round_exact by lia. split_and!; [done | lia | lia].
  - exists (Pos.iter xO m d).
    assert (Hdd : Zpos (digits2_pos (Pos.iter xO m d)) = 53)
      by (rewrite digits_iter_xO; lia).
    rewrite round_exact by lia. split_and!; [done | done |].
    rewrite iter_xO_val. do 2 f_equal. lia.
Qed.

(** Integers of the exact range compare as floats the way they compare as
    integers. *)
Lemma leb_of_int a b :
  0 <= a < 2 ^ 53 -> 0 <= b < 2 ^ 53 -> leb (of_int a) (of_int b) = (a <=? b).
Proof.
  intros Ha Hb. unfold leb, SFleb.
  destruct a as [|a|a], b as [|b|b]; try lia; try done.
  - destruct (of_int_canonical b) as (m & -> & _); [lia|]. done.
  - destruct (of_int_canonical a) as (m & -> & _); [lia|]. done.
  - destruct (of_int_canonical a) as (ma & -> & Hma & Ea); [lia|].
    destruct (of_int_canonical b) as (mb & -> & Hmb & Eb); [lia|].
    unfold SFcompare.
    pose proof (digits_bounds a) as Da. pose proof (digits_bounds b) as Db.
    destruct (Z.compare_spec (Zpos (digits2_pos a) - 53) (Zpos (digits2_pos b) - 53)) as [E|E|E].
    + change (Pos.compare_cont Eq ma mb) with (Pos.compare ma mb).
      assert (Hd : Zpos (digits2_pos a) = Zpos (digits2_pos b)) by lia.
      rewrite Hd in Ea.
      assert (Hpow : 0 < 2 ^ (53 - Zpos (digits2_pos b)))
        by (apply Z.pow_pos_nonneg; [lia|]; pose proof (digits_lt b 53); lia).
      destruct (Pos.compare_spec ma mb); symmetry; [apply Z.leb_le | apply Z.leb_le | apply Z.leb_gt]; nia.
    + symmetry; apply Z.leb_le.
      assert (2 ^ Zpos (digits2_pos a) <= 2 ^ (Zpos (digits2_pos b) - 1))
        by (apply Z.pow_le_mono_r; lia). lia.
    + symmetry; apply Z.leb_gt.
      assert (2 ^ Zpos (digits2_pos b) <= 2 ^ (Zpos (digits2_pos a) - 1))
        by (apply Z.pow_le_mono_r; lia). lia.
Qed.

Lemma mul_one_finite m e :
  Zpos (digits2_pos m) = 53 -> -1074 <= e <= 971 ->
  mul one (S754_finite false m e) = S754_finite false m e.
Proof.
  intros Hd He. unfold mul.
  replace one with (S754_finite false 4503599627370496 (-52)) by (vm_compute; done).
  unfold SFmul. simpl xorb.
  unfold binary_round_aux, shr_fexp at 1, fexp, emin.
  assert (Hp : Zdigits2 (Zpos (4503599627370496 * m)) = 105).
  { change (4503599627370496 * m)%positive with (Pos.iter xO m 52).
    unfold Zdigits2. rewrite digits_iter_xO. lia. }
  rewrite Hp. replace (Z.max (105 + (-52 + e) - 53) (3 - 1024 - 53) - (-52 + e)) with 52 by lia.
  change (4503599627370496 * m)%positive with (Pos.iter xO m 52).
  cbn -[fexp shr_fexp Z.add].
  unfold shr_fexp, fexp, emin. simpl Zdigits2. rewrite Hd.
  replace (Z.max (53 + (-52 + e + 52) - 53) (3 - 1024 - 53) - (-52 + e + 52)) with 0 by lia.
  unfold shr, shr_m, shr_record_of_loc. replace (-52 + e + 52) with e by lia.
  by rewrite (proj2 (Z.leb_le e (1024 - 53))) by lia.
Qed.

Lemma mul_one_of_int a : 0 <= a < 2 ^ 53 -> mul one (of_int a) = of_int a.
Proof.
  intros Ha. destruct a as [|a|a]; [done | | lia].
  destruct (of_int_canonical a) as (m & -> & Hm & _); [lia|].
  pose proof (digits_lt a 53 ltac:(lia) ltac:(lia)).
  apply mul_one_finite; lia.
Qed.

Example f0_8_value : f0_8 = S754_finite false 7205759403792794 (-53).
Proof. vm_compute. reflexivity. Qed.

End Float64.
