(* ===== verification/CryptoWrap.v ===== *)
(** * The encrypted stream

    Models [src/internal/crypto/wrap.go]: the records [Write] puts on the wire
    and the resumable [Read] that takes them off, with its partial header,
    partial record, left-over plaintext and tamper counter.

    The cipher is outside the repository: the class [AEAD] states what the code
    relies on.  A connection is the script of what its next reads return; an
    exhausted script is a connection the peer has closed.  A script decides how
    the bytes are cut up and where a deadline expires, so a theorem over all
    scripts is one over all timings. *)

From Stdlib Require Import ZArith Lia.
From stdpp Require Import base option list.
From S2P Require Import Prelude.

Module CryptoWrap.

(** ** The cipher *)

Definition nonceSize : nat := 12.
Definition gcmTagSize : nat := 16.
Definition maxFrame : Z := 64 * 1024.
Definition maxRecord : Z := Z.of_nat nonceSize + maxFrame + Z.of_nat gcmTagSize.

(** AES-GCM under one key: opening undoes sealing, the tag is [gcmTagSize]
    bytes, and nothing else opens. *)
Class AEAD := {
  Seal : list Z -> list Z -> list Z;
  Open : list Z -> list Z -> option (list Z);
  open_seal nonce p : Open nonce (Seal nonce p) = Some p;
  seal_length nonce p : length (Seal nonce p) = (length p + gcmTagSize)%nat;
  open_sealed nonce c p : Open nonce c = Some p -> c = Seal nonce p;
}.

(** [binary.BigEndian.PutUint32] and [Uint32]. *)
Definition PutUint32 (v : Z) : list Z :=
  [Z.land (Z.shiftr v 24) 255; Z.land (Z.shiftr v 16) 255; Z.land (Z.shiftr v 8) 255; Z.land v 255].

Definition Uint32 (b : list Z) : Z := foldl (fun acc x => Z.lor (Z.shiftl acc 8) x) 0 b.

(** ** Connections *)

Inductive connError := Timeout | EOF | Broken (msg : nat).

Definition isTimeout (e : connError) : bool := match e with Timeout => true | _ => false end.

(** One return of [Conn.Read]: the bytes and the error. *)
Record event := { ev_bytes : list Z; ev_err : option connError }.

Definition conn : Type := list event.

(** The loop [for n < len(buf)] around [Conn.Read], for [need] missing bytes.
    An event with more bytes than the buffer has room for fills it and leaves
    the rest for the next read. *)
Fixpoint read_full (need : nat) (c : conn) : list Z * option connError * conn :=
  match need with
  | O => ([], None, c)
  | S _ =>
      match c with
      | [] => ([], Some EOF, [])
      | ev :: c' =>
          if (length (ev_bytes ev) <=? need)%nat then
            match ev_err ev with
            | Some e => (ev_bytes ev, Some e, c')
            | None =>
                let '(bs, err, c'') := read_full (need - length (ev_bytes ev)) c' in
                (ev_bytes ev ++ bs, err, c'')
            end
          else (take need (ev_bytes ev), None, {| ev_bytes := drop need (ev_bytes ev); ev_err := ev_err ev |} :: c')
      end
  end.

Section stream.
Context `{AEAD}.

(** ** Reading *)

(** The state only [Read] touches: the prefix bytes so far ([hdr], [hdrN]), the
    record being assembled with its length ([frame], [frameN]), the left-over
    plaintext, and the counter. *)
Record WrapConn := {
  hdr : list Z;
  frame : option (nat * list Z);
  readBuf : list Z;
  tamperCount : Z;
}.

Definition fresh : WrapConn := {| hdr := []; frame := None; readBuf := []; tamperCount := 0 |}.

Inductive readError := TimedOut | LengthErr (e : connError) | ErrTampered | ErrShortFrame (e : connError).

Definition resetFraming (w : WrapConn) : WrapConn :=
  {| hdr := []; frame := None; readBuf := readBuf w; tamperCount := tamperCount w |}.

Definition tampered (w : WrapConn) : WrapConn :=
  {| hdr := hdr w; frame := frame w; readBuf := readBuf w; tamperCount := wrapu64 (tamperCount w + 1) |}.

(** The record whose body is being read: the one under way, or the one the
    prefix announces; [None] when the length is out of bounds. *)
Definition announced (w : WrapConn) : option (nat * list Z) :=
  match frame w with
  | Some f => Some f
  | None =>
      let frameLen := Uint32 (hdr w) in
      if (frameLen =? 0) || (maxRecord <? frameLen) then None
      else if frameLen <? Z.of_nat nonceSize + Z.of_nat gcmTagSize then None
      else Some (Z.to_nat frameLen, [])
  end.

(** The complete record: open it, hand out what fits, keep the rest. *)
Definition deliver (k : nat) (rec : list Z) (w : WrapConn) : list Z * option readError * WrapConn :=
  let w := resetFraming w in
  match Open (take nonceSize rec) (drop nonceSize rec) with
  | None => ([], Some ErrTampered, tampered w)
  | Some plaintext =>
      (take k plaintext, None,
       {| hdr := hdr w; frame := frame w; readBuf := drop k plaintext; tamperCount := tamperCount w |})
  end.

(** Phase 2, the record body. *)
Definition read_body (k len : nat) (got : list Z) (w : WrapConn) (c : conn)
  : list Z * option readError * WrapConn * conn :=
  let '(bs, err, c) := read_full (len - length got) c in
  match err with
  | Some e =>
      if isTimeout e then
        ([], Some TimedOut,
         {| hdr := hdr w; frame := Some (len, got ++ bs); readBuf := readBuf w; tamperCount := tamperCount w |}, c)
      else ([], Some (ErrShortFrame e), tampered (resetFraming w), c)
  | None => (deliver k (got ++ bs) w, c)
  end.

(** [Read] into a buffer of [k] bytes. *)
Definition Read (k : nat) (w : WrapConn) (c : conn) : list Z * option readError * WrapConn * conn :=
  match k, readBuf w with
  | O, _ => ([], None, w, c)
  | S _, _ :: _ =>
      (take k (readBuf w), None,
       {| hdr := hdr w; frame := frame w; readBuf := drop k (readBuf w); tamperCount := tamperCount w |}, c)
  | S _, [] =>
      let '(hs, err, c) := read_full (4 - length (hdr w)) c in
      let w := {| hdr := hdr w ++ hs; frame := frame w; readBuf := readBuf w; tamperCount := tamperCount w |} in
      match err with
      | Some e =>
          if isTimeout e then ([], Some TimedOut, w, c)
          else ([], Some (LengthErr e), resetFraming w, c)
      | None =>
          match announced w with
          | None => ([], Some ErrTampered, tampered (resetFraming w), c)
          | Some (len, got) => read_body k len got w c
          end
      end
  end.

(** A caller that reads with buffers of these sizes. *)
Fixpoint reads (sizes : list nat) (w : WrapConn) (c : conn) : list Z * list (option readError) * WrapConn * conn :=
  match sizes with
  | [] => ([], [], w, c)
  | k :: sizes =>
      let '(out, err, w, c) := Read k w c in
      let '(outs, errs, w, c) := reads sizes w c in
      (out ++ outs, err :: errs, w, c)
  end.

(** ** Writing *)

(** The record of one chunk. *)
Definition record (nonce chunk : list Z) : list Z :=
  let sealed := nonce ++ Seal nonce chunk in
  PutUint32 (Z.of_nat (length sealed)) ++ sealed.

(** The write side: the bytes the socket took, how many records were started,
    and what the tap saw. *)
Record Wire := { sent : list Z; started : nat; tap : bool; tapped : list (list Z) }.

Inductive writeError := NonceErr | FrameErr.

(** The random source and the socket, by record number: no nonce, or a write
    that fails after some bytes. *)
Record Sink := { nonces : nat -> option (list Z); fails : nat -> option nat }.

Definition writeRecord (s : Sink) (chunk : list Z) (w : Wire) : option writeError * Wire :=
  let i := started w in
  match nonces s i with
  | None => (Some NonceErr, {| sent := sent w; started := S i; tap := tap w; tapped := tapped w |})
  | Some nonce =>
      let frame := record nonce chunk in
      let seen := if tap w then tapped w ++ [frame] else tapped w in
      match fails s i with
      | Some n => (Some FrameErr, {| sent := sent w ++ take n frame; started := S i; tap := tap w; tapped := seen |})
      | None => (None, {| sent := sent w ++ frame; started := S i; tap := tap w; tapped := seen |})
      end
  end.

(** The loop of [Write] on what is left of the payload. *)
Fixpoint write_loop (fuel : nat) (s : Sink) (total written : Z) (rest : list Z) (w : Wire)
  : option (Z * option writeError * Wire) :=
  match fuel with
  | O => None
  | S fuel =>
      let chunk := take (Z.to_nat maxFrame) rest in
      let '(err, w) := writeRecord s chunk w in
      match err with
      | Some e => Some (written, Some e, w)
      | None =>
          let written := written + Z.of_nat (length chunk) in
          if total <=? written then Some (total, None, w)
          else write_loop fuel s total written (drop (Z.to_nat maxFrame) rest) w
      end
  end.

Definition Write (s : Sink) (p : list Z) (w : Wire) : option (Z * option writeError * Wire) :=
  write_loop (S (length p)) s (Z.of_nat (length p)) 0 p w.

End stream.
End CryptoWrap.
