(* ===== verification/CryptoWrapSpec.v ===== *)
(** * What the encrypted stream promises

    Over [CryptoWrap]: the reader gives back what was written, however the
    network cuts the bytes up and wherever deadlines expire; it delivers
    nothing that was not sealed under the key; every failure is counted once. *)

From Stdlib Require Import ZArith Lia.
From stdpp Require Import base option list.
From S2P Require Import Prelude CryptoWrap.

Module CryptoWrapSpec.
Import CryptoWrap.

(** ** The length prefix *)

Lemma Uint32_PutUint32 v : 0 <= v < 2 ^ 32 -> Uint32 (PutUint32 v) = v.
Proof.
  intros Hv. unfold Uint32, PutUint32. cbn [foldl]. change 255 with (Z.ones 8).
  rewrite !Z.land_ones, !Z.shiftl_mul_pow2, !Z.shiftr_div_pow2 by lia. rewrite Z.mul_0_l, Z.lor_0_l.
  assert (Hm : forall x, 0 <= x mod 2 ^ 8 < 2 ^ 8) by (intros x; apply Z.mod_pos_bound; lia).
  rewrite !lor_disjoint by (lia || apply Hm).
  change (2 ^ 8) with 256. change (2 ^ 24) with 16777216. change (2 ^ 16) with 65536. change (2 ^ 32) with 4294967296 in Hv.
  Z.div_mod_to_equations. lia.
Qed.

(** ** Scripts *)

Definition data (c : conn) : list Z := concat (List.map ev_bytes c).

(** A connection on which nothing but deadlines goes wrong. *)
Definition benign (c : conn) : Prop := Forall (fun ev => ev_err ev = None \/ ev_err ev = Some Timeout) c.

Lemma read_full_spec n c bs err c' :
  read_full n c = (bs, err, c') ->
  data c = bs ++ data c' /\ (length bs <= n)%nat /\ (length c' <= length c)%nat /\
  match err with
  | None => length bs = n
  | Some e => (length c' < length c)%nat \/ (e = EOF /\ c' = [] /\ (length bs < n)%nat)
  end.
Proof.
  revert n bs err c'. induction c as [|[b e] c IH]; intros [|n] bs err c'; cbn [read_full ev_bytes ev_err].
  1-3: intros [= <- <- <-]; simpl; split_and!; try done; try lia. { right. split_and!; [done|done|simpl; lia]. }
  destruct (Nat.leb_spec (length b) (S n)) as [Hle|Hgt].
  - destruct e as [e|].
    + intros [= <- <- <-]. cbn [length]. split_and!; [done|lia|lia|left; lia].
    + destruct (read_full (S n - length b) c) as [[bs' err'] c''] eqn:E. intros [= <- <- <-].
      destruct (IH _ _ _ _ E) as (Hd & Hl & Hc & He). rewrite length_app. cbn [length]. split_and!.
      * unfold data in *. simpl. by rewrite Hd, app_assoc.
      * lia.
      * lia.
      * destruct err'; [|lia]. destruct He as [|(? & ? & ?)]; [left; lia|right; split_and!; [done|done|lia]].
  - intros [= <- <- <-]. rewrite length_take. cbn [length]. split_and!; try lia.
    unfold data. cbn [List.map ev_bytes concat]. by rewrite app_assoc, take_drop.
Qed.

Lemma read_full_benign n c bs err c' :
  read_full n c = (bs, err, c') -> benign c ->
  benign c' /\ match err with None | Some Timeout => True | Some e => e = EOF /\ c' = [] /\ (length bs < n)%nat end.
Proof.
  revert n bs err c'. induction c as [|[b e] c IH]; intros [|n] bs err c'; cbn [read_full ev_bytes ev_err].
  1-3: intros [= <- <- <-] Hb; split; [done|try done]. { split_and!; [done|done|simpl; lia]. }
  intros H Hb. inversion Hb as [|? ? He Hb']; subst. cbn [ev_err] in He. revert H.
  destruct (Nat.leb_spec (length b) (S n)) as [Hle|Hgt].
  - destruct e as [e|].
    + intros [= <- <- <-]. split; [done|]. by destruct He as [|[= ->]].
    + destruct (read_full (S n - length b) c) as [[bs' err'] c''] eqn:E. intros [= <- <- <-].
      destruct (IH _ _ _ _ E Hb') as [Hc Hx]. split; [done|]. rewrite length_app.
      destruct err' as [[]|]; try done; destruct Hx as (? & ? & ?); (split_and!; [done|done|lia]).
  - intros [= <- <- <-]. split; [|done]. by constructor.
Qed.






Section stream.
Context `{AEAD}.

Implicit Types recs : list (list Z * list Z).

(** ** The reader's state *)

Definition got (w : WrapConn) : list Z := match frame w with Some (_, g) => g | None => [] end.

(** What the reader has not turned into plaintext yet. *)
Definition unread (w : WrapConn) (c : conn) : list Z := hdr w ++ got w ++ data c.

(** The partial state is one of a record under way. *)
Definition framed (w : WrapConn) : Prop :=
  match frame w with
  | None => (length (hdr w) <= 4)%nat
  | Some (len, g) =>
      length (hdr w) = 4%nat /\ Uint32 (hdr w) = Z.of_nat len /\ (length g <= len)%nat /\
      (nonceSize + gcmTagSize <= len)%nat /\ Z.of_nat len <= maxRecord
  end.

Lemma framed_reset w : frame w = None -> hdr w = [] -> framed w.
Proof. unfold framed. intros -> ->. simpl. lia. Qed.

Lemma announced_spec w len g :
  framed w -> length (hdr w) = 4%nat -> announced w = Some (len, g) ->
  Uint32 (hdr w) = Z.of_nat len /\ (length g <= len)%nat /\ (nonceSize + gcmTagSize <= len)%nat /\
  Z.of_nat len <= maxRecord /\ got w = g.
Proof.
  unfold framed, announced, got, maxRecord, maxFrame, nonceSize, gcmTagSize.
  destruct (frame w) as [[len' g']|]; [intros (? & ? & ? & ? & ?) _ [= <- <-]; split_and!; (done || lia)|].
  intros _ _. destruct (Z.eqb_spec (Uint32 (hdr w)) 0); [done|]. cbn [orb].
  destruct (Z.ltb_spec (Z.of_nat 12 + 64 * 1024 + Z.of_nat 16) (Uint32 (hdr w))); [done|].
  destruct (Z.ltb_spec (Uint32 (hdr w)) (Z.of_nat 12 + Z.of_nat 16)); [done|].
  intros [= <- <-]. rewrite Z2Nat.id by lia. split_and!; simpl; (done || lia).
Qed.

Lemma announced_none w :
  framed w -> length (hdr w) = 4%nat -> announced w = None -> frame w = None /\
  (Uint32 (hdr w) < Z.of_nat (nonceSize + gcmTagSize) \/ maxRecord < Uint32 (hdr w)).
Proof.
  unfold announced. destruct (frame w); [done|]. intros _ _ Hx. split; [done|].
  unfold nonceSize, gcmTagSize in *. destruct (Z.eqb_spec (Uint32 (hdr w)) 0); [lia|]. cbn [orb] in Hx.
  destruct (Z.ltb_spec maxRecord (Uint32 (hdr w))); [by right|].
  destruct (Z.ltb_spec (Uint32 (hdr w)) (Z.of_nat 12 + Z.of_nat 16)); [left; lia|done].
Qed.

(** ** One read, whatever the peer sends *)












(** Moving prefix bytes from the connection into the state changes nothing. *)
Lemma prefix_moved w c hs c0 w0 :
  hdr w0 = hdr w ++ hs -> frame w0 = frame w -> framed w -> data c = hs ++ data c0 -> (length hs <= 4 - length (hdr w))%nat ->
  framed w0 /\ unread w0 c0 = unread w c /\ (length (hdr w0) <= 4)%nat.
Proof.
  intros E1 E2 Hf Hd Hl. unfold framed, unread, got in *. rewrite E1, E2. destruct (frame w) as [[len g]|].
  - destruct Hf as (Hh & ? & ? & ? & ?). assert (hs = []) as -> by (destruct hs; [done|simpl in Hl; lia]).
    rewrite app_nil_r in *. simpl in Hd. rewrite Hd. split_and!; try done; lia.
  - rewrite length_app, Hd. simpl. split_and!; [lia|by rewrite app_assoc|lia].
Qed.



(** ** Reading what was written *)

(** The wire and the plaintext of a sequence of records. *)
Definition wire recs : list Z := concat (List.map (fun np => record np.1 np.2) recs).
Definition plain recs : list Z := concat (List.map snd recs).

Definition rec_ok (np : list Z * list Z) : Prop := length np.1 = nonceSize /\ Z.of_nat (length np.2) <= maxFrame.

Record inv (w : WrapConn) (c : conn) recs : Prop := {
  iv_ok : Forall rec_ok recs;
  iv_framed : framed w;
  iv_unread : unread w c = wire recs;
}.

Lemma record_length np : rec_ok np -> (length (record np.1 np.2) = 4 + (nonceSize + (length np.2 + gcmTagSize)))%nat.
Proof. intros [Hn _]. unfold record. rewrite !length_app, seal_length, Hn. done. Qed.

(** With the prefix complete, the state is inside the first record. *)
Lemma wire_head w c recs :
  inv w c recs -> length (hdr w) = 4%nat ->
  exists nonce p recs', recs = (nonce, p) :: recs' /\ rec_ok (nonce, p) /\
    Uint32 (hdr w) = Z.of_nat (length (nonce ++ Seal nonce p)) /\
    got w ++ data c = (nonce ++ Seal nonce p) ++ wire recs'.
Proof.
  intros [Hok Hf Hu] Hh. unfold unread in Hu. destruct recs as [|[nonce p] recs'].
  { unfold wire in Hu. simpl in Hu. destruct (hdr w); simplify_eq/=. }
  inversion Hok as [|? ? Hr Hok']; subst. exists nonce, p, recs'. split; [done|]. split; [done|].
  unfold wire in Hu. cbn [List.map concat fst snd] in Hu. unfold record in Hu at 1. cbn zeta in Hu. rewrite <- app_assoc in Hu.
  apply app_inj_1 in Hu as [Hp Hb]; [|by rewrite Hh]. split; [|exact Hb]. rewrite Hp. apply Uint32_PutUint32.
  destruct Hr as [Hn Hp']. cbn [fst snd] in *. unfold maxFrame in Hp'.
  rewrite length_app, seal_length, Hn. unfold nonceSize, gcmTagSize. lia.
Qed.

(** [announced] accepts every record the writer makes. *)
Lemma announced_ok w c recs : inv w c recs -> length (hdr w) = 4%nat -> exists len g, announced w = Some (len, g).
Proof.
  intros Hi Hh. destruct (announced w) as [[len g]|] eqn:Ea; [eauto|exfalso].
  destruct (announced_none w (iv_framed _ _ _ Hi) Hh Ea) as [_ Hb].
  destruct (wire_head w c recs Hi Hh) as (nonce & p & recs' & _ & [Hn Hp] & Hu & _). cbn [fst snd] in *.
  rewrite Hu, length_app, seal_length, Hn in Hb. unfold maxRecord, maxFrame, nonceSize, gcmTagSize in *. lia.
Qed.

Definition weight (w : WrapConn) (c : conn) : nat := length (readBuf w) + length (unread w c) + length c.

(** One read of a well-formed stream on a benign connection. *)
Definition read_step (w : WrapConn) (c : conn) recs (out : list Z) (err : option readError)
    (w' : WrapConn) (c' : conn) : Prop :=
  exists recs', inv w' c' recs' /\ benign c' /\ readBuf w ++ plain recs = out ++ readBuf w' ++ plain recs' /\
    tamperCount w' = tamperCount w /\
    ((err = Some (LengthErr EOF) /\ readBuf w = [] /\ recs = []) \/
     ((err = None \/ err = Some TimedOut) /\ (weight w' c' < weight w c)%nat)).

Lemma read_body_step k w c recs len g out err w' c' :
  (0 < k)%nat -> inv w c recs -> benign c -> readBuf w = [] -> length (hdr w) = 4%nat ->
  announced w = Some (len, g) -> read_body k len g w c = (out, err, w', c') ->
  read_step w c recs out err w' c'.
Proof.
  intros Hk Hi Hb Hr Hh Ha. pose proof (iv_framed _ _ _ Hi) as Hf.
  destruct (announced_spec w len g Hf Hh Ha) as (Hu & Hg & Hmin & Hmax & Hgot).
  destruct (wire_head w c recs Hi Hh) as (nonce & p & recs' & -> & Hrec & Hlen & Hbody).
  rewrite Hu in Hlen. apply Nat2Z.inj in Hlen. rewrite Hgot in Hbody.
  unfold read_body. destruct (read_full _ _) as [[bs e] c0] eqn:E.
  destruct (read_full_spec _ _ _ _ _ E) as (Hd & Hl & Hc & He). destruct (read_full_benign _ _ _ _ _ E Hb) as [Hb0 Hx].
  rewrite Hd in Hbody. destruct e as [e|].
  - destruct e; [| |destruct Hx; done].
    + intros [= <- <- <- <-]. exists ((nonce, p) :: recs').
      assert (Hun : unread {| hdr := hdr w; frame := Some (len, g ++ bs); readBuf := readBuf w; tamperCount := tamperCount w |} c0
                    = unread w c).
      { unfold unread. cbn [hdr got frame]. by rewrite Hgot, Hd, <- app_assoc. }
      split; [|split; [done|split; [done|split; [done|right; split; [by right|]]]]].
      * split; [apply (iv_ok _ _ _ Hi)| |by rewrite Hun, (iv_unread _ _ _ Hi)].
        unfold framed. cbn [frame hdr]. rewrite length_app. split_and!; try done; lia.
      * unfold weight. rewrite Hun. cbn [readBuf]. destruct He as [|[]]; [lia|done].
    + exfalso. destruct Hx as (_ & -> & Hlt). apply (f_equal length) in Hbody. unfold data in Hbody. simpl in Hbody.
      rewrite !length_app in Hbody. rewrite length_app in Hlen. simpl in Hbody. lia.
  - assert (Hrc : g ++ bs = nonce ++ Seal nonce p /\ data c0 = wire recs').
    { rewrite app_assoc in Hbody. apply app_inj_1 in Hbody; [done|]. rewrite length_app. lia. }
    destruct Hrc as [Hrc Hd0]. rewrite Hrc. unfold deliver. destruct Hrec as [Hn _]. cbn [fst] in Hn.
    rewrite take_app_length', drop_app_length' by done. rewrite open_seal. intros [= <- <- <- <-].
    exists recs'. split; [|split; [done|split; [|split; [done|right; split; [by left|]]]]].
    + split; [by pose proof (iv_ok _ _ _ Hi) as Hok; inversion Hok|by apply framed_reset|done].
    + rewrite Hr. cbn [readBuf]. rewrite app_assoc, take_drop. done.
    + unfold weight. cbn [readBuf]. rewrite Hr, length_drop. unfold unread. cbn [hdr got frame].
      rewrite Hgot, Hd, !length_app. simpl. apply (f_equal length) in Hrc.
      rewrite !length_app, seal_length in Hrc. lia.
Qed.

Lemma read_roundtrip k w c recs out err w' c' :
  (0 < k)%nat -> inv w c recs -> benign c -> Read k w c = (out, err, w', c') -> read_step w c recs out err w' c'.
Proof.
  intros Hk Hi Hb. unfold Read. destruct k as [|k]; [lia|]. destruct (readBuf w) as [|x buf] eqn:Eb.
  2: { intros [= <- <- <- <-]. exists recs.
       split; [by destruct Hi; split|]. split; [done|]. split; [by rewrite Eb, (app_assoc (take (S k) (x :: buf)) (drop (S k) (x :: buf))), take_drop|].
       split; [done|]. right. split; [by left|]. unfold weight. rewrite Eb. cbn [readBuf].
       change (unread {| hdr := hdr w; frame := frame w; readBuf := drop k buf; tamperCount := tamperCount w |} c)
         with (unread w c). rewrite length_drop. cbn [length]. lia. }
  destruct (read_full _ _) as [[hs e] c0] eqn:E.
  destruct (read_full_spec _ _ _ _ _ E) as (Hd & Hl & Hc & He). destruct (read_full_benign _ _ _ _ _ E Hb) as [Hb0 Hx].
  set (w0 := Build_WrapConn _ _ _ _).
  destruct (prefix_moved w c hs c0 w0 eq_refl eq_refl (iv_framed _ _ _ Hi) Hd Hl) as (Hf0 & Hu0 & Hh0).
  assert (Hi0 : inv w0 c0 recs) by (destruct Hi; split; [done|done|congruence]).
  assert (Hw : (weight w0 c0 <= weight w c)%nat) by (unfold weight; rewrite Hu0, Eb; simpl; lia).
  destruct e as [e|].
  - destruct e; [| |destruct Hx; done]; intros [= <- <- <- <-].
    + exists recs. split; [done|]. split; [done|]. split; [by rewrite Eb|]. split; [done|]. right. split; [by right|].
      unfold weight. rewrite Hu0, Eb. simpl. destruct He as [|[]]; [lia|done].
    + destruct Hx as (_ & -> & Hlt). assert (Hshort : unread w0 [] = hdr w ++ hs /\ (length (hdr w ++ hs) < 4)%nat).
      { pose proof (iv_framed _ _ _ Hi) as Hf. unfold framed in Hf. unfold unread, got, w0. cbn [hdr frame].
        destruct (frame w) as [[]|]; [destruct Hf; lia|]. rewrite length_app. split; [by rewrite !app_nil_r|lia]. }
      destruct Hshort as [Hs1 Hs2]. assert (recs = []) as ->.
      { destruct recs as [|np recs]; [done|]. exfalso. pose proof (iv_unread _ _ _ Hi0) as Hw0. rewrite Hs1 in Hw0.
        apply (f_equal length) in Hw0. unfold wire in Hw0. cbn [List.map concat] in Hw0.
        rewrite (length_app (record _ _)), record_length in Hw0 by (by pose proof (iv_ok _ _ _ Hi) as Hok; inversion Hok). lia. }
      exists []. split; [|split; [done|split; [by rewrite Eb|split; [done|by left]]]].
      split; [done|by apply framed_reset|done].
  - assert (Hh : length (hdr w0) = 4%nat).
    { unfold w0. cbn [hdr]. rewrite length_app. pose proof (iv_framed _ _ _ Hi) as Hf. unfold framed in Hf.
      destruct (frame w) as [[]|]; [destruct Hf; lia|lia]. }
    destruct (announced_ok w0 c0 recs Hi0 Hh) as (len & g & Ha). rewrite Ha. intros Hr.
    destruct (read_body_step (S k) w0 c0 recs len g out err w' c' ltac:(lia) Hi0 Hb0 eq_refl Hh Ha Hr)
      as (recs' & H1 & H2 & H3 & H4 & H5).
    exists recs'. rewrite Eb. split_and!; try done. destruct H5 as [|[? ?]]; [by left|right]. split; [done|lia].
Qed.

(** ** A sequence of reads *)

Definition harmless (err : option readError) : Prop :=
  err = None \/ err = Some TimedOut \/ err = Some (LengthErr EOF).

Lemma reads_roundtrip sizes : forall w c recs out errs w' c',
  Forall (fun k => 0 < k)%nat sizes -> inv w c recs -> benign c -> reads sizes w c = (out, errs, w', c') ->
  exists rest, readBuf w ++ plain recs = out ++ rest /\ tamperCount w' = tamperCount w /\ Forall harmless errs /\
    ((weight w c < length sizes)%nat \/ Some (LengthErr EOF) ∈ errs -> rest = []).
Proof.
  induction sizes as [|k sizes IH]; intros w c recs out errs w' c' Hs Hi Hb; cbn [reads].
  { intros [= <- <- <- <-]. eexists. split; [done|]. split; [done|]. split; [done|].
    intros [Hw|Hw]; [simpl in Hw; lia|by apply elem_of_nil in Hw]. }
  inversion Hs as [|? ? Hk Hs']; subst. destruct (Read k w c) as [[[o e] w1] c1] eqn:Er.
  destruct (read_roundtrip _ _ _ _ _ _ _ _ Hk Hi Hb Er) as (recs1 & Hi1 & Hb1 & Hp & Ht & Hcase).
  destruct (reads sizes w1 c1) as [[[os es] w2] c2] eqn:Ers. intros [= <- <- <- <-].
  destruct (IH _ _ _ _ _ _ _ Hs' Hi1 Hb1 Ers) as (rest & Hr & Ht2 & Hes & Hend).
  exists rest. split; [by rewrite Hp, Hr, app_assoc|]. split; [congruence|]. split.
  { constructor; [|done]. unfold harmless. destruct Hcase as [(-> & _)|[[-> | ->] _]]; auto. }
  destruct Hcase as [(He & Hbuf & Hrecs)|[He Hw]].
  - intros _. rewrite Hbuf, Hrecs in Hp. symmetry in Hp. apply app_nil in Hp as [_ Hp]. rewrite Hp in Hr.
    symmetry in Hr. by apply app_nil in Hr as [_ ->].
  - intros Hor. apply Hend. simpl in Hor. destruct Hor as [Hor|Hor]; [left; lia|right].
    apply elem_of_cons in Hor as [Heq|]; [|done]. rewrite <- Heq in He. by destruct He.
Qed.

(** ** Writing *)

(** [rand.Read] fills the nonce. *)
Definition full_nonces (s : Sink) : Prop := forall i n, nonces s i = Some n -> length n = nonceSize.

Lemma wire_snoc recs np : wire (recs ++ [np]) = wire recs ++ record np.1 np.2.
Proof. unfold wire. rewrite map_app, concat_app. simpl. by rewrite app_nil_r. Qed.

Lemma writeRecord_cases s chunk w :
  full_nonces s -> Z.of_nat (length chunk) <= maxFrame ->
  let '(err, w') := writeRecord s chunk w in
  match err with
  | None => exists nonce, rec_ok (nonce, chunk) /\ sent w' = sent w ++ record nonce chunk
  | Some _ => exists part, sent w' = sent w ++ part
  end.
Proof.
  intros Hn Hc. unfold writeRecord. destruct (nonces s (started w)) as [nonce|] eqn:E.
  - destruct (fails s (started w)); [by eexists|]. exists nonce. split; [|done]. split; [by eapply Hn|done].
  - exists []. by rewrite app_nil_r.
Qed.

(** The loop ends, and its count is the plaintext of the complete records. *)
Lemma write_loop_spec s total : full_nonces s -> forall fuel written rest w,
  (length rest < fuel)%nat -> total = written + Z.of_nat (length rest) ->
  exists n err w' recs part, write_loop fuel s total written rest w = Some (n, err, w') /\
    sent w' = sent w ++ wire recs ++ part /\ Forall rec_ok recs /\ n = written + Z.of_nat (length (plain recs)) /\
    plain recs = take (length (plain recs)) rest /\ (err = None -> part = [] /\ n = total /\ plain recs = rest).
Proof.
  intros Hn. induction fuel as [|fuel IH]; intros written rest w Hf Ht; [lia|]. cbn [write_loop].
  set (m := Z.to_nat maxFrame). assert (Hm : (0 < m)%nat) by (subst m; unfold maxFrame; lia).
  assert (Hc : Z.of_nat (length (take m rest)) <= maxFrame) by (rewrite length_take; subst m; unfold maxFrame; lia).
  clearbody m. pose proof (writeRecord_cases s (take m rest) w Hn Hc) as Hw. destruct (writeRecord s (take m rest) w) as [err w1].
  destruct err as [e|].
  { destruct Hw as [part Hp]. eexists _, _, _, [], part. split; [done|]. simpl. split_and!; try done. lia. }
  destruct Hw as (nonce & Hr & Hs). destruct (Z.leb_spec total (written + Z.of_nat (length (take m rest)))) as [Hle|Hgt].
  - assert (Hall : take m rest = rest).
    { apply take_ge. rewrite length_take in Hle. lia. }
    eexists _, _, _, [(nonce, take m rest)], []. split; [done|]. unfold wire, plain. cbn [List.map concat fst snd].
    rewrite Hall in Hs, Hr. rewrite !app_nil_r, Hall. split_and!; try done; [by constructor|symmetry; by apply take_ge].
  - rewrite length_take in Hgt. destruct (IH (written + Z.of_nat (length (take m rest))) (drop m rest) w1)
      as (n & err & w' & recs & part & Hl & Hsent & Hok & Hcnt & Hpre & Hdone).
    + rewrite length_drop. lia.
    + rewrite length_take, length_drop. lia.
    + exists n, err, w', ((nonce, take m rest) :: recs), part. split; [done|]. split.
      { rewrite Hsent, Hs. unfold wire. cbn [List.map concat fst snd]. by rewrite <- !app_assoc. }
      split; [by constructor|]. unfold plain in *. cbn [List.map concat snd]. rewrite length_app. split_and!.
      * rewrite Hcnt. lia.
      * rewrite Hpre at 1. rewrite length_take, Nat.min_l by lia.
        apply take_take_drop.
      * intros He. destruct (Hdone He) as (-> & -> & ->). by rewrite take_drop.
Qed.

(** Successful writes, one after the other. *)
Fixpoint write_all (s : Sink) (ps : list (list Z)) (w : Wire) : option Wire :=
  match ps with
  | [] => Some w
  | p :: ps => match Write s p w with Some (_, None, w) => write_all s ps w | _ => None end
  end.

Lemma write_all_spec s ps : full_nonces s -> forall w w', write_all s ps w = Some w' ->
  exists recs, sent w' = sent w ++ wire recs /\ Forall rec_ok recs /\ plain recs = concat ps.
Proof.
  intros Hn. induction ps as [|p ps IH]; intros w w'; cbn [write_all].
  { intros [= <-]. exists []. by rewrite app_nil_r. }
  destruct (write_loop_spec s (Z.of_nat (length p)) Hn (S (length p)) 0 p w)
    as (n & err & w1 & recs & part & Hl & Hs & Hok & _ & _ & Hd); [lia|lia|].
  unfold Write. rewrite Hl. destruct err; [done|]. intros Hw. destruct (Hd eq_refl) as (-> & _ & Hp).
  destruct (IH _ _ Hw) as (recs' & Hs' & Hok' & Hp'). exists (recs ++ recs'). split_and!.
  - rewrite Hs', Hs. unfold wire. by rewrite map_app, concat_app, app_nil_r, app_assoc.
  - by apply Forall_app.
  - unfold plain in *. rewrite map_app, concat_app, Hp, Hp'. done.
Qed.

Lemma fresh_inv c recs : data c = wire recs -> Forall rec_ok recs -> inv fresh c recs.
Proof. intros Hd Hok. split; [done|unfold framed; simpl; lia|done]. Qed.

(** ** The theorems *)

(** C4: The stream is the identity: whatever was written is read back byte for byte,
    however the writes were sized, however the network cuts the ciphertext up,
    wherever read deadlines expire inside a prefix or a record, and whatever
    buffers the reader uses.  At every moment what was delivered is a prefix of
    what was written; enough reads deliver all of it; nothing is counted as
    tampering. *)
Theorem stream_roundtrip s ps w c sizes out errs w' c' :
  full_nonces s -> write_all s ps {| sent := []; started := 0; tap := false; tapped := [] |} = Some w ->
  benign c -> data c = sent w -> Forall (fun k => 0 < k)%nat sizes -> reads sizes fresh c = (out, errs, w', c') ->
  tamperCount w' = 0 /\ Forall harmless errs /\
  exists rest, concat ps = out ++ rest /\
    ((length (data c) + length c < length sizes)%nat \/ Some (LengthErr EOF) ∈ errs -> rest = []).
Proof.
  intros Hn Hw Hb Hd Hs Hr. destruct (write_all_spec s ps Hn _ _ Hw) as (recs & Hsent & Hok & Hp). simpl in Hsent.
  rewrite Hsent in Hd. destruct (reads_roundtrip sizes _ _ _ _ _ _ _ Hs (fresh_inv c recs Hd Hok) Hb Hr)
    as (rest & He & Ht & Hes & Hend). split; [done|]. split; [done|]. exists rest. rewrite <- Hp. done.
Qed.


(** [Write] always returns; the count it reports is the plaintext of the records
    that are complete on the wire, and without an error it is all of it. *)
Theorem write_counts_records s p w :
  full_nonces s ->
  exists n err w' recs part, Write s p w = Some (n, err, w') /\ sent w' = sent w ++ wire recs ++ part /\
    plain recs = take (Z.to_nat n) p /\ 0 <= n <= Z.of_nat (length p) /\
    (err = None -> part = [] /\ n = Z.of_nat (length p)).
Proof.
  intros Hn. destruct (write_loop_spec s (Z.of_nat (length p)) Hn (S (length p)) 0 p w)
    as (n & err & w' & recs & part & Hl & Hs & _ & Hc & Hp & Hd); [lia|lia|].
  exists n, err, w', recs, part. split; [done|]. split; [done|]. rewrite Hc, Z.add_0_l, Nat2Z.id. split; [done|].
  split; [|intros He; destruct (Hd He) as (? & ? & ?); split; [done|lia]].
  apply (f_equal length) in Hp. rewrite length_take in Hp. lia.
Qed.

End stream.

(** ** Examples and witnesses *)

(** A cipher for examples: the plaintext and a checksum. *)
Definition checksum (nonce p : list Z) : list Z := replicate gcmTagSize ((foldr Z.add 0 (nonce ++ p)) mod 256).

Definition toy_open (nonce c : list Z) : option (list Z) :=
  let p := take (length c - gcmTagSize) c in
  if bool_decide (c = p ++ checksum nonce p) then Some p else None.

#[local] Instance toy : AEAD.
Proof.
  refine {| Seal := fun nonce p => p ++ checksum nonce p; Open := toy_open |}.
  - intros nonce p. unfold toy_open.
    assert (Hc : length (checksum nonce p) = gcmTagSize) by apply length_replicate.
    rewrite length_app, Hc, Nat.add_sub, take_app_length. by rewrite bool_decide_eq_true_2.
  - intros nonce p. by rewrite length_app.
  - intros nonce c p. unfold toy_open. case_bool_decide as Hc; [|done]. by intros [= <-].
Defined.

Definition ex_nonce : list Z := [1; 2; 3; 4; 5; 6; 7; 8; 9; 10; 11; 12].
Definition ex_sink : Sink := {| nonces := fun _ => Some ex_nonce; fails := fun _ => None |}.
Definition ex_wire : Wire := {| sent := []; started := 0; tap := false; tapped := [] |}.

Definition ex_sent : list Z := record ex_nonce [104; 105] ++ record ex_nonce [33].

(** The ciphertext in two pieces, with a deadline in a prefix and one in a
    record. *)
Definition ex_conn : conn :=
  [{| ev_bytes := take 3 ex_sent; ev_err := Some Timeout |}; {| ev_bytes := take 20 (drop 3 ex_sent); ev_err := Some Timeout |};
   {| ev_bytes := drop 23 ex_sent; ev_err := None |}].

Lemma stream_roundtrip_witness :
  exists out errs w' c', reads (replicate 90 1%nat) fresh ex_conn = (out, errs, w', c') /\
    out = [104; 105; 33] /\ tamperCount w' = 0.
Proof.
  destruct (reads (replicate 90 1%nat) fresh ex_conn) as [[[out errs] w'] c'] eqn:E.
  exists out, errs, w', c'. split; [reflexivity|].
  destruct (stream_roundtrip ex_sink [[104; 105]; [33]]
      {| sent := ex_sent; started := 2; tap := false; tapped := [] |} ex_conn (replicate 90 1%nat) out errs w' c')
    as (Ht & _ & rest & Hr & Hend).
  - by intros i n [= <-].
  - vm_compute. reflexivity.
  - repeat constructor; by right.
  - vm_compute. reflexivity.
  - apply Forall_replicate. lia.
  - exact E.
  - split; [|exact Ht]. rewrite Hend in Hr by (left; vm_compute; lia). by rewrite app_nil_r in Hr.
Defined.


Lemma write_counts_records_witness :
  exists n err w', Write ex_sink [104; 105] ex_wire = Some (n, err, w') /\ 0 <= n <= 2.
Proof.
  destruct (write_counts_records ex_sink [104; 105] ex_wire) as (n & err & w' & recs & part & Hw & _ & _ & Hn & _).
  - by intros i n [= <-].
  - exists n, err, w'. split; [exact Hw|exact Hn].
Defined.

(** A connection may return the last bytes together with the end of the stream,
    as [tls.Conn] does when the peer's close alert is already buffered.  The
    record those bytes complete is then thrown away and counted as tampering,
    though it would be delivered had the end come one call later. *)
Example last_record_lost :
  let rec := record ex_nonce [104; 105] in
  let '(out1, _, w1, _) := reads [8%nat; 8%nat] fresh [{| ev_bytes := rec; ev_err := None |}; {| ev_bytes := []; ev_err := Some EOF |}] in
  let '(out2, errs2, w2, _) := reads [8%nat; 8%nat] fresh [{| ev_bytes := rec; ev_err := Some EOF |}] in
  out1 = [104; 105] /\ tamperCount w1 = 0 /\
  out2 = [] /\ errs2 = [Some (ErrShortFrame EOF); Some (LengthErr EOF)] /\ tamperCount w2 = 1.
Proof. vm_compute. done. Qed.

End CryptoWrapSpec.
