(* ===== verification/FloatError.v ===== *)
(** * Rounding errors of float64

    The operations of [Float64] on non-negative numbers, related to the real
    numbers: each returns the exact result up to one unit in the last place,
    and comparisons are those of the reals.  The token buckets are bounded with
    these facts. *)

From Stdlib Require Import ZArith Lia SpecFloat Reals Lra Psatz.
From stdpp Require Import base tactics.
From S2P Require Import Prelude Float64.

Module FloatError.
Import Float64.
Local Open Scope Z_scope.

(** ** Powers of two *)

Definition bp (e : Z) : R := powerRZ 2 e.

Lemma bp_pos e : (0 < bp e)%R.
Proof. apply powerRZ_lt. lra. Qed.

Lemma bp_add a b : bp (a + b) = (bp a * bp b)%R.
Proof. apply powerRZ_add. lra. Qed.

Lemma bp_IZR k : 0 <= k -> IZR (2 ^ k) = bp k.
Proof.
  intros Hk. rewrite <- (Z2Nat.id k) by done. unfold bp. rewrite <- pow_powerRZ. symmetry. apply (pow_IZR 2).
Qed.

Lemma bp_le a b : a <= b -> (bp a <= bp b)%R.
Proof.
  intros H. replace b with (a + (b - a)) by lia. rewrite bp_add. rewrite <- (bp_IZR (b - a)) by lia.
  pose proof (bp_pos a). assert (1 <= IZR (2 ^ (b - a)))%R; [|nra].
  apply IZR_le. pose proof (Z.pow_pos_nonneg 2 (b - a)). lia.
Qed.

Lemma bp_0 : bp 0 = 1%R.
Proof. done. Qed.

(** ** Numbers *)

Definition canon (m : positive) (e : Z) : Prop :=
  (Zpos (digits2_pos m) = 53 /\ -1074 <= e <= 971) \/ (Zpos (digits2_pos m) < 53 /\ e = -1074).

(** A finite number that is not negative, in its canonical form. *)
Definition num (x : float64) : Prop :=
  match x with S754_zero false => True | S754_finite false m e => canon m e | _ => False end.

Definition val (x : float64) : R :=
  match x with S754_finite false m e => IZR (Zpos m) * bp e | _ => 0 end.

Lemma val_nonneg x : (0 <= val x)%R.
Proof. destruct x as [| | |[] m e]; simpl; try lra. pose proof (bp_pos e).
  assert (0 < IZR (Zpos m))%R by (apply IZR_lt; lia). nra.
Qed.

Lemma canon_digits m e : canon m e -> Zpos m < 2 ^ 53 /\ (-1074 < e -> 2 ^ 52 <= Zpos m) /\ -1074 <= e <= 971.
Proof.
  intros Hc. pose proof (digits_bounds m) as [Hl Hu].
  destruct Hc as [[Hd He]|[Hd He]].
  - rewrite Hd in *. split; [done|]. split; [intros _; exact Hl|lia].
  - split; [|lia]. eapply Z.lt_le_trans; [exact Hu|]. apply Z.pow_le_mono_r; lia.
Qed.

(** ** Rounding *)

Lemma shr_1_m mrs : 0 <= shr_m mrs -> shr_m (shr_1 mrs) = shr_m mrs / 2.
Proof.
  destruct mrs as [m r s]. simpl. intros Hm. destruct m as [|[p|p|]|p]; cbn [shr_m shr_1 orb]; try lia; try done.
  - rewrite Pos2Z.inj_xI. apply Z.div_unique with 1; lia.
  - rewrite Pos2Z.inj_xO. apply Z.div_unique with 0; lia.
Qed.

Lemma iter_pos_iter {A} (f : A -> A) p : forall x, SpecFloat.iter_pos f p x = Pos.iter f x p.
Proof.
  induction p as [p IH|p IH|]; intros x; simpl; [| |done].
  - by rewrite !IH, !Pos.iter_swap.
  - by rewrite !IH.
Qed.

Lemma shr_iter p mrs : 0 <= shr_m mrs -> shr_m (SpecFloat.iter_pos shr_1 p mrs) = shr_m mrs / 2 ^ Zpos p.
Proof.
  intros Hm. rewrite iter_pos_iter. induction p as [|p IH] using Pos.peano_ind.
  - simpl Pos.iter. by rewrite shr_1_m.
  - rewrite Pos.iter_succ, shr_1_m, IH by (rewrite IH; apply Z.div_pos; lia).
    rewrite Pos2Z.inj_succ, Z.pow_succ_r, Z.mul_comm, Z.div_div by lia. done.
Qed.

Definition fexp64 (d : Z) : Z := Z.max (d - 53) (-1074).

Lemma fexp64_eq d : fexp 53 1024 d = fexp64 d.
Proof. done. Qed.

Lemma shr_fexp_m m e l :
  0 <= m -> e <= fexp64 (Zdigits2 m + e) ->
  let '(mrs, e') := shr_fexp 53 1024 m e l in
  shr_m mrs = m / 2 ^ (fexp64 (Zdigits2 m + e) - e) /\ e' = fexp64 (Zdigits2 m + e) /\
  (l = loc_Exact -> e' = e -> loc_of_shr_record mrs = loc_Exact).
Proof.
  intros Hm He. unfold shr_fexp. rewrite fexp64_eq. unfold shr.
  assert (Hrec : shr_m (shr_record_of_loc m l) = m) by (by destruct l as [|[]]).
  destruct (fexp64 (Zdigits2 m + e) - e) as [|p|p] eqn:E; [| |lia].
  - rewrite Hrec, Z.div_1_r. split; [done|]. split; [lia|]. by intros -> _.
  - rewrite shr_iter, Hrec by (by rewrite Hrec). split; [done|]. split; [lia|]. intros _. lia.
Qed.

Lemma round_even_cases q l : round_nearest_even q l = q \/ (round_nearest_even q l = q + 1 /\ l <> loc_Exact).
Proof. destruct l as [|[]]; simpl; try (by left); [|by right]. destruct (Z.even q); [by left|by right]. Qed.

Lemma Zdigits2_bounds m : 0 < m -> 2 ^ (Zdigits2 m - 1) <= m < 2 ^ Zdigits2 m.
Proof. destruct m as [|p|p]; try lia. intros _. apply digits_bounds. Qed.

Lemma Zdigits2_nonneg m : 0 <= m -> 0 <= Zdigits2 m.
Proof. destruct m as [|p|p]; simpl; lia. Qed.

(** The mantissa that is kept has at most 53 digits, and exactly 53 above the
    subnormal range. *)
Lemma kept_bounds m e (k := fexp64 (Zdigits2 m + e) - e) :
  0 <= m -> 0 <= k -> 0 <= m / 2 ^ k < 2 ^ 53 /\ (-1074 < e + k -> 2 ^ 52 <= m / 2 ^ k).
Proof.
  intros Hm Hk. pose proof (Zdigits2_nonneg m Hm) as Hd. assert (Hpk : 0 < 2 ^ k) by (apply Z.pow_pos_nonneg; lia).
  destruct (decide (m = 0)) as [->|Hne].
  { rewrite Z.div_0_l by lia. split; [lia|]. subst k. unfold fexp64 in *. simpl in *. lia. }
  destruct (Zdigits2_bounds m ltac:(lia)) as [Hl Hu]. split; [split|].
  - apply Z.div_pos; lia.
  - apply Z.div_lt_upper_bound; [done|]. eapply Z.lt_le_trans; [exact Hu|]. rewrite <- Z.pow_add_r by lia.
    apply Z.pow_le_mono_r; [lia|]. subst k. unfold fexp64. lia.
  - intros Hn. apply Z.div_le_lower_bound; [done|]. rewrite <- Z.pow_add_r by lia.
    etrans; [|exact Hl]. apply Z.pow_le_mono_r; [lia|]. subst k. unfold fexp64 in *. lia.
Qed.

Lemma canon_intro q e : 0 < q < 2 ^ 53 -> -1074 <= e <= 971 -> (-1074 < e -> 2 ^ 52 <= q) ->
  exists p, q = Zpos p /\ canon p e.
Proof.
  intros Hq He Hn. destruct q as [|p|p]; try lia. exists p. split; [done|]. unfold canon.
  pose proof (digits_lt p 53 ltac:(lia) ltac:(lia)) as Hd.
  destruct (decide (Zpos (digits2_pos p) = 53)) as [Heq|Hne]; [by left|right]. split; [lia|].
  destruct (decide (e = -1074)) as [|Hn']; [done|exfalso]. specialize (Hn ltac:(lia)).
  pose proof (digits_bounds p) as [_ Hu].
  assert (2 ^ Zpos (digits2_pos p) <= 2 ^ 52) by (apply Z.pow_le_mono_r; lia). lia.
Qed.

(** The result of a rounding: a number, between the two neighbours of the exact
    value, and the value itself when nothing is cut off. *)
Lemma round_spec m e l (E := fexp64 (Zdigits2 m + e)) (Q := m / 2 ^ (E - e)) :
  0 <= m -> e <= E -> E <= 970 ->
  let r := binary_round_aux 53 1024 false m e l in
  num r /\ (IZR Q * bp E <= val r <= (IZR Q + 1) * bp E)%R /\
  (l = loc_Exact -> E = e -> val r = (IZR m * bp e)%R).
Proof.
  intros Hm He HE. cbn zeta. unfold binary_round_aux.
  pose proof (shr_fexp_m m e l Hm He) as Hs. destruct (shr_fexp 53 1024 m e l) as [mrs e1].
  destruct Hs as (Hq & -> & Hloc). fold E Q in Hq. rewrite Hq. fold E in Hloc |- *.
  destruct (kept_bounds m e Hm ltac:(subst E; lia)) as [HQ HQn]. fold E in HQ, HQn. fold Q in HQ, HQn.
  replace (e + (E - e)) with E in HQn by lia.
  assert (HE0 : -1074 <= E) by (subst E; unfold fexp64; lia).
  set (q := round_nearest_even Q (loc_of_shr_record mrs)).
  assert (Hqc : q = Q \/ (q = Q + 1 /\ ~ (l = loc_Exact /\ E = e))).
  { destruct (round_even_cases Q (loc_of_shr_record mrs)) as [|[? Hne]]; [by left|right]. split; [done|].
    intros [H1 H2]. apply Hne. by apply Hloc. }
  assert (Hqr : 0 <= q <= 2 ^ 53) by lia. pose proof (bp_pos E) as HbE.
  assert (Hfin : exists m2 e2, shr_fexp 53 1024 q E loc_Exact = (m2, e2) /\ 0 <= shr_m m2 < 2 ^ 53 /\ E <= e2 <= 971 /\
    (-1074 < e2 -> 2 ^ 52 <= shr_m m2) /\ (IZR (shr_m m2) * bp e2 = IZR q * bp E)%R).
  { destruct (decide (q = 2 ^ 53)) as [Heq|Hne].
    - assert (Hd : Zdigits2 q = 54) by (by rewrite Heq).
      pose proof (shr_fexp_m q E loc_Exact ltac:(lia)) as Hs. rewrite Hd in Hs.
      replace (fexp64 (54 + E)) with (E + 1) in Hs by (unfold fexp64; lia). specialize (Hs ltac:(lia)).
      destruct (shr_fexp 53 1024 q E loc_Exact) as [m2 e2]. destruct Hs as (Hm2 & -> & _).
      replace (E + 1 - E) with 1 in Hm2 by lia. rewrite Heq in Hm2. change (2 ^ 53 / 2 ^ 1) with (2 ^ 52) in Hm2.
      exists m2, (E + 1). rewrite Hm2, Heq. split_and!; try lia; [done|]. rewrite bp_add.
      change (bp 1) with (2 * 1)%R. change (IZR (2 ^ 53)) with (IZR (2 * 2 ^ 52)). rewrite mult_IZR. ring.
    - assert (Hd : fexp64 (Zdigits2 q + E) <= E).
      { destruct q as [|p|p]; [simpl; unfold fexp64; lia| |lia].
        pose proof (digits_lt p 53 ltac:(lia) ltac:(lia)). simpl. unfold fexp64. lia. }
      unfold shr_fexp. rewrite fexp64_eq. exists (shr_record_of_loc q loc_Exact), E.
      unfold shr. destruct (fexp64 (Zdigits2 q + E) - E) as [|p|p] eqn:Ex; [| lia |].
      all: simpl shr_m; split_and!; try done; try lia. }
  destruct Hfin as (m2 & e2 & -> & Hm2 & He2 & Hn2 & Hv).
  assert (Hb : (IZR Q * bp E <= IZR q * bp E <= (IZR Q + 1) * bp E)%R).
  { destruct Hqc as [-> | [-> _]]; [nra|]. rewrite plus_IZR. nra. }
  assert (Hex : l = loc_Exact -> E = e -> (IZR q * bp E = IZR m * bp e)%R).
  { intros H1 H2. destruct Hqc as [-> | [_ Hc]]; [|by destruct Hc]. subst Q. rewrite H2, Z.sub_diag, Z.div_1_r. done. }
  destruct (decide (shr_m m2 = 0)) as [Hz|Hnz].
  - rewrite Hz in *. simpl. rewrite Rmult_0_l in Hv. split; [done|]. rewrite <- Hv in Hb, Hex. split; [lra|done].
  - destruct (canon_intro (shr_m m2) e2 ltac:(lia) ltac:(lia) Hn2) as (p & Hp & Hc). rewrite Hp.
    rewrite (proj2 (Z.leb_le e2 (1024 - 53))) by lia. simpl. rewrite <- Hp, Hv. split; [done|]. split; [done|done].
Qed.

(** ** One operation *)

Definition ulp : R := bp (-52).
Definition tiny : R := bp (-1074).
Definition huge : R := bp 900.

Lemma bp_le_inv a b : (bp a <= bp b)%R -> a <= b.
Proof.
  intros H. destruct (Z.le_gt_cases a b) as [|Hgt]; [done|exfalso].
  assert (Hs : (bp (b + 1) <= bp a)%R) by (apply bp_le; lia). rewrite bp_add in Hs. change (bp 1) with (2 * 1)%R in Hs.
  pose proof (bp_pos b). lra.
Qed.

(** [r] is the value [v] up to one unit in the last place, and not below a power
    of two [v] is not below. *)
Definition near (r : float64) (v : R) : Prop :=
  num r /\ (Rabs (val r - v) <= v * ulp + tiny)%R /\
  forall j, -1074 <= j -> (bp j <= v)%R -> (bp j <= val r)%R.

Lemma near_exact r v : num r -> val r = v -> near r v.
Proof.
  intros Hn Hv. split; [done|]. split; [|by rewrite Hv]. rewrite Hv, Rminus_diag, Rabs_R0. pose proof (val_nonneg r). rewrite Hv in *.
  unfold ulp, tiny. pose proof (bp_pos (-52)). pose proof (bp_pos (-1074)). nra.
Qed.

Lemma round_near m e l v :
  0 < m -> e <= fexp64 (Zdigits2 m + e) -> (IZR m * bp e <= v < (IZR m + 1) * bp e)%R -> (v <= huge)%R ->
  near (binary_round_aux 53 1024 false m e l) v.
Proof.
  intros Hm He Hv Hh. set (E := fexp64 (Zdigits2 m + e)) in *. destruct (Zdigits2_bounds m Hm) as [Hdl Hdu].
  pose proof (Zdigits2_nonneg m ltac:(lia)) as Hd0.
  assert (Hd1 : 1 <= Zdigits2 m) by (destruct m; simpl; lia).
  assert (Hlow : (bp (Zdigits2 m - 1 + e) <= v)%R).
  { rewrite bp_add, <- bp_IZR by lia. pose proof (bp_pos e). apply IZR_le in Hdl. nra. }
  assert (HE : E <= 970).
  { assert (Zdigits2 m - 1 + e <= 900) by (apply bp_le_inv; unfold huge in Hh; lra). subst E. unfold fexp64. lia. }
  destruct (round_spec m e l ltac:(lia) He HE) as (Hn & Hr & _). fold E in Hr.
  set (Q := m / 2 ^ (E - e)) in *. assert (Hpk : 0 < 2 ^ (E - e)) by (apply Z.pow_pos_nonneg; lia).
  assert (HbE : bp E = (bp e * IZR (2 ^ (E - e)))%R) by (rewrite bp_IZR, <- bp_add by lia; f_equal; lia).
  assert (H1 : (IZR Q * IZR (2 ^ (E - e)) <= IZR m)%R).
  { rewrite <- mult_IZR. apply IZR_le. subst Q. rewrite Z.mul_comm. apply Z.mul_div_le. lia. }
  assert (H2 : (IZR m + 1 <= (IZR Q + 1) * IZR (2 ^ (E - e)))%R).
  { rewrite <- !plus_IZR, <- mult_IZR. apply IZR_le. subst Q. pose proof (Z.mul_succ_div_gt m (2 ^ (E - e)) Hpk). lia. }
  pose proof (bp_pos e) as Hbe.
  assert (Hq : (IZR Q * bp E <= v <= (IZR Q + 1) * bp E)%R) by (rewrite HbE; split; nra).
  assert (Hdiff : (Rabs (val (binary_round_aux 53 1024 false m e l) - v) <= bp E)%R) by (apply Rabs_le; lra).
  split; [done|]. split.
  2: { intros j Hj Hjv. etransitivity; [|apply Hr]. destruct (kept_bounds m e ltac:(lia) ltac:(fold E; lia)) as [HQ HQn].
       fold E Q in HQ, HQn. replace (e + (E - e)) with E in HQn by lia. destruct (Z.le_gt_cases E j) as [Hle|Hgt].
       - assert (Hb : bp j = (IZR (2 ^ (j - E)) * bp E)%R) by (rewrite bp_IZR, <- bp_add by lia; f_equal; lia).
         pose proof (bp_pos E). rewrite Hb in *. apply Rmult_le_compat_r; [lra|]. apply IZR_le.
         assert (Hlt : (IZR (2 ^ (j - E)) < IZR (Q + 1))%R); [rewrite plus_IZR|apply lt_IZR in Hlt; lia].
         apply (Rmult_lt_reg_r (bp E)); [done|]. rewrite HbE in *. nra.
       - pose proof (bp_le j E ltac:(lia)). specialize (HQn ltac:(lia)). pose proof (bp_pos E).
         assert (1 <= IZR Q)%R by (apply IZR_le; lia). nra. }
  etransitivity; [exact Hdiff|]. unfold ulp, tiny. pose proof (bp_pos (-1074)). pose proof (bp_pos (-52)).
  destruct (decide (E = -1074)) as [->|Hne].
  - assert (0 <= v)%R by (pose proof (bp_pos (Zdigits2 m - 1 + e)); lra). nra.
  - assert (HEd : E = (Zdigits2 m - 1 + e) + -52) by (subst E; unfold fexp64 in *; lia).
    rewrite HEd, bp_add. nra.
Qed.

Lemma shl_align_val m e e' : e' <= e ->
  Zpos (fst (shl_align m e e')) = Zpos m * 2 ^ (e - e') /\ snd (shl_align m e e') = e' /\
  Zpos (digits2_pos (fst (shl_align m e e'))) = Zpos (digits2_pos m) + (e - e').
Proof.
  intros He. unfold shl_align. destruct (e' - e) as [|d|d] eqn:Ed; [|lia|].
  - replace (e - e') with 0 by lia. simpl. lia.
  - replace (e - e') with (Zpos d) by lia. simpl fst. rewrite iter_xO_val, digits_iter_xO. done.
Qed.

(** [binary_round] of a positive integer times a power of two. *)
Lemma binary_round_near p e : (IZR (Zpos p) * bp e <= huge)%R -> near (binary_round 53 1024 false p e) (IZR (Zpos p) * bp e).
Proof.
  intros Hh. unfold binary_round. rewrite fexp64_eq. set (F := fexp64 (Zpos (digits2_pos p) + e)).
  pose proof (bp_pos e) as Hbe.
  destruct (Z.le_gt_cases F e) as [Hle|Hgt].
  - destruct (shl_align_val p e F Hle) as (Hm & He & Hd). destruct (shl_align p e F) as [mz ez]. simpl in *. subst ez.
    assert (Hv : (IZR (Zpos mz) * bp F = IZR (Zpos p) * bp e)%R).
    { rewrite Hm, mult_IZR, bp_IZR by lia. rewrite Rmult_assoc, <- bp_add. do 2 f_equal. lia. }
    apply round_near; [lia| | |done].
    + simpl Zdigits2. rewrite Hd. replace (Zpos (digits2_pos p) + (e - F) + F) with (Zpos (digits2_pos p) + e) by lia. subst F. lia.
    + rewrite <- Hv. pose proof (bp_pos F). lra.
  - unfold shl_align. destruct (F - e) as [|d|d] eqn:Ed; [lia| |lia].
    apply round_near; [lia|simpl Zdigits2; subst F; lia|lra|done].
Qed.

Lemma of_int_near z : 0 <= z < 2 ^ 100 -> near (of_int z) (IZR z).
Proof.
  intros Hz. unfold of_int, binary_normalize. destruct z as [|p|p]; [by apply near_exact| |lia].
  replace (IZR (Zpos p)) with (IZR (Zpos p) * bp 0)%R by (rewrite bp_0; lra). apply binary_round_near.
  rewrite bp_0. assert (IZR (Zpos p) <= IZR (2 ^ 100))%R by (apply IZR_le; lia). rewrite bp_IZR in H by lia.
  pose proof (bp_le 100 900 ltac:(lia)). unfold huge. lra.
Qed.

Lemma of_int_exact z : 0 <= z < 2 ^ 53 -> num (of_int z) /\ val (of_int z) = IZR z.
Proof.
  intros Hz. destruct z as [|p|p]; [done| |lia].
  destruct (of_int_canonical p) as (m & -> & Hd & Hm); [lia|]. pose proof (digits_lt p 53 ltac:(lia) ltac:(lia)) as Hdp.
  simpl. split; [left; lia|]. rewrite Hm, mult_IZR, bp_IZR, Rmult_assoc, <- bp_add by lia.
  replace (53 - Zpos (digits2_pos p) + (Zpos (digits2_pos p) - 53)) with 0 by lia. rewrite bp_0. ring.
Qed.

Lemma add_near x y : num x -> num y -> (val x + val y <= huge)%R -> near (add x y) (val x + val y).
Proof.
  intros Hx Hy Hh. unfold add, SFadd. destruct x as [[]| | |[] mx ex], y as [[]| | |[] my ey]; try done.
  - apply near_exact; [done|simpl; lra].
  - apply near_exact; [done|simpl; lra].
  - apply near_exact; [done|simpl; lra].
  - cbn [cond_Zopp]. set (ez := Z.min ex ey).
    destruct (shl_align_val mx ex ez ltac:(lia)) as (H1 & _ & _). destruct (shl_align_val my ey ez ltac:(lia)) as (H2 & _ & _).
    assert (Hv : (IZR (Zpos (fst (shl_align mx ex ez)) + Zpos (fst (shl_align my ey ez))) * bp ez =
      val (S754_finite false mx ex) + val (S754_finite false my ey))%R).
    { rewrite plus_IZR, H1, H2, !mult_IZR, !bp_IZR by lia. simpl.
      replace ex with ((ex - ez) + ez) at 2 by lia. replace ey with ((ey - ez) + ez) at 2 by lia. rewrite !bp_add. ring. }
    unfold binary_normalize. cbn [Z.add] in *. rewrite <- Hv in Hh |- *. by apply binary_round_near.
Qed.

Lemma sub_near x y : num x -> num y -> (val y <= val x <= huge)%R -> near (sub x y) (val x - val y).
Proof.
  intros Hx Hy Hh. unfold sub, SFsub. pose proof (val_nonneg x) as H0. pose proof (val_nonneg y) as H0'.
  destruct x as [[]| | |[] mx ex], y as [[]| | |[] my ey]; try done.
  - apply near_exact; [done|simpl; lra].
  - exfalso. simpl in Hh. assert (0 < IZR (Zpos my))%R by (apply IZR_lt; lia). pose proof (bp_pos ey). nra.
  - apply near_exact; [done|simpl; lra].
  - cbn [cond_Zopp]. set (ez := Z.min ex ey).
    destruct (shl_align_val mx ex ez ltac:(lia)) as (H1 & _ & _). destruct (shl_align_val my ey ez ltac:(lia)) as (H2 & _ & _).
    set (M := Zpos (fst (shl_align mx ex ez)) - Zpos (fst (shl_align my ey ez))).
    assert (Hv : (IZR M * bp ez = val (S754_finite false mx ex) - val (S754_finite false my ey))%R).
    { subst M. rewrite minus_IZR, H1, H2, !mult_IZR, !bp_IZR by lia. simpl.
      replace ex with ((ex - ez) + ez) at 2 by lia. replace ey with ((ey - ez) + ez) at 2 by lia. rewrite !bp_add. ring. }
    pose proof (bp_pos ez) as Hb. rewrite <- Hv. clearbody M. unfold binary_normalize. destruct M as [|p|p].
    + apply near_exact; [done|simpl; lra].
    + apply binary_round_near. rewrite Hv. lra.
    + exfalso. assert (IZR (Zneg p) < 0)%R by (apply IZR_lt; lia). nra.
Qed.

Lemma num_val m e : num (S754_finite false m e) -> canon m e.
Proof. done. Qed.

Lemma mul_near x y : num x -> num y -> (val x * val y <= huge)%R -> near (mul x y) (val x * val y).
Proof.
  intros Hx Hy Hh. unfold mul, SFmul. destruct x as [[]| | |[] mx ex], y as [[]| | |[] my ey]; try done.
  1-3: apply near_exact; [done|simpl; lra].
  cbn [xorb]. destruct (canon_digits _ _ Hx) as (Hx1 & Hx2 & Hx3). destruct (canon_digits _ _ Hy) as (Hy1 & Hy2 & Hy3).
  assert (Hv : (val (S754_finite false mx ex) * val (S754_finite false my ey) = IZR (Zpos (mx * my)) * bp (ex + ey))%R).
  { simpl. rewrite Pos2Z.inj_mul, mult_IZR, bp_add. ring. }
  rewrite Hv in *. pose proof (bp_pos (ex + ey)). apply round_near; [lia| |lra|done].
  simpl Zdigits2. unfold fexp64. destruct (digits_bounds (mx * my)) as [_ Hu].
  destruct (decide (ex = -1074 /\ ey = -1074)) as [[-> ->]|Hn]; [lia|].
  assert (Hd : 2 ^ 52 <= Zpos (mx * my)). { rewrite Pos2Z.inj_mul. destruct (decide (-1074 < ex)); [specialize (Hx2 ltac:(lia))|specialize (Hy2 ltac:(lia))]; nia. }
  assert (52 < Zpos (digits2_pos (mx * my))); [|lia]. apply (Z.pow_lt_mono_r_iff 2); lia.
Qed.

Lemma new_location_exact n k : 0 < n -> 0 <= k < n -> (new_location n k = loc_Exact <-> k = 0).
Proof.
  intros Hn Hk. unfold new_location, new_location_even, new_location_odd.
  destruct (Z.even n), (Z.eqb_spec k 0); split; try done; intros; subst; done.
Qed.

Lemma div_near x y : num x -> num y -> (0 < val y)%R -> (val x / val y <= huge)%R -> near (div x y) (val x / val y).
Proof.
  intros Hx Hy H0 Hh. unfold div, SFdiv. destruct x as [[]| | |[] mx ex], y as [[]| | |[] my ey]; try done;
    try (simpl in H0; lra).
  { apply near_exact; [done|simpl; unfold Rdiv; lra]. }
  unfold SFdiv_core_binary. rewrite fexp64_eq. cbn [Zdigits2]. set (D := Zpos (digits2_pos mx) + ex - (Zpos (digits2_pos my) + ey)).
  set (e' := Z.min (fexp64 D) (ex - ey)). set (s := ex - ey - e').
  assert (Hs : match s with Z0 => Zpos mx | Zpos _ => Z.shiftl (Zpos mx) s | Zneg _ => 0 end = Zpos mx * 2 ^ s).
  { assert (0 <= s) by lia. destruct s as [|p|p]; [simpl; lia| |lia]. apply Z.shiftl_mul_pow2. lia. }
  rewrite Hs. set (m' := Zpos mx * 2 ^ s).
  pose proof (Z.div_eucl_eq m' (Zpos my) ltac:(lia)) as Hqr. pose proof (Z.mod_pos_bound m' (Zpos my) ltac:(lia)) as Hr.
  unfold Z.modulo in Hr. destruct (Z.div_eucl m' (Zpos my)) as [q rr]. cbn [xorb].
  assert (Hps : 0 < 2 ^ s) by (apply Z.pow_pos_nonneg; lia).
  destruct (digits_bounds mx) as [Hmx _]. destruct (digits_bounds my) as [_ Hmy].
  assert (Hv : (val (S754_finite false mx ex) / val (S754_finite false my ey) = IZR m' / IZR (Zpos my) * bp e')%R).
  { simpl. subst m'. rewrite mult_IZR, bp_IZR by lia. replace (bp ex) with (bp s * bp e' * bp ey)%R.
    - assert (bp ey <> 0)%R by (pose proof (bp_pos ey); lra). assert (IZR (Zpos my) <> 0)%R by (apply IZR_neq; lia).
      field. by split.
    - rewrite <- !bp_add. f_equal. subst s. lia. }
  assert (Hmy0 : (0 < IZR (Zpos my))%R) by (apply IZR_lt; lia). pose proof (bp_pos e') as Hbe.
  assert (Hdq : Zpos (digits2_pos mx) + s - Zpos (digits2_pos my) <= Zdigits2 q /\ 0 <= q).
  { assert (Hq0 : 0 <= q) by (subst m'; nia). split; [|done].
    destruct (Z.le_gt_cases (Zpos (digits2_pos mx) + s - Zpos (digits2_pos my)) 0) as [|Hpos];
      [pose proof (Zdigits2_nonneg q Hq0); lia|].
    assert (Hlow : 2 ^ (Zpos (digits2_pos mx) - 1 + s) < (q + 1) * 2 ^ Zpos (digits2_pos my)).
    { rewrite Z.pow_add_r by lia. subst m'. nia. }
    replace (Zpos (digits2_pos mx) - 1 + s) with ((Zpos (digits2_pos mx) + s - Zpos (digits2_pos my) - 1) + Zpos (digits2_pos my)) in Hlow by lia.
    rewrite Z.pow_add_r in Hlow by lia. assert (Hp2 : 0 < 2 ^ Zpos (digits2_pos my)) by (apply Z.pow_pos_nonneg; lia).
    assert (Hq1 : 2 ^ (Zpos (digits2_pos mx) + s - Zpos (digits2_pos my) - 1) <= q) by nia.
    assert (Hqp : 0 < 2 ^ (Zpos (digits2_pos mx) + s - Zpos (digits2_pos my) - 1)) by (apply Z.pow_pos_nonneg; lia).
    assert (0 < q) by lia.
    destruct (Zdigits2_bounds q) as [_ Hu]; [done|].
    assert (Zpos (digits2_pos mx) + s - Zpos (digits2_pos my) - 1 < Zdigits2 q); [|lia].
    pose proof (Zdigits2_nonneg q Hq0). apply (Z.pow_lt_mono_r_iff 2); lia. }
  destruct Hdq as [Hdq Hq0]. rewrite Hv in *.
  assert (Hm' : (IZR m' = IZR (Zpos my) * IZR q + IZR rr)%R) by (rewrite <- mult_IZR, <- plus_IZR; f_equal; lia).
  assert (Hrr : (0 <= IZR rr < IZR (Zpos my))%R) by (split; [apply IZR_le|apply IZR_lt]; lia).
  assert (Hquot : (IZR q <= IZR m' / IZR (Zpos my) < IZR q + 1)%R).
  { assert (Ht : (IZR m' / IZR (Zpos my) * IZR (Zpos my) = IZR m')%R) by (field; lra). split.
    - apply (Rmult_le_reg_r (IZR (Zpos my))); lra.
    - apply (Rmult_lt_reg_r (IZR (Zpos my))); lra. }
  assert (Hmin : e' <= fexp64 D) by apply Z.le_min_l.
  assert (HDq : D <= Zdigits2 q + e') by (unfold D, s in *; lia).
  assert (He' : e' <= fexp64 (Zdigits2 q + e')).
  { unfold fexp64 in *. lia. }
  destruct (decide (q = 0)) as [Hz|Hnz].
  - subst q. simpl Zdigits2 in *. assert (HE : fexp64 (0 + e') = -1074 /\ e' <= -1074).
    { unfold fexp64 in *. lia. }
    destruct HE as [HE He1]. destruct (round_spec 0 e' (new_location (Zpos my) rr)) as (Hn & Hb & _); [lia|done|simpl Zdigits2; rewrite HE; lia|].
    simpl Zdigits2 in Hb. rewrite HE, Z.div_0_l in Hb by (apply Z.pow_nonzero; lia).
    split; [done|]. split.
    2: { intros j Hj Hjv. exfalso. apply (bp_le (-1074)) in Hj. pose proof (bp_le _ _ He1). pose proof (bp_pos e').
         set (t := (IZR m' / IZR (Zpos my))%R) in *. nra. }
    pose proof (bp_le _ _ He1) as Hbl. fold tiny in Hb, Hbl. pose proof (bp_pos (-52)). unfold ulp.
    set (t := (IZR m' / IZR (Zpos my))%R) in *. assert (Ht : (0 <= t * bp e' <= tiny)%R) by nra.
    assert (0 <= t * bp e' * bp (-52))%R by (apply Rmult_le_pos; lra). apply Rabs_le. lra.
  - apply round_near; [lia|done|nra|done].
Qed.

(** ** Comparisons *)

Lemma lt_exp m1 e1 m2 e2 : canon m1 e1 -> canon m2 e2 -> e1 < e2 -> (IZR (Zpos m1) * bp e1 < IZR (Zpos m2) * bp e2)%R.
Proof.
  intros H1 H2 He. destruct (canon_digits _ _ H1) as (Hu & _ & He1). destruct (canon_digits _ _ H2) as (_ & Hl & _).
  specialize (Hl ltac:(lia)). apply IZR_lt in Hu. apply IZR_le in Hl.
  assert (Hb : (2 * bp e1 <= bp e2)%R).
  { etransitivity; [|apply (bp_le (e1 + 1)); lia]. rewrite bp_add. change (bp 1) with (2 * 1)%R. lra. }
  pose proof (bp_pos e1). change (2 ^ 53) with (2 * 2 ^ 52) in Hu. rewrite mult_IZR in Hu. nra.
Qed.

Lemma ltb_val x y : num x -> num y -> ltb x y = true <-> (val x < val y)%R.
Proof.
  intros Hx Hy. unfold ltb, SFltb, SFcompare. destruct x as [[]| | |[] m1 e1], y as [[]| | |[] m2 e2]; try done; simpl.
  - split; [done|lra].
  - split; [|done]. intros _. apply Rmult_lt_0_compat; [apply IZR_lt; lia|apply bp_pos].
  - split; [done|]. intros H. assert (0 < IZR (Zpos m1) * bp e1)%R by (apply Rmult_lt_0_compat; [apply IZR_lt; lia|apply bp_pos]). lra.
  - destruct (Z.compare_spec e1 e2) as [->|H|H].
    + change (Pos.compare_cont Eq m1 m2) with (Pos.compare m1 m2). pose proof (bp_pos e2).
      destruct (Pos.compare_spec m1 m2) as [->|Hm|Hm]; split; try done; intros.
      * lra.
      * apply Rmult_lt_compat_r; [done|]. by apply IZR_lt.
      * assert (IZR (Zpos m2) < IZR (Zpos m1))%R by (by apply IZR_lt). nra.
    + split; [|done]. intros _. by apply lt_exp.
    + split; [done|]. intros Hl. pose proof (lt_exp _ _ _ _ Hy Hx H). lra.
Qed.

Lemma ltb_false x y : num x -> num y -> ltb x y = false <-> (val y <= val x)%R.
Proof. intros Hx Hy. rewrite <- not_true_iff_false, ltb_val by done. lra. Qed.

Lemma near_num r v : near r v -> num r.
Proof. by intros []. Qed.

Lemma near_le r v : near r v -> (val r <= v * (1 + ulp) + tiny)%R.
Proof. intros (_ & H & _). pose proof (Rle_abs (val r - v)). lra. Qed.

Lemma near_ge r v : near r v -> (v * (1 - ulp) - tiny <= val r)%R.
Proof. intros (_ & H & _). pose proof (Rle_abs (- (val r - v))). rewrite Rabs_Ropp in *. lra. Qed.

Lemma near_floor r v j : near r v -> -1074 <= j -> (bp j <= v)%R -> (bp j <= val r)%R.
Proof. intros (_ & _ & H). by apply H. Qed.

End FloatError.
