(* ===== verification/JsonAny.v ===== *)
(** * JSON as Go's any

    [json.Unmarshal] into an [interface{}] or a [map[string]any], where a number
    becomes a [float64] ([strconv.ParseFloat], correctly rounded, with a range
    error on overflow), and [json.Marshal] of such a value, where a number is
    printed with the fewest digits that read back ([floatEncoder]). *)

From Stdlib Require Import ZArith Lia Ascii String SpecFloat.
From stdpp Require Import base option list strings.
From S2P Require Import Prelude GoStrings Utf8 Strconv Json JsonSpec JsonMap Float64.

Module JsonAny.
Import GoStrings Utf8 Strconv Json JsonSpec JsonMap Float64.

(** ** Numbers *)

(** The float64 nearest to [± m * 10^e]; [None] on overflow.  The first two tests
    only cut off exponents far outside the range of float64. *)
Definition dec_float (neg : bool) (m e : Z) : option float64 :=
  let r :=
    match m with
    | Zpos p =>
        if 400 <? e then S754_infinity neg
        else if e <? - (400 + Z.log2 m) then S754_zero neg
        else if 0 <=? e then binary_normalize 53 1024 ((if neg then -1 else 1) * (m * 10 ^ e)) 0 neg
        else SFdiv 53 1024 (S754_finite neg p 0) (S754_finite false (Z.to_pos (10 ^ (- e))) 0)
    | _ => S754_zero neg
    end in
  match r with S754_infinity _ | S754_nan => None | _ => Some r end.

(** [strconv.ParseFloat] on a number literal. *)
Definition num_float (n : number) : option float64 :=
  let frac := default [] (n_frac n) in
  let x := match n_exp n with
           | Some (_, sg, ds) => (if bool_decide (sg = Some "-"%char) then -1 else 1) * dec_value ds
           | None => 0
           end in
  dec_float (n_neg n) (dec_value (n_int n ++ frac)) (x - Z.of_nat (length frac)).

(** The decimal exponent of [num/den]: the [p] with [10^(p-1) <= num/den < 10^p],
    found from an estimate that is at most a few too small. *)
Fixpoint raise_exp (fuel : nat) (num den p : Z) : Z :=
  match fuel with
  | O => p
  | S fuel =>
      let le := if 0 <=? p then 10 ^ p * den <=? num else den <=? num * 10 ^ (- p) in
      if le then raise_exp fuel num den (p + 1) else p
  end.

Definition dec_exp (num den : Z) : Z :=
  raise_exp 8 num den ((Z.log2 num - Z.log2 den) * 30103 / 100000 - 2).

(** [num/den / 10^k], rounded down. *)
Definition scaled (num den k : Z) : Z := if 0 <=? k then num / (den * 10 ^ k) else num * 10 ^ (- k) / den.

(** [c * 10^k] reads back as [f]. *)
Definition reads_back (f : float64) (c k : Z) : bool :=
  match dec_float false c k with Some g => SFeqb f g | None => false end.

(** Is the upper neighbour of [c] at least as close to [num/den]? *)
Definition upper_closer (num den c k : Z) : bool :=
  if 0 <=? k then (2 * c + 1) * den * 10 ^ k <=? 2 * num else (2 * c + 1) * den <=? 2 * num * 10 ^ (- k).

(** The shortest digits that read back, trying [n], [n+1], ... of them; seventeen
    always do, so the search does not run out. *)
Fixpoint shortest (fuel : nat) (n : Z) (f : float64) (num den p : Z) : Z * Z :=
  let k := p - n in
  let c := scaled num den k in
  match fuel with
  | O => (Z.max 1 c, k)
  | S fuel =>
      match reads_back f c k, reads_back f (c + 1) k with
      | true, true => (if upper_closer num den c k then c + 1 else c, k)
      | true, false => (c, k)
      | false, true => (c + 1, k)
      | false, false => shortest fuel (n + 1) f num den p
      end
  end.

(** Rounding up can carry into one more digit, a zero. *)
Definition no_carry (ck : Z * Z) : Z * Z := if ck.1 mod 10 =? 0 then (ck.1 / 10, ck.2 + 1) else ck.

(** Digits and exponent of a positive finite float. *)
Definition decimal (m : positive) (e : Z) : Z * Z :=
  let num := if 0 <=? e then Zpos m * 2 ^ e else Zpos m in
  let den := if 0 <=? e then 1 else 2 ^ (- e) in
  no_carry (shortest 17 1 (S754_finite false m e) num den (dec_exp num den)).

Definition zeros (n : Z) : bytes := repeat "0"%char (Z.to_nat n).

(** Format [f]: no exponent. *)
Definition plain_number (neg : bool) (c k : Z) : number :=
  let ds := dec_digits c in
  let int := Z.of_nat (length ds) + k in
  if 0 <=? k then {| n_neg := neg; n_int := ds ++ zeros k; n_frac := None; n_exp := None |}
  else if 0 <? int then
    {| n_neg := neg; n_int := take (Z.to_nat int) ds; n_frac := Some (drop (Z.to_nat int) ds); n_exp := None |}
  else {| n_neg := neg; n_int := ["0"%char]; n_frac := Some (zeros (- int) ++ ds); n_exp := None |}.

(** Format [e]: one digit before the point. *)
Definition exp_number (neg : bool) (c k : Z) : number :=
  let ds := dec_digits c in
  let x := Z.of_nat (length ds) - 1 + k in
  {| n_neg := neg; n_int := take 1 ds; n_frac := match drop 1 ds with [] => None | fs => Some fs end;
     n_exp := Some ("e"%char, Some (if x <? 0 then "-"%char else "+"%char),
                    match Z.abs x with Z0 => ["0"%char] | x => dec_digits x end) |}.

Definition f1e_6 : float64 := div (of_int 1) (of_int 1000000).
Definition f1e21 : float64 := of_int (10 ^ 21).

(** [floatEncoder] on a finite number. *)
Definition fmt_float (f : float64) : number :=
  match f with
  | S754_finite neg m e =>
      let '(c, k) := decimal m e in
      let abs := S754_finite false m e in
      if ltb abs f1e_6 || leb f1e21 abs then exp_number neg c k else plain_number neg c k
  | S754_zero neg => {| n_neg := neg; n_int := ["0"%char]; n_frac := None; n_exp := None |}
  | _ => {| n_neg := false; n_int := ["0"%char]; n_frac := None; n_exp := None |}
  end.

(** ** Values *)

Inductive any :=
| ANull
| ABool (b : bool)
| ANum (f : float64)
| AStr (s : bytes)
| AArr (l : list any)
| AObj (m : gomap any).

Fixpoint all_some {A} (l : list (option A)) : option (list A) :=
  match l with
  | [] => Some []
  | x :: l => a ← x; r ← all_some l; Some (a :: r)
  end.

Definition to_map {A} (l : list (bytes * A)) : gomap A := foldl (fun m kv => put kv.1 kv.2 m) [] l.

(** Decoding a value; [None] is the range error of a number. *)
Fixpoint decode_any (v : json) : option any :=
  match v with
  | JNull => Some ANull
  | JBool b => Some (ABool b)
  | JNum n => ANum <$> num_float n
  | JStr r => Some (AStr (unquote r))
  | JArr l => AArr <$> all_some (List.map decode_any l)
  | JObj l => (AObj ∘ to_map) <$> all_some (List.map (fun kv => pair (unquote kv.1) <$> decode_any kv.2) l)
  end.

Definition unmarshal_any (body : bytes) : option any := parse body ≫= decode_any.

(** [json.Unmarshal(body, &payload)] for a nil [map[string]any]. *)
Definition unmarshal_anymap (body : bytes) : decoded (gomap any) :=
  match unmarshal_any body with
  | Some ANull => DNil
  | Some (AObj m) => DVal m
  | _ => DErr
  end.

(** [json.Marshal] as the tree of its text. *)
Fixpoint encode_any (a : any) : json :=
  match a with
  | ANull => JNull
  | ABool b => JBool b
  | ANum f => JNum (fmt_float f)
  | AStr s => JStr (escape s)
  | AArr l => JArr (List.map encode_any l)
  | AObj m => JObj (List.map (fun kv => (escape kv.1, encode_any kv.2)) m)
  end.

Definition num_of (s : string) : option float64 :=
  '(n, t) ← lex_number (to_bytes s); match t with [] => num_float n | _ => None end.

Definition reprint (s : string) : option string := (fun f => of_bytes (num_text (fmt_float f))) <$> num_of s.

(** The printer agrees with [strconv] on the corner cases of its formats. *)
Example reprint_samples :
  reprint <$> ["0"; "-0"; "1"; "0.1"; "1e21"; "123456789012345678901"; "1e-6"; "0.0000005"; "2.50"; "5e-324";
    "1.7976931348623157e308"; "0.30000000000000004"; "9007199254740993"; "1152921504606846976"; "1e309"] =
  [Some "0"; Some "-0"; Some "1"; Some "0.1"; Some "1e+21"; Some "123456789012345680000"; Some "0.000001"; Some "5e-7";
   Some "2.5"; Some "5e-324"; Some "1.7976931348623157e+308"; Some "0.30000000000000004"; Some "9007199254740992";
   Some "1152921504606847000"; None].
Proof. vm_compute. reflexivity. Qed.

(** ** Lemmas *)

Lemma digits_zeros n : digits (zeros n).
Proof. unfold digits, zeros. apply Forall_forall. intros x Hx%list_elem_of_In%repeat_spec. by subst. Qed.

Lemma plain_number_ok neg c k : 0 < c -> num_ok (plain_number neg c k).
Proof.
  intros Hc. destruct (dec_digits_spec c Hc) as (d & ds & E & Hd & Hds). unfold plain_number. rewrite E.
  destruct (Z.leb_spec 0 k); [|destruct (Z.ltb_spec 0 (Z.of_nat (length (d :: ds)) + k)) as [Hi|Hi]]; split; simpl; try done.
  - right. exists d, (ds ++ zeros k). split_and!; [done..|]. inversion Hds; subst. constructor; [done|].
    apply Forall_app. split; [done|apply digits_zeros].
  - right. destruct (Z.to_nat _) as [|i] eqn:En; [simpl in *; lia|]. simpl. exists d, (take i ds). split_and!; [done..|].
    inversion Hds; subst. constructor; [done|]. by apply Forall_take.
  - split; [|by apply (Forall_drop _ _ (d :: ds))]. intros Hx%(f_equal length). rewrite length_drop in Hx. simpl in *. lia.
  - by left.
  - split; [by destruct (zeros _)|]. apply Forall_app. split; [apply digits_zeros|done].
Qed.

Lemma exp_number_ok neg c k : 0 < c -> num_ok (exp_number neg c k).
Proof.
  intros Hc. destruct (dec_digits_spec c Hc) as (d & ds & E & Hd & Hds). unfold exp_number. rewrite E. cbn [take drop].
  inversion Hds as [|? ? Hd1 Hds']; subst. split; cbn [n_int n_frac n_exp].
  - right. exists d, []. split_and!; [done..|]. by repeat constructor.
  - rewrite drop_0. destruct ds; [done|]. by split.
  - split_and!; [done|by case_match| |].
    + destruct (Z.abs _) as [|p|p] eqn:Ex; [done| |lia]. by destruct (dec_digits_spec (Zpos p)) as (? & ? & -> & _).
    + destruct (Z.abs _) as [|p|p] eqn:Ex; [by repeat constructor| |lia].
      by destruct (dec_digits_spec (Zpos p)) as (? & ? & -> & _ & ?).
Qed.

Lemma reads_back_pos m e c k : reads_back (S754_finite false m e) c k = true -> 0 < c.
Proof. unfold reads_back, dec_float. by destruct c. Qed.

Lemma shortest_pos fuel m e num den p : forall n, 0 < (shortest fuel n (S754_finite false m e) num den p).1.
Proof.
  induction fuel as [|fuel IH]; intros n; cbn [shortest]; [simpl; lia|].
  destruct (reads_back _ _ (p - n)) eqn:E1; destruct (reads_back _ (_ + 1) _) eqn:E2; [..|apply IH]; simpl.
  all: try apply reads_back_pos in E1; try apply reads_back_pos in E2; try lia. by case_match; lia.
Qed.

Lemma decimal_pos m e : 0 < (decimal m e).1.
Proof.
  unfold decimal, no_carry. match goal with |- context [shortest ?a ?b ?c ?d ?x ?y] => pose proof (shortest_pos a m e d x y b) as H; set (ck := shortest a b c d x y) in * end.
  destruct (Z.eqb_spec (ck.1 mod 10) 0); [|done]. cbn [fst]. Z.div_mod_to_equations. lia.
Qed.

Lemma fmt_float_ok f : num_ok (fmt_float f).
Proof.
  destruct f as [s|s| |s m e]; [split; [by left|done|done]..|]. unfold fmt_float.
  pose proof (decimal_pos m e) as Hd. destruct (decimal m e) as [c k]. case_match; [by apply exp_number_ok|by apply plain_number_ok].
Qed.

(** ** The text of a value parses *)

Section any_induction.
Context (P : any -> Prop).
Hypotheses (Hnull : P ANull) (Hbool : forall b, P (ABool b)) (Hnum : forall f, P (ANum f))
  (Hstr : forall s, P (AStr s)) (Harr : forall l, Forall P l -> P (AArr l))
  (Hobj : forall m, Forall (fun kv => P kv.2) m -> P (AObj m)).

Fixpoint any_tree_ind (a : any) : P a :=
  match a with
  | ANull => Hnull
  | ABool b => Hbool b
  | ANum f => Hnum f
  | AStr s => Hstr s
  | AArr l => Harr l ((fix go l : Forall P l :=
      match l with [] => Forall_nil_2 _ | v :: l => Forall_cons_2 _ _ _ (any_tree_ind v) (go l) end) l)
  | AObj m => Hobj m ((fix go l : Forall (fun kv => P kv.2) l :=
      match l with [] => Forall_nil_2 _ | kv :: l => Forall_cons_2 _ _ _ (any_tree_ind kv.2) (go l) end) m)
  end.
End any_induction.

Lemma encode_any_lexed a : lexed (encode_any a).
Proof.
  induction a as [| |f|s|l IH|m IH] using any_tree_ind; simpl; try done.
  - apply fmt_float_ok.
  - apply lit_str_ok, lit_escape.
  - rewrite map_map. by apply Forall_foldr_and.
  - rewrite map_map. apply Forall_foldr_and. eapply Forall_impl; [exact IH|]. intros kv H. simpl.
    split; [apply lit_str_ok, lit_escape|done].
Qed.

(** Decoding does not deepen a value: repeated keys can only drop members. *)
Fixpoint any_depth (a : any) : Z :=
  match a with
  | AArr l => 1 + foldr Z.max 0 (List.map any_depth l)
  | AObj m => 1 + foldr Z.max 0 (List.map (fun kv => any_depth kv.2) m)
  | _ => 0
  end.

Lemma encode_any_depth a : depth (encode_any a) = any_depth a.
Proof.
  induction a as [| |f|s|l IH|m IH] using any_tree_ind; simpl; try done; do 2 f_equal; rewrite map_map.
  all: induction IH as [|v l Hv _ IHl]; simpl in *; [done|]; by rewrite Hv, IHl.
Qed.

Lemma all_some_Forall2 {A} (l : list (option A)) r : all_some l = Some r -> Forall2 (fun x a => x = Some a) l r.
Proof.
  revert r. induction l as [|x l IH]; intros r H; simpl in H; [simplify_eq; constructor|].
  apply bind_Some in H as (a & -> & H). apply bind_Some in H as (r' & Hr & H). simplify_eq. constructor; auto.
Qed.

Lemma to_map_Forall {A} (P : bytes * A -> Prop) l : Forall P l -> Forall P (to_map l).
Proof.
  unfold to_map. intros H. assert (Hnil : Forall P []) by constructor. revert Hnil. generalize (@nil (bytes * A)).
  induction H as [|[k v] l Hx _ IH]; intros acc Hacc; simpl; [done|]. apply IH. by apply put_Forall.
Qed.

Lemma max_le_Forall {A} (f : A -> Z) l b : 0 <= b -> foldr Z.max 0 (List.map f l) <= b <-> Forall (fun x => f x <= b) l.
Proof.
  intros Hb. induction l as [|x l IH]; simpl; [split; [constructor|done]|]. rewrite Forall_cons, <- IH. lia.
Qed.

Lemma decode_any_depth v : forall a, decode_any v = Some a -> any_depth a <= depth v.
Proof.
  induction v as [| |n|r|l IH|l IH] using json_tree_ind; intros a H; simpl in H.
  - by simplify_eq/=.
  - by simplify_eq/=.
  - destruct (num_float n); by simplify_eq/=.
  - by simplify_eq/=.
  - destruct (all_some _) as [r|] eqn:E; simplify_eq/=. apply all_some_Forall2 in E.
    enough (foldr Z.max 0 (List.map any_depth r) <= foldr Z.max 0 (List.map depth l)) by lia.
    apply max_le_Forall; [apply max_nonneg|]. apply Forall2_fmap_l in E. clear -IH E.
    assert (Hb : Forall (fun v => depth v <= foldr Z.max 0 (List.map depth l)) l) by (apply max_le_Forall; [apply max_nonneg|done]).
    revert Hb. generalize (foldr Z.max 0 (List.map depth l)). intros b Hb.
    induction E as [|v a l r Ha _ IHE]; [constructor|]. inversion IH; subst. inversion Hb; subst. constructor; [|auto].
    etrans; [by eauto|done].
  - destruct (all_some _) as [r|] eqn:E; simplify_eq/=. apply all_some_Forall2 in E.
    enough (foldr Z.max 0 (List.map (fun kv => any_depth kv.2) (to_map r)) <= foldr Z.max 0 (List.map (fun kv => depth kv.2) l)) by lia.
    apply max_le_Forall; [apply max_nonneg|]. apply to_map_Forall. apply Forall2_fmap_l in E. clear -IH E.
    assert (Hb : Forall (fun kv => depth kv.2 <= foldr Z.max 0 (List.map (fun kv => depth kv.2) l)) l)
      by (apply max_le_Forall; [apply max_nonneg|done]).
    revert Hb. generalize (foldr Z.max 0 (List.map (fun kv => depth kv.2) l)). intros b Hb.
    induction E as [|kv a l r Ha _ IHE]; [constructor|]. inversion IH; subst. inversion Hb; subst. constructor; [|auto].
    simpl in Ha. destruct (decode_any kv.2) eqn:Ed; simplify_eq/=. etrans; [by eauto|done].
Qed.

Lemma to_map_sorted {A} (l : list (bytes * A)) : sorted (to_map l).
Proof.
  unfold to_map. assert (H : sorted (@nil (bytes * A))) by constructor. revert H. generalize (@nil (bytes * A)).
  induction l as [|kv l IH]; intros acc Hacc; simpl; [done|]. apply IH. by apply put_sorted.
Qed.

(** A decoded payload: ordered, its keys valid UTF-8, its values not too deep. *)
Lemma unmarshal_anymap_ok body m :
  unmarshal_anymap body = DVal m ->
  sorted m /\ Forall (fun kv => valid_utf8 kv.1 /\ 1 + any_depth kv.2 <= maxNestingDepth) m.
Proof.
  unfold unmarshal_anymap, unmarshal_any. destruct (parse body) as [v|] eqn:Ep; [|done]. simpl.
  apply parse_wf in Ep as [_ Hd]. intros H. destruct v as [| |n| |l|l]; simpl in H.
  1,2,4: done. 1: by destruct (num_float n). 1: by destruct (all_some _).
  destruct (all_some _) as [r|] eqn:E; [|done]. injection H as <-. split; [apply to_map_sorted|]. apply to_map_Forall.
  apply all_some_Forall2, Forall2_fmap_l in E. cbn [depth] in Hd.
  assert (Hb : Forall (fun kv => depth kv.2 <= maxNestingDepth - 1) l).
  { apply max_le_Forall; [unfold maxNestingDepth; lia|lia]. }
  clear Hd. induction E as [|kv a l r Ha _ IHE]; [constructor|]. inversion Hb; subst. constructor; [|auto].
  simpl in Ha. destruct (decode_any kv.2) as [x|] eqn:Ed; simplify_eq/=. apply decode_any_depth in Ed.
  split; [apply valid_unquote|lia].
Qed.

End JsonAny.
