(* ===== verification/Regex.v ===== *)
(** * Regular expressions

    The part of Go's [regexp] the program uses: classes of runes, sequence,
    ordered choice, greedy repetition, word boundaries and the end of the text, matched leftmost-first
    over the runes of a string.  [run] is an executable backtracking matcher with
    a continuation; [denotes] is the declarative meaning it is proved against. *)

From Stdlib Require Import ZArith Lia Ascii String.
From stdpp Require Import base option list.
From S2P Require Import Prelude GoStrings Utf8.

Module Regex.
Import GoStrings Utf8.

(** ** Syntax *)

Inductive re :=
| Eps
| Cls (f : Z -> bool)                (* one rune of a class *)
| Seq (a b : re)
| Alt (a b : re)                     (* [a] is preferred *)
| Star (a : re)                      (* greedy *)
| WordB                              (* \b *)
| EndText.                           (* $ *)

Fixpoint times (n : nat) (a : re) : re := match n with O => Eps | S n => Seq a (times n a) end.

(** At most [n], as many as possible. *)
Fixpoint upto (n : nat) (a : re) : re := match n with O => Eps | S n => Alt (Seq a (upto n a)) Eps end.

Definition opt (a : re) : re := upto 1 a.
Definition plus (a : re) : re := Seq a (Star a).
Definition between (lo hi : nat) (a : re) : re := Seq (times lo a) (upto (hi - lo) a).
Definition at_least (lo : nat) (a : re) : re := Seq (times lo a) (Star a).

Fixpoint cat (l : list re) : re := match l with [] => Eps | [a] => a | a :: l => Seq a (cat l) end.
Fixpoint alts (l : list re) : re := match l with [] => Cls (fun _ => false) | [a] => a | a :: l => Alt a (alts l) end.

(** ** Classes *)

Definition rune (c : ascii) : Z := code c.
Definition one (c : ascii) (r : Z) : bool := r =? code c.
Definition rng (lo hi : ascii) (r : Z) : bool := (code lo <=? r) && (r <=? code hi).
Definition any_of (s : string) (r : Z) : bool := existsb (fun c => one c r) (to_bytes s).

Definition is_d (r : Z) : bool := rng "0" "9" r.
(** \s: tab, line feed, form feed, carriage return, space. *)
Definition is_s (r : Z) : bool := (r =? 9) || (r =? 10) || (r =? 12) || (r =? 13) || (r =? 32).
(** [[:space:]] has the vertical tab too. *)
Definition is_space (r : Z) : bool := is_s r || (r =? 11).
Definition is_word (r : Z) : bool := is_d r || rng "a" "z" r || rng "A" "Z" r || one "_" r.

(** Under the flag i a rune stands for its lower case; U+017F folds with s and
    U+212A with k. *)
Definition fold_rune (r : Z) : Z :=
  if rng "A" "Z" r then r + 32 else if r =? 383 then 115 else if r =? 8490 then 107 else r.

Definition folded (f : Z -> bool) (r : Z) : bool := f (fold_rune r).

(** A literal, and one under the flag i (given in lower case). *)
Definition lit_re (s : string) : re := cat (List.map (fun c => Cls (one c)) (to_bytes s)).
Definition ilit (s : string) : re := cat (List.map (fun c => Cls (folded (one c))) (to_bytes s)).

(** ** The matcher *)

Definition word_at (prev : option Z) : bool := match prev with Some r => is_word r | None => false end.

Definition boundary (prev : option Z) (s : list Z) : bool := negb (Bool.eqb (word_at prev) (word_at (head s))).

(** The rounds of a greedy repetition, [n] at most. *)
Definition star_loop {A} (body : (option Z -> list Z -> option A) -> option Z -> list Z -> option A)
    (k : option Z -> list Z -> option A) : nat -> option Z -> list Z -> option A :=
  fix loop n prev s :=
    match n with
    | O => k prev s
    | S n => match body (loop n) prev s with Some x => Some x | None => k prev s end
    end.

(** The rune before the position after [w]. *)
Definition after (prev : option Z) (w : list Z) : option Z := match last w with Some r => Some r | None => prev end.

(** [k] is called with the rune before the rest and the rest; a round that
    matters consumes a rune. *)
Fixpoint run {A} (a : re) (k : option Z -> list Z -> option A) (prev : option Z) (s : list Z) : option A :=
  match a with
  | Eps => k prev s
  | Cls f => match s with r :: s' => if f r then k (Some r) s' else None | [] => None end
  | Seq a b => run a (run b k) prev s
  | Alt a b => match run a k prev s with Some x => Some x | None => run b k prev s end
  | Star a => star_loop (run a) k (length s) prev s
  | WordB => if boundary prev s then k prev s else None
  | EndText => match s with [] => k prev s | _ :: _ => None end
  end.

(** The rest after the preferred match at this position. *)
Definition match_here (a : re) (prev : option Z) (s : list Z) : option (list Z) := run a (fun _ s => Some s) prev s.

Fixpoint search (a : re) (prev : option Z) (s : list Z) : bool :=
  bool_decide (is_Some (match_here a prev s)) ||
  match s with [] => false | r :: s' => search a (Some r) s' end.

(** [MatchString]. *)
Definition MatchString (a : re) (s : bytes) : bool := search a None (runes s).

(** [FindAllString(s, -1)] for an expression without empty matches. *)
Fixpoint find_all (fuel : nat) (a : re) (prev : option Z) (s : list Z) : list (list Z) :=
  match fuel with
  | O => []
  | S fuel =>
      match s with
      | [] => []
      | r :: s' =>
          match match_here a prev s with
          | Some rest =>
              let m := take (length s - length rest) s in
              m :: find_all fuel a (after prev m) rest
          | None => find_all fuel a (Some r) s'
          end
      end
  end.

Definition FindAll (a : re) (s : list Z) : list (list Z) := find_all (length s) a None s.

(** ** Meaning *)

(** [denotes a prev s w t]: after [prev], at [s], which is [w ++ t], [a] matches
    [w]. *)
Inductive denotes : re -> option Z -> list Z -> list Z -> Prop :=
| d_eps prev t : denotes Eps prev [] t
| d_cls f prev r t : f r = true -> denotes (Cls f) prev [r] t
| d_seq a b prev w x t : denotes a prev w (x ++ t) -> denotes b (after prev w) x t -> denotes (Seq a b) prev (w ++ x) t
| d_alt_l a b prev w t : denotes a prev w t -> denotes (Alt a b) prev w t
| d_alt_r a b prev w t : denotes b prev w t -> denotes (Alt a b) prev w t
| d_star_nil a prev t : denotes (Star a) prev [] t
| d_star_cons a prev w x t :
    w <> [] -> denotes a prev w (x ++ t) -> denotes (Star a) (after prev w) x t -> denotes (Star a) prev (w ++ x) t
| d_word prev t : boundary prev t = true -> denotes WordB prev [] t
| d_end prev : denotes EndText prev [] [].

Lemma after_app prev w x : after (after prev w) x = after prev (w ++ x).
Proof. unfold after. rewrite last_app. by destruct (last x). Qed.

Lemma run_sound {A} a : forall (k : option Z -> list Z -> option A) prev s x,
  run a k prev s = Some x -> exists w t, s = w ++ t /\ denotes a prev w t /\ k (after prev w) t = Some x.
Proof.
  induction a as [|f|a IHa b IHb|a IHa b IHb|a IHa| |]; intros k prev s x H.
  - exists [], s. split_and!; [done|constructor|done].
  - simpl in H. destruct s as [|r s]; [done|]. destruct (f r) eqn:E; [|done]. exists [r], s.
    split_and!; [done|by constructor|done].
  - simpl in H. apply IHa in H as (w & t & -> & Hw & H). apply IHb in H as (w' & t' & -> & Hw' & H).
    exists (w ++ w'), t'. rewrite <- after_app. split_and!; [by rewrite app_assoc|by constructor|done].
  - simpl in H. destruct (run a k prev s) eqn:E; [simplify_eq; apply IHa in E|apply IHb in H];
      naive_solver eauto using denotes.
  - cbn [run] in H. set (n := length s) in H. clearbody n. revert prev s H.
    induction n as [|n IHn]; intros prev s H; simpl in H; [exists [], s; split_and!; [done|constructor|done]|].
    destruct (run a (star_loop (run a) k n) prev s) eqn:E.
    + simplify_eq. apply IHa in E as (w & t & -> & Hw & E). apply IHn in E as (w' & t' & -> & Hw' & E).
      destruct (decide (w = [])) as [->|Hne]; [by exists w', t'|].
      exists (w ++ w'), t'. rewrite <- after_app. split_and!; [by rewrite app_assoc|by constructor|done].
    + exists [], s. split_and!; [done|constructor|done].
  - simpl in H. destruct (boundary prev s) eqn:E; [|done]. exists [], s. split_and!; [done|by constructor|done].
  - simpl in H. destruct s; [|done]. exists [], []. split_and!; [done|by constructor|done].
Qed.

(** More rounds do not lose a match. *)
Lemma run_mono a : forall {A B} (k : option Z -> list Z -> option A) (k' : option Z -> list Z -> option B) prev s,
  (forall p t, is_Some (k p t) -> is_Some (k' p t)) -> is_Some (run a k prev s) -> is_Some (run a k' prev s).
Proof.
  induction a as [|f|a IHa b IHb|a IHa b IHb|a IHa| |]; intros A B k k' prev s Hk H; simpl in *.
  - auto.
  - destruct s as [|r s]; [by destruct H|]. destruct (f r); [auto|by destruct H].
  - eapply IHa; [|exact H]. intros p t. by apply IHb.
  - destruct (run a k prev s) eqn:E.
    + destruct (IHa _ _ k k' prev s Hk) as [y ->]; [by rewrite E|by eexists].
    + case_match; [by eexists|]. by eapply IHb.
  - set (n := length s) in *. clearbody n. revert prev s H. induction n as [|n IHn]; intros prev s H; simpl in *; [auto|].
    destruct (run a (star_loop (run a) k n) prev s) eqn:E.
    + destruct (IHa _ _ (star_loop (run a) k n) (star_loop (run a) k' n) prev s) as [y ->]; [auto|by rewrite E|by eexists].
    + case_match; [by eexists|auto].
  - destruct (boundary prev s); [auto|by destruct H].
  - destruct s; [auto|by destruct H].
Qed.

Lemma star_more {A} a (k : option Z -> list Z -> option A) n : forall n' prev s,
  (n <= n')%nat -> is_Some (star_loop (run a) k n prev s) -> is_Some (star_loop (run a) k n' prev s).
Proof.
  induction n as [|n IH]; intros n' prev s Hn H; simpl in H.
  - destruct n'; simpl; [done|]. case_match; [by eexists|done].
  - destruct n' as [|n']; [lia|]. simpl. destruct (run a (star_loop (run a) k n) prev s) eqn:E.
    + destruct (run_mono a (star_loop (run a) k n) (star_loop (run a) k n') prev s) as [y ->]; [|by rewrite E|by eexists].
      intros p t. apply IH. lia.
    + case_match; [by eexists|done].
Qed.

Lemma run_complete a prev w t : denotes a prev w t ->
  forall {A} (k : option Z -> list Z -> option A), is_Some (k (after prev w) t) -> is_Some (run a k prev (w ++ t)).
Proof.
  induction 1 as [prev t|f prev r t Hr|a b prev w x t _ IHa _ IHb|a b prev w t _ IH|a b prev w t _ IH|a prev t|
    a prev w x t Hne _ IHa _ IHs|prev t Hb|prev]; intros A k Hk.
  - done.
  - simpl. by rewrite Hr.
  - simpl. rewrite <- app_assoc. apply IHa. apply IHb. by rewrite after_app.
  - simpl. destruct (IH A k Hk) as [y ->]. by eexists.
  - simpl. destruct (run a k prev (w ++ t)); [by eexists|]. by apply IH.
  - cbn [run]. destruct (length ([] ++ t)) as [|n]; simpl; [done|]. case_match; [by eexists|done].
  - cbn [run]. rewrite <- app_assoc.
    assert (Hlen : exists n, length (w ++ x ++ t) = S n /\ (length (x ++ t) <= n)%nat).
    { rewrite length_app. destruct w; [done|]. simpl. eexists. split; [done|lia]. }
    destruct Hlen as (n & -> & Hn). simpl.
    destruct (IHa A (star_loop (run a) k n)) as [y ->]; [|by eexists].
    specialize (IHs A k). rewrite after_app in IHs. specialize (IHs Hk). cbn [run] in IHs.
    by apply (star_more a k (length (x ++ t))).
  - simpl. by rewrite Hb.
  - done.
Qed.

Lemma after_cons prev r w : after prev (r :: w) = after (Some r) w.
Proof. symmetry. apply (after_app prev [r] w). Qed.

(** The matcher finds a match exactly when there is one. *)
Lemma match_here_iff a prev s : is_Some (match_here a prev s) <-> exists w t, s = w ++ t /\ denotes a prev w t.
Proof.
  split.
  - intros [x H]. apply run_sound in H as (w & t & -> & H & _). eauto.
  - intros (w & t & -> & H). apply (run_complete a prev w t H). by eexists.
Qed.

Lemma search_iff a s : forall prev,
  search a prev s = true <-> exists u w t, s = u ++ w ++ t /\ denotes a (after prev u) w t.
Proof.
  induction s as [|r s IH]; intros prev; simpl; rewrite orb_true_iff, bool_decide_eq_true, match_here_iff.
  - split; [intros [(w & t & E & H)|]; [by exists [], w, t|done]|]. intros (u & w & t & E & H). left.
    destruct u; [by exists w, t|done].
  - rewrite IH. split.
    + intros [(w & t & E & H)|(u & w & t & -> & H)]; [by exists [], w, t|]. exists (r :: u), w, t. by rewrite after_cons.
    + intros ([|r' u] & w & t & E & H); [left; by exists w, t|]. right. simplify_eq/=. exists u, w, t. by rewrite <- (after_cons prev).
Qed.

Lemma search_app a prev u w t : denotes a (after prev u) w t -> search a prev (u ++ w ++ t) = true.
Proof. intros H. apply search_iff. eauto. Qed.

(** *** Building derivations *)

Lemma d_star_cls f w t : forall prev, Forall (fun r => f r = true) w -> denotes (Star (Cls f)) prev w t.
Proof.
  intros prev Hw. revert prev. induction Hw as [|r w Hr _ IH]; intros prev; [constructor|].
  change (r :: w) with ([r] ++ w). constructor; [done|by constructor|apply IH].
Qed.

Lemma d_plus_cls f prev w t : w <> [] -> Forall (fun r => f r = true) w -> denotes (plus (Cls f)) prev w t.
Proof.
  intros Hne Hw. destruct Hw as [|r w Hr Hw]; [done|]. change (r :: w) with ([r] ++ w).
  constructor; [by constructor|by apply d_star_cls].
Qed.

Lemma d_at_least_cls f n : forall prev w t,
  (n <= length w)%nat -> Forall (fun r => f r = true) w -> denotes (at_least n (Cls f)) prev w t.
Proof.
  unfold at_least. induction n as [|n IH]; intros prev w t Hn Hw.
  - change w with ([] ++ w). constructor; [constructor|by apply d_star_cls].
  - destruct Hw as [|r w Hr Hw]; [simpl in Hn; lia|].
    specialize (IH (after prev [r]) w t ltac:(simpl in Hn; lia) Hw).
    inversion IH as [| |? ? ? w1 w2 ? H1 H2| | | | | |]; subst. cbn [times].
    change (r :: w1 ++ w2) with (([r] ++ w1) ++ w2). constructor.
    + constructor; [by constructor|done].
    + by rewrite <- after_app.
Qed.

(** What [FindAll] returns are matches of the expression. *)
Lemma find_all_sound fuel a : forall prev s m,
  m ∈ find_all fuel a prev s -> exists u t, s = u ++ m ++ t /\ denotes a (after prev u) m t.
Proof.
  induction fuel as [|fuel IH]; intros prev s m H; simpl in H; [by apply elem_of_nil in H|].
  destruct s as [|r s]; [by apply elem_of_nil in H|].
  destruct (match_here a prev (r :: s)) as [rest|] eqn:E.
  - apply run_sound in E as (w & t & Es & Hd & Ek). injection Ek as ->. rewrite Es in H.
    replace (length (w ++ rest) - length rest)%nat with (length w) in H by (rewrite length_app; lia).
    rewrite take_app_length in H. apply elem_of_cons in H as [->|H]; [by exists [], rest|].
    apply IH in H as (u & t & -> & H). exists (w ++ u), t. rewrite Es, app_assoc. split; [by rewrite app_assoc|].
    by rewrite <- after_app.
  - apply IH in H as (u & t & -> & H). exists (r :: u), t. by rewrite after_cons.
Qed.

End Regex.
