(* ===== verification/PII.v ===== *)
(** * The personal-information detector

    Models the detector of [src/internal/piiroute/piiroute.go]: the patterns as
    expressions of [Regex], the checksums, the decoded pass over the strings of a
    JSON body, and [DetectPersonal].  The rule predicates are in [Selection]. *)

From Stdlib Require Import ZArith Lia Ascii String.
From stdpp Require Import base option list strings.
From S2P Require Import Prelude GoStrings Utf8 Json JsonSpec JsonMap JsonAny Regex.

Module PII.
Import GoStrings Utf8 Json JsonSpec JsonMap JsonAny Regex.

(** ** Patterns *)

Definition alpha (r : Z) : bool := rng "a" "z" r.
Definition local_char (r : Z) : bool := folded (fun r => alpha r || is_d r || any_of "._%+-" r || (r =? 34)) r.
Definition domain_char (r : Z) : bool := folded (fun r => alpha r || is_d r || any_of ".-" r) r.

Definition emailRe : re :=
  cat [plus (Cls local_char); Cls (one "@"); plus (Cls domain_char); Cls (one "."); at_least 2 (Cls (folded alpha))].

(** [\s.-]? *)
Definition sep_re : re := opt (Cls (fun r => is_s r || one "." r || one "-" r)).
Definition digits_re (n : nat) : re := times n (Cls is_d).

Definition auPhoneRe : re :=
  alts [cat [lit_re "+61"; sep_re; Cls (one "4"); digits_re 2; sep_re; digits_re 3; sep_re; digits_re 3];
        cat [WordB; lit_re "04"; digits_re 2; sep_re; digits_re 3; sep_re; digits_re 3];
        cat [alts [cat [lit_re "+61"; sep_re];
                   cat [lit_re "(0"; Cls (rng "2" "8"); lit_re ")"; sep_re];
                   cat [WordB; lit_re "0"; Cls (any_of "2378"); sep_re]];
             digits_re 4; sep_re; digits_re 4]].

Definition space_opt : re := opt (Cls is_s).

Definition cardCandidateRe : re :=
  alts [cat [WordB; between 12 19 (Seq (Cls is_d) sep_re); WordB];
        cat [WordB; digits_re 3; space_opt; digits_re 3; space_opt; digits_re 3; WordB];
        cat [WordB; digits_re 2; space_opt; digits_re 3; space_opt; digits_re 3; WordB]].

Definition ialts (l : list string) : re := alts (List.map ilit l).

Definition cardKeywordRe : re := cat [WordB; ialts ["card"; "visa"; "mastercard"; "amex"; "pan"; "payment"]; WordB].

Definition tfnKeywordRe : re :=
  cat [WordB; alts [ilit "tfn"; cat [ilit "tax"; plus (Cls is_space); ilit "file"]]; WordB].

Definition addressRe : re :=
  cat [WordB; between 1 4 (Cls is_d); plus (Cls is_s); Cls (folded alpha); plus (Cls (folded alpha)); Cls is_s;
       ialts ["st"; "street"; "rd"; "road"; "ave"; "avenue"; "dr"; "drive"; "ln"; "lane"; "ct"; "court"; "blvd";
              "parade"; "pde"]; WordB].

Definition postcodeRe : re :=
  cat [WordB; ialts ["nsw"; "vic"; "qld"; "wa"; "sa"; "tas"; "nt"; "act"]; plus (Cls is_s); digits_re 4; WordB].

Definition id_char (r : Z) : bool := rng "A" "Z" r || is_d r.

Definition orderRe : re :=
  cat [ilit "order"; Star (Cls (fun r => is_s r || any_of "#:-" r)); alts [ialts ["id"; "no"; "number"]; lit_re "#"];
       Star (Cls is_s); opt (Cls (any_of ":#-")); Star (Cls is_s); Cls id_char;
       at_least 3 (Cls (fun r => id_char r || one "-" r))].

Definition enquiryRe : re :=
  cat [WordB; ialts ["dear"; "hi"; "hello"; "to whom"]; WordB; upto 60 (Cls (fun r => negb (one "." r))); WordB;
       cat [ilit "my "; ialts ["name"; "address"; "phone"; "email"]; ilit " is"]; WordB].

(** ** Checksums *)

Definition keepDigits (m : list Z) : list Z := List.filter is_d m.

Definition digit (r : Z) : Z := r - 48.

(** From the last digit on, every second one doubled. *)
Fixpoint luhn_sum (rev_digits : list Z) (alt : bool) : Z :=
  match rev_digits with
  | [] => 0
  | r :: ds =>
      let d := digit r in
      let d := if alt then let d2 := d * 2 in if 9 <? d2 then d2 - 9 else d2 else d in
      d + luhn_sum ds (negb alt)
  end.

Definition luhnValid (digits : list Z) : bool := luhn_sum (rev digits) false mod 10 =? 0.

Definition tfnWeights : list Z := [1; 4; 3; 7; 5; 8; 6; 9; 2].

Definition weighted (ws ds : list Z) : Z := foldr Z.add 0 (zip_with (fun w r => digit r * w) ws ds).

Definition tfnValid (digits : list Z) : bool :=
  if negb (Nat.eqb (length digits) 9) then false else weighted tfnWeights digits mod 11 =? 0.

(** ** The detector *)

(** One candidate of [panOrTFN]. *)
Definition candidate_hit (cardCtx tfnCtx : bool) (m : list Z) : bool :=
  let digits := keepDigits m in
  let grouped := existsb (any_of " .-") m in
  if Nat.eqb (length digits) 9 && tfnValid digits then tfnCtx || grouped
  else if Nat.leb 13 (length digits) && luhnValid digits then cardCtx || grouped
  else false.

Definition panOrTFN (s : list Z) : bool :=
  existsb (candidate_hit (search cardKeywordRe None s) (search tfnKeywordRe None s)) (FindAll cardCandidateRe s).

Definition matchesAny (text : bytes) : bool :=
  let s := runes text in
  search emailRe None s || search auPhoneRe None s || search addressRe None s || search postcodeRe None s ||
  search orderRe None s || search enquiryRe None s || panOrTFN s.

(** The strings of a decoded value; keys are not among them. *)
Fixpoint walk_strings (a : any) : list bytes :=
  match a with
  | AStr s => [s]
  | AArr l => concat (List.map walk_strings l)
  | AObj m => concat (List.map (fun kv => walk_strings kv.2) m)
  | _ => []
  end.

Definition decodeJSONStrings (body : bytes) : list bytes :=
  match unmarshal_any body with Some a => walk_strings a | None => [] end.

Definition DetectPersonal (body : string) : bool :=
  let b := to_bytes body in
  matchesAny b || existsb matchesAny (decodeJSONStrings b).

(** ** What is detected *)

Lemma email_search pre l d t post :
  l <> [] -> Forall (fun r => local_char r = true) l -> d <> [] -> Forall (fun r => domain_char r = true) d ->
  (2 <= length t)%nat -> Forall (fun r => folded alpha r = true) t ->
  search emailRe None (pre ++ l ++ [64] ++ d ++ [46] ++ t ++ post) = true.
Proof.
  intros Hl1 Hl2 Hd1 Hd2 Ht1 Ht2. replace (pre ++ l ++ [64] ++ d ++ [46] ++ t ++ post)
    with (pre ++ (l ++ [64] ++ d ++ [46] ++ t) ++ post) by (by rewrite <- !app_assoc).
  apply search_app. unfold emailRe. cbn [cat].
  constructor; [by apply d_plus_cls|]. constructor; [by constructor|]. constructor; [by apply d_plus_cls|].
  constructor; [by constructor|]. by apply d_at_least_cls.
Qed.

(** C35: An e-mail address inside any string of a JSON body, however deep and however
    escaped, makes the body personal, provided the body decodes. *)
Theorem email_in_body_detected body a s pre l d t post :
  unmarshal_any (to_bytes body) = Some a -> s ∈ walk_strings a ->
  runes s = pre ++ l ++ [64] ++ d ++ [46] ++ t ++ post ->
  l <> [] -> Forall (fun r => local_char r = true) l -> d <> [] -> Forall (fun r => domain_char r = true) d ->
  (2 <= length t)%nat -> Forall (fun r => folded alpha r = true) t ->
  DetectPersonal body = true.
Proof.
  intros Ha Hs Hr Hl1 Hl2 Hd1 Hd2 Ht1 Ht2. unfold DetectPersonal. apply orb_true_iff. right.
  apply existsb_exists. exists s. split; [unfold decodeJSONStrings; rewrite Ha; by apply list_elem_of_In|].
  unfold matchesAny. rewrite Hr, (email_search pre l d t post) by done. done.
Qed.

(** *** Checksums *)

Definition is_digits (ds : list Z) : Prop := Forall (fun r => is_d r = true) ds.

Lemma digit_range r : is_d r = true -> 0 <= digit r <= 9.
Proof. unfold is_d, rng, digit. rewrite andb_true_iff, !Z.leb_le. change (code "0") with 48. change (code "9") with 57. lia. Qed.

(** What a digit adds to the sum. *)
Definition luhn_term (r : Z) (alt : bool) : Z :=
  let d := digit r in if alt then let d2 := d * 2 in if 9 <? d2 then d2 - 9 else d2 else d.

Lemma luhn_term_inj r r' alt :
  is_d r = true -> is_d r' = true -> 0 <= luhn_term r alt <= 9 /\ (luhn_term r alt = luhn_term r' alt -> r = r').
Proof.
  intros H%digit_range H'%digit_range. unfold luhn_term, digit in *. destruct alt; zbool; lia.
Qed.

(** Replacing one digit moves the sum by a non-zero amount below ten. *)
Lemma luhn_sum_replace l r r' k alt :
  is_d r = true -> is_d r' = true -> r <> r' ->
  exists e, 0 < Z.abs e < 10 /\ luhn_sum (l ++ r' :: k) alt = luhn_sum (l ++ r :: k) alt + e.
Proof.
  intros Hr Hr' Hne. revert alt. induction l as [|x l IH]; intros alt; simpl.
  - fold (luhn_term r alt) (luhn_term r' alt). exists (luhn_term r' alt - luhn_term r alt). split; [|lia].
    destruct (luhn_term_inj r r' alt Hr Hr') as [H1 H2]. destruct (luhn_term_inj r' r alt Hr' Hr) as [H3 _].
    assert (luhn_term r alt <> luhn_term r' alt) by (by intros ?%H2). lia.
  - destruct (IH (negb alt)) as (e & He & ->). exists e. split; [done|]. lia.
Qed.

Lemma weighted_replace l r r' k : forall ws,
  is_d r = true -> is_d r' = true -> r <> r' -> Forall (fun w => 1 <= w <= 10) ws -> length ws = length (l ++ r :: k) ->
  exists e w, 0 < Z.abs e < 10 /\ 1 <= w <= 10 /\ weighted ws (l ++ r' :: k) = weighted ws (l ++ r :: k) + e * w.
Proof.
  unfold weighted. induction l as [|x l IH]; intros ws Hr Hr' Hne Hw Hlen; destruct ws as [|w ws]; try done; simpl.
  - inversion Hw; subst. exists (digit r' - digit r), w. pose proof (digit_range r Hr). pose proof (digit_range r' Hr').
    unfold digit in *. split; [lia|]. split; [lia|ring].
  - inversion Hw; subst. destruct (IH ws) as (e & w' & He & Hw' & E); [done..|by injection Hlen|]. exists e, w'. split; [done|]. split; [done|]. lia.
Qed.

Lemma mul_mod_11 e w : 0 < Z.abs e < 10 -> 1 <= w <= 10 -> (e * w) mod 11 <> 0.
Proof.
  intros He Hw.
  assert (H : w = 1 \/ w = 2 \/ w = 3 \/ w = 4 \/ w = 5 \/ w = 6 \/ w = 7 \/ w = 8 \/ w = 9 \/ w = 10) by lia.
  repeat destruct H as [->|H]; try subst w; Z.div_mod_to_equations; lia.
Qed.

(** A checksum rejects every number that differs from a valid one in a single
    digit, for cards and for tax file numbers. *)
Theorem checksum_catches_one_digit l r r' k :
  is_digits (l ++ r :: k) -> is_d r' = true -> r <> r' ->
  (luhnValid (l ++ r :: k) = true -> luhnValid (l ++ r' :: k) = false) /\
  (tfnValid (l ++ r :: k) = true -> tfnValid (l ++ r' :: k) = false).
Proof.
  intros Hds Hr' Hne. assert (Hr : is_d r = true).
  { apply Forall_app in Hds as [_ Hds]. by inversion Hds. }
  split.
  - unfold luhnValid. rewrite !rev_app_distr. simpl rev. rewrite <- !app_assoc. cbn [app].
    destruct (luhn_sum_replace (rev k) r r' (rev l) false Hr Hr' Hne) as (e & He & ->).
    rewrite Z.eqb_eq, Z.eqb_neq. intros H0. Z.div_mod_to_equations. lia.
  - unfold tfnValid. rewrite !length_app. cbn [length]. destruct (Nat.eqb_spec (length l + S (length k)) 9) as [E|]; [|done].
    simpl negb. cbv iota. destruct (weighted_replace l r r' k tfnWeights Hr Hr' Hne) as (e & w & He & Hw & ->).
    + unfold tfnWeights. repeat constructor; lia.
    + rewrite length_app. simpl. lia.
    + rewrite Z.eqb_eq, Z.eqb_neq. intros H0 H1. apply (mul_mod_11 e w He Hw).
      rewrite Z.add_mod, H0, Z.add_0_l, Z.mod_mod in H1 by lia. done.
Qed.

(** ** Examples and witnesses *)

Definition with_quotes (s : string) : string :=
  of_bytes (List.map (fun c => if Ascii.eqb c "'" then dquote else c) (to_bytes s)).

(** The rows of the repository's detector tests. *)
Example detector_positive :
  forallb DetectPersonal
    ["Send the invoice to sarah.chen@example.com.au please"; "+61 412 345 678 is the number";
     "Ring 02 9876 5432 before noon"; "Customer called back on 0412 345 678 about the order";
     "Ring the shop on (02) 9876 5432 before noon"; "Ship to 42 Wattle Street, Bendigo VIC 3550";
     "Delivery region: NSW 2000 metro only"; "Order #A-10493 for the merino beanie has shipped";
     "Hi team, my name is Dana and my address is 8/12 King St"; "call 0412.345.678 now";
     "card 4242 4242 4242 4242 charged"; "TFN 487 161 275 provided"; "4111 1111 1111 1111 on file";
     "TFN 487161275 given"; with_quotes "{'messages':[{'role':'user','content':'Ship to 8 Wattle St, NSW 3000'}]}"] = true.
Proof. vm_compute. reflexivity. Qed.

Example detector_negative :
  existsb DetectPersonal
    ["You are a shop assistant. Draft a warm product description for a merino beanie. Use Australian spelling.";
     "func main() { fmt.Println(order of operations) }"; "Summarise the quarterly order flow trends by category.";
     "Summarise order number trends by week for the shop"; with_quotes "{'created':1728375600123}";
     "allocated 104857600 bytes"; "see commit 12345678"; "ts=1728375600000000000"] = false.
Proof. vm_compute. reflexivity. Qed.

(** The security code or the expiry date next to a card number hides it: the
    greedy run of digits takes them in, and the checksum fails. *)
Example card_with_code_missed :
  DetectPersonal "card 4111 1111 1111 1111" = true /\ DetectPersonal "card 4111 1111 1111 1111 123" = false /\
  DetectPersonal "card 4111 1111 1111 1111 12/25" = false.
Proof. vm_compute. done. Qed.

(** A number out of the range of float64 anywhere in the body switches the
    decoded pass off, and an escaped address goes through. *)
Example number_hides_email :
  DetectPersonal (with_quotes "{'n':1e308,'content':'user\u0040example.com'}") = true /\
  DetectPersonal (with_quotes "{'n':1e309,'content':'user\u0040example.com'}") = false.
Proof. vm_compute. done. Qed.

Definition ex_body : string := with_quotes "{'messages':[{'content':'mail user\u0040example.com now'}]}".

Lemma email_in_body_detected_witness : DetectPersonal ex_body = true.
Proof.
  destruct (unmarshal_any (to_bytes ex_body)) as [a|] eqn:E; [|vm_compute in E; discriminate].
  apply (email_in_body_detected ex_body a (to_bytes "mail user@example.com now") (code <$> to_bytes "mail ")
    (code <$> to_bytes "user") (code <$> to_bytes "example") (code <$> to_bytes "com") (code <$> to_bytes " now") E).
  - vm_compute in E. injection E as <-. left.
  - vm_compute. reflexivity.
  - discriminate.
  - vm_compute. repeat constructor.
  - discriminate.
  - vm_compute. repeat constructor.
  - vm_compute. repeat constructor.
  - vm_compute. repeat constructor.
Defined.

Lemma checksum_catches_one_digit_witness :
  luhnValid (code <$> to_bytes "4242424242424242") = true /\ luhnValid (code <$> to_bytes "4242424242424243") = false.
Proof.
  split; [vm_compute; reflexivity|].
  destruct (checksum_catches_one_digit (code <$> to_bytes "424242424242424") 50 51 []) as [H _];
    [repeat constructor|reflexivity|discriminate|].
  apply H. vm_compute. reflexivity.
Defined.

End PII.
