(* ===== verification/Release.v ===== *)
(** * Release checks

    Models [src/internal/relcheck/relcheck.go]: which builds are checked, the
    latest tag through the cache, the comparison, and the warning.  The cache
    file is its decoded entry, absent when it cannot be read; the answer of the
    tags endpoint is an argument and its JSON is decoded here. *)

From Stdlib Require Import ZArith Lia Ascii String.
From stdpp Require Import base option list strings.
From S2P Require Import Prelude GoStrings Utf8 Json JsonMap Regex.

Module Release.
Import GoStrings Utf8 Json JsonMap Regex.

(** ** Versions *)

Definition CacheTTL : Duration := 24 * Hour.

Definition is_hex_rune (r : Z) : bool := is_d r || rng "a" "f" r.

(** [-[0-9]+-g[0-9a-f]+(-dirty)?$] *)
Definition aheadOfTag : re :=
  cat [Cls (one "-"); plus (Cls is_d); lit_re "-g"; plus (Cls is_hex_rune); opt (lit_re "-dirty"); EndText].

Definition skippable (current : string) : bool :=
  let c := TrimSpace current in
  (c =s "") || (c =s "dev") || HasSuffix c "-dirty" || MatchString aheadOfTag (to_bytes c).

Definition normalize (v : string) : string := TrimPrefix (TrimSpace v) "v".

(** ** The latest tag *)

Record cacheEntry := { Latest : string; FetchedAt : Time }.

#[export] Instance cacheEntry_eq : EqDecision cacheEntry.
Proof. solve_decision. Defined.

Inductive checkError := RequestFailed (msg : string) | TagsStatus (status : Z) | TagsDecode.

Record answer := { StatusCode : Z; AnswerBody : bytes }.

(** An element of the answer decoded into [struct { Name string }]. *)
Definition tag_name (v : json) : option bytes :=
  match v with
  | JObj ms => string_field "name" ms
  | JNull => Some []
  | _ => None
  end.

(** [json.NewDecoder(body).Decode(&tags)]: the first value of the body. *)
Definition decode_tags (body : bytes) : option (list bytes) :=
  let s := skip_ws body in
  '(v, _) ← value (fuel_for s) 0 s;
  match v with
  | JArr l => mapM tag_name l
  | JNull => Some []
  | _ => None
  end.

(** One call: whether a cache directory is given, the clock at the read and at
    the write, whether the file can be written, and what the endpoint answers. *)
Record call := {
  cached : bool;
  readAt : Time;
  writeAt : Time;
  writable : bool;
  reply : string + answer;
}.

Definition fresh (c : call) (cache : option cacheEntry) : option string :=
  e ← cache; if cached c && (time_sub (readAt c) (FetchedAt e) <? CacheTTL) then Some (Latest e) else None.

(** The result, the cache after it, and whether the endpoint was asked. *)
Definition latestTag (c : call) (cache : option cacheEntry) : (checkError + string) * option cacheEntry * bool :=
  match fresh c cache with
  | Some latest => (inr latest, cache, false)
  | None =>
      match reply c with
      | inl msg => (inl (RequestFailed msg), cache, true)
      | inr a =>
          if negb (StatusCode a =? 200) then (inl (TagsStatus (StatusCode a)), cache, true)
          else
            match decode_tags (AnswerBody a) with
            | None => (inl TagsDecode, cache, true)
            | Some [] => (inr ""%string, cache, true)
            | Some (t :: _) =>
                let latest := of_bytes t in
                (inr latest,
                 if cached c && writable c then Some {| Latest := latest; FetchedAt := writeAt c |} else cache, true)
            end
      end
  end.

(** ** The check *)

Record Result := { Current : string; LatestTag : string; Outdated : bool }.

Definition Check (current : string) (c : call) (cache : option cacheEntry)
  : (option checkError) * Result * option cacheEntry * bool :=
  let res := {| Current := current; LatestTag := ""; Outdated := false |} in
  if skippable current then (None, res, cache, false)
  else
    match latestTag c cache with
    | (inl e, cache, asked) => (Some e, res, cache, asked)
    | (inr latest, cache, asked) =>
        (None, {| Current := current; LatestTag := latest;
                  Outdated := negb (latest =s "") && negb (normalize latest =s normalize current) |}, cache, asked)
    end.

(** [WarnIfOutdated] with a logger: the warning it logs, if any. *)
Definition WarnIfOutdated (current : string) (c : call) (cache : option cacheEntry)
  : option (string * string) * option cacheEntry * bool :=
  let '(err, res, cache, asked) := Check current c cache in
  match err with
  | Some _ => (None, cache, asked)
  | None => (if Outdated res then Some (Current res, LatestTag res) else None, cache, asked)
  end.

(** A history of checks of one tool, and the moments at which a fetched tag was
    cached. *)
Fixpoint history (current : string) (cs : list call) (cache : option cacheEntry) : list Time :=
  match cs with
  | [] => []
  | c :: cs =>
      let '(_, cache', asked) := WarnIfOutdated current c cache in
      (if bool_decide (cache' = cache) || negb asked then [] else [writeAt c]) ++ history current cs cache'
  end.

(** ** Lemmas *)

Lemma latestTag_cache c cache r cache' asked :
  latestTag c cache = (r, cache', asked) ->
  cache' = cache \/
  (exists e, cache' = Some e /\ FetchedAt e = writeAt c /\ cached c = true) /\
  (forall e0, cache = Some e0 -> CacheTTL <= time_sub (readAt c) (FetchedAt e0)).
Proof.
  unfold latestTag. destruct (fresh c cache) as [l|] eqn:Ef; [intros [= <- <- <-]; by left|].
  destruct (reply c) as [m|a]; [intros [= <- <- <-]; by left|].
  destruct (negb _); [intros [= <- <- <-]; by left|].
  destruct (decode_tags _) as [[|t ts]|]; [intros [= <- <- <-]; by left| |intros [= <- <- <-]; by left].
  destruct (cached c) eqn:Ec; [|intros [= <- <- <-]; by left]. destruct (writable c); [|intros [= <- <- <-]; by left].
  cbn [andb]. intros [= <- <- <-]. right. split; [by eexists|]. intros e0 ->.
  unfold fresh in Ef. rewrite Ec in Ef. cbn in Ef.
  destruct (Z.ltb_spec (time_sub (readAt c) (FetchedAt e0)) CacheTTL); [done|lia].
Qed.

Lemma warn_cache current c cache w cache' asked :
  WarnIfOutdated current c cache = (w, cache', asked) ->
  cache' = cache \/
  (exists e, cache' = Some e /\ FetchedAt e = writeAt c /\ cached c = true) /\
  (forall e0, cache = Some e0 -> CacheTTL <= time_sub (readAt c) (FetchedAt e0)).
Proof.
  unfold WarnIfOutdated, Check. destruct (skippable current); [intros [= <- <- <-]; by left|].
  destruct (latestTag c cache) as [[[e|l] cache1] asked1] eqn:E; intros [= <- <- <-]; by eapply latestTag_cache.
Qed.

(** ** Theorems *)

(** A warning says exactly that the newest tag is known and spelled differently
    from the running version, up to white space and a leading v; development
    builds ask nothing and are never warned about. *)
Theorem warning_iff current c cache w cache' asked :
  WarnIfOutdated current c cache = (w, cache', asked) ->
  (skippable current = true -> w = None /\ asked = false /\ cache' = cache) /\
  (is_Some w <-> skippable current = false /\
     exists latest, (latestTag c cache).1.1 = inr latest /\ latest <> ""%string /\ normalize latest <> normalize current).
Proof.
  unfold WarnIfOutdated, Check. destruct (skippable current).
  { intros [= <- <- <-]. split; [done|]. split; [by intros [? ?]|by intros [? _]]. }
  destruct (latestTag c cache) as [[[e|l] cache1] asked1]; intros [= <- <- <-]; (split; [done|]); cbn.
  - split; [by intros [? ?]|]. by intros (_ & l & ? & _).
  - destruct (String.eqb_spec l ""); destruct (String.eqb_spec (normalize l) (normalize current)); cbn;
      (split; [intros [x Hx]|intros (_ & l' & [= <-] & H1 & H2)]); try done. by split; [|exists l].
Qed.

(** One fetch per day: in any history of checks whose clock does not run
    backwards, a tag is fetched and cached again only when the one before is at
    least [CacheTTL] old. *)
Theorem fetches_spaced current cs cache :
  Forall (fun c => readAt c <= writeAt c) cs ->
  (forall e, cache = Some e -> Forall (fun t => CacheTTL <= t - FetchedAt e) (history current cs cache)) /\
  forall i t u, history current cs cache !! i = Some t -> history current cs cache !! S i = Some u -> CacheTTL <= u - t.
Proof.
  intros Hc. revert cache. induction Hc as [|c cs Hrw _ IH]; intros cache; [split; [constructor|done]|].
  cbn [history]. destruct (WarnIfOutdated current c cache) as [[w cache'] asked] eqn:E.
  destruct (IH cache') as [IH1 IH2]. apply warn_cache in E as [->|[(e & -> & He & _) Hold]].
  { rewrite bool_decide_eq_true_2 by done. cbn [orb app]. by split. }
  assert (Hday : forall d x, CacheTTL <= time_sub d x -> CacheTTL <= d - x).
  { intros d x. apply time_sub_ge. unfold CacheTTL, min_int64, max_int64, Hour, Minute, Second. lia. }
  destruct (bool_decide (Some e = cache) || negb asked) eqn:Eb; cbn [app].
  - split; [|done]. intros e0 ->. specialize (Hold e0 eq_refl). specialize (IH1 e eq_refl). eapply Forall_impl; [exact IH1|].
    intros t Ht. apply Hday in Hold. rewrite He in Ht. unfold CacheTTL, Hour, Minute, Second in *. lia.
  - split.
    + intros e0 ->. specialize (Hold e0 eq_refl). apply Hday in Hold. constructor; [lia|]. specialize (IH1 e eq_refl).
      eapply Forall_impl; [exact IH1|]. intros t Ht. rewrite He in Ht. unfold CacheTTL, Hour, Minute, Second in *. lia.
    + intros [|i] t u Ht Hu; cbn in Ht, Hu; [|by eapply IH2]. injection Ht as <-. rewrite <- He.
      specialize (IH1 e eq_refl). eapply Forall_lookup_1 in IH1; [|exact Hu]. done.
Qed.

(** A version that [git describe] prints for a commit past a tag is a
    development build. *)
Theorem describe_skipped current pre ds hs :
  runes (to_bytes (TrimSpace current)) = pre ++ [45] ++ ds ++ [45; 103] ++ hs ->
  ds <> [] -> Forall (fun r => is_d r = true) ds -> hs <> [] -> Forall (fun r => is_hex_rune r = true) hs ->
  skippable current = true.
Proof.
  intros Hr Hd1 Hd2 Hh1 Hh2. unfold skippable. apply orb_true_iff. right. unfold MatchString. rewrite Hr.
  rewrite <- (app_nil_r ([45] ++ ds ++ [45; 103] ++ hs)). apply search_app. unfold aheadOfTag. cbn [cat].
  apply d_seq; [by constructor|]. apply d_seq; [by apply d_plus_cls|].
  change [45; 103] with ([45] ++ [103]). apply d_seq; [apply d_seq; by constructor|].
  rewrite <- (app_nil_r hs). apply d_seq; [by apply d_plus_cls|]. rewrite <- (app_nil_r []).
  apply d_seq; [apply d_alt_r; constructor|]. constructor.
Qed.

(** ** Examples and witnesses *)

Definition tags_json (name : string) : bytes :=
  to_bytes "[{" ++ [dquote] ++ to_bytes "name" ++ [dquote] ++ to_bytes ":" ++ [dquote] ++ to_bytes name ++ [dquote] ++ to_bytes "}]".

Definition ex_call (now : Time) (tag : string) : call :=
  {| cached := true; readAt := now; writeAt := now + 1; writable := true;
     reply := inr {| StatusCode := 200; AnswerBody := tags_json tag |} |}.

(** A build newer than the newest tag is reported as outdated. *)
Example newer_build_warned :
  (WarnIfOutdated "v2.0.0" (ex_call 0 "v1.9.0") None).1.1 = Some ("v2.0.0", "v1.9.0")%string.
Proof. vm_compute. reflexivity. Qed.

Lemma warning_iff_witness : is_Some (WarnIfOutdated "v1.0.0" (ex_call 0 "v1.1.0") None).1.1.
Proof.
  destruct (warning_iff "v1.0.0" (ex_call 0 "v1.1.0") None
    (WarnIfOutdated "v1.0.0" (ex_call 0 "v1.1.0") None).1.1 (WarnIfOutdated "v1.0.0" (ex_call 0 "v1.1.0") None).1.2
    (WarnIfOutdated "v1.0.0" (ex_call 0 "v1.1.0") None).2) as [_ H]; [vm_compute; reflexivity|].
  apply H. split; [vm_compute; reflexivity|]. exists "v1.1.0"%string. split; [vm_compute; reflexivity|]. split; vm_compute; discriminate.
Defined.

Lemma fetches_spaced_witness :
  CacheTTL <= (CacheTTL + 5 + 1) - 1.
Proof.
  destruct (fetches_spaced "v1.0.0" [ex_call 0 "v1.1.0"; ex_call 7 "v1.1.0"; ex_call (CacheTTL + 5) "v1.2.0"] None) as [_ H].
  - repeat constructor; unfold ex_call; cbn; lia.
  - apply (H 0%nat); vm_compute; reflexivity.
Defined.

Lemma describe_skipped_witness : skippable "v1.0.0-11-gabc123" = true.
Proof.
  apply (describe_skipped "v1.0.0-11-gabc123" (code <$> to_bytes "v1.0.0") (code <$> to_bytes "11") (code <$> to_bytes "abc123")).
  - vm_compute. reflexivity.
  - discriminate.
  - repeat constructor.
  - discriminate.
  - repeat constructor.
Defined.

End Release.
