(* ===== verification/KeyPool.v ===== *)
(** * Rotation of a node's API keys

    Models [src/internal/keypool/keypool.go]: a round-robin over the keys of one
    upstream that skips the keys on quota cooldown.  The cursor and the
    deadlines are atomics; each is loaded or stored once per call, so a call is
    modelled as one function of the pool.  The injected clock is [now]. *)

From Stdlib Require Import ZArith Lia.
From stdpp Require Import base option list gmap strings.
From S2P Require Import Prelude.

Module KeyPool.

Record Pool := {
  keys : list string;
  cooldown : Duration;
  idx : Z;                  (* uint64 cursor *)
  coolUntil : list Z;       (* unix nanoseconds, 0 = healthy *)
}.

Definition New (ks : list string) (cd : Duration) : Pool :=
  {| keys := ks; cooldown := cd; idx := 0; coolUntil := replicate (length ks) 0 |}.

Definition size (p : Pool) : Z := Z.of_nat (length (keys p)).

(** [p.coolUntil[i].Load() <= nowNano]. *)
Definition ready_at (p : Pool) (nowNano : Z) (i : nat) : bool :=
  match coolUntil p !! i with
  | Some u => u <=? nowNano
  | None => false
  end.

(** [int((start + uint64(off)) % uint64(n))]. *)
Definition slot (start off n : Z) : nat := Z.to_nat (wrapu64 (start + off) mod n).

(** The scan of [Next]: the first ready slot at an offset of [off .. n-1]. *)
Fixpoint scan (p : Pool) (nowNano start n : Z) (off : Z) (fuel : nat) : option nat :=
  match fuel with
  | O => None
  | S fuel' =>
      let i := slot start off n in
      if ready_at p nowNano i then Some i
      else scan p nowNano start n (off + 1) fuel'
  end.

Definition key_at (p : Pool) (i : nat) : string := default "" (keys p !! i).

Definition bump (p : Pool) : Pool :=
  {| keys := keys p; cooldown := cooldown p; idx := wrapu64 (idx p + 1);
     coolUntil := coolUntil p |}.

(** The key, its index (-1 for the empty pool) and the pool with its cursor
    advanced.  [start] is [p.idx.Add(1) - 1]. *)
Definition Next (now : Time) (p : Pool) : string * Z * Pool :=
  let n := size p in
  if n =? 0 then ("", -1, p)
  else
    let nowNano := unix_nano now in
    let p' := bump p in
    let start := wrapu64 (idx p' - 1) in
    let i :=
      match scan p' nowNano start n 0 (length (keys p)) with
      | Some i => i
      | None => slot start 0 n
      end in
    (key_at p' i, Z.of_nat i, p').

Definition MarkExhausted (now : Time) (i : Z) (p : Pool) : Pool :=
  if (i <? 0) || (size p <=? i) || (cooldown p <=? 0) then p
  else
    {| keys := keys p; cooldown := cooldown p; idx := idx p;
       coolUntil := <[Z.to_nat i := unix_nano (time_add now (cooldown p))]> (coolUntil p) |}.

Definition Cooling (now : Time) (p : Pool) : Z :=
  let nowNano := unix_nano now in
  foldl (fun c u => if nowNano <? u then c + 1 else c) 0 (coolUntil p).

Definition AllCooling (now : Time) (p : Pool) : bool :=
  (0 <? size p) && (Cooling now p =? size p).

(** ** Invariant *)

Record wf (p : Pool) : Prop := {
  wf_len : length (coolUntil p) = length (keys p);
  wf_idx : 0 <= idx p < 2 ^ 64;
  wf_size : size p < 2 ^ 63;
}.

(** ** Lemmas *)

Lemma New_wf ks cd : Z.of_nat (length ks) < 2 ^ 63 -> wf (New ks cd).
Proof. intros H; constructor; simpl; [apply length_replicate | lia | done]. Qed.

Lemma bump_wf p : wf p -> wf (bump p).
Proof. intros []; constructor; simpl; auto; apply wrapu64_range. Qed.

Lemma Next_wf now p : wf p -> wf (Next now p).2.
Proof. intros H; unfold Next; case_match; simpl; auto using bump_wf. Qed.

Lemma MarkExhausted_wf now i p : wf p -> wf (MarkExhausted now i p).
Proof.
  intros []; unfold MarkExhausted; case_match; [by constructor|].
  constructor; simpl; auto. by rewrite length_insert.
Qed.

#[export] Hint Resolve New_wf bump_wf Next_wf MarkExhausted_wf : go.

Lemma slot_lt start off n : 0 < n -> Z.of_nat (slot start off n) < n.
Proof. intros H; unfold slot. pose proof (Z.mod_pos_bound (wrapu64 (start + off)) n H); lia. Qed.

Lemma scan_Some p nowNano start n off fuel i :
  scan p nowNano start n off fuel = Some i ->
  exists k, 0 <= k < Z.of_nat fuel /\ i = slot start (off + k) n /\ ready_at p nowNano i = true /\
    forall j, 0 <= j < k -> ready_at p nowNano (slot start (off + j) n) = false.
Proof.
  revert off; induction fuel as [|fuel IH]; intros off; simpl; [done|].
  destruct (ready_at p nowNano (slot start off n)) eqn:E.
  - intros [= <-]. exists 0. rewrite Z.add_0_r. split_and!; auto; lia.
  - intros H; destruct (IH _ H) as (k & Hk & -> & Hr & Hj).
    exists (k + 1). replace (off + (k + 1)) with (off + 1 + k) by lia.
    split; [lia|]. split; [done|]. split; [done|].
    intros j Hj'. destruct (decide (j = 0)) as [->|]; [by rewrite Z.add_0_r|].
    replace (off + j) with (off + 1 + (j - 1)) by lia. apply Hj; lia.
Qed.

Lemma scan_None p nowNano start n off fuel :
  scan p nowNano start n off fuel = None ->
  forall j, 0 <= j < Z.of_nat fuel -> ready_at p nowNano (slot start (off + j) n) = false.
Proof.
  revert off; induction fuel as [|fuel IH]; intros off; simpl; [lia|].
  case_match eqn:E; [done|]. intros H j Hj.
  destruct (decide (j = 0)) as [->|]; [by rewrite Z.add_0_r|].
  replace (off + j) with (off + 1 + (j - 1)) by lia. apply (IH _ H); lia.
Qed.

(** Every slot is visited by the scan when the cursor does not wrap inside it. *)
Lemma slot_surjective start n i :
  0 <= start -> start + n <= 2 ^ 64 -> Z.of_nat i < n ->
  exists j, 0 <= j < n /\ slot start j n = i.
Proof.
  intros H0 Hw Hi.
  exists ((Z.of_nat i - start) mod n).
  pose proof (Z.mod_pos_bound (Z.of_nat i - start) n ltac:(lia)).
  split; [done|]. unfold slot. rewrite wrapu64_small by lia.
  rewrite Z.add_mod_idemp_r by lia.
  replace (start + (Z.of_nat i - start)) with (Z.of_nat i) by lia.
  rewrite Z.mod_small by lia. lia.
Qed.

(** The cursor handed to the scan is the cursor before the call. *)
Lemma bump_start p : 0 <= idx p < 2 ^ 64 -> wrapu64 (idx (bump p) - 1) = idx p.
Proof.
  intros H; simpl; unfold wrapu64. rewrite Zminus_mod_idemp_l.
  replace (idx p + 1 - 1) with (idx p) by lia. by apply Z.mod_small.
Qed.

Lemma Cooling_filter now p :
  Cooling now p = Z.of_nat (length (filter (fun u => unix_nano now < u) (coolUntil p))).
Proof.
  unfold Cooling. set (nn := unix_nano now). generalize (coolUntil p); intros l.
  enough (H : forall c, foldl (fun c u => if nn <? u then c + 1 else c) c l =
                        c + Z.of_nat (length (filter (fun u => nn < u) l))) by apply H.
  induction l as [|u l IH]; intros c; simpl; [lia|].
  rewrite IH, filter_cons. destruct (Z.ltb_spec nn u); case_decide; simpl; lia.
Qed.

Lemma filter_full (P : Z -> Prop) `{!forall x, Decision (P x)} (l : list Z) :
  length (filter P l) = length l <-> Forall P l.
Proof.
  induction l as [|x l IH]; simpl; [split; auto|].
  rewrite filter_cons, Forall_cons. pose proof (length_filter P l). case_decide; simpl.
  - rewrite <- IH. split; [intros; split; [done|lia] | intros [_ ?]; lia].
  - split; [lia | by intros [? _]].
Qed.

(** ** Theorems *)

(** Selection prefers a healthy key: when some key of the pool is off cooldown,
    [Next] returns a key that is off cooldown, at its own index, and it is the
    first such key in cyclic order from the cursor. *)
Theorem keypool_next_healthy now p i0 :
  wf p -> idx p + size p <= 2 ^ 64 -> ready_at p (unix_nano now) i0 = true ->
  exists i k p', Next now p = (k, Z.of_nat i, p') /\
    keys p !! i = Some k /\ ready_at p (unix_nano now) i = true /\
    exists off, 0 <= off < size p /\ i = slot (idx p) off (size p) /\
      forall j, 0 <= j < off -> ready_at p (unix_nano now) (slot (idx p) j (size p)) = false.
Proof.
  intros Hwf Hw Hr. pose proof Hwf as [Hl Hi _].
  assert (Hi0 : Z.of_nat i0 < size p).
  { unfold ready_at in Hr. destruct (coolUntil p !! i0) eqn:E; [|done].
    apply lookup_lt_Some in E. unfold size; lia. }
  unfold Next. destruct (Z.eqb_spec (size p) 0); [lia|].
  rewrite bump_start by done.
  destruct (scan (bump p) (unix_nano now) (idx p) (size p) 0 (length (keys p))) as [i|] eqn:Es.
  - destruct (scan_Some _ _ _ _ _ _ _ Es) as (k & Hk & -> & Hri & Hj).
    rewrite Z.add_0_l in *.
    assert (Hlt := slot_lt (idx p) k (size p) ltac:(lia)).
    destruct (lookup_lt_is_Some_2 (keys p) (slot (idx p) k (size p))) as [key Hkey];
      [unfold size in *; lia|].
    eexists _, key, (bump p). split_and!; [| done | done |].
    + unfold key_at. change (keys (bump p)) with (keys p). by rewrite Hkey.
    + exists k. split; [unfold size; lia|]. split; [done|].
      intros j Hjk. specialize (Hj j Hjk). by rewrite Z.add_0_l in Hj.
  - destruct (slot_surjective (idx p) (size p) i0) as (j & Hj & <-); [lia..|].
    pose proof (scan_None _ _ _ _ _ _ Es j) as HN. rewrite Z.add_0_l in HN.
    unfold size in *. specialize (HN ltac:(lia)).
    change (ready_at p (unix_nano now) (slot (idx p) j (Z.of_nat (length (keys p)))) = false) in HN.
    congruence.
Qed.

(** With every key on cooldown the plain round-robin key is returned, never an
    empty answer: the pool refuses nothing. *)
Theorem keypool_next_last_resort now p :
  wf p -> 0 < size p -> AllCooling now p = true ->
  exists k, Next now p = (k, idx p mod size p, bump p) /\
            keys p !! Z.to_nat (idx p mod size p) = Some k.
Proof.
  intros Hwf Hn Hall. pose proof Hwf as [Hl Hi _].
  apply andb_true_iff in Hall as [_ Hc]. apply Z.eqb_eq in Hc. rewrite Cooling_filter in Hc.
  assert (HF : Forall (fun u => unix_nano now < u) (coolUntil p))
    by (apply (filter_full (fun u => unix_nano now < u)); unfold size in Hc; lia).
  assert (Hno : forall i, ready_at p (unix_nano now) i = false).
  { intros i; unfold ready_at. destruct (coolUntil p !! i) as [u|] eqn:E; [|done].
    apply Z.leb_gt. by eapply Forall_lookup_1 in HF. }
  unfold Next. destruct (Z.eqb_spec (size p) 0); [lia|]. rewrite bump_start by done.
  destruct (scan (bump p) (unix_nano now) (idx p) (size p) 0 (length (keys p))) as [i|] eqn:Es.
  - destruct (scan_Some _ _ _ _ _ _ _ Es) as (k & _ & -> & Hri & _).
    change (ready_at p (unix_nano now) (slot (idx p) (0 + k) (size p)) = true) in Hri.
    by rewrite Hno in Hri.
  - assert (Hs : slot (idx p) 0 (size p) = Z.to_nat (idx p mod size p))
      by (unfold slot; rewrite Z.add_0_r, wrapu64_small by lia; done).
    pose proof (Z.mod_pos_bound (idx p) (size p) Hn).
    destruct (lookup_lt_is_Some_2 (keys p) (Z.to_nat (idx p mod size p))) as [k Hk];
      [unfold size in *; lia|].
    exists k. rewrite Hs. unfold key_at; simpl; rewrite Hk; simpl.
    split; [|done]. repeat f_equal. lia.
Qed.

(** A key marked exhausted is not handed out again before its cooldown ends as
    long as another key is healthy. *)
Theorem keypool_exhausted_isolated now now' i i0 p :
  let p' := MarkExhausted now (Z.of_nat i) p in
  wf p -> idx p + size p <= 2 ^ 64 ->
  Z.of_nat i < size p -> 0 < cooldown p ->
  in_int64 (now + cooldown p - unix_epoch) -> unix_nano now' < now + cooldown p - unix_epoch ->
  ready_at p' (unix_nano now') i0 = true ->
  (Next now' p').1.2 <> Z.of_nat i.
Proof.
  intros p' Hwf Hw Hi Hcd Hrng Hnow Hr.
  assert (Hp' : p' = {| keys := keys p; cooldown := cooldown p; idx := idx p;
       coolUntil := <[i := now + cooldown p - unix_epoch]> (coolUntil p) |}).
  { unfold p', MarkExhausted.
    destruct (Z.ltb_spec (Z.of_nat i) 0), (Z.leb_spec (size p) (Z.of_nat i)),
      (Z.leb_spec (cooldown p) 0); simpl; try lia.
    unfold unix_nano, time_add. by rewrite wrap64_small, Nat2Z.id. }
  assert (Hwf' : wf p') by (apply MarkExhausted_wf; done).
  destruct (keypool_next_healthy now' p' i0 Hwf') as (j & k & p'' & -> & _ & Hj & _); auto.
  { rewrite Hp'; done. }
  simpl. intros E%Nat2Z.inj. subst j.
  rewrite Hp' in Hj; unfold ready_at in Hj; simpl in Hj.
  rewrite list_lookup_insert_eq in Hj.
  - apply Z.leb_le in Hj; lia.
  - destruct Hwf. unfold size in *. lia.
Qed.

(** The indices [n] calls in a row answer. *)
Fixpoint next_indices (now : Time) (n : nat) (p : Pool) : list Z :=
  match n with
  | O => []
  | S n' => let '(_, i, p') := Next now p in i :: next_indices now n' p'
  end.

Lemma next_all_ready now p :
  wf p -> 0 < size p -> (forall i, Z.of_nat i < size p -> ready_at p (unix_nano now) i = true) ->
  (Next now p).1.2 = idx p mod size p /\ (Next now p).2 = bump p.
Proof.
  intros [Hl Hi _] Hn Hr. unfold Next. destruct (Z.eqb_spec (size p) 0); [lia|].
  rewrite bump_start by done. split; [|done].
  pose proof (slot_lt (idx p) 0 (size p) Hn) as Hs.
  assert (E : ready_at (bump p) (unix_nano now) (slot (idx p) 0 (size p)) = true) by (apply Hr; done).
  assert (Es : scan (bump p) (unix_nano now) (idx p) (size p) 0 (length (keys p)) =
               Some (slot (idx p) 0 (size p))).
  { unfold size in *. destruct (length (keys p)) as [|m] eqn:El; [lia|].
    simpl. by rewrite E. }
  rewrite Es; simpl. unfold slot. rewrite Z.add_0_r, wrapu64_small by done.
  pose proof (Z.mod_pos_bound (idx p) (size p) Hn). lia.
Qed.

(** With no key on cooldown, [Next] walks the keys in order from the cursor: the
    [k]th answer is index [(cursor + k) mod size], so over one full cycle of a
    cursor that does not wrap every index is returned exactly once. *)
Theorem keypool_round_robin now n p :
  wf p -> 0 < size p -> idx p + Z.of_nat n < 2 ^ 64 ->
  (forall i, Z.of_nat i < size p -> ready_at p (unix_nano now) i = true) ->
  next_indices now n p = (fun k => (idx p + k) mod size p) <$> seqZ 0 (Z.of_nat n).
Proof.
  revert p; induction n as [|n IH]; intros p Hwf Hn Hw Hr; [done|].
  destruct (next_all_ready now p Hwf Hn Hr) as [E1 E2].
  simpl. destruct (Next now p) as [[k i] p'] eqn:E. simpl in E1, E2; subst i p'.
  rewrite IH; auto using bump_wf.
  - simpl. destruct Hwf. rewrite wrapu64_small by lia.
    rewrite fmap_seqZ_S, Z.add_0_r. f_equal.
    apply list_fmap_ext; intros; simpl. f_equal; lia.
  - simpl. destruct Hwf. rewrite wrapu64_small by lia. lia.
Qed.

(** [AllCooling] is true exactly when the pool has keys and each of them is on
    cooldown. *)
Theorem keypool_all_cooling now p :
  wf p ->
  AllCooling now p = true <->
  0 < size p /\ forall i, Z.of_nat i < size p -> ready_at p (unix_nano now) i = false.
Proof.
  intros [Hl _ _]. unfold AllCooling. rewrite andb_true_iff, Z.ltb_lt, Z.eqb_eq, Cooling_filter.
  unfold size at 2. rewrite Nat2Z.inj_iff, <- Hl, (filter_full (fun u => unix_nano now < u)), Forall_lookup.
  split; intros [Hn H]; split; auto.
  - intros i Hi. unfold ready_at. destruct (coolUntil p !! i) eqn:E; [|done].
    apply Z.leb_gt. eauto.
  - intros i u E. apply Z.leb_gt.
    specialize (H i). unfold ready_at in H. rewrite E in H. apply H.
    apply lookup_lt_Some in E. unfold size; lia.
Qed.

(** ** Witnesses *)

Definition ex_pool : Pool := New ["k0"; "k1"; "k2"] 60.

Lemma ex_pool_wf : wf ex_pool.
Proof. apply New_wf. vm_compute. reflexivity. Qed.

Lemma keypool_exhausted_isolated_witness :
  (Next (unix_epoch + 30) (MarkExhausted unix_epoch 0 ex_pool)).1 = ("k1", 1) /\
  (Next (unix_epoch + 30) (MarkExhausted unix_epoch (Z.of_nat 0) ex_pool)).1.2 <> Z.of_nat 0.
Proof.
  split; [vm_compute; reflexivity|].
  apply (keypool_exhausted_isolated unix_epoch (unix_epoch + 30) 0 1 ex_pool).
  - exact ex_pool_wf.
  - vm_compute. discriminate.
  - vm_compute. reflexivity.
  - vm_compute. reflexivity.
  - split; vm_compute; discriminate.
  - vm_compute. reflexivity.
  - vm_compute. reflexivity.
Defined.

Lemma keypool_round_robin_witness : next_indices unix_epoch 4 ex_pool = [0; 1; 2; 0].
Proof.
  rewrite (keypool_round_robin unix_epoch 4 ex_pool).
  - vm_compute. reflexivity.
  - exact ex_pool_wf.
  - vm_compute. reflexivity.
  - vm_compute. reflexivity.
  - intros [|[|[|i]]] Hi; try (vm_compute; reflexivity). unfold size in Hi. simpl in Hi. lia.
Defined.

End KeyPool.
