(* ===== verification/Rotation.v ===== *)
(** * Key-selection policies of the gateway

    Models [src/internal/channel/rotation.go]: the snapshot a policy sees, the
    policy interface, and the three policies.  [RotationPolicy] is the
    interface the store is written against; its contract is the class
    [PolicyContract], which the shipped policies discharge. *)

From Stdlib Require Import ZArith Lia.
From stdpp Require Import base option list gmap strings.
From S2P Require Import Prelude.

Module Rotation.

(** A snapshot of one key's accounting for the current window. *)
Record KeyState := {
  Index : nat;
  Requests : Z;
  Tokens : Z;
  InFlight : Z;
  Errors : Z;
  Reclaimed : Z;
  Estimated : bool;
  Selectable : bool;
  SoftRetired : bool;
  Drained : bool;
  RetiredUntil : Time;
  Reason : string;
}.

(** [Select(states) int], with the policy's own state threaded through. *)
Class RotationPolicy (P : Type) : Type :=
  Select : P -> list KeyState -> Z * P.

(** The contract of the interface's comment: a position in [states], or -1 to
    decline, and never a refusal of a non-empty set by the shipped policies. *)
Class PolicyContract (P : Type) `{RotationPolicy P} : Prop :=
  Select_in_range : forall (p : P) (states : list KeyState),
    states <> [] -> 0 <= (Select p states).1 < Z.of_nat (length states).

(** [cursor.Add(1) - 1] and the advanced cursor. *)
Definition take_cursor (cursor : Z) : Z * Z :=
  let c' := wrapu64 (cursor + 1) in (wrapu64 (c' - 1), c').

(** ** round_robin *)
Record roundRobinPolicy := { rr_cursor : Z }.

#[export] Instance roundRobin_Select : RotationPolicy roundRobinPolicy := fun p states =>
  if Nat.eqb (length states) 0 then (-1, p)
  else
    let '(c, c') := take_cursor (rr_cursor p) in
    (c mod Z.of_nat (length states), {| rr_cursor := c' |}).

(** [byLoad]: settled plus outstanding work. *)
Definition byLoad (k : KeyState) : Z := i64_add (Requests k) (InFlight k).

(** The loop of [pickMin]: [i] is the position of the head of [states]. *)
Fixpoint min_loop (score : KeyState -> Z) (states : list KeyState) (i : nat)
    (best : Z) (tied : list nat) : list nat :=
  match states with
  | [] => tied
  | s :: states' =>
      let v := score s in
      if v <? best then min_loop score states' (S i) v [i]
      else if v =? best then min_loop score states' (S i) best (tied ++ [i])
      else min_loop score states' (S i) best tied
  end.

Definition tied_minima (score : KeyState -> Z) (states : list KeyState) : list nat :=
  match states with
  | [] => []
  | s :: states' => min_loop score states' 1 (score s) [0%nat]
  end.

Definition pickMin (cursor : Z) (states : list KeyState) (score : KeyState -> Z) : Z * Z :=
  match states with
  | [] => (-1, cursor)
  | _ =>
      let tied := tied_minima score states in
      let '(c, c') := take_cursor cursor in
      (Z.of_nat (default 0%nat (tied !! Z.to_nat (c mod Z.of_nat (length tied)))), c')
  end.

(** ** least_used *)
Record leastUsedPolicy := { lu_cursor : Z }.

#[export] Instance leastUsed_Select : RotationPolicy leastUsedPolicy := fun p states =>
  let '(pos, c) := pickMin (lu_cursor p) states byLoad in (pos, {| lu_cursor := c |}).

(** ** least_tokens *)
Record leastTokensPolicy := { lt_cursor : Z }.

#[export] Instance leastTokens_Select : RotationPolicy leastTokensPolicy := fun p states =>
  let score := if existsb Estimated states then byLoad else Tokens in
  let '(pos, c) := pickMin (lt_cursor p) states score in (pos, {| lt_cursor := c |}).

(** ** NewPolicy *)
Inductive policy : Type :=
| PRoundRobin (p : roundRobinPolicy)
| PLeastUsed (p : leastUsedPolicy)
| PLeastTokens (p : leastTokensPolicy).

#[export] Instance policy_Select : RotationPolicy policy := fun p states =>
  match p with
  | PRoundRobin q => let '(n, q') := Select q states in (n, PRoundRobin q')
  | PLeastUsed q => let '(n, q') := Select q states in (n, PLeastUsed q')
  | PLeastTokens q => let '(n, q') := Select q states in (n, PLeastTokens q')
  end.

Definition NewRoundRobinPolicy : roundRobinPolicy := {| rr_cursor := 0 |}.

Definition NewPolicy (n : string) : option policy :=
  if (n =s "") || (n =s "round_robin") then Some (PRoundRobin {| rr_cursor := 0 |})
  else if n =s "least_used" then Some (PLeastUsed {| lu_cursor := 0 |})
  else if n =s "least_tokens" then Some (PLeastTokens {| lt_cursor := 0 |})
  else None.

(** ** Lemmas *)

(** The positions of the minimum, by definition: the specification of the loop
    of [pickMin]. *)
Definition argmin (score : KeyState -> Z) (states : list KeyState) (i : nat) : Prop :=
  exists s, states !! i = Some s /\ forall j t, states !! j = Some t -> score s <= score t.

Lemma min_loop_spec score pre states best tied :
  (exists i0 s0, pre !! i0 = Some s0 /\ score s0 = best) ->
  (forall j t, pre !! j = Some t -> best <= score t) ->
  (forall i, i ∈ tied <-> exists s, pre !! i = Some s /\ score s = best) ->
  NoDup tied ->
  (forall i, i ∈ min_loop score states (length pre) best tied <-> argmin score (pre ++ states) i) /\
  NoDup (min_loop score states (length pre) best tied).
Proof.
  revert pre best tied; induction states as [|s states IH]; intros pre best tied Hex Hle Hmem Hnd.
  - simpl. split; [|done]. rewrite app_nil_r. intros i. rewrite Hmem. split.
    + intros (x & Hx & <-). exists x. auto.
    + intros (x & Hx & Hmin). destruct Hex as (i0 & s0 & H0 & H0b).
      exists x; split; [done|]. pose proof (Hmin _ _ H0). pose proof (Hle _ _ Hx). lia.
  - simpl.
    assert (Hlen : S (length pre) = length (pre ++ [s])) by (rewrite length_app; simpl; lia).
    assert (Hout : length pre ∉ tied).
    { intros Hin%Hmem. destruct Hin as (x & Hx%lookup_lt_Some & _). lia. }
    replace (pre ++ s :: states) with ((pre ++ [s]) ++ states) by (by rewrite <- app_assoc).
    rewrite Hlen.
    assert (Hsplit : forall j t, (pre ++ [s]) !! j = Some t ->
              pre !! j = Some t \/ (j = length pre /\ t = s)).
    { intros j t [H|[Hge H]]%lookup_app_Some; [by left|].
      apply list_lookup_singleton_Some in H as [? <-]. right; split; [lia|done]. }
    assert (Hlast : (pre ++ [s]) !! length pre = Some s)
      by (rewrite lookup_app_r, Nat.sub_diag by lia; done).
    assert (Hpre : forall j t, pre !! j = Some t -> (pre ++ [s]) !! j = Some t)
      by (intros j t H; by apply lookup_app_l_Some).
    destruct (Z.ltb_spec (score s) best); [|destruct (Z.eqb_spec (score s) best)].
    + apply IH.
      * by exists (length pre), s.
      * intros j t [H'|[-> ->]]%Hsplit; [|lia]. specialize (Hle _ _ H'); lia.
      * intros i. rewrite list_elem_of_singleton. split.
        -- intros ->. by exists s.
        -- intros (x & [H'|[-> ->]]%Hsplit & Hx); [|done].
           specialize (Hle _ _ H'); lia.
      * apply NoDup_singleton.
    + apply IH.
      * by exists (length pre), s.
      * intros j t [H'|[-> ->]]%Hsplit; [eauto|lia].
      * intros i. rewrite elem_of_app, list_elem_of_singleton, Hmem. split.
        -- intros [(x & Hx & ?)| ->]; eauto.
        -- intros (x & [H'|[-> ->]]%Hsplit & Hx); eauto.
      * apply NoDup_app. split_and!; [done| |apply NoDup_singleton].
        intros x Hx ->%list_elem_of_singleton. done.
    + apply IH.
      * destruct Hex as (i0 & s0 & H0 & <-). exists i0, s0. auto.
      * intros j t [H'|[-> ->]]%Hsplit; [eauto|lia].
      * intros i. rewrite Hmem. split.
        -- intros (x & Hx & ?). eauto.
        -- intros (x & [H'|[-> ->]]%Hsplit & Hx); [eauto|]. lia.
      * done.
Qed.

Lemma tied_minima_spec score states :
  (forall i, i ∈ tied_minima score states <-> argmin score states i) /\
  NoDup (tied_minima score states).
Proof.
  destruct states as [|s states]; simpl.
  - split; [|constructor]. intros i; split; [intros H; inversion H|].
    intros (x & H & _); done.
  - apply (min_loop_spec score [s] states (score s) [0%nat]).
    + by exists 0%nat, s.
    + intros j t [-> ->]%list_lookup_singleton_Some. lia.
    + intros i. rewrite list_elem_of_singleton. split.
      * intros ->. by exists s.
      * intros (x & [-> ->]%list_lookup_singleton_Some & _). done.
    + apply NoDup_singleton.
Qed.

Lemma min_loop_nonempty score states i best tied :
  tied <> [] -> min_loop score states i best tied <> [].
Proof.
  revert i best tied; induction states as [|s states IH]; intros i best tied H; simpl; [done|].
  repeat case_match; apply IH; [done | by destruct tied | done].
Qed.

Lemma tied_minima_nonempty score states : states <> [] -> tied_minima score states <> [].
Proof. destruct states; [done|]. intros _. by apply min_loop_nonempty. Qed.

Lemma pickMin_unfold cursor states score :
  states <> [] ->
  pickMin cursor states score =
    let tied := tied_minima score states in
    (Z.of_nat (default 0%nat (tied !! Z.to_nat ((take_cursor cursor).1 mod Z.of_nat (length tied)))),
     (take_cursor cursor).2).
Proof. by destruct states. Qed.

Lemma pickMin_tied cursor states score :
  states <> [] ->
  exists i, (pickMin cursor states score).1 = Z.of_nat i /\ i ∈ tied_minima score states /\
    tied_minima score states !!
      Z.to_nat ((take_cursor cursor).1 mod Z.of_nat (length (tied_minima score states))) = Some i.
Proof.
  intros Hne. rewrite (pickMin_unfold cursor states score Hne).
  pose proof (tied_minima_nonempty score states Hne) as Ht.
  set (tied := tied_minima score states) in *.
  destruct (take_cursor cursor) as [c c']; simpl.
  assert (Hlen : 0 < Z.of_nat (length tied)) by (destruct tied; [done | simpl; lia]).
  pose proof (Z.mod_pos_bound c (Z.of_nat (length tied)) Hlen).
  destruct (lookup_lt_is_Some_2 tied (Z.to_nat (c mod Z.of_nat (length tied)))) as [i Hi]; [lia|].
  exists i. rewrite Hi. split_and!; [done | by eapply list_elem_of_lookup_2 | done].
Qed.

(** The answer of [pickMin] is a position of minimal score. *)
Lemma pickMin_argmin cursor states score :
  states <> [] ->
  exists i, (pickMin cursor states score).1 = Z.of_nat i /\ argmin score states i.
Proof.
  intros Hne. destruct (pickMin_tied cursor states score Hne) as (i & E & Hi & _).
  exists i; split; [done|]. by apply tied_minima_spec.
Qed.

Lemma argmin_lt score states i : argmin score states i -> (i < length states)%nat.
Proof. intros (s & H & _). by eapply lookup_lt_Some. Qed.

Lemma pickMin_in_range cursor states score :
  states <> [] -> 0 <= (pickMin cursor states score).1 < Z.of_nat (length states).
Proof.
  intros Hne. destruct (pickMin_argmin cursor states score Hne) as (i & -> & Hi%argmin_lt). lia.
Qed.

#[export] Instance roundRobin_contract : PolicyContract roundRobinPolicy.
Proof.
  intros p states Hne. unfold Select, roundRobin_Select.
  destruct states as [|s st]; [done|]. simpl Nat.eqb. cbv iota.
  destruct (take_cursor (rr_cursor p)) as [c c']; simpl fst.
  apply Z.mod_pos_bound. simpl; lia.
Qed.

#[export] Instance leastUsed_contract : PolicyContract leastUsedPolicy.
Proof.
  intros p states Hne. unfold Select, leastUsed_Select.
  pose proof (pickMin_in_range (lu_cursor p) states byLoad Hne) as H.
  by destruct (pickMin (lu_cursor p) states byLoad).
Qed.

#[export] Instance leastTokens_contract : PolicyContract leastTokensPolicy.
Proof.
  intros p states Hne. unfold Select, leastTokens_Select.
  set (score := if existsb Estimated states then byLoad else Tokens).
  pose proof (pickMin_in_range (lt_cursor p) states score Hne) as H.
  by destruct (pickMin (lt_cursor p) states score).
Qed.

#[export] Instance policy_contract : PolicyContract policy.
Proof.
  intros p states Hne. unfold Select, policy_Select.
  destruct p as [q|q|q];
    [pose proof (roundRobin_contract q states Hne) as H
    |pose proof (leastUsed_contract q states Hne) as H
    |pose proof (leastTokens_contract q states Hne) as H];
    by destruct (Select q states).
Qed.

(** ** Theorems *)

(** Every policy [NewPolicy] can build honours the interface: on a non-empty set
    of selectable keys it answers a position of that set, so the store's
    fallback path is never taken with a shipped policy. *)
Theorem newpolicy_in_range name p states :
  NewPolicy name = Some p -> states <> [] ->
  0 <= (Select p states).1 < Z.of_nat (length states).
Proof. intros _ Hne. by apply Select_in_range. Qed.

Example newpolicy_in_range_witness :
  NewPolicy "least_used" = Some (PLeastUsed {| lu_cursor := 0 |}) /\
  0 <= (Select (PLeastUsed {| lu_cursor := 0 |})
          [{| Index := 0; Requests := 3; Tokens := 0; InFlight := 0; Errors := 0; Reclaimed := 0;
              Estimated := false; Selectable := true; SoftRetired := false; Drained := false;
              RetiredUntil := 0; Reason := "" |}]).1 < 1.
Proof.
  split; [reflexivity|].
  apply (newpolicy_in_range "least_used" (PLeastUsed {| lu_cursor := 0 |})
    [{| Index := 0; Requests := 3; Tokens := 0; InFlight := 0; Errors := 0; Reclaimed := 0;
        Estimated := false; Selectable := true; SoftRetired := false; Drained := false;
        RetiredUntil := 0; Reason := "" |}]); [reflexivity | discriminate].
Defined.

(** [least_used] selects a key of minimal load, [least_tokens] a key of minimal
    token charge, unless some candidate's total is estimated: then it selects by
    load too. *)
Theorem least_policies_minimal (pu : leastUsedPolicy) (pt : leastTokensPolicy) states :
  states <> [] ->
  (exists i, (Select pu states).1 = Z.of_nat i /\ argmin byLoad states i) /\
  (exists i, (Select pt states).1 = Z.of_nat i /\
     argmin (if existsb Estimated states then byLoad else Tokens) states i).
Proof.
  intros Hne. unfold Select, leastUsed_Select, leastTokens_Select. split.
  - pose proof (pickMin_argmin (lu_cursor pu) states byLoad Hne) as H.
    by destruct (pickMin (lu_cursor pu) states byLoad).
  - pose proof (pickMin_argmin (lt_cursor pt) states
      (if existsb Estimated states then byLoad else Tokens) Hne) as H.
    by destruct (pickMin (lt_cursor pt) states (if existsb Estimated states then byLoad else Tokens)).
Qed.

(** Ties are broken round-robin: on an unchanged candidate set, consecutive
    selections of [least_used] walk the minimal keys cyclically, so over as many
    calls as there are minimal keys each of them is chosen once. *)
Fixpoint select_n (n : nat) (p : leastUsedPolicy) (states : list KeyState) : list Z :=
  match n with
  | O => []
  | S n' => let '(pos, p') := Select p states in pos :: select_n n' p' states
  end.

Lemma take_cursor_small c : 0 <= c < 2 ^ 64 - 1 -> take_cursor c = (c, c + 1).
Proof.
  intros H. unfold take_cursor. rewrite (wrapu64_small (c + 1)) by lia.
  rewrite wrapu64_small by lia. f_equal; lia.
Qed.

Theorem least_used_ties_fair n p states :
  states <> [] -> 0 <= lu_cursor p -> lu_cursor p + Z.of_nat n < 2 ^ 64 ->
  let tied := tied_minima byLoad states in
  select_n n p states =
    (fun k => Z.of_nat (default 0%nat
       (tied !! Z.to_nat ((lu_cursor p + k) mod Z.of_nat (length tied))))) <$> seqZ 0 (Z.of_nat n).
Proof.
  intros Hne H0 Hw tied. revert p H0 Hw; induction n as [|n IH]; intros p H0 Hw; [done|].
  simpl select_n. unfold Select at 1, leastUsed_Select at 1.
  rewrite (pickMin_unfold (lu_cursor p) states byLoad Hne). fold tied.
  rewrite take_cursor_small by lia. simpl. rewrite IH by (simpl; lia). simpl lu_cursor.
  rewrite fmap_seqZ_S, Z.add_0_r. f_equal.
  apply list_fmap_ext; intros; simpl. do 5 f_equal; lia.
Qed.

End Rotation.
