(* ===== verification/RotationStore.v ===== *)
(** * The gateway's rotation store

    Models [src/internal/channel/rotation_store.go]: per-route, per-key
    accounting over a tumbling window, with soft and hard caps, admission
    control against the hard cap, leases that age out, and explicit
    retirements.  [Store.mu] makes every method one atomic step, so a method is
    a function on the store; the injected clock is the [now] argument, read
    once per critical section as in the source.  The retirement events a method
    emits to the observer after releasing the lock are part of its result.
    Token counts wrap at 64 bits as in the code; the counters that count
    calls (requests, errors, reclaimed leases) would need 2^63 of them to, and do
    not wrap here.

    The store is generic in the selection policy, used through the
    [RotationPolicy] interface only. *)

From Stdlib Require Import ZArith Lia.
From stdpp Require Import base option list gmap strings.
From S2P Require Import Prelude Float64 Rotation.

Module RotationStore.
Import Rotation.

(** ** Data *)

Definition ReasonCap : string := "cap".
Definition ReasonQuota : string := "quota".
Definition ReasonError : string := "error".
Definition ReasonRateLimit : string := "rate".
Definition ReasonBalance : string := "balance".

Definition TokensUnknown : Z := -1.

Inductive SampleOutcome : Type := OutcomeCompleted | OutcomeFailed.

Record UsageSample := {
  Outcome : SampleOutcome;
  STokens : Z;
  SEstimated : bool;
}.

Record Budget := {
  Window : Duration;
  BTokens : Z;
  BRequests : Z;
  SoftRatio : Float64.float64;
  EstimateTokens : Z;
}.

Definition DefaultSoftRatio : Float64.float64 := Float64.f0_8.
Definition DefaultMaxRetryAfter : Duration := Hour.
Definition MinRetryAfter : Duration := Second.
Definition DefaultQuotaCooldown : Duration := 5 * Minute.
Definition DefaultLeaseTimeout : Duration := 30 * Minute.

(** The mutable per-key record.  [leases] holds the instant of every
    outstanding reservation, oldest first. *)
Record keyState := {
  requests : Z;
  tokens : Z;
  leases : list Time;
  orphaned : Z;
  reclaimed : Z;
  errors : Z;
  estimated : bool;
  drained : bool;
  softRetired : bool;
  retiredUntil : Time;
  retireReason : string;
}.

Definition zero_key : keyState :=
  {| requests := 0; tokens := 0; leases := []; orphaned := 0; reclaimed := 0; errors := 0;
     estimated := false; drained := false; softRetired := false;
     retiredUntil := time_zero; retireReason := "" |}.

Definition inFlight (k : keyState) : Z := Z.of_nat (length (leases k)).

Record routeState := {
  rkeys : list keyState;
  windowStart : Time;
}.

Record Store (P : Type) := {
  routes : gmap string routeState;
  policy : P;
  fallback : roundRobinPolicy;
  budget : Budget;
  maxRetryAfter : Duration;
  leaseTimeout : Duration;
}.
Arguments routes {P} _.
Arguments policy {P} _.
Arguments fallback {P} _.
Arguments budget {P} _.
Arguments maxRetryAfter {P} _.
Arguments leaseTimeout {P} _.

Inductive admissionRefusal : Type := refusalNone | refusalDrained | refusalAdmission.

#[export] Instance admissionRefusal_eq_dec : EqDecision admissionRefusal.
Proof. solve_decision. Defined.

(** ** One key *)

(** Field updates, named after the field they write. *)
Definition set_leases (k : keyState) (l : list Time) : keyState :=
  {| requests := requests k; tokens := tokens k; leases := l; orphaned := orphaned k;
     reclaimed := reclaimed k; errors := errors k; estimated := estimated k;
     drained := drained k; softRetired := softRetired k;
     retiredUntil := retiredUntil k; retireReason := retireReason k |}.

Definition set_orphaned (k : keyState) (n : Z) : keyState :=
  {| requests := requests k; tokens := tokens k; leases := leases k; orphaned := n;
     reclaimed := reclaimed k; errors := errors k; estimated := estimated k;
     drained := drained k; softRetired := softRetired k;
     retiredUntil := retiredUntil k; retireReason := retireReason k |}.

Definition set_caps (k : keyState) (d s : bool) : keyState :=
  {| requests := requests k; tokens := tokens k; leases := leases k; orphaned := orphaned k;
     reclaimed := reclaimed k; errors := errors k; estimated := estimated k;
     drained := d; softRetired := s;
     retiredUntil := retiredUntil k; retireReason := retireReason k |}.

Definition set_retired (k : keyState) (until : Time) (reason : string) : keyState :=
  {| requests := requests k; tokens := tokens k; leases := leases k; orphaned := orphaned k;
     reclaimed := reclaimed k; errors := errors k; estimated := estimated k;
     drained := drained k; softRetired := softRetired k;
     retiredUntil := until; retireReason := reason |}.

Definition add_error (k : keyState) : keyState :=
  {| requests := requests k; tokens := tokens k; leases := leases k; orphaned := orphaned k;
     reclaimed := reclaimed k; errors := errors k + 1; estimated := estimated k;
     drained := drained k; softRetired := softRetired k;
     retiredUntil := retiredUntil k; retireReason := retireReason k |}.

(** [k.requests++; k.tokens += charge], with [k.estimated] set when the charge
    is the estimate. *)
Definition charge_key (k : keyState) (charge : Z) (est : bool) : keyState :=
  {| requests := requests k + 1; tokens := i64_add (tokens k) charge; leases := leases k;
     orphaned := orphaned k; reclaimed := reclaimed k; errors := errors k;
     estimated := est || estimated k;
     drained := drained k; softRetired := softRetired k;
     retiredUntil := retiredUntil k; retireReason := retireReason k |}.

Definition selectableAt (k : keyState) (now : Time) : bool :=
  negb (drained k) && negb (softRetired k) && negb (time_after (retiredUntil k) now).

Definition reasonAt (k : keyState) (now : Time) : string :=
  if drained k || softRetired k then ReasonCap
  else if time_after (retiredUntil k) now then
    (if retireReason k =s "" then ReasonQuota else retireReason k)
  else "".

(** Settlement of one reservation: an orphan is settled first. *)
Definition releaseLocked (k : keyState) : keyState :=
  if 0 <? orphaned k then set_orphaned k (orphaned k - 1)
  else
    match leases k with
    | [] => k
    | _ :: rest => set_leases k rest
    end.

(** The length of the leading run of leases not after [cutoff]. *)
Fixpoint stale_prefix (cutoff : Time) (ls : list Time) : nat :=
  match ls with
  | [] => 0
  | t :: ls' => if negb (time_after t cutoff) then S (stale_prefix cutoff ls') else 0
  end.

Definition reclaimStaleLocked (timeout : Duration) (k : keyState) (now : Time) : keyState :=
  if (timeout <=? 0) || Nat.eqb (length (leases k)) 0 then k
  else
    let cutoff := time_add now (- timeout) in
    let n := stale_prefix cutoff (leases k) in
    if Nat.eqb n 0 then k
    else
      {| requests := requests k; tokens := tokens k; leases := drop n (leases k);
         orphaned := orphaned k + Z.of_nat n; reclaimed := reclaimed k + Z.of_nat n;
         errors := errors k; estimated := estimated k; drained := drained k;
         softRetired := softRetired k; retiredUntil := retiredUntil k;
         retireReason := retireReason k |}.

(** [used >= ratio * limit], in float64; a non-positive limit is uncapped. *)
Definition atRatio (used limit : Z) (ratio : Float64.float64) : bool :=
  (0 <? limit) &&
  Float64.leb (Float64.mul ratio (Float64.of_int limit)) (Float64.of_int used).

Definition applyCapsLocked (b : Budget) (k : keyState) : keyState * list string :=
  if (Window b <=? 0) || ((BRequests b <=? 0) && (BTokens b <=? 0)) then (k, [])
  else
    let wasRetired := drained k || softRetired k in
    let k' :=
      if atRatio (requests k) (BRequests b) Float64.one || atRatio (tokens k) (BTokens b) Float64.one
      then set_caps k true true
      else if atRatio (requests k) (BRequests b) (SoftRatio b) ||
              atRatio (tokens k) (BTokens b) (SoftRatio b)
      then set_caps k (drained k) true
      else k in
    if (drained k' || softRetired k') && negb wasRetired then (k', [ReasonCap]) else (k', []).

Definition settleLocked (b : Budget) (k : keyState) (sample : UsageSample) : keyState * list string :=
  let k := releaseLocked k in
  match Outcome sample with
  | OutcomeFailed => (add_error k, [])
  | OutcomeCompleted =>
      let unknown := STokens sample =? TokensUnknown in
      let charge := if unknown then EstimateTokens b else STokens sample in
      applyCapsLocked b (charge_key k charge unknown)
  end.

Definition retireLocked (k : keyState) (now until : Time) (reason : string) : keyState * list string :=
  if negb (time_after until now) then (k, [])
  else
    let alreadyOut := time_after (retiredUntil k) now in
    let k' := if time_after until (retiredUntil k) then set_retired k until reason else k in
    (k', if alreadyOut then [] else [reason]).

(** The reset of one key when its window rolls over. *)
Definition roll_key (k : keyState) (now : Time) : keyState :=
  let keep := time_after (retiredUntil k) now in
  {| requests := 0; tokens := 0; leases := leases k; orphaned := orphaned k;
     reclaimed := reclaimed k; errors := 0; estimated := false;
     drained := false; softRetired := false;
     retiredUntil := if keep then retiredUntil k else time_zero;
     retireReason := if keep then retireReason k else "" |}.

Definition admissibleLocked (b : Budget) (k : keyState) (now : Time) : bool :=
  if negb (selectableAt k now) then false
  else if Window b <=? 0 then true
  else if (0 <? BRequests b) && (BRequests b <=? requests k + inFlight k) then false
  else if (0 <? BTokens b) &&
          (BTokens b <=? i64_add (tokens k) (i64_mul (inFlight k) (EstimateTokens b))) then false
  else true.

(** ** One route *)

Definition rollLocked (b : Budget) (rs : routeState) (now : Time) : routeState :=
  let w := Window b in
  if w <=? 0 then rs
  else
    let elapsed := time_sub now (windowStart rs) in
    if elapsed <? w then rs
    else
      {| windowStart := time_add (windowStart rs) (Z.quot elapsed w * w);
         rkeys := (fun k => roll_key k now) <$> rkeys rs |}.

Definition advanceLocked (b : Budget) (timeout : Duration) (rs : routeState) (now : Time) : routeState :=
  let rs := {| windowStart := windowStart rs;
               rkeys := (fun k => reclaimStaleLocked timeout k now) <$> rkeys rs |} in
  rollLocked b rs now.

Definition keyStateLocked (i : nat) (k : keyState) (now : Time) : KeyState :=
  {| Index := i;
     Requests := requests k;
     Tokens := tokens k;
     InFlight := inFlight k;
     Reclaimed := reclaimed k;
     Errors := errors k;
     Estimated := estimated k;
     Selectable := selectableAt k now;
     SoftRetired := softRetired k;
     Drained := drained k;
     RetiredUntil := retiredUntil k;
     Reason := reasonAt k now |}.

(** The candidate set of [reserve], in ascending index order. *)
Definition candidates (b : Budget) (ks : list keyState) (now : Time) : list KeyState :=
  omap (fun '(i, k) =>
      if selectableAt k now && admissibleLocked b k now then Some (keyStateLocked i k now) else None)
    (imap pair ks).

Definition waitForLocked (b : Budget) (maxRA : Duration) (ws : Time) (k : keyState) (now : Time) : Duration :=
  let w := if time_after (retiredUntil k) now then time_sub (retiredUntil k) now else 0 in
  if drained k || softRetired k then
    if 0 <? Window b then
      let d := time_sub (time_add ws (Window b)) now in
      if w <? d then d else w
    else if w =? 0 then maxRA else w
  else w.

(** The minimum wait over the keys, or [None] as soon as one is selectable.
    [best] starts at -1, meaning none yet. *)
Fixpoint best_wait (b : Budget) (maxRA : Duration) (ws : Time) (ks : list keyState) (now : Time)
    (best : Duration) : option Duration :=
  match ks with
  | [] => Some best
  | k :: ks' =>
      if selectableAt k now then None
      else
        let w := waitForLocked b maxRA ws k now in
        best_wait b maxRA ws ks' now (if (best <? 0) || (w <? best) then w else best)
  end.

(** ** The store *)

Section store.
Context {P : Type} `{!RotationPolicy P}.

(** [NewStore]; the options are the arguments, [pol] being the policy of
    [WithPolicy], or the round-robin policy when the option is absent. *)
Definition NewStore (now : Time) (keys : gmap string Z) (pol : P) (b : Budget)
    (maxRA lease : Duration) : Store P :=
  {| routes := omap (fun n => if n <=? 0 then None
                     else Some {| rkeys := replicate (Z.to_nat n) zero_key; windowStart := now |}) keys;
     policy := pol;
     fallback := NewRoundRobinPolicy;
     budget :=
       {| Window := Window b; BTokens := BTokens b; BRequests := BRequests b;
          SoftRatio := if Float64.leb (SoftRatio b) Float64.zero ||
                          Float64.ltb Float64.one (SoftRatio b)
                       then DefaultSoftRatio else SoftRatio b;
          EstimateTokens := EstimateTokens b |};
     maxRetryAfter := if maxRA <=? 0 then DefaultMaxRetryAfter else maxRA;
     leaseTimeout := if lease <=? 0 then DefaultLeaseTimeout else lease |}.

Definition set_route (s : Store P) (route : string) (rs : routeState) : Store P :=
  {| routes := <[route := rs]> (routes s); policy := policy s; fallback := fallback s;
     budget := budget s; maxRetryAfter := maxRetryAfter s; leaseTimeout := leaseTimeout s |}.

Definition set_policies (s : Store P) (p : P) (f : roundRobinPolicy) : Store P :=
  {| routes := routes s; policy := p; fallback := f;
     budget := budget s; maxRetryAfter := maxRetryAfter s; leaseTimeout := leaseTimeout s |}.

Definition advance (s : Store P) (rs : routeState) (now : Time) : routeState :=
  advanceLocked (budget s) (leaseTimeout s) rs now.

(** [pos < 0 || pos >= len(states)] negated. *)
Definition in_range (pos : Z) (states : list KeyState) : bool :=
  (0 <=? pos) && (pos <? Z.of_nat (length states)).

(** The position finally used, with the advanced policies. *)
Definition choose (s : Store P) (states : list KeyState) : Z * Store P :=
  let '(pos, p') := Select (policy s) states in
  if in_range pos states then (pos, set_policies s p' (fallback s))
  else
    let '(pos2, f') := Select (fallback s) states in
    ((if in_range pos2 states then pos2 else 0), set_policies s p' f').

Definition append_lease (rs : routeState) (i : nat) (now : Time) : routeState :=
  {| windowStart := windowStart rs;
     rkeys := alter (fun k => set_leases k (leases k ++ [now])) i (rkeys rs) |}.

Definition reserve (now : Time) (route : string) (s : Store P) : Z * admissionRefusal * Store P :=
  match routes s !! route with
  | None => (-1, refusalDrained, s)
  | Some rs0 =>
      let rs := advance s rs0 now in
      let s := set_route s route rs in
      let selectable := length (filter (fun k => selectableAt k now = true) (rkeys rs)) in
      let states := candidates (budget s) (rkeys rs) now in
      match states with
      | [] => (-1, (if Nat.ltb 0 selectable then refusalAdmission else refusalDrained), s)
      | st0 :: _ =>
          let '(pos, s) := choose s states in
          let i := Index (default st0 (states !! Z.to_nat pos)) in
          (Z.of_nat i, refusalNone, set_route s route (append_lease rs i now))
      end
  end.

Definition Next (now : Time) (route : string) (s : Store P) : Z * Store P :=
  let '(i, _, s') := reserve now route s in (i, s').

(** The shape of the three locked updates: check the index, advance the route,
    update the key, collect the events. *)
Definition on_key (now : Time) (route : string) (idx : Z)
    (f : routeState -> keyState -> keyState * list string) (s : Store P) : Store P * list string :=
  match routes s !! route with
  | Some rs0 =>
      if (0 <=? idx) && (idx <? Z.of_nat (length (rkeys rs0))) then
        let rs := advance s rs0 now in
        match rkeys rs !! Z.to_nat idx with
        | Some k =>
            let '(k', events) := f rs k in
            (set_route s route {| windowStart := windowStart rs;
                                  rkeys := <[Z.to_nat idx := k']> (rkeys rs) |}, events)
        | None => (s, [])
        end
      else (s, [])
  | None => (s, [])
  end.

Definition normalise (sample : UsageSample) : UsageSample :=
  if STokens sample <? 0
  then {| Outcome := Outcome sample; STokens := TokensUnknown; SEstimated := true |}
  else sample.

Definition RecordSample (now : Time) (route : string) (idx : Z) (sample : UsageSample) (s : Store P)
    : Store P * list string :=
  on_key now route idx (fun _ k => settleLocked (budget s) k (normalise sample)) s.

Definition RecordUsage (now : Time) (route : string) (idx tokens : Z) (s : Store P)
    : Store P * list string :=
  RecordSample now route idx
    {| Outcome := OutcomeCompleted; STokens := tokens; SEstimated := false |} s.

Definition default_reason (reason : string) : string :=
  if reason =s "" then ReasonQuota else reason.

Definition RetireWithReason (now : Time) (route : string) (idx : Z) (until : Time) (reason : string)
    (s : Store P) : Store P * list string :=
  on_key now route idx (fun _ k => retireLocked k now until (default_reason reason)) s.

Definition Retire (now : Time) (route : string) (idx : Z) (until : Time) (s : Store P)
    : Store P * list string :=
  RetireWithReason now route idx until ReasonQuota s.

Definition retireForWindow (now : Time) (route : string) (idx : Z) (reason : string) (s : Store P)
    : Store P * list string :=
  on_key now route idx (fun rs k =>
    let until := if 0 <? Window (budget s)
                 then time_add (windowStart rs) (Window (budget s))
                 else time_add now DefaultQuotaCooldown in
    retireLocked k now until (default_reason reason)) s.

Definition RetryAfter (now : Time) (route : string) (s : Store P) : option Duration * Store P :=
  match routes s !! route with
  | None => (None, s)
  | Some rs0 =>
      if Nat.eqb (length (rkeys rs0)) 0 then (None, s)
      else
        let rs := advance s rs0 now in
        let s := set_route s route rs in
        match best_wait (budget s) (maxRetryAfter s) (windowStart rs) (rkeys rs) now (-1) with
        | None => (None, s)
        | Some best =>
            if best <? 0 then (None, s)
            else
              let best := if maxRetryAfter s <? best then maxRetryAfter s else best in
              let best := if best <? MinRetryAfter then MinRetryAfter else best in
              (Some best, s)
        end
  end.

Definition Snapshot (now : Time) (route : string) (s : Store P) : list KeyState * Store P :=
  match routes s !! route with
  | None => ([], s)
  | Some rs0 =>
      let rs := advance s rs0 now in
      (imap (fun i k => keyStateLocked i k now) (rkeys rs), set_route s route rs)
  end.

(** ** Leases *)

(** A [KeyLease]; [settled] is the state of its [sync.Once]. *)
Record KeyLease := { l_route : string; l_index : Z; settled : bool }.

Definition acquire (now : Time) (route : string) (s : Store P)
    : option KeyLease * admissionRefusal * Store P :=
  let '(i, refusal, s') := reserve now route s in
  if decide (refusal = refusalNone)
  then (Some {| l_route := route; l_index := i; settled := false |}, refusalNone, s')
  else (None, refusal, s').

Definition Acquire (now : Time) (route : string) (s : Store P) : option KeyLease * bool * Store P :=
  let '(l, refusal, s') := acquire now route s in
  (l, bool_decide (refusal = refusalNone), s').

Definition Settle (now : Time) (l : KeyLease) (sample : UsageSample) (s : Store P)
    : KeyLease * Store P * list string :=
  if settled l then (l, s, [])
  else
    let '(s', events) := RecordSample now (l_route l) (l_index l) sample s in
    ({| l_route := l_route l; l_index := l_index l; settled := true |}, s', events).

End store.

End RotationStore.
