(* ===== verification/RotationStoreSpec.v ===== *)
(** * Correctness of the rotation store

    The contract of [rotation_store.go], proved for every history of calls:
    admission control makes the request cap exact up to reclaimed leases, no
    reservation is leaked or settled twice, a refusal names its real cause,
    windows tumble on their grid, retirements only extend, and the advertised
    Retry-After is bounded and true.

    The proofs go through a transition system on single keys ([kstep]): every
    method of the store acts on each key by a sequence of such steps
    ([sstep_key]), so an invariant is proved once, on one key. *)

From Stdlib Require Import ZArith Lia.
From stdpp Require Import base option list gmap strings.
From S2P Require Import Prelude Float64 Rotation RotationStore.

Module RotationStoreSpec.
Import Rotation RotationStore.

(** ** The key-level transition system *)

(** Reservations taken and not yet settled, reclaimed or not. *)
Definition outstanding (k : keyState) : Z := inFlight k + orphaned k.

Inductive kev : Type := KAge | KLease | KSettle | KRetire.

Inductive kstep (b : Budget) (timeout : Duration) : keyState -> kev -> keyState -> Prop :=
| KS_reclaim k now : kstep b timeout k KAge (reclaimStaleLocked timeout k now)
| KS_roll k now : kstep b timeout k KAge (roll_key k now)
| KS_lease k now :
    admissibleLocked b k now = true ->
    kstep b timeout k KLease (set_leases k (leases k ++ [now]))
| KS_settle k sample :
    0 < outstanding k -> kstep b timeout k KSettle (settleLocked b k sample).1
| KS_retire k now until reason :
    kstep b timeout k KRetire (retireLocked k now until reason).1.

Inductive ksteps (b : Budget) (timeout : Duration) : keyState -> list kev -> keyState -> Prop :=
| KS_nil k : ksteps b timeout k [] k
| KS_cons k ev k' evs k'' :
    kstep b timeout k ev k' -> ksteps b timeout k' evs k'' -> ksteps b timeout k (ev :: evs) k''.

Definition is_lease (e : kev) : bool := match e with KLease => true | _ => false end.
Definition is_settle (e : kev) : bool := match e with KSettle => true | _ => false end.
Definition count (f : kev -> bool) (evs : list kev) : Z := Z.of_nat (length (List.filter f evs)).

(** ** Histories of the store *)

Section history.
Context {P : Type} `{!RotationPolicy P}.

Definition key_at (s : Store P) (r : string) (i : nat) : option keyState :=
  routes s !! r ≫= fun rs => rkeys rs !! i.

Inductive label : Type :=
| LReserve (route : string) (idx : nat)
| LSettle (route : string) (idx : nat)
| LOther.

(** One call.  A settlement must be for an outstanding reservation, which is
    what [KeyLease] and its [sync.Once] guarantee to callers. *)
Inductive sstep : Store P -> label -> Store P -> Prop :=
| SS_reserve s now route idx s' :
    reserve now route s = (Z.of_nat idx, refusalNone, s') -> sstep s (LReserve route idx) s'
| SS_refuse s now route i refusal s' :
    reserve now route s = (i, refusal, s') -> refusal <> refusalNone -> sstep s LOther s'
| SS_settle s now route idx sample k :
    key_at s route idx = Some k -> 0 < outstanding k ->
    sstep s (LSettle route idx) (RecordSample now route (Z.of_nat idx) sample s).1
| SS_retire s now route idx until reason :
    sstep s LOther (RetireWithReason now route idx until reason s).1
| SS_retireWindow s now route idx reason :
    sstep s LOther (retireForWindow now route idx reason s).1
| SS_retryAfter s now route : sstep s LOther (RetryAfter now route s).2
| SS_snapshot s now route : sstep s LOther (Snapshot now route s).2.

Inductive hist : Store P -> list label -> Store P -> Prop :=
| H_nil s : hist s [] s
| H_snoc s ls s' l s'' : hist s ls s' -> sstep s' l s'' -> hist s (ls ++ [l]) s''.

Definition reserves_of (r : string) (i : nat) (l : label) : bool :=
  match l with LReserve r' i' => bool_decide (r = r' /\ i = i') | _ => false end.
Definition settles_of (r : string) (i : nat) (l : label) : bool :=
  match l with LSettle r' i' => bool_decide (r = r' /\ i = i') | _ => false end.
Definition count_labels (f : label -> bool) (ls : list label) : Z :=
  Z.of_nat (length (List.filter f ls)).

End history.

(** ** Lemmas on one key *)

Lemma stale_prefix_le cutoff ls : (stale_prefix cutoff ls <= length ls)%nat.
Proof. induction ls as [|t ls IH]; simpl; [lia|]. case_match; lia. Qed.

(** What reclamation, rollover, settlement and retirement do to the counters. *)
Lemma reclaim_fields timeout k now :
  let k' := reclaimStaleLocked timeout k now in
  requests k' = requests k /\ outstanding k' = outstanding k /\
  reclaimed k' - orphaned k' = reclaimed k - orphaned k /\ orphaned k <= orphaned k' /\
  inFlight k' <= inFlight k /\
  drained k' = drained k /\ softRetired k' = softRetired k /\ retiredUntil k' = retiredUntil k.
Proof.
  unfold reclaimStaleLocked, outstanding, inFlight.
  case_match; [split_and!; auto; lia|]. case_match; [split_and!; auto; lia|].
  simpl. rewrite length_drop.
  pose proof (stale_prefix_le (time_add now (- timeout)) (leases k)). split_and!; auto; lia.
Qed.

Lemma applyCaps_fields b k :
  let k' := (applyCapsLocked b k).1 in
  requests k' = requests k /\ tokens k' = tokens k /\ leases k' = leases k /\
  orphaned k' = orphaned k /\ reclaimed k' = reclaimed k /\ errors k' = errors k /\
  retiredUntil k' = retiredUntil k /\
  (drained k = true -> drained k' = true) /\ (softRetired k = true -> softRetired k' = true).
Proof. unfold applyCapsLocked. repeat case_match; simpl; auto 12. Qed.

Lemma release_fields k :
  0 <= orphaned k -> 0 < outstanding k ->
  let k' := releaseLocked k in
  outstanding k' = outstanding k - 1 /\ requests k' = requests k /\
  reclaimed k' = reclaimed k /\ 0 <= orphaned k' /\
  (inFlight k' = inFlight k - 1 /\ orphaned k' = orphaned k \/
   inFlight k' = inFlight k /\ orphaned k' = orphaned k - 1).
Proof.
  unfold releaseLocked, outstanding, inFlight; intros Ho Hout.
  destruct (Z.ltb_spec 0 (orphaned k)); simpl; [lia|].
  destruct (leases k) as [|t ls] eqn:E; simpl in *; [lia|]. lia.
Qed.

Lemma settle_fields b k sample :
  0 <= orphaned k -> 0 < outstanding k ->
  let k' := (settleLocked b k sample).1 in
  outstanding k' = outstanding k - 1 /\ 0 <= orphaned k' <= orphaned k /\
  reclaimed k' = reclaimed k /\ requests k <= requests k' <= requests k + 1 /\
  (requests k' + inFlight k') - (requests k + inFlight k) <= orphaned k - orphaned k'.
Proof.
  intros Ho Hout. destruct (release_fields k Ho Hout) as (E1 & E2 & E3 & E4 & E5).
  unfold settleLocked. destruct (Outcome sample); simpl.
  - match goal with |- context [applyCapsLocked b ?c] =>
      destruct (applyCaps_fields b c) as (F1 & _ & F3 & F4 & F5 & _) end.
    unfold outstanding, inFlight in *. rewrite F1, F3, F4, F5. simpl. lia.
  - unfold outstanding, inFlight in *. simpl. lia.
Qed.

Lemma retire_fields k now until reason :
  let k' := (retireLocked k now until reason).1 in
  requests k' = requests k /\ leases k' = leases k /\ orphaned k' = orphaned k /\
  reclaimed k' = reclaimed k /\ drained k' = drained k /\ softRetired k' = softRetired k /\
  retiredUntil k <= retiredUntil k'.
Proof.
  unfold retireLocked, time_after.
  destruct (Z.ltb_spec now until), (Z.ltb_spec (retiredUntil k) until); simpl; split_and!; auto; lia.
Qed.

(** The accounting invariant of one key under a budget. *)
Record kinv (b : Budget) (k : keyState) : Prop := {
  ki_orphaned : 0 <= orphaned k;
  ki_settled_orphans : orphaned k <= reclaimed k;
  ki_requests : 0 <= requests k;
  ki_cap : 0 < Window b -> 0 < BRequests b ->
           requests k + inFlight k <= BRequests b + (reclaimed k - orphaned k);
}.

Lemma zero_key_inv b : kinv b zero_key.
Proof. constructor; simpl; unfold inFlight; simpl; lia. Qed.

Lemma kstep_inv b timeout k ev k' : kstep b timeout k ev k' -> kinv b k -> kinv b k'.
Proof.
  intros Hs [Ho Hr Hq Hc]; destruct Hs as [k now|k now|k now Hadm|k sample Hout|k now until reason].
  - destruct (reclaim_fields timeout k now) as (E1 & E2 & E3 & E4 & E5 & _).
    constructor; lia.
  - constructor; simpl; try lia. intros Hw Hb. specialize (Hc Hw Hb). unfold inFlight in *; simpl; lia.
  - constructor; simpl; auto. intros Hw Hb. unfold inFlight; simpl. rewrite length_app; simpl.
    unfold admissibleLocked in Hadm. destruct (negb (selectableAt k now)); [done|].
    destruct (Z.leb_spec (Window b) 0); [lia|].
    destruct (Z.ltb_spec 0 (BRequests b)); [|lia].
    destruct (Z.leb_spec (BRequests b) (requests k + inFlight k)); [done|].
    unfold inFlight in *. lia.
  - destruct (settle_fields b k sample Ho Hout) as (E1 & E2 & E3 & E4 & E5).
    unfold outstanding in *. constructor; lia.
  - destruct (retire_fields k now until reason) as (E1 & E2 & E3 & E4 & _).
    constructor; unfold inFlight in *; rewrite ?E1, ?E2, ?E3, ?E4; auto.
Qed.

Lemma kstep_outstanding b timeout k ev k' :
  kstep b timeout k ev k' -> kinv b k ->
  outstanding k' = outstanding k + Z.b2z (is_lease ev) - Z.b2z (is_settle ev).
Proof.
  intros Hs [Ho _ _ _]; destruct Hs as [k now|k now|k now Hadm|k sample Hout|k now until reason]; simpl.
  - destruct (reclaim_fields timeout k now) as (_ & E & _). lia.
  - unfold outstanding, inFlight; simpl. lia.
  - unfold outstanding, inFlight; simpl. rewrite length_app; simpl. lia.
  - destruct (settle_fields b k sample Ho Hout) as (E & _). lia.
  - destruct (retire_fields k now until reason) as (_ & E2 & E3 & _).
    unfold outstanding, inFlight. rewrite E2, E3. lia.
Qed.

Lemma count_cons f e evs : count f (e :: evs) = Z.b2z (f e) + count f evs.
Proof. unfold count; simpl. destruct (f e); simpl; lia. Qed.

Lemma ksteps_inv b timeout k evs k' :
  ksteps b timeout k evs k' -> kinv b k ->
  kinv b k' /\ outstanding k' = outstanding k + count is_lease evs - count is_settle evs.
Proof.
  induction 1 as [k|k ev k' evs k'' H1 H2 IH]; intros Hk; [split; [done | unfold count; simpl; lia]|].
  destruct IH as [IHi IHo]; [by eapply kstep_inv|]. split; [done|].
  rewrite IHo, (kstep_outstanding _ _ _ _ _ H1 Hk), !count_cons. lia.
Qed.

(** ** From the store to its keys *)

(** Advancing a route ages each key, by reclamation and possibly a rollover. *)
Lemma advance_key b timeout rs now i k' :
  rkeys (advanceLocked b timeout rs now) !! i = Some k' ->
  exists k evs, rkeys rs !! i = Some k /\ ksteps b timeout k evs k' /\
    count is_lease evs = 0 /\ count is_settle evs = 0.
Proof.
  unfold advanceLocked, rollLocked. repeat case_match; simpl.
  1,2: rewrite list_lookup_fmap_Some; intros (k & -> & Hk);
    exists k, [KAge]; split_and!; auto; econstructor; [apply KS_reclaim | constructor].
  rewrite list_lookup_fmap_Some. intros (k1 & -> & (k & -> & Hk)%list_lookup_fmap_Some).
  exists k, [KAge; KAge]; split_and!; auto.
  econstructor; [apply KS_reclaim|]. econstructor; [apply KS_roll | constructor].
Qed.

Lemma advance_length b timeout rs now :
  length (rkeys (advanceLocked b timeout rs now)) = length (rkeys rs).
Proof. unfold advanceLocked, rollLocked. repeat case_match; simpl; by rewrite ?length_fmap. Qed.

Lemma ksteps_app b timeout k evs1 k1 evs2 k2 :
  ksteps b timeout k evs1 k1 -> ksteps b timeout k1 evs2 k2 -> ksteps b timeout k (evs1 ++ evs2) k2.
Proof. induction 1; simpl; [done|]. intros; econstructor; eauto. Qed.

Lemma count_app f evs1 evs2 : count f (evs1 ++ evs2) = count f evs1 + count f evs2.
Proof. induction evs1 as [|e evs IH]; simpl; [done|]. rewrite !count_cons, IH. lia. Qed.

Section simulation.
Context {P : Type} `{!RotationPolicy P}.
Implicit Types (s : Store P) (rs : routeState).

Lemma key_at_set_route s route rs r i :
  key_at (set_route s route rs) r i = if decide (r = route) then rkeys rs !! i else key_at s r i.
Proof.
  unfold key_at, set_route; simpl. case_decide as E; [subst; by rewrite lookup_insert_eq|].
  by rewrite lookup_insert_ne by done.
Qed.

(** The candidates are exactly the admissible keys. *)
Lemma elem_of_candidates b ks now st :
  st ∈ candidates b ks now <->
  exists i k, ks !! i = Some k /\ selectableAt k now = true /\ admissibleLocked b k now = true /\
    st = keyStateLocked i k now.
Proof.
  unfold candidates. rewrite list_elem_of_omap. split.
  - intros ([i k] & Hin & Hst).
    apply list_elem_of_lookup in Hin as [j Hj]. rewrite list_lookup_imap in Hj.
    destruct (ks !! j) as [k'|] eqn:E; simplify_eq/=.
    destruct (selectableAt k now) eqn:E1, (admissibleLocked b k now) eqn:E2; simplify_eq/=. eauto 10.
  - intros (i & k & Hk & H1 & H2 & ->). exists (i, k). rewrite H1, H2. split; [|done].
    apply list_elem_of_lookup. exists i. by rewrite list_lookup_imap, Hk.
Qed.

Lemma choose_in_range s states :
  states <> [] -> 0 <= (choose s states).1 < Z.of_nat (length states).
Proof.
  intros Hne. assert (0 < Z.of_nat (length states)) by (destruct states; [done | simpl; lia]).
  unfold choose. destruct (Select (policy s) states) as [pos p'].
  unfold in_range. destruct (Z.leb_spec 0 pos), (Z.ltb_spec pos (Z.of_nat (length states)));
    simpl; try lia; destruct (Select (fallback s) states) as [pos2 f']; simpl;
    destruct (Z.leb_spec 0 pos2), (Z.ltb_spec pos2 (Z.of_nat (length states))); simpl; lia.
Qed.

Lemma choose_routes s states :
  routes (choose s states).2 = routes s /\ budget (choose s states).2 = budget s /\
  maxRetryAfter (choose s states).2 = maxRetryAfter s /\
  leaseTimeout (choose s states).2 = leaseTimeout s.
Proof.
  unfold choose. destruct (Select (policy s) states) as [pos p'].
  case_match; [done|]. destruct (Select (fallback s) states) as [pos2 f']. done.
Qed.

(** The three outcomes of [reserve] on a known route. *)
Lemma reserve_spec s now route rs0 :
  routes s !! route = Some rs0 ->
  let rs := advance s rs0 now in
  (exists i k s1, reserve now route s = (Z.of_nat i, refusalNone, set_route s1 route (append_lease rs i now)) /\
     rkeys rs !! i = Some k /\ selectableAt k now = true /\ admissibleLocked (budget s) k now = true /\
     (forall r j, r <> route -> key_at s1 r j = key_at s r j) /\ budget s1 = budget s /\
     leaseTimeout s1 = leaseTimeout s) \/
  ((exists i k, rkeys rs !! i = Some k /\ selectableAt k now = true) /\
   (forall i k, rkeys rs !! i = Some k -> admissibleLocked (budget s) k now = false) /\
   reserve now route s = (-1, refusalAdmission, set_route s route rs)) \/
  ((forall i k, rkeys rs !! i = Some k -> selectableAt k now = false) /\
   reserve now route s = (-1, refusalDrained, set_route s route rs)).
Proof.
  intros Hr rs. unfold reserve. rewrite Hr. fold rs.
  change (budget (set_route s route rs)) with (budget s).
  destruct (candidates (budget s) (rkeys rs) now) as [|st0 sts] eqn:Ec.
  - right.
    assert (Hnone : forall i k, rkeys rs !! i = Some k -> admissibleLocked (budget s) k now = false).
    { intros i k Hk. destruct (admissibleLocked (budget s) k now) eqn:Ea; [|done].
      assert (Hsel : selectableAt k now = true).
      { unfold admissibleLocked in Ea. by destruct (selectableAt k now). }
      assert (Hin : keyStateLocked i k now ∈ candidates (budget s) (rkeys rs) now)
        by (apply elem_of_candidates; eauto 10).
      rewrite Ec in Hin. by apply not_elem_of_nil in Hin. }
    destruct (filter (fun k => selectableAt k now = true) (rkeys rs)) as [|k0 l] eqn:Ef.
    + right. split; [|done]. intros i k Hk. destruct (selectableAt k now) eqn:E; [|done].
      assert (Hin : k ∈ filter (fun k => selectableAt k now = true) (rkeys rs))
        by (apply list_elem_of_filter; split; [done | by eapply list_elem_of_lookup_2]).
      rewrite Ef in Hin. by apply not_elem_of_nil in Hin.
    + left. split_and!; [|done|done].
      assert (Hin : k0 ∈ filter (fun k => selectableAt k now = true) (rkeys rs))
        by (rewrite Ef; by left).
      apply list_elem_of_filter in Hin as [Hsel [i Hi]%list_elem_of_lookup]. eauto.
  - left. set (states := st0 :: sts) in *.
    assert (Hne : states <> []) by done.
    pose proof (choose_in_range (set_route s route rs) states Hne) as Hpos.
    pose proof (choose_routes (set_route s route rs) states) as (Er & Eb & _ & El).
    destruct (choose (set_route s route rs) states) as [pos s1]; cbn [fst snd] in *.
    destruct (lookup_lt_is_Some_2 states (Z.to_nat pos)) as [st Hst]; [lia|].
    rewrite Hst; cbn [default from_option id].
    assert (Hin : st ∈ candidates (budget s) (rkeys rs) now)
      by (rewrite Ec; by eapply list_elem_of_lookup_2).
    apply elem_of_candidates in Hin as (i & k & Hk & H1 & H2 & ->); cbn [Index keyStateLocked].
    exists i, k, s1. split_and!; auto.
    intros r j Hrr. unfold key_at. rewrite Er. unfold set_route; simpl. by rewrite lookup_insert_ne.
Qed.

Lemma append_lease_lookup rs i now j k' :
  rkeys (append_lease rs i now) !! j = Some k' ->
  exists k, rkeys rs !! j = Some k /\
    k' = if decide (i = j) then set_leases k (leases k ++ [now]) else k.
Proof.
  unfold append_lease; simpl. rewrite list_lookup_alter. case_decide; simpl; intros Hl.
  - subst. apply fmap_Some in Hl as (k & Hk & ->). eauto.
  - eauto.
Qed.

(** The locked updates: the addressed key takes one step after ageing, every
    other key of the route only ages, other routes are untouched. *)
Lemma on_key_key s now route idx f r i k' :
  key_at (on_key now route idx f s).1 r i = Some k' ->
  (key_at s r i = Some k' /\ ~ (r = route /\ Z.of_nat i = idx)) \/
  exists k k1 evs rs, r = route /\ key_at s r i = Some k /\
    ksteps (budget s) (leaseTimeout s) k evs k1 /\ count is_lease evs = 0 /\ count is_settle evs = 0 /\
    k' = if decide (Z.of_nat i = idx) then (f rs k1).1 else k1.
Proof.
  unfold on_key. destruct (routes s !! route) as [rs0|] eqn:Hr.
  2: { intros Hk. left; split; [done|]. intros [-> _]. unfold key_at in Hk; simpl in Hk. by rewrite Hr in Hk. }
  destruct ((0 <=? idx) && (idx <? Z.of_nat (length (rkeys rs0)))) eqn:Hb.
  2: { intros Hk. left; split; [done|]. intros [-> <-]. unfold key_at in Hk; simpl in Hk. rewrite Hr in Hk.
       apply lookup_lt_Some in Hk.
       destruct (Z.leb_spec 0 (Z.of_nat i)), (Z.ltb_spec (Z.of_nat i) (Z.of_nat (length (rkeys rs0))));
         simpl in Hb; try done; lia. }
  apply andb_true_iff in Hb as [Hb1%Z.leb_le Hb2%Z.ltb_lt].
  set (rs := advance s rs0 now).
  destruct (rkeys rs !! Z.to_nat idx) as [kx|] eqn:Ek.
  2: { apply lookup_ge_None in Ek. unfold rs, advance in Ek. rewrite advance_length in Ek. lia. }
  destruct (f rs kx) as [k2 ev] eqn:Ef; simpl. rewrite key_at_set_route.
  case_decide as Er; [subst r; simpl; intros Hl; right|intros Hk; left; split; [done | by intros [? _]]].
  destruct (decide (i = Z.to_nat idx)) as [->|Hne].
  - rewrite list_lookup_insert_eq in Hl by (by eapply lookup_lt_Some). simplify_eq.
    destruct (advance_key _ _ _ _ _ _ Ek) as (k & evs & Hk & Hs & Hc1 & Hc2).
    exists k, kx, evs, rs. rewrite decide_True by lia. rewrite Ef.
    split_and!; auto. unfold key_at; by rewrite Hr.
  - rewrite list_lookup_insert_ne in Hl by done.
    destruct (advance_key _ _ _ _ _ _ Hl) as (k & evs & Hk & Hs & Hc1 & Hc2).
    exists k, k', evs, rs. rewrite decide_False by lia.
    split_and!; auto. unfold key_at; by rewrite Hr.
Qed.

Lemma on_key_config s now route idx f :
  budget (on_key now route idx f s).1 = budget s /\
  leaseTimeout (on_key now route idx f s).1 = leaseTimeout s.
Proof. unfold on_key. repeat case_match; auto. Qed.

(** Ageing preserves the outstanding reservations of a well-accounted key. *)
Lemma age_outstanding b timeout k evs k1 :
  ksteps b timeout k evs k1 -> kinv b k -> count is_lease evs = 0 -> count is_settle evs = 0 ->
  outstanding k1 = outstanding k.
Proof. intros Hs Hk E1 E2. apply ksteps_inv in Hs as [_ ->]; [lia|done]. Qed.

Lemma advance_set_key s now route rs0 r i k' :
  routes s !! route = Some rs0 ->
  key_at (set_route s route (advance s rs0 now)) r i = Some k' ->
  exists k evs, key_at s r i = Some k /\ ksteps (budget s) (leaseTimeout s) k evs k' /\
    count is_lease evs = 0 /\ count is_settle evs = 0.
Proof.
  intros Hr. rewrite key_at_set_route. case_decide as E; intros Hl.
  - subst r. destruct (advance_key _ _ _ _ _ _ Hl) as (k & evs & Hk & Hs & Hc).
    exists k, evs. split_and!; try apply Hc; auto. unfold key_at; by rewrite Hr.
  - exists k', []. split_and!; auto. constructor.
Qed.

Lemma sstep_config s l s' :
  sstep s l s' -> budget s' = budget s /\ leaseTimeout s' = leaseTimeout s.
Proof.
  destruct 1 as [s now route idx s' Hr|s now route i refusal s' Hr Hne|s now route idx sample k Hk Ho
    |s now route idx until reason|s now route idx reason|s now route|s now route];
    try apply on_key_config.
  1,2: destruct (routes s !! route) as [rs0|] eqn:E;
    [destruct (reserve_spec s now route rs0 E) as [(?&?&?&H&?&?&?&?&?&?)|[(_&_&H)|(_&H)]];
     rewrite H in Hr; simplify_eq/=; auto
    |unfold reserve in Hr; rewrite E in Hr; by simplify_eq].
  - unfold RetryAfter. repeat case_match; auto.
  - unfold Snapshot. repeat case_match; auto.
Qed.

(** The simulation: one call of the store is, on each key, a sequence of key
    steps with one lease exactly when the call reserved that key and one
    settlement exactly when it settled it. *)
Lemma sstep_key s l s' r i k' :
  sstep s l s' -> (forall k, key_at s r i = Some k -> kinv (budget s) k) ->
  key_at s' r i = Some k' ->
  exists k evs, key_at s r i = Some k /\ ksteps (budget s) (leaseTimeout s) k evs k' /\
    count is_lease evs = Z.b2z (reserves_of r i l) /\ count is_settle evs = Z.b2z (settles_of r i l).
Proof.
  intros Hs Hinv; destruct Hs as [s now route idx s' Hr|s now route i' refusal s' Hr Hne
    |s now route idx sample k0 Hk0 Ho|s now route idx until reason|s now route idx reason
    |s now route|s now route]; simpl; intros Hk'.
  - destruct (routes s !! route) as [rs0|] eqn:E; [|unfold reserve in Hr; rewrite E in Hr; simplify_eq].
    destruct (reserve_spec s now route rs0 E) as [(j&k&s1&H&Hj&Hsel&Hadm&Hoth&Hb&Ht)|[(_&_&H)|(_&H)]];
      rewrite H in Hr; simplify_eq.
    rewrite key_at_set_route in Hk'.
    case_decide as Er.
    + subst r. apply append_lease_lookup in Hk' as (k1 & Hk1 & ->).
      destruct (advance_key _ _ _ _ _ _ Hk1) as (k2 & evs & Hk2 & Hs & Hc1 & Hc2).
      case_decide as Ei.
      * subst i. simplify_eq. exists k2, (evs ++ [KLease]). rewrite bool_decide_true by done.
        rewrite !count_app, Hc1, Hc2. split_and!; auto; [unfold key_at; by rewrite E|].
        eapply ksteps_app; [done|]. econstructor; [by apply KS_lease | constructor].
      * exists k2, evs. rewrite bool_decide_false by (by intros [_ ->]).
        split_and!; auto. unfold key_at; by rewrite E.
    + rewrite Hoth in Hk' by done. exists k', []. rewrite bool_decide_false by (by intros [-> _]).
      split_and!; auto. constructor.
  - destruct (routes s !! route) as [rs0|] eqn:E.
    2: { unfold reserve in Hr; rewrite E in Hr; simplify_eq. exists k', []; split_and!; auto; constructor. }
    destruct (reserve_spec s now route rs0 E) as [(j&k&s1&H&_)|[(_&_&H)|(_&H)]];
      rewrite H in Hr; simplify_eq; eauto using advance_set_key.
  - destruct (on_key_key _ _ _ _ _ _ _ _ Hk') as [[Hk Hno]|(k&k1&evs&rs&->&Hk&Hs&Hc1&Hc2&->)].
    + exists k', []. rewrite bool_decide_false by (intros [-> ->]; apply Hno; done).
      split_and!; auto; constructor.
    + destruct (decide (Z.of_nat i = Z.of_nat idx)) as [Ei|Ei].
      * apply Nat2Z.inj in Ei as ->. rewrite Hk in Hk0. injection Hk0 as <-. exists k, (evs ++ [KSettle]).
        rewrite bool_decide_true, !count_app, Hc1, Hc2 by done. split_and!; auto.
        eapply ksteps_app; [done|]. econstructor; [|constructor].
        apply KS_settle. rewrite (age_outstanding _ _ _ _ _ Hs); auto.
      * exists k, evs. rewrite bool_decide_false by (intros [_ ->]; done). auto.
  - destruct (on_key_key _ _ _ _ _ _ _ _ Hk') as [[Hk Hno]|(k&k1&evs&rs&->&Hk&Hs&Hc1&Hc2&->)].
    + exists k', []. split_and!; auto; constructor.
    + case_decide; [|eauto 10]. exists k, (evs ++ [KRetire]). rewrite !count_app, Hc1, Hc2.
      split_and!; auto. eapply ksteps_app; [done|]. econstructor; [apply KS_retire|constructor].
  - destruct (on_key_key _ _ _ _ _ _ _ _ Hk') as [[Hk Hno]|(k&k1&evs&rs&->&Hk&Hs&Hc1&Hc2&->)].
    + exists k', []. split_and!; auto; constructor.
    + case_decide; [|eauto 10]. exists k, (evs ++ [KRetire]). rewrite !count_app, Hc1, Hc2.
      split_and!; auto. eapply ksteps_app; [done|]. econstructor; [apply KS_retire|constructor].
  - unfold RetryAfter in Hk'. destruct (routes s !! route) as [rs0|] eqn:E.
    + destruct (Nat.eqb (length (rkeys rs0)) 0); [exists k', []; split_and!; auto; constructor|].
      assert (key_at (set_route s route (advance s rs0 now)) r i = Some k')
        by (repeat case_match; done).
      eauto using advance_set_key.
    + exists k', []; split_and!; auto; constructor.
  - unfold Snapshot in Hk'. destruct (routes s !! route) as [rs0|] eqn:E.
    + eauto using advance_set_key.
    + exists k', []; split_and!; auto; constructor.
Qed.

Lemma count_labels_snoc f ls l : count_labels f (ls ++ [l]) = count_labels f ls + Z.b2z (f l).
Proof.
  unfold count_labels. rewrite List.filter_app, length_app. simpl. destruct (f l); simpl; lia.
Qed.

(** The invariant along a history from a store whose keys are fresh. *)
Lemma hist_inv s0 ls s r i k :
  hist s0 ls s -> (forall r i k, key_at s0 r i = Some k -> kinv (budget s0) k /\ outstanding k = 0) ->
  key_at s r i = Some k ->
  budget s = budget s0 /\ kinv (budget s0) k /\
  outstanding k = count_labels (reserves_of r i) ls - count_labels (settles_of r i) ls.
Proof.
  intros Hh H0; revert r i k; induction Hh as [s|s ls s' l s'' Hh IH Hs]; intros r i k Hk.
  - destruct (H0 r i k Hk) as [Hi Ho]. rewrite Ho. auto.
  - assert (Hb : budget s'' = budget s' ) by (eapply sstep_config, Hs).
    destruct (sstep_key s' l s'' r i k Hs) as (k1 & evs & Hk1 & Hks & Hc1 & Hc2); auto.
    { intros k2 Hk2. destruct (IH H0 r i k2 Hk2) as (-> & ? & _). done. }
    destruct (IH H0 r i k1 Hk1) as (Hb1 & Hi1 & Ho1). rewrite Hb1 in Hks.
    destruct (ksteps_inv _ _ _ _ _ Hks Hi1) as [Hi Ho].
    split_and!; [congruence | done |].
    rewrite Ho, Ho1, !count_labels_snoc, Hc1, Hc2. lia.
Qed.

Lemma NewStore_fresh now keys (pol : P) b maxRA lease r i k :
  let s0 := NewStore now keys pol b maxRA lease in
  key_at s0 r i = Some k -> kinv (budget s0) k /\ outstanding k = 0.
Proof.
  intros s0; unfold key_at, s0, NewStore; simpl. rewrite lookup_omap.
  destruct (keys !! r) as [n|]; simpl; [|done]. case_match; simpl; [done|].
  intros [-> _]%lookup_replicate. split; [apply zero_key_inv | done].
Qed.

(** ** Theorems *)

(** C7: The request cap is exact up to reclaimed leases: along every history of
    calls from a fresh store, the settled requests of a key in its window plus
    its outstanding leases never exceed the hard cap by more than the number of
    reclaimed leases that were settled after all.  With no reclamation the
    bound is the cap itself. *)
Theorem request_cap_exact now keys (pol : P) b maxRA lease ls s r i k :
  0 < Window b -> 0 < BRequests b ->
  hist (NewStore now keys pol b maxRA lease) ls s -> key_at s r i = Some k ->
  requests k + inFlight k <= BRequests b + (reclaimed k - orphaned k) /\
  (reclaimed k = 0 -> requests k + inFlight k <= BRequests b).
Proof.
  intros Hw Hb Hh Hk.
  destruct (hist_inv _ _ _ _ _ _ Hh (NewStore_fresh now keys pol b maxRA lease) Hk)
    as (_ & [Ho Hs Hq Hc] & _).
  specialize (Hc Hw Hb); simpl in Hc. lia.
Qed.

(** C16: No reservation is lost or counted twice: on every key, along every history,
    the leases in flight plus the reclaimed-but-unsettled ones are exactly the
    reservations made minus the settlements received, so a history that settles
    every reservation leaves nothing in flight. *)
Theorem lease_conservation now keys (pol : P) b maxRA lease ls s r i k :
  hist (NewStore now keys pol b maxRA lease) ls s -> key_at s r i = Some k ->
  inFlight k + orphaned k = count_labels (reserves_of r i) ls - count_labels (settles_of r i) ls /\
  (count_labels (reserves_of r i) ls = count_labels (settles_of r i) ls ->
   leases k = [] /\ orphaned k = 0).
Proof.
  intros Hh Hk.
  destruct (hist_inv _ _ _ _ _ _ Hh (NewStore_fresh now keys pol b maxRA lease) Hk)
    as (_ & [Ho _ _ _] & Hout).
  unfold outstanding in Hout. split; [done|]. intros E.
  assert (inFlight k = 0 /\ orphaned k = 0) as [Hi ?] by (unfold inFlight in *; lia).
  split; [|done]. unfold inFlight in Hi. destruct (leases k); [done | simpl in Hi; lia].
Qed.

(** A refusal names its cause, and a grant is sound: a granted reservation is on
    a key that is selectable and below its caps counting the leases in flight;
    [refusalAdmission] means some key is selectable but none can take another
    lease; [refusalDrained] on a known route means no key is selectable. *)
Theorem reserve_outcome s now route rs0 :
  routes s !! route = Some rs0 ->
  let rs := advance s rs0 now in
  match reserve now route s with
  | (i, refusalNone, s') =>
      exists k, 0 <= i /\ rkeys rs !! Z.to_nat i = Some k /\ selectableAt k now = true /\
        admissibleLocked (budget s) k now = true /\
        key_at s' route (Z.to_nat i) = Some (set_leases k (leases k ++ [now]))
  | (i, refusalAdmission, _) =>
      i = -1 /\ (exists j k, rkeys rs !! j = Some k /\ selectableAt k now = true) /\
      (forall j k, rkeys rs !! j = Some k -> admissibleLocked (budget s) k now = false)
  | (i, refusalDrained, _) =>
      i = -1 /\ forall j k, rkeys rs !! j = Some k -> selectableAt k now = false
  end.
Proof.
  intros Hr rs.
  destruct (reserve_spec s now route rs0 Hr) as [(i&k&s1&->&Hk&H1&H2&_)|[(H1&H2&->)|(H1&->)]]; auto.
  exists k. rewrite Nat2Z.id. split_and!; auto; [lia|].
  rewrite key_at_set_route, decide_True by done. unfold append_lease; simpl.
  subst rs. by rewrite list_lookup_alter, decide_True, Hk.
Qed.

End simulation.

(** The witnesses share a one-route, two-key store with a cap of three requests
    per hour on each key. *)
Definition wit_budget : Budget :=
  {| Window := Hour; BTokens := 0; BRequests := 3; SoftRatio := Float64.one; EstimateTokens := 0 |}.
Definition wit_store : Store roundRobinPolicy :=
  NewStore 0 {["r" := 2]} NewRoundRobinPolicy wit_budget 0 0.

Lemma request_cap_exact_witness :
  exists s k, hist wit_store [LReserve "r" 0] s /\ key_at s "r" 0 = Some k /\
    requests k + inFlight k <= 3.
Proof.
  assert (Hh : hist wit_store ([] ++ [LReserve "r" 0]) (reserve 5 "r" wit_store).2).
  { eapply H_snoc; [constructor|]. apply (SS_reserve _ 5). vm_compute. reflexivity. }
  eexists _, _. split; [exact Hh|]. split; [vm_compute; reflexivity|].
  apply (request_cap_exact 0 {["r" := 2]} NewRoundRobinPolicy wit_budget 0 0 _ _ "r" 0 _
    ltac:(reflexivity) ltac:(reflexivity) Hh ltac:(vm_compute; reflexivity)).
  vm_compute. reflexivity.
Defined.

Lemma lease_conservation_witness :
  exists s k, hist wit_store [LReserve "r" 0; LSettle "r" 0] s /\ key_at s "r" 0 = Some k /\
    leases k = [] /\ requests k = 1.
Proof.
  assert (Hh : hist wit_store (([] ++ [LReserve "r" 0]) ++ [LSettle "r" 0])
    (RecordSample 9 "r" 0 {| Outcome := OutcomeCompleted; STokens := 7; SEstimated := false |}
       (reserve 5 "r" wit_store).2).1).
  { eapply H_snoc; [eapply H_snoc; [constructor|]|].
    - apply (SS_reserve _ 5). vm_compute. reflexivity.
    - eapply (SS_settle _ 9 "r" 0%nat); [vm_compute; reflexivity | vm_compute; reflexivity]. }
  eexists _, _. split; [exact Hh|]. split; [vm_compute; reflexivity|]. split; [|vm_compute; reflexivity].
  apply (lease_conservation 0 {["r" := 2]} NewRoundRobinPolicy wit_budget 0 0 _ _ "r" 0 _ Hh
    ltac:(vm_compute; reflexivity)).
  vm_compute. reflexivity.
Defined.

Lemma reserve_outcome_witness :
  match reserve 5 "r" wit_store with
  | (i, refusalNone, _) => 0 <= i
  | _ => False
  end.
Proof.
  pose proof (reserve_outcome wit_store 5 "r"
    {| rkeys := replicate 2 zero_key; windowStart := 0 |} ltac:(vm_compute; reflexivity)) as H.
  vm_compute in H |- *. destruct H as (k & H & _). exact H.
Defined.

(** ** Windows, caps, retirements and the advertised wait *)

(** Rolling keeps the window on its grid and covers the present instant. *)
Lemma rollLocked_window b rs now :
  0 < Window b <= max_int64 -> windowStart rs <= now -> now - windowStart rs <= max_int64 ->
  let rs' := rollLocked b rs now in
  windowStart rs' <= now < windowStart rs' + Window b /\
  (exists n, 0 <= n /\ windowStart rs' = windowStart rs + n * Window b) /\
  (windowStart rs' <> windowStart rs -> rkeys rs' = (fun k => roll_key k now) <$> rkeys rs).
Proof.
  intros Hw Hle Hrng. unfold rollLocked.
  destruct (Z.leb_spec (Window b) 0); [lia|].
  rewrite time_sub_exact by (unfold in_int64, min_int64, max_int64 in *; lia).
  destruct (Z.ltb_spec (now - windowStart rs) (Window b)).
  - split; [lia|]. split; [exists 0; lia | done].
  - simpl. unfold time_add. rewrite Z.quot_div_nonneg by lia.
    pose proof (Z.div_mod (now - windowStart rs) (Window b) ltac:(lia)) as Hd.
    pose proof (Z.mod_pos_bound (now - windowStart rs) (Window b) ltac:(lia)).
    split; [nia|]. split; [|done].
    exists ((now - windowStart rs) / Window b). split; [apply Z.div_pos; lia | lia].
Qed.

(** After any locked access the accounting window of the route covers the
    present and has moved by a whole number of windows; if it moved, the window
    counters of every key are zero and no key is capped. *)
Theorem window_tumbles b timeout rs now :
  0 < Window b <= max_int64 -> windowStart rs <= now -> now - windowStart rs <= max_int64 ->
  let rs' := advanceLocked b timeout rs now in
  windowStart rs' <= now < windowStart rs' + Window b /\
  (exists n, 0 <= n /\ windowStart rs' = windowStart rs + n * Window b) /\
  (windowStart rs' <> windowStart rs ->
   Forall (fun k => requests k = 0 /\ tokens k = 0 /\ errors k = 0 /\ drained k = false /\
                    softRetired k = false /\ estimated k = false) (rkeys rs')).
Proof.
  intros Hw Hle Hrng. unfold advanceLocked.
  match goal with |- context [rollLocked b ?r now] =>
    destruct (rollLocked_window b r now Hw Hle Hrng) as (H1 & H2 & H3) end.
  split; [done|]. split; [done|]. intros Hne. rewrite (H3 Hne).
  apply Forall_fmap, Forall_true. intros k; simpl; auto 10.
Qed.

Lemma window_tumbles_witness :
  let rs' := advanceLocked wit_budget DefaultLeaseTimeout
               {| rkeys := [set_caps zero_key true true]; windowStart := 10 |} (Hour + 20) in
  windowStart rs' = 10 + Hour /\ windowStart rs' <= Hour + 20 < windowStart rs' + Hour.
Proof.
  split; [vm_compute; reflexivity|].
  apply (window_tumbles wit_budget DefaultLeaseTimeout
    {| rkeys := [set_caps zero_key true true]; windowStart := 10 |} (Hour + 20));
    [vm_compute; split; [reflexivity | discriminate] | vm_compute; discriminate | vm_compute; discriminate].
Defined.

(** A key whose settled requests have reached the hard cap leaves rotation with
    that very settlement, and nothing but a rollover brings it back: it is
    unselectable at every instant. *)
Theorem hard_cap_drains b k sample t :
  0 < Window b -> 0 < BRequests b < 2 ^ 53 -> Outcome sample = OutcomeCompleted ->
  BRequests b <= requests k + 1 < 2 ^ 53 ->
  let k' := (settleLocked b k sample).1 in
  drained k' = true /\ selectableAt k' t = false.
Proof.
  intros Hw Hb Ho Hq. unfold settleLocked. rewrite Ho.
  set (k1 := charge_key (releaseLocked k) _ _).
  assert (Hr : requests k1 = requests k + 1).
  { unfold k1, releaseLocked; repeat (simpl; case_match); done. }
  assert (Hat : atRatio (requests k1) (BRequests b) Float64.one = true).
  { unfold atRatio. rewrite Float64.mul_one_of_int, Float64.leb_of_int by lia.
    apply andb_true_iff; split; [apply Z.ltb_lt | apply Z.leb_le]; lia. }
  assert (Hd : drained (applyCapsLocked b k1).1 = true).
  { unfold applyCapsLocked.
    rewrite (proj2 (Z.leb_gt (Window b) 0)), (proj2 (Z.leb_gt (BRequests b) 0)) by lia.
    cbn [orb andb]. rewrite Hat. cbn [orb]. by case_match. }
  simpl. split; [done|]. unfold selectableAt. by rewrite Hd.
Qed.

Lemma hard_cap_drains_witness :
  let k := charge_key (charge_key zero_key 0 false) 0 false in
  selectableAt (settleLocked wit_budget k
    {| Outcome := OutcomeCompleted; STokens := 9; SEstimated := false |}).1 77 = false.
Proof.
  apply (hard_cap_drains wit_budget (charge_key (charge_key zero_key 0 false) 0 false)
    {| Outcome := OutcomeCompleted; STokens := 9; SEstimated := false |} 77);
    [vm_compute; reflexivity | vm_compute; split; reflexivity | reflexivity |].
  vm_compute; split; [discriminate | reflexivity].
Defined.

(** A retirement keeps a key out of rotation until its deadline, across ageing,
    rollovers, reservations, settlements and further retirements: no key step
    taken before the deadline makes it selectable earlier, and deadlines only
    ever extend. *)
Definition retired_through (k : keyState) (until : Time) : Prop := until <= retiredUntil k.

Inductive kstep_before (b : Budget) (timeout : Duration) (until : Time) : keyState -> keyState -> Prop :=
| KB_reclaim k now : kstep_before b timeout until k (reclaimStaleLocked timeout k now)
| KB_roll k now : now < until -> kstep_before b timeout until k (roll_key k now)
| KB_lease k now : kstep_before b timeout until k (set_leases k (leases k ++ [now]))
| KB_settle k sample : kstep_before b timeout until k (settleLocked b k sample).1
| KB_retire k now u reason : kstep_before b timeout until k (retireLocked k now u reason).1.

Lemma release_retiredUntil k : retiredUntil (releaseLocked k) = retiredUntil k.
Proof. unfold releaseLocked; repeat case_match; done. Qed.

Lemma kstep_before_retired b timeout until k k' :
  kstep_before b timeout until k k' -> retired_through k until -> retired_through k' until.
Proof.
  unfold retired_through; intros Hs Hk; destruct Hs as [k now|k now Hn|k now|k sample|k now u reason].
  - destruct (reclaim_fields timeout k now) as (_&_&_&_&_&_&_&->). done.
  - simpl. rewrite (proj2 (time_after_spec _ _)) by lia. done.
  - done.
  - unfold settleLocked. destruct (Outcome sample); simpl.
    + match goal with |- context [applyCapsLocked b ?c] =>
        destruct (applyCaps_fields b c) as (_&_&_&_&_&_&->&_) end.
      simpl. by rewrite release_retiredUntil.
    + by rewrite release_retiredUntil.
  - destruct (retire_fields k now u reason) as (_&_&_&_&_&_&H). lia.
Qed.

Theorem retirement_holds b timeout k k' now until reason t :
  now < until -> t < until ->
  rtc (kstep_before b timeout until) (retireLocked k now until reason).1 k' ->
  selectableAt k' t = false.
Proof.
  intros Hn Ht Hs.
  assert (H0 : retired_through (retireLocked k now until reason).1 until).
  { unfold retired_through, retireLocked, time_after.
    destruct (Z.ltb_spec now until), (Z.ltb_spec (retiredUntil k) until); simpl; lia. }
  assert (H1 : retired_through k' until).
  { revert H0. induction Hs as [|x y z Hxy _ IH]; [done|]. eauto using kstep_before_retired. }
  unfold selectableAt. unfold retired_through in H1.
  rewrite (proj2 (time_after_spec (retiredUntil k') t)) by lia. by rewrite !andb_false_r.
Qed.

Lemma retirement_holds_witness :
  selectableAt (roll_key (retireLocked zero_key 5 100 "quota").1 50) 99 = false.
Proof.
  apply (retirement_holds wit_budget 0 zero_key _ 5 100 "quota" 99); [reflexivity | reflexivity |].
  apply rtc_once. apply KB_roll. reflexivity.
Defined.

(** The retirement metric counts keys leaving rotation: an event is emitted
    exactly when a deadline in the future is set on a key that was not already
    retired. *)
Theorem retire_event_iff k now until reason :
  (retireLocked k now until reason).2 =
  if decide (now < until /\ retiredUntil k <= now) then [reason] else [].
Proof.
  unfold retireLocked, time_after.
  destruct (Z.ltb_spec now until), (Z.ltb_spec now (retiredUntil k)); case_decide; simpl; try done; lia.
Qed.

Section retry_after.
Context {P : Type} `{!RotationPolicy P}.
Implicit Types s : Store P.

Lemma best_wait_spec b maxRA ws ks now best r :
  best_wait b maxRA ws ks now best = Some r ->
  Forall (fun k => selectableAt k now = false) ks /\
  (r = best /\ (0 <= best \/ ks = []) \/
   exists k, k ∈ ks /\ r = waitForLocked b maxRA ws k now).
Proof.
  revert best; induction ks as [|k ks IH]; intros best; simpl.
  - intros [= <-]. split; [constructor|]. auto.
  - destruct (selectableAt k now) eqn:E; [done|]. intros H.
    destruct (IH _ H) as [HF Hr]. split; [by constructor|].
    destruct Hr as [[-> Hb]|(k' & Hk' & ->)].
    + destruct (Z.ltb_spec best 0), (Z.ltb_spec (waitForLocked b maxRA ws k now) best);
        simpl in *; try (right; exists k; split; [by left | done]).
      left. auto.
    + right. exists k'. split; [by right|done].
Qed.

Lemma waitFor_nonneg b maxRA ws k now :
  0 <= maxRA -> 0 <= waitForLocked b maxRA ws k now.
Proof.
  unfold waitForLocked, time_after, time_sub, min_int64, max_int64.
  destruct (drained k || softRetired k); zbool; lia.
Qed.

(** The result is a minimum. *)
Lemma best_wait_least b maxRA ws ks now best r :
  0 <= maxRA -> best_wait b maxRA ws ks now best = Some r ->
  (0 <= best -> r <= best) /\ Forall (fun k => r <= waitForLocked b maxRA ws k now) ks.
Proof.
  intros Hm. revert best; induction ks as [|k ks IH]; intros best; simpl; [intros [= ->]; split; [done|constructor]|].
  destruct (selectableAt k now); [done|]. intros H. destruct (IH _ H) as [Hb HF].
  pose proof (waitFor_nonneg b maxRA ws k now Hm) as Hnn.
  split; [|constructor; [|done]]; revert Hb; zbool; simpl; intros; lia.
Qed.

Lemma best_wait_None b maxRA ws ks now best :
  best_wait b maxRA ws ks now best = None <-> Exists (fun k => selectableAt k now = true) ks.
Proof.
  revert best; induction ks as [|k ks IH]; intros best; simpl.
  - split; [done|]. intros H; inversion H.
  - rewrite Exists_cons. destruct (selectableAt k now) eqn:E; [by split; [left|]|].
    rewrite IH. split; [by right | by intros [?|?]].
Qed.

Lemma selectable_until k t : selectableAt k t = false <-> drained k || softRetired k = true \/ t < retiredUntil k.
Proof. unfold selectableAt, time_after. destruct (drained k), (softRetired k); simpl; zbool; split; intros; try done; try lia; auto; by destruct H0. Qed.

(** What [advanceLocked] makes of a key: rolled, or with its flags as they
    were. *)
Lemma advance_flags b timeout rs i k t :
  rkeys rs !! i = Some k ->
  exists k', rkeys (advanceLocked b timeout rs t) !! i = Some k' /\
    if (0 <? Window b) && (Window b <=? time_sub t (windowStart rs))
    then drained k' || softRetired k' = false /\ retiredUntil k' = (if time_after (retiredUntil k) t then retiredUntil k else time_zero)
    else drained k' || softRetired k' = drained k || softRetired k /\ retiredUntil k' = retiredUntil k.
Proof.
  intros Hk. destruct (reclaim_fields timeout k t) as (_&_&_&_&_&Hd&Hs&Hu).
  unfold advanceLocked, rollLocked; simpl.
  destruct (Z.leb_spec (Window b) 0), (Z.ltb_spec 0 (Window b)); simpl; try lia.
  - eexists. rewrite list_lookup_fmap, Hk. split; [done|]. by rewrite Hd, Hs, Hu.
  - destruct (Z.ltb_spec (time_sub t (windowStart rs)) (Window b)), (Z.leb_spec (Window b) (time_sub t (windowStart rs))); try lia; simpl.
    + eexists. rewrite list_lookup_fmap, Hk. split; [done|]. by rewrite Hd, Hs, Hu.
    + eexists. rewrite !list_lookup_fmap, Hk. split; [done|]. simpl. by rewrite Hu.
Qed.

(** The wait is long enough: a key waits until its retirement has expired and,
    when capped, until the window has ended. *)
Lemma waitFor_enough b timeout maxRA rs k i now t :
  Window b <= max_int64 -> (Window b <= 0 -> drained k || softRetired k = false) -> 0 <= t -> rkeys rs !! i = Some k ->
  waitForLocked b maxRA (windowStart rs) k now < max_int64 ->
  now + waitForLocked b maxRA (windowStart rs) k now <= t ->
  exists k', rkeys (advanceLocked b timeout rs t) !! i = Some k' /\ selectableAt k' t = true.
Proof.
  intros Hw Hno Ht0 Hk Hsat Ht. destruct (advance_flags b timeout rs i k t Hk) as (k' & Hk' & Hf).
  exists k'. split; [done|]. apply not_false_iff_true. intros Hsel%selectable_until.
  unfold waitForLocked, time_after, time_sub, time_add, time_zero, min_int64, max_int64 in *.
  destruct (drained k || softRetired k); revert Hf Ht Hsat; zbool; simpl; intros [E1 E2] Ht Hsat;
    rewrite ?E1, ?E2 in Hsel; destruct Hsel as [Hsel|Hsel]; try lia; try done; specialize (Hno ltac:(lia)); done.
Qed.

(** And no longer than needed: before its end the key is out. *)
Lemma waitFor_needed b timeout maxRA rs k i now t w :
  Window b <= max_int64 -> (Window b <= 0 -> drained k || softRetired k = false) -> 0 <= now -> rkeys rs !! i = Some k ->
  w <= waitForLocked b maxRA (windowStart rs) k now -> now <= t < now + w ->
  exists k', rkeys (advanceLocked b timeout rs t) !! i = Some k' /\ selectableAt k' t = false.
Proof.
  intros Hw Hno Ht0 Hk Hle Ht. destruct (advance_flags b timeout rs i k t Hk) as (k' & Hk' & Hf).
  exists k'. split; [done|]. apply selectable_until.
  unfold waitForLocked, time_after, time_sub, time_add, time_zero, min_int64, max_int64 in *.
  destruct (drained k || softRetired k); revert Hf Hle; zbool; simpl; intros [E1 E2] Hle;
    rewrite ?E1, ?E2; try (by left); try (right; lia); try lia; specialize (Hno ltac:(lia)); done.
Qed.

Lemma best_wait_nonempty b maxRA ws k ks now r :
  best_wait b maxRA ws (k :: ks) now (-1) = Some r ->
  exists k', k' ∈ k :: ks /\ r = waitForLocked b maxRA ws k' now.
Proof.
  intros H. destruct (best_wait_spec _ _ _ _ _ _ _ H) as [_ [[-> [?|?]]|?]]; [lia | done | done].
Qed.

(** Without a window no key is ever capped. *)
Lemma ksteps_uncapped b timeout k evs k' :
  ksteps b timeout k evs k' -> Window b <= 0 -> drained k || softRetired k = false -> drained k' || softRetired k' = false.
Proof.
  intros Hs Hw. induction Hs as [|k ev k1 evs k2 Hst _ IH]; [done|]. intros Hk. apply IH. clear IH.
  destruct Hst as [k now|k now|k now Hadm|k sample Hout|k now until reason]; try done.
  - destruct (reclaim_fields timeout k now) as (_&_&_&_&_&->&->&_). done.
  - unfold settleLocked, applyCapsLocked. rewrite (proj2 (Z.leb_le _ _) Hw).
    unfold releaseLocked. destruct (Outcome sample); simpl; repeat case_match; done.
  - unfold retireLocked. repeat case_match; done.
Qed.

Lemma sstep_ceiling s l s' : sstep s l s' -> maxRetryAfter s' = maxRetryAfter s.
Proof.
  assert (Hres : forall now route s, maxRetryAfter (reserve now route s).2 = maxRetryAfter s).
  { intros now route s0. unfold reserve. destruct (routes s0 !! route) as [rs0|]; [|done].
    destruct (candidates _ _ _) as [|st0 sts]; [done|].
    destruct (choose _ _) as [pos s1] eqn:Ec. pose proof (choose_routes (set_route s0 route (advance s0 rs0 now)) (st0 :: sts)) as H.
    rewrite Ec in H. simpl in *. tauto. }
  assert (Hkey : forall now route idx f s, maxRetryAfter (on_key now route idx f s).1 = maxRetryAfter s).
  { intros now route idx f s0. unfold on_key. repeat case_match; done. }
  destruct 1 as [s now route idx s' Hr|s now route i refusal s' Hr Hne|s now route idx sample k Hk Ho
    |s now route idx until reason|s now route idx reason|s now route|s now route]; try apply Hkey.
  - rewrite <- (Hres now route s). by rewrite Hr.
  - rewrite <- (Hres now route s). by rewrite Hr.
  - unfold RetryAfter. repeat case_match; done.
  - unfold Snapshot. repeat case_match; done.
Qed.

Lemma hist_uncapped now0 keys (pol : P) b maxRA lease ls s :
  hist (NewStore now0 keys pol b maxRA lease) ls s ->
  Window (budget s) = Window b /\ maxRetryAfter s = maxRetryAfter (NewStore now0 keys pol b maxRA lease) /\
  (Window b <= 0 -> forall r i k, key_at s r i = Some k -> drained k || softRetired k = false).
Proof.
  intros Hh. remember (NewStore now0 keys pol b maxRA lease) as s0 eqn:E0.
  assert (Hinv : forall r i k, key_at s0 r i = Some k -> kinv (budget s0) k /\ outstanding k = 0)
    by (rewrite E0; apply NewStore_fresh).
  induction Hh as [s|s ls s' l s'' Hh IH Hs].
  - subst s. split; [done|]. split; [done|]. intros _ r i k. unfold key_at, NewStore; simpl. rewrite lookup_omap.
    destruct (keys !! r) as [n|]; simpl; [|done]. case_match; simpl; [done|]. by intros [-> _]%lookup_replicate.
  - destruct (IH E0 Hinv) as (Hb & Hm & Hk). split_and!.
    + rewrite (proj1 (sstep_config _ _ _ Hs)). done.
    + by rewrite (sstep_ceiling _ _ _ Hs).
    + intros Hw r i k Hk'. destruct (sstep_key s' l s'' r i k Hs) as (k1 & evs & Hk1 & Hks & _); [|done|].
      { intros k2 Hk2. destruct (hist_inv _ _ _ r i k2 Hh Hinv Hk2) as (-> & ? & _). done. }
      eapply ksteps_uncapped; [exact Hks|by rewrite Hb|by eapply Hk].
Qed.

(** C20: The advertised Retry-After is true, along every history of a store and for
    routes with and without a budget window: there is a wait, before the end of
    which no key of the route is selectable and from the end of which on some key
    is (if nobody retires or charges keys meanwhile; waits of 292 years and more
    saturate), and what is advertised is this wait capped at the store's ceiling
    and then raised to one second.  The ceiling is the configured one, one hour
    by default.  A ceiling under a second is exceeded. *)
Theorem retry_after_true now0 keys (pol : P) b maxRA lease ls s now route rs0 d s' :
  Window b <= max_int64 -> 0 <= now -> hist (NewStore now0 keys pol b maxRA lease) ls s ->
  routes s !! route = Some rs0 -> RetryAfter now route s = (Some d, s') ->
  let ceiling := if maxRA <=? 0 then Hour else maxRA in
  exists rs wait,
    routes s' !! route = Some rs /\
    d = Z.max Second (Z.min ceiling wait) /\
    Forall (fun k => selectableAt k now = false) (rkeys rs) /\
    (forall t, now <= t < now + wait -> Forall (fun k => selectableAt k t = false) (rkeys (advance s' rs t))) /\
    (wait < max_int64 -> forall t, now + wait <= t -> Exists (fun k => selectableAt k t = true) (rkeys (advance s' rs t))).
Proof.
  intros Hw Hnow Hh Hr Hret ceiling.
  destruct (hist_uncapped _ _ _ _ _ _ _ _ (H_snoc _ _ _ _ _ Hh (SS_retryAfter s now route))) as (Hb & Hm & Hcap).
  rewrite Hret in Hb, Hm, Hcap. cbn [snd] in *. change (maxRetryAfter (NewStore _ _ _ _ _ _)) with ceiling in Hm.
  assert (Hpos : 0 <= ceiling) by (unfold ceiling; zbool; unfold Hour, Minute, Second in *; lia).
  clearbody ceiling. revert Hret. unfold RetryAfter. rewrite Hr.
  destruct (Nat.eqb_spec (length (rkeys rs0)) 0) as [|Hlen]; [done|].
  set (rs := advance s rs0 now).
  assert (Hlen' : length (rkeys rs) = length (rkeys rs0)) by apply advance_length.
  destruct (best_wait _ _ _ _ _ _) as [best|] eqn:Eb; [|done].
  destruct (Z.ltb_spec best 0) as [|Hbest0]; [done|]. intros [= <- <-].
  cbn [budget maxRetryAfter set_route routes] in *. rewrite Hm in *. rewrite <- Hb in *. clear Hb Hh.
  exists rs, best. split; [apply lookup_insert_eq|]. split; [unfold MinRetryAfter; zbool; lia|].
  destruct (best_wait_spec _ _ _ _ _ _ _ Eb) as [HF _].
  pose proof (proj2 (best_wait_least _ _ _ _ _ _ _ Hpos Eb)) as Hleast.
  assert (Hno : forall i k, rkeys rs !! i = Some k -> Window (budget s) <= 0 -> drained k || softRetired k = false).
  { intros i k Hi Hwin. apply (Hcap Hwin route i k). unfold key_at. cbn [set_route routes]. by rewrite lookup_insert_eq. }
  split; [done|]. unfold advance. cbn [budget leaseTimeout set_route]. split.
  - intros t Ht. apply Forall_lookup. intros i k' Hk'.
    assert (Hi : (i < length (rkeys rs))%nat).
    { apply lookup_lt_Some in Hk'. by rewrite advance_length in Hk'. }
    destruct (lookup_lt_is_Some_2 _ _ Hi) as [k Hk].
    destruct (waitFor_needed (budget s) (leaseTimeout s) ceiling rs k i now t best Hw (Hno _ _ Hk) Hnow Hk) as (k2 & Hk2 & Hs2); [|done|].
    { rewrite Forall_lookup in Hleast. by eapply Hleast. }
    congruence.
  - intros Hsat t Ht. destruct (rkeys rs) as [|kx ks] eqn:Ek; [simpl in Hlen'; lia|]. rewrite <- Ek in *.
    rewrite Ek in Eb. destruct (best_wait_nonempty _ _ _ _ _ _ _ Eb) as (k0 & Hk0 & Hbest). rewrite <- Ek in Hk0.
    apply list_elem_of_lookup in Hk0 as [i Hi]. rewrite Hbest in Hsat, Ht.
    destruct (waitFor_enough (budget s) (leaseTimeout s) ceiling rs k0 i now t Hw (Hno _ _ Hi)) as (k' & Hk' & Hs'); try done; [lia|].
    apply Exists_exists. exists k'. split; [by eapply list_elem_of_lookup_2|done].
Qed.

(** [RetryAfter] answers "no wait" on a route with keys exactly when some key is
    selectable. *)
Theorem retry_after_none s now route rs0 :
  routes s !! route = Some rs0 -> rkeys rs0 <> [] -> 0 < maxRetryAfter s ->
  (RetryAfter now route s).1 = None <->
  Exists (fun k => selectableAt k now = true) (rkeys (advance s rs0 now)).
Proof.
  intros Hr Hne Hm. unfold RetryAfter. rewrite Hr.
  destruct (rkeys rs0) as [|kx kxs] eqn:Ex; [done|]. cbn [length Nat.eqb].
  set (rs := advance s rs0 now). cbn [budget maxRetryAfter set_route].
  assert (Hlen' : length (rkeys rs) = length (rkeys rs0)) by apply advance_length.
  destruct (best_wait _ _ _ _ _ _) as [best|] eqn:Eb; simpl.
  - split; [|intros HE; by apply (best_wait_None (budget s) (maxRetryAfter s) (windowStart rs) _ now (-1)) in HE; rewrite HE in Eb].
    destruct (rkeys rs) as [|k ks] eqn:Ek; [rewrite Ex in Hlen'; simpl in Hlen'; lia|].
    destruct (best_wait_nonempty _ _ _ _ _ _ _ Eb) as (k0 & Hk0 & Hbest).
    pose proof (waitFor_nonneg (budget s) (maxRetryAfter s) (windowStart rs) k0 now ltac:(lia)).
    destruct (Z.ltb_spec best 0); [lia|done].
  - apply best_wait_None in Eb. done.
Qed.

(** A lease settles its reservation at most once: after the first [Settle] every
    further one changes nothing and emits nothing. *)
Theorem settle_once s now now' l sample sample' :
  let '(l', s', _) := Settle now l sample s in
  Settle now' l' sample' s' = (l', s', []).
Proof.
  unfold Settle. destruct (settled l) eqn:E.
  - by rewrite E.
  - destruct (RecordSample now (l_route l) (l_index l) sample s). done.
Qed.

End retry_after.

(** A store with one key, out of rotation for ten more seconds. *)
Definition wit_retired : Store roundRobinPolicy :=
  (RetireWithReason 5 "r" 0 (10 * Second) "" (NewStore 0 {["r" := 1]} NewRoundRobinPolicy wit_budget 0 0)).1.

Lemma retry_after_true_witness :
  exists d s' rs, RetryAfter 5 "r" wit_retired = (Some d, s') /\ routes s' !! "r" = Some rs /\ Second <= d <= Hour.
Proof.
  destruct (RetryAfter 5 "r" wit_retired) as [d s'] eqn:E.
  assert (Hd : exists x, d = Some x) by (destruct d as [x|]; [by exists x|vm_compute in E; discriminate]).
  destruct Hd as [x ->]. exists x, s'.
  assert (Hh : hist (NewStore 0 {["r" := 1]} NewRoundRobinPolicy wit_budget 0 0) ([] ++ [LOther]) wit_retired)
    by (eapply H_snoc; [constructor|]; apply SS_retire).
  destruct (retry_after_true 0 {["r" := 1]} NewRoundRobinPolicy wit_budget 0 0 ([] ++ [LOther]) wit_retired 5 "r"
    {| rkeys := [set_retired zero_key (10 * Second) "quota"]; windowStart := 0 |} x s')
    as (rs & wait & Hr & Hx & _); [vm_compute; discriminate|lia|exact Hh|vm_compute; reflexivity|exact E|].
  exists rs. split; [reflexivity|]. split; [exact Hr|]. rewrite Hx. cbn [Z.leb]. unfold Hour, Minute, Second in *. simpl. lia.
Defined.

(** The ceiling is applied first and the floor second: a store asked to advertise
    at most half a second advertises a whole one, though its key is back in
    100 ms. *)
Example ceiling_exceeded :
  let s0 := NewStore 0 {["r" := 1]} NewRoundRobinPolicy wit_budget (Second / 2) 0 in
  let s := (RetireWithReason 5 "r" 0 (Second / 10) "" s0).1 in
  maxRetryAfter s = Second / 2 /\ (RetryAfter 5 "r" s).1 = Some Second.
Proof. vm_compute. done. Qed.

(** A route without a window: the wait is that of the retirement. *)
Example windowless_wait :
  let b := {| Window := 0; BRequests := 0; BTokens := 0; SoftRatio := SoftRatio wit_budget; EstimateTokens := 0 |} in
  let s := (RetireWithReason 0 "r" 0 (10 * Second) "" (NewStore 0 {["r" := 1]} NewRoundRobinPolicy b 0 0)).1 in
  (RetryAfter 0 "r" s).1 = Some (10 * Second).
Proof. vm_compute. reflexivity. Qed.

Lemma retry_after_none_witness :
  (RetryAfter 5 "r" wit_store).1 = None.
Proof.
  apply (retry_after_none wit_store 5 "r" {| rkeys := replicate 2 zero_key; windowStart := 0 |});
    [vm_compute; reflexivity | discriminate | vm_compute; reflexivity |].
  left. vm_compute. reflexivity.
Defined.

End RotationStoreSpec.
