(* ===== verification/Usage.v ===== *)
(** * Usage extraction from a streamed response

    Models [src/internal/channel/usage.go]: the rolling tail of a proxied body
    and the scan for the last readable ["total_tokens"] value in it. *)

From Stdlib Require Import ZArith Lia Ascii String.
From stdpp Require Import base option list gmap strings.
From S2P Require Import Prelude GoStrings RotationStore.

Module Usage.
Import GoStrings.

Definition UsageTailBytes : nat := Z.to_nat (8 * 1024).

(** The marker is written with its two quote characters. *)
Definition quote : ascii := ascii_of_nat 34.
Definition quoted (s : string) : bytes := quote :: to_bytes s ++ [quote].
Definition usageMarker : bytes := quoted "total_tokens".

(** [Observe]: append the chunk, keep the last [UsageTailBytes] bytes. *)
Definition Observe (tail b : bytes) : bytes :=
  if Nat.eqb (length b) 0 then tail
  else
    let t := tail ++ b in
    if Nat.ltb UsageTailBytes (length t) then drop (length t - UsageTailBytes) t else t.

Definition endsJSONValue (c : ascii) : bool :=
  Ascii.eqb c "," || Ascii.eqb c "}" || Ascii.eqb c "]" || is_json_space c.

(** [skipSpace] on the remaining bytes. *)
Definition skipSpace (b : bytes) : bytes := (span is_json_space b).2.

(** [strconv.ParseInt(ds, 10, 64)] on a string of digits. *)
Definition parse_int64_digits (ds : bytes) : option Z :=
  let n := dec_value ds in if n <=? max_int64 then Some n else None.

Definition parseUsageValue (b : bytes) : option Z :=
  match skipSpace b with
  | c :: b1 =>
      if Ascii.eqb c ":" then
        let '(ds, rest) := span is_digit (skipSpace b1) in
        match ds, rest with
        | [], _ => None
        | _, [] => None
        | _, d :: _ => if endsJSONValue d then parse_int64_digits ds else None
        end
      else None
  | [] => None
  end.

(** The loop of [Result], from the last marker backwards.  Every turn drops at
    least the marker, so [length rest] turns are enough. *)
Fixpoint scan_back (fuel : nat) (rest : bytes) : option Z :=
  match fuel with
  | O => None
  | S fuel' =>
      match last_index usageMarker rest with
      | None => None
      | Some at_ =>
          match parseUsageValue (drop (at_ + length usageMarker) rest) with
          | Some n => Some n
          | None => scan_back fuel' (take at_ rest)
          end
      end
  end.

Definition Result (tail : bytes) : RotationStore.UsageSample :=
  match scan_back (S (length tail)) tail with
  | Some n => {| RotationStore.Outcome := RotationStore.OutcomeCompleted;
                 RotationStore.STokens := n; RotationStore.SEstimated := false |}
  | None => {| RotationStore.Outcome := RotationStore.OutcomeCompleted;
               RotationStore.STokens := RotationStore.TokensUnknown;
               RotationStore.SEstimated := true |}
  end.

(** ** Specification *)

(** The last [n] bytes. *)
Definition lastn (n : nat) (b : bytes) : bytes := drop (length b - n) b.

(** A readable value: [: 123,] with optional white space, ended by a byte that
    can follow a JSON number. *)
Definition readable (b : bytes) (n : Z) : Prop :=
  exists sp1 sp2 ds d rest,
    b = sp1 ++ ":"%char :: sp2 ++ ds ++ d :: rest /\
    Forall (fun c => is_json_space c = true) sp1 /\ Forall (fun c => is_json_space c = true) sp2 /\
    ds <> [] /\ Forall (fun c => is_digit c = true) ds /\ endsJSONValue d = true /\
    dec_value ds = n /\ n <= max_int64.

(** ** Lemmas *)

Lemma lastn_app_lastn n a b : lastn n (lastn n a ++ b) = lastn n (a ++ b).
Proof.
  unfold lastn. rewrite !length_app, length_drop.
  destruct (decide (length a <= n)%nat).
  - by replace (length a - n)%nat with 0%nat by lia; rewrite drop_0, Nat.sub_0_r.
  - destruct (decide (length b <= n)%nat).
    + rewrite (drop_app_le a) by lia. rewrite drop_app_le by (rewrite length_drop; lia).
      rewrite drop_drop. do 2 f_equal. lia.
    + rewrite (drop_app_ge a) by lia. rewrite drop_app_ge by (rewrite length_drop; lia).
      rewrite length_drop. f_equal. lia.
Qed.

Lemma Observe_lastn a b : Observe (lastn UsageTailBytes a) b = lastn UsageTailBytes (a ++ b).
Proof.
  unfold Observe. destruct b as [|c b]; cbn [length Nat.eqb]; [by rewrite app_nil_r|].
  rewrite <- lastn_app_lastn. set (t := lastn UsageTailBytes a ++ c :: b).
  destruct (Nat.ltb_spec UsageTailBytes (length t)); [done|].
  unfold lastn. by replace (length t - UsageTailBytes)%nat with 0%nat by lia.
Qed.

Lemma skipSpace_app sp b :
  Forall (fun c => is_json_space c = true) sp ->
  (forall c b', b = c :: b' -> is_json_space c = false) -> skipSpace (sp ++ b) = b.
Proof.
  intros Hs Hb. unfold skipSpace. rewrite span_app; [done | done |].
  destruct b as [|c b]; [by left | right; eauto].
Qed.

Lemma digit_not_space c : is_digit c = true -> is_json_space c = false.
Proof. unfold is_digit, is_json_space. zbool; simpl; intros; done || lia. Qed.

Lemma ends_not_digit c : endsJSONValue c = true -> is_digit c = false.
Proof. by destruct c as [[] [] [] [] [] [] [] []]. Qed.

Lemma parseUsageValue_readable b n : parseUsageValue b = Some n <-> readable b n.
Proof.
  split.
  - unfold parseUsageValue, skipSpace.
    pose proof (span_spec is_json_space b) as H1. destruct (span is_json_space b) as [sp1 b1].
    destruct H1 as (-> & Hs1 & _). simpl.
    destruct b1 as [|c b1]; [done|]. destruct (Ascii.eqb_spec c ":"); [subst c|done].
    pose proof (span_spec is_json_space b1) as H2. destruct (span is_json_space b1) as [sp2 b2].
    destruct H2 as (-> & Hs2 & _). simpl.
    pose proof (span_spec is_digit b2) as H3. destruct (span is_digit b2) as [ds b3].
    destruct H3 as (-> & Hd & _).
    destruct ds as [|d0 ds]; [done|]. destruct b3 as [|d b3]; [done|].
    destruct (endsJSONValue d) eqn:Ed; [|done].
    unfold parse_int64_digits. destruct (Z.leb_spec (dec_value (d0 :: ds)) max_int64); [|done].
    intros [= <-]. exists sp1, sp2, (d0 :: ds), d, b3. split_and!; auto.
  - intros (sp1 & sp2 & ds & d & rest & -> & Hs1 & Hs2 & Hne & Hd & Hend & <- & Hmax).
    unfold parseUsageValue. rewrite skipSpace_app; [|done|by intros c b' [= <- _]].
    cbn [Ascii.eqb Bool.eqb]. simpl (Ascii.eqb ":" ":").
    rewrite skipSpace_app; [|done|].
    2: { destruct ds as [|d0 ds]; [done|]. intros c b' [= <- _].
         inversion_clear Hd. by apply digit_not_space. }
    rewrite span_app; [|done| right; eauto using ends_not_digit].
    destruct ds as [|d0 ds]; [done|]. rewrite Hend.
    unfold parse_int64_digits. by rewrite (proj2 (Z.leb_le _ _)) by done.
Qed.

Lemma usageMarker_length : length usageMarker = 14%nat.
Proof. reflexivity. Qed.

Lemma usageMarker_nonempty : usageMarker <> [].
Proof. done. Qed.

Lemma scan_back_S fuel rest :
  scan_back (S fuel) rest =
  match last_index usageMarker rest with
  | None => None
  | Some at_ =>
      match parseUsageValue (drop (at_ + length usageMarker) rest) with
      | Some n => Some n
      | None => scan_back fuel (take at_ rest)
      end
  end.
Proof. reflexivity. Qed.

(** More fuel than bytes changes nothing: the loop ends by itself. *)
Lemma scan_back_enough fuel rest :
  (length rest < fuel)%nat -> scan_back fuel rest = scan_back (S (length rest)) rest.
Proof.
  revert rest; induction fuel as [fuel IH] using lt_wf_ind; intros rest Hf.
  destruct fuel as [|fuel]; [lia|]. rewrite !scan_back_S.
  destruct (last_index usageMarker rest) as [at_|] eqn:E; [|done].
  case_match; [done|].
  destruct (last_index_Some _ _ _ usageMarker_nonempty E) as (post & Hs & _).
  assert (Hlt : (length (take at_ rest) < length rest)%nat).
  { rewrite Hs at 2. rewrite !length_app, usageMarker_length. lia. }
  destruct (decide (fuel = length rest)) as [->|]; [done|].
  rewrite (IH fuel), (IH (length rest)) by lia. done.
Qed.

Lemma marker_split tail at_ :
  last_index usageMarker tail = Some at_ ->
  exists post, tail = take at_ tail ++ usageMarker ++ post /\
    drop (at_ + length usageMarker) tail = post /\ (at_ <= length tail)%nat.
Proof.
  intros El. destruct (last_index_Some _ _ _ usageMarker_nonempty El) as (post & Hs & _).
  exists post. destruct (decide (at_ <= length tail)%nat) as [Hle|Hgt].
  - split_and!; [done| |done]. rewrite Hs.
    rewrite <- drop_drop, drop_app_length' by (rewrite length_take; lia).
    by rewrite drop_app_length.
  - rewrite take_ge in Hs by lia. apply (f_equal length) in Hs.
    rewrite !length_app, usageMarker_length in Hs. lia.
Qed.

(** A readable value contains no byte that could start another marker. *)
Definition value_byte (c : ascii) : Prop := c <> quote /\ c <> "t"%char.

Lemma readable_value rest n :
  readable rest n ->
  exists v post, rest = v ++ post /\ v <> [] /\ Forall value_byte v /\
    forall post', readable (v ++ post') n.
Proof.
  intros (sp1 & sp2 & ds & d & post & -> & H1 & H2 & Hne & Hd & He & Hv & Hm).
  exists (sp1 ++ ":"%char :: sp2 ++ ds ++ [d]), post.
  assert (Hsp : forall l, Forall (fun c => is_json_space c = true) l -> Forall value_byte l).
  { intros l Hl. eapply Forall_impl; [exact Hl|]. simpl.
    intros c Hc. by split; intros ->. }
  split_and!.
  - rewrite <- !app_assoc. simpl. by rewrite <- !app_assoc.
  - by destruct sp1.
  - apply Forall_app; split; [auto|]. apply Forall_cons; split; [by split|].
    apply Forall_app; split; [auto|]. apply Forall_app; split.
    + eapply Forall_impl; [exact Hd|]. simpl. intros c Hc. by split; intros ->.
    + apply Forall_singleton. by split; intros ->.
  - intros post'. exists sp1, sp2, ds, d, post'. split_and!; try done.
    rewrite <- !app_assoc. simpl. by rewrite <- !app_assoc.
Qed.

(** So a later marker starts after the whole value. *)
Lemma later_marker pre v post at_ :
  v <> [] -> Forall value_byte v -> (length pre < at_)%nat ->
  has_prefix usageMarker (drop at_ (pre ++ usageMarker ++ v ++ post)) = true ->
  (length pre + length usageMarker + length v <= at_)%nat.
Proof.
  intros Hne Hv Hat (r & Hr)%has_prefix_spec.
  assert (H0 : (pre ++ usageMarker ++ v ++ post) !! at_ = Some quote).
  { replace at_ with (at_ + 0)%nat by lia. rewrite <- lookup_drop, Hr. done. }
  assert (H1 : (pre ++ usageMarker ++ v ++ post) !! (at_ + 1)%nat = Some "t"%char).
  { rewrite <- lookup_drop, Hr. done. }
  rewrite lookup_app_r in H0, H1 by lia.
  rewrite usageMarker_length.
  destruct (decide (at_ - length pre < 13)%nat) as [Hlt|Hge].
  { exfalso. rewrite lookup_app_l in H0 by (rewrite usageMarker_length; lia).
    destruct (at_ - length pre)%nat as [|k] eqn:E; [lia|].
    do 12 (destruct k as [|k]; [done|]). lia. }
  destruct (decide (at_ - length pre = 13)%nat) as [He|Hn].
  { exfalso. rewrite lookup_app_r in H1 by (rewrite usageMarker_length; lia).
    rewrite usageMarker_length in H1. replace (at_ + 1 - length pre - 14)%nat with 0%nat in H1 by lia.
    destruct v as [|c v]; [done|]. simpl in H1. simplify_eq. inversion_clear Hv as [|? ? [_ ?]]. done. }
  destruct (decide (at_ - length pre - 14 < length v)%nat); [|lia].
  exfalso. rewrite lookup_app_r in H0 by (rewrite usageMarker_length; lia).
  rewrite usageMarker_length, lookup_app_l in H0 by lia.
  by destruct (proj1 (Forall_lookup _ _) Hv _ _ H0).
Qed.

Lemma scan_back_complete fuel pre rest n :
  (length (pre ++ usageMarker ++ rest) < fuel)%nat -> readable rest n ->
  exists m, scan_back fuel (pre ++ usageMarker ++ rest) = Some m.
Proof.
  revert rest; induction fuel as [|fuel IH]; intros rest Hf Hr; [lia|].
  rewrite scan_back_S. destruct (readable_value _ _ Hr) as (v & post & -> & Hne & Hv & Hr').
  set (tail := pre ++ usageMarker ++ v ++ post) in *.
  destruct (last_index usageMarker tail) as [at_|] eqn:El.
  2: { pose proof (last_index_None _ _ (length pre) usageMarker_nonempty El) as Hno.
       unfold tail in Hno. rewrite drop_app_length in Hno.
       by rewrite (proj2 (has_prefix_spec _ _)) in Hno by eauto. }
  destruct (marker_split _ _ El) as (post' & Hs & Hd & Hle).
  case_match eqn:Ep; [eauto|].
  destruct (last_index_Some _ _ _ usageMarker_nonempty El) as (_ & _ & Hlater).
  destruct (lt_eq_lt_dec at_ (length pre)) as [[Hlt|He]|Hgt].
  - exfalso. specialize (Hlater _ Hlt). unfold tail in Hlater. rewrite drop_app_length in Hlater.
    by rewrite (proj2 (has_prefix_spec _ _)) in Hlater by eauto.
  - exfalso. subst at_. rewrite (proj2 (parseUsageValue_readable _ n)) in Ep; [done|].
    unfold tail. rewrite <- drop_drop, drop_app_length, drop_app_length. apply Hr'.
  - assert (Hb : (length pre + length usageMarker + length v <= at_)%nat).
    { apply (later_marker _ _ post); [done..|]. fold tail. rewrite Hs.
      rewrite drop_app_length' by (rewrite length_take; lia). apply has_prefix_spec. eauto. }
    assert (Ht : take at_ tail = pre ++ usageMarker ++ v ++ take (at_ - (length pre + length usageMarker + length v)) post).
    { unfold tail. rewrite take_app_ge by lia. f_equal. rewrite take_app_ge by lia. f_equal.
      rewrite take_app_ge by lia. do 2 f_equal. lia. }
    assert (Hl : (length (take at_ tail) < length tail)%nat).
    { rewrite Hs at 2. rewrite !length_app, usageMarker_length. lia. }
    rewrite Ht in Hl |- *. apply IH; [lia | apply Hr'].
Qed.

(** ** Theorems *)

(** Chunk boundaries do not matter: after any sequence of chunks the retained
    tail is the last 8 KiB of the whole body. *)
Theorem observe_is_tail (chunks : list bytes) :
  foldl Observe [] chunks = lastn UsageTailBytes (concat chunks) /\
  (length (foldl Observe [] chunks) <= UsageTailBytes)%nat.
Proof.
  assert (H : forall a, foldl Observe (lastn UsageTailBytes a) chunks =
                        lastn UsageTailBytes (a ++ concat chunks)).
  { induction chunks as [|b chunks IH]; intros a; simpl; [by rewrite app_nil_r|].
    by rewrite Observe_lastn, IH, app_assoc. }
  specialize (H []). simpl in H. change (lastn UsageTailBytes []) with (@nil ascii) in H.
  split; [done|]. rewrite H. unfold lastn. rewrite length_drop. lia.
Qed.

(** The total of the last marker is read back when it is readable, whatever
    precedes it. *)
Theorem result_reads_last pre rest n :
  readable rest n ->
  (forall m, (length pre < m)%nat -> has_prefix usageMarker (drop m (pre ++ usageMarker ++ rest)) = false) ->
  Result (pre ++ usageMarker ++ rest) =
    {| RotationStore.Outcome := RotationStore.OutcomeCompleted;
       RotationStore.STokens := n; RotationStore.SEstimated := false |}.
Proof.
  intros Hr Hlast. unfold Result. rewrite scan_back_S.
  rewrite last_index_app by done.
  replace (drop (length pre + length usageMarker) (pre ++ usageMarker ++ rest)) with rest.
  2: { rewrite <- drop_drop, drop_app_length. by rewrite drop_app_length. }
  apply parseUsageValue_readable in Hr. by rewrite Hr.
Qed.

Lemma result_reads_last_witness :
  Result (to_bytes "data: {" ++ usageMarker ++ to_bytes ": 42}") =
    {| RotationStore.Outcome := RotationStore.OutcomeCompleted;
       RotationStore.STokens := 42; RotationStore.SEstimated := false |}.
Proof.
  apply result_reads_last.
  - exists [], [" "%char], (to_bytes "42"), "}"%char, [].
    split_and!; try (vm_compute; reflexivity); try discriminate;
      repeat constructor; vm_compute; discriminate || reflexivity.
  - intros m Hm. apply Nat.le_exists_sub in Hm as (j & -> & _).
    do 30 (destruct j as [|j]; [vm_compute; reflexivity|]).
    rewrite drop_ge; [vm_compute; reflexivity|]. simpl. lia.
Defined.

(** A reported total is never invented: it is the readable value after some
    marker of the tail and lies in [0, MaxInt64]. *)
Lemma scan_back_sound fuel tail n :
  scan_back fuel tail = Some n ->
  exists pre rest, pre ++ usageMarker ++ rest `prefix_of` tail /\ readable rest n.
Proof.
  revert tail; induction fuel as [|fuel IH]; intros tail; [done|]. rewrite scan_back_S.
  destruct (last_index usageMarker tail) as [at_|] eqn:El; [|done].
  destruct (marker_split _ _ El) as (post & Hs & Hd & _). rewrite Hd.
  destruct (parseUsageValue post) as [n'|] eqn:Ep.
  - intros [= <-]. exists (take at_ tail), post. rewrite <- Hs. split; [done|].
    by apply parseUsageValue_readable.
  - intros H. destruct (IH _ H) as (pre & rest & Hp & Hr). exists pre, rest. split; [|done].
    etransitivity; [exact Hp|]. exists (drop at_ tail). by rewrite take_drop.
Qed.

(** The sample is the estimate marker exactly when no marker of the tail has a
    readable value; otherwise it is the readable value of a marker of the tail,
    between 0 and MaxInt64, and is not flagged as an estimate. *)
Theorem result_complete tail :
  ((forall pre rest n, tail = pre ++ usageMarker ++ rest -> ~ readable rest n) <->
   Result tail =
    {| RotationStore.Outcome := RotationStore.OutcomeCompleted;
       RotationStore.STokens := RotationStore.TokensUnknown; RotationStore.SEstimated := true |}) /\
  (forall n, scan_back (S (length tail)) tail = Some n ->
   Result tail =
    {| RotationStore.Outcome := RotationStore.OutcomeCompleted;
       RotationStore.STokens := n; RotationStore.SEstimated := false |} /\
   0 <= n <= max_int64 /\
   exists pre rest, pre ++ usageMarker ++ rest `prefix_of` tail /\ readable rest n).
Proof.
  unfold Result. split.
  - destruct (scan_back (S (length tail)) tail) as [n|] eqn:E; split; try done.
    + intros Hno. exfalso. destruct (scan_back_sound _ _ _ E) as (pre & rest & [post ->] & Hr).
      destruct (readable_value _ _ Hr) as (v & r & -> & _ & _ & Hany).
      apply (Hno pre ((v ++ r) ++ post) n); [by rewrite <- !app_assoc|].
      rewrite <- app_assoc. apply Hany.
    + intros _ pre rest n -> Hr.
      destruct (scan_back_complete (S (length (pre ++ usageMarker ++ rest))) pre rest n) as [m Hm];
        [lia|done|congruence].
  - intros n E. rewrite E. destruct (scan_back_sound _ _ _ E) as (pre & rest & Hp & Hr).
    split_and!; eauto; destruct Hr as (?&?&ds&?&?&_&_&_&_&Hd&_&<-&Hm); [by apply dec_value_nonneg|done].
Qed.

(** The value must be ended by a byte that can follow a JSON number: a fraction,
    a truncated number and an out-of-range number are all unreadable. *)
Example fraction_unreadable : parseUsageValue (to_bytes ":1.5}") = None.
Proof. vm_compute. reflexivity. Qed.

Example truncated_unreadable : parseUsageValue (to_bytes ": 12") = None.
Proof. vm_compute. reflexivity. Qed.

Example overflow_unreadable : parseUsageValue (to_bytes ":9223372036854775808,") = None.
Proof. vm_compute. reflexivity. Qed.

End Usage.
