(* ===== verification/VendorError.v ===== *)
(** * Vendor error classification

    Models [src/internal/channel/vendor_error.go]: the status code a vendor
    reports inside the response body, read from the same rolling tail the usage
    extractor keeps, what it means for key selection, and how long the key is
    parked for it. *)

From Stdlib Require Import ZArith Lia Ascii String.
From stdpp Require Import base option list gmap strings.
From S2P Require Import Prelude GoStrings RotationStore Usage.

Module VendorError.
Import GoStrings.

(** ** Data *)

Inductive VendorClass : Type :=
  | VendorNone | VendorTransient | VendorRateLimited | VendorQuotaWindow
  | VendorBalance | VendorRequest | VendorAuth.

#[export] Instance VendorClass_eq_dec : EqDecision VendorClass.
Proof. solve_decision. Defined.

Definition VendorRateCooldown : Duration := 30 * Second.
Definition VendorBalanceCooldown : Duration := 15 * Minute.
Definition VendorQuotaFallbackWindow : Duration := 5 * Hour.

Record VendorSignal := {
  Code : Z;
  Class_ : VendorClass;
  ResetAt : Time;
}.

(** [VendorSignal{}]. *)
Definition zero_signal : VendorSignal := {| Code := 0; Class_ := VendorNone; ResetAt := time_zero |}.

Definition Retires (v : VendorSignal) : bool :=
  match Class_ v with
  | VendorRateLimited | VendorQuotaWindow | VendorBalance => true
  | _ => false
  end.

Definition Reason (v : VendorSignal) : string :=
  match Class_ v with
  | VendorRateLimited => RotationStore.ReasonRateLimit
  | VendorBalance => RotationStore.ReasonBalance
  | VendorQuotaWindow => RotationStore.ReasonQuota
  | _ => RotationStore.ReasonError
  end.

Definition classifyVendorCode (code : Z) : VendorClass :=
  if code =? 0 then VendorNone
  else if (code =? 1002) || (code =? 1041) || (code =? 2045) then VendorRateLimited
  else if code =? 2056 then VendorQuotaWindow
  else if code =? 1008 then VendorBalance
  else if (code =? 1004) || (code =? 2049) then VendorAuth
  else if (code =? 1039) || (code =? 2013) || (code =? 1026) || (code =? 1027) || (code =? 1042)
  then VendorRequest
  else if (code =? 1000) || (code =? 1001) || (code =? 1024) || (code =? 1033) then VendorTransient
  else VendorNone.

Definition baseRespMarker : bytes := Usage.quoted "base_resp".
Definition statusCodeField : bytes := Usage.quoted "status_code".

(** ** Parsing *)

(** The bytes skipped before the number. *)
Definition is_sep (c : ascii) : bool :=
  Ascii.eqb c ":" || is_json_space c || Ascii.eqb c Usage.quote.

(** [strconv.Atoi] on an optional minus sign and digits. *)
Definition atoi (neg : bool) (ds : bytes) : option Z :=
  match ds with
  | [] => None
  | _ =>
      let n := if neg then - dec_value ds else dec_value ds in
      if (min_int64 <=? n) && (n <=? max_int64) then Some n else None
  end.

Definition parseIntAfter (b : bytes) : option Z :=
  let '(_, b1) := span is_sep b in
  let '(neg, b2) := match b1 with
                    | c :: b' => if Ascii.eqb c "-" then (true, b') else (false, b1)
                    | [] => (false, b1)
                    end in
  let '(ds, _) := span is_digit b2 in
  atoi neg ds.

Definition resetMarkers : list bytes :=
  Usage.quoted <$> ["reset_at"; "reset_time"; "reset"; "next_reset_time"; "recovery_time"].

(** [time.Unix(n, 0)] and [time.UnixMilli(n)]. *)
Definition Unix (n : Z) : Time := unix_epoch + n * Second.
Definition UnixMilli (n : Z) : Time := unix_epoch + n * 1000000.

Definition reset_instant (n : Z) : Time :=
  if 100000000000 <? n then UnixMilli n else Unix n.

(** The loop over the marker names; [clock i] is the reading of [time.Now]
    taken for the [i]-th name. *)
Fixpoint reset_loop (clock : nat -> Time) (i : nat) (ms : list bytes) (b : bytes) : Time :=
  match ms with
  | [] => time_zero
  | m :: ms' =>
      let continue_ := reset_loop clock (S i) ms' b in
      match index m b with
      | None => continue_
      | Some at_ =>
          match parseIntAfter (drop (at_ + length m) b) with
          | None => continue_
          | Some n =>
              if n <=? 0 then continue_
              else
                let t := reset_instant n in
                if time_after t (clock i) then t else continue_
          end
      end
  end.

Definition parseResetAt (clock : nat -> Time) (b : bytes) : Time :=
  reset_loop clock 0 resetMarkers b.

Definition parseVendorSignal (clock : nat -> Time) (tail : bytes) : VendorSignal * bool :=
  if Nat.eqb (length tail) 0 then (zero_signal, false)
  else
    let search := match last_index baseRespMarker tail with
                  | Some at_ => drop at_ tail
                  | None => tail
                  end in
    match (match index statusCodeField search with
           | Some at_ => Some (at_, search)
           | None => (fun at_ => (at_, tail)) <$> last_index statusCodeField tail
           end) with
    | None => (zero_signal, false)
    | Some (at_, search) =>
        match parseIntAfter (drop (at_ + length statusCodeField) search) with
        | None => (zero_signal, false)
        | Some code =>
            let class := classifyVendorCode code in
            if decide (class = VendorNone)
            then ({| Code := code; Class_ := VendorNone; ResetAt := time_zero |}, false)
            else ({| Code := code; Class_ := class; ResetAt := parseResetAt clock search |}, true)
        end
    end.

(** ** Cooldown *)

Definition vendorRetireUntil (v : VendorSignal) (now windowEnd : Time) : Time :=
  match Class_ v with
  | VendorRateLimited => time_add now VendorRateCooldown
  | VendorBalance => time_add now VendorBalanceCooldown
  | VendorQuotaWindow =>
      if negb (time_is_zero (ResetAt v)) && time_after (ResetAt v) now then ResetAt v
      else if time_after windowEnd now then windowEnd
      else time_add now VendorQuotaFallbackWindow
  | _ => time_zero
  end.

(** ** Lemmas *)

Lemma index_app_first sep pre post :
  (forall m, (m < length pre)%nat -> has_prefix sep (drop m (pre ++ sep ++ post)) = false) ->
  index sep (pre ++ sep ++ post) = Some (length pre).
Proof.
  intros Hno.
  assert (Hhit : has_prefix sep (drop (length pre) (pre ++ sep ++ post)) = true).
  { rewrite drop_app_length. apply has_prefix_spec. eauto. }
  destruct (index sep (pre ++ sep ++ post)) as [n|] eqn:E.
  - destruct (index_Some _ _ _ E) as (r & Hs & Hl & Hbefore). f_equal.
    destruct (lt_eq_lt_dec n (length pre)) as [[Hlt|?]|Hgt]; [|done|].
    + specialize (Hno n Hlt). rewrite Hs in Hno.
      rewrite drop_app_length' in Hno by (rewrite length_take; lia).
      by rewrite (proj2 (has_prefix_spec _ _)) in Hno by eauto.
    + by rewrite Hbefore in Hhit.
  - by rewrite (index_None _ _ (length pre) E) in Hhit.
Qed.

Lemma parseIntAfter_value sep (neg : bool) ds d rest :
  Forall (fun c => is_sep c = true) sep -> Forall (fun c => is_digit c = true) ds -> ds <> [] ->
  is_digit d = false ->
  parseIntAfter (sep ++ (if neg then ["-"%char] else []) ++ ds ++ d :: rest) = atoi neg ds.
Proof.
  intros Hs Hd Hne Hnd. unfold parseIntAfter.
  assert (Hdig : forall c, is_digit c = true -> is_sep c = false /\ Ascii.eqb c "-" = false).
  { intros c Hc. destruct c as [[] [] [] [] [] [] [] []]; try discriminate Hc; done. }
  rewrite span_app; [|done|].
  2: { right. destruct neg; simpl; [by eexists _, _|].
       destruct ds as [|c ds]; [done|]. inversion_clear Hd. eexists _, _. split; [done|].
       by apply Hdig. }
  assert (Hsp : span is_digit (ds ++ d :: rest) = (ds, d :: rest)) by (apply span_app; eauto).
  destruct neg.
  - simpl. by rewrite Hsp.
  - destruct ds as [|c ds]; [done|]. inversion_clear Hd as [|? ? Hc ?].
    destruct (Hdig c Hc) as [_ E].
    change ([] ++ (c :: ds) ++ d :: rest) with (c :: ds ++ d :: rest) in *.
    change ((c :: ds) ++ d :: rest) with (c :: ds ++ d :: rest) in *. cbv beta iota.
    rewrite E. by rewrite Hsp.
Qed.

Lemma reset_loop_sound clock i ms b t :
  reset_loop clock i ms b = t -> t <> time_zero ->
  exists k m pre post n, ms !! k = Some m /\ b = pre ++ m ++ post /\
    parseIntAfter post = Some n /\ 0 < n /\ t = reset_instant n /\ clock (i + k)%nat < t.
Proof.
  revert i; induction ms as [|m ms IH]; intros i; simpl; [by intros <-|].
  assert (Hc : reset_loop clock (S i) ms b = t -> t <> time_zero ->
    exists k m' pre post n, (m :: ms) !! k = Some m' /\ b = pre ++ m' ++ post /\
    parseIntAfter post = Some n /\ 0 < n /\ t = reset_instant n /\ clock (i + k)%nat < t).
  { intros H Ht. destruct (IH (S i) H Ht) as (k & m' & pre & post & n & Hk & Hb & Hp & Hn & He & Hf).
    exists (S k), m', pre, post, n. split_and!; auto.
    by replace (i + S k)%nat with (S i + k)%nat by lia. }
  destruct (index m b) as [at_|] eqn:E; [|done].
  destruct (index_Some _ _ _ E) as (post & Hs & Hl & _).
  assert (Hd : drop (at_ + length m) b = post).
  { rewrite Hs, <- drop_drop, drop_app_length' by (rewrite length_take; lia).
    by rewrite drop_app_length. }
  rewrite Hd. destruct (parseIntAfter post) as [n|] eqn:Ep; [|done].
  destruct (Z.leb_spec n 0); [done|]. case_match eqn:Ea; [|done].
  intros <- _. exists 0%nat, m, (take at_ b), post, n. apply time_after_spec in Ea.
  rewrite Nat.add_0_r. split_and!; auto.
Qed.

(** ** Theorems *)

(** The status code of an envelope is read back whatever precedes it in the
    stream: when the last [base_resp] marker of the tail is followed by a first
    [status_code] field whose value is an integer of Go's [int], the signal
    carries that integer and its class, and it is reported exactly when the code
    is a known error. *)
Theorem vendor_code_read_back (clock : nat -> Time) pre mid sep (neg : bool) ds d rest code :
  (forall m, (length pre < m)%nat ->
     has_prefix baseRespMarker (drop m (pre ++ baseRespMarker ++ mid ++ statusCodeField ++
       sep ++ (if neg then ["-"%char] else []) ++ ds ++ d :: rest)) = false) ->
  (forall m, (m < length (baseRespMarker ++ mid))%nat ->
     has_prefix statusCodeField (drop m ((baseRespMarker ++ mid) ++ statusCodeField ++
       sep ++ (if neg then ["-"%char] else []) ++ ds ++ d :: rest)) = false) ->
  Forall (fun c => is_sep c = true) sep -> Forall (fun c => is_digit c = true) ds -> ds <> [] ->
  is_digit d = false -> code = (if neg then - dec_value ds else dec_value ds) -> in_int64 code ->
  let '(v, ok) := parseVendorSignal clock (pre ++ baseRespMarker ++ mid ++ statusCodeField ++
                    sep ++ (if neg then ["-"%char] else []) ++ ds ++ d :: rest) in
  Code v = code /\ Class_ v = classifyVendorCode code /\
  ok = bool_decide (classifyVendorCode code <> VendorNone).
Proof.
  intros Hlast Hfirst Hsep Hds Hne Hd Hcode Hrange. unfold parseVendorSignal.
  rewrite (proj2 (Nat.eqb_neq _ _)) by (rewrite length_app; simpl; lia).
  rewrite last_index_app by done. rewrite drop_app_length.
  rewrite (app_assoc baseRespMarker mid).
  rewrite (index_app_first statusCodeField (baseRespMarker ++ mid)) by done.
  rewrite <- drop_drop, drop_app_length, drop_app_length, parseIntAfter_value by done.
  unfold atoi. destruct ds as [|c ds]; [done|]. rewrite <- Hcode.
  destruct Hrange as [Hr1 Hr2]. rewrite (proj2 (Z.leb_le _ _) Hr1), (proj2 (Z.leb_le _ _) Hr2). simpl.
  case_decide as E; simpl; split_and!; try done.
  - by rewrite bool_decide_eq_false_2 by (intros []; done).
  - by rewrite bool_decide_eq_true_2.
Qed.

Lemma vendor_code_read_back_witness :
  let '(v, ok) := parseVendorSignal (fun _ => 0)
     (to_bytes "data: {" ++ baseRespMarker ++ to_bytes ":{" ++ statusCodeField ++
      to_bytes ": " ++ [] ++ to_bytes "2056" ++ "}"%char :: to_bytes "}") in
  Code v = 2056 /\ Class_ v = classifyVendorCode 2056 /\
  ok = bool_decide (classifyVendorCode 2056 <> VendorNone).
Proof.
  apply (vendor_code_read_back (fun _ => 0) (to_bytes "data: {") (to_bytes ":{") (to_bytes ": ")
           false (to_bytes "2056") "}"%char (to_bytes "}") 2056).
  - intros m Hm. apply Nat.le_exists_sub in Hm as (j & -> & _).
    do 50 (destruct j as [|j]; [vm_compute; reflexivity|]).
    rewrite drop_ge; [vm_compute; reflexivity|]. simpl. lia.
  - intros m Hm. change (length (baseRespMarker ++ to_bytes ":{")) with 13%nat in Hm.
    do 13 (destruct m as [|m]; [vm_compute; reflexivity|]). lia.
  - repeat constructor.
  - repeat constructor.
  - discriminate.
  - reflexivity.
  - reflexivity.
  - unfold in_int64; vm_compute; split; discriminate.
Defined.

(** A signal retires its key exactly for the burst codes 1002, 1041 and 2045,
    the plan cap 2056 and the balance code 1008: a request error, a credential
    error, a transient one and every unknown code leave the key in rotation. *)
Theorem vendor_retires_exactly (clock : nat -> Time) (tail : bytes) :
  let '(v, ok) := parseVendorSignal clock tail in
  (ok && Retires v = true <-> Code v ∈ [1002; 1041; 2045; 2056; 1008]) /\
  (ok = false -> Class_ v = VendorNone).
Proof.
  assert (Hclass : forall code r, classifyVendorCode code <> VendorNone ->
    Retires {| Code := code; Class_ := classifyVendorCode code; ResetAt := r |} = true <->
    code ∈ [1002; 1041; 2045; 2056; 1008]).
  { intros code r Hn. unfold Retires; simpl. rewrite !elem_of_cons, elem_of_nil. clear Hn. split.
    - unfold classifyVendorCode. intros H.
      repeat (match type of H with context [if ?c then _ else _] => destruct c eqn:? end; try done);
        rewrite ?orb_true_iff, ?Z.eqb_eq in *; tauto.
    - by intros [->|[->|[->|[->|[->|[]]]]]]. }
  assert (Hnone : forall code, classifyVendorCode code = VendorNone ->
    ~ code ∈ [1002; 1041; 2045; 2056; 1008]).
  { intros code Hc He. rewrite !elem_of_cons, elem_of_nil in He.
    by destruct He as [->|[->|[->|[->|[->|[]]]]]]. }
  assert (H0 : (false && Retires zero_signal = true <-> Code zero_signal ∈ [1002; 1041; 2045; 2056; 1008])
               /\ (false = false -> Class_ zero_signal = VendorNone)).
  { split; [|done]. split; [done|]. intros H. exfalso. by apply (Hnone 0). }
  unfold parseVendorSignal. destruct (Nat.eqb _ _); [exact H0|]. cbv zeta.
  match goal with |- context [match ?o with Some _ => _ | None => (zero_signal, false) end] =>
    destruct o as [[at_ search]|]; [|exact H0] end.
  destruct (parseIntAfter _) as [code|]; [|exact H0].
  case_decide as Hd; simpl.
  - split; [|done]. split; [done|]. intros H'. by apply Hnone in H'.
  - split; [|done]. by apply Hclass.
Qed.

(** A parked key always comes back, and later than now: the burst cooldown is
    30 seconds and the balance one 15 minutes whatever the vendor said; a plan
    cap waits for the vendor's own reset when that lies in the future, else for
    the end of the route's window, else five hours.  A signal that does not
    retire yields the zero time. *)
Theorem vendor_retire_until_spec (v : VendorSignal) (now windowEnd : Time) :
  (Retires v = false -> vendorRetireUntil v now windowEnd = time_zero) /\
  (Retires v = true -> now < vendorRetireUntil v now windowEnd) /\
  (Class_ v = VendorRateLimited -> vendorRetireUntil v now windowEnd = now + 30 * Second) /\
  (Class_ v = VendorBalance -> vendorRetireUntil v now windowEnd = now + 15 * Minute) /\
  (Class_ v = VendorQuotaWindow ->
     vendorRetireUntil v now windowEnd =
       if decide (ResetAt v <> 0 /\ now < ResetAt v) then ResetAt v
       else if decide (now < windowEnd) then windowEnd else now + 5 * Hour).
Proof.
  unfold Retires, vendorRetireUntil, time_add, time_is_zero, time_after, VendorRateCooldown,
    VendorBalanceCooldown, VendorQuotaFallbackWindow.
  destruct (Class_ v); split_and!; try done; intros _; try (unfold Minute, Second; lia).
  - zbool; simpl; try lia; unfold Hour, Minute, Second; lia.
  - zbool; simpl; repeat case_decide; try done; lia.
Qed.

(** The reset instant is never invented: it is zero, or a positive integer read
    after one of the reset markers of the body, taken as epoch seconds up to
    10^11 and as epoch milliseconds above, and later than the clock reading it
    was compared with. *)
Theorem parse_reset_at_sound (clock : nat -> Time) (b : bytes) :
  parseResetAt clock b = time_zero \/
  exists k m pre post n, resetMarkers !! k = Some m /\ b = pre ++ m ++ post /\
    parseIntAfter post = Some n /\ 0 < n /\
    parseResetAt clock b = unix_epoch + (if decide (10 ^ 11 < n) then n * 10 ^ 6 else n * 10 ^ 9) /\
    clock k < parseResetAt clock b.
Proof.
  destruct (decide (parseResetAt clock b = time_zero)) as [|Hne]; [by left|right].
  destruct (reset_loop_sound _ _ _ _ _ eq_refl Hne) as (k & m & pre & post & n & Hk & Hb & Hp & Hn & He & Hf).
  exists k, m, pre, post, n. split_and!; auto. fold (parseResetAt clock b) in He. rewrite He.
  unfold reset_instant, Unix, UnixMilli, Second. zbool; case_decide; lia.
Qed.

End VendorError.
