(* ===== verification/ConnectTarget.v ===== *)
(** * Does a CONNECT target name this machine?

    Models [src/internal/channel/connect_target.go].  Host and address strings
    are byte sequences.  A refusal text is modelled by a constructor with the
    values interpolated into it; the empty string is [None]. *)

From Stdlib Require Import ZArith Lia Ascii String.
From stdpp Require Import base option list gmap strings.
From S2P Require Import Prelude GoStrings Net.

Module ConnectTarget.
Import GoStrings Net.

(** ** Numeric spellings of IPv4 addresses *)

Definition digit_in (base : Z) (c : ascii) : option Z :=
  match hex_val c with
  | Some d => if d <? base then Some d else None
  | None => None
  end.

Definition base_value (base : Z) (ds : bytes) : Z :=
  foldl (fun acc c => acc * base + default 0 (digit_in base c)) 0 ds.

(** [strconv.ParseUint(p, base, 64)]. *)
Definition ParseUint (base : Z) (ds : bytes) : option Z :=
  if Nat.eqb (length ds) 0 then None
  else if forallb (fun c => bool_decide (is_Some (digit_in base c))) ds then
    (if base_value base ds <? 2 ^ 64 then Some (base_value base ds) else None)
  else None.

Definition parseIPv4Part (p : bytes) : option Z :=
  if Nat.eqb (length p) 0 then None
  else
    let '(base, p) :=
      if has_prefix (to_bytes "0x") p || has_prefix (to_bytes "0X") p then (16, drop 2 p)
      else if Nat.ltb 1 (length p) && bool_decide (head p = Some "0"%char) then (8, drop 1 p)
      else (10, p) in
    if Nat.eqb (length p) 0 then None
    else
      match ParseUint base p with
      | Some v => if 4294967295 <? v then None else Some v
      | None => None
      end.

(** [addr |= uint32(vals[i]) << (8 * (3 - i))] for the leading parts. *)
Fixpoint or_leading (i : nat) (vals : list Z) (addr : Z) : Z :=
  match vals with
  | [] => addr
  | v :: vals' => or_leading (S i) vals' (Z.lor addr (Z.shiftl v (8 * (3 - Z.of_nat i)) mod 2 ^ 32))
  end.

Definition ipv4_of (addr : Z) : IP :=
  IPv4 (Z.shiftr addr 24 mod 256) (Z.shiftr addr 16 mod 256) (Z.shiftr addr 8 mod 256) (addr mod 256).

Definition parseIPv4Numeric (host : bytes) : option IP :=
  let parts := split "." host in
  if Nat.eqb (length parts) 0 || Nat.ltb 4 (length parts) then None
  else
    match mapM parseIPv4Part parts with
    | None => None
    | Some vals =>
        let n := length vals in
        let lead := take (n - 1) vals in
        let lastv := default 0 (vals !! (n - 1)%nat) in
        if negb (forallb (fun v => v <=? 255) lead) then None
        else if Z.shiftl 1 (8 * (5 - Z.of_nat n)) <=? lastv then None
        else Some (ipv4_of (Z.lor (or_leading 0 lead 0) lastv))
    end.

(** ** Hosts *)

Definition strip_brackets (host : bytes) : bytes :=
  let h := match host with
           | c :: h => if Ascii.eqb c "[" then h else host
           | [] => host
           end in
  if bool_decide (last h = Some "]"%char) then take (length h - 1) h else h.

Definition bareHost (host : bytes) : bytes :=
  let h := strip_brackets host in
  match index_byte "%" h with
  | None => h
  | Some i =>
      match List.find (fun c => Ascii.eqb c "." || Ascii.eqb c ":") (take i h) with
      | Some c => if Ascii.eqb c ":" then take i h else h
      | None => h
      end
  end.

Definition hostIP (host : bytes) : option IP :=
  let h := bareHost host in
  match ParseIP h with
  | Some ip => Some ip
  | None => parseIPv4Numeric h
  end.

Definition trim_dot (host : bytes) : bytes :=
  if bool_decide (last host = Some "."%char) then take (length host - 1) host else host.

Definition lower (b : bytes) : bytes := lower_char <$> b.

Definition reservedLoopbackNames : list bytes :=
  to_bytes <$> ["localhost"; "localhost.localdomain"; "ip6-localhost"; "ip6-loopback"].

Definition isReservedLoopbackName (host : bytes) : bool :=
  let name := lower (trim_dot host) in
  bool_decide (name ∈ reservedLoopbackNames) ||
  has_prefix (rev (to_bytes ".localhost")) (rev name).

Definition sameHost (a b : bytes) : bool :=
  match hostIP a, hostIP b with
  | Some ipA, Some ipB => Equal ipA ipB
  | None, None => bool_decide (lower (trim_dot a) = lower (trim_dot b))
  | _, _ => false
  end.

Inductive targetKind : Type :=
  | EmptyHost | LoopbackAddr | UnspecifiedAddr | LoopbackNumeric | UnspecifiedNumeric | ReservedName.

Definition localTargetKind (host : bytes) : option targetKind :=
  let h := bareHost host in
  if Nat.eqb (length h) 0 then Some EmptyHost
  else
    match ParseIP h with
    | Some ip =>
        if IsLoopback ip then Some LoopbackAddr
        else if IsUnspecified ip then Some UnspecifiedAddr else None
    | None =>
        match parseIPv4Numeric h with
        | Some ip =>
            if IsLoopback ip then Some LoopbackNumeric
            else if IsUnspecified ip then Some UnspecifiedNumeric else None
        | None => if isReservedLoopbackName h then Some ReservedName else None
        end
    end.

(** ** Bind addresses *)

Definition splitHostPortLenient (addr : bytes) : bytes * bytes :=
  match SplitHostPort addr with
  | Some hp => hp
  | None => (addr, [])
  end.

Definition isLoopbackListen (addr : bytes) : bool :=
  let '(host, _) := splitHostPortLenient addr in
  match ParseIP (bareHost host) with
  | Some ip => IsLoopback ip
  | None => false
  end.

(** The three hints, with the address they name. *)
Inductive listenHint : Type := HintName | HintZone (zone : bytes) (ip : IP) | HintNumeric (ip : IP).

Definition loopbackNameHint (listen : bytes) : option listenHint :=
  let '(host, _) := splitHostPortLenient listen in
  if isReservedLoopbackName host then Some HintName else None.

Definition loopbackZoneHint (listen : bytes) : option listenHint :=
  let '(host, _) := splitHostPortLenient listen in
  let h := strip_brackets host in
  match index_byte "%" h with
  | None => None
  | Some i =>
      if bool_decide (bareHost host <> h) then None
      else
        match (match ParseIP (take i h) with Some ip => Some ip | None => parseIPv4Numeric (take i h) end) with
        | None => None
        | Some ip => if negb (IsLoopback ip) then None else Some (HintZone (drop (S i) h) ip)
        end
  end.

Definition loopbackNumericHint (listen : bytes) : option listenHint :=
  let '(host, _) := splitHostPortLenient listen in
  let h := bareHost host in
  if bool_decide (is_Some (ParseIP h)) then None
  else
    match parseIPv4Numeric h with
    | Some ip => if negb (IsLoopback ip) then None else Some (HintNumeric ip)
    | None => None
    end.

Definition loopbackListenHint (listen : bytes) : option listenHint :=
  match loopbackNameHint listen with
  | Some hint => Some hint
  | None =>
      match loopbackZoneHint listen with
      | Some hint => Some hint
      | None => loopbackNumericHint listen
      end
  end.

Inductive selfReference : Type :=
  | SelfPort (kind : targetKind)
  | SelfLocal (kind : targetKind) (hint : option listenHint)
  | SelfListen.

Definition connectSelfReference (host port listen : bytes) (loopbackOnly : bool) : option selfReference :=
  let '(lhost, lport) := splitHostPortLenient listen in
  match localTargetKind host with
  | Some kind =>
      if loopbackOnly then
        if bool_decide (port = lport) && negb (Nat.eqb (length port) 0) then Some (SelfPort kind) else None
      else Some (SelfLocal kind (loopbackListenHint listen))
  | None =>
      if negb (Nat.eqb (length lhost) 0) && bool_decide (localTargetKind lhost = None) && sameHost host lhost
      then Some SelfListen else None
  end.

(** ** Sockets *)

Inductive listenScope : Type := scopeUnknown | scopeLoopbackOnly | scopeReachable.

#[export] Instance listenScope_eq_dec : EqDecision listenScope.
Proof. solve_decision. Defined.

(** A [net.Addr]: a TCP address with its IP ([[]] is the nil IP), or any other
    address with its string form. *)
Inductive Addr : Type := TCPAddr (ip : IP) | OtherAddr (s : bytes).

(** [addrIP]; a nil interface and a nil IP are both [None]. *)
Definition addrIP (a : option Addr) : option IP :=
  match a with
  | None => None
  | Some (TCPAddr ip) => if Nat.eqb (length ip) 0 then None else Some ip
  | Some (OtherAddr s) => let '(host, _) := splitHostPortLenient s in ParseIP (bareHost host)
  end.

Definition boundListenScope (addr : option Addr) : listenScope :=
  match addrIP addr with
  | None => scopeReachable
  | Some ip =>
      if IsUnspecified ip then scopeReachable
      else if IsLoopback ip then scopeLoopbackOnly else scopeReachable
  end.

Inductive dialRefusal : Type := target_resolves_to_loopback | target_resolves_to_gateway_host.

Definition connectDialRefusal (scope : listenScope) (local remote : option Addr) : option dialRefusal :=
  if decide (scope = scopeLoopbackOnly) then None
  else
    match addrIP remote with
    | None => None
    | Some rip =>
        if IsLoopback rip || IsUnspecified rip then Some target_resolves_to_loopback
        else
          match addrIP local with
          | Some lip => if Equal lip rip then Some target_resolves_to_gateway_host else None
          | None => None
          end
    end.

(** ** Specification of the numeric spellings *)

(** One component as [inet_aton] reads it. *)
Inductive spells : bytes -> Z -> Prop :=
  | spells_dec ds v :
      ds <> [] -> Forall (fun c => is_digit c = true) ds -> (head ds = Some "0"%char -> length ds = 1%nat) ->
      base_value 10 ds = v -> spells ds v
  | spells_oct ds v :
      ds <> [] -> Forall (fun c => is_Some (digit_in 8 c)) ds -> base_value 8 ds = v ->
      spells ("0"%char :: ds) v
  | spells_hex x ds v :
      (x = "x"%char \/ x = "X"%char) -> ds <> [] -> Forall (fun c => is_Some (digit_in 16 c)) ds ->
      base_value 16 ds = v -> spells ("0"%char :: x :: ds) v.

(** The 32-bit address of one to four components: every component but the last
    is one byte, the last carries the remaining bytes. *)
Definition aton_value (vals : list Z) : option Z :=
  match vals with
  | [a] => if a <? 2 ^ 32 then Some a else None
  | [a; b] => if (a <? 2 ^ 8) && (b <? 2 ^ 24) then Some (a * 2 ^ 24 + b) else None
  | [a; b; c] => if (a <? 2 ^ 8) && (b <? 2 ^ 8) && (c <? 2 ^ 16)
                 then Some (a * 2 ^ 24 + b * 2 ^ 16 + c) else None
  | [a; b; c; d] => if (a <? 2 ^ 8) && (b <? 2 ^ 8) && (c <? 2 ^ 8) && (d <? 2 ^ 8)
                    then Some (a * 2 ^ 24 + b * 2 ^ 16 + c * 2 ^ 8 + d) else None
  | _ => None
  end.

(** [strings.Join(parts, ".")]. *)
Fixpoint join_dots (parts : list bytes) : bytes :=
  match parts with
  | [] => []
  | [p] => p
  | p :: ps => p ++ "."%char :: join_dots ps
  end.

(** ** Lemmas *)

Lemma digit_in_10 c : is_Some (digit_in 10 c) <-> is_digit c = true.
Proof.
  destruct c as [[] [] [] [] [] [] [] []]; vm_compute;
    (split; [intros [x H]; by simplify_eq | done || by eexists]).
Qed.

Lemma digit_in_range base c d : digit_in base c = Some d -> 0 <= d < base.
Proof.
  unfold digit_in, hex_val, is_digit. pose proof (Nat2Z.is_nonneg (nat_of_ascii c)).
  repeat case_match; intros [= <-]; unfold code in *;
    repeat match goal with
    | H : (_ && _) = true |- _ => apply andb_true_iff in H as [? ?]
    end; zbool; simplify_eq; lia.
Qed.

Lemma base_value_nonneg base ds : 0 <= base -> 0 <= base_value base ds.
Proof.
  intros Hb. induction ds as [|c ds IH] using rev_ind; [done|].
  unfold base_value in *. rewrite foldl_app. simpl.
  assert (0 <= default 0 (digit_in base c)).
  { destruct (digit_in base c) eqn:E; [|done]. apply digit_in_range in E. simpl. lia. }
  nia.
Qed.

Lemma ParseUint_spec base ds v :
  ParseUint base ds = Some v <->
  ds <> [] /\ Forall (fun c => is_Some (digit_in base c)) ds /\ base_value base ds = v /\ v < 2 ^ 64.
Proof.
  unfold ParseUint. destruct ds as [|c ds]; [by split; [|intros (? & _)]|].
  cbn [length Nat.eqb].
  destruct (forallb _ (c :: ds)) eqn:E.
  - assert (HF : Forall (fun c => is_Some (digit_in base c)) (c :: ds)).
    { apply Forall_forall. intros x Hx%list_elem_of_In.
      by apply (proj1 (forallb_forall _ _) E), bool_decide_eq_true in Hx. }
    zbool; (split; [intros [= <-]; auto | intros (_ & _ & <- & ?)]); done || lia.
  - split; [done|]. intros (_ & HF & _). exfalso. apply not_true_iff_false in E. apply E.
    apply forallb_forall. intros x Hx%list_elem_of_In. apply bool_decide_eq_true.
    by eapply Forall_forall in HF.
Qed.

Lemma not_oct_x c : c = "x"%char \/ c = "X"%char -> ~ is_Some (digit_in 8 c).
Proof. by intros [-> | ->] [? H]. Qed.

(** The three spellings never collide, so the base is decided by the prefix. *)
Lemma parseIPv4Part_base p :
  parseIPv4Part p =
  match p with
  | "0"%char :: x :: ds =>
      if decide (x = "x"%char \/ x = "X"%char)
      then match ParseUint 16 ds with Some v => if 4294967295 <? v then None else Some v | None => None end
      else match ParseUint 8 (x :: ds) with Some v => if 4294967295 <? v then None else Some v | None => None end
  | _ => match ParseUint 10 p with Some v => if 4294967295 <? v then None else Some v | None => None end
  end.
Proof.
  unfold parseIPv4Part. destruct p as [|c p]; [done|].
  destruct (decide (c = "0"%char)) as [->|Hc].
  - destruct p as [|x ds]; [done|].
    change (has_prefix (to_bytes "0x") ("0"%char :: x :: ds)) with (Ascii.eqb "x" x && true).
    change (has_prefix (to_bytes "0X") ("0"%char :: x :: ds)) with (Ascii.eqb "X" x && true).
    destruct (Ascii.eqb_spec "x" x) as [<-|Hx]; [by destruct ds|].
    destruct (Ascii.eqb_spec "X" x) as [<-|HX]; [by destruct ds|].
    rewrite decide_False by (by intros [->| ->]). reflexivity.
  - assert (H1 : has_prefix (to_bytes "0x") (c :: p) = false).
    { change (has_prefix (to_bytes "0x") (c :: p)) with (Ascii.eqb "0" c && has_prefix ["x"%char] p).
      destruct (Ascii.eqb_spec "0" c); [by subst|done]. }
    assert (H2 : has_prefix (to_bytes "0X") (c :: p) = false).
    { change (has_prefix (to_bytes "0X") (c :: p)) with (Ascii.eqb "0" c && has_prefix ["X"%char] p).
      destruct (Ascii.eqb_spec "0" c); [by subst|done]. }
    rewrite H1, H2. cbn [orb length Nat.eqb head].
    rewrite (bool_decide_eq_false_2 (Some c = Some "0"%char)) by congruence.
    rewrite andb_false_r. cbn [length Nat.eqb].
    destruct c as [[] [] [] [] [] [] [] []]; try reflexivity. by destruct Hc.
Qed.

Lemma parseIPv4Part_spec p v : parseIPv4Part p = Some v <-> spells p v /\ v <= 4294967295.
Proof.
  rewrite parseIPv4Part_base.
  assert (Hcut : forall o : option Z,
    match o with Some v0 => if 4294967295 <? v0 then None else Some v0 | None => None end = Some v <->
    o = Some v /\ v <= 4294967295).
  { intros [w|]; [|by split; [|intros []]].
    zbool; (split; [intros [= ->]; auto | intros [[= ->] ?]]); done || lia. }
  assert (Hdec : forall q, (head q = Some "0"%char -> length q = 1%nat) ->
    ParseUint 10 q = Some v /\ v <= 4294967295 <->
    (q <> [] /\ Forall (fun c => is_digit c = true) q /\ base_value 10 q = v) /\ v <= 4294967295).
  { intros q Hq. rewrite ParseUint_spec.
    assert (HF : Forall (fun c => is_Some (digit_in 10 c)) q <-> Forall (fun c => is_digit c = true) q)
      by (by apply Forall_proper; [intros c; apply digit_in_10|]).
    rewrite HF. split; intros H; destruct_and!; split_and!; try done; lia. }
  destruct p as [|c p].
  { rewrite Hcut, Hdec by done. split; [by intros [(? & _) _]|]. intros [H _]. by inversion H. }
  destruct (decide (c = "0"%char /\ p <> [])) as [[-> Hp]|Hn].
  - destruct p as [|x ds]; [done|]. clear Hp.
    case_decide as Hx; rewrite Hcut, ParseUint_spec; split.
    + intros ((? & ? & ? & _) & ?). split; [by constructor|done].
    + intros [H ?]. split; [|done]. inversion H as [ds' v' Hne HF Hhd Hv | ds' v' Hne HF Hv | x' ds' v' Hx' Hne HF Hv]; subst.
      * by specialize (Hhd eq_refl).
      * inversion HF; subst. exfalso. by eapply not_oct_x.
      * split_and!; auto. lia.
    + intros ((? & ? & ? & _) & ?). split; [by constructor|done].
    + intros [H ?]. split; [|done]. inversion H as [ds' v' Hne HF Hhd Hv | ds' v' Hne HF Hv | x' ds' v' Hx' Hne HF Hv]; subst.
      * by specialize (Hhd eq_refl).
      * split_and!; auto. lia.
      * done.
  - replace (match c with "0"%char => _ | _ => _ end) with
      (match ParseUint 10 (c :: p) with
       | Some v0 => if 4294967295 <? v0 then None else Some v0 | None => None end).
    2: { destruct p as [|x ds]; [by destruct c as [[] [] [] [] [] [] [] []]|].
         destruct c as [[] [] [] [] [] [] [] []]; try reflexivity. exfalso. by apply Hn. }
    assert (Hh : head (c :: p) = Some "0"%char -> length (c :: p) = 1%nat).
    { intros [= ->]. destruct p; [done|]. exfalso. by apply Hn. }
    rewrite Hcut, Hdec by done. split.
    + intros [(? & ? & ?) ?]. split; [by constructor|done].
    + intros [H ?]. split; [|done]. inversion H; subst; [done| |]; exfalso; apply Hn; done.
Qed.

(** *** Joining and splitting *)

Lemma split_cons c s : exists p ps, split c s = p :: ps.
Proof.
  induction s as [|d s (p & ps & IH)]; simpl; [eauto|]. case_match; [eauto|]. rewrite IH. eauto.
Qed.

Lemma join_split s : join_dots (split "." s) = s.
Proof.
  induction s as [|d s IH]; [done|]. cbn [split]. destruct (split_cons "." s) as (p & ps & E).
  rewrite E in *. destruct (Ascii.eqb_spec "." d) as [<-|].
  - etransitivity; [|exact (f_equal (cons "."%char) IH)]. done.
  - etransitivity; [|exact (f_equal (cons d) IH)]. by destruct ps.
Qed.

Lemma split_join parts :
  parts <> [] -> Forall (Forall (fun c => c <> "."%char)) parts -> split "." (join_dots parts) = parts.
Proof.
  intros Hne H. induction H as [|p ps Hp Hps IH]; [done|].
  destruct ps as [|q ps]; [by apply split_no_sep|].
  change (join_dots (p :: q :: ps)) with (p ++ "."%char :: join_dots (q :: ps)).
  by rewrite split_app, IH.
Qed.

(** The bytes of a numeric spelling. *)
Definition aton_byte (c : ascii) : bool := is_hex c || Ascii.eqb c "x" || Ascii.eqb c "X".

Lemma spells_bytes p v : spells p v -> p <> [] /\ Forall (fun c => aton_byte c = true) p.
Proof.
  assert (Hd : forall base c, is_Some (digit_in base c) -> aton_byte c = true).
  { intros base c [d H]. unfold digit_in in H. destruct (hex_val c) eqn:E; [|done].
    unfold aton_byte, is_hex. rewrite bool_decide_eq_true_2; [done|]. by rewrite E. }
  intros H; destruct H as [ds v Hne HF _ _|ds v Hne HF _|x ds v Hx Hne HF _]; split; try done.
  - eapply Forall_impl; [exact HF|]. intros c Hc. eapply Hd, digit_in_10, Hc.
  - constructor; [done|]. eapply Forall_impl; [exact HF|]. simpl; eauto.
  - constructor; [done|]. constructor; [by destruct Hx as [-> | ->]|].
    eapply Forall_impl; [exact HF|]. simpl; eauto.
Qed.

Lemma aton_byte_other c : aton_byte c = true ->
  c <> "."%char /\ c <> ":"%char /\ c <> "%"%char /\ c <> "["%char /\ c <> "]"%char.
Proof. intros H. split_and!; by intros ->. Qed.

Lemma spells_nodot p v : spells p v -> Forall (fun c => c <> "."%char) p.
Proof.
  intros [_ HF]%spells_bytes. eapply Forall_impl; [exact HF|]. intros c Hc.
  by apply aton_byte_other in Hc as (? & _).
Qed.

Lemma spells_det p v w : spells p v -> spells p w -> v = w.
Proof.
  intros H1 H2.
  destruct H1 as [ds v Hne HF Hhd Hv|ds v Hne HF Hv|x ds v Hx Hne HF Hv];
    inversion H2 as [ds' v' Hne' HF' Hhd' Hv'|ds' v' Hne' HF' Hv'|x' ds' v' Hx' Hne' HF' Hv']; subst; try done;
    try specialize (Hhd eq_refl); try specialize (Hhd' eq_refl); simpl in *; simplify_eq;
    try (by destruct ds'); try (by destruct ds).
  - inversion HF; subst. exfalso. by eapply not_oct_x.
  - inversion HF'; subst. exfalso. by eapply not_oct_x.
Qed.

Lemma spells_nonneg p v : spells p v -> 0 <= v.
Proof. intros H; destruct H; subst; by apply base_value_nonneg. Qed.

(** *** Addresses *)

Lemma shift_byte v i : 0 <= v <= 255 -> 0 <= i <= 3 ->
  Z.shiftl v (8 * (3 - i)) mod 2 ^ 32 = v * 2 ^ (8 * (3 - i)).
Proof.
  intros Hv Hi. rewrite Z.shiftl_mul_pow2 by lia. apply Z.mod_small. split; [nia|].
  assert (2 ^ (8 * (3 - i)) <= 2 ^ 24) by (apply Z.pow_le_mono_r; lia). nia.
Qed.

(** Or-ing the bytes into place is the positional value. *)
Lemma or_two a b : 0 <= a <= 255 -> 0 <= b < 2 ^ 24 ->
  Z.lor (Z.lor 0 (a * 2 ^ 24)) b = a * 2 ^ 24 + b.
Proof. intros Ha Hb. by rewrite Z.lor_0_l, lor_disjoint. Qed.

Lemma or_three a b c : 0 <= a <= 255 -> 0 <= b <= 255 -> 0 <= c < 2 ^ 16 ->
  Z.lor (Z.lor (Z.lor 0 (a * 2 ^ 24)) (b * 2 ^ 16)) c = a * 2 ^ 24 + b * 2 ^ 16 + c.
Proof.
  intros Ha Hb Hc. rewrite or_two by lia.
  replace (a * 2 ^ 24 + b * 2 ^ 16) with ((a * 2 ^ 8 + b) * 2 ^ 16) by lia. by rewrite lor_disjoint.
Qed.

Lemma or_four a b c d : 0 <= a <= 255 -> 0 <= b <= 255 -> 0 <= c <= 255 -> 0 <= d < 2 ^ 8 ->
  Z.lor (Z.lor (Z.lor (Z.lor 0 (a * 2 ^ 24)) (b * 2 ^ 16)) (c * 2 ^ 8)) d =
  a * 2 ^ 24 + b * 2 ^ 16 + c * 2 ^ 8 + d.
Proof.
  intros Ha Hb Hc Hd. rewrite or_three by lia.
  replace (a * 2 ^ 24 + b * 2 ^ 16 + c * 2 ^ 8) with ((a * 2 ^ 16 + b * 2 ^ 8 + c) * 2 ^ 8) by lia.
  by rewrite lor_disjoint.
Qed.

(** The tail of [parseIPv4Numeric], once the parts are read. *)
Lemma assemble_value vals :
  Forall (fun v => 0 <= v) vals -> (1 <= length vals <= 4)%nat ->
  (if negb (forallb (fun v => v <=? 255) (take (length vals - 1) vals)) then None
   else if Z.shiftl 1 (8 * (5 - Z.of_nat (length vals))) <=? default 0 (vals !! (length vals - 1)%nat) then None
   else Some (Z.lor (or_leading 0 (take (length vals - 1) vals) 0) (default 0 (vals !! (length vals - 1)%nat))))
  = aton_value vals.
Proof.
  intros Hnn Hlen.
  destruct vals as [|a [|b [|c [|d [|e vals]]]]]; cbn [length] in Hlen; try lia; clear Hlen;
    repeat match goal with H : Forall _ (_ :: _) |- _ => inversion_clear H end;
    cbn [length Nat.sub take forallb or_leading aton_value].
  - change (Z.shiftl 1 (8 * (5 - Z.of_nat 1))) with (2 ^ 32). simpl (default _ _).
    cbn [negb]. rewrite Z.lor_0_l. zbool; done || lia.
  - change (Z.shiftl 1 (8 * (5 - Z.of_nat 2))) with (2 ^ 24). simpl (default _ _).
    zbool; cbn [andb negb]; try done; try lia. rewrite shift_byte by lia. f_equal. apply or_two; lia.
  - change (Z.shiftl 1 (8 * (5 - Z.of_nat 3))) with (2 ^ 16). simpl (default _ _).
    zbool; cbn [andb negb]; try done; try lia. rewrite !shift_byte by lia. f_equal. apply or_three; lia.
  - change (Z.shiftl 1 (8 * (5 - Z.of_nat 4))) with (2 ^ 8). simpl (default _ _).
    zbool; cbn [andb negb]; try done; try lia. rewrite !shift_byte by lia. f_equal. apply or_four; lia.
Qed.

Lemma parseIPv4Numeric_parts parts vals :
  Forall2 spells parts vals -> parseIPv4Numeric (join_dots parts) = ipv4_of <$> aton_value vals.
Proof.
  intros HF. destruct (decide (parts = [])) as [->|Hne]; [by inversion HF; subst|].
  assert (Hnn : Forall (fun v => 0 <= v) vals).
  { clear Hne. induction HF; constructor; eauto using spells_nonneg. }
  pose proof (Forall2_length _ _ _ HF) as Hl.
  unfold parseIPv4Numeric. rewrite split_join; [|done|].
  2: { clear -HF. induction HF; constructor; eauto using spells_nodot. }
  rewrite Hl. destruct (Nat.ltb_spec 4 (length vals)).
  { rewrite orb_true_r. by destruct vals as [|? [|? [|? [|? [|? ?]]]]]; simpl in *; try lia. }
  assert (Hpos : (1 <= length vals)%nat) by (destruct parts; simpl in *; [done|lia]).
  rewrite (proj2 (Nat.eqb_neq _ _)) by lia. cbn [orb].
  destruct (decide (Forall (fun v => v <= 4294967295) vals)) as [Hsmall|Hbig].
  - assert (HM : mapM parseIPv4Part parts = Some vals).
    { apply mapM_Some. clear -HF Hsmall. induction HF; inversion_clear Hsmall; constructor; auto.
      by apply parseIPv4Part_spec. }
    rewrite HM, <- (assemble_value vals) by (done || lia).
    destruct (negb _); [done|]. by destruct (_ <=? _).
  - assert (HM : mapM parseIPv4Part parts = None).
    { destruct (mapM parseIPv4Part parts) as [ws|] eqn:HM; [exfalso|done].
      apply Hbig. apply mapM_Some in HM. clear -HF HM.
      revert ws HM; induction HF as [|p v ps vs Hp HF IH]; intros ws HM; [constructor|].
      inversion HM as [|? w ? ws' Hw HM']; subst. constructor; [|by eapply IH].
      apply parseIPv4Part_spec in Hw as [Hw Hle]. by rewrite (spells_det _ _ _ Hp Hw). }
    rewrite HM. destruct (aton_value vals) as [addr|] eqn:E; [exfalso|done]. apply Hbig.
    clear -E Hnn. destruct vals as [|a [|b [|c [|d [|e vals]]]]]; try done; unfold aton_value in E;
      repeat match goal with H : Forall _ (_ :: _) |- _ => inversion_clear H end;
      repeat constructor; zbool; cbn [andb] in E; try done; lia.
Qed.

Lemma parseIPv4Numeric_inv host ip :
  parseIPv4Numeric host = Some ip -> exists parts vals, host = join_dots parts /\ Forall2 spells parts vals.
Proof.
  unfold parseIPv4Numeric. case_match; [done|].
  destruct (mapM parseIPv4Part (split "." host)) as [vals|] eqn:HM; [intros _|done].
  exists (split "." host), vals. split; [by rewrite join_split|]. apply mapM_Some in HM.
  eapply Forall2_impl; [exact HM|]. intros p v Hp. by apply parseIPv4Part_spec in Hp as [? _].
Qed.

Lemma aton_value_range vals addr :
  Forall (fun v => 0 <= v) vals -> aton_value vals = Some addr -> 0 <= addr < 2 ^ 32.
Proof.
  intros Hnn E. destruct vals as [|a [|b [|c [|d [|e vals]]]]]; try done; unfold aton_value in E;
    repeat match goal with H : Forall _ (_ :: _) |- _ => inversion_clear H end;
    zbool; cbn [andb] in E; simplify_eq; lia.
Qed.

Lemma ipv4_of_bytes addr : 0 <= addr < 2 ^ 32 ->
  ipv4_of addr = IPv4 (addr / 2 ^ 24) (addr / 2 ^ 16 mod 256) (addr / 2 ^ 8 mod 256) (addr mod 256).
Proof.
  intros H. unfold ipv4_of. rewrite !Z.shiftr_div_pow2 by lia.
  by rewrite (Z.mod_small (addr / 2 ^ 24)) by (split; [apply Z.div_pos | apply Z.div_lt_upper_bound]; lia).
Qed.

(** A dotted quad that [net.ParseIP] accepts is read by [inet_aton] the same. *)
Lemma parse_octet_spells f n : parse_octet f = Some n -> spells f n.
Proof.
  destruct f as [|c f]; [done|]. unfold parse_octet.
  destruct (forallb is_digit (c :: f)) eqn:Hd; [|done].
  destruct (Ascii.eqb c "0" && negb (Nat.eqb (length f) 0)) eqn:E0; [done|]. zbool; [|done].
  intros [= <-].
  assert (HF : Forall (fun c => is_digit c = true) (c :: f)).
  { apply Forall_forall. intros x Hx%list_elem_of_In. by apply (proj1 (forallb_forall _ _) Hd). }
  apply spells_dec; [done|done| |].
  - intros [= ->]. simpl in E0. destruct f; [done|]. by simpl in E0.
  - unfold base_value, dec_value.
    assert (Hg : forall ds acc, Forall (fun c => is_digit c = true) ds ->
      foldl (fun acc c => acc * 10 + default 0 (digit_in 10 c)) acc ds =
      foldl (fun acc c => acc * 10 + digit_val c) acc ds).
    { clear. induction ds as [|x ds IH]; intros acc HF; [done|]. inversion_clear HF as [|? ? Hx HF'].
      simpl. rewrite IH by done. do 2 f_equal. unfold digit_in, hex_val, digit_val. rewrite Hx.
      pose proof Hx as Hr. unfold is_digit in Hr. apply andb_true_iff in Hr as [H1 H2]. zbool; done || lia. }
    by apply Hg.
Qed.

Lemma parse_ipv4_fields_aton parts vals q :
  Forall2 spells parts vals -> parts <> [] -> parse_ipv4_fields (join_dots parts) = Some q ->
  exists addr, aton_value vals = Some addr /\ v4InV6Prefix ++ q = ipv4_of addr.
Proof.
  intros HF Hne. unfold parse_ipv4_fields. rewrite split_join; [|done|].
  2: { clear -HF. induction HF; constructor; eauto using spells_nodot. }
  destruct parts as [|f1 [|f2 [|f3 [|f4 [|? ?]]]]]; try done.
  destruct (parse_octet f1) as [a|] eqn:Ea; [|done]. destruct (parse_octet f2) as [b|] eqn:Eb; [|done].
  destruct (parse_octet f3) as [c|] eqn:Ec; [|done]. destruct (parse_octet f4) as [d|] eqn:Ed; [|done].
  intros [= <-].
  repeat match goal with H : Forall2 _ (_ :: _) _ |- _ => inversion H; clear H; subst
                       | H : Forall2 _ [] _ |- _ => inversion H; clear H; subst end.
  repeat match goal with
  | E : parse_octet ?f = Some ?n, H : spells ?f ?v |- _ =>
      pose proof (parse_octet_range _ _ E); pose proof (spells_det _ _ _ H (parse_octet_spells _ _ E));
      clear E H; subst v
  end.
  exists (a * 2 ^ 24 + b * 2 ^ 16 + c * 2 ^ 8 + d). unfold aton_value. split.
  - zbool; cbn [andb]; done || lia.
  - rewrite ipv4_of_bytes by lia. unfold IPv4. f_equal.
    replace ((a * 2 ^ 24 + b * 2 ^ 16 + c * 2 ^ 8 + d) / 2 ^ 24) with a
      by (apply (Z.div_unique _ _ _ (b * 2 ^ 16 + c * 2 ^ 8 + d)); lia).
    replace ((a * 2 ^ 24 + b * 2 ^ 16 + c * 2 ^ 8 + d) / 2 ^ 16) with (a * 256 + b)
      by (apply (Z.div_unique _ _ _ (c * 2 ^ 8 + d)); lia).
    replace ((a * 2 ^ 24 + b * 2 ^ 16 + c * 2 ^ 8 + d) / 2 ^ 8) with (a * 65536 + b * 256 + c)
      by (apply (Z.div_unique _ _ _ d); lia).
    replace ((a * 256 + b) mod 256) with b by (apply (Z.mod_unique _ _ a); lia).
    replace ((a * 65536 + b * 256 + c) mod 256) with c by (apply (Z.mod_unique _ _ (a * 256 + b)); lia).
    by replace ((a * 2 ^ 24 + b * 2 ^ 16 + c * 2 ^ 8 + d) mod 256) with d
      by (apply (Z.mod_unique _ _ (a * 65536 + b * 256 + c)); lia).
Qed.

Lemma split_elem c sep s : c ∈ s -> c <> sep -> exists p, p ∈ split sep s /\ c ∈ p.
Proof.
  intros Hin Hne. induction s as [|d s IH]; [by apply not_elem_of_nil in Hin|].
  cbn [split]. destruct (split_cons sep s) as (q & qs & E). rewrite E in *.
  destruct (Ascii.eqb_spec sep d) as [<-|].
  - apply elem_of_cons in Hin as [->|Hin]; [done|]. destruct (IH Hin) as (p & Hp & Hc).
    exists p. split; [by right|done].
  - apply elem_of_cons in Hin as [->|Hin]; [exists (d :: q); split; by left|].
    destruct (IH Hin) as (p & [->|Hp]%elem_of_cons & Hc); 
      [exists (d :: q); split; [by left|by right] | exists p; split; [by right|done]].
Qed.

Lemma parse_octet_digits f n c : parse_octet f = Some n -> c ∈ f -> is_digit c = true.
Proof.
  destruct f as [|d f]; [done|]. unfold parse_octet.
  destruct (forallb is_digit (d :: f)) eqn:Hd; [|done]. intros _ Hc%list_elem_of_In.
  by apply (proj1 (forallb_forall _ _) Hd).
Qed.

Lemma parse_ipv4_fields_bad s c :
  c ∈ s -> c <> "."%char -> is_digit c = false -> parse_ipv4_fields s = None.
Proof.
  intros Hin Hdot Hnd. destruct (split_elem c "." s Hin Hdot) as (p & Hp & Hc).
  unfold parse_ipv4_fields. destruct (split "." s) as [|f1 [|f2 [|f3 [|f4 [|? ?]]]]]; try done.
  destruct (parse_octet f1) as [a1|] eqn:E1; [|done]. destruct (parse_octet f2) as [a2|] eqn:E2; [|done].
  destruct (parse_octet f3) as [a3|] eqn:E3; [|done]. destruct (parse_octet f4) as [a4|] eqn:E4; [|done].
  exfalso. rewrite !elem_of_cons, elem_of_nil in Hp.
  destruct Hp as [->|[->|[->|[->|[]]]]];
    [ pose proof (parse_octet_digits _ _ _ E1 Hc) | pose proof (parse_octet_digits _ _ _ E2 Hc)
    | pose proof (parse_octet_digits _ _ _ E3 Hc) | pose proof (parse_octet_digits _ _ _ E4 Hc) ]; congruence.
Qed.

(** The bytes of a joined spelling, and what they are not. *)
Lemma join_bytes parts vals :
  Forall2 spells parts vals -> Forall (fun c => aton_byte c = true \/ c = "."%char) (join_dots parts).
Proof.
  induction 1 as [|p v ps vs Hp HF IH]; [constructor|].
  apply spells_bytes in Hp as [_ Hp].
  assert (Hp' : Forall (fun c => aton_byte c = true \/ c = "."%char) p)
    by (eapply Forall_impl; [exact Hp|]; simpl; auto).
  destruct ps as [|q ps]; [done|]. change (join_dots (p :: q :: ps)) with (p ++ "."%char :: join_dots (q :: ps)).
  apply Forall_app; split; [done|]. constructor; [by right|done].
Qed.

Lemma bareHost_aton h :
  Forall (fun c => aton_byte c = true \/ c = "."%char) h -> bareHost h = h.
Proof.
  intros HF. unfold bareHost.
  assert (Hother : forall c, aton_byte c = true \/ c = "."%char -> c <> "%"%char /\ c <> "["%char /\ c <> "]"%char).
  { intros c [Hc | ->]; [|done]. apply aton_byte_other in Hc. tauto. }
  assert (Hs : strip_brackets h = h).
  { unfold strip_brackets. destruct h as [|c h]; [done|].
    inversion HF as [|? ? Hc HF']; subst. apply Hother in Hc as (_ & Hc & _).
    destruct (Ascii.eqb_spec c "["); [done|].
    rewrite bool_decide_eq_false_2; [done|]. intros Hl.
    apply last_Some_elem_of in Hl. rewrite Forall_forall in HF. apply HF, Hother in Hl. tauto. }
  rewrite Hs. unfold index_byte. destruct (list_find _ h) as [[i c]|] eqn:E; [|done].
  apply list_find_Some in E as (Hi & -> & _). exfalso.
  eapply Forall_lookup_1 in HF; [|exact Hi]. apply Hother in HF. tauto.
Qed.

Lemma ParseIP_aton h ip :
  Forall (fun c => aton_byte c = true \/ c = "."%char) h -> ParseIP h = Some ip ->
  exists q, parse_ipv4_fields h = Some q /\ ip = v4InV6Prefix ++ q.
Proof.
  intros HF. unfold ParseIP. destruct (List.find _ h) as [c|] eqn:E; [|done].
  apply List.find_some in E as [Hin Hc]. apply list_elem_of_In in Hin.
  rewrite Forall_forall in HF. destruct (HF _ Hin) as [Hb | ->].
  - apply aton_byte_other in Hb as (? & ? & ? & _).
    destruct (Ascii.eqb_spec c "."); [done|]. destruct (Ascii.eqb_spec c ":"); [done|].
    by destruct (Ascii.eqb_spec c "%").
  - change (Ascii.eqb "." ".") with true. cbv iota. intros (q & Hq & ->)%fmap_Some. eauto.
Qed.

Lemma hostIP_aton parts vals addr :
  Forall2 spells parts vals -> aton_value vals = Some addr -> hostIP (join_dots parts) = Some (ipv4_of addr).
Proof.
  intros HF Ha. pose proof (join_bytes _ _ HF) as Hb. unfold hostIP. rewrite bareHost_aton by done.
  destruct (ParseIP (join_dots parts)) as [ip|] eqn:E.
  - destruct (ParseIP_aton _ _ Hb E) as (q & Hq & ->).
    assert (Hne : parts <> []) by (intros ->; by inversion HF; subst).
    destruct (parse_ipv4_fields_aton _ _ _ HF Hne Hq) as (addr' & Ha' & ->). congruence.
  - by rewrite (parseIPv4Numeric_parts _ _ HF), Ha.
Qed.

Lemma localTargetKind_ip host ip :
  hostIP host = Some ip -> IsLoopback ip = true \/ IsUnspecified ip = true ->
  exists kind, localTargetKind host = Some kind.
Proof.
  unfold hostIP, localTargetKind. intros Hip Hl.
  destruct (Nat.eqb _ 0); [eauto|]. destruct (ParseIP (bareHost host)) as [ip'|].
  - injection Hip as ->. destruct (IsLoopback ip); [eauto|]. destruct Hl as [?| ->]; [done|eauto].
  - rewrite Hip. destruct (IsLoopback ip); [eauto|]. destruct Hl as [?| ->]; [done|eauto].
Qed.

(** ** Every spelling of this machine *)

(** The address a host text denotes: a numeric IPv4 spelling, the text form of an
    IPv6 address, or that with a zone. *)
Inductive denotes : bytes -> IP -> Prop :=
| den_numeric parts vals addr :
    Forall2 spells parts vals -> aton_value vals = Some addr ->
    denotes (join_dots parts) (IPv4 (addr / 2 ^ 24) (addr / 2 ^ 16 mod 256) (addr / 2 ^ 8 mod 256) (addr mod 256))
| den_v6 s ip : v6_text s ip -> denotes s ip
| den_zone s ip z : v6_text s ip -> denotes (s ++ "%"%char :: z) ip.

(** 127.0.0.0/8 and 0.0.0.0, also as IPv4-mapped IPv6, and ::1 and ::. *)
Definition local_address (ip : IP) : Prop :=
  (exists b c d, ip = IPv4 127 b c d) \/ ip = IPv4 0 0 0 0 \/ ip = replicate 15 0 ++ [1] \/ ip = replicate 16 0.

(** The names that are reserved for loopback, in any letter case, with or without
    the dot of the root. *)
Definition local_name (h : bytes) : Prop :=
  exists n dot, h = n ++ dot /\ (dot = [] \/ dot = ["."%char]) /\
    Forall (fun c => c <> "%"%char /\ c <> ":"%char /\ c <> "["%char /\ c <> "]"%char) n /\
    (lower n ∈ to_bytes <$> ["localhost"; "localhost.localdomain"; "ip6-localhost"; "ip6-loopback"] \/
     exists p, lower n = p ++ to_bytes ".localhost").

(** No host, an address or a name, bracketed or not. *)
Definition names_local (host : bytes) : Prop :=
  exists h, (host = h \/ host = "["%char :: h ++ ["]"%char]) /\
    (h = [] \/ (exists ip, denotes h ip /\ local_address ip) \/ local_name h).

Lemma strip_bracketed h : strip_brackets ("["%char :: h ++ ["]"%char]) = h.
Proof.
  unfold strip_brackets. rewrite Ascii.eqb_refl, last_snoc, bool_decide_eq_true_2 by done.
  rewrite length_app. cbn [length]. rewrite Nat.add_sub. apply take_app_length.
Qed.

(** What [bareHost] does after the brackets. *)
Definition unzoned (h : bytes) : bytes :=
  match index_byte "%" h with
  | None => h
  | Some i =>
      match List.find (fun c => Ascii.eqb c "." || Ascii.eqb c ":") (take i h) with
      | Some c => if Ascii.eqb c ":" then take i h else h
      | None => h
      end
  end.

Lemma bareHost_unzoned host : bareHost host = unzoned (strip_brackets host).
Proof. reflexivity. Qed.

Lemma index_zone s z : Forall (fun c => c <> "%"%char) s -> index_byte "%" (s ++ "%"%char :: z) = Some (length s).
Proof. intros HF. unfold index_byte. rewrite list_find_app_r; [done|]. by apply list_find_None. Qed.

(** Brackets around a host without marks of its own change nothing. *)
Lemma bareHost_plain h host :
  Forall (fun c => c <> "%"%char /\ c <> "["%char /\ c <> "]"%char) h ->
  host = h \/ host = "["%char :: h ++ ["]"%char] -> bareHost host = h.
Proof.
  intros HF Hh. rewrite bareHost_unzoned. assert (Hs : strip_brackets host = h).
  { destruct Hh as [-> | ->]; [|apply strip_bracketed]. unfold strip_brackets. destruct h as [|c h]; [done|].
    inversion HF as [|? ? (_ & Hc & _) HF']; subst. rewrite (proj2 (Ascii.eqb_neq _ _) Hc).
    rewrite bool_decide_eq_false_2; [done|]. intros Hl%last_Some_elem_of. rewrite Forall_forall in HF. by destruct (HF _ Hl) as (_ & _ & ?). }
  rewrite Hs. unfold unzoned, index_byte. destruct (list_find _ h) as [[i c]|] eqn:E; [|done].
  apply list_find_Some in E as (Hi & -> & _). eapply Forall_lookup_1 in HF; [|exact Hi]. by destruct HF.
Qed.

Lemma v6_plain s ip : v6_text s ip -> Forall (fun c => c <> "%"%char /\ c <> "["%char /\ c <> "]"%char) s.
Proof.
  intros H%v6_chars. eapply Forall_impl; [exact H|]. intros c [Hc|[-> | ->]]; [|done|done].
  apply hex_other in Hc. tauto.
Qed.

Lemma unzoned_v6 s ip z : v6_text s ip -> unzoned (s ++ "%"%char :: z) = s.
Proof.
  intros H. pose proof (v6_plain s ip H) as Hp. pose proof (v6_find s ip H) as Hf. unfold unzoned.
  rewrite index_zone by (eapply Forall_impl; [exact Hp|]; by intros c (? & _)). rewrite take_app_length.
  assert (He : List.find (fun c => Ascii.eqb c "." || Ascii.eqb c ":") s = Some ":"%char); [|by rewrite He].
  clear H. revert Hf. induction Hp as [|c s (Hc & _) _ IH]; [done|]. simpl. rewrite (proj2 (Ascii.eqb_neq c "%") Hc), orb_false_r.
  by destruct (_ || _).
Qed.

Lemma bareHost_zone s ip z host :
  v6_text s ip -> host = s ++ "%"%char :: z \/ host = "["%char :: (s ++ "%"%char :: z) ++ ["]"%char] -> bareHost host = s.
Proof.
  intros H Hh. rewrite bareHost_unzoned.
  assert (exists z', strip_brackets host = s ++ "%"%char :: z') as [z' ->]; [|by eapply unzoned_v6].
  destruct Hh as [-> | ->]; [|exists z; apply strip_bracketed].
  assert (Hh : exists c s', s = c :: s' /\ c <> "["%char).
  { pose proof (v6_plain s ip H) as Hp. pose proof (v6_find s ip H) as Hf. destruct s as [|c s]; [done|].
    inversion Hp as [|? ? (_ & Hc & _) _]; subst. eauto. }
  destruct Hh as (c & s' & -> & Hc). unfold strip_brackets. cbn [app]. rewrite (proj2 (Ascii.eqb_neq _ _) Hc).
  case_bool_decide as Hl; [|by exists z]. destruct z as [|x z _] using rev_ind.
  { exfalso. change (c :: s' ++ ["%"%char]) with ((c :: s') ++ ["%"%char]) in Hl. by rewrite last_snoc in Hl. }
  exists z. rewrite app_comm_cons, app_comm_cons, app_assoc. rewrite length_app. cbn [length]. rewrite Nat.add_sub.
  by rewrite take_app_length.
Qed.

Lemma local_address_ip ip : local_address ip -> IsLoopback ip = true \/ IsUnspecified ip = true.
Proof.
  intros [(b & c & d & ->)|[-> |[-> | ->]]]; [left; by rewrite IsLoopback_IPv4|right|left|right]; vm_compute; reflexivity.
Qed.

Lemma denotes_host h ip host :
  denotes h ip -> host = h \/ host = "["%char :: h ++ ["]"%char] -> hostIP host = Some ip.
Proof.
  intros Hd Hh. destruct Hd as [parts vals addr HF Ha|s ip Hs|s ip z Hs].
  - pose proof (join_bytes _ _ HF) as Hb.
    assert (Hp : Forall (fun c => c <> "%"%char /\ c <> "["%char /\ c <> "]"%char) (join_dots parts)).
    { eapply Forall_impl; [exact Hb|]. intros c [Hc | ->]; [|done]. apply aton_byte_other in Hc. tauto. }
    assert (Hr : 0 <= addr < 2 ^ 32).
    { apply (aton_value_range vals); [|done]. clear -HF. induction HF; constructor; eauto using spells_nonneg. }
    rewrite <- ipv4_of_bytes by done. rewrite <- (hostIP_aton parts vals addr HF Ha). unfold hostIP.
    by rewrite (bareHost_plain _ _ Hp Hh), bareHost_aton.
  - unfold hostIP. rewrite (bareHost_plain s host (v6_plain s ip Hs) Hh). by rewrite (ParseIP_v6 s ip Hs).
  - unfold hostIP. rewrite (bareHost_zone s ip z host Hs Hh). by rewrite (ParseIP_v6 s ip Hs).
Qed.

(** A reserved name holds a letter that no address holds. *)
Lemma local_name_letter h : local_name h -> exists c, c ∈ h /\ lower_char c = "l"%char.
Proof.
  intros (n & dot & -> & _ & _ & Hn).
  assert (Hl : "l"%char ∈ lower n).
  { destruct Hn as [Hn|[p ->]]; [|apply elem_of_app; right; vm_compute; by repeat constructor].
    rewrite !fmap_cons, !elem_of_cons in Hn. destruct Hn as [-> |[-> |[-> |[-> |Hn]]]]; [| | | |by apply elem_of_nil in Hn];
      vm_compute; by repeat constructor. }
  apply list_elem_of_fmap in Hl as (c & Hc & Hin). exists c. split; [by apply elem_of_app; left|done].
Qed.

Lemma trim_dot_name n dot : dot = [] \/ dot = ["."%char] -> last (lower n) <> Some "."%char -> trim_dot (n ++ dot) = n.
Proof.
  intros Hd Hl. unfold trim_dot. destruct Hd as [-> | ->].
  - rewrite app_nil_r, bool_decide_eq_false_2; [done|]. intros Hx. apply Hl. unfold lower. by rewrite fmap_last, Hx.
  - rewrite last_snoc, bool_decide_eq_true_2 by done. rewrite length_app. cbn [length]. rewrite Nat.add_sub. apply take_app_length.
Qed.

Lemma local_name_reserved h : local_name h -> isReservedLoopbackName h = true.
Proof.
  intros (n & dot & -> & Hd & _ & Hn). unfold isReservedLoopbackName. rewrite trim_dot_name; [|done|].
  - apply orb_true_iff. destruct Hn as [Hn|[p ->]]; [left; by apply bool_decide_eq_true|right].
    rewrite rev_app_distr. apply has_prefix_spec. by eexists.
  - destruct Hn as [Hn|[p ->]].
    + rewrite !fmap_cons, !elem_of_cons in Hn. destruct Hn as [-> |[-> |[-> |[-> |Hn]]]]; try (vm_compute; discriminate).
      by apply elem_of_nil in Hn.
    + rewrite last_app. vm_compute. discriminate.
Qed.

Lemma local_name_host h host :
  local_name h -> host = h \/ host = "["%char :: h ++ ["]"%char] -> localTargetKind host = Some ReservedName.
Proof.
  intros Hn Hh. pose proof (local_name_letter h Hn) as (c & Hc & Hl). pose proof (local_name_reserved h Hn) as Hr.
  assert (Hp : Forall (fun c => c <> "%"%char /\ c <> ":"%char /\ c <> "["%char /\ c <> "]"%char) h).
  { destruct Hn as (n & dot & -> & Hd & HF & _). apply Forall_app. split; [done|]. destruct Hd as [-> | ->]; by repeat constructor. }
  assert (Hb : bareHost host = h) by (apply bareHost_plain; [eapply Forall_impl; [exact Hp|]; simpl; tauto|done]).
  assert (Hlet : c <> "."%char /\ is_digit c = false /\ aton_byte c = false).
  { destruct c as [[] [] [] [] [] [] [] []]; vm_compute in Hl; try discriminate; by vm_compute. }
  destruct Hlet as (H1 & H2 & H3). unfold localTargetKind. rewrite Hb, Hr.
  assert (He : Nat.eqb (length h) 0 = false) by (destruct h; [by apply elem_of_nil in Hc|done]). rewrite He.
  assert (Hpi : ParseIP h = None).
  { unfold ParseIP. destruct (List.find _ h) as [x|] eqn:E; [|done]. apply List.find_some in E as [Hx%list_elem_of_In Hor].
    rewrite Forall_forall in Hp. destruct (Hp _ Hx) as (Hx1 & Hx2 & _). destruct (Ascii.eqb_spec x ".") as [->|].
    - by rewrite (parse_ipv4_fields_bad h c).
    - by rewrite (proj2 (Ascii.eqb_neq x ":") Hx2). }
  rewrite Hpi. destruct (parseIPv4Numeric h) as [ip|] eqn:En; [exfalso|done].
  apply parseIPv4Numeric_inv in En as (parts & vals & -> & HF). pose proof (join_bytes _ _ HF) as Hj.
  rewrite Forall_forall in Hj. destruct (Hj c Hc); congruence.
Qed.

Lemma names_local_kind host : names_local host -> exists kind, localTargetKind host = Some kind.
Proof.
  intros (h & Hh & [-> |[(ip & Hd & Hl)|Hn]]).
  - exists EmptyHost. unfold localTargetKind. by rewrite (bareHost_plain [] host).
  - eapply localTargetKind_ip; [by eapply denotes_host|by apply local_address_ip].
  - eauto using local_name_host.
Qed.

(** ** Theorems *)

(** [parseIPv4Numeric] decides exactly [inet_aton]'s grammar: one to four parts,
    each decimal, octal or hexadecimal, the last absorbing the remaining bytes;
    the address is the positional value of the parts. *)
Theorem aton_decides (host : bytes) (ip : IP) :
  parseIPv4Numeric host = Some ip <->
  exists parts vals addr,
    host = join_dots parts /\ Forall2 spells parts vals /\ aton_value vals = Some addr /\
    0 <= addr < 2 ^ 32 /\
    ip = IPv4 (addr / 2 ^ 24) (addr / 2 ^ 16 mod 256) (addr / 2 ^ 8 mod 256) (addr mod 256).
Proof.
  split.
  - intros H. destruct (parseIPv4Numeric_inv _ _ H) as (parts & vals & -> & HF).
    rewrite (parseIPv4Numeric_parts _ _ HF) in H. apply fmap_Some in H as (addr & Ha & ->).
    assert (Hr : 0 <= addr < 2 ^ 32).
    { apply (aton_value_range vals); [|done]. clear -HF. induction HF; constructor; eauto using spells_nonneg. }
    exists parts, vals, addr. by rewrite <- ipv4_of_bytes.
  - intros (parts & vals & addr & -> & HF & Ha & Hr & ->).
    by rewrite (parseIPv4Numeric_parts _ _ HF), Ha, <- ipv4_of_bytes.
Qed.

(** C24: A target that names this machine is refused.  The spellings: no host; any
    numeric (inet_aton) spelling of an address of 127.0.0.0/8 or of 0.0.0.0; any
    text form of ::1, of :: and of the IPv4-mapped forms of those, with or without
    a zone; localhost, localhost.localdomain, ip6-localhost, ip6-loopback and the
    names under .localhost, in any letter case and with or without a final dot;
    each of them bare or in brackets.  A gateway that other hosts can reach
    refuses them on every port and whatever its bind address; one on a
    loopback-only socket refuses them on its own port and on no other. *)
Theorem loopback_spellings_refused (host port listen : bytes) :
  names_local host ->
  connectSelfReference host port listen false <> None /\
  (connectSelfReference host port listen true <> None <->
   port <> [] /\ port = (splitHostPortLenient listen).2).
Proof.
  intros (kind & Hk)%names_local_kind. unfold connectSelfReference. destruct (splitHostPortLenient listen) as [lh lp].
  rewrite Hk. split; [done|]. cbn [snd]. case_bool_decide as Hp; [|split; [done|by intros [_ ?]]].
  destruct port; cbn [length Nat.eqb negb andb]; split; try done. by intros [? _].
Qed.

Lemma loopback_spellings_refused_witness :
  connectSelfReference (to_bytes "0177.0x0.1") (to_bytes "443") (to_bytes "10.0.0.5:14443") false <> None /\
  connectSelfReference (to_bytes "[::1%lo]") (to_bytes "443") (to_bytes "10.0.0.5:14443") false <> None /\
  connectSelfReference (to_bytes "LocalHost.") (to_bytes "443") (to_bytes "10.0.0.5:14443") false <> None.
Proof.
  split_and!.
  - apply loopback_spellings_refused. eexists. split; [by left|]. right. left. eexists.
    split; [apply (den_numeric [to_bytes "0177"; to_bytes "0x0"; to_bytes "1"] [127; 0; 1] 2130706433)|].
    + constructor; [|constructor; [|constructor; [|constructor]]].
      * apply (spells_oct (to_bytes "177")); [discriminate | | reflexivity]. repeat constructor; by eexists.
      * apply (spells_hex "x" (to_bytes "0")); [by left | discriminate | | reflexivity]. repeat constructor; by eexists.
      * apply spells_dec; [discriminate | repeat constructor | intros; reflexivity | reflexivity].
    + reflexivity.
    + left. eexists _, _, _. reflexivity.
  - apply loopback_spellings_refused. exists (to_bytes "::1" ++ "%"%char :: to_bytes "lo"). split; [right; reflexivity|].
    right. left. eexists. split; [apply den_zone, (v6_left ["1"%char] (group_bytes ["1"%char]))|].
    + apply run_group, v6_digit. reflexivity.
    + simpl. lia.
    + right. right. left. reflexivity.
  - apply loopback_spellings_refused. eexists. split; [by left|]. right. right.
    exists (to_bytes "LocalHost"), ["."%char]. split; [reflexivity|]. split; [by right|]. split.
    + repeat constructor; discriminate.
    + left. left.
Defined.

(** The dial-time guard: on a socket other hosts can reach, a tunnel whose far
    end is loopback, unspecified or our own address of that socket is always
    refused and every other is let through; on a loopback-only socket nothing
    is.  The scope is loopback-only exactly for a bound loopback address. *)
Theorem dial_guard_exact (scope : listenScope) (local remote : option Addr) (bound : option Addr) :
  (connectDialRefusal scope local remote <> None <->
   scope <> scopeLoopbackOnly /\
   exists rip, addrIP remote = Some rip /\
     (IsLoopback rip = true \/ IsUnspecified rip = true \/
      exists lip, addrIP local = Some lip /\ Equal lip rip = true)) /\
  (boundListenScope bound = scopeLoopbackOnly <->
   exists ip, addrIP bound = Some ip /\ IsUnspecified ip = false /\ IsLoopback ip = true).
Proof.
  split.
  - unfold connectDialRefusal. case_decide as Hs; [by split; [|intros [? _]]|].
    destruct (addrIP remote) as [rip|]; [|by split; [|intros (_ & ? & ? & _)]].
    destruct (IsLoopback rip) eqn:El; [by split; [intros _; eauto 10|]|].
    destruct (IsUnspecified rip) eqn:Eu; [by split; [intros _; eauto 10|]|]. cbn [orb].
    destruct (addrIP local) as [lip|].
    + destruct (Equal lip rip) eqn:Ee; [by split; [intros _; eauto 10|]|].
      split; [done|]. intros (_ & ? & [= <-] & [?|[?|(? & [= <-] & ?)]]); congruence.
    + split; [done|]. intros (_ & ? & [= <-] & [?|[?|(? & ? & _)]]); congruence.
  - unfold boundListenScope. destruct (addrIP bound) as [ip|]; [|by split; [|intros (? & ? & _)]].
    destruct (IsUnspecified ip) eqn:Eu; [by split; [|intros (? & [= <-] & ? & _); congruence]|].
    destruct (IsLoopback ip) eqn:El; [by split; [eauto|]|].
    split; [done|]. intros (? & [= <-] & _ & ?); congruence.
Qed.

(** A zone is stripped only from an IPv6 address: a host in which a dot, or
    nothing, precedes the percent sign keeps it, and then denotes no address at
    all, so no loopback reading is possible. *)
Theorem zone_only_ipv6 (h z : bytes) :
  Forall (fun c => c <> "%"%char /\ c <> ":"%char) h -> strip_brackets (h ++ "%"%char :: z) = h ++ "%"%char :: z ->
  bareHost (h ++ "%"%char :: z) = h ++ "%"%char :: z /\ ParseIP (h ++ "%"%char :: z) = None.
Proof.
  intros HF Hs.
  assert (Hi : index_byte "%" (h ++ "%"%char :: z) = Some (length h)).
  { unfold index_byte. rewrite list_find_app_r.
    - done.
    - apply list_find_None. eapply Forall_impl; [exact HF|]. by intros c [? _]. }
  split.
  - unfold bareHost. rewrite Hs, Hi, take_app_length.
    destruct (List.find _ h) as [c|] eqn:E; [|done].
    apply List.find_some in E as [Hin%list_elem_of_In _].
    rewrite Forall_forall in HF. destruct (HF _ Hin) as [_ Hc].
    by destruct (Ascii.eqb_spec c ":").
  - unfold ParseIP.
    destruct (List.find _ (h ++ "%"%char :: z)) as [c|] eqn:E; [|done].
    destruct (Ascii.eqb_spec c ".") as [->|].
    + by rewrite (parse_ipv4_fields_bad _ "%") by (done || set_solver).
    + destruct (Ascii.eqb_spec c ":") as [->|]; [|done].
      rewrite Hi, bool_decide_eq_true_2 by eauto. done.
Qed.

Lemma zone_only_ipv6_witness :
  bareHost (to_bytes "127.0.0.1" ++ "%"%char :: to_bytes "evil") = to_bytes "127.0.0.1" ++ "%"%char :: to_bytes "evil" /\
  ParseIP (to_bytes "127.0.0.1" ++ "%"%char :: to_bytes "evil") = None.
Proof.
  apply zone_only_ipv6; [repeat constructor; discriminate | reflexivity].
Defined.

End ConnectTarget.
