(* ===== verification/GatewayTypes.v ===== *)
(** * Configuration data of the gateway

    The structures of [src/internal/channel/config.go] and the rotation block of
    [rotation_store.go], with the derived postures.  A Go slice that may be nil
    is an [option (list _)]: validation distinguishes a missing list from an
    empty one. *)

From Stdlib Require Import ZArith Lia Ascii String.
From stdpp Require Import base option list gmap strings.
From S2P Require Import Prelude GoStrings RotationStore.

Module GatewayTypes.

(** [AuthMode] is a string type; a configuration may hold any spelling. *)
Definition AuthInject : string := "inject".
Definition AuthPassthrough : string := "passthrough".
Definition AuthHeaderInject : string := "header".

Record RotationConfig := {
  Policy : string;
  RBudget : RotationStore.Budget;
  MaxRetryAfter : Duration;
}.

Record Route := {
  Name : string;
  Prefix : string;
  Upstream : string;
  Auth : string;
  Enabled : bool;
  Timeout : Duration;
  KeyEnv : string;
  KeyFile : string;
  KeyRef : string;
  KeyEnvs : option (list string);
  KeyFiles : option (list string);
  KeyRefs : option (list string);
  KeyHeader : string;
  KeyPrefix : string;
  Rotation_ : option RotationConfig;
}.

Definition hasSingularKeys (r : Route) : bool :=
  negb (KeyEnv r =s "") || negb (KeyFile r =s "") || negb (KeyRef r =s "").

Definition hasPluralKeys (r : Route) : bool :=
  bool_decide (is_Some (KeyEnvs r)) || bool_decide (is_Some (KeyFiles r)) || bool_decide (is_Some (KeyRefs r)).

Definition DefaultConnectMaxConcurrent : Z := 256.
Definition DefaultConnectIdleTimeout : Duration := 5 * Minute.

Record ConnectConfig := {
  CEnabled : bool;
  AllowedHosts : list string;
  CTokenEnv : string;
  CTokenFile : string;
  CTokenRef : string;
  DialTimeout : Duration;
  MaxConcurrent : Z;
  IdleTimeout : Duration;
}.

Inductive ProxyAuthMode : Type :=
  | ProxyAuthToken | ProxyAuthTokenLoopbackExempt | ProxyAuthLoopbackOnly | ProxyAuthOpen.

#[export] Instance ProxyAuthMode_eq_dec : EqDecision ProxyAuthMode.
Proof. solve_decision. Defined.

Record GatewayAuthConfig := {
  GTokenEnv : string;
  GTokenFile : string;
  GTokenRef : string;
  ExemptLoopback : option bool;
  AllowUnauthenticated : bool;
}.

Definition hasToken (g : GatewayAuthConfig) : bool :=
  negb (GTokenRef g =s "") || negb (GTokenEnv g =s "") || negb (GTokenFile g =s "").

Definition exemptsLoopback (g : GatewayAuthConfig) : bool := default true (ExemptLoopback g).

Definition Mode (g : GatewayAuthConfig) : ProxyAuthMode :=
  if hasToken g && exemptsLoopback g then ProxyAuthTokenLoopbackExempt
  else if hasToken g then ProxyAuthToken
  else if AllowUnauthenticated g then ProxyAuthOpen
  else ProxyAuthLoopbackOnly.

Record TLSConfig := { CertFile : string; TLSKeyFile : string }.

Definition TLSEnabled (t : TLSConfig) : bool := negb (CertFile t =s "") && negb (TLSKeyFile t =s "").

Record AESConfig := {
  AESEnabled : bool;
  AESListen : string;
  AESKeyEnv : string;
  AESKeyFile : string;
  AESKeyRef : string;
  AESTLS : TLSConfig;
}.

Record Config := {
  Listen : string;
  CTimeout : Duration;
  Routes : list Route;
  Connect : ConnectConfig;
  GatewayAuth : GatewayAuthConfig;
  TLS : TLSConfig;
  AES : AESConfig;
  TrustForwardedForAudit : bool;
}.

Definition DefaultTimeout : Duration := 90 * Second.

Definition EnabledRoutes (c : Config) : list Route := filter (fun r => Enabled r = true) (Routes c).

(** The gateway never authenticates nobody by accident: without a token the
    posture is open only when the operator wrote that down. *)
Lemma Mode_tokenless g :
  hasToken g = false -> Mode g = if AllowUnauthenticated g then ProxyAuthOpen else ProxyAuthLoopbackOnly.
Proof. unfold Mode. by intros ->. Qed.

End GatewayTypes.
