(* ===== verification/Secret.v ===== *)
(** * Credential references and pools

    Models [src/internal/channel/secret.go]: the reference schemes, the
    environment and file providers, the caching resolver, the legacy-field
    adapter and the resolution of key pools.  A provider is a function from
    references to results; the process environment, the file system and the
    1Password command line tool are outside the code and are parameters. *)

From Stdlib Require Import ZArith Lia Ascii String.
From stdpp Require Import base option list gmap strings.
From S2P Require Import Prelude GoStrings Net GatewayTypes.

Module Secret.
Import GoStrings GatewayTypes.

Definition SchemeEnv : string := "env:".
Definition SchemeFile : string := "file:".
Definition SchemeOP : string := "op://".

Inductive cause : Type :=
  | ErrNoSecretSource | ErrSecretRefInvalid | ErrSecretNotFound | ErrSecretEmpty | ErrSecretUnavailable.

(** [SecretError]: the reference and the sentinel; the value is not in it. *)
Record SecretError := { ERef : string; ECause : cause }.

Definition secretErr (ref : string) (c : cause) : SecretError := {| ERef := ref; ECause := c |}.

(** A resolution: a value or an error. *)
Abbreviation result := (string + SecretError)%type.
Abbreviation SecretProvider := (string -> result).

(** ** References *)

Definition refScheme (ref : string) : option string :=
  List.find (fun s => HasPrefix ref s) [SchemeEnv; SchemeFile; SchemeOP].

Definition schemeOf (ref : string) : result :=
  match refScheme ref with
  | Some s => inl s
  | None => inr (secretErr ref ErrSecretRefInvalid)
  end.

Definition maxRefDetail : nat := 96.

(** A byte that starts a UTF-8 rune. *)
Definition rune_start (c : ascii) : bool := negb ((128 <=? code c) && (code c <? 192)).

(** [for cut > 0 && !utf8.RuneStart(rest[cut]) { cut-- }]. *)
Fixpoint cut_back (cut : nat) (rest : bytes) : nat :=
  match cut with
  | O => O
  | S c' => match rest !! cut with
            | Some b => if rune_start b then cut else cut_back c' rest
            | None => cut
            end
  end.

(** The rendering of a reference in a message: what is shown of it. *)
Inductive shown : Type := Redacted (len : nat) | Shown (s : bytes) | Clipped (s : bytes).

Definition safeRef (ref : string) : shown :=
  match refScheme ref with
  | None => Redacted (String.length ref)
  | Some scheme =>
      let rest := to_bytes (TrimPrefix ref scheme) in
      if Nat.ltb maxRefDetail (length rest)
      then Clipped (to_bytes scheme ++ take (cut_back maxRefDetail rest) rest)
      else Shown (to_bytes scheme ++ rest)
  end.

(** [unicode.IsSpace(r) || unicode.IsControl(r)] of some rune of the segment.
    The byte sequence of such a rune occurs only at a rune boundary. *)
Definition unusable_seqs : list bytes :=
  ((fun k => [byte k]) <$> seq 0 33) ++ [[byte 127]] ++
  ((fun k => [byte 194; byte k]) <$> seq 128 33) ++ space_seqs.

Definition unusableRef (seg : bytes) : bool := existsb (fun q => contains seg q) unusable_seqs.

Definition opRefSegments : nat := 3.

Definition parseOPRef (ref : string) : (bytes * bytes * bytes) + SecretError :=
  let bad := inr (secretErr ref ErrSecretRefInvalid) in
  if negb (HasPrefix ref SchemeOP) then bad
  else
    let parts := Net.split "/" (to_bytes (TrimPrefix ref SchemeOP)) in
    if negb (Nat.eqb (length parts) opRefSegments) then bad
    else if existsb (fun seg => Nat.eqb (length seg) 0 || unusableRef seg) parts then bad
    else match parts with
         | [v; i; f] => inl (v, i, f)
         | _ => bad
         end.

Definition validateSecretRef (ref : string) : option SecretError :=
  if ref =s "" then None
  else
    match schemeOf ref with
    | inr e => Some e
    | inl scheme =>
        if scheme =s SchemeOP then
          match parseOPRef ref with inl _ => None | inr e => Some e end
        else if scheme =s SchemeEnv then
          (if TrimPrefix ref SchemeEnv =s "" then Some (secretErr ref ErrSecretRefInvalid) else None)
        else if scheme =s SchemeFile then
          (if TrimPrefix ref SchemeFile =s "" then Some (secretErr ref ErrSecretRefInvalid) else None)
        else None
    end.

(** ** Providers *)

(** [envProvider]; [lookup] is the process environment. *)
Definition envResolve (lookup : string -> option string) : SecretProvider := fun ref =>
  let name := TrimPrefix ref SchemeEnv in
  if name =s "" then inr (secretErr ref ErrSecretRefInvalid)
  else
    match lookup name with
    | None => inr (secretErr ref ErrSecretNotFound)
    | Some raw =>
        let v := TrimSpace raw in
        if v =s "" then inr (secretErr ref ErrSecretEmpty) else inl v
    end.

(** The outcome of reading a file. *)
Inductive readResult : Type := ReadOK (b : string) | ReadNotExist | ReadPermission | ReadOther.

(** [fileProvider], with the permission warning: [perm] is the mode of the file
    when the stat succeeds.  The second component is the mode warned about. *)
Definition nonOwnerPerm : Z := 63.

Definition fileResolve (read : string -> readResult) (perm : string -> option Z) (ref : string)
    : result * option Z :=
  let path := TrimPrefix ref SchemeFile in
  if path =s "" then (inr (secretErr ref ErrSecretRefInvalid), None)
  else
    match read path with
    | ReadNotExist => (inr (secretErr ref ErrSecretNotFound), None)
    | ReadPermission | ReadOther => (inr (secretErr ref ErrSecretUnavailable), None)
    | ReadOK b =>
        let warned := match perm path with
                      | Some m => if Z.land m nonOwnerPerm =? 0 then None else Some m
                      | None => None
                      end in
        let v := TrimSpace b in
        if v =s "" then (inr (secretErr ref ErrSecretEmpty), warned) else (inl v, warned)
    end.

(** ** The caching resolver *)

Record Resolver := {
  providers : gmap string SecretProvider;
  cache : gmap string string;
}.

Definition newResolver (ps : gmap string SecretProvider) : Resolver := {| providers := ps; cache := ∅ |}.

Definition providerFor (r : Resolver) (ref : string) : SecretProvider + SecretError :=
  match schemeOf ref with
  | inr e => inr e
  | inl scheme =>
      match providers r !! scheme with
      | Some p => inl p
      | None => inr (secretErr ref ErrSecretRefInvalid)
      end
  end.

(** [resolveOnce]; the boolean says whether the backend was consulted. *)
Definition resolveOnce (r : Resolver) (ref : string) (p : SecretProvider) : result * Resolver * bool :=
  match cache r !! ref with
  | Some v => (inl v, r, false)
  | None =>
      match p ref with
      | inr e => (inr e, r, true)
      | inl v =>
          if v =s "" then (inr (secretErr ref ErrSecretEmpty), r, true)
          else (inl v, {| providers := providers r; cache := <[ref := v]> (cache r) |}, true)
      end
  end.

Definition Resolve (r : Resolver) (ref : string) : result * Resolver * bool :=
  match cache r !! ref with
  | Some v => (inl v, r, false)
  | None =>
      match providerFor r ref with
      | inr e => (inr e, r, false)
      | inl p => resolveOnce r ref p
      end
  end.

(** ** Single keys *)

Definition secretRefs (ref envName filePath : string) : list string :=
  (if ref =s "" then [] else [ref]) ++
  (if envName =s "" then [] else [String.append SchemeEnv envName]) ++
  (if filePath =s "" then [] else [String.append SchemeFile filePath]).

(** The errors [resolveFirst] joins. *)
Inductive firstError : Type := NoSource | Joined (es : list SecretError).

Fixpoint resolve_loop (sp : SecretProvider) (refs : list string) (errs : list SecretError)
    : string + firstError :=
  match refs with
  | [] => inr (Joined errs)
  | ref :: refs' =>
      match sp ref with
      | inl v => if negb (TrimSpace v =s "") then inl (TrimSpace v)
                 else resolve_loop sp refs' (errs ++ [secretErr ref ErrSecretEmpty])
      | inr e => resolve_loop sp refs' (errs ++ [e])
      end
  end.

Definition resolveFirst (sp : SecretProvider) (refs : list string) : string + firstError :=
  if Nat.eqb (length refs) 0 then inr NoSource else resolve_loop sp refs [].

(** ** Key pools *)

(** The frozen slot order: environment names, files, references. *)
Definition keySlots (r : Route) : list (string * string * list string) :=
  [("key_envs", SchemeEnv, default [] (KeyEnvs r));
   ("key_files", SchemeFile, default [] (KeyFiles r));
   ("key_refs", "", default [] (KeyRefs r))].

Definition declaredKeyCount (r : Route) : nat :=
  length (default [] (KeyEnvs r)) + length (default [] (KeyFiles r)) + length (default [] (KeyRefs r)).

(** A slot label: the field and the position in it. *)
Abbreviation slotLabel := (string * nat)%type.

Inductive poolError : Type :=
  | SlotFailed (l : slotLabel) (e : SecretError)
  | PoolEmpty
  | SameCredential (l first : slotLabel).

(** The slots with their labels, in order. *)
Definition slot_refs (r : Route) : list (slotLabel * string) :=
  concat ((fun '(field, scheme, items) =>
    imap (fun i item => ((field, i), String.append scheme item)) items) <$> keySlots r).

Fixpoint resolve_slots (sp : SecretProvider) (slots : list (slotLabel * string))
    : (list (string * slotLabel)) + poolError :=
  match slots with
  | [] => inl []
  | (label, ref) :: slots' =>
      match sp ref with
      | inr e => inr (SlotFailed label e)
      | inl v =>
          if TrimSpace v =s "" then inr (SlotFailed label (secretErr ref ErrSecretEmpty))
          else
            match resolve_slots sp slots' with
            | inl ks => inl ((TrimSpace v, label) :: ks)
            | inr e => inr e
            end
      end
  end.

(** [rejectDuplicateCredentials]: [seen] is [firstAt]. *)
Fixpoint dup_loop (keys : list (string * slotLabel)) (seen : gmap string slotLabel) : option poolError :=
  match keys with
  | [] => None
  | (k, l) :: keys' =>
      match seen !! k with
      | Some l0 => Some (SameCredential l l0)
      | None => dup_loop keys' (<[k := l]> seen)
      end
  end.

Definition rejectDuplicateCredentials (keys : list (string * slotLabel)) : option poolError :=
  dup_loop keys ∅.

Definition resolveKeyPool (r : Route) (sp : SecretProvider) : list string + poolError :=
  match resolve_slots sp (slot_refs r) with
  | inr e => inr e
  | inl keys =>
      if Nat.eqb (length keys) 0 then inr PoolEmpty
      else
        match rejectDuplicateCredentials keys with
        | Some e => inr e
        | None => inl (keys.*1)
        end
  end.

(** ** Lemmas *)

Lemma resolve_loop_inv sp refs errs v :
  resolve_loop sp refs errs = inl v ->
  exists pre ref post raw, refs = pre ++ ref :: post /\ sp ref = inl raw /\ v = TrimSpace raw /\ v <> "" /\
    Forall (fun r => match sp r with inl x => TrimSpace x = "" | inr _ => True end) pre.
Proof.
  revert errs; induction refs as [|ref refs IH]; intros errs; simpl; [done|].
  assert (Hskip : forall errs', (match sp ref with inl x => TrimSpace x = "" | inr _ => True end) ->
    resolve_loop sp refs errs' = inl v ->
    exists pre r post raw, ref :: refs = pre ++ r :: post /\ sp r = inl raw /\ v = TrimSpace raw /\ v <> "" /\
    Forall (fun r => match sp r with inl x => TrimSpace x = "" | inr _ => True end) pre).
  { intros errs' Hr H. destruct (IH _ H) as (pre & r & post & raw & -> & H1 & H2 & H3 & H4).
    exists (ref :: pre), r, post, raw. split_and!; auto. }
  destruct (sp ref) as [x|e] eqn:E.
  - destruct (String.eqb_spec (TrimSpace x) ""); simpl.
    + eauto.
    + intros [= <-]. by exists [], ref, refs, x.
  - eauto.
Qed.

Lemma resolve_loop_fail sp refs errs e :
  resolve_loop sp refs errs = inr e ->
  forall ref, ref ∈ refs -> match sp ref with inl x => TrimSpace x = "" | inr _ => True end.
Proof.
  revert errs; induction refs as [|r refs IH]; intros errs; simpl; [by intros _ ref Href%not_elem_of_nil|].
  intros H ref [->|Hin]%elem_of_cons.
  - destruct (sp r) as [x|]; [|done]. by destruct (String.eqb_spec (TrimSpace x) "").
  - destruct (sp r) as [x|]; [|by eapply IH]. destruct (String.eqb_spec (TrimSpace x) ""); simpl in H; [by eapply IH|done].
Qed.

Lemma resolve_slots_inv sp slots ks :
  resolve_slots sp slots = inl ks ->
  Forall2 (fun '(label, ref) '(k, l) =>
    l = label /\ exists raw, sp ref = inl raw /\ k = TrimSpace raw /\ k <> "") slots ks.
Proof.
  revert ks; induction slots as [|[label ref] slots IH]; intros ks; simpl; [by intros [= <-]|].
  destruct (sp ref) as [raw|e] eqn:E; [|done].
  destruct (String.eqb_spec (TrimSpace raw) ""); [done|].
  destruct (resolve_slots sp slots) as [ks'|e']; [|done]. intros [= <-].
  constructor; [|auto]. split; [done|]. eauto.
Qed.

Lemma dup_loop_none keys seen :
  dup_loop keys seen = None <-> NoDup (keys.*1) /\ forall k, k ∈ keys.*1 -> seen !! k = None.
Proof.
  revert seen; induction keys as [|[k l] keys IH]; intros seen; simpl.
  - split; [|done]. intros _. split; [constructor|]. by intros k Hk%not_elem_of_nil.
  - destruct (seen !! k) as [l0|] eqn:E.
    + split; [done|]. intros [_ H]. specialize (H k ltac:(by left)). congruence.
    + rewrite IH, NoDup_cons. split.
      * intros [Hnd H]. split_and!; [|done|].
        -- intros Hin. specialize (H _ Hin). by rewrite lookup_insert_eq in H.
        -- intros k' [->|Hk']%elem_of_cons; [done|]. specialize (H _ Hk').
           by apply lookup_insert_None in H as [? _].
      * intros [[Hni Hnd] H]. split; [done|]. intros k' Hk'.
        rewrite lookup_insert_ne; [apply H; by right|]. by intros ->.
Qed.

Lemma slot_refs_length r : length (slot_refs r) = declaredKeyCount r.
Proof.
  unfold slot_refs, keySlots, declaredKeyCount. simpl.
  rewrite !length_app, !length_imap. simpl. lia.
Qed.

(** ** Theorems *)

(** [resolveFirst] never hands back a blank value or one that still needs
    trimming: it is the trimmed value of the first candidate that is not blank,
    and it fails when there is none. *)
Theorem resolve_first_contract (sp : SecretProvider) (refs : list string) :
  match resolveFirst sp refs with
  | inl v => v <> "" /\ TrimSpace v = v /\
      exists pre ref post raw, refs = pre ++ ref :: post /\ sp ref = inl raw /\ v = TrimSpace raw /\
        Forall (fun r => match sp r with inl x => TrimSpace x = "" | inr _ => True end) pre
  | inr _ => forall ref, ref ∈ refs -> match sp ref with inl x => TrimSpace x = "" | inr _ => True end
  end.
Proof.
  unfold resolveFirst. destruct refs as [|r0 refs]; [by intros ref Href%not_elem_of_nil|]. cbn [length Nat.eqb].
  destruct (resolve_loop sp (r0 :: refs) []) as [v|e] eqn:E.
  - destruct (resolve_loop_inv _ _ _ _ E) as (pre & ref & post & raw & Hs & Hr & -> & Hne & Hpre).
    split_and!; [done | apply TrimSpace_idemp | eauto 10].
  - by eapply resolve_loop_fail.
Qed.

(** A resolved pool has exactly one key per declared slot, in the frozen order
    environment names, files, references; every key is the trimmed, non-blank
    value of its own slot, and no two slots hold the same credential. *)
Theorem pool_one_key_per_slot (r : Route) (sp : SecretProvider) (keys : list string) :
  resolveKeyPool r sp = inl keys ->
  length keys = declaredKeyCount r /\ keys <> [] /\ NoDup keys /\
  Forall2 (fun '(_, ref) k => exists raw, sp ref = inl raw /\ k = TrimSpace raw /\ k <> "" /\ TrimSpace k = k)
    (slot_refs r) keys.
Proof.
  unfold resolveKeyPool. destruct (resolve_slots sp (slot_refs r)) as [ks|e] eqn:E; [|done].
  destruct (Nat.eqb_spec (length ks) 0) as [|Hne]; [done|].
  destruct (rejectDuplicateCredentials ks) eqn:Ed; [done|]. intros [= <-].
  apply resolve_slots_inv in E. pose proof (Forall2_length _ _ _ E) as Hl.
  apply dup_loop_none in Ed as [Hnd _]. split_and!.
  - by rewrite length_fmap, <- Hl, slot_refs_length.
  - by destruct ks.
  - done.
  - clear -E. induction E as [|[label ref] [k l] slots ks [_ (raw & H1 & H2 & H3)] HF IH]; simpl; constructor; auto.
    exists raw. subst k. split_and!; auto using TrimSpace_idemp.
Qed.

Definition wit_pool_route : Route :=
  {| Name := "exa"; Prefix := "/exa/"; Upstream := "https://api.exa.ai"; Auth := AuthHeaderInject;
     Enabled := true; Timeout := 0; KeyEnv := ""; KeyFile := ""; KeyRef := "";
     KeyEnvs := Some ["EXA_1"]; KeyFiles := None; KeyRefs := Some ["env:EXA_2"];
     KeyHeader := "x-api-key"; KeyPrefix := ""; Rotation_ := None |}.

Definition wit_env (ref : string) : result :=
  envResolve (fun n => if n =s "EXA_1" then Some " k1 " else if n =s "EXA_2" then Some "k2" else None) ref.

Lemma pool_one_key_per_slot_witness :
  resolveKeyPool wit_pool_route wit_env = inl ["k1"; "k2"] /\
  length ["k1"; "k2"] = declaredKeyCount wit_pool_route.
Proof.
  assert (H : resolveKeyPool wit_pool_route wit_env = inl ["k1"; "k2"]) by (vm_compute; reflexivity).
  split; [exact H|]. exact (proj1 (pool_one_key_per_slot wit_pool_route wit_env ["k1"; "k2"] H)).
Defined.

(** A pasted credential is never echoed: the rendering of a string without a
    known scheme depends on its length alone, and what is shown of a reference
    is at most its scheme and 96 bytes. *)
Theorem safe_ref_redacts (ref ref' : string) :
  (refScheme ref = None -> refScheme ref' = None -> String.length ref = String.length ref' ->
   safeRef ref = safeRef ref') /\
  (refScheme ref = None -> safeRef ref = Redacted (String.length ref)) /\
  match safeRef ref with Redacted _ => True | Shown s | Clipped s => (length s <= 5 + 96)%nat end.
Proof.
  unfold safeRef. split_and!.
  - by intros -> -> ->.
  - by intros ->.
  - destruct (refScheme ref) as [scheme|] eqn:E; [|done].
    assert (Hs : (length (to_bytes scheme) <= 5)%nat).
    { unfold refScheme in E. apply List.find_some in E as [Hin _].
      simpl in Hin. destruct Hin as [<-|[<-|[<-|[]]]]; vm_compute; lia. }
    assert (Hc : forall n rest, (cut_back n rest <= n)%nat).
    { induction n as [|n IH]; intros rest; simpl; [lia|]. repeat case_match; try lia. specialize (IH rest). lia. }
    destruct (Nat.ltb_spec maxRefDetail (length (to_bytes (TrimPrefix ref scheme)))); rewrite length_app.
    + rewrite length_take. specialize (Hc maxRefDetail (to_bytes (TrimPrefix ref scheme))).
      unfold maxRefDetail in *. lia.
    + unfold maxRefDetail in *. lia.
Qed.

(** Only successes are cached, and a cached reference is served without the
    backend: after a success every later resolution answers the same value and
    consults nothing, whatever the backend would say now; after a failure the
    resolver is unchanged, so the failure does not poison the reference. *)
Theorem resolver_caches_successes (r : Resolver) (ref : string) (ps' : gmap string SecretProvider) :
  let '(res, r', _) := Resolve r ref in
  match res with
  | inl v => forall c', cache r' ⊆ c' ->
               Resolve {| providers := ps'; cache := c' |} ref = (inl v, {| providers := ps'; cache := c' |}, false)
  | inr _ => r' = r
  end.
Proof.
  unfold Resolve at 1. destruct (cache r !! ref) as [v|] eqn:E.
  - intros c' Hc. unfold Resolve. simpl. by rewrite (lookup_weaken _ _ _ _ E Hc).
  - destruct (providerFor r ref) as [p|e]; [|done]. unfold resolveOnce. rewrite E.
    destruct (p ref) as [v|e]; [|done]. destruct (v =s ""); [done|].
    intros c' Hc. unfold Resolve. simpl in *.
    by rewrite (lookup_weaken _ _ ref v ltac:(by rewrite lookup_insert_eq) Hc).
Qed.

End Secret.
