(* ===== verification/SecretFlight.v ===== *)
(** * Concurrent resolution of credentials

    [Resolver] of [src/internal/channel/secret.go] under every interleaving of
    goroutines: [Resolve], [providerFor], [resolveOnce], [cached] and [store]
    around [singleflight.Group.Do].  A step is one atomic operation of one
    goroutine.  The group behaves as its package documents: for a key at most one
    call of the function is in progress, and callers that arrive meanwhile wait
    and get its result.  What a backend answers is free at every call: a vault
    may fail first and answer later. *)

From Stdlib Require Import ZArith Lia String.
From stdpp Require Import base option list gmap relations strings.
From S2P Require Import Prelude GoStrings Secret.

Module SecretFlight.
Import GoStrings Secret.

(** ** State *)

(** Where a goroutine in [Resolve(ref)] is. *)
Inductive point :=
| Start                       (* before the cache is read *)
| Missed                      (* before group.Do *)
| Leading                     (* in the function, before the second look *)
| Calling                     (* the backend is asked *)
| Storing (v : string)        (* before the store *)
| Landing (r : result)        (* the function has returned r *)
| Joined (leader : nat)       (* waits for the call of another goroutine *)
| Returned (r : result).

Record goroutine := { ref : string; pc : point }.

(** [asked] and [answered] are the history of the backend: the references it was
    asked for and the non-empty values it gave. *)
Record state := {
  cache : gmap string string;
  flight : gmap string nat;
  procs : gmap nat goroutine;
  asked : list string;
  answered : list (string * string);
}.

Definition at_point (s : state) (x : nat) (g : goroutine) (p : point) : state :=
  {| cache := cache s; flight := flight s; procs := <[x := {| ref := ref g; pc := p |}]> (procs s);
     asked := asked s; answered := answered s |}.

Definition take_off (s : state) (k : string) (x : nat) : state :=
  {| cache := cache s; flight := <[k := x]> (flight s); procs := procs s; asked := asked s; answered := answered s |}.

Definition store (s : state) (k v : string) : state :=
  {| cache := <[k := v]> (cache s); flight := flight s; procs := procs s; asked := asked s; answered := answered s |}.

Definition ask (s : state) (k : string) : state :=
  {| cache := cache s; flight := flight s; procs := procs s; asked := asked s ++ [k]; answered := answered s |}.

Definition answer (s : state) (k v : string) : state :=
  {| cache := cache s; flight := flight s; procs := procs s; asked := asked s; answered := answered s ++ [(k, v)] |}.

(** A waiter of the call of [x] gets its result. *)
Definition hand_over (x : nat) (r : result) (g : goroutine) : goroutine :=
  match pc g with
  | Joined y => if decide (y = x) then {| ref := ref g; pc := Returned r |} else g
  | _ => g
  end.

Definition land (s : state) (x : nat) (g : goroutine) (r : result) : state :=
  {| cache := cache s; flight := delete (ref g) (flight s);
     procs := <[x := {| ref := ref g; pc := Returned r |}]> (hand_over x r <$> procs s);
     asked := asked s; answered := answered s |}.

Definition cached (s : state) (k : string) : option string := cache s !! k.

Definition init : state := {| cache := ∅; flight := ∅; procs := ∅; asked := []; answered := [] |}.

(** ** Steps *)

Section steps.
Context (providers : gmap string SecretProvider).

Definition provider_error (k : string) : option SecretError :=
  match providerFor {| Secret.providers := providers; Secret.cache := ∅ |} k with inl _ => None | inr e => Some e end.

Inductive step : state -> state -> Prop :=
| F_call s x k :
    procs s !! x = None -> step s (at_point s x {| ref := k; pc := Start |} Start)
(* Resolve: the cache, then the choice of the backend. *)
| F_hit s x g v :
    procs s !! x = Some g -> pc g = Start -> cached s (ref g) = Some v -> step s (at_point s x g (Returned (inl v)))
| F_unknown s x g e :
    procs s !! x = Some g -> pc g = Start -> cached s (ref g) = None -> provider_error (ref g) = Some e ->
    step s (at_point s x g (Returned (inr e)))
| F_miss s x g :
    procs s !! x = Some g -> pc g = Start -> cached s (ref g) = None -> provider_error (ref g) = None ->
    step s (at_point s x g Missed)
(* group.Do. *)
| F_lead s x g :
    procs s !! x = Some g -> pc g = Missed -> flight s !! ref g = None ->
    step s (take_off (at_point s x g Leading) (ref g) x)
| F_join s x g y :
    procs s !! x = Some g -> pc g = Missed -> flight s !! ref g = Some y -> step s (at_point s x g (Joined y))
(* resolveOnce. *)
| F_recheck_hit s x g v :
    procs s !! x = Some g -> pc g = Leading -> cached s (ref g) = Some v -> step s (at_point s x g (Landing (inl v)))
| F_recheck_miss s x g :
    procs s !! x = Some g -> pc g = Leading -> cached s (ref g) = None -> step s (ask (at_point s x g Calling) (ref g))
| F_backend_error s x g e :
    procs s !! x = Some g -> pc g = Calling -> step s (at_point s x g (Landing (inr e)))
| F_backend_empty s x g :
    procs s !! x = Some g -> pc g = Calling -> step s (at_point s x g (Landing (inr (secretErr (ref g) ErrSecretEmpty))))
| F_backend_value s x g v :
    procs s !! x = Some g -> pc g = Calling -> v <> ""%string -> step s (answer (at_point s x g (Storing v)) (ref g) v)
| F_store s x g v :
    procs s !! x = Some g -> pc g = Storing v -> step s (store (at_point s x g (Landing (inl v))) (ref g) v)
(* The function has returned: the key leaves the group, the waiters have their result. *)
| F_land s x g r :
    procs s !! x = Some g -> pc g = Landing r -> step s (land s x g r).

End steps.

(** ** The invariant *)

Definition leads (p : point) : bool :=
  match p with Leading | Calling | Storing _ | Landing _ => true | _ => false end.

(** What a goroutine may count on at its point. *)
Definition fits (c : gmap string string) (f : gmap string nat) (a : list (string * string)) (x : nat) (g : goroutine) : Prop :=
  match pc g with
  | Start | Missed => True
  | Leading => f !! ref g = Some x
  | Calling => f !! ref g = Some x /\ c !! ref g = None /\ ref g ∉ a.*1
  | Storing v => f !! ref g = Some x /\ c !! ref g = None /\ (ref g, v) ∈ a
  | Landing r => f !! ref g = Some x /\ forall v, r = inl v -> c !! ref g = Some v
  | Joined y => f !! ref g = Some y
  | Returned r => forall v, r = inl v -> c !! ref g = Some v
  end.

Record inv (s : state) : Prop := {
  i_fits : forall x g, procs s !! x = Some g -> fits (cache s) (flight s) (answered s) x g;
  i_flight : forall k x, flight s !! k = Some x -> exists g, procs s !! x = Some g /\ ref g = k /\ leads (pc g) = true;
  i_cache : forall k v, cache s !! k = Some v -> (k, v) ∈ answered s /\ v <> ""%string;
  i_answered : forall k v, (k, v) ∈ answered s ->
    v <> ""%string /\ (cache s !! k = Some v \/ exists x g, procs s !! x = Some g /\ ref g = k /\ pc g = Storing v);
  i_once : NoDup (answered s).*1;
}.

Lemma inv_init : inv init.
Proof. split; simpl; try done; try (intros *; rewrite lookup_empty; done); try set_solver. constructor. Qed.

(** A goroutine moves and nothing else does. *)
Lemma inv_point s x g p :
  inv s -> procs s !! x = Some g -> leads p = leads (pc g) -> (forall v, pc g <> Storing v) ->
  fits (cache s) (flight s) (answered s) x {| ref := ref g; pc := p |} -> inv (at_point s x g p).
Proof.
  intros [Hf Hl Hc Ha Ho] Hx Hp Hs Hfit. split; simpl; auto.
  - intros y h. rewrite lookup_insert_Some. intros [[<- <-]|[_ Hy]]; auto.
  - intros k y Hk. destruct (Hl k y Hk) as (h & Hy & Hr & Hlead). destruct (decide (y = x)) as [->|Hne].
    + exists {| ref := ref g; pc := p |}. rewrite lookup_insert_eq. simplify_eq. split_and!; simpl; congruence.
    + exists h. by rewrite lookup_insert_ne by done.
  - intros k v Hk. destruct (Ha k v Hk) as [Hv [Hcv|(y & h & Hy & Hr & Hst)]]; split; auto.
    right. exists y, h. rewrite lookup_insert_ne; [done|]. intros ->. rewrite Hx in Hy. injection Hy as <-. by destruct (Hs v).
Qed.

Lemma inv_call s x k : inv s -> procs s !! x = None -> inv (at_point s x {| ref := k; pc := Start |} Start).
Proof.
  intros [Hf Hl Hc Ha Ho] Hx. split; simpl; auto.
  - intros y h. rewrite lookup_insert_Some. intros [[<- <-]|[_ Hy]]; [done|auto].
  - intros k' y Hk. destruct (Hl k' y Hk) as (h & Hy & H). exists h. rewrite lookup_insert_ne; [done|congruence].
  - intros k' v Hk. destruct (Ha k' v Hk) as [Hv [Hcv|(y & h & Hy & H)]]; split; auto.
    right. exists y, h. rewrite lookup_insert_ne; [done|congruence].
Qed.

(** What the history of asked references is does not matter to the invariant. *)
Lemma inv_ask s k : inv s -> inv (ask s k).
Proof. intros []. by split. Qed.

Lemma fits_flight c f a x g k y :
  fits c f a x g -> f !! k = None -> fits c (<[k := y]> f) a x g.
Proof.
  intros H Hk. unfold fits in *. destruct (decide (ref g = k)) as [<-|Hne].
  - destruct (pc g); try done; destruct_and?; congruence.
  - by rewrite lookup_insert_ne by done.
Qed.

Lemma inv_lead s x g :
  inv s -> procs s !! x = Some g -> pc g = Missed -> flight s !! ref g = None -> inv (take_off (at_point s x g Leading) (ref g) x).
Proof.
  intros [Hf Hl Hc Ha Ho] Hx Hp Hn. split; simpl; auto.
  - intros y h. rewrite lookup_insert_Some. intros [[<- <-]|[_ Hy]]; [apply lookup_insert_eq|]. apply fits_flight; auto.
  - intros k y. rewrite lookup_insert_Some. intros [[<- <-]|[Hne Hk]].
    + eexists. by rewrite lookup_insert_eq.
    + destruct (Hl k y Hk) as (h & Hy & Hr & Hlead). exists h. rewrite lookup_insert_ne; [done|]. intros ->.
      rewrite Hx in Hy. injection Hy as <-. by rewrite Hp in Hlead.
  - intros k v Hk. destruct (Ha k v Hk) as [Hv [Hcv|(y & h & Hy & Hr & Hst)]]; split; auto.
    right. exists y, h. rewrite lookup_insert_ne; [done|]. intros ->. congruence.
Qed.

(** Another goroutine is not the leader of the reference of [x]. *)
Lemma other_leader s x g y h :
  inv s -> procs s !! x = Some g -> leads (pc g) = true -> procs s !! y = Some h -> leads (pc h) = true -> ref h = ref g -> y = x.
Proof.
  intros [Hf _ _ _ _] Hx Hp Hy Hq Hr. specialize (Hf _ _ Hx) as H1. specialize (Hf _ _ Hy) as H2. unfold fits in *. rewrite Hr in H2.
  destruct (pc g), (pc h); try done; destruct_and?; congruence.
Qed.

Lemma inv_value s x g v :
  inv s -> procs s !! x = Some g -> pc g = Calling -> v <> ""%string -> inv (answer (at_point s x g (Storing v)) (ref g) v).
Proof.
  intros Hinv Hx Hp Hv. assert (Hother : forall y h, procs s !! y = Some h -> leads (pc h) = true -> ref h = ref g -> y = x).
  { intros y h. apply other_leader; [done|done|by rewrite Hp]. }
  destruct Hinv as [Hf Hl Hc Ha Ho]. pose proof (Hf _ _ Hx) as Hg. unfold fits in Hg. rewrite Hp in Hg. destruct Hg as (Hfl & Hn & Hna).
  split; simpl.
  - intros y h. rewrite lookup_insert_Some. intros [[<- <-]|[Hne Hy]]; [unfold fits; simpl; split_and!; set_solver|].
    specialize (Hf _ _ Hy). unfold fits in *. destruct (pc h) eqn:Eh; try done.
    + destruct Hf as (H1 & H2 & H3). split_and!; try done. rewrite fmap_app, elem_of_app. intros [?|Hin]; [done|].
      apply list_elem_of_singleton in Hin. apply Hne. symmetry. apply (Hother y h); [done|by rewrite Eh|done].
    + set_solver.
  - intros k y Hk. destruct (Hl k y Hk) as (h & Hy & Hr & Hlead). destruct (decide (y = x)) as [->|Hne].
    + eexists. rewrite lookup_insert_eq. split_and!; [done| |done]. simpl. congruence.
    + exists h. by rewrite lookup_insert_ne by done.
  - intros k w Hk. destruct (Hc k w Hk). set_solver.
  - intros k w. rewrite elem_of_app, list_elem_of_singleton. intros [Hin|[= -> ->]].
    + destruct (Ha k w Hin) as [Hw [Hcw|(y & h & Hy & Hr & Hst)]]; split; auto. right. exists y, h.
      rewrite lookup_insert_ne; [done|]. intros ->. congruence.
    + split; [done|]. right. eexists x, _. by rewrite lookup_insert_eq.
  - rewrite fmap_app. apply NoDup_app. split_and!; [done| |apply NoDup_singleton]. set_solver.
Qed.

Lemma fits_cache c f a x g k v :
  fits c f a x g -> c !! k = None -> (leads (pc g) = true -> ref g <> k) -> fits (<[k := v]> c) f a x g.
Proof.
  intros H Hn Hk. unfold fits in *.
  assert (Hw : forall w, c !! ref g = Some w -> <[k := v]> c !! ref g = Some w).
  { intros w Hw. rewrite lookup_insert_ne; [done|]. intros ->. congruence. }
  assert (Hno : leads (pc g) = true -> c !! ref g = None -> <[k := v]> c !! ref g = None).
  { intros Hl Hc. rewrite lookup_insert_ne; [done|]. intros E. by apply Hk. }
  destruct (pc g); try done; simpl in Hk, Hno; destruct_and?; split_and?; eauto.
Qed.

Lemma inv_store s x g v :
  inv s -> procs s !! x = Some g -> pc g = Storing v -> inv (store (at_point s x g (Landing (inl v))) (ref g) v).
Proof.
  intros Hinv Hx Hp. assert (Hother : forall y h, procs s !! y = Some h -> leads (pc h) = true -> ref h = ref g -> y = x).
  { intros y h. apply other_leader; [done|done|by rewrite Hp]. }
  destruct Hinv as [Hf Hl Hc Ha Ho]. pose proof (Hf _ _ Hx) as Hg. unfold fits in Hg. rewrite Hp in Hg. destruct Hg as (Hfl & Hn & Hin).
  split; simpl.
  - intros y h. rewrite lookup_insert_Some. intros [[<- <-]|[Hne Hy]].
    { unfold fits. simpl. split; [done|]. intros w [= <-]. apply lookup_insert_eq. }
    apply fits_cache; [by apply Hf|done|]. intros Hlead Hr. apply Hne. symmetry. eauto.
  - intros k y Hk. destruct (Hl k y Hk) as (h & Hy & Hr & Hlead). destruct (decide (y = x)) as [->|Hne].
    + eexists. rewrite lookup_insert_eq. split_and!; [done| |done]. simpl. congruence.
    + exists h. by rewrite lookup_insert_ne by done.
  - intros k w. rewrite lookup_insert_Some. intros [[<- <-]|[_ Hk]]; [|auto]. split; [done|]. by apply (Ha (ref g) v).
  - intros k w Hk. destruct (Ha k w Hk) as [Hw [Hcw|(y & h & Hy & Hr & Hst)]]; split; auto.
    + left. rewrite lookup_insert_ne; [done|]. intros E. congruence.
    + destruct (decide (y = x)) as [->|Hne].
      * left. rewrite Hx in Hy. injection Hy as <-. rewrite Hp in Hst. injection Hst as <-. rewrite <- Hr. apply lookup_insert_eq.
      * right. exists y, h. by rewrite lookup_insert_ne by done.
  - done.
Qed.

(** The waiters of a call see their result and nobody else changes. *)
Lemma hand_over_cases x r h :
  (hand_over x r h = h /\ pc h <> Joined x) \/ (pc h = Joined x /\ hand_over x r h = {| ref := ref h; pc := Returned r |}).
Proof.
  unfold hand_over. destruct (pc h) as [| | | | | |y|]; try (by left). destruct (decide (y = x)) as [->|Hne]; [by right|left].
  split; [done|congruence].
Qed.

Lemma hand_over_leads x r h : leads (pc h) = true -> hand_over x r h = h.
Proof. intros H. destruct (hand_over_cases x r h) as [[-> _]|[E _]]; [done|by rewrite E in H]. Qed.

Lemma fits_delete c f a y h k :
  fits c f a y h -> (ref h = k -> leads (pc h) = false /\ forall z, pc h <> Joined z) -> fits c (delete k f) a y h.
Proof.
  intros H Hk. unfold fits in *. destruct (decide (ref h = k)) as [<-|Hne].
  - destruct (Hk eq_refl) as [Hl Hj]. destruct (pc h); try done. by destruct (Hj leader).
  - by rewrite lookup_delete_ne by done.
Qed.

Lemma inv_land s x g r : inv s -> procs s !! x = Some g -> pc g = Landing r -> inv (land s x g r).
Proof.
  intros Hinv Hx Hp.
  assert (Hother : forall y h, procs s !! y = Some h -> leads (pc h) = true -> ref h = ref g -> y = x).
  { intros y h. apply other_leader; [done|done|by rewrite Hp]. }
  destruct Hinv as [Hf Hl Hc Ha Ho]. pose proof (Hf _ _ Hx) as Hg. unfold fits in Hg. rewrite Hp in Hg. destruct Hg as [Hfl Hr].
  split; simpl; auto.
  - intros y h'. rewrite lookup_insert_Some, lookup_fmap. intros [[<- <-]|[Hne Hy]]; [exact Hr|].
    apply fmap_Some in Hy as (h & Hy & ->). specialize (Hf _ _ Hy) as Hfit.
    assert (Hj : forall z, pc h = Joined z -> ref h = ref g -> z = x).
    { intros z Hz Hrr. unfold fits in Hfit. rewrite Hz in Hfit. congruence. }
    assert (Hj' : pc h = Joined x -> ref h = ref g).
    { intros Hz. unfold fits in Hfit. rewrite Hz in Hfit. destruct (Hl _ _ Hfit) as (g' & Hg' & <- & _). congruence. }
    destruct (hand_over_cases x r h) as [[-> Hnj]|[Hjx ->]].
    + apply fits_delete; [done|]. intros Hrr. split.
      * destruct (leads (pc h)) eqn:E; [|done]. destruct Hne. symmetry. eauto.
      * intros z Hz. by rewrite (Hj z Hz Hrr) in Hz.
    + unfold fits. simpl. rewrite (Hj' Hjx). exact Hr.
  - intros k y. rewrite lookup_delete_Some. intros [Hne Hk]. destruct (Hl k y Hk) as (h & Hy & Hr' & Hlead).
    assert (y <> x) by (intros ->; rewrite Hx in Hy; injection Hy as <-; by apply Hne).
    exists h. rewrite lookup_insert_ne by done. rewrite lookup_fmap, Hy. simpl. by rewrite hand_over_leads.
  - intros k v Hk. destruct (Ha k v Hk) as [Hv [Hcv|(y & h & Hy & Hr' & Hst)]]; split; auto.
    right. exists y, h. rewrite lookup_insert_ne; [|intros ->; congruence]. rewrite lookup_fmap, Hy. simpl.
    by rewrite hand_over_leads by (by rewrite Hst).
Qed.

Lemma flight_inv_step providers s s' : inv s -> step providers s s' -> inv s'.
Proof.
  intros Hinv Hs. destruct Hs as [s x k Hx|s x g v Hx Hp Hc|s x g e Hx Hp Hc He|s x g Hx Hp Hc He|s x g Hx Hp Hf|s x g y Hx Hp Hf|
    s x g v Hx Hp Hc|s x g Hx Hp Hc|s x g e Hx Hp|s x g Hx Hp|s x g v Hx Hp Hv|s x g v Hx Hp|s x g r Hx Hp];
    try (pose proof (i_fits _ Hinv _ _ Hx) as Hfit; unfold fits in Hfit; rewrite Hp in Hfit).
  - by apply inv_call.
  - apply inv_point; rewrite ?Hp; try done. intros w [= <-]. exact Hc.
  - apply inv_point; rewrite ?Hp; done.
  - apply inv_point; rewrite ?Hp; done.
  - by apply inv_lead.
  - apply inv_point; rewrite ?Hp; done.
  - apply inv_point; rewrite ?Hp; try done. split; [done|]. intros w [= <-]. exact Hc.
  - apply inv_ask, inv_point; rewrite ?Hp; try done. split_and!; [done|exact Hc|]. intros Hin.
    apply list_elem_of_fmap in Hin as ([k v] & Hk & Hin). simpl in Hk. subst k.
    destruct (i_answered _ Hinv _ _ Hin) as [_ [Hcv|(y & h & Hy & Hr & Hst)]]; [unfold cached in Hc; congruence|].
    assert (y = x) as -> by (apply (other_leader s x g y h Hinv Hx); rewrite ?Hp, ?Hst; done). congruence.
  - apply inv_point; rewrite ?Hp; try done. by destruct Hfit.
  - apply inv_point; rewrite ?Hp; try done. by destruct Hfit.
  - by apply inv_value.
  - by apply inv_store.
  - by apply inv_land.
Qed.

Definition reachable (providers : gmap string SecretProvider) (s : state) : Prop := rtc (step providers) init s.

Lemma flight_reachable_inv providers s : reachable providers s -> inv s.
Proof.
  unfold reachable. revert s. apply (rtc_ind_r (fun s => inv s)); [apply inv_init|]. intros s s' _ Hs Hi. by eapply flight_inv_step.
Qed.

(** ** Properties *)

(** C19: One answer per reference: whatever the interleaving, the backend is never
    asked for a reference by two goroutines at once, it is not asked again once
    it has answered, and every goroutine that returns a value returns that one
    answer, which is not empty. *)
Theorem secret_resolved_once providers s :
  reachable providers s ->
  NoDup (answered s).*1 /\
  (forall x y g h, procs s !! x = Some g -> procs s !! y = Some h -> pc g = Calling -> pc h = Calling -> ref g = ref h -> x = y) /\
  (forall x g, procs s !! x = Some g -> pc g = Calling -> ref g ∉ (answered s).*1) /\
  (forall x g v, procs s !! x = Some g -> pc g = Returned (inl v) -> cache s !! ref g = Some v /\ (ref g, v) ∈ answered s /\ v <> ""%string).
Proof.
  intros Hinv%flight_reachable_inv. split_and!.
  - apply (i_once _ Hinv).
  - intros x y g h Hx Hy Hg Hh Hr. by apply (other_leader s y h x g Hinv Hy); rewrite ?Hg, ?Hh.
  - intros x g Hx Hp. pose proof (i_fits _ Hinv _ _ Hx) as H. unfold fits in H. rewrite Hp in H. by destruct H as (_ & _ & H).
  - intros x g v Hx Hp. pose proof (i_fits _ Hinv _ _ Hx) as H. unfold fits in H. rewrite Hp in H. specialize (H v eq_refl).
    destruct (i_cache _ Hinv _ _ H). done.
Qed.

(** *** Nobody waits for ever *)

Definition rank (g : goroutine) : nat :=
  match pc g with
  | Start => 6 | Missed => 5 | Leading => 4 | Calling => 3 | Storing _ => 2 | Landing _ => 1 | Joined _ => 1 | Returned _ => 0
  end.

Definition work (m : gmap nat goroutine) : nat := map_fold (fun _ g acc => (rank g + acc)%nat) 0%nat m.

Lemma work_fresh x g m : m !! x = None -> work (<[x := g]> m) = (rank g + work m)%nat.
Proof. intros H. unfold work. rewrite map_fold_insert_L; [done|intros; lia|done]. Qed.

Lemma work_set x g g' m : m !! x = Some g -> (rank g' < rank g)%nat -> (work (<[x := g']> m) < work m)%nat.
Proof.
  intros Hx Hr. rewrite <- insert_delete_eq, work_fresh by apply lookup_delete_eq.
  rewrite <- (insert_delete_id m x g Hx) at 2. rewrite work_fresh by apply lookup_delete_eq. lia.
Qed.

Lemma work_hand_over x r m : (work (hand_over x r <$> m) <= work m)%nat.
Proof.
  induction m as [|y h m Hy IH] using map_ind; [by rewrite fmap_empty|].
  rewrite fmap_insert, !work_fresh by (by rewrite ?lookup_fmap, ?Hy).
  enough (rank (hand_over x r h) <= rank h)%nat by lia.
  destruct (hand_over_cases x r h) as [[-> _]|[_ ->]]; [done|]. unfold rank at 1. simpl. lia.
Qed.

Lemma work_land s x g r : procs s !! x = Some g -> pc g = Landing r -> (work (procs (land s x g r)) < work (procs s))%nat.
Proof.
  intros Hx Hp. simpl. pose proof (work_hand_over x r (procs s)).
  assert ((work (<[x := {| ref := ref g; pc := Returned r |}]> (hand_over x r <$> procs s)) < work (hand_over x r <$> procs s))%nat); [|lia].
  apply (work_set x g); [|unfold rank; simpl; rewrite Hp; lia]. rewrite lookup_fmap, Hx. simpl. by rewrite hand_over_leads by (by rewrite Hp).
Qed.

(** A goroutine that has not returned can move, or its leader can. *)
Lemma progress providers s x g :
  inv s -> procs s !! x = Some g -> (forall r, pc g <> Returned r) ->
  exists s', step providers s s' /\ (work (procs s') < work (procs s))%nat /\ dom (procs s') = dom (procs s).
Proof.
  intros Hinv. revert x g.
  assert (Hdom : forall x g p, procs s !! x = Some g -> dom (<[x := p]> (procs s)) = dom (procs s)).
  { intros x g p Hx. apply dom_insert_lookup_L. eauto. }
  assert (Hmove : forall x g p, procs s !! x = Some g -> (rank {| ref := ref g; pc := p |} < rank g)%nat ->
    (work (procs (at_point s x g p)) < work (procs s))%nat) by (intros; by apply (work_set x g)).
  assert (Hlead : forall x g, procs s !! x = Some g -> leads (pc g) = true ->
    exists s', step providers s s' /\ (work (procs s') < work (procs s))%nat /\ dom (procs s') = dom (procs s)).
  { intros x g Hx Hl. destruct (pc g) as [| | | |v|r| |] eqn:Hp; try done.
    - destruct (cache s !! ref g) as [v|] eqn:Hc; eexists; (split; [by econstructor|split; [|simpl; eauto]]);
        apply (Hmove x g); try done; unfold rank; simpl; rewrite Hp; lia.
    - eexists. split; [by eapply (F_backend_error _ s x g (secretErr (ref g) ErrSecretUnavailable))|split; [|simpl; eauto]].
      apply (Hmove x g); [done|]. unfold rank. simpl. rewrite Hp. lia.
    - eexists. split; [by eapply F_store|split; [|simpl; eauto]]. apply (Hmove x g); [done|]. unfold rank. simpl. rewrite Hp. lia.
    - eexists. split; [by eapply F_land|split; [by apply work_land|]]. simpl. rewrite dom_insert_L, dom_fmap_L.
      apply subseteq_union_1_L. apply singleton_subseteq_l, elem_of_dom. eauto. }
  intros x g Hx Hn. destruct (leads (pc g)) eqn:Hl; [by eapply Hlead|]. destruct (pc g) as [| | | | | |y|] eqn:Hp; try done.
  - destruct (cache s !! ref g) as [v|] eqn:Hc; [|destruct (provider_error providers (ref g)) eqn:He];
      eexists; (split; [by econstructor|split; [|simpl; eauto]]); apply (Hmove x g); try done; unfold rank; simpl; rewrite Hp; lia.
  - destruct (flight s !! ref g) as [y|] eqn:Hf; eexists; (split; [by econstructor|split; [|simpl; eauto]]);
      apply (Hmove x g); try done; unfold rank; simpl; rewrite Hp; lia.
  - pose proof (i_fits _ Hinv _ _ Hx) as Hfit. unfold fits in Hfit. rewrite Hp in Hfit.
    destruct (i_flight _ Hinv _ _ Hfit) as (h & Hy & _ & Hlh). by eapply Hlead.
  - by destruct (Hn r).
Qed.

Definition returned (g : goroutine) : bool := match pc g with Returned _ => true | _ => false end.

(** From every interleaving all callers can return: nobody waits on a call that
    is gone, and a failed leader takes its waiters with it. *)
Theorem resolution_drains providers s :
  reachable providers s ->
  exists s', rtc (step providers) s s' /\ dom (procs s') = dom (procs s) /\
    forall x g, procs s' !! x = Some g -> exists r, pc g = Returned r.
Proof.
  intros Hinv%flight_reachable_inv. remember (work (procs s)) as n eqn:En. revert s Hinv En.
  induction (lt_wf n) as [n _ IH]. intros s Hinv ->.
  destruct (decide (map_Forall (fun _ g => returned g = true) (procs s))) as [Hall|Hnot].
  - exists s. split_and!; [done|done|]. intros x g Hx. specialize (Hall x g Hx). simpl in Hall. unfold returned in Hall. destruct (pc g); try done. eauto.
  - apply map_not_Forall in Hnot; [|apply _]. destruct Hnot as (x & g & Hx & Hg).
    destruct (progress providers s x g Hinv Hx) as (s1 & Hs & Hw & Hd). { intros r Hr. apply Hg. unfold returned. by rewrite Hr. }
    destruct (IH _ Hw s1 (flight_inv_step _ _ _ Hinv Hs) eq_refl) as (s2 & Hr & Hd2 & Hall).
    exists s2. split_and!; [by eapply rtc_l|congruence|done].
Qed.

(** ** Witnesses *)

(** Two routes name one item: the first leads, the second joins, both get the
    one answer. *)
Definition ex_ref : string := "op://vault/item/field".
Definition ex_providers : gmap string SecretProvider := {[ SchemeOP := fun _ => inl "s3cret"%string ]}.

Definition ex_at (p : point) : goroutine := {| ref := ex_ref; pc := p |}.

Definition ex_end : state :=
  {| cache := {[ ex_ref := "s3cret"%string ]}; flight := ∅;
     procs := {[ 1%nat := ex_at (Returned (inl "s3cret"%string)); 0%nat := ex_at (Returned (inl "s3cret"%string)) ]};
     asked := [ex_ref]; answered := [(ex_ref, "s3cret"%string)] |}.

Definition ex_joined : state :=
  {| cache := ∅; flight := {[ ex_ref := 0%nat ]};
     procs := {[ 1%nat := ex_at (Joined 0); 0%nat := ex_at Calling ]}; asked := [ex_ref]; answered := [] |}.

Ltac go_step r x g :=
  eapply rtc_l; [eapply (r ex_providers _ x (ex_at g)); [vm_compute; reflexivity..]|].

Lemma ex_joined_reachable : reachable ex_providers ex_joined.
Proof.
  unfold reachable.
  eapply rtc_l; [apply (F_call ex_providers _ 0%nat ex_ref); reflexivity|].
  eapply rtc_l; [apply (F_call ex_providers _ 1%nat ex_ref); reflexivity|].
  go_step F_miss 0%nat Start. go_step F_miss 1%nat Start. go_step F_lead 0%nat Missed.
  eapply rtc_l; [eapply (F_join ex_providers _ 1%nat (ex_at Missed) 0%nat); reflexivity|].
  go_step F_recheck_miss 0%nat Leading.
  match goal with |- rtc _ ?a ?b => replace a with b; [apply rtc_refl|] end. vm_compute. reflexivity.
Defined.

Lemma ex_end_reachable : reachable ex_providers ex_end.
Proof.
  unfold reachable. etrans; [exact ex_joined_reachable|].
  eapply rtc_l; [eapply (F_backend_value ex_providers _ 0%nat (ex_at Calling) "s3cret"%string); [reflexivity|reflexivity|discriminate]|].
  eapply rtc_l; [eapply (F_store ex_providers _ 0%nat (ex_at (Storing "s3cret"%string)) "s3cret"%string); reflexivity|].
  eapply rtc_l; [eapply (F_land ex_providers _ 0%nat (ex_at (Landing (inl "s3cret"%string))) (inl "s3cret"%string)); reflexivity|].
  match goal with |- rtc _ ?a ?b => replace a with b; [apply rtc_refl|] end. vm_compute. reflexivity.
Defined.

Lemma secret_resolved_once_witness : NoDup (answered ex_end).*1 /\ cache ex_end !! ex_ref = Some "s3cret"%string.
Proof.
  destruct (secret_resolved_once ex_providers ex_end ex_end_reachable) as (H1 & _ & _ & H4). split; [exact H1|].
  apply (H4 1%nat (ex_at (Returned (inl "s3cret"%string)))); reflexivity.
Defined.

Lemma resolution_drains_witness :
  exists s', rtc (step ex_providers) ex_joined s' /\ forall x g, procs s' !! x = Some g -> exists r, pc g = Returned r.
Proof. destruct (resolution_drains ex_providers ex_joined ex_joined_reachable) as (s' & H1 & _ & H2). exists s'. split; [exact H1|exact H2]. Defined.

End SecretFlight.
