(* ===== verification/KeyMaterial.v ===== *)
(** * Key material and the 1Password provider

    Models, of [src/internal/channel/config.go], [parseAESKey] and
    [ResolveAESKey] with the hexadecimal and base64 decoders they call; and, of
    [src/internal/channel/secret.go], the 1Password provider with its deadline,
    [opExecError] and [boundedDetail].  The command line tool is an argument: how
    long it runs and what it returns. *)

From Stdlib Require Import ZArith Lia Ascii String.
From stdpp Require Import base option list strings.
From S2P Require Import Prelude GoStrings Utf8 Trim Net Secret.

Module KeyMaterial.
Import GoStrings Utf8 Trim Secret.

(** ** Decoders *)

(** [hex.DecodeString]. *)
Fixpoint hex_decode (s : bytes) : option bytes :=
  match s with
  | [] => Some []
  | [_] => None
  | a :: b :: s =>
      x ← Net.hex_val a; y ← Net.hex_val b; r ← hex_decode s; Some (chr (16 * x + y) :: r)
  end.

(** The value of a base64 digit. *)
Definition b64_val (c : ascii) : option Z :=
  let n := code c in
  if is_upper c then Some (n - 65)
  else if is_lower c then Some (n - 97 + 26)
  else if is_digit c then Some (n - 48 + 52)
  else if n =? 43 then Some 62
  else if n =? 47 then Some 63
  else None.

Definition group3 (a b c d : Z) : bytes :=
  let v := ((a * 64 + b) * 64 + c) * 64 + d in [chr (v / 65536); chr (v / 256 mod 256); chr (v mod 256)].

(** Groups of four digits; the last may end in padding. *)
Fixpoint b64_groups (s : bytes) : option bytes :=
  match s with
  | [] => Some []
  | a :: b :: c :: d :: s =>
      va ← b64_val a; vb ← b64_val b;
      if Ascii.eqb d "=" then
        if bool_decide (s = []) then
          if Ascii.eqb c "=" then Some (take 1 (group3 va vb 0 0))
          else vc ← b64_val c; Some (take 2 (group3 va vb vc 0))
        else None
      else vc ← b64_val c; vd ← b64_val d; r ← b64_groups s; Some (group3 va vb vc vd ++ r)
  | _ => None
  end.

(** [base64.StdEncoding.DecodeString]: line breaks are skipped. *)
Definition b64_decode (s : bytes) : option bytes := b64_groups (filter (fun c => code c <> 10 /\ code c <> 13) s).

(** ** The AES key *)

Inductive keyError := NotHex | KeyShape (len : nat) | NoKeySource | KeyResolve (e : firstError).

Definition parseAESKey (material : string) : bytes + keyError :=
  let s := to_bytes (TrimSpace material) in
  if (length s =? 64)%nat then
    match hex_decode s with Some b => inl b | None => inr NotHex end
  else if (length s =? 32)%nat then inl s
  else
    match b64_decode s with
    | Some b => if (length b =? 32)%nat then inl b else inr (KeyShape (length s))
    | None => inr (KeyShape (length s))
    end.

Definition ResolveAESKey (sp : SecretProvider) (keyRef keyEnv keyFile : string) : bytes + keyError :=
  match secretRefs keyRef keyEnv keyFile with
  | [] => inr NoKeySource
  | refs => match resolveFirst sp refs with inl material => parseAESKey material | inr e => inr (KeyResolve e) end
  end.

(** ** The 1Password provider *)

Definition DefaultOPTimeout : Duration := 15 * Second.
Definition opWaitDelay : Duration := 2 * Second.
Definition maxCLIErrDetail : nat := 200.

(** What [exec] reports. *)
Inductive opError := OpDeadline | OpWaitDelay | OpNotFound | OpExit (code : Z) (stderr : bytes) | OpOther.

(** One run of the tool: how long it takes, and the standard output and error it
    returns.  A run that fails has printed what it has printed. *)
Record opRun := { took : Duration; out : bytes; err : option opError }.

Definition boundedDetail (stderr : bytes) : bytes :=
  let s := trim_bytes stderr in
  let s := match Net.index_byte LF s with Some i => trim_bytes (take i s) | None => s end in
  if (maxCLIErrDetail <? length s)%nat then take maxCLIErrDetail s ++ to_bytes "..." else s.

(** The message that goes with the sentinel. *)
Inductive opDetail := TimedOut | ChildHoldsPipe | CLINotFound | Exited (code : Z) (detail : bytes) | NotExecuted | NoValue | BadRef.

Definition opExecError (ref : string) (e : opError) : SecretError * opDetail :=
  (secretErr ref ErrSecretUnavailable,
   match e with
   | OpDeadline => TimedOut
   | OpWaitDelay => ChildHoldsPipe
   | OpNotFound => CLINotFound
   | OpExit c stderr => Exited c (boundedDetail stderr)
   | OpOther => NotExecuted
   end).

(** [Resolve]: the value or the error, and how long the caller waited; the tool
    is started only for a well-formed reference. *)
Definition opResolve (timeout : Duration) (run : opRun) (ref : string) : (string + SecretError * opDetail) * Duration * bool :=
  match parseOPRef ref with
  | inr e => (inr (e, BadRef), 0, false)
  | inl _ =>
      let timeout := if timeout <=? 0 then DefaultOPTimeout else timeout in
      if timeout <=? took run then (inr (opExecError ref OpDeadline), timeout, true)
      else
        match err run with
        | Some e => (inr (opExecError ref e), took run, true)
        | None =>
            let v := of_bytes (trim_bytes (out run)) in
            if v =s "" then (inr (secretErr ref ErrSecretEmpty, NoValue), took run, true) else (inl v, took run, true)
        end
  end.

(** ** The encodings a key is written in *)

Definition hex_digit (upper : bool) (d : Z) : ascii := chr (if d <? 10 then 48 + d else (if upper then 55 else 87) + d).

Definition hex_encode (upper : bool) (b : bytes) : bytes :=
  flat_map (fun c => [hex_digit upper (code c / 16); hex_digit upper (code c mod 16)]) b.

Definition b64_digit (d : Z) : ascii :=
  chr (if d <? 26 then 65 + d else if d <? 52 then 71 + d else if d <? 62 then d - 4 else if d =? 62 then 43 else 47).

Fixpoint b64_encode (b : bytes) : bytes :=
  match b with
  | [] => []
  | [x] => let v := code x * 65536 in [b64_digit (v / 262144); b64_digit (v / 4096 mod 64); "="; "="]%char
  | [x; y] =>
      let v := code x * 65536 + code y * 256 in
      [b64_digit (v / 262144); b64_digit (v / 4096 mod 64); b64_digit (v / 64 mod 64); "="]%char
  | x :: y :: z :: b =>
      let v := code x * 65536 + code y * 256 + code z in
      [b64_digit (v / 262144); b64_digit (v / 4096 mod 64); b64_digit (v / 64 mod 64); b64_digit (v mod 64)] ++ b64_encode b
  end.

(** ** Lemmas *)

Definition plainb (c : ascii) : bool := (33 <=? code c) && (code c <=? 126).

Lemma plainb_spec c : plainb c = true -> plain c.
Proof. unfold plainb, plain. rewrite andb_true_iff, !Z.leb_le. done. Qed.

(** A table is checked by evaluating it. *)
Lemma table_check (f : Z -> bool) n d : forallb f (Z.of_nat <$> seq 0 n) = true -> 0 <= d < Z.of_nat n -> f d = true.
Proof.
  intros H Hd. apply (proj1 (forallb_forall f _) H). apply list_elem_of_In, list_elem_of_fmap. exists (Z.to_nat d).
  split; [lia|]. apply elem_of_seq. lia.
Qed.

Lemma hex_digit_val upper d : 0 <= d < 16 -> Net.hex_val (hex_digit upper d) = Some d /\ plain (hex_digit upper d).
Proof.
  intros Hd. assert (H := table_check
    (fun d => bool_decide (Net.hex_val (hex_digit upper d) = Some d) && plainb (hex_digit upper d)) 16 d).
  destruct (andb_prop _ _ (H ltac:(destruct upper; vm_compute; reflexivity) Hd)) as [H1 H2].
  split; [by apply bool_decide_eq_true in H1|by apply plainb_spec].
Qed.

Lemma b64_digit_val d : 0 <= d < 64 ->
  b64_val (b64_digit d) = Some d /\ plain (b64_digit d) /\ (b64_digit d =? "=")%char = false.
Proof.
  intros Hd. assert (H := table_check
    (fun d => bool_decide (b64_val (b64_digit d) = Some d) && (plainb (b64_digit d) && negb (b64_digit d =? "=")%char)) 64 d).
  destruct (andb_prop _ _ (H ltac:(vm_compute; reflexivity) Hd)) as [H1 [H2 H3]%andb_prop].
  split_and!; [by apply bool_decide_eq_true in H1|by apply plainb_spec|by apply negb_true_iff].
Qed.

Lemma hex_roundtrip upper b : hex_decode (hex_encode upper b) = Some b /\ Forall plain (hex_encode upper b) /\
  length (hex_encode upper b) = (2 * length b)%nat.
Proof.
  induction b as [|c b (IH & Hp & Hl)]; [by repeat constructor|]. cbn [hex_encode flat_map app]. fold (hex_encode upper b).
  pose proof (code_range c). destruct (hex_digit_val upper (code c / 16)) as [Hx Hpx]; [split; [apply Z.div_pos; lia|apply Z.div_lt_upper_bound; lia]|].
  destruct (hex_digit_val upper (code c mod 16)) as [Hy Hpy]; [apply Z.mod_pos_bound; lia|].
  split_and!.
  - cbn [hex_decode]. rewrite Hx, Hy, IH. cbn. rewrite <- Z.div_mod by lia. by rewrite chr_code.
  - by constructor; [|constructor].
  - cbn [length]. rewrite Hl. lia.
Qed.

(** One more digit of an expansion in base 64. *)
Lemma digit64 v k : 0 < k -> v / (k * 64) * 64 + v / k mod 64 = v / k.
Proof. intros Hk. rewrite <- Z.div_div by lia. rewrite (Z.div_mod (v / k) 64) at 3 by lia. lia. Qed.

Lemma group3_split v :
  group3 (v / 262144) (v / 4096 mod 64) (v / 64 mod 64) (v mod 64) = [chr (v / 65536); chr (v / 256 mod 256); chr (v mod 256)].
Proof.
  pose proof (digit64 v 4096 ltac:(lia)) as H1. pose proof (digit64 v 64 ltac:(lia)) as H2.
  pose proof (digit64 v 1 ltac:(lia)) as H3. rewrite Z.div_1_r in H3.
  change (4096 * 64) with 262144 in H1. change (64 * 64) with 4096 in H2. change (1 * 64) with 64 in H3.
  unfold group3. by rewrite H1, H2, H3.
Qed.

(** The three bytes of a packed integer. *)
Lemma unpack x y z : 0 <= y < 256 -> 0 <= z < 256 ->
  let v := x * 65536 + y * 256 + z in v / 65536 = x /\ v / 256 mod 256 = y /\ v mod 256 = z.
Proof.
  intros Hy Hz v. assert (E : v / 256 = x * 256 + y) by (symmetry; apply (Z.div_unique v 256 _ z); unfold v; lia).
  split_and!.
  - symmetry. apply (Z.div_unique v 65536 x (y * 256 + z)); unfold v; lia.
  - rewrite E. symmetry. apply (Z.mod_unique _ 256 x y); lia.
  - symmetry. apply (Z.mod_unique v 256 (x * 256 + y) z); unfold v; lia.
Qed.

(** The four digits of three bytes. *)
Lemma digits_range v : 0 <= v < 16777216 ->
  0 <= v / 262144 < 64 /\ 0 <= v / 4096 mod 64 < 64 /\ 0 <= v / 64 mod 64 < 64 /\ 0 <= v mod 64 < 64.
Proof.
  intros Hv. split_and!; try (apply Z.mod_pos_bound; lia); [apply Z.div_pos; lia|apply Z.div_lt_upper_bound; lia].
Qed.

Lemma pack_range x y z : 0 <= code x * 65536 + code y * 256 + code z < 16777216.
Proof. pose proof (code_range x). pose proof (code_range y). pose proof (code_range z). lia. Qed.

Lemma group3_bytes x y z :
  let v := code x * 65536 + code y * 256 + code z in
  group3 (v / 262144) (v / 4096 mod 64) (v / 64 mod 64) (v mod 64) = [x; y; z].
Proof.
  intros v. rewrite group3_split. destruct (unpack (code x) (code y) (code z) (code_range y) (code_range z)) as (E1 & E2 & E3).
  fold v in E1, E2, E3. by rewrite E1, E2, E3, !chr_code.
Qed.

Lemma b64_val_digit v : 0 <= v < 16777216 ->
  (b64_val (b64_digit (v / 262144)) = Some (v / 262144) /\ b64_val (b64_digit (v / 4096 mod 64)) = Some (v / 4096 mod 64) /\
   b64_val (b64_digit (v / 64 mod 64)) = Some (v / 64 mod 64) /\ b64_val (b64_digit (v mod 64)) = Some (v mod 64)) /\
  (b64_digit (v mod 64) =? "=")%char = false /\ (b64_digit (v / 64 mod 64) =? "=")%char = false /\
  Forall plain [b64_digit (v / 262144); b64_digit (v / 4096 mod 64); b64_digit (v / 64 mod 64); b64_digit (v mod 64)].
Proof.
  intros Hv. destruct (digits_range v Hv) as (H1 & H2 & H3 & H4).
  apply b64_digit_val in H1 as (? & ? & ?), H2 as (? & ? & ?), H3 as (? & ? & ?), H4 as (? & ? & ?).
  rewrite !Forall_cons. by split_and!.
Qed.

Lemma plain_eq : plain "="%char.
Proof. vm_compute. split; discriminate. Qed.

Lemma b64_roundtrip n : forall b, (length b <= n)%nat ->
  b64_groups (b64_encode b) = Some b /\ Forall plain (b64_encode b) /\ length (b64_encode b) = (4 * ((length b + 2) / 3))%nat.
Proof.
  induction n as [|n IH]; intros b Hn; [destruct b; [by repeat constructor|simpl in Hn; lia]|].
  destruct b as [|x [|y [|z b]]]; [by repeat constructor|..].
  - pose proof (pack_range x (chr 0) (chr 0)) as Hv. pose proof (group3_bytes x (chr 0) (chr 0)) as Hg. cbn zeta in Hg.
    cbn [b64_encode]. replace (code x * 65536) with (code x * 65536 + code (chr 0) * 256 + code (chr 0)) by (rewrite !code_chr by lia; lia).
    set (v := code x * 65536 + code (chr 0) * 256 + code (chr 0)) in *.
    destruct (b64_val_digit v Hv) as ((E1 & E2 & _ & _) & _ & _ & Hp). cbn [b64_groups]. rewrite E1, E2. cbn.
    assert (Hz : v / 64 mod 64 = 0 /\ v mod 64 = 0).
    { unfold v. rewrite !code_chr by lia. replace (code x * 65536 + 0 * 256 + 0) with (code x * 16 * 64 * 64) by lia.
      rewrite Z.div_mul, !Z.mod_mul by lia. done. }
    destruct Hz as [Z1 Z2]. rewrite Z1, Z2 in Hg. unfold group3 in Hg. injection Hg as Hx _. rewrite Hx. split_and!; [done| |done].
    rewrite !Forall_cons in Hp |- *. pose proof plain_eq. by destruct_and!; split_and!.
  - pose proof (pack_range x y (chr 0)) as Hv. pose proof (group3_bytes x y (chr 0)) as Hg. cbn zeta in Hg.
    cbn [b64_encode]. replace (code x * 65536 + code y * 256) with (code x * 65536 + code y * 256 + code (chr 0)) by (rewrite code_chr by lia; lia).
    set (v := code x * 65536 + code y * 256 + code (chr 0)) in *.
    destruct (b64_val_digit v Hv) as ((E1 & E2 & E3 & _) & _ & E4 & Hp). cbn [b64_groups]. rewrite E1, E2. cbn [mbind option_bind Ascii.eqb].
    change (("=" =? "=")%char) with true. cbn iota. rewrite bool_decide_eq_true_2 by done. rewrite E4, E3. cbn [mbind option_bind].
    assert (Z2 : v mod 64 = 0).
    { unfold v. rewrite code_chr by lia. replace (code x * 65536 + code y * 256 + 0) with ((code x * 1024 + code y * 4) * 64) by lia.
      by rewrite Z.mod_mul. }
    rewrite Z2 in Hg. rewrite Hg. split_and!; [done| |done].
    rewrite !Forall_cons in Hp |- *. pose proof plain_eq. by destruct_and!; split_and!.
  - pose proof (pack_range x y z) as Hv. pose proof (group3_bytes x y z) as Hg. cbn zeta in Hg. cbn [b64_encode].
    set (v := code x * 65536 + code y * 256 + code z) in *.
    destruct (b64_val_digit v Hv) as ((E1 & E2 & E3 & E4) & E5 & _ & Hp). destruct (IH b) as (IH1 & IH2 & IH3); [simpl in Hn; lia|].
    cbn [app b64_groups]. rewrite E1, E2. cbn [mbind option_bind]. rewrite E5, E3, E4, IH1. cbn [mbind option_bind]. rewrite Hg.
    split_and!; [done| |].
    + change (b64_digit (v / 262144) :: b64_digit (v / 4096 mod 64) :: b64_digit (v / 64 mod 64) :: b64_digit (v mod 64) :: b64_encode b)
        with ([b64_digit (v / 262144); b64_digit (v / 4096 mod 64); b64_digit (v / 64 mod 64); b64_digit (v mod 64)] ++ b64_encode b).
      by apply Forall_app.
    + cbn [length]. rewrite IH3. replace (S (S (S (length b))) + 2)%nat with (length b + 2 + 1 * 3)%nat by lia.
      rewrite Nat.div_add by lia. lia.
Qed.

Lemma b64_decode_plain s : Forall plain s -> b64_decode s = b64_groups s.
Proof.
  intros H. unfold b64_decode. f_equal. induction H as [|c s Hc _ IH]; [done|]. unfold plain in Hc.
  rewrite filter_cons_True, IH; [done|lia].
Qed.

Lemma hex_decode_length s : forall b, hex_decode s = Some b -> length s = (2 * length b)%nat.
Proof.
  assert (H : forall n s b, (length s <= n)%nat -> hex_decode s = Some b -> length s = (2 * length b)%nat).
  { induction n as [|n IH]; intros [|x [|y t]] b Hn Hd; try done; try (by injection Hd as <-); [simpl in Hn; lia|].
    cbn [hex_decode] in Hd. apply bind_Some in Hd as (? & _ & Hd). apply bind_Some in Hd as (? & _ & Hd).
    apply bind_Some in Hd as (r & Hr & [= <-]). cbn [length]. rewrite (IH t r) by (done || simpl in Hn; lia). lia. }
  intros b. by apply (H (length s)).
Qed.

Lemma parse_trimmed s : trimmed s -> to_bytes (TrimSpace (of_bytes s)) = s.
Proof. intros H. unfold TrimSpace. by rewrite !to_of_bytes, trim_trimmed. Qed.

Lemma index_byte_take s i : Net.index_byte LF s = Some i -> Forall (fun c => c <> LF) (take i s).
Proof.
  unfold Net.index_byte. intros ([j x] & Hf & ->)%fmap_Some. apply list_find_Some in Hf as (Hx & _ & Hno).
  apply Forall_forall. intros c Hc ->. apply list_elem_of_lookup in Hc as [k Hk]. apply lookup_take_Some in Hk as [Hk Hlt].
  by eapply Hno.
Qed.

Lemma no_lf_sub s t : (forall c, c ∈ t -> c ∈ s) -> Forall (fun c => c <> LF) s -> Forall (fun c => c <> LF) t.
Proof. intros Hs Hf. apply Forall_forall. intros c Hc. eapply Forall_forall in Hf; [exact Hf|]. by apply Hs. Qed.

Lemma drop_sub n (s : bytes) c : c ∈ drop n s -> c ∈ s.
Proof. intros H. rewrite <- (take_drop n s). apply elem_of_app. by right. Qed.

Lemma take_sub n (s : bytes) c : c ∈ take n s -> c ∈ s.
Proof. intros H. rewrite <- (take_drop n s). apply elem_of_app. by left. Qed.

Lemma trim_bytes_sub s c : c ∈ trim_bytes s -> c ∈ s.
Proof.
  unfold trim_bytes. intros Hc. apply list_elem_of_In, in_rev, list_elem_of_In in Hc.
  destruct (trim_left_drop (@rev ascii <$> space_seqs) (length (trim_left space_seqs (length s) s))
    (rev (trim_left space_seqs (length s) s))) as [n Hn]. rewrite Hn in Hc.
  apply drop_sub, list_elem_of_In, in_rev, list_elem_of_In in Hc.
  destruct (trim_left_drop space_seqs (length s) s) as [m Hm]. rewrite Hm in Hc. by apply drop_sub in Hc.
Qed.

(** What is accepted is a key of 32 bytes. *)
Lemma parseAESKey_length material k : parseAESKey material = inl k -> length k = 32%nat.
Proof.
  unfold parseAESKey. set (s := to_bytes _). destruct (Nat.eqb_spec (length s) 64) as [E|_].
  { destruct (hex_decode s) as [b|] eqn:Ed; [|done]. intros [= <-]. apply hex_decode_length in Ed. lia. }
  destruct (Nat.eqb_spec (length s) 32) as [E|_]; [by intros [= <-]|].
  destruct (b64_decode s) as [b|]; [|done]. destruct (Nat.eqb_spec (length b) 32); [by intros [= <-]|done].
Qed.

(** ** Theorems *)

(** A key is read back from each of the forms it may be written in:
    hexadecimal in either case, base64, and the bytes themselves when no white
    space is at their ends; and whatever is accepted is a key of 32 bytes. *)
Theorem aes_key_read_back key upper :
  length key = 32%nat ->
  parseAESKey (of_bytes (hex_encode upper key)) = inl key /\ parseAESKey (of_bytes (b64_encode key)) = inl key /\
  (trimmed key -> parseAESKey (of_bytes key) = inl key) /\
  forall material k, parseAESKey material = inl k -> length k = 32%nat.
Proof.
  intros Hk. destruct (hex_roundtrip upper key) as (Hh & Hhp & Hhl). destruct (b64_roundtrip 32 key) as (Hb & Hbp & Hbl); [lia|].
  unfold parseAESKey. split_and!.
  - rewrite parse_trimmed by (by apply all_plain_trimmed). by rewrite Hhl, Hk, Hh.
  - rewrite parse_trimmed by (by apply all_plain_trimmed). rewrite Hbl, Hk, b64_decode_plain, Hb by done. cbn. by rewrite Hk.
  - intros Ht. rewrite parse_trimmed by done. by rewrite Hk.
  - apply parseAESKey_length.
Qed.

(** The vault never holds the start up: the caller waits at most the timeout in
    force, however long the tool runs; a malformed reference starts nothing; a
    value that is returned is not empty and has no white space at its ends; and
    the detail of a failure is one line of bounded length. *)
Theorem op_resolve_bounded timeout run ref r waited started :
  opResolve timeout run ref = (r, waited, started) -> 0 <= took run ->
  waited <= (if timeout <=? 0 then DefaultOPTimeout else timeout) /\
  (started = false <-> exists e, parseOPRef ref = inr e) /\
  match r with
  | inl v => v <> ""%string /\ TrimSpace v = v /\ err run = None /\ v = of_bytes (trim_bytes (out run))
  | inr (_, Exited _ detail) => (length detail <= 203)%nat /\ Forall (fun c => c <> LF) detail
  | inr _ => True
  end.
Proof.
  unfold opResolve. intros H Ht. set (eff := if timeout <=? 0 then _ else _) in *.
  assert (Heff : 0 < eff) by (unfold eff, DefaultOPTimeout, Second; destruct (Z.leb_spec timeout 0); lia).
  destruct (parseOPRef ref) as [p|e]; [|injection H as <- <- <-; split_and!; [lia|split; eauto|done]].
  assert (Hst : true = false <-> exists e, inl p = inr e :> (bytes * bytes * bytes + SecretError)%type)
    by (split; [done|by intros [? ?]]).
  destruct (Z.leb_spec eff (took run)); [injection H as <- <- <-; by split_and!|].
  destruct (err run) as [e|]; revgoals.
  - destruct (String.eqb_spec (of_bytes (trim_bytes (out run))) "") as [E|E]; injection H as <- <- <-; [by split_and!; [lia|..]|].
    split_and!; [lia|exact Hst|done| |done|done]. unfold TrimSpace. by rewrite to_of_bytes, trim_bytes_idemp.
  - injection H as <- <- <-. split_and!; [lia|done|]. destruct e as [| | |c stderr|]; try done. cbn. unfold boundedDetail.
    set (s := match Net.index_byte LF (trim_bytes stderr) with Some i => _ | None => _ end).
    assert (Hs : Forall (fun c => c <> LF) s).
    { unfold s. destruct (Net.index_byte LF (trim_bytes stderr)) as [i|] eqn:Ei.
      - eapply no_lf_sub; [apply trim_bytes_sub|]. by apply index_byte_take.
      - unfold Net.index_byte in Ei. apply fmap_None, list_find_None in Ei. done. }
    destruct (Nat.ltb_spec maxCLIErrDetail (length s)) as [Hl|Hl]; unfold maxCLIErrDetail in *.
    + split; [rewrite length_app, length_take; change (length (to_bytes "...")) with 3%nat; lia|]. apply Forall_app. split; [|repeat constructor; discriminate].
      eapply no_lf_sub; [|exact Hs]. intros x. apply take_sub.
    + split; [lia|done].
Qed.

(** ** Examples and witnesses *)

Definition ex_key : bytes := (fun k => byte (k + 1)) <$> seq 0 32.

(** 32 raw bytes that end in white space are not accepted. *)
Example raw_key_trimmed :
  parseAESKey (of_bytes (take 31 (replicate 31 "k"%char) ++ [LF])) = inr (KeyShape 31).
Proof. vm_compute. reflexivity. Qed.

Lemma aes_key_read_back_witness : parseAESKey (of_bytes (b64_encode ex_key)) = inl ex_key.
Proof. apply (aes_key_read_back ex_key true). vm_compute. reflexivity. Defined.

Lemma op_resolve_bounded_witness :
  (opResolve 0 {| took := 60 * Second; out := []; err := None |} "op://v/i/f").1.2 <= DefaultOPTimeout.
Proof.
  refine (proj1 (op_resolve_bounded 0 {| took := 60 * Second; out := []; err := None |} "op://v/i/f" _ _
    (opResolve 0 {| took := 60 * Second; out := []; err := None |} "op://v/i/f").2 _ _)); [|vm_compute; discriminate].
  rewrite <- surjective_pairing. apply surjective_pairing.
Defined.

End KeyMaterial.
