(* ===== verification/SecretText.v ===== *)
(** * What is said about a credential that does not resolve

    The texts of [src/internal/channel/secret.go]: [SecretError.Error] with
    [safeRef], the detail each provider adds, and the permission warning of
    [warnOnLoosePermissions].  The theorem is that they say nothing of the secret:
    a failure reads the same whatever the source holds. *)

From Stdlib Require Import ZArith Lia Ascii String.
From stdpp Require Import base option list strings.
From S2P Require Import Prelude GoStrings Utf8 Strconv JsonIndent Net Secret KeyMaterial.

Module SecretText.
Import GoStrings Secret.

(** ** Rendering *)

Definition itoa (z : Z) : string := of_bytes (Strconv.Itoa z).

Definition cause_text (c : cause) : string :=
  match c with
  | ErrNoSecretSource => "no credential source configured"
  | ErrSecretRefInvalid => "malformed secret reference"
  | ErrSecretNotFound => "secret source absent"
  | ErrSecretEmpty => "secret resolved to an empty value"
  | ErrSecretUnavailable => "secret backend unavailable"
  end.

Definition safeRef_text (ref : string) : string :=
  match safeRef ref with
  | Redacted n => "<unrecognised reference, " ++ itoa (Z.of_nat n) ++ " bytes, redacted>"
  | Shown s => of_bytes s
  | Clipped s => of_bytes s ++ "..."
  end.

(** [cause] is the text of the wrapped error. *)
Definition Error (isPrint : Z -> bool) (ref cause detail : string) : string :=
  let head := ("secret " ++ Quote.Quote isPrint (safeRef_text ref) ++ ": " ++ cause)%string in
  if detail =s "" then head else (head ++ ": " ++ detail)%string.

(** ** The details *)

Definition env_detail (lookup : string -> option string) (ref : string) : string :=
  if TrimPrefix ref SchemeEnv =s "" then "environment variable name is empty"
  else match lookup (TrimPrefix ref SchemeEnv) with
       | None => "environment variable is not set"
       | Some _ => "environment variable holds only whitespace"
       end.

Definition file_detail (read : string -> readResult) (ref : string) : string :=
  if TrimPrefix ref SchemeFile =s "" then "file path is empty"
  else match read (TrimPrefix ref SchemeFile) with
       | ReadNotExist => "file does not exist"
       | ReadPermission => "file is not readable"
       | ReadOther => "file could not be read"
       | ReadOK _ => "file holds only whitespace"
       end.

Definition scheme_detail (ref : string) : string :=
  if negb (HasPrefix ref SchemeOP) then of_bytes (to_bytes "reference must begin with " ++ [byte 34] ++ to_bytes SchemeOP ++ [byte 34])
  else
    let parts := Net.split "/" (to_bytes (TrimPrefix ref SchemeOP)) in
    if negb (Nat.eqb (length parts) opRefSegments) then
      "expected op://<vault>/<item>/<field> with 3 segments, got " ++ itoa (Z.of_nat (length parts))
    else
      match list_find (fun seg => Nat.eqb (length seg) 0 || unusableRef seg = true) parts with
      | Some (_, []) => "vault, item and field must all be non-empty"
      | _ => "vault, item and field must not contain whitespace or control characters"
      end.

Definition op_detail (ref : string) (d : KeyMaterial.opDetail) : string :=
  match d with
  | KeyMaterial.TimedOut => "op read timed out; the vault may be locked or awaiting biometric approval"
  | KeyMaterial.ChildHoldsPipe =>
      "op left a child process holding its output pipe; the read was abandoned after 2s rather than blocking startup"
  | KeyMaterial.CLINotFound => of_bytes (to_bytes "the " ++ [byte 34] ++ to_bytes "op" ++ [byte 34] ++ to_bytes " 1Password CLI was not found on PATH")
  | KeyMaterial.Exited c detail => "op exited " ++ itoa c ++ ": " ++ of_bytes detail
  | KeyMaterial.NotExecuted => "op read could not be executed"
  | KeyMaterial.NoValue => "op read returned no value"
  | KeyMaterial.BadRef => scheme_detail ref
  end.

Definition op_cause (e : SecretError) (d : KeyMaterial.opDetail) : string :=
  match d with
  | KeyMaterial.TimedOut => cause_text (ECause e) ++ ": context deadline exceeded"
  | _ => cause_text (ECause e)
  end.

(** ** The messages *)

Definition env_message (isPrint : Z -> bool) (lookup : string -> option string) (ref : string) : option string :=
  match envResolve lookup ref with inl _ => None | inr e => Some (Error isPrint (ERef e) (cause_text (ECause e)) (env_detail lookup ref)) end.

Definition file_message (isPrint : Z -> bool) (read : string -> readResult) (perm : string -> option Z) (ref : string) : option string :=
  match (fileResolve read perm ref).1 with
  | inl _ => None
  | inr e => Some (Error isPrint (ERef e) (cause_text (ECause e)) (file_detail read ref))
  end.

Definition op_message (isPrint : Z -> bool) (timeout : Duration) (run : KeyMaterial.opRun) (ref : string) : option string :=
  match (KeyMaterial.opResolve timeout run ref).1.1 with
  | inl _ => None
  | inr (e, d) => Some (Error isPrint (ERef e) (op_cause e d) (op_detail ref d))
  end.

(** [%04o] of a mode. *)
Definition octal4 (m : Z) : bytes :=
  List.map (fun i => Utf8.chr (48 + m / 8 ^ Z.of_nat i mod 8)) (rev (seq 0 4)).

Definition warnOnLoosePermissions (perm : string -> option Z) (ref path : string) : option string :=
  match perm path with
  | None => None
  | Some mode =>
      if Z.land mode nonOwnerPerm =? 0 then None
      else Some ("helixchannel: SECURITY: credential file for " ++ safeRef_text ref ++ " is mode " ++ of_bytes (octal4 mode) ++
                 " - group or other can read or write it, so the filesystem is no longer protecting this key; chmod 600 it and rotate the key if the host is shared")%string
  end.

(** [NewDefaultSecretProvider]. *)
Definition NewDefaultSecretProvider (lookup : string -> option string) (read : string -> readResult) (perm : string -> option Z)
    (run : string -> KeyMaterial.opRun) : Resolver :=
  newResolver (<[SchemeEnv := envResolve lookup]> (<[SchemeFile := fun ref => (fileResolve read perm ref).1]>
    (<[SchemeOP := fun ref => match (KeyMaterial.opResolve KeyMaterial.DefaultOPTimeout (run ref) ref).1.1 with inl v => inl v | inr (e, _) => inr e end]> ∅))).

(** ** Properties *)

(** Two sources that differ in nothing but what they hold. *)
Definition same_kind (a b : readResult) : Prop :=
  match a, b with
  | ReadOK _, ReadOK _ | ReadNotExist, ReadNotExist | ReadPermission, ReadPermission | ReadOther, ReadOther => True
  | _, _ => False
  end.

(** Whatever each printed on its standard output, whether or not it failed. *)
Definition same_run (a b : KeyMaterial.opRun) : Prop :=
  KeyMaterial.took a = KeyMaterial.took b /\ KeyMaterial.err a = KeyMaterial.err b.

(** C23: A failure says nothing of the secret: with two environments, two files or two
    runs of the vault tool that differ only in the value (for the tool: in all it
    printed on standard output, in a run that failed as in one that did not; the
    time it took and the error, with the standard error it carries, being the
    same), a reference that fails with both fails with the same text. *)
Theorem failures_say_nothing_of_the_secret isPrint ref :
  (forall l l' m m', (l (TrimPrefix ref SchemeEnv) = None <-> l' (TrimPrefix ref SchemeEnv) = None) ->
     env_message isPrint l ref = Some m -> env_message isPrint l' ref = Some m' -> m = m') /\
  (forall r r' p p' m m', same_kind (r (TrimPrefix ref SchemeFile)) (r' (TrimPrefix ref SchemeFile)) ->
     file_message isPrint r p ref = Some m -> file_message isPrint r' p' ref = Some m' -> m = m') /\
  (forall t a b m m', same_run a b -> op_message isPrint t a ref = Some m -> op_message isPrint t b ref = Some m' -> m = m').
Proof.
  split_and!.
  - intros l l' m m' Hs. unfold env_message, envResolve, env_detail. destruct (_ =s ""); [intros; congruence|].
    destruct (l _), (l' _); try (by destruct Hs as [Hs1 Hs2]; first [discriminate (Hs1 eq_refl)|discriminate (Hs2 eq_refl)]); [|intros; congruence].
    destruct (TrimSpace _ =s ""), (TrimSpace _ =s ""); intros; congruence.
  - intros r r' p p' m m' Hs. unfold file_message, fileResolve, file_detail. destruct (_ =s ""); [cbn; intros; congruence|].
    destruct (r _), (r' _); try done; cbn [fst]; try (intros; congruence).
    destruct (TrimSpace _ =s ""), (TrimSpace _ =s ""); cbn [fst]; intros; congruence.
  - intros t a b m m' [Ht Ho]. unfold op_message, KeyMaterial.opResolve. destruct (parseOPRef ref) as [[[v i] f]|e]; [|cbn; intros; congruence].
    rewrite <- Ht. destruct (_ <=? KeyMaterial.took a); [cbn [fst]; intros; congruence|].
    rewrite <- Ho. destruct (KeyMaterial.err a); [cbn [fst]; intros; congruence|].
    destruct (_ =s ""), (_ =s ""); cbn [fst]; intros; congruence.
Qed.

(** The default resolver dispatches each scheme to its provider. *)
Lemma default_dispatch lookup read perm run ref p :
  providerFor (NewDefaultSecretProvider lookup read perm run) ref = inl p ->
  (HasPrefix ref SchemeEnv = true /\ p = envResolve lookup) \/
  (HasPrefix ref SchemeFile = true /\ p = fun ref => (fileResolve read perm ref).1) \/
  HasPrefix ref SchemeOP = true.
Proof.
  unfold providerFor, schemeOf. destruct (refScheme ref) as [sch|] eqn:E; [|done]. unfold refScheme in E.
  apply List.find_some in E as [Hin Hp]. simpl in Hin. destruct Hin as [<-|[<-|[<-|[]]]]; intros H; vm_compute in H; injection H as <-; auto.
Qed.

(** ** Witnesses *)

Definition ex_failed_run (printed : string) : KeyMaterial.opRun :=
  {| KeyMaterial.took := Second; KeyMaterial.out := to_bytes printed; KeyMaterial.err := Some (KeyMaterial.OpExit 1 (to_bytes "locked")) |}.

Lemma failures_say_nothing_of_the_secret_witness :
  let m := op_message (fun _ => true) 0 (ex_failed_run "s3cret") "op://v/i/f" in
  op_message (fun _ => true) 0 (ex_failed_run "hunter2") "op://v/i/f" = m /\ is_Some m.
Proof.
  destruct (failures_say_nothing_of_the_secret (fun _ => true) "op://v/i/f") as (_ & _ & H).
  split; [|vm_compute; eauto].
  specialize (H 0 (ex_failed_run "s3cret") (ex_failed_run "hunter2") _ _ ltac:(by split) eq_refl eq_refl).
  vm_compute. reflexivity.
Defined.

Example ex_message :
  file_message (fun _ => true) (fun _ => ReadNotExist) (fun _ => None) "file:/etc/key" =
    Some (of_bytes (to_bytes "secret " ++ [byte 34] ++ to_bytes "file:/etc/key" ++ [byte 34] ++ to_bytes ": secret source absent: file does not exist")).
Proof. vm_compute. reflexivity. Qed.

Example ex_warning :
  warnOnLoosePermissions (fun _ => Some 420) "file:/etc/key" "/etc/key" =
    Some ("helixchannel: SECURITY: credential file for file:/etc/key is mode 0644 - group or other can read or write it, so the filesystem is no longer protecting this key; chmod 600 it and rotate the key if the host is shared")%string /\
  warnOnLoosePermissions (fun _ => Some 384) "file:/etc/key" "/etc/key" = None.
Proof. vm_compute. done. Qed.

End SecretText.
