(* ===== verification/Flags.v ===== *)
(** * Command-line flags

    The parts of [flag], [strconv] and [time] the subcommands of
    [src/cmd/helixchannel] parse their arguments with: a [FlagSet] with
    [ContinueOnError], [strconv.ParseBool] and [time.ParseDuration]. *)

From Stdlib Require Import ZArith Lia Ascii String SpecFloat.
From stdpp Require Import base option list gmap strings.
From S2P Require Import Prelude GoStrings Utf8 Net Float64.

Module Flags.
Import GoStrings.

(** ** Values *)

Definition true_words : list string := ["1"; "t"; "T"; "true"; "TRUE"; "True"]%string.
Definition false_words : list string := ["0"; "f"; "F"; "false"; "FALSE"; "False"]%string.

(** [strconv.ParseBool]. *)
Definition ParseBool (s : string) : option bool :=
  if existsb (String.eqb s) true_words then Some true
  else if existsb (String.eqb s) false_words then Some false
  else None.

(** [leadingInt] of [time]: digits up to 2^63, and the rest. *)
Fixpoint leadingInt (x : Z) (s : bytes) : option (Z * bytes) :=
  match s with
  | c :: s' =>
      if is_digit c then
        if 2 ^ 63 / 10 <? x then None
        else let x := x * 10 + digit_val c in if 2 ^ 63 <? x then None else leadingInt x s'
      else Some (x, s)
  | [] => Some (x, s)
  end.

(** [leadingFraction] of [time]: digits that no longer fit are skipped. *)
Fixpoint leadingFraction (x : Z) (scale : Float64.float64) (overflow : bool) (s : bytes) : Z * Float64.float64 * bytes :=
  match s with
  | c :: s' =>
      if is_digit c then
        if overflow then leadingFraction x scale true s'
        else if (2 ^ 63 - 1) / 10 <? x then leadingFraction x scale true s'
        else let y := x * 10 + digit_val c in
          if 2 ^ 63 <? y then leadingFraction x scale true s'
          else leadingFraction y (Float64.mul scale (Float64.of_int 10)) false s'
      else (x, scale, s)
  | [] => (x, scale, s)
  end.

Definition Microsecond : Duration := 1000.
Definition Millisecond : Duration := 1000000.

(** [unitMap], with the two spellings of the micro sign. *)
Definition unitMap : list (bytes * Duration) :=
  [(to_bytes "ns", Nanosecond); (to_bytes "us", Microsecond); ([byte 194; byte 181; byte 115], Microsecond);
   ([byte 206; byte 188; byte 115], Microsecond); (to_bytes "ms", Millisecond); (to_bytes "s", Second);
   (to_bytes "m", Minute); (to_bytes "h", Hour)].

Definition unit_of (u : bytes) : option Duration :=
  p ← list_find (fun kv => kv.1 = u) unitMap; Some p.2.2.

(** [uint64(f)] of a finite non-negative float64: truncation. *)
Definition to_uint (f : Float64.float64) : Z :=
  match f with
  | S754_finite _ m e => if 0 <=? e then Zpos m * 2 ^ e else Z.shiftr (Zpos m) (- e)
  | _ => 0
  end.

Definition unit_char (c : ascii) : bool := negb (Ascii.eqb c "." || is_digit c).

(** One number with its unit, in nanoseconds, and the rest. *)
Definition one_part (s : bytes) : option (Z * bytes) :=
  match s with
  | [] => None
  | c :: _ =>
      if negb (Ascii.eqb c "." || is_digit c) then None
      else
        '(v, s1) ← leadingInt 0 s;
        let pre := negb (Nat.eqb (length s1) (length s)) in
        let '(f, scale, s2, post) :=
          match s1 with
          | d :: s1' =>
              if Ascii.eqb d "." then
                let '(f, scale, s2) := leadingFraction 0 Float64.one false s1' in
                (f, scale, s2, negb (Nat.eqb (length s2) (length s1')))
              else (0, Float64.one, s1, false)
          | [] => (0, Float64.one, s1, false)
          end in
        if negb pre && negb post then None
        else
          let '(u, s3) := span unit_char s2 in
          unit ← unit_of u;
          if 2 ^ 63 / unit <? v then None
          else
            let v := v * unit in
            let v := if 0 <? f
              then wrapu64 (v + to_uint (Float64.mul (Float64.of_int f) (Float64.div (Float64.of_int unit) scale)))
              else v in
            if (0 <? f) && (2 ^ 63 <? v) then None else Some (v, s3)
  end.

(** The loop over the parts; each consumes at least its unit. *)
Fixpoint parts (fuel : nat) (d : Z) (s : bytes) : option Z :=
  match s, fuel with
  | [], _ => Some d
  | _, O => None
  | _, S fuel =>
      '(v, s') ← one_part s;
      let d := wrapu64 (d + v) in
      if 2 ^ 63 <? d then None else parts fuel d s'
  end.

(** [time.ParseDuration]. *)
Definition ParseDuration (str : string) : option Duration :=
  let s := to_bytes str in
  let '(neg, s) :=
    match s with
    | c :: s' => if Ascii.eqb c "-" then (true, s') else if Ascii.eqb c "+" then (false, s') else (false, s)
    | [] => (false, s)
    end in
  if bool_decide (s = to_bytes "0") then Some 0
  else if bool_decide (s = []) then None
  else
    d ← parts (length s) 0 s;
    if neg : bool then Some (wrap64 (- d)) else if 2 ^ 63 - 1 <? d then None else Some d.

(** ** Flag sets *)

Inductive value := VStr (s : string) | VBool (b : bool) | VDur (d : Duration).

(** The declared flags with the value each holds, and the ones that were set. *)
Record FlagSet := { formal : gmap string value; actual : gset string }.

Definition NewFlagSet (defs : list (string * value)) : FlagSet :=
  {| formal := list_to_map defs; actual := ∅ |}.

Inductive flagError :=
  | BadFlagSyntax (arg : string) | ErrHelp | NotDefined (name : string)
  | InvalidBoolean (name value : string) | NeedsArgument (name : string) | InvalidValue (name value : string).

(** [Value.Set] of the three kinds. *)
Definition set_value (old : value) (s : string) : option value :=
  match old with
  | VStr _ => Some (VStr s)
  | VBool _ => VBool <$> ParseBool s
  | VDur _ => VDur <$> ParseDuration s
  end.

Definition is_bool (v : value) : bool := match v with VBool _ => true | _ => false end.

(** What an argument is: a positional argument, the terminator, or a flag with
    its name and the value after an equals sign. *)
Inductive shape := Positional | Terminator | BadShape | FlagArg (name : string) (val : option string).

Definition arg_shape (arg : string) : shape :=
  match to_bytes arg with
  | a :: b :: rest =>
      if negb (Ascii.eqb a "-") then Positional
      else
        let double := Ascii.eqb b "-" in
        let name := if double then rest else b :: rest in
        if double && bool_decide (rest = []) then Terminator
        else
          match name with
          | c :: tail =>
              if Ascii.eqb c "-" || Ascii.eqb c "=" then BadShape
              else
                match Net.index_byte "=" tail with
                | Some i => FlagArg (of_bytes (c :: take i tail)) (Some (of_bytes (drop (S i) tail)))
                | None => FlagArg (of_bytes name) None
                end
          | [] => BadShape
          end
  | _ => Positional
  end.

Definition mark (fs : FlagSet) (name : string) (v : value) : FlagSet :=
  {| formal := <[name := v]> (formal fs); actual := {[name]} ∪ actual fs |}.

(** [FlagSet.Parse]: the set afterwards with the remaining arguments. *)
Fixpoint Parse (fs : FlagSet) (args : list string) : (FlagSet * list string) + flagError :=
  match args with
  | [] => inl (fs, [])
  | arg :: rest =>
      match arg_shape arg with
      | Positional => inl (fs, args)
      | Terminator => inl (fs, rest)
      | BadShape => inr (BadFlagSyntax arg)
      | FlagArg name val =>
          match formal fs !! name with
          | None => if (name =s "help") || (name =s "h") then inr ErrHelp else inr (NotDefined name)
          | Some old =>
              if is_bool old then
                match set_value old (default "true"%string val) with
                | Some v => Parse (mark fs name v) rest
                | None => inr (InvalidBoolean name (default ""%string val))
                end
              else
                match val, rest with
                | Some s, _ =>
                    match set_value old s with
                    | Some v => Parse (mark fs name v) rest
                    | None => inr (InvalidValue name s)
                    end
                | None, s :: rest' =>
                    match set_value old s with
                    | Some v => Parse (mark fs name v) rest'
                    | None => inr (InvalidValue name s)
                    end
                | None, [] => inr (NeedsArgument name)
                end
          end
      end
  end.

(** Reading a flag back. *)
Definition strOf (fs : FlagSet) (name : string) : string :=
  match formal fs !! name with Some (VStr s) => s | _ => "" end.
Definition boolOf (fs : FlagSet) (name : string) : bool :=
  match formal fs !! name with Some (VBool b) => b | _ => false end.
Definition durOf (fs : FlagSet) (name : string) : Duration :=
  match formal fs !! name with Some (VDur d) => d | _ => 0 end.
Definition applied (fs : FlagSet) (name : string) : bool := bool_decide (name ∈ actual fs).

(** ** What a command line sets

    An assignment is spelled [--name=text] or, unless the flag is boolean,
    [--name text]. *)

Record assignment := { AName : string; AText : string; ASeparate : bool }.

Definition dashes : bytes := ["-"; "-"]%char.

Definition spell (a : assignment) : list string :=
  if ASeparate a then [of_bytes (dashes ++ to_bytes (AName a)); AText a]
  else [of_bytes (dashes ++ to_bytes (AName a) ++ "="%char :: to_bytes (AText a))].

Definition flag_name (n : string) : Prop :=
  to_bytes n <> [] /\ head (to_bytes n) <> Some "-"%char /\ Forall (fun c => c <> "="%char) (to_bytes n).

Definition kind (v : value) : nat := match v with VStr _ => 0 | VBool _ => 1 | VDur _ => 2 end.

(** The assignment fits a flag of the set and gives it the value [v]. *)
Definition assigns (fs : FlagSet) (a : assignment) (v : value) : Prop :=
  flag_name (AName a) /\
  exists old, formal fs !! AName a = Some old /\ set_value old (AText a) = Some v /\ (ASeparate a = true -> is_bool old = false).

Definition apply_assignments (fs : FlagSet) (l : list (assignment * value)) : FlagSet :=
  foldl (fun fs av => mark fs (AName av.1) av.2) fs l.

Lemma index_byte_none c s : Forall (fun d => d <> c) s -> Net.index_byte c s = None.
Proof.
  intros H. unfold Net.index_byte. destruct (list_find _ s) as [[i d]|] eqn:E; [|done].
  apply list_find_Some in E as (Hi & -> & _). rewrite Forall_lookup in H. by apply H in Hi.
Qed.

Lemma index_byte_app c s t : Forall (fun d => d <> c) s -> Net.index_byte c (s ++ c :: t) = Some (length s).
Proof.
  intros H. unfold Net.index_byte.
  assert (E : list_find (fun d => d = c) (s ++ c :: t) = Some (length s, c)).
  { apply list_find_Some. split_and!; [by rewrite lookup_app_r, Nat.sub_diag by done|done|].
    intros i d Hi Hlt. rewrite lookup_app_l in Hi by done. rewrite Forall_lookup in H. by apply (H i). }
  by rewrite E.
Qed.

Lemma flag_name_cons n : flag_name n ->
  exists c t, to_bytes n = c :: t /\ Ascii.eqb c "-" = false /\ Ascii.eqb c "=" = false /\ Forall (fun c => c <> "="%char) t.
Proof.
  intros (Hn & Hd & He). destruct (to_bytes n) as [|c t]; [done|]. apply Forall_cons in He as [Hc Ht].
  exists c, t. split_and!; [done| | |done]; apply Ascii.eqb_neq; [|done]. intros ->. by apply Hd.
Qed.

Lemma shape_spelled n t : flag_name n ->
  arg_shape (of_bytes (dashes ++ to_bytes n)) = FlagArg n None /\
  arg_shape (of_bytes (dashes ++ to_bytes n ++ "="%char :: to_bytes t)) = FlagArg n (Some t).
Proof.
  intros (c & u & E & Hd & He & Hu)%flag_name_cons. rewrite <- (of_to_bytes n) at 2 4. rewrite E. unfold arg_shape. rewrite !to_of_bytes.
  cbn [app dashes]. rewrite Ascii.eqb_refl. cbn [negb andb]. rewrite !bool_decide_eq_false_2 by done.
  rewrite Hd, He, index_byte_none, index_byte_app by done. split; [done|]. cbn [orb].
  rewrite take_app_length, cons_middle, app_assoc.
  rewrite drop_app_length' by (rewrite length_app; simpl; lia). by rewrite of_to_bytes.
Qed.

Lemma set_value_kind old s v : set_value old s = Some v -> kind v = kind old.
Proof. destruct old; simpl; intros H; [by simplify_eq| |]; apply fmap_Some in H as (? & _ & ->); done. Qed.

Lemma set_value_same old v s : kind v = kind old -> set_value v s = set_value old s /\ is_bool v = is_bool old.
Proof. destruct old, v; simpl; try done; intros; split; reflexivity. Qed.

Lemma assigns_mark fs n v old a w :
  formal fs !! n = Some old -> kind v = kind old -> assigns fs a w -> assigns (mark fs n v) a w.
Proof.
  intros Hn Hk (Hname & o & Ho & Hset & Hsep). split; [done|]. cbn [formal mark].
  destruct (decide (AName a = n)) as [<-|Hne].
  - rewrite lookup_insert_eq. assert (o = old) as -> by congruence. exists v.
    destruct (set_value_same old v (AText a) Hk) as [-> ->]. done.
  - rewrite lookup_insert_ne by done. by exists o.
Qed.

(** What [Parse] does with one spelled assignment. *)
Lemma parse_spelled fs a v rest : assigns fs a v -> Parse fs (spell a ++ rest) = Parse (mark fs (AName a) v) rest.
Proof.
  intros (Hname & old & Ho & Hset & Hsep). destruct (shape_spelled (AName a) (AText a) Hname) as [H1 H2].
  unfold spell. destruct (ASeparate a); cbn [app Parse].
  - rewrite H1, Ho, Hsep, Hset by done. done.
  - rewrite H2, Ho. unfold default, id. destruct (is_bool old); by rewrite Hset.
Qed.

(** A command line of assignments sets exactly those flags, in order, and hands
    on what follows them. *)
Theorem parse_assignments (l : list (assignment * value)) : forall fs rest,
  Forall (fun av => assigns fs av.1 av.2) l ->
  match rest with [] => True | a :: _ => arg_shape a = Positional end ->
  Parse fs (concat ((fun av => spell av.1) <$> l) ++ rest) = inl (apply_assignments fs l, rest).
Proof.
  induction l as [|[a v] l IH]; intros fs rest Hl Hrest; cbn [fmap list_fmap concat app].
  - destruct rest as [|b rest]; [done|]. cbn [Parse app]. by rewrite Hrest.
  - apply Forall_cons in Hl as [Ha Hl]. rewrite <- app_assoc, (parse_spelled fs a v) by done.
    destruct Ha as (_ & old & Ho & Hset & _). rewrite IH; [done| |done].
    eapply Forall_impl; [exact Hl|]. intros [b w] Hb. cbn in *.
    eapply assigns_mark; [exact Ho|by eapply set_value_kind|done].
Qed.

(** ** Examples *)

Example ex_durations :
  ParseDuration <$> ["0"; "300ms"; "-1.5h"; "2h45m"; ".5s"; "1"; "s"; "9223372036854775807ns"; "9223372036854775808ns"; "-9223372036854775808ns"; "1e3s"; "+5s"; "1.0000000001s"]%string =
  [Some 0; Some 300000000; Some (-5400000000000); Some 9900000000000; Some 500000000; None; None; Some (2 ^ 63 - 1); None; Some (- 2 ^ 63); None; Some 5000000000; Some 1000000000].
Proof. vm_compute. reflexivity. Qed.

End Flags.
