(* ===== verification/SshTunnel.v ===== *)
(** * The SSH tunnel

    Models [src/internal/tunnel/tunnel.go]: the validation of a tunnel, the
    command line it gives to ssh, and a dial with what it leaves behind, the
    loopback listener and the child process.  Whether the port can be bound, the
    child started, and which of the three waits ends first are arguments. *)

From Stdlib Require Import ZArith Lia Ascii String.
From stdpp Require Import base option list strings.
From S2P Require Import Prelude GoStrings Strconv Float64 Flags.

Module SshTunnel.
Import GoStrings.

Record SSHTunnelConfig := {
  Host : string;
  User : string;
  IdentityFile : string;
  Port : Z;
  LocalPort : Z;
  ConnectTimeout : Duration;
}.

Inductive dialPhase := ListenLoopback | SSHStart | CtxDone | AcceptFailed | TimedOut.

Inductive tunnelError :=
  | HostRequired | UserRequired | IdentityFileRequired | LocalPortRange
  | UnsupportedNetwork (network : string)
  | ErrSSHNotInstalled
  | ErrSSHDial (at_ : dialPhase) (stderr : bytes)
  | OtherErr (isNetError : bool).

Definition Validate (c : SSHTunnelConfig) : option tunnelError :=
  if Host c =s "" then Some HostRequired
  else if User c =s "" then Some UserRequired
  else if IdentityFile c =s "" then Some IdentityFileRequired
  else if (LocalPort c <=? 0) || (65535 <? LocalPort c) then Some LocalPortRange
  else None.

(** [New]; [sshOnPath] is [exec.LookPath]. *)
Definition New (sshOnPath : bool) (c : SSHTunnelConfig) : option tunnelError :=
  match Validate c with
  | Some e => Some e
  | None => if sshOnPath then None else Some ErrSSHNotInstalled
  end.

(** [int(d.Seconds())]. *)
Definition whole_seconds (d : Duration) : Z :=
  match Float64.Seconds d with
  | SpecFloat.S754_finite true _ _ as f => - Flags.to_uint f
  | f => Flags.to_uint f
  end.

Definition effective_port (c : SSHTunnelConfig) : Z := if Port c =? 0 then 22 else Port c.
Definition effective_timeout (c : SSHTunnelConfig) : Duration := if ConnectTimeout c =? 0 then 10 * Second else ConnectTimeout c.

Definition itoa (z : Z) : string := of_bytes (Strconv.Itoa z).

Definition sshArgs (c : SSHTunnelConfig) (forwardPort : Z) : list string :=
  ["-N"; "-L"; itoa forwardPort ++ ":127.0.0.1:" ++ itoa (LocalPort c); "-i"; IdentityFile c;
   "-o"; "StrictHostKeyChecking=accept-new"; "-o"; "BatchMode=yes"; "-o"; "ExitOnForwardFailure=yes";
   "-o"; "ConnectTimeout=" ++ itoa (whole_seconds (effective_timeout c)); "-p"; itoa (effective_port c); User c ++ "@" ++ Host c]%string.

(** ** A dial *)

Inductive started := StartOK | StartNotFound | StartFailed.

(** Which of the three waits ends first, with what ssh had written. *)
Inductive awaited := Accepted | AcceptError | ContextDone | DeadlineFired.

Inductive child := NoChild | RunningChild (args : list string) | Reaped.

(** What a dial leaves behind. *)
Record left := { listenerOpen : bool; process : child }.

Definition nothing : left := {| listenerOpen := false; process := NoChild |}.

Record outside := {
  freePort : option Z;       (* net.Listen on 127.0.0.1:0 *)
  start : started;
  first : awaited;
  stderr : bytes;
}.

Inductive dialed := Conn | DialErr (e : tunnelError).

Definition DialContext (o : outside) (c : SSHTunnelConfig) (network : string) : dialed * left :=
  match Validate c with
  | Some e => (DialErr e, nothing)
  | None =>
      if negb (network =s "tcp") then (DialErr (UnsupportedNetwork network), nothing)
      else
        match freePort o with
        | None => (DialErr (ErrSSHDial ListenLoopback []), nothing)
        | Some port =>
            match start o with
            | StartNotFound => (DialErr ErrSSHNotInstalled, nothing)
            | StartFailed => (DialErr (ErrSSHDial SSHStart []), nothing)
            | StartOK =>
                match first o with
                | ContextDone => (DialErr (ErrSSHDial CtxDone (stderr o)), {| listenerOpen := false; process := Reaped |})
                | AcceptError => (DialErr (ErrSSHDial AcceptFailed (stderr o)), {| listenerOpen := true; process := Reaped |})
                | Accepted => (Conn, {| listenerOpen := true; process := RunningChild (sshArgs c port) |})
                | DeadlineFired => (DialErr (ErrSSHDial TimedOut (stderr o)), {| listenerOpen := false; process := Reaped |})
                end
            end
        end
  end.

(** [sshConn.Close]: the connection and the child, not the listener. *)
Definition Close (l : left) : left :=
  {| listenerOpen := listenerOpen l; process := match process l with RunningChild _ => Reaped | p => p end |}.

Definition IsSSHUnavailable (e : option tunnelError) : bool :=
  match e with
  | None => false
  | Some (ErrSSHNotInstalled | ErrSSHDial _ _) => true
  | Some (OtherErr isNetError) => isNetError
  | Some _ => false
  end.

(** ** Properties *)

(** A run that ended before or without a connection. *)
Ltac refused :=
  intros [= <- <-]; split_and!;
  [ split; [discriminate|intros (? & ? & [? ?] & ? & ?); by simplify_eq]
  | intros _; first [by left|by right]
  | first [by left|by right]
  | intros ? [= <-]; by intros ].

(** A dial returns a connection exactly when the tunnel is valid, the network is
    tcp, ssh started and something connected to the loopback port first; no
    failed dial leaves a child running, closing a connection reaps its child,
    and every failure after validation counts as the tunnel being unavailable. *)
Theorem dial_exact o c network r l :
  DialContext o c network = (r, l) ->
  (r = Conn <-> Validate c = None /\ network = "tcp"%string /\ is_Some (freePort o) /\ start o = StartOK /\ first o = Accepted) /\
  (r <> Conn -> process l = NoChild \/ process l = Reaped) /\
  (process (Close l) = NoChild \/ process (Close l) = Reaped) /\
  (forall e, r = DialErr e -> Validate c = None -> network = "tcp"%string -> IsSSHUnavailable (Some e) = true).
Proof.
  unfold DialContext. destruct (Validate c) as [e|]; [refused|].
  destruct (String.eqb_spec network "tcp") as [->|Hn]; cbn [negb]; [|refused].
  destruct (freePort o) as [port|]; [|refused].
  destruct (start o); [|refused..]. destruct (first o); [|refused..].
  intros [= <- <-]. split_and!; [|done|by right|done]. split; [|done]. intros _. by split_and!.
Qed.

(** A valid tunnel forwards to a port of the remote loopback, and its command
    line ends in the destination. *)
Theorem ssh_args_shape c port :
  Validate c = None ->
  1 <= LocalPort c <= 65535 /\ last (sshArgs c port) = Some (User c ++ "@" ++ Host c)%string /\
  sshArgs c port !! 2%nat = Some (itoa port ++ ":127.0.0.1:" ++ itoa (LocalPort c))%string /\
  Host c <> ""%string /\ User c <> ""%string /\ IdentityFile c <> ""%string.
Proof.
  unfold Validate. zbool; cbn [orb]; try done. intros _. by split_and!; try lia.
Qed.

(** A successful dial keeps its loopback listener open, also after the connection
    is closed, and so does a failed accept. *)
Theorem listener_outlives_dial o c network r l :
  DialContext o c network = (r, l) -> r = Conn \/ (exists s, r = DialErr (ErrSSHDial AcceptFailed s)) -> listenerOpen (Close l) = true.
Proof.
  assert (N : forall e, (forall s, e <> ErrSSHDial AcceptFailed s) -> ~ (DialErr e = Conn \/ exists s, DialErr e = DialErr (ErrSSHDial AcceptFailed s)))
    by (intros e He [[=]|(s & [= ->])]; by eapply He).
  unfold DialContext. destruct (Validate c) as [e|] eqn:Ev.
  { intros [= <- <-] [[=]|(s & [= ->])]. unfold Validate in Ev. by repeat case_match. }
  destruct (negb _); [intros [= <- <-] H; by apply N in H|].
  destruct (freePort o); [|intros [= <- <-] H; by apply N in H]. destruct (start o); [|intros [= <- <-] H; by apply N in H..].
  destruct (first o); intros [= <- <-] H; done || by apply N in H.
Qed.

(** ** Witnesses *)

Definition ex_tunnel : SSHTunnelConfig :=
  {| Host := "203.0.113.10"; User := "ubuntu"; IdentityFile := "/k"; Port := 0; LocalPort := 14443; ConnectTimeout := 2500000000 |}.

Definition ex_outside (f : awaited) : outside := {| freePort := Some 40001; start := StartOK; first := f; stderr := [] |}.

Example ex_args :
  sshArgs ex_tunnel 40001 = ["-N"; "-L"; "40001:127.0.0.1:14443"; "-i"; "/k"; "-o"; "StrictHostKeyChecking=accept-new"; "-o"; "BatchMode=yes";
    "-o"; "ExitOnForwardFailure=yes"; "-o"; "ConnectTimeout=2"; "-p"; "22"; "ubuntu@203.0.113.10"]%string.
Proof. vm_compute. reflexivity. Qed.

Lemma dial_exact_witness :
  exists l, DialContext (ex_outside DeadlineFired) ex_tunnel "tcp" = (DialErr (ErrSSHDial TimedOut []), l) /\ (process l = NoChild \/ process l = Reaped).
Proof.
  eexists. split; [reflexivity|].
  refine (proj1 (proj2 (dial_exact (ex_outside DeadlineFired) ex_tunnel "tcp" (DialErr (ErrSSHDial TimedOut [])) _ eq_refl)) _). discriminate.
Defined.

Lemma listener_outlives_dial_witness :
  exists l, DialContext (ex_outside Accepted) ex_tunnel "tcp" = (Conn, l) /\ listenerOpen (Close l) = true.
Proof.
  eexists. split; [reflexivity|]. refine (listener_outlives_dial (ex_outside Accepted) ex_tunnel "tcp" Conn _ eq_refl (or_introl eq_refl)).
Defined.

End SshTunnel.
