(* ===== verification/CheckKeys.v ===== *)
(** * Tool configuration and the key check

    Models [src/cmd/helixchannel/config.go] and
    [src/cmd/helixchannel/check_keys.go]: the YAML file with its environment
    overrides, and the subcommand that reads each configured 1Password entry and
    reports a verdict.  The YAML decoder, the environment, the file system and the
    [op] tool are arguments. *)

From Stdlib Require Import ZArith Lia Ascii String.
From stdpp Require Import base option list gmap strings.
From S2P Require Import Prelude GoStrings Strconv Net Secret Flags.

Module CheckKeys.
Import GoStrings Flags.

(** ** The configuration file *)

Record ConfigKeyRef := { KName : string; Vault : string; Item : string; Field : string }.

Record HelixChannelConfig := {
  Target : string;
  Model : string;
  TLSInsecure : bool;
  TimeoutSeconds : Z;
  Keys : list ConfigKeyRef;
}.

Definition DefaultConfig : HelixChannelConfig :=
  {| Target := "https://helixchannel.example.com/minimax/v1"; Model := "MiniMax-M3"; TLSInsecure := false;
     TimeoutSeconds := 30; Keys := [] |}.

Definition set_Target (c : HelixChannelConfig) (v : string) : HelixChannelConfig :=
  {| Target := v; Model := Model c; TLSInsecure := TLSInsecure c; TimeoutSeconds := TimeoutSeconds c; Keys := Keys c |}.
Definition set_Model (c : HelixChannelConfig) (v : string) : HelixChannelConfig :=
  {| Target := Target c; Model := v; TLSInsecure := TLSInsecure c; TimeoutSeconds := TimeoutSeconds c; Keys := Keys c |}.
Definition set_TLSInsecure (c : HelixChannelConfig) (v : bool) : HelixChannelConfig :=
  {| Target := Target c; Model := Model c; TLSInsecure := v; TimeoutSeconds := TimeoutSeconds c; Keys := Keys c |}.
Definition set_TimeoutSeconds (c : HelixChannelConfig) (v : Z) : HelixChannelConfig :=
  {| Target := Target c; Model := Model c; TLSInsecure := TLSInsecure c; TimeoutSeconds := v; Keys := Keys c |}.

(** The variable, trimmed; empty counts as unset. *)
Definition trimmedEnv (getenv : string -> string) (name : string) : string := TrimSpace (getenv name).

Definition mergeEnv (getenv : string -> string) (c : HelixChannelConfig) : HelixChannelConfig :=
  let v := trimmedEnv getenv "HELIXCHANNEL_TARGET" in
  let c := if v =s "" then c else set_Target c v in
  let v := trimmedEnv getenv "HELIXCHANNEL_MODEL" in
  let c := if v =s "" then c else set_Model c v in
  let v := trimmedEnv getenv "HELIXCHANNEL_TLS_INSECURE" in
  let c := if v =s "" then c else set_TLSInsecure c (default false (ParseBool v)) in
  let v := trimmedEnv getenv "HELIXCHANNEL_TIMEOUT" in
  if v =s "" then c
  else
    match Strconv.Atoi (to_bytes v) with
    | Some n => if 0 <? n then set_TimeoutSeconds c n else c
    | None => c
    end.

Inductive configError := NoSuchFile (path : string) | ReadFailed (path : string) | ParseFailed (path : string).

(** What a subcommand sees of its process: the environment, the files, and the
    YAML decoder, which fills a record that holds the defaults already. *)
Record World := {
  Getenv : string -> string;
  ReadFile : string -> Secret.readResult;
  YAML : string -> HelixChannelConfig -> option HelixChannelConfig;
}.

Definition sanityCheck (c : HelixChannelConfig) : HelixChannelConfig :=
  let c := if Target c =s "" then set_Target c (Target DefaultConfig) else c in
  let c := if Model c =s "" then set_Model c (Model DefaultConfig) else c in
  if TimeoutSeconds c <=? 0 then set_TimeoutSeconds c (TimeoutSeconds DefaultConfig) else c.

Definition LoadConfig (w : World) (path : string) : HelixChannelConfig + configError :=
  if path =s "" then inl (mergeEnv (Getenv w) DefaultConfig)
  else
    match ReadFile w path with
    | Secret.ReadNotExist => inr (NoSuchFile path)
    | Secret.ReadOK data =>
        match YAML w data DefaultConfig with
        | Some c => inl (mergeEnv (Getenv w) (sanityCheck c))
        | None => inr (ParseFailed path)
        end
    | _ => inr (ReadFailed path)
    end.

(** [Timeout], on the 64-bit product. *)
Definition Timeout (c : HelixChannelConfig) : Duration :=
  if TimeoutSeconds c <=? 0 then 30 * Second else i64_mul (TimeoutSeconds c) Second.

(** ** Verdicts and exit codes *)

Inductive verdict := pass | fail | skip.

#[export] Instance verdict_eq_dec : EqDecision verdict.
Proof. solve_decision. Defined.

Inductive cmdError :=
  | FlagFailed (e : flagError)
  | ConfigFailed (e : configError)
  | EncodeFailed
  | VerdictError (v : verdict)
  | OtherError (what : string).

(** [fail] of main.go: the exit status of a subcommand. *)
Definition verdict_code (v : verdict) : Z := match v with pass => 0 | fail => 1 | skip => 2 end.

Definition exit_code (e : option cmdError) : Z :=
  match e with None => 0 | Some (VerdictError v) => verdict_code v | Some _ => 1 end.

(** ** Reading one entry *)

Record checkKeyResult := {
  CName : string; CVault : string; CItem : string; CField : string;
  Status : verdict;
  ByteLength : Z;
  DurationMs : Z;
  ErrorClass : string;
  Hint : bytes;
}.

(** What the [op] tool and the temporary file do for one entry. *)
Record opTool := {
  opOnPath : bool;
  createTemp : option bytes;          (* the error text, if it fails *)
  opRead : string -> option bytes;    (* the combined output of a run that fails *)
  readTemp : string -> bytes + bytes; (* the bytes [op] wrote, or the error text *)
}.

Definition op_ref (k : ConfigKeyRef) : string :=
  ("op://" ++ Vault k ++ "/" ++ Item k ++ "/" ++ Field k)%string.

(** The row of an entry.  The deferred assignment of the duration runs after the
    result was copied out, so the row keeps a duration of zero. *)
Definition row (k : ConfigKeyRef) (s : verdict) (n : Z) (cls : string) (hint : bytes) : checkKeyResult :=
  {| CName := KName k; CVault := Vault k; CItem := Item k; CField := Field k; Status := s; ByteLength := n;
     DurationMs := 0; ErrorClass := cls; Hint := hint |}.

Definition hint_incomplete : bytes := to_bytes "config entry is missing vault/item/field; fix the YAML and re-run".
Definition hint_op_missing : bytes := to_bytes "install the 1Password CLI (`brew install 1password-cli` or apt) and re-auth".
Definition hint_not_found : bytes := to_bytes "1Password could not find the item/field; rotate the UUID pair and re-run".
Definition hint_unauth : bytes := to_bytes "op is not signed in; run `op signin` and re-run".
Definition hint_empty : bytes := to_bytes "op returned an empty secret; the item field may be unset or stale".

Definition probeOnePasswordKey (t : opTool) (k : ConfigKeyRef) : checkKeyResult :=
  if (Vault k =s "") || (Item k =s "") || (Field k =s "") then row k fail 0 "incomplete_ref" hint_incomplete
  else if negb (opOnPath t) then row k skip 0 "op_missing" hint_op_missing
  else
    match createTemp t with
    | Some e => row k fail 0 "tmp_create" e
    | None =>
        match opRead t (op_ref k) with
        | Some out =>
            let outStr := trim_bytes out in
            if contains outStr (to_bytes "isn't an item") then row k fail 0 "not_found" hint_not_found
            else if contains outStr (to_bytes "not signed in") then row k fail 0 "op_unauth" hint_unauth
            else row k fail 0 "op_nonzero" outStr
        | None =>
            match readTemp t (op_ref k) with
            | inr e => row k fail 0 "tmp_read" e
            | inl data =>
                let n := Z.of_nat (length data) in
                if n =? 0 then row k fail n "empty" hint_empty else row k pass n "" []
            end
        end
    end.

(** ** The working set *)

Definition defaultCheckKeys : list ConfigKeyRef :=
  [{| KName := "minimax"; Vault := "<vault-name>"; Item := "<item-uuid>"; Field := "tagc4supdfgjj3rujdpb67ygm" |}].

Definition dedupe_key (k : ConfigKeyRef) : string := (Vault k ++ "|" ++ Item k ++ "|" ++ Field k)%string.

Fixpoint dedupe_loop (seen : list string) (l : list ConfigKeyRef) : list ConfigKeyRef :=
  match l with
  | [] => []
  | k :: l =>
      if bool_decide (dedupe_key k ∈ seen) then dedupe_loop seen l
      else k :: dedupe_loop (dedupe_key k :: seen) l
  end.

Definition dedupeKeys (l : list ConfigKeyRef) : list ConfigKeyRef := dedupe_loop [] l.

(** The names of a comma-separated list. *)
Definition wanted (subset : string) : list string :=
  filter (fun n => n <> ""%string) (TrimSpace ∘ of_bytes <$> Net.split "," (to_bytes subset)).

Definition filterKeysByName (l : list ConfigKeyRef) (subset : string) : list ConfigKeyRef :=
  if subset =s "" then l else filter (fun k => KName k ∈ wanted subset) l.

(** ** The subcommand *)

Record checkKeysEnvelope := { EVerdict : verdict; EKeys : list checkKeyResult }.

(** The verdict so far and the next row. *)
Definition overall (v : verdict) (r : checkKeyResult) : verdict :=
  match Status r with
  | fail => if bool_decide (v = skip) then v else fail
  | skip => if bool_decide (v = pass) then skip else v
  | pass => v
  end.

Definition check_flags : FlagSet := NewFlagSet [("config", VStr ""); ("keys", VStr "")]%string.

Definition workingSet (c : HelixChannelConfig) (subset : string) : list ConfigKeyRef :=
  let working := dedupeKeys (defaultCheckKeys ++ Keys c) in
  if subset =s "" then working else filterKeysByName working subset.

(** The i-th entry is read by the i-th tool; [stdout] tells whether the envelope
    can be written. *)
Definition runCheckKeys (w : World) (tools : nat -> opTool) (stdout : bool) (args : list string)
  : option checkKeysEnvelope * option cmdError :=
  match Parse check_flags args with
  | inr e => (None, Some (FlagFailed e))
  | inl (fs, _) =>
      match LoadConfig w (strOf fs "config") with
      | inr e => (None, Some (ConfigFailed e))
      | inl cfg =>
          let working := workingSet cfg (strOf fs "keys") in
          let rows := imap (fun i k => probeOnePasswordKey (tools i) k) working in
          let v := foldl overall pass rows in
          if bool_decide (working = []) then
            (if stdout then Some {| EVerdict := skip; EKeys := [] |} else None, Some (VerdictError skip))
          else if negb stdout then (None, Some EncodeFailed)
          else
            (Some {| EVerdict := v; EKeys := rows |},
             match v with pass => None | _ => Some (VerdictError v) end)
      end
  end.

(** ** The verdict *)

(** The first row that is not a pass. *)
Definition first_failure (rows : list checkKeyResult) : verdict :=
  default pass ((fun p => Status p.2) <$> list_find (fun r => Status r <> pass) rows).

Lemma overall_stuck v rows : v <> pass -> foldl overall v rows = v.
Proof.
  intros Hv. induction rows as [|r rows IH]; [done|]. cbn [foldl].
  assert (overall v r = v) as ->; [|done]. unfold overall. by destruct v, (Status r).
Qed.

Lemma overall_first rows : foldl overall pass rows = first_failure rows.
Proof.
  induction rows as [|r rows IH]; [done|]. unfold first_failure in *. cbn [foldl list_find].
  destruct (Status r) eqn:E; unfold overall at 2; rewrite E.
  - rewrite decide_False by (by intros H; apply H). rewrite IH. by destruct (list_find _ rows) as [[??]|].
  - rewrite decide_True by done. cbn [fmap option_fmap option_map snd default]. by rewrite overall_stuck, E.
  - rewrite decide_True by done. cbn [fmap option_fmap option_map snd default]. by rewrite overall_stuck, E.
Qed.

Lemma first_failure_pass rows : first_failure rows = pass <-> Forall (fun r => Status r = pass) rows.
Proof.
  unfold first_failure. rewrite Forall_forall. destruct (list_find _ rows) as [[i r]|] eqn:E; cbn.
  - apply list_find_Some in E as (Hi & Hr & _). split; [done|]. intros H. apply H. by eapply list_elem_of_lookup_2.
  - rewrite list_find_None, Forall_forall in E. split; [|done]. intros _ r Hr. specialize (E r Hr).
    destruct (decide (Status r = pass)); [done|]. by apply E in n.
Qed.

(** The exit status of [check-keys], once its flags and its configuration are
    read: 2 for an empty working set, else decided by the first row that is not a
    pass, and mirrored by the envelope. *)
Theorem check_keys_exit_exact w tools args fs rest cfg env err :
  Parse check_flags args = inl (fs, rest) ->
  LoadConfig w (strOf fs "config") = inl cfg ->
  runCheckKeys w tools true args = (env, err) ->
  let working := workingSet cfg (strOf fs "keys") in
  let rows := imap (fun i k => probeOnePasswordKey (tools i) k) working in
  exit_code err = (if bool_decide (working = []) then 2 else verdict_code (first_failure rows)) /\
  (exit_code err = 0 <-> working <> [] /\ Forall (fun r => Status r = pass) rows) /\
  exists e, env = Some e /\ EKeys e = rows /\ exit_code err = verdict_code (EVerdict e).
Proof.
  intros Hp Hc Hrun working rows. unfold runCheckKeys in Hrun. rewrite Hp, Hc in Hrun. fold working rows in Hrun.
  cbn [negb] in Hrun. rewrite overall_first in Hrun. case_bool_decide as Hw.
  - injection Hrun as <- <-. unfold rows. rewrite Hw. cbn. split_and!; [done|split; [done|by intros []]|].
    by eexists.
  - injection Hrun as <- <-. rewrite <- first_failure_pass.
    assert (Hcode : exit_code (match first_failure rows with pass => None | _ => Some (VerdictError (first_failure rows)) end)
                    = verdict_code (first_failure rows)) by by destruct (first_failure rows).
    rewrite Hcode. split_and!; [done| |by eexists]. destruct (first_failure rows); cbn; naive_solver.
Qed.

(** ** Secrets *)

(** The same tool holding other secrets of the same length. *)
Definition same_but_secrets (t t' : opTool) : Prop :=
  opOnPath t = opOnPath t' /\ createTemp t = createTemp t' /\ (forall ref, opRead t ref = opRead t' ref) /\
  forall ref, match readTemp t ref, readTemp t' ref with
              | inl d, inl d' => length d = length d'
              | inr e, inr e' => e = e'
              | _, _ => False
              end.

Lemma probe_hides t t' k : same_but_secrets t t' -> probeOnePasswordKey t k = probeOnePasswordKey t' k.
Proof.
  intros (Hp & Hc & Hr & Hd). unfold probeOnePasswordKey. rewrite Hp, Hc, Hr. specialize (Hd (op_ref k)).
  destruct (readTemp t (op_ref k)), (readTemp t' (op_ref k)); try done; by subst || by rewrite Hd.
Qed.

(** What [check-keys] prints and returns depends on the secrets only through
    their lengths. *)
Theorem check_keys_hides_secrets w tools tools' stdout args :
  (forall i, same_but_secrets (tools i) (tools' i)) ->
  runCheckKeys w tools stdout args = runCheckKeys w tools' stdout args.
Proof.
  intros H. unfold runCheckKeys. destruct (Parse check_flags args) as [[fs rest]|]; [|done].
  destruct (LoadConfig w _) as [cfg|]; [|done]. set (working := workingSet _ _).
  assert (imap (fun i k => probeOnePasswordKey (tools i) k) working = imap (fun i k => probeOnePasswordKey (tools' i) k) working) as ->; [|done].
  apply imap_ext. intros i k _. by apply probe_hides.
Qed.

(** ** The working set *)

Lemma dedupe_loop_spec l : forall seen,
  dedupe_loop seen l `sublist_of` l /\
  NoDup (dedupe_key <$> dedupe_loop seen l) /\
  Forall (fun k => dedupe_key k ∉ seen) (dedupe_loop seen l) /\
  (forall k, k ∈ l -> dedupe_key k ∈ seen \/ exists k', k' ∈ dedupe_loop seen l /\ dedupe_key k' = dedupe_key k).
Proof.
  induction l as [|k l IH]; intros seen; cbn [dedupe_loop].
  { split_and!; [done|constructor|constructor|]. intros k Hk. by apply not_elem_of_nil in Hk. }
  case_bool_decide as Hin.
  - destruct (IH seen) as (Hs & Hn & Hf & Hc). split_and!; [by apply sublist_cons|done|done|].
    intros x [->|Hx]%elem_of_cons; [by left|by apply Hc].
  - destruct (IH (dedupe_key k :: seen)) as (Hs & Hn & Hf & Hc). split_and!.
    + by apply sublist_skip.
    + cbn [fmap list_fmap]. constructor; [|done]. intros (x & Hx & Hin')%list_elem_of_fmap.
      rewrite Forall_forall in Hf. apply (Hf x Hin'). rewrite <- Hx. apply elem_of_cons. by left.
    + constructor; [done|]. eapply Forall_impl; [exact Hf|]. cbn. intros x Hx Hs'. apply Hx. apply elem_of_cons. by right.
    + intros x [->|Hx]%elem_of_cons.
      * right. exists k. split; [apply elem_of_cons; by left|done].
      * destruct (Hc x Hx) as [[E|Hs']%elem_of_cons|(k' & Hk' & E)]; [right|by left|right].
        -- exists k. split; [apply elem_of_cons; by left|done].
        -- exists k'. split; [apply elem_of_cons; by right|done].
Qed.

Definition no_bar (s : string) : Prop := Forall (fun c => c <> "|"%char) (to_bytes s).

Lemma bar_split (a b x y : bytes) :
  Forall (fun c => c <> "|"%char) a -> Forall (fun c => c <> "|"%char) b ->
  a ++ "|"%char :: x = b ++ "|"%char :: y -> a = b /\ x = y.
Proof.
  revert b. induction a as [|c a IH]; intros [|d b] Ha Hb E; simplify_eq/=; [done| | |].
  - by apply Forall_cons in Hb as [[] _].
  - by apply Forall_cons in Ha as [[] _].
  - apply Forall_cons in Ha as [_ Ha]. apply Forall_cons in Hb as [_ Hb]. destruct (IH b Ha Hb) as [-> ->]; done.
Qed.

(** Without a bar in them, the joined key tells the three parts apart. *)
Lemma dedupe_key_inj k k' :
  no_bar (Vault k) -> no_bar (Item k) -> no_bar (Vault k') -> no_bar (Item k') ->
  dedupe_key k = dedupe_key k' -> Vault k = Vault k' /\ Item k = Item k' /\ Field k = Field k'.
Proof.
  intros H1 H2 H3 H4 E%(f_equal to_bytes). unfold dedupe_key in E. rewrite !to_bytes_app in E.
  apply bar_split in E as [E1 E2]; [|done|done]. apply bar_split in E2 as [E2 E3]; [|done|done].
  split_and!; by apply to_bytes_inj.
Qed.

(** The default entries and the configured ones are each read once, the first of
    every vault, item and field, in the order of the file. *)
Theorem dedupe_exact (l : list ConfigKeyRef) :
  Forall (fun k => no_bar (Vault k) /\ no_bar (Item k)) l ->
  dedupeKeys l `sublist_of` l /\
  NoDup ((fun k => (Vault k, Item k, Field k)) <$> dedupeKeys l) /\
  forall k, k ∈ l -> exists k', k' ∈ dedupeKeys l /\ Vault k' = Vault k /\ Item k' = Item k /\ Field k' = Field k.
Proof.
  intros Hl. destruct (dedupe_loop_spec l []) as (Hs & Hn & _ & Hc). fold (dedupeKeys l) in *. rewrite Forall_forall in Hl.
  split_and!; [done| |].
  - apply (NoDup_fmap_1 (fun p : string * string * string => (p.1.1 ++ "|" ++ p.1.2 ++ "|" ++ p.2)%string)).
    by rewrite <- list_fmap_compose.
  - intros k Hk. destruct (Hc k Hk) as [[]%not_elem_of_nil|(k' & Hk' & E)]. exists k'. split; [done|].
    destruct (Hl k Hk). destruct (Hl k'); [by eapply elem_of_sublist|]. by apply dedupe_key_inj.
Qed.

(** ** The configuration *)

(** A string setting: the environment, else the file, else the default. *)
Definition effective (env file dflt : string) : string :=
  if TrimSpace env =s "" then (if file =s "" then dflt else file) else TrimSpace env.

Lemma mergeEnv_fields getenv c :
  Target (mergeEnv getenv c) = (if trimmedEnv getenv "HELIXCHANNEL_TARGET" =s "" then Target c else trimmedEnv getenv "HELIXCHANNEL_TARGET") /\
  Model (mergeEnv getenv c) = (if trimmedEnv getenv "HELIXCHANNEL_MODEL" =s "" then Model c else trimmedEnv getenv "HELIXCHANNEL_MODEL") /\
  (0 < TimeoutSeconds c -> 0 < TimeoutSeconds (mergeEnv getenv c)) /\
  Keys (mergeEnv getenv c) = Keys c.
Proof.
  unfold mergeEnv. generalize (trimmedEnv getenv "HELIXCHANNEL_TARGET"), (trimmedEnv getenv "HELIXCHANNEL_MODEL"),
    (trimmedEnv getenv "HELIXCHANNEL_TLS_INSECURE"), (trimmedEnv getenv "HELIXCHANNEL_TIMEOUT"). intros a b d e.
  destruct (Strconv.Atoi (to_bytes e)) as [n|]; zbool; cbn; split_and!; done || lia.
Qed.

(** A configuration that loads: the environment wins over the file and the file
    over the defaults, and the timeout is positive. *)
Theorem load_config_effective w path c :
  LoadConfig w path = inl c ->
  exists file, (path = ""%string \/ exists data, ReadFile w path = Secret.ReadOK data /\ YAML w data DefaultConfig = Some file) /\
  (path = ""%string -> file = DefaultConfig) /\
  Target c = effective (Getenv w "HELIXCHANNEL_TARGET") (Target file) (Target DefaultConfig) /\
  Model c = effective (Getenv w "HELIXCHANNEL_MODEL") (Model file) (Model DefaultConfig) /\
  0 < TimeoutSeconds c /\ Keys c = Keys file.
Proof.
  unfold LoadConfig. destruct (String.eqb_spec path "") as [->|Hp].
  - intros [= <-]. exists DefaultConfig. destruct (mergeEnv_fields (Getenv w) DefaultConfig) as (-> & -> & Ht & ->).
    split_and!; auto. by apply Ht.
  - destruct (ReadFile w path) as [data| | |] eqn:Hr; try done. destruct (YAML w data DefaultConfig) as [file|] eqn:Hy; [|done].
    intros [= <-]. exists file. destruct (mergeEnv_fields (Getenv w) (sanityCheck file)) as (-> & -> & Ht & ->).
    split_and!; [right; by exists data|done| | | |]; unfold effective, trimmedEnv in *;
      unfold sanityCheck in *; zbool; cbn in *; congruence || auto; apply Ht; lia.
Qed.

(** A timeout below 2^63 nanoseconds is exact; beyond that the product wraps. *)
Theorem timeout_exact c : 0 < TimeoutSeconds c <= 9223372036 -> Timeout c = TimeoutSeconds c * Second.
Proof.
  intros H. unfold Timeout, i64_mul. zbool; [lia|]. rewrite wrap64_small; [done|].
  unfold in_int64, min_int64, max_int64, Second. lia.
Qed.

(** ** Examples and witnesses *)

Definition ex_env (l : list (string * string)) (name : string) : string := default ""%string ((list_to_map l : gmap string string) !! name).

Definition ex_file : HelixChannelConfig :=
  {| Target := ""; Model := "m1"; TLSInsecure := true; TimeoutSeconds := 0;
     Keys := [{| KName := "grafana"; Vault := "v"; Item := "i"; Field := "f" |}; {| KName := "broken"; Vault := "v"; Item := ""; Field := "f" |}] |}.

(** A process with one file, decoded by a constant function. *)
Definition ex_world (l : list (string * string)) : World :=
  {| Getenv := ex_env l; ReadFile := fun p => if p =s "c.yaml" then Secret.ReadOK "file" else Secret.ReadNotExist;
     YAML := fun _ _ => Some ex_file |}.

Definition ex_tool (onPath : bool) (secret : string) : opTool :=
  {| opOnPath := onPath; createTemp := None; opRead := fun _ => None; readTemp := fun _ => inl (to_bytes secret) |}.

(** Without the [op] tool the well-formed entries are skipped and the broken one
    fails; the skip comes first, so the status is 2 although a key failed. *)
Example skip_masks_fail :
  let '(env, err) := runCheckKeys (ex_world []) (fun _ => ex_tool false "") true ["--config"; "c.yaml"]%string in
  exit_code err = 2 /\ (exists e, env = Some e /\ Status <$> EKeys e = [skip; skip; fail]).
Proof. vm_compute. split; [reflexivity|]. eexists. split; reflexivity. Qed.

(** Two different entries that share the joined key: the second is never read. *)
Example bar_collision :
  dedupeKeys [{| KName := "a"; Vault := "x|y"; Item := "z"; Field := "f" |}; {| KName := "b"; Vault := "x"; Item := "y|z"; Field := "f" |}]
  = [{| KName := "a"; Vault := "x|y"; Item := "z"; Field := "f" |}].
Proof. vm_compute. reflexivity. Qed.

(** The word yes turns the check of certificates on, also over a file that turned
    it off. *)
Example insecure_yes_is_false :
  TLSInsecure (mergeEnv (ex_env [("HELIXCHANNEL_TLS_INSECURE", "yes")]%string) ex_file) = false.
Proof. vm_compute. reflexivity. Qed.

(** 9223372037 seconds are a negative budget. *)
Example timeout_wraps : Timeout (set_TimeoutSeconds ex_file 9223372037) < 0.
Proof. vm_compute. reflexivity. Qed.

Lemma check_keys_exit_exact_witness :
  exists env err, runCheckKeys (ex_world []) (fun _ => ex_tool true "s3cret") true ["--config=c.yaml"; "--keys"; "grafana, none"]%string = (env, err) /\
  exit_code err = 0.
Proof.
  destruct (runCheckKeys (ex_world []) (fun _ => ex_tool true "s3cret") true ["--config=c.yaml"; "--keys"; "grafana, none"]%string) as [env err] eqn:E.
  exists env, err. split; [reflexivity|].
  pose proof (check_keys_exit_exact (ex_world []) (fun _ => ex_tool true "s3cret") ["--config=c.yaml"; "--keys"; "grafana, none"]%string
    (apply_assignments check_flags
       [({| AName := "config"; AText := "c.yaml"; ASeparate := false |}, VStr "c.yaml"); ({| AName := "keys"; AText := "grafana, none"; ASeparate := true |}, VStr "grafana, none")])
    [] (mergeEnv (ex_env []) (sanityCheck ex_file)) env err ltac:(vm_compute; reflexivity) ltac:(vm_compute; reflexivity) E) as (H & _).
  rewrite H. vm_compute. reflexivity.
Defined.

Lemma check_keys_hides_secrets_witness :
  runCheckKeys (ex_world []) (fun _ => ex_tool true "alpha") true [] = runCheckKeys (ex_world []) (fun _ => ex_tool true "omega") true [].
Proof.
  apply check_keys_hides_secrets. intros i. split_and!; [reflexivity|reflexivity|intros ref; reflexivity|intros ref; reflexivity].
Defined.

Lemma load_config_effective_witness :
  exists c, LoadConfig (ex_world [("HELIXCHANNEL_MODEL", " m2 ")]%string) "c.yaml" = inl c /\ 0 < TimeoutSeconds c.
Proof.
  exists (mergeEnv (ex_env [("HELIXCHANNEL_MODEL", " m2 ")]%string) (sanityCheck ex_file)). split; [reflexivity|].
  destruct (load_config_effective (ex_world [("HELIXCHANNEL_MODEL", " m2 ")]%string) "c.yaml"
    (mergeEnv (ex_env [("HELIXCHANNEL_MODEL", " m2 ")]%string) (sanityCheck ex_file)) eq_refl) as (file & _ & _ & _ & _ & H & _). exact H.
Defined.

End CheckKeys.
