(* ===== verification/Headers.v ===== *)
(** * HTTP header maps and the gateway's header tables

    [net/http.Header] with its canonical keys, and from
    [src/internal/channel/forward.go] the hop-by-hop table and the
    caller-credential deny-set; from [config.go] the header-name syntax. *)

From Stdlib Require Import ZArith Lia Ascii String.
From stdpp Require Import base option list gmap strings.
From S2P Require Import Prelude GoStrings.

Module Headers.
Import GoStrings.

(** ** Canonical names *)

Definition token_char (c : ascii) : bool :=
  is_lower c || is_upper c || is_digit c ||
  bool_decide (c ∈ to_bytes "!#$%&'*+-.^_`|~").

(** [http.CanonicalHeaderKey]: a name with a byte that is not a token character
    is left alone. *)
Definition canonical (s : string) : string :=
  if forallb token_char (to_bytes s) then CanonicalHeaderKey s else s.

(** A header map: canonical name to values. *)
Abbreviation Header := (gmap string (list string)).

Definition Get (h : Header) (name : string) : string :=
  match h !! canonical name with
  | Some (v :: _) => v
  | _ => ""
  end.

Definition Set_ (h : Header) (name v : string) : Header := <[canonical name := [v]]> h.

Definition Add (h : Header) (name v : string) : Header :=
  <[canonical name := default [] (h !! canonical name) ++ [v]]> h.

Definition Del (h : Header) (name : string) : Header := delete (canonical name) h.

(** ** The gateway's tables *)

Definition hopByHop (lower_name : string) : bool :=
  bool_decide (lower_name ∈ ["connection"; "keep-alive"; "proxy-authenticate"; "proxy-authorization";
                             "te"; "trailer"; "transfer-encoding"; "upgrade"]).

Definition callerCredentialHeaders : list string :=
  ["Authorization"; "Proxy-Authorization"; "X-Api-Key"; "Api-Key"; "X-Goog-Api-Key"; "Cookie";
   "OpenAI-Organization"; "OpenAI-Project"].

Definition isCallerCredential (name routeKeyHeader : string) : bool :=
  if existsb (fun deny => EqualFold name deny) callerCredentialHeaders then true
  else
    let routeKeyHeader := TrimSpace routeKeyHeader in
    negb (routeKeyHeader =s "") && EqualFold name routeKeyHeader.

(** RFC 9110 field names, [validHeaderName]. *)
Definition validHeaderName (name : string) : bool :=
  negb (name =s "") && forallb token_char (to_bytes name).

(** ** Lemmas *)

Lemma lower_canonical_key s : ToLower (canonical s) = ToLower s.
Proof. unfold canonical, CanonicalHeaderKey. case_match; [apply lower_canonical|done]. Qed.

Lemma canonical_fold s t : canonical s = canonical t -> EqualFold s t = true.
Proof.
  intros H. apply EqualFold_spec. by rewrite <- lower_canonical_key, H, lower_canonical_key.
Qed.

Lemma token_lower c : token_char (lower_char c) = token_char c.
Proof. destruct c as [[] [] [] [] [] [] [] []]; vm_compute; reflexivity. Qed.

Lemma token_ToLower s : forallb token_char (to_bytes (ToLower s)) = forallb token_char (to_bytes s).
Proof.
  induction s as [|c s IH]; [done|]. cbn [ToLower to_bytes list_ascii_of_string forallb].
  rewrite token_lower. f_equal. exact IH.
Qed.

Lemma fold_canonical s t :
  forallb token_char (to_bytes t) = true -> EqualFold s t = true -> canonical s = canonical t.
Proof.
  intros Ht H%EqualFold_spec.
  assert (Hs : forallb token_char (to_bytes s) = true) by (by rewrite <- token_ToLower, H, token_ToLower).
  unfold canonical, CanonicalHeaderKey. rewrite Hs, Ht.
  by rewrite <- (canonical_ToLower true s), H, canonical_ToLower.
Qed.

(** Names that differ in case only are one name: an equivalence that the
    credential tests respect, so they rewrite with it. *)
Definition folds : relation string := fun s t => ToLower s = ToLower t.

#[export] Instance folds_equivalence : Equivalence folds.
Proof. split; unfold folds; [by intros x|by intros x y|by intros x y z -> ]. Qed.

#[export] Instance EqualFold_proper : Proper (folds ==> folds ==> eq) EqualFold.
Proof. intros s s' Hs t t' Ht. unfold EqualFold. by rewrite Hs, Ht. Qed.

#[export] Instance existsb_proper : Proper (pointwise_relation string eq ==> eq ==> eq) (@existsb string).
Proof. intros f g Hfg l _ <-. induction l as [|x l IH]; simpl; [done|by rewrite Hfg, IH]. Qed.

#[export] Instance isCallerCredential_proper : Proper (folds ==> eq ==> eq) isCallerCredential.
Proof. intros s t Hst key _ <-. unfold isCallerCredential. setoid_rewrite Hst. by rewrite ?Hst. Qed.

Lemma canonical_folds s : folds (canonical s) s.
Proof. apply lower_canonical_key. Qed.

(** A header copied under a name that is not a credential never lands on a
    credential's key. *)
Lemma not_credential_key name key deny :
  isCallerCredential name key = false -> isCallerCredential deny key = true ->
  canonical name <> canonical deny.
Proof.
  intros Hn Hd He. rewrite <- canonical_folds in Hn, Hd. congruence.
Qed.

Lemma canonical_examples :
  canonical "x-api-key" = "X-Api-Key" /\ canonical "OPENAI-project" = "Openai-Project" /\
  canonical "bad name" = "bad name".
Proof. vm_compute. auto. Qed.

End Headers.
