(* ===== verification/Diagnostics.v ===== *)
(** * The diagnostic subcommands

    Models, of [src/cmd/helixchannel/main.go], [key-check], [factory-probe],
    [endpoint-check], [doctor] and [kilo-verify] with their helpers, and
    [src/internal/cli/helixchannel_url.go].  The network, the file system, the
    environment and [url.Parse] are arguments; an envelope is the record that is
    encoded. *)

From Stdlib Require Import ZArith Lia Ascii String.
From stdpp Require Import base option list gmap strings.
From S2P Require Import Prelude GoStrings Utf8 Trim Strconv Json JsonMap JsonStruct Float64 JsonAny Net Headers Secret Flags CheckKeys.

Module Diagnostics.
Import GoStrings Flags Headers CheckKeys JsonStruct.

(** ** Which listener *)

(** [helixChannelEnabledFromEnv] of the tool. *)
Definition helixChannelEnabledFromEnv (v : string) : bool :=
  if existsb (String.eqb v) [""; "1"; "true"; "TRUE"; "True"]%string then true
  else if existsb (String.eqb v) ["0"; "false"; "FALSE"; "False"; "no"; "off"]%string then false
  else false.

(** [helixChannelEnabledFromEnv] of the router's [src/main.go]. *)
Definition routerEnabledFromEnv (v : string) : bool :=
  let v := ToLower (TrimSpace v) in
  if existsb (String.eqb v) [""; "true"; "1"; "yes"; "on"]%string then true
  else if existsb (String.eqb v) ["false"; "0"; "no"; "off"]%string then false
  else true.

(** The two listener factories of [src/internal/proxy]. *)
Inductive factory := AESMTLS (key : bytes) | PlainHTTP.

Definition defaultDemoAESKey : bytes := (fun i => byte (i + 1)) <$> seq 0 32.

Definition SelectListenerFactory (enabled : bool) : factory := if enabled then AESMTLS defaultDemoAESKey else PlainHTTP.

Definition Channel (f : factory) : string := match f with AESMTLS _ => "aes-mtls" | PlainHTTP => "plain-http" end.

Inductive listenError := EmptyAddr | BindFailed (what : string).

(** [Listen] of either factory; [bind] is [net.Listen]. *)
Definition Listen (bind : string -> string + string) (f : factory) (addr : string) : string + listenError :=
  if addr =s "" then inr EmptyAddr
  else match bind addr with inl bound => inl bound | inr e => inr (BindFailed e) end.

Record factoryProbeEnvelope := { Bound : string; FChannel : string; FTLS : bool }.

Fixpoint probe_args (addr : string) (args : list string) : string + string :=
  match args with
  | [] => inl addr
  | a :: args =>
      if a =s "--addr" then
        match args with
        | v :: args => probe_args v args
        | [] => inr "--addr requires a value"%string
        end
      else inr ("unknown flag for factory-probe: " ++ a)%string
  end.

Definition runFactoryProbe (getenv : string -> string) (bind : string -> string + string) (stdout : bool) (args : list string)
  : option factoryProbeEnvelope * option cmdError :=
  match probe_args ":0" args with
  | inr e => (None, Some (OtherError e))
  | inl addr =>
      let enabled := helixChannelEnabledFromEnv (getenv "HELIXCHANNEL_ENABLED") in
      let f := SelectListenerFactory enabled in
      match Listen bind f addr with
      | inr _ => (None, Some (OtherError "factory.Listen"))
      | inl bound =>
          if stdout then (Some {| Bound := bound; FChannel := Channel f; FTLS := enabled |}, None)
          else (None, Some EncodeFailed)
      end
  end.

(** ** key-check *)

Record keyCheckEnvelope := { Valid : bool; Length : Z }.

(** [runKeyCheck] with [emitKeyCheck]: the envelope and the exit status. *)
Definition runKeyCheck (getenv : string -> string) (stdout : bool) : option keyCheckEnvelope * Z :=
  let n := Z.of_nat (length (to_bytes (getenv "HELIXCHANNEL_KEY"))) in
  let env :=
    if n =? 0 then {| Valid := false; Length := 0 |}
    else if negb (n =? 32) then {| Valid := false; Length := n |}
    else {| Valid := true; Length := n |} in
  if negb stdout then (None, 1)
  else (Some env, if Valid env then 0 else if Length env =? 0 then 0 else 1).

(** ** The base URL *)

Definition DefaultHelixChannelBaseURL : string := "https://helixchannel.example.com".

Definition ResolveHelixChannelBaseURL (getenv : string -> string) (flagBaseURL : string) : string :=
  let v := TrimSpace (getenv "HELIXCHANNEL_BASE_URL") in
  if negb (v =s "") then trim_right_char "/" v
  else
    let v := TrimSpace flagBaseURL in
    if negb (v =s "") then trim_right_char "/" v else DefaultHelixChannelBaseURL.

Inductive hostError := EmptyBaseURL | UnparsableURL | NoHost.

(** [url_host] is the [Host] of [url.Parse], with its port. *)
Definition HostFromBaseURL (url_host : string -> option string) (raw : string) : string + hostError :=
  let raw := TrimSpace raw in
  if raw =s "" then inr EmptyBaseURL
  else
    match url_host raw with
    | None => inr UnparsableURL
    | Some h => if h =s "" then inr NoHost else inl h
    end.

(** ** endpoint-check *)

(** [net.JoinHostPort]. *)
Definition JoinHostPort (host port : bytes) : bytes :=
  if bool_decide (is_Some (Net.index_byte ":" host)) then "["%char :: host ++ "]"%char :: ":"%char :: port
  else host ++ ":"%char :: port.

(** One dial: its latency and the error, if any. *)
Record dialed := { latency : Duration; dialError : option bytes }.

Record endpointCheckEnvelope := {
  EHost : string;
  TCP22Reachable : bool; TCP22LatencyMs : Z; TCP22Error : bytes;
  TCP443Reachable : bool; TCP443LatencyMs : Z; TCP443Error : bytes;
  Recommendation : string;
}.

Definition Milliseconds (d : Duration) : Z := Z.quot d Millisecond.

(** [probeHostPort]. *)
Definition probeHostPort (dial : bytes -> Duration -> dialed) (host port : string) (timeout : Duration) : bool * Duration * option bytes :=
  let d := dial (JoinHostPort (to_bytes host) (to_bytes port)) timeout in
  (bool_decide (dialError d = None), latency d, dialError d).

Definition endpoint_flags : FlagSet :=
  NewFlagSet [("host", VStr ""); ("base-url", VStr ""); ("tcp22-port", VStr "22"); ("tcp443-port", VStr "443");
              ("probe-timeout", VDur (2 * Second)); ("config", VStr "")]%string.

Definition runEndpointCheck (w : World) (url_host : string -> option string) (dial : bytes -> Duration -> dialed) (args : list string)
  : option endpointCheckEnvelope * option cmdError :=
  match Parse endpoint_flags args with
  | inr e => (None, Some (FlagFailed e))
  | inl (fs, _) =>
      match (if strOf fs "config" =s "" then None
             else match LoadConfig w (strOf fs "config") with inr e => Some e | inl _ => None end) with
      | Some e => (None, Some (ConfigFailed e))
      | None =>
          match (if strOf fs "host" =s "" then HostFromBaseURL url_host (ResolveHelixChannelBaseURL (Getenv w) (strOf fs "base-url"))
                 else inl (strOf fs "host")) with
          | inr _ => (None, Some (OtherError "resolve host from base URL"))
          | inl host =>
              let t := durOf fs "probe-timeout" in
              let t := if (t <=? 0) || (30 * Second <? t) then 2 * Second else t in
              let '(ok22, lat22, err22) := probeHostPort dial host (strOf fs "tcp22-port") t in
              let '(ok443, lat443, err443) := probeHostPort dial host (strOf fs "tcp443-port") t in
              let rec := if ok443 : bool then "tcp443"%string else if ok22 : bool then "tcp22"%string else "none"%string in
              (Some {| EHost := host; TCP22Reachable := ok22; TCP22LatencyMs := Milliseconds lat22; TCP22Error := default [] err22;
                       TCP443Reachable := ok443; TCP443LatencyMs := Milliseconds lat443; TCP443Error := default [] err443;
                       Recommendation := rec |},
               if rec =s "none" then Some (OtherError "neither TCP/22 nor TCP/443 reachable") else None)
          end
      end
  end.

(** ** doctor *)

(** An HTTP exchange: the error, or the status and the body as it could be read. *)
Definition httpAnswer : Type := bytes + Z * option bytes.

Record lightsailPortState := { FromPort : Z; ToPort : Z; Protocol : bytes; State : bytes }.

Definition zeroPortState : lightsailPortState := {| FromPort := 0; ToPort := 0; Protocol := []; State := [] |}.

Definition dec_portState : decoder lightsailPortState := dec_struct
  [("fromport", fun s v => x ← dec_int (FromPort s) v;
      Some {| FromPort := x; ToPort := ToPort s; Protocol := Protocol s; State := State s |});
   ("toport", fun s v => x ← dec_int (ToPort s) v;
      Some {| FromPort := FromPort s; ToPort := x; Protocol := Protocol s; State := State s |});
   ("protocol", fun s v => x ← dec_string (Protocol s) v;
      Some {| FromPort := FromPort s; ToPort := ToPort s; Protocol := x; State := State s |});
   ("state", fun s v => x ← dec_string (State s) v;
      Some {| FromPort := FromPort s; ToPort := ToPort s; Protocol := Protocol s; State := x |})]%string.

Definition dec_portStates : decoder (slice lightsailPortState) := dec_struct
  [("portstates", dec_slice zeroPortState dec_portState)]%string.

Definition open443 (s : lightsailPortState) : bool :=
  (FromPort s =? 443) && (ToPort s =? 443) && bool_decide (Protocol s = to_bytes "tcp") && bool_decide (State s = to_bytes "open").

Definition checkLightsailTCP443 (getenv : string -> string) (get : string -> httpAnswer) : string :=
  let base := getenv "LIGHTSAIL_API_BASE" in
  if base =s "" then "skipped"
  else
    let instance := getenv "HELIXCHANNEL_INSTANCE_NAME" in
    let instance := if instance =s "" then "helixon-tunnel"%string else instance in
    match get (base ++ "/instances/" ++ instance ++ "/port-states")%string with
    | inl _ => "error"
    | inr (status, body) =>
        if negb (status =? 200) then "error"
        else
          match body with
          | None => "error"
          | Some body =>
              match unmarshal nil_slice dec_portStates body with
              | None => "error"
              | Some ps => if existsb open443 (elements ps) then "pass" else "fail"
              end
          end
    end.

Definition checkCDPReachable (getenv : string -> string) (get : string -> httpAnswer) : string :=
  let url := TrimSpace (getenv "HELIXCHANNEL_CDP_URL") in
  let url := if url =s "" then "http://127.0.0.1:9222/json/version"%string else url in
  if getenv "HELIXCHANNEL_CDP_SKIP" =s "1" then "skipped"
  else
    match get url with
    | inl _ => "error"
    | inr (status, _) => if status =? 200 then "pass" else "fail"
    end.

Definition adr085Path : string := "/home/jason/Code/cursor-global-kb/adrs/ADR-085-helixchannel-prod-wire.md".

Definition pass_if (b : bool) : string := if b then "pass" else "fail".

(** The map of checks; [stat] tells whether a path exists and [getwd] is the
    working directory. *)
Definition runDoctor (getenv : string -> string) (stat : string -> bool) (getwd : option string) (get : string -> httpAnswer) (stdout : bool)
  : option (gmap string string) * option cmdError :=
  let repo := getenv "LLM_CLUSTER_ROUTER_REPO" in
  let repo := if repo =s "" then default ""%string getwd else repo in
  let v := helixChannelEnabledFromEnv (getenv "HELIXCHANNEL_ENABLED") in
  let key := getenv "HELIXCHANNEL_KEY" in
  let checks : gmap string string := list_to_map
    [("release_gate_script", pass_if (stat (repo ++ "/scripts/release-gate.sh")%string));
     ("adr_085", pass_if (stat adr085Path));
     ("helixchannel_env", pass_if (v || negb v));
     ("aes_key", pass_if ((key =s "") || Nat.eqb (length (to_bytes key)) 32));
     ("observability", "pass");
     ("lightsail_tcp443", checkLightsailTCP443 getenv get);
     ("cdp_reachable", checkCDPReachable getenv get)]%string in
  if stdout then (Some checks, None) else (None, Some EncodeFailed).

(** ** kilo-verify *)

Definition kiloVerifyDefaultBaseURL : string := "https://helixchannel.example.com/minimax/v1".
Definition kiloVerifyDefaultModel : string := "MiniMax-M3".

Inductive baseURLError := EmptyURL | UnsupportedScheme.

(** Scheme, host and port. *)
Definition parseKiloVerifyBaseURL (raw : string) : (string * bytes * bytes) + baseURLError :=
  let raw := TrimSpace raw in
  if raw =s "" then inr EmptyURL
  else
    match (if HasPrefix raw "https://" then Some ("https"%string, TrimPrefix raw "https://")
           else if HasPrefix raw "http://" then Some ("http"%string, TrimPrefix raw "http://")
           else None) with
    | None => inr UnsupportedScheme
    | Some (scheme, rest) =>
        let b := to_bytes rest in
        let b := match Net.index_byte "/" b with Some i => take i b | None => b end in
        inl match Net.SplitHostPort b with
            | Some (host, port) => (scheme, host, port)
            | None => (scheme, b, if scheme =s "https" then to_bytes "443" else to_bytes "80")
            end
    end.

Definition netErrClasses : list (string * string) :=
  [("context deadline exceeded", "timeout"); ("timeout", "timeout"); ("connection refused", "refused");
   ("no such host", "no_route"); ("tls", "tls"); ("401", "upstream_401"); ("403", "upstream_403"); ("429", "upstream_429")]%string.

Definition classifyNetErr (err : option bytes) : string :=
  match err with
  | None => "none"
  | Some s =>
      match list_find (fun p => contains s (to_bytes p.1) = true) netErrClasses with
      | Some (_, p) => p.2
      | None => "net"
      end
  end.

Definition truncateKiloVerify (s : bytes) (n : nat) : bytes :=
  if Nat.leb (length s) n then s else take n s ++ to_bytes "...".

(** The answer's struct. *)
Record kiloAnswer := { AID : bytes; AModel : bytes; AChoices : slice bytes }.

Definition dec_choice : decoder bytes := dec_struct [("message", dec_struct [("content", dec_string)])]%string.

Definition dec_answer : decoder kiloAnswer := dec_struct
  [("id", fun a v => x ← dec_string (AID a) v; Some {| AID := x; AModel := AModel a; AChoices := AChoices a |});
   ("model", fun a v => x ← dec_string (AModel a) v; Some {| AID := AID a; AModel := x; AChoices := AChoices a |});
   ("choices", fun a v => x ← dec_slice [] dec_choice (AChoices a) v; Some {| AID := AID a; AModel := AModel a; AChoices := x |})]%string.

Definition zeroAnswer : kiloAnswer := {| AID := []; AModel := []; AChoices := nil_slice |}.

(** The operator's hint, by what it says and the values it quotes. *)
Inductive operatorHint :=
  | NoHint
  | ExportKey
  | FixBaseURL (e : baseURLError)
  | CheckIngress (port host : bytes)
  | HintError (text : bytes)
  | NetworkFlake
  | NotOpenAIJSON
  | EmptyContent
  | RotateKey (status : Z)
  | Non2xx (body : bytes).

Record kiloVerifyEnvelope := {
  KVerdict : verdict;
  KBaseURL : string;
  KModel : string;
  LatencyMs : Z;
  ResponseID : bytes;
  ContentPreview : bytes;
  KErrorClass : string;
  OperatorHint : operatorHint;
}.

Record kiloRequest := { ReqURL : string; ReqHeader : Header; ReqBody : bytes; ReqTimeout : Duration; ReqInsecure : bool }.

(** The network: the reachability dial, the request constructor, and the exchange
    with its duration. *)
Record kiloNet := {
  kdial : bytes -> option bytes;
  newRequest : string -> option bytes;
  exchange : kiloRequest -> Duration * (bytes + Z * bytes);
}.

Definition kilo_flags : FlagSet :=
  NewFlagSet [("base-url", VStr kiloVerifyDefaultBaseURL); ("model", VStr kiloVerifyDefaultModel); ("timeout", VDur (30 * Second));
              ("insecure", VBool false); ("config", VStr ""); ("target", VStr "")]%string.

Record settings := { SBase : string; SModel : string; STimeout : Duration; SInsecure : bool }.

(** What the flags and the file settle: the file fills the flags that were not
    given, and the alias wins. *)
Definition settle (fs : FlagSet) (cfg : option HelixChannelConfig) : settings :=
  let s := {| SBase := strOf fs "base-url"; SModel := strOf fs "model"; STimeout := durOf fs "timeout"; SInsecure := boolOf fs "insecure" |} in
  let s :=
    match cfg with
    | None => s
    | Some c =>
        {| SBase := if negb (applied fs "target") && negb (applied fs "base-url") then Target c else SBase s;
           SModel := if negb (applied fs "model") then Model c else SModel s;
           STimeout := if negb (applied fs "timeout") then Timeout c else STimeout s;
           SInsecure := if negb (applied fs "insecure") && TLSInsecure c then true else SInsecure s |}
    end in
  if strOf fs "target" =s "" then s
  else {| SBase := strOf fs "target"; SModel := SModel s; STimeout := STimeout s; SInsecure := SInsecure s |}.

Definition apiKeyOf (getenv : string -> string) : string :=
  let k := TrimSpace (getenv "KILO_CODE_API_KEY") in
  if k =s "" then TrimSpace (getenv "OPENAI_API_KEY") else k.

Definition kiloBody (model : string) : bytes :=
  Json.print (JsonAny.encode_any (JsonAny.AObj
    [(to_bytes "messages", JsonAny.AArr [JsonAny.AObj
        [(to_bytes "content", JsonAny.AStr (to_bytes "Respond with the single word: pong")); (to_bytes "role", JsonAny.AStr (to_bytes "user"))]]);
     (to_bytes "model", JsonAny.AStr (to_bytes model))])).

Definition kiloHeader (apiKey : string) : Header :=
  Set_ (Set_ (Set_ (Set_ ∅ "Authorization" ("Bearer " ++ apiKey)%string) "Content-Type" "application/json") "Accept" "application/json")
    "X-HelixChannel-Version" "v18716-1".

Definition maxBody : nat := Z.to_nat (64 * 1024).
#[global] Opaque maxBody.

(** The envelope with its verdict, class and hint. *)
Definition finish (s : settings) (lat : Z) (v : verdict) (cls : string) (hint : operatorHint) : kiloVerifyEnvelope :=
  {| KVerdict := v; KBaseURL := SBase s; KModel := SModel s; LatencyMs := lat; ResponseID := []; ContentPreview := [];
     KErrorClass := cls; OperatorHint := hint |}.

(** The answer of the upstream. *)
Definition judge (s : settings) (lat : Z) (status : Z) (body : bytes) : kiloVerifyEnvelope :=
  let body := take maxBody body in
  if status =? 200 then
    match unmarshal zeroAnswer dec_answer body with
    | None => finish s lat fail "parse" NotOpenAIJSON
    | Some a =>
        match elements (AChoices a) with
        | [] => finish s lat fail "empty_content" EmptyContent
        | c :: _ =>
            if bool_decide (c = []) then finish s lat fail "empty_content" EmptyContent
            else {| KVerdict := pass; KBaseURL := SBase s; KModel := SModel s; LatencyMs := lat; ResponseID := AID a;
                    ContentPreview := truncateKiloVerify c 80; KErrorClass := "none"; OperatorHint := NoHint |}
        end
    end
  else if (status =? 401) || (status =? 403) || (status =? 429) then
    finish s lat skip "upstream_4xx" (RotateKey status)
  else
    finish s lat fail ("http_" ++ of_bytes (Strconv.Itoa status))%string
      (Non2xx (truncateKiloVerify body 160)).

(** The checks of [kilo-verify] in their order: the envelope and the request, if
    one was sent. *)
Definition kilo_run (net : kiloNet) (getenv : string -> string) (s : settings) : kiloVerifyEnvelope * option kiloRequest :=
  let apiKey := apiKeyOf getenv in
  if apiKey =s "" then (finish s 0 skip "missing_key" ExportKey, None)
  else
    match parseKiloVerifyBaseURL (SBase s) with
    | inr e => (finish s 0 skip "bad_base_url" (FixBaseURL e), None)
    | inl (_, host, port) =>
        match kdial net (JoinHostPort host port) with
        | Some e => (finish s 0 fail (classifyNetErr (Some e)) (CheckIngress port host), None)
        | None =>
            let url := (trim_right_char "/" (SBase s) ++ "/chat/completions")%string in
            match newRequest net url with
            | Some e => (finish s 0 fail "build_request" (HintError e), None)
            | None =>
                let req := {| ReqURL := url; ReqHeader := kiloHeader apiKey; ReqBody := kiloBody (SModel s); ReqTimeout := STimeout s;
                              ReqInsecure := SInsecure s || (getenv "HELIXCHANNEL_TLS_INSECURE_SKIP_VERIFY" =s "1") |} in
                let '(d, r) := exchange net req in
                (match r with
                 | inl e => finish s (Milliseconds d) skip (classifyNetErr (Some e)) NetworkFlake
                 | inr (status, body) => judge s (Milliseconds d) status body
                 end, Some req)
            end
        end
    end.

Definition runKiloVerify (w : World) (net : kiloNet) (args : list string)
  : option kiloVerifyEnvelope * option kiloRequest * option cmdError :=
  match Parse kilo_flags args with
  | inr e => (None, None, Some (FlagFailed e))
  | inl (fs, _) =>
      match (if strOf fs "config" =s "" then inl None
             else match LoadConfig w (strOf fs "config") with inl c => inl (Some c) | inr e => inr e end) with
      | inr e => (None, None, Some (ConfigFailed e))
      | inl cfg =>
          let '(env, req) := kilo_run net (Getenv w) (settle fs cfg) in
          (Some env, req, match KVerdict env with pass => None | v => Some (VerdictError v) end)
      end
  end.

(** ** Addresses *)

Definition no_byte (c : ascii) (s : bytes) : Prop := Forall (fun d => d <> c) s.

Lemma index_byte_is_None c s : no_byte c s -> bool_decide (is_Some (Net.index_byte c s)) = false.
Proof. intros H. rewrite (index_byte_none c s H). by apply bool_decide_eq_false_2, is_Some_None. Qed.

Lemma last_index_byte_none c s : no_byte c s -> Net.last_index_byte c s = None.
Proof.
  induction s as [|d s IH]; intros H; [done|]. apply Forall_cons in H as [Hd Hs]. cbn. rewrite IH by done.
  by destruct (Ascii.eqb_spec c d) as [->|].
Qed.

(** What is joined is what is split, for a host without brackets. *)
Lemma split_join_host_port host port :
  no_byte "[" host -> no_byte "]" host -> no_byte ":" port -> no_byte "[" port -> no_byte "]" port ->
  Net.SplitHostPort (JoinHostPort host port) = Some (host, port).
Proof.
  intros H1 H2 P0 P1 P2. unfold JoinHostPort, Net.SplitHostPort. case_bool_decide as Hc.
  - set (hp := "["%char :: host ++ "]"%char :: ":"%char :: port).
    assert (Hhp : hp = ("["%char :: host ++ ["]"%char]) ++ ":"%char :: port) by (unfold hp; cbn; by rewrite <- app_assoc).
    rewrite Hhp at 1. rewrite Net.last_index_byte_app by (by apply last_index_byte_none). rewrite bool_decide_eq_true_2 by done.
    assert (Hi : Net.index_byte "]" hp = Some (S (length host))).
    { unfold hp. rewrite app_comm_cons. rewrite index_byte_app; [done|]. by constructor. }
    rewrite Hi. cbn [length]. rewrite length_app. cbn [length].
    assert (Hl : length hp = (length host + 3 + length port)%nat) by (unfold hp; cbn; rewrite length_app; cbn; lia).
    rewrite (proj2 (Nat.eqb_neq _ _)) by lia. rewrite (proj2 (Nat.eqb_eq _ _)) by lia.
    assert (D1 : drop 1 hp = host ++ "]"%char :: ":"%char :: port) by done. rewrite D1.
    assert (D2 : drop (S (S (length host))) hp = ":"%char :: port).
    { rewrite Hhp. apply drop_app_length'. cbn. rewrite length_app. cbn. lia. }
    assert (D3 : drop (S (S (length host + 1))) hp = port).
    { replace hp with (("["%char :: host ++ ["]"%char; ":"%char]) ++ port) by (unfold hp; cbn; by rewrite <- app_assoc).
      apply drop_app_length'. cbn. rewrite length_app. cbn. lia. }
    rewrite D2, D3, !index_byte_is_None; [|by constructor|unfold no_byte; rewrite Forall_app, !Forall_cons; done].
    replace (S (length host) - 1)%nat with (length host) by lia. by rewrite take_app_length.
  - assert (N : no_byte ":" host).
    { apply Forall_lookup. intros i d Hi ->. apply Hc. unfold Net.index_byte. apply fmap_is_Some.
      destruct (list_find _ host) eqn:E; [done|]. rewrite list_find_None, Forall_forall in E.
      exfalso. eapply E; [by eapply list_elem_of_lookup_2|done]. }
    rewrite Net.last_index_byte_app by (by apply last_index_byte_none). rewrite bool_decide_eq_false_2.
    2: { destruct host; cbn; [done|]. apply Forall_cons in H1 as [H1 _]. by intros [= ->]. }
    rewrite take_app_length, index_byte_is_None by done. rewrite !drop_0.
    rewrite !index_byte_is_None by (unfold no_byte; rewrite Forall_app, Forall_cons; done).
    do 2 f_equal. rewrite cons_middle, app_assoc. apply drop_app_length'. rewrite length_app. cbn. lia.
Qed.

(** ** The address a base URL is dialled at *)

Definition url_host_ok (host : bytes) : Prop :=
  Forall Trim.plain host /\ no_byte "/" host /\ no_byte ":" host /\ no_byte "[" host /\ no_byte "]" host.

Definition url_port_ok (port : bytes) : Prop :=
  Forall Trim.plain port /\ no_byte "/" port /\ no_byte ":" port /\ no_byte "[" port /\ no_byte "]" port.

Lemma plain_url s : forallb (fun c => (33 <=? code c) && (code c <=? 126)) (to_bytes s) = true -> Forall Trim.plain (to_bytes s).
Proof.
  intros H. rewrite forallb_forall in H. apply Forall_forall. intros c Hc. apply list_elem_of_In, H in Hc.
  unfold Trim.plain. zbool; done || lia.
Qed.

Lemma String_length_to_bytes p : String.length p = length (to_bytes p).
Proof. induction p as [|c p IH]; [done|]. exact (f_equal S IH). Qed.

Lemma TrimPrefix_app p t : TrimPrefix (of_bytes (to_bytes p ++ t)) p = of_bytes t.
Proof.
  unfold TrimPrefix, HasPrefix. rewrite to_of_bytes.
  rewrite (proj2 (has_prefix_spec (to_bytes p) (to_bytes p ++ t))) by (by exists t). f_equal. apply drop_app_length'. apply String_length_to_bytes.
Qed.

Lemma HasPrefix_app p t : HasPrefix (of_bytes (to_bytes p ++ t)) p = true.
Proof. unfold HasPrefix. rewrite to_of_bytes. apply has_prefix_spec. by exists t. Qed.

(** A base URL spelled with its port is split into exactly that host and port,
    and the reachability dial goes to [host:port]. *)
Theorem kilo_url_parsed (scheme : string) (host port path : bytes) :
  scheme = "https"%string \/ scheme = "http"%string ->
  url_host_ok host -> url_port_ok port -> Forall Trim.plain path ->
  parseKiloVerifyBaseURL (of_bytes (to_bytes (scheme ++ "://")%string ++ JoinHostPort host port ++ "/"%char :: path)) = inl (scheme, host, port) /\
  JoinHostPort host port = host ++ ":"%char :: port.
Proof.
  intros Hs (Ph & Sh & Ch & Lh & Rh) (Pp & Sp & Cp & Lp & Rp) Ppath.
  assert (Hj : JoinHostPort host port = host ++ ":"%char :: port) by (unfold JoinHostPort; by rewrite index_byte_is_None).
  split; [|done]. unfold parseKiloVerifyBaseURL. rewrite Hj. set (pre := (scheme ++ "://")%string).
  set (b := (host ++ ":"%char :: port) ++ "/"%char :: path).
  assert (Hpre : Forall Trim.plain (to_bytes pre)) by (destruct Hs as [->| ->]; by apply plain_url).
  assert (Hb : Forall Trim.plain b).
  { unfold b. rewrite !Forall_app, !Forall_cons. split_and!; try done; unfold Trim.plain; vm_compute; split; discriminate. }
  assert (Ht : TrimSpace (of_bytes (to_bytes pre ++ b)) = of_bytes (to_bytes pre ++ b)).
  { unfold TrimSpace. rewrite to_of_bytes, Trim.trim_trimmed; [done|]. apply Trim.all_plain_trimmed. by apply Forall_app. }
  rewrite Ht. destruct (String.eqb_spec (of_bytes (to_bytes pre ++ b)) "") as [E|_].
  { exfalso. apply (f_equal to_bytes) in E. rewrite to_of_bytes in E. destruct Hs as [->| ->]; discriminate. }
  assert (Hcase : (if HasPrefix (of_bytes (to_bytes pre ++ b)) "https://" then Some ("https"%string, TrimPrefix (of_bytes (to_bytes pre ++ b)) "https://")
     else if HasPrefix (of_bytes (to_bytes pre ++ b)) "http://" then Some ("http"%string, TrimPrefix (of_bytes (to_bytes pre ++ b)) "http://")
     else None) = Some (scheme, of_bytes b)).
  { destruct Hs as [->| ->]; unfold pre.
    - change ("https" ++ "://")%string with "https://"%string. by rewrite HasPrefix_app, TrimPrefix_app.
    - change ("http" ++ "://")%string with "http://"%string. rewrite HasPrefix_app, TrimPrefix_app.
      assert (HasPrefix (of_bytes (to_bytes "http://" ++ b)) "https://" = false) as ->; [|done].
      unfold HasPrefix. rewrite to_of_bytes. reflexivity. }
  rewrite Hcase, to_of_bytes. unfold b.
  rewrite index_byte_app by (unfold no_byte in *; rewrite Forall_app, Forall_cons; done).
  rewrite take_app_length, <- Hj, split_join_host_port by done. done.
Qed.

(** ** kilo-verify *)

Lemma judge_pass s lat status body :
  KVerdict (judge s lat status body) = pass <->
  status = 200 /\ exists a c rest, unmarshal zeroAnswer dec_answer (take maxBody body) = Some a /\ elements (AChoices a) = c :: rest /\ c <> [].
Proof.
  unfold judge. destruct (Z.eqb_spec status 200) as [->|Hst].
  2: { split; [|by intros [? _]]. by destruct ((status =? 401) || (status =? 403) || (status =? 429)). }
  destruct (unmarshal zeroAnswer dec_answer (take maxBody body)) as [a|].
  2: { split; [done|]. by intros (_ & a & c & rest & [=] & _). }
  destruct (elements (AChoices a)) as [|c rest] eqn:He.
  { split; [done|]. intros (_ & a' & c & rest & [= <-] & He' & _). by rewrite He in He'. }
  case_bool_decide as Hc.
  - split; [done|]. intros (_ & a' & c' & rest' & [= <-] & He' & Hc'). rewrite He in He'. by injection He' as <- <-.
  - split; [|done]. intros _. split; [done|]. by exists a, c, rest.
Qed.

(** The verdict is a pass exactly when a key is set, the URL parses, the edge is
    reachable, and the upstream answers 200 with a first choice that has content;
    the request then went to the chat completions of the base URL with the key as
    its bearer token. *)
Theorem kilo_pass_exact net getenv s env req :
  kilo_run net getenv s = (env, req) ->
  KVerdict env = pass <->
  exists scheme host port r d body a c rest,
    apiKeyOf getenv <> ""%string /\
    parseKiloVerifyBaseURL (SBase s) = inl (scheme, host, port) /\ kdial net (JoinHostPort host port) = None /\
    req = Some r /\ ReqURL r = (trim_right_char "/" (SBase s) ++ "/chat/completions")%string /\ newRequest net (ReqURL r) = None /\
    Get (ReqHeader r) "Authorization" = ("Bearer " ++ apiKeyOf getenv)%string /\
    exchange net r = (d, inr (200, body)) /\ unmarshal zeroAnswer dec_answer (take maxBody body) = Some a /\
    elements (AChoices a) = c :: rest /\ c <> [].
Proof.
  unfold kilo_run. destruct (String.eqb_spec (apiKeyOf getenv) "") as [Hk|Hk].
  { intros [= <- <-]. split; [done|]. by intros (sc & h & p & r & d & body & a & c & rest & H & _). }
  destruct (parseKiloVerifyBaseURL (SBase s)) as [[[scheme host] port]|e].
  2: { intros [= <- <-]. split; [done|]. by intros (sc & h & p & r & d & body & a & c & rest & _ & H & _). }
  destruct (kdial net (JoinHostPort host port)) as [e|] eqn:Hd.
  { intros [= <- <-]. split; [done|]. intros (sc & h & p & r & d & body & a & c & rest & _ & [= <- <- <-] & H & _). by rewrite Hd in H. }
  set (url := (trim_right_char "/" (SBase s) ++ "/chat/completions")%string).
  destruct (newRequest net url) as [e|] eqn:Hn.
  { intros [= <- <-]. split; [done|]. by intros (sc & h & p & r & d & body & a & c & rest & _ & _ & _ & H & _). }
  set (r := {| ReqURL := _ |}).
  assert (Hauth : Get (ReqHeader r) "Authorization" = ("Bearer " ++ apiKeyOf getenv)%string) by reflexivity.
  assert (Hurl : ReqURL r = url) by reflexivity. clearbody r url. destruct (exchange net r) as [d [e|[status body]]] eqn:Hx.
  { intros [= <- <-]. split; [done|]. intros (sc & h & p & r' & d' & body & a & c & rest & _ & _ & _ & [= <-] & _ & _ & _ & H & _).
    by rewrite Hx in H. }
  intros [= <- <-]. rewrite judge_pass. split.
  - intros (-> & a & c & rest & Ha & He & Hc). exists scheme, host, port, r, d, body, a, c, rest. rewrite Hurl. tauto.
  - intros (sc & h & p & r' & d' & body' & a & c & rest & _ & _ & _ & [= <-] & _ & _ & _ & H & Ha & He & Hc).
    rewrite Hx in H. injection H as <- -> <-. split; [done|]. by exists a, c, rest.
Qed.

(** Two requests that differ at most in their credential. *)
Definition same_but_key (r r' : kiloRequest) : Prop :=
  ReqURL r = ReqURL r' /\ ReqBody r = ReqBody r' /\ ReqTimeout r = ReqTimeout r' /\ ReqInsecure r = ReqInsecure r' /\
  Del (ReqHeader r) "Authorization" = Del (ReqHeader r') "Authorization".

(** The envelope of [kilo-verify] does not depend on the key: two runs whose keys
    differ, against a network that answers both alike, print the same. *)
Theorem kilo_hides_key net net' getenv getenv' s :
  apiKeyOf getenv <> ""%string -> apiKeyOf getenv' <> ""%string ->
  getenv "HELIXCHANNEL_TLS_INSECURE_SKIP_VERIFY" = getenv' "HELIXCHANNEL_TLS_INSECURE_SKIP_VERIFY" ->
  (forall addr, kdial net addr = kdial net' addr) -> (forall url, newRequest net url = newRequest net' url) ->
  (forall r r', same_but_key r r' -> exchange net r = exchange net' r') ->
  (kilo_run net getenv s).1 = (kilo_run net' getenv' s).1.
Proof.
  intros Hk Hk' He Hd Hn Hx. unfold kilo_run.
  destruct (String.eqb_spec (apiKeyOf getenv) ""), (String.eqb_spec (apiKeyOf getenv') ""); try done.
  destruct (parseKiloVerifyBaseURL (SBase s)) as [[[scheme host] port]|e]; [|done]. rewrite <- Hd.
  destruct (kdial net _); [done|]. rewrite <- Hn. destruct (newRequest net _); [done|].
  set (r := {| ReqURL := _; ReqHeader := kiloHeader (apiKeyOf getenv) |}). set (r' := {| ReqURL := _; ReqHeader := kiloHeader (apiKeyOf getenv') |}).
  assert (same_but_key r r') as Hr.
  { unfold same_but_key, r, r'; cbn [ReqURL ReqBody ReqTimeout ReqInsecure ReqHeader]. rewrite He. done. }
  rewrite (Hx r r' Hr). by destruct (exchange net' r').
Qed.

(** ** endpoint-check *)

(** The recommendation is the TLS port whenever it answers, else the SSH port
    when that answers, and the status is 1 exactly when neither does; no dial is
    given more than thirty seconds. *)
Theorem endpoint_check_exact w url_host dial args fs rest host env err :
  Parse endpoint_flags args = inl (fs, rest) -> strOf fs "config" = ""%string -> strOf fs "host" = host -> host <> ""%string ->
  runEndpointCheck w url_host dial args = (env, err) ->
  exists t e, 0 < t <= 30 * Second /\ env = Some e /\ EHost e = host /\
    let open port := dialError (dial (JoinHostPort (to_bytes host) (to_bytes (strOf fs port))) t) = None in
    (Recommendation e = "tcp443"%string <-> open "tcp443-port"%string) /\
    (Recommendation e = "tcp22"%string <-> ~ open "tcp443-port"%string /\ open "tcp22-port"%string) /\
    (exit_code err = 1 <-> ~ open "tcp443-port"%string /\ ~ open "tcp22-port"%string) /\
    (exit_code err = 0 \/ exit_code err = 1).
Proof.
  intros Hp Hc Hh Hne Hrun. unfold runEndpointCheck in Hrun. rewrite Hp, Hc in Hrun. cbn [String.eqb] in Hrun.
  rewrite Hh in Hrun. destruct (String.eqb_spec host "") as [|_]; [done|].
  set (t := if _ || _ then 2 * Second else _) in Hrun. exists t.
  assert (Ht : 0 < t <= 30 * Second) by (unfold t; destruct ((durOf fs "probe-timeout" <=? 0) || (30 * Second <? durOf fs "probe-timeout")) eqn:E;
    [unfold Second; lia|apply orb_false_iff in E as [E1 E2]; zbool; done || lia]).
  clearbody t. unfold probeHostPort in Hrun.
  remember (dial (JoinHostPort (to_bytes host) (to_bytes (strOf fs "tcp443-port"))) t) as d443.
  remember (dial (JoinHostPort (to_bytes host) (to_bytes (strOf fs "tcp22-port"))) t) as d22.
  injection Hrun as <- <-. eexists. split; [done|]. split; [done|]. split; [done|]. cbn [Recommendation]. rewrite <- Heqd443, <- Heqd22.
  destruct (dialError d443), (dialError d22); cbn; repeat split; intros; repeat match goal with H : _ /\ _ |- _ => destruct H end;
    done || (by left) || by right.
Qed.

(** ** doctor *)

(** [pass] for the firewall means that the API answered 200 with a port state
    that opens TCP 443 alone. *)
Theorem lightsail_pass_exact getenv get :
  getenv "LIGHTSAIL_API_BASE" <> ""%string ->
  checkLightsailTCP443 getenv get = "pass"%string <->
  exists url body ps st, get url = inr (200, Some body) /\
    url = (getenv "LIGHTSAIL_API_BASE" ++ "/instances/" ++
           (if getenv "HELIXCHANNEL_INSTANCE_NAME" =s "" then "helixon-tunnel" else getenv "HELIXCHANNEL_INSTANCE_NAME") ++ "/port-states")%string /\
    unmarshal nil_slice dec_portStates body = Some ps /\ st ∈ elements ps /\
    FromPort st = 443 /\ ToPort st = 443 /\ Protocol st = to_bytes "tcp" /\ State st = to_bytes "open".
Proof.
  intros Hb. unfold checkLightsailTCP443. destruct (String.eqb_spec (getenv "LIGHTSAIL_API_BASE") "") as [|_]; [done|].
  set (url := (_ ++ _)%string). destruct (get url) as [e|[status body]] eqn:Hg.
  { split; [done|]. intros (u & b & ps & st & H & -> & _). by rewrite Hg in H. }
  destruct (Z.eqb_spec status 200) as [->|Hs]; cbn [negb].
  2: { split; [done|]. intros (u & b & ps & st & H & -> & _). rewrite Hg in H. by injection H. }
  destruct body as [body|]; [|split; [done|]; intros (u & b & ps & st & H & -> & _); by rewrite Hg in H].
  destruct (unmarshal nil_slice dec_portStates body) as [ps|] eqn:Hu.
  2: { split; [done|]. intros (u & b & ps & st & H & -> & Hps & _). rewrite Hg in H. injection H as <-. by rewrite Hu in Hps. }
  destruct (existsb open443 (elements ps)) eqn:Hx.
  - split; [|done]. intros _. apply existsb_exists in Hx as (st & Hin & Ho). unfold open443 in Ho. rewrite !andb_true_iff, !bool_decide_eq_true in Ho.
    destruct Ho as (((H1%Z.eqb_eq & H2%Z.eqb_eq) & H3) & H4). exists url, body, ps, st. rewrite list_elem_of_In. done.
  - split; [done|]. intros (u & b & ps' & st & H & -> & Hps & Hin & H1 & H2 & H3 & H4). rewrite Hg in H. injection H as <-.
    rewrite Hu in Hps. injection Hps as <-. exfalso. assert (existsb open443 (elements ps) = true); [|congruence].
    apply existsb_exists. exists st. rewrite <- list_elem_of_In. split; [done|]. unfold open443. by rewrite H1, H2, H3, H4.
Qed.

(** Whatever the checks report, [doctor] succeeds once it could print. *)
Theorem doctor_always_succeeds getenv stat getwd get :
  exit_code (runDoctor getenv stat getwd get true).2 = 0.
Proof. reflexivity. Qed.

(** ** Examples and witnesses *)

(** A base URL with a port, without [--host]: the host is taken with its port, so
    both dials go to a bracketed name that is no address. *)
Example base_url_port_bracketed :
  let seen := runEndpointCheck (ex_world []) (fun _ => Some "edge.example:8443"%string)
    (fun addr _ => {| latency := 0; dialError := Some addr |}) ["--base-url=https://edge.example:8443"]%string in
  (TCP22Error <$> seen.1) = Some (to_bytes "[edge.example:8443]:22") /\ (TCP443Error <$> seen.1) = Some (to_bytes "[edge.example:8443]:443").
Proof. vm_compute. split; reflexivity. Qed.

(** The environment wins over the flag. *)
Example base_url_env_wins :
  ResolveHelixChannelBaseURL (ex_env [("HELIXCHANNEL_BASE_URL", "https://a.example/")]%string) "https://b.example" = "https://a.example"%string.
Proof. vm_compute. reflexivity. Qed.

(** A probe timeout above the cap is not capped but replaced by the default. *)
Example probe_timeout_not_capped :
  let seen := runEndpointCheck (ex_world []) (fun _ => None) (fun _ t => {| latency := t; dialError := None |})
    ["--host"; "h"; "--probe-timeout"; "45s"]%string in
  TCP22LatencyMs <$> seen.1 = Some 2000.
Proof. vm_compute. reflexivity. Qed.

(** An IPv6 literal without a port keeps its brackets as a host, and the dial
    brackets it again. *)
Example ipv6_url_double_bracketed :
  match parseKiloVerifyBaseURL "https://[::1]/v1" with
  | inl (_, host, port) => JoinHostPort host port = to_bytes "[[::1]]:443"
  | inr _ => False
  end.
Proof. vm_compute. reflexivity. Qed.

(** The preview is cut inside a two-byte rune. *)
Example preview_cuts_rune :
  truncateKiloVerify (repeat "a"%char 79 ++ [byte 195; byte 169]) 80 = repeat "a"%char 79 ++ byte 195 :: to_bytes "...".
Proof. vm_compute. reflexivity. Qed.

(** The router reads yes as on and the tool as off. *)
Example enabled_readers_disagree : routerEnabledFromEnv "yes" = true /\ helixChannelEnabledFromEnv "yes" = false.
Proof. vm_compute. split; reflexivity. Qed.

(** The CDP probe runs although its URL is set to the empty string. *)
Example cdp_empty_still_probed :
  checkCDPReachable (ex_env [("HELIXCHANNEL_CDP_URL", "")]%string) (fun url => if url =s "http://127.0.0.1:9222/json/version" then inr (200, Some []) else inl []) = "pass"%string.
Proof. vm_compute. reflexivity. Qed.

Definition quote_marks (s : string) : bytes := (fun c => if Ascii.eqb c "'" then byte 34 else c) <$> to_bytes s.

Definition ex_answer : bytes := quote_marks "{'id':'r1','choices':[{'message':{'content':'pong'}}]}".

Definition ex_net : kiloNet :=
  {| kdial := fun a => if bool_decide (a = to_bytes "edge.example:8443") then None else Some (to_bytes "connection refused");
     newRequest := fun _ => None; exchange := fun _ => (712 * Millisecond, inr (200, ex_answer)) |}.

Definition ex_settings : settings :=
  {| SBase := "https://edge.example:8443/v1/"; SModel := "MiniMax-M3"; STimeout := 30 * Second; SInsecure := false |}.

Definition ex_key_env (k : string) : string -> string := ex_env [("KILO_CODE_API_KEY", k)]%string.

Lemma kilo_url_parsed_witness :
  parseKiloVerifyBaseURL "https://edge.example:8443/v1" = inl ("https"%string, to_bytes "edge.example", to_bytes "8443").
Proof.
  refine (proj1 (kilo_url_parsed "https" (to_bytes "edge.example") (to_bytes "8443") (to_bytes "v1") (or_introl eq_refl) _ _ _)).
  - split_and!; [by apply plain_url|..]; repeat constructor; discriminate.
  - split_and!; [by apply plain_url|..]; repeat constructor; discriminate.
  - by apply plain_url.
Defined.

Lemma kilo_pass_exact_witness :
  KVerdict (kilo_run ex_net (ex_key_env " k1 ") ex_settings).1 = pass.
Proof.
  apply (kilo_pass_exact ex_net (ex_key_env " k1 ") ex_settings _ _ (surjective_pairing _)).
  eexists "https"%string, (to_bytes "edge.example"), (to_bytes "8443"), _, (712 * Millisecond), ex_answer,
    {| AID := to_bytes "r1"; AModel := []; AChoices := {| backing := [to_bytes "pong"]; slen := 1 |} |}, (to_bytes "pong"), [].
  split; [vm_compute; discriminate|]. split; [vm_compute; reflexivity|]. split; [vm_compute; reflexivity|].
  split; [reflexivity|]. split; [vm_compute; reflexivity|]. split; [reflexivity|]. split; [vm_compute; reflexivity|].
  split; [reflexivity|]. split; [vm_compute; reflexivity|]. split; [vm_compute; reflexivity|]. vm_compute. discriminate.
Defined.

Lemma kilo_hides_key_witness :
  (kilo_run ex_net (ex_key_env "alpha") ex_settings).1 = (kilo_run ex_net (ex_key_env "omega") ex_settings).1.
Proof.
  apply kilo_hides_key; [vm_compute; discriminate|vm_compute; discriminate|vm_compute; reflexivity|reflexivity|reflexivity|reflexivity].
Defined.

Lemma endpoint_check_exact_witness :
  exists env err, runEndpointCheck (ex_world []) (fun _ => None) (fun a _ => {| latency := 5; dialError := if bool_decide (a = to_bytes "h:22") then None else Some [] |})
    ["--host"; "h"]%string = (env, err) /\ (exit_code err = 0 \/ exit_code err = 1).
Proof.
  set (dial := fun (a : bytes) (_ : Duration) => {| latency := 5; dialError := if bool_decide (a = to_bytes "h:22") then None else Some [] |}).
  destruct (runEndpointCheck (ex_world []) (fun _ => None) dial ["--host"; "h"]%string) as [env err] eqn:E.
  exists env, err. split; [reflexivity|].
  destruct (endpoint_check_exact (ex_world []) (fun _ => None) dial ["--host"; "h"]%string
    (apply_assignments endpoint_flags [({| AName := "host"; AText := "h"; ASeparate := true |}, VStr "h")]) [] "h" env err
    ltac:(vm_compute; reflexivity) ltac:(vm_compute; reflexivity) ltac:(vm_compute; reflexivity) ltac:(discriminate) E) as (t & e & _ & _ & _ & _ & _ & _ & H).
  exact H.
Defined.

Lemma lightsail_pass_exact_witness :
  checkLightsailTCP443 (ex_env [("LIGHTSAIL_API_BASE", "http://l")]%string)
    (fun _ => inr (200, Some (quote_marks "{'portStates':[{'fromPort':443,'toPort':443,'protocol':'tcp','state':'open'}]}"))) = "pass"%string.
Proof.
  apply lightsail_pass_exact; [vm_compute; discriminate|].
  eexists _, _, {| backing := [{| FromPort := 443; ToPort := 443; Protocol := to_bytes "tcp"; State := to_bytes "open" |}]; slen := 1 |},
    {| FromPort := 443; ToPort := 443; Protocol := to_bytes "tcp"; State := to_bytes "open" |}.
  split; [reflexivity|]. split; [reflexivity|]. split; [vm_compute; reflexivity|]. split; [by apply list_elem_of_singleton|].
  split_and!; reflexivity.
Defined.

End Diagnostics.
