(* ===== verification/GatewayConfig.v ===== *)
(** * Validation of the gateway configuration

    Models [Config.Validate] of [src/internal/channel/config.go] with the
    validators it calls, and the advisories of [budget_advisory.go].  Validation
    fills in defaults, so it returns the completed configuration or the error
    of the first failing rule; an error is the constructor of its message. *)

From Stdlib Require Import ZArith Lia Ascii String.
From stdpp Require Import base option list gmap strings.
From S2P Require Import Prelude GoStrings Net Float64 Rotation RotationStore ConnectTarget GatewayTypes Secret Headers.

Module GatewayConfig.
Import GoStrings GatewayTypes Secret Headers.

Inductive ConfigError : Type :=
  | ListenRequired | TimeoutNegative
  | NameRequired (i : nat) | DuplicateName (name : string) | PrefixRequired (name : string)
  | PrefixSlashes (name : string) | DuplicatePrefix (name : string)
  | UpstreamRequired (name : string) | UpstreamScheme (name : string)
  | MixedKeySources (name : string) | EmptyKeyList (name field : string)
  | BlankSource (name field : string) | DuplicateSource (name field item : string)
  | BadRef (name : string) (e : SecretError) | BadRefAt (name : string) (i : nat) (e : SecretError)
  | KeyHeaderMode (name : string) | KeyPrefixMode (name : string)
  | NoKeySource (name : string) | PassthroughKeys (name : string) | UnknownAuth (name : string)
  | KeyHeaderRequired (name : string) | KeyHeaderInvalid (name : string)
  | KeyHeaderHopByHop (name : string) | KeyHeaderHost (name : string)
  | RotationPassthrough (name : string) | RotationNeedsPool (name : string) | UnknownPolicy (name : string)
  | LeastTokensHeader (name : string)
  | SoftRatioRange (name : string) | WindowNegative (name : string)
  | WindowRequired (name : string) | EstimateRequired (name : string)
  | MaxRetryNegative (name : string) | RouteTimeoutNegative (name : string)
  | TLSPair
  | AllowedHostsRequired | ConnectTokenRequired | ConnectBadRef (e : SecretError)
  | AllowedHostSyntax (h : string) | AllowedHostSelf (h : string) (why : ConnectTarget.selfReference)
  | MaxConcurrentNegative | IdleTimeoutNegative
  | AESListenRequired | AESListenSame | AESTLSPair | AESTLSRequired | AESKeyRequired
  | GatewayBadRef (e : SecretError) | GatewayContradiction | ExemptNeedsToken
  | TokenlessReachable (hint : option ConnectTarget.listenHint).

Abbreviation checked A := (A + ConfigError)%type.

Definition bind {A B} (m : checked A) (f : A -> checked B) : checked B :=
  match m with
  | inl a => f a
  | inr e => inr e
  end.
Notation "'let!' x := m 'in' k" := (bind m (fun x => k)) (at level 10, x pattern, k at level 200).

(** [guard b e]: fail with [e] when [b] holds. *)
Definition guard (b : bool) (e : ConfigError) : checked unit := if b then inr e else inl ().

Definition from_err (o : option SecretError) (e : SecretError -> ConfigError) : checked unit :=
  match o with Some x => inr (e x) | None => inl () end.

(** ** filepath.Clean *)

Fixpoint clean_parts (rooted : bool) (parts stack : list bytes) : list bytes :=
  match parts with
  | [] => rev stack
  | p :: ps =>
      if Nat.eqb (length p) 0 || bool_decide (p = to_bytes ".") then clean_parts rooted ps stack
      else if bool_decide (p = to_bytes "..") then
        match stack with
        | q :: stack' =>
            if bool_decide (q = to_bytes "..") then clean_parts rooted ps (p :: stack)
            else clean_parts rooted ps stack'
        | [] => clean_parts rooted ps (if rooted then [] else [p])
        end
      else clean_parts rooted ps (p :: stack)
  end.

Fixpoint join_slash (parts : list bytes) : bytes :=
  match parts with
  | [] => []
  | [p] => p
  | p :: ps => p ++ "/"%char :: join_slash ps
  end.

Definition Clean (path : string) : bytes :=
  let b := to_bytes path in
  let rooted := bool_decide (head b = Some "/"%char) in
  let body := join_slash (clean_parts rooted (Net.split "/" b) []) in
  if rooted then "/"%char :: body
  else if Nat.eqb (length body) 0 then to_bytes "." else body.

(** ** Routes *)

Fixpoint dup_sources (route field : string) (clean : bool) (items : list string) (seen : list bytes)
    : checked unit :=
  match items with
  | [] => inl ()
  | item :: items' =>
      if TrimSpace item =s "" then inr (BlankSource route field)
      else
        let k := if clean then Clean item else to_bytes item in
        if bool_decide (k ∈ seen) then inr (DuplicateSource route field item)
        else dup_sources route field clean items' (k :: seen)
  end.

Definition rejectDuplicateSources (route field : string) (items : list string) (clean : bool) : checked unit :=
  dup_sources route field clean items [].

Definition check_list (route field : string) (items : option (list string)) (clean : bool) : checked unit :=
  match items with
  | None => inl ()
  | Some [] => inr (EmptyKeyList route field)
  | Some l => rejectDuplicateSources route field l clean
  end.

Fixpoint check_refs (route : string) (i : nat) (refs : list string) : checked unit :=
  match refs with
  | [] => inl ()
  | ref :: refs' =>
      let! _ := from_err (validateSecretRef ref) (BadRefAt route i) in check_refs route (S i) refs'
  end.

Definition validateKeySources (r : Route) : checked unit :=
  let! _ := guard (hasSingularKeys r && hasPluralKeys r) (MixedKeySources (Name r)) in
  let! _ := check_list (Name r) "key_envs" (KeyEnvs r) false in
  let! _ := check_list (Name r) "key_files" (KeyFiles r) true in
  let! _ := check_list (Name r) "key_refs" (KeyRefs r) false in
  let! _ := from_err (validateSecretRef (KeyRef r)) (BadRef (Name r)) in
  check_refs (Name r) 0 (default [] (KeyRefs r)).

Definition validateKeyHeader (r : Route) : checked unit :=
  let! _ := guard (KeyHeader r =s "") (KeyHeaderRequired (Name r)) in
  let! _ := guard (negb (validHeaderName (KeyHeader r))) (KeyHeaderInvalid (Name r)) in
  let! _ := guard (hopByHop (ToLower (KeyHeader r))) (KeyHeaderHopByHop (Name r)) in
  guard (EqualFold (KeyHeader r) "Host") (KeyHeaderHost (Name r)).

Definition validateAuthMode (r : Route) : checked unit :=
  let! _ :=
    if negb (Auth r =s AuthHeaderInject) then
      let! _ := guard (negb (KeyHeader r =s "")) (KeyHeaderMode (Name r)) in
      guard (negb (KeyPrefix r =s "")) (KeyPrefixMode (Name r))
    else inl () in
  if (Auth r =s AuthInject) || (Auth r =s AuthHeaderInject) then
    let! _ := guard (negb (hasSingularKeys r) && negb (hasPluralKeys r)) (NoKeySource (Name r)) in
    if Auth r =s AuthHeaderInject then validateKeyHeader r else inl ()
  else if Auth r =s AuthPassthrough then
    guard (hasSingularKeys r || hasPluralKeys r) (PassthroughKeys (Name r))
  else inr (UnknownAuth (Name r)).

Definition validateBudget (name : string) (b : RotationStore.Budget) : checked RotationStore.Budget :=
  let! _ := guard (Float64.ltb (RotationStore.SoftRatio b) Float64.zero ||
                   Float64.ltb Float64.one (RotationStore.SoftRatio b)) (SoftRatioRange name) in
  let! _ := guard (RotationStore.Window b <? 0) (WindowNegative name) in
  let! _ := guard ((RotationStore.Window b =? 0) &&
                   ((0 <? RotationStore.BTokens b) || (0 <? RotationStore.BRequests b))) (WindowRequired name) in
  let! _ := guard ((0 <? RotationStore.BTokens b) && (RotationStore.EstimateTokens b <=? 0)) (EstimateRequired name) in
  inl {| RotationStore.Window := RotationStore.Window b;
         RotationStore.BTokens := RotationStore.BTokens b;
         RotationStore.BRequests := RotationStore.BRequests b;
         RotationStore.SoftRatio :=
           if Float64.leb (RotationStore.SoftRatio b) Float64.zero &&
              Float64.leb Float64.zero (RotationStore.SoftRatio b)
           then RotationStore.DefaultSoftRatio else RotationStore.SoftRatio b;
         RotationStore.EstimateTokens := RotationStore.EstimateTokens b |}.

Definition validateRotation (r : Route) : checked (option RotationConfig) :=
  match Rotation_ r with
  | None => inl None
  | Some rot =>
      let! _ := guard (Auth r =s AuthPassthrough) (RotationPassthrough (Name r)) in
      let! _ := guard (negb (hasPluralKeys r)) (RotationNeedsPool (Name r)) in
      let! _ := guard (bool_decide (Rotation.NewPolicy (Policy rot) = None)) (UnknownPolicy (Name r)) in
      let policy := if Policy rot =s "" then "round_robin"%string else Policy rot in
      let! _ := guard ((Auth r =s AuthHeaderInject) && (policy =s "least_tokens")) (LeastTokensHeader (Name r)) in
      let! b := validateBudget (Name r) (RBudget rot) in
      let! _ := guard (MaxRetryAfter rot <? 0) (MaxRetryNegative (Name r)) in
      inl (Some {| Policy := policy; RBudget := b;
                   MaxRetryAfter := if MaxRetryAfter rot =? 0 then RotationStore.DefaultMaxRetryAfter
                                    else MaxRetryAfter rot |})
  end.

Definition set_rotation (r : Route) (rot : option RotationConfig) : Route :=
  {| Name := Name r; Prefix := Prefix r; Upstream := Upstream r; Auth := Auth r; Enabled := Enabled r;
     Timeout := Timeout r; KeyEnv := KeyEnv r; KeyFile := KeyFile r; KeyRef := KeyRef r;
     KeyEnvs := KeyEnvs r; KeyFiles := KeyFiles r; KeyRefs := KeyRefs r;
     KeyHeader := KeyHeader r; KeyPrefix := KeyPrefix r; Rotation_ := rot |}.

Definition set_timeout (r : Route) (t : Duration) : Route :=
  {| Name := Name r; Prefix := Prefix r; Upstream := Upstream r; Auth := Auth r; Enabled := Enabled r;
     Timeout := t; KeyEnv := KeyEnv r; KeyFile := KeyFile r; KeyRef := KeyRef r;
     KeyEnvs := KeyEnvs r; KeyFiles := KeyFiles r; KeyRefs := KeyRefs r;
     KeyHeader := KeyHeader r; KeyPrefix := KeyPrefix r; Rotation_ := Rotation_ r |}.

Definition validateRouteAuth (r : Route) : checked Route :=
  let! _ := validateKeySources r in
  let! _ := validateAuthMode r in
  let! rot := validateRotation r in
  inl (set_rotation r rot).

(** The body of the route loop. *)
Definition validate_route (timeout : Duration) (i : nat) (seenName seenPrefix : list string) (r : Route)
    : checked Route :=
  let! _ := guard (Name r =s "") (NameRequired i) in
  let! _ := guard (bool_decide (Name r ∈ seenName)) (DuplicateName (Name r)) in
  let! _ := guard (Prefix r =s "") (PrefixRequired (Name r)) in
  let! _ := guard (negb (HasPrefix (Prefix r) "/") || negb (HasSuffix (Prefix r) "/")) (PrefixSlashes (Name r)) in
  let! _ := guard (bool_decide (Prefix r ∈ seenPrefix)) (DuplicatePrefix (Name r)) in
  let! _ := guard (Upstream r =s "") (UpstreamRequired (Name r)) in
  let! _ := guard (negb (HasPrefix (Upstream r) "https://") && negb (HasPrefix (Upstream r) "http://"))
                  (UpstreamScheme (Name r)) in
  let! r := validateRouteAuth r in
  let! _ := guard (Timeout r <? 0) (RouteTimeoutNegative (Name r)) in
  inl (if Timeout r =? 0 then set_timeout r timeout else r).

Fixpoint validate_routes (timeout : Duration) (i : nat) (seenName seenPrefix : list string) (rs : list Route)
    : checked (list Route) :=
  match rs with
  | [] => inl []
  | r :: rs' =>
      let! r := validate_route timeout i seenName seenPrefix r in
      let! rest := validate_routes timeout (S i) (Name r :: seenName) (Prefix r :: seenPrefix) rs' in
      inl (r :: rest)
  end.

(** ** The other blocks *)

Fixpoint check_hosts (listen : string) (hosts : list string) : checked unit :=
  match hosts with
  | [] => inl ()
  | h :: hosts' =>
      match Net.SplitHostPort (to_bytes h) with
      | None => inr (AllowedHostSyntax h)
      | Some (host, port) =>
          match ConnectTarget.connectSelfReference host port (to_bytes listen)
                  (ConnectTarget.isLoopbackListen (to_bytes listen)) with
          | Some why => inr (AllowedHostSelf h why)
          | None => check_hosts listen hosts'
          end
      end
  end.

Definition validateConnect (listen : string) (c : ConnectConfig) : checked ConnectConfig :=
  if negb (CEnabled c) then inl c
  else
    let! _ := guard (Nat.eqb (length (AllowedHosts c)) 0) AllowedHostsRequired in
    let! _ := guard ((CTokenEnv c =s "") && (CTokenFile c =s "") && (CTokenRef c =s "")) ConnectTokenRequired in
    let! _ := from_err (validateSecretRef (CTokenRef c)) ConnectBadRef in
    let! _ := check_hosts listen (AllowedHosts c) in
    let! _ := guard (MaxConcurrent c <? 0) MaxConcurrentNegative in
    let! _ := guard (IdleTimeout c <? 0) IdleTimeoutNegative in
    inl {| CEnabled := CEnabled c; AllowedHosts := AllowedHosts c; CTokenEnv := CTokenEnv c;
           CTokenFile := CTokenFile c; CTokenRef := CTokenRef c;
           DialTimeout := if DialTimeout c =? 0 then 10 * Second else DialTimeout c;
           MaxConcurrent := if MaxConcurrent c =? 0 then DefaultConnectMaxConcurrent else MaxConcurrent c;
           IdleTimeout := if IdleTimeout c =? 0 then DefaultConnectIdleTimeout else IdleTimeout c |}.

Definition validateAES (listen : string) (a : AESConfig) : checked unit :=
  if negb (AESEnabled a) then inl ()
  else
    let! _ := guard (AESListen a =s "") AESListenRequired in
    let! _ := guard (AESListen a =s listen) AESListenSame in
    let! _ := guard (negb (eqb (CertFile (AESTLS a) =s "") (TLSKeyFile (AESTLS a) =s ""))) AESTLSPair in
    let! _ := guard (negb (TLSEnabled (AESTLS a))) AESTLSRequired in
    guard ((AESKeyEnv a =s "") && (AESKeyFile a =s "") && (AESKeyRef a =s "")) AESKeyRequired.

Definition validateGatewayAuth (listen : string) (g : GatewayAuthConfig) : checked unit :=
  let! _ := from_err (validateSecretRef (GTokenRef g)) GatewayBadRef in
  let! _ := guard (hasToken g && AllowUnauthenticated g) GatewayContradiction in
  if hasToken g then inl ()
  else
    let! _ := guard (bool_decide (ExemptLoopback g = Some false)) ExemptNeedsToken in
    guard (negb (AllowUnauthenticated g) && negb (ConnectTarget.isLoopbackListen (to_bytes listen)))
      (TokenlessReachable (ConnectTarget.loopbackListenHint (to_bytes listen))).

Definition Validate (c : Config) : checked Config :=
  let! _ := guard (Listen c =s "") ListenRequired in
  let! _ := guard (CTimeout c <? 0) TimeoutNegative in
  let timeout := if CTimeout c =? 0 then DefaultTimeout else CTimeout c in
  let! rs := validate_routes timeout 0 [] [] (Routes c) in
  let! _ := guard (negb (eqb (CertFile (TLS c) =s "") (TLSKeyFile (TLS c) =s ""))) TLSPair in
  let! conn := validateConnect (Listen c) (Connect c) in
  let! _ := validateAES (Listen c) (AES c) in
  let! _ := validateGatewayAuth (Listen c) (GatewayAuth c) in
  inl {| Listen := Listen c; CTimeout := timeout; Routes := rs; Connect := conn;
         GatewayAuth := GatewayAuth c; TLS := TLS c; AES := AES c;
         TrustForwardedForAudit := TrustForwardedForAudit c |}.

(** ** Advisories *)

Record BudgetAdvisory := {
  ARoute : string;
  AEnabled : bool;
  ATokens : Z;
  AEstimateTokens : Z;
  AWindow : Duration;
}.

Definition ConcurrentLeases (a : BudgetAdvisory) : Z :=
  if AEstimateTokens a <=? 0 then 0
  else Z.quot (wrap64 (ATokens a + AEstimateTokens a - 1)) (AEstimateTokens a).

Definition TokenBudgetAdvisories (c : Config) : list BudgetAdvisory :=
  omap (fun r =>
    match Rotation_ r with
    | None => None
    | Some rot =>
        let b := RBudget rot in
        if RotationStore.BTokens b <=? 0 then None
        else Some {| ARoute := Name r; AEnabled := Enabled r; ATokens := RotationStore.BTokens b;
                     AEstimateTokens := RotationStore.EstimateTokens b; AWindow := RotationStore.Window b |}
    end) (Routes c).

Record UncappedPoolAdvisory := {
  URoute : string;
  UEnabled : bool;
  UKeys : nat;
  UPolicy : string;
}.

Definition UncappedPoolAdvisories (c : Config) : list UncappedPoolAdvisory :=
  omap (fun r =>
    if negb (hasPluralKeys r) then None
    else
      if match Rotation_ r with
         | Some rot => (0 <? RotationStore.BRequests (RBudget rot)) || (0 <? RotationStore.BTokens (RBudget rot))
         | None => false
         end then None
      else Some {| URoute := Name r; UEnabled := Enabled r; UKeys := declaredKeyCount r;
                   UPolicy := match Rotation_ r with Some rot => Policy rot | None => "" end |})
    (Routes c).

Definition policyOrDefault (p : string) : string := if p =s "" then "round_robin" else p.

(** ** What a validated configuration guarantees *)

Definition budget_ok (b : RotationStore.Budget) : Prop :=
  0 <= RotationStore.Window b /\
  ((0 < RotationStore.BTokens b \/ 0 < RotationStore.BRequests b) -> 0 < RotationStore.Window b) /\
  (0 < RotationStore.BTokens b -> 0 < RotationStore.EstimateTokens b).

Definition route_ok (r : Route) : Prop :=
  Name r <> "" /\ 0 < Timeout r /\
  (HasPrefix (Prefix r) "/" = true /\ HasSuffix (Prefix r) "/" = true) /\
  (HasPrefix (Upstream r) "https://" = true \/ HasPrefix (Upstream r) "http://" = true) /\
  (Auth r = AuthPassthrough /\ hasSingularKeys r = false /\ hasPluralKeys r = false /\ Rotation_ r = None \/
   (Auth r = AuthInject \/
    Auth r = AuthHeaderInject /\ validHeaderName (KeyHeader r) = true /\
    hopByHop (ToLower (KeyHeader r)) = false /\ EqualFold (KeyHeader r) "Host" = false) /\
   hasSingularKeys r = negb (hasPluralKeys r)) /\
  (forall rot, Rotation_ r = Some rot -> hasPluralKeys r = true /\ budget_ok (RBudget rot) /\
     0 < MaxRetryAfter rot /\ Rotation.NewPolicy (Policy rot) <> None).

Definition connect_ok (listen : string) (c : ConnectConfig) : Prop :=
  CEnabled c = true ->
  AllowedHosts c <> [] /\ 0 < MaxConcurrent c /\ 0 < IdleTimeout c /\
  Forall (fun h => exists host port, Net.SplitHostPort (to_bytes h) = Some (host, port) /\
    ConnectTarget.connectSelfReference host port (to_bytes listen)
      (ConnectTarget.isLoopbackListen (to_bytes listen)) = None) (AllowedHosts c).

(** ** Lemmas *)

Lemma bind_inl {A B} (m : checked A) (f : A -> checked B) b :
  bind m f = inl b <-> exists a, m = inl a /\ f a = inl b.
Proof. destruct m; simpl; split; [eauto | by intros (? & [= <-] & ?) | done | by intros (? & ? & _)]. Qed.

Lemma guard_inl b e u : guard b e = inl u <-> b = false.
Proof. destruct b, u; done. Qed.

Lemma from_err_inl o e u : from_err o e = inl u <-> o = None.
Proof. destruct o, u; done. Qed.

(** [inv_checked] opens the checks a successful validation passed;
    [run_checked] replays them. *)
Ltac inv_checked :=
  repeat match goal with
  | H : bind _ _ = inl _ |- _ => apply bind_inl in H as (? & ? & H)
  | H : guard _ _ = inl _ |- _ => apply guard_inl in H
  | H : from_err _ _ = inl _ |- _ => apply from_err_inl in H
  | H : inl _ = inl _ |- _ => injection H as H
  | u : unit |- _ => destruct u
  end.

Ltac run_checked :=
  repeat match goal with
  | |- bind (guard _ _) _ = inl _ => apply bind_inl; exists (); split; [apply guard_inl; try done|]
  | |- bind (from_err _ _) _ = inl _ => apply bind_inl; exists (); split; [apply from_err_inl; try done|]
  | |- bind _ _ = inl _ => apply bind_inl; eexists; split; [eassumption|]
  | |- guard _ _ = inl _ => apply guard_inl; try done
  end.

Lemma validateBudget_ok name b b' : validateBudget name b = inl b' -> budget_ok b'.
Proof.
  unfold validateBudget. intros H. inv_checked. subst b'. unfold budget_ok; simpl.
  repeat match goal with H : (_ && _) = false |- _ => apply andb_false_iff in H
                       | H : (_ || _) = false |- _ => apply orb_false_iff in H as [? ?] end.
  zbool; try lia; intuition lia.
Qed.

Lemma validateBudget_idem name b b' : validateBudget name b = inl b' -> validateBudget name b' = inl b'.
Proof.
  unfold validateBudget. intros H. inv_checked. subst b'. destruct b as [w t q sr e]; simpl in *.
  destruct (Float64.leb sr Float64.zero && Float64.leb Float64.zero sr) eqn:Ez.
  - run_checked. reflexivity.
  - run_checked. by rewrite Ez.
Qed.

Lemma policy_default_ok p :
  Rotation.NewPolicy p <> None -> Rotation.NewPolicy (if p =s "" then "round_robin" else p) <> None.
Proof. zbool; done. Qed.

Lemma validateRotation_ok r rot :
  validateRotation r = inl (Some rot) -> hasPluralKeys r = true /\ budget_ok (RBudget rot) /\
    0 < MaxRetryAfter rot /\ Rotation.NewPolicy (Policy rot) <> None.
Proof.
  unfold validateRotation. destruct (Rotation_ r) as [rot0|]; [|done]. intros H. inv_checked. subst rot. simpl.
  apply negb_false_iff in H1. apply bool_decide_eq_false in H2. split_and!; auto.
  - by eapply validateBudget_ok.
  - rewrite Z.ltb_ge in *. destruct (Z.eqb_spec (MaxRetryAfter rot0) 0); [done|lia].
  - by apply policy_default_ok.
Qed.

Lemma validateRotation_idem r rot :
  validateRotation r = inl rot -> validateRotation (set_rotation r rot) = inl rot.
Proof.
  unfold validateRotation. destruct (Rotation_ r) as [rot0|] eqn:E.
  2: { intros [= <-]. done. }
  intros H. inv_checked. subst rot. cbn [Rotation_ set_rotation].
  match goal with H : validateBudget _ _ = inl _ |- _ => apply validateBudget_idem in H as Hb end.
  assert (Hp : forall p, (if (if p =s "" then "round_robin" else p) =s "" then "round_robin"%string
                          else if p =s "" then "round_robin" else p) = if p =s "" then "round_robin"%string else p).
  { intros p. destruct (String.eqb_spec p "") as [->|Hne]; [done|]. by destruct (String.eqb_spec p ""). }
  cbn [Policy RBudget MaxRetryAfter]. rewrite Hp. run_checked.
  - apply bool_decide_eq_false. apply policy_default_ok. by apply bool_decide_eq_false in H2.
  - by destruct (MaxRetryAfter rot0 =? 0) eqn:Em.
  - simpl. destruct (MaxRetryAfter rot0 =? 0) eqn:Em; [done|]. by rewrite Em.
Qed.

(** The auth clause of [route_ok], from the three validators. *)
Lemma validateAuthMode_ok r rot :
  validateKeySources r = inl () -> validateAuthMode r = inl () -> validateRotation r = inl rot ->
  Auth r = AuthPassthrough /\ hasSingularKeys r = false /\ hasPluralKeys r = false /\ rot = None \/
  (Auth r = AuthInject \/
   Auth r = AuthHeaderInject /\ validHeaderName (KeyHeader r) = true /\
   hopByHop (ToLower (KeyHeader r)) = false /\ EqualFold (KeyHeader r) "Host" = false) /\
  hasSingularKeys r = negb (hasPluralKeys r).
Proof.
  unfold validateKeySources, validateAuthMode. intros Hk Ha Hr. inv_checked.
  assert (Hx : hasSingularKeys r && hasPluralKeys r = false) by done.
  assert (Hone : negb (hasSingularKeys r) && negb (hasPluralKeys r) = false ->
                 hasSingularKeys r = negb (hasPluralKeys r))
    by (destruct (hasSingularKeys r), (hasPluralKeys r); done).
  destruct (String.eqb_spec (Auth r) AuthInject) as [Hi|Hi]; cbn [orb] in Ha.
  { inv_checked. right. split; [by left|auto]. }
  destruct (String.eqb_spec (Auth r) AuthHeaderInject) as [Hh|Hh].
  { inv_checked. unfold validateKeyHeader in Ha. inv_checked. right. split; [right|auto].
    split_and!; try done. by apply negb_false_iff. }
  destruct (String.eqb_spec (Auth r) AuthPassthrough) as [Hp|Hp]; [|done].
  inv_checked. apply orb_false_iff in Ha as [Hs Hpl]. left. split_and!; try done.
  unfold validateRotation in Hr. destruct (Rotation_ r); [|congruence]. inv_checked.
  by rewrite Hp in *.
Qed.

Lemma validate_route_ok timeout i sn sp r r' :
  0 < timeout -> validate_route timeout i sn sp r = inl r' ->
  route_ok r' /\ (Name r' ∉ sn) /\ (Prefix r' ∉ sp) /\ Name r' = Name r /\ Prefix r' = Prefix r.
Proof.
  intros Ht H. unfold validate_route, validateRouteAuth in H. inv_checked. subst.
  match goal with Hk : validateKeySources r = _, Hm : validateAuthMode r = _, Hr : validateRotation r = inl ?rot |- _ =>
    pose proof (validateAuthMode_ok r rot Hk Hm Hr) as Hauth end.
  match goal with H : (Timeout (set_rotation _ _) <? 0) = false |- _ => rename H into Hto end.
  simpl in Hto. apply Z.ltb_ge in Hto.
  match goal with H : bool_decide (Name r ∈ sn) = false |- _ => apply bool_decide_eq_false in H end.
  match goal with H : bool_decide (Prefix r ∈ sp) = false |- _ => apply bool_decide_eq_false in H end.
  match goal with H : orb (negb (HasPrefix (Prefix r) _)) _ = false |- _ =>
    apply orb_false_iff in H as [Hp1%negb_false_iff Hp2%negb_false_iff] end.
  match goal with H : andb (negb (HasPrefix (Upstream r) _)) _ = false |- _ => rename H into Hup end.
  match goal with H : (Name r =s "") = false |- _ => rename H into Hn end.
  apply String.eqb_neq in Hn.
  assert (Hrot : forall rot', x10 = Some rot' -> hasPluralKeys r = true /\ budget_ok (RBudget rot') /\
     0 < MaxRetryAfter rot' /\ Rotation.NewPolicy (Policy rot') <> None)
    by (intros rot' ->; by eapply validateRotation_ok).
  assert (Hup' : HasPrefix (Upstream r) "https://" = true \/ HasPrefix (Upstream r) "http://" = true)
    by (apply andb_false_iff in Hup as [?%negb_false_iff|?%negb_false_iff]; auto).
  destruct (Z.eqb_spec (Timeout (set_rotation r x10)) 0) as [|Hne]; simpl in *;
    (split_and!; [|done..]); unfold route_ok, set_timeout, set_rotation; simpl; split_and!; auto; lia.
Qed.

Lemma validate_routes_ok timeout i sn sp rs rs' :
  0 < timeout -> validate_routes timeout i sn sp rs = inl rs' ->
  Forall route_ok rs' /\ NoDup (Name <$> rs') /\ NoDup (Prefix <$> rs') /\
  (forall r, r ∈ rs' -> (Name r ∉ sn) /\ (Prefix r ∉ sp)).
Proof.
  intros Ht. revert i sn sp rs'; induction rs as [|r rs IH]; intros i sn sp rs' H; cbn [validate_routes] in H.
  - injection H as <-. split_and!; try constructor; by apply not_elem_of_nil in H.
  - inv_checked. subst rs'.
    match goal with H : validate_route _ _ _ _ _ = _ |- _ =>
      destruct (validate_route_ok _ _ _ _ _ _ Ht H) as (Hok & Hn & Hp & _) end.
    match goal with H : validate_routes _ _ _ _ _ = _ |- _ =>
      destruct (IH _ _ _ _ H) as (HF & Hnd1 & Hnd2 & Hfresh) end.
    split_and!; simpl.
    + by constructor.
    + apply NoDup_cons. split; [|done]. intros (r' & He & Hr')%list_elem_of_fmap.
      apply Hfresh in Hr' as [Hx _]. apply Hx. rewrite <- He. by left.
    + apply NoDup_cons. split; [|done]. intros (r' & He & Hr')%list_elem_of_fmap.
      apply Hfresh in Hr' as [_ Hx]. apply Hx. rewrite <- He. by left.
    + intros r' [->|Hr']%elem_of_cons; [done|]. apply Hfresh in Hr' as [Hx Hy].
      split; [intros ?; apply Hx; by right | intros ?; apply Hy; by right].
Qed.

Lemma check_hosts_ok listen hosts :
  check_hosts listen hosts = inl () ->
  Forall (fun h => exists host port, Net.SplitHostPort (to_bytes h) = Some (host, port) /\
    ConnectTarget.connectSelfReference host port (to_bytes listen)
      (ConnectTarget.isLoopbackListen (to_bytes listen)) = None) hosts.
Proof.
  induction hosts as [|h hosts IH]; cbn [check_hosts]; [constructor|].
  destruct (Net.SplitHostPort (to_bytes h)) as [[host port]|] eqn:E; [|done].
  destruct (ConnectTarget.connectSelfReference _ _ _ _) eqn:Es; [done|]. intros H.
  constructor; [eauto|auto].
Qed.

Lemma validateConnect_ok listen c c' : validateConnect listen c = inl c' -> connect_ok listen c'.
Proof.
  unfold validateConnect, connect_ok. destruct (CEnabled c) eqn:E; simpl.
  2: { intros [= <-] ?. congruence. }
  intros H _. inv_checked. subst c'. simpl. rewrite ?Z.ltb_ge in *. split_and!.
  - by destruct (AllowedHosts c).
  - destruct (Z.eqb_spec (MaxConcurrent c) 0); [done|lia].
  - destruct (Z.eqb_spec (IdleTimeout c) 0); [done|lia].
  - by apply check_hosts_ok.
Qed.

Lemma validateGatewayAuth_ok listen g :
  validateGatewayAuth listen g = inl () -> Mode g = ProxyAuthLoopbackOnly ->
  ConnectTarget.isLoopbackListen (to_bytes listen) = true.
Proof.
  unfold validateGatewayAuth, Mode. intros H. inv_checked.
  destruct (hasToken g); simpl; [by destruct (exemptsLoopback g)|].
  destruct (AllowUnauthenticated g); [done|]. intros _. simpl in *.
  inv_checked. by apply negb_false_iff in H.
Qed.

(** ** Replaying validation *)

Lemma validate_route_idem timeout i sn sp r r' :
  0 < timeout -> validate_route timeout i sn sp r = inl r' -> validate_route timeout i sn sp r' = inl r'.
Proof.
  intros Ht H. unfold validate_route, validateRouteAuth in H. inv_checked. subst.
  match goal with Hr : validateRotation r = inl ?rot |- _ => pose proof (validateRotation_idem r rot Hr) as Hri end.
  set (rot := x10) in *. simpl in *.
  set (t := if Timeout r =? 0 then timeout else Timeout r).
  assert (Hpos : 0 < t).
  { rewrite Z.ltb_ge in *. unfold t. destruct (Z.eqb_spec (Timeout r) 0); lia. }
  assert (Hres : (if Timeout r =? 0 then set_timeout (set_rotation r rot) timeout else set_rotation r rot) =
                 set_timeout (set_rotation r rot) t) by (unfold t; by destruct (Timeout r =? 0)).
  assert (Hra : validateRouteAuth (set_timeout (set_rotation r rot) t) = inl (set_timeout (set_rotation r rot) t)).
  { unfold validateRouteAuth.
    change (validateKeySources (set_timeout (set_rotation r rot) t)) with (validateKeySources r).
    change (validateAuthMode (set_timeout (set_rotation r rot) t)) with (validateAuthMode r).
    change (validateRotation (set_timeout (set_rotation r rot) t)) with (validateRotation (set_rotation r rot)).
    run_checked. done. }
  rewrite Hres. unfold validate_route. rewrite Hra. run_checked. cbn [bind]. run_checked.
  - apply Z.ltb_ge. simpl. lia.
  - simpl. by rewrite (proj2 (Z.eqb_neq t 0)) by lia.
Qed.

Lemma validate_routes_idem timeout i sn sp rs rs' :
  0 < timeout -> validate_routes timeout i sn sp rs = inl rs' -> validate_routes timeout i sn sp rs' = inl rs'.
Proof.
  intros Ht. revert i sn sp rs'; induction rs as [|r rs IH]; intros i sn sp rs' H; cbn [validate_routes] in H.
  - by injection H as <-.
  - inv_checked. subst rs'. cbn [validate_routes].
    match goal with H : validate_route _ _ _ _ _ = _ |- _ => apply (validate_route_idem _ _ _ _ _ _ Ht) in H; rewrite H end.
    cbn [bind]. erewrite IH by eassumption. done.
Qed.

Lemma validateConnect_idem listen c c' : validateConnect listen c = inl c' -> validateConnect listen c' = inl c'.
Proof.
  unfold validateConnect. destruct (CEnabled c) eqn:E; simpl.
  2: { intros [= <-]. by rewrite E. }
  intros H. inv_checked. subst c'. simpl. run_checked; simpl.
  - by destruct (MaxConcurrent c =? 0).
  - by destruct (IdleTimeout c =? 0).
  - destruct (DialTimeout c =? 0) eqn:E1, (MaxConcurrent c =? 0) eqn:E2, (IdleTimeout c =? 0) eqn:E3; simpl;
      by rewrite ?E1, ?E2, ?E3.
Qed.

(** ** Theorems *)

(** C22: A configuration that validates has a listen address, a positive budget on
    every route, distinct names and prefixes, routes whose auth mode, key
    sources, header name, rotation block and budget agree, a CONNECT leg that is
    bounded and does not allowlist the gateway itself, and, when it names no
    token and does not accept unauthenticated callers in writing, a loopback
    listen address. *)
Theorem validate_sound (c c' : Config) :
  Validate c = inl c' ->
  Listen c' <> "" /\ 0 < CTimeout c' /\ Forall route_ok (Routes c') /\
  NoDup (Name <$> Routes c') /\ NoDup (Prefix <$> Routes c') /\
  connect_ok (Listen c') (Connect c') /\
  (Mode (GatewayAuth c') = ProxyAuthLoopbackOnly ->
   ConnectTarget.isLoopbackListen (to_bytes (Listen c')) = true).
Proof.
  intros H. unfold Validate in H. inv_checked. subst c'. simpl.
  assert (Ht : 0 < (if CTimeout c =? 0 then DefaultTimeout else CTimeout c)).
  { rewrite Z.ltb_ge in *. destruct (Z.eqb_spec (CTimeout c) 0); [done|lia]. }
  match goal with H : validate_routes _ _ _ _ _ = _ |- _ =>
    destruct (validate_routes_ok _ _ _ _ _ _ Ht H) as (? & ? & ? & _) end.
  split_and!; auto.
  - by apply String.eqb_neq.
  - by eapply validateConnect_ok.
  - by apply validateGatewayAuth_ok.
Qed.

Definition wit_config : Config :=
  {| Listen := "127.0.0.1:14443"; CTimeout := 0;
     Routes := [wit_pool_route];
     Connect := {| CEnabled := true; AllowedHosts := ["api.anthropic.com:443"]; CTokenEnv := "TOK";
                   CTokenFile := ""; CTokenRef := ""; DialTimeout := 0; MaxConcurrent := 0; IdleTimeout := 0 |};
     GatewayAuth := {| GTokenEnv := ""; GTokenFile := ""; GTokenRef := ""; ExemptLoopback := None;
                       AllowUnauthenticated := false |};
     TLS := {| CertFile := ""; TLSKeyFile := "" |};
     AES := {| AESEnabled := false; AESListen := ""; AESKeyEnv := ""; AESKeyFile := ""; AESKeyRef := "";
               AESTLS := {| CertFile := ""; TLSKeyFile := "" |} |};
     TrustForwardedForAudit := false |}.

Definition wit_config' : Config :=
  match Validate wit_config with inl c => c | inr _ => wit_config end.

Lemma validate_sound_witness :
  Validate wit_config = inl wit_config' /\ Forall route_ok (Routes wit_config') /\
  connect_ok (Listen wit_config') (Connect wit_config').
Proof.
  assert (H : Validate wit_config = inl wit_config') by (vm_compute; reflexivity).
  pose proof (validate_sound wit_config wit_config' H) as (_ & _ & Hr & _ & _ & Hc & _). auto.
Defined.

(** Validation is idempotent: a validated configuration validates again, to
    itself, so the defaults it fills in are final. *)
Theorem validate_idempotent (c c' : Config) : Validate c = inl c' -> Validate c' = inl c'.
Proof.
  intros H. unfold Validate in H. inv_checked. subst c'.
  assert (Ht : 0 < (if CTimeout c =? 0 then DefaultTimeout else CTimeout c)).
  { rewrite Z.ltb_ge in *. destruct (Z.eqb_spec (CTimeout c) 0); [done|lia]. }
  assert (Hto : (if (if CTimeout c =? 0 then DefaultTimeout else CTimeout c) =? 0 then DefaultTimeout
                 else (if CTimeout c =? 0 then DefaultTimeout else CTimeout c)) =
                (if CTimeout c =? 0 then DefaultTimeout else CTimeout c))
    by (by rewrite (proj2 (Z.eqb_neq _ 0)) by lia).
  unfold Validate. cbn [Listen CTimeout Routes Connect GatewayAuth TLS AES TrustForwardedForAudit].
  rewrite Hto.
  match goal with H : validate_routes _ _ _ _ _ = _ |- _ => apply (validate_routes_idem _ _ _ _ _ _ Ht) in H end.
  match goal with H : validateConnect _ _ = _ |- _ => apply validateConnect_idem in H end.
  run_checked; [apply Z.ltb_ge; lia | done].
Qed.

Lemma validate_idempotent_witness : Validate wit_config' = inl wit_config'.
Proof. apply (validate_idempotent wit_config). vm_compute. reflexivity. Defined.

(** The advisory's lease count is the admission rule's: a key with nothing
    settled and [n] leases in flight is admitted under a token cap exactly when
    [n] is below [ConcurrentLeases], the ceiling of cap over estimate. *)
Theorem concurrent_leases_exact (a : BudgetAdvisory) (b : RotationStore.Budget) (k : RotationStore.keyState) (now : Time) :
  RotationStore.Window b = AWindow a -> RotationStore.BTokens b = ATokens a ->
  RotationStore.EstimateTokens b = AEstimateTokens a -> RotationStore.BRequests b = 0 ->
  0 < AWindow a -> 0 < ATokens a -> 0 < AEstimateTokens a -> in_int64 (ATokens a + AEstimateTokens a) ->
  in_int64 (RotationStore.inFlight k * AEstimateTokens a) ->
  RotationStore.tokens k = 0 -> RotationStore.selectableAt k now = true ->
  (RotationStore.admissibleLocked b k now = true <-> RotationStore.inFlight k < ConcurrentLeases a) /\
  ConcurrentLeases a = (ATokens a + AEstimateTokens a - 1) / AEstimateTokens a.
Proof.
  intros Hw Ht He Hr Hw0 Ht0 He0 Hrange Hf Hz Hsel.
  assert (Hc : ConcurrentLeases a = (ATokens a + AEstimateTokens a - 1) / AEstimateTokens a).
  { unfold ConcurrentLeases. rewrite (proj2 (Z.leb_gt _ _)) by lia.
    rewrite wrap64_small by (unfold in_int64, min_int64, max_int64 in *; lia).
    by rewrite Z.quot_div_nonneg by lia. }
  split; [|done]. rewrite Hc. unfold RotationStore.admissibleLocked. rewrite Hsel, Hr, Hw, Ht, He, Hz. simpl.
  rewrite (proj2 (Z.leb_gt _ _)) by lia. rewrite (proj2 (Z.ltb_lt 0 (ATokens a))) by lia. cbn [andb].
  unfold i64_mul, i64_add. rewrite (wrap64_small (_ * _)) by done. rewrite Z.add_0_l, wrap64_small by done.
  set (n := RotationStore.inFlight k) in *. set (e := AEstimateTokens a) in *. set (t := ATokens a) in *.
  assert (Hiff : n < (t + e - 1) / e <-> n * e < t).
  { pose proof (Z.div_mod (t + e - 1) e ltac:(lia)). pose proof (Z.mod_pos_bound (t + e - 1) e ltac:(lia)).
    split; intros; nia. }
  rewrite Hiff. destruct (Z.leb_spec t (n * e)); split; intros; done || lia.
Qed.

Lemma concurrent_leases_exact_witness :
  ConcurrentLeases {| ARoute := "m"; AEnabled := true; ATokens := 1000; AEstimateTokens := 300; AWindow := Hour |} =
  (1000 + 300 - 1) / 300.
Proof.
  apply (concurrent_leases_exact
    {| ARoute := "m"; AEnabled := true; ATokens := 1000; AEstimateTokens := 300; AWindow := Hour |}
    {| RotationStore.Window := Hour; RotationStore.BTokens := 1000; RotationStore.BRequests := 0;
       RotationStore.SoftRatio := Float64.f0_8; RotationStore.EstimateTokens := 300 |} RotationStore.zero_key 5);
    try reflexivity; split; vm_compute; discriminate.
Defined.

End GatewayConfig.
