(* ===== verification/Gateway.v ===== *)
(** * The gateway: credentials, forwarding and the reverse-proxy handler

    Models, from [src/internal/channel/]: the authenticators of [auth.go], the
    forwarder of [forward.go], caller authentication of [proxy_auth.go], the
    response copy of [usage.go], the bounded caller label of [caller_id.go] and
    the reverse-proxy half of [server.go].

    The network is the argument [env]: what building the outbound request and
    performing it answer.  Clock readings are arguments, in the order the code
    takes them.  A request's header map is ranged over in an order Go does not
    specify: the handler takes that order as an argument too. *)

From Stdlib Require Import ZArith Lia Ascii String.
From stdpp Require Import base option list gmap strings.
From S2P Require Import Prelude GoStrings Net Rotation RotationStore Usage VendorError ConnectTarget GatewayTypes Secret Headers GatewayConfig.

Module Gateway.
Import GoStrings GatewayTypes Headers.

Abbreviation Store := (RotationStore.Store Rotation.policy).

(** ** Authenticators *)

Inductive Authenticator : Type :=
  | bearerInjector (key : string)
  | passthrough
  | leasedInjector (key header prefix mode : string)
  | rotatingInjector (keys : list string) (route mode header prefix : string).

Inductive applyError : Type := CredentialEmpty | NeedsLease (route : string).

Definition Apply (a : Authenticator) (h : Header) : Header + applyError :=
  match a with
  | bearerInjector key =>
      if key =s "" then inr CredentialEmpty
      else inl (Set_ h "Authorization" (String.append "Bearer " key))
  | passthrough => inl h
  | leasedInjector key header prefix _ =>
      if key =s "" then inr CredentialEmpty
      else
        let name := if header =s "" then "Authorization"%string else header in
        let h := if negb (EqualFold name "Authorization") then Del h "Authorization" else h in
        inl (Set_ h name (String.append prefix key))
  | rotatingInjector _ route _ _ _ => inr (NeedsLease route)
  end.

Definition AuthMode (a : Authenticator) : string :=
  match a with
  | bearerInjector _ => AuthInject
  | passthrough => AuthPassthrough
  | leasedInjector _ _ _ mode => if mode =s "" then AuthInject else mode
  | rotatingInjector _ _ mode _ _ => mode
  end.

Record boundRoute := { BRoute : Route; BAuth : Authenticator }.

(** [newAuthenticatorFor]; the store of a pooled route is kept by the server. *)
Inductive authError : Type :=
  | PoolFailed (e : Secret.poolError) | KeyFailed (e : Secret.firstError) | KeyBlank | UnsupportedMode.

Definition newAuthenticatorFor (r : Route) (sp : Secret.SecretProvider) : Authenticator + authError :=
  if (Auth r =s AuthInject) || (Auth r =s AuthHeaderInject) then
    let header := if Auth r =s AuthHeaderInject then KeyHeader r else "Authorization"%string in
    let prefix := if Auth r =s AuthHeaderInject then KeyPrefix r else "Bearer "%string in
    if hasPluralKeys r then
      match Secret.resolveKeyPool r sp with
      | inr e => inr (PoolFailed e)
      | inl keys => inl (rotatingInjector keys (Name r) (Auth r) header prefix)
      end
    else
      match Secret.resolveFirst sp (Secret.secretRefs (KeyRef r) (KeyEnv r) (KeyFile r)) with
      | inr e => inr (KeyFailed e)
      | inl key =>
          if TrimSpace key =s "" then inr KeyBlank
          else if Auth r =s AuthInject then inl (bearerInjector key)
          else inl (leasedInjector key header prefix AuthHeaderInject)
      end
  else if Auth r =s AuthPassthrough then inl passthrough
  else inr UnsupportedMode.

(** ** Requests *)

Record Request := {
  Method : string;
  Path : string;
  RawQuery : string;
  RHeader : Header;
  ContentLength : Z;
  RemoteAddr : string;
}.

Record OutRequest := {
  OMethod : string;
  OTarget : string;
  OHeader : Header;
  OContentLength : Z;
}.

Inductive forwardError : Type :=
  | BuildFailed (text : string) | ApplyFailed (e : applyError)
  | DeadlineExceeded | Canceled | TransportError (text : string).

(** One read of the upstream body: the bytes and how it ended. *)
Inductive readEnd : Type := More | EOF | ReadError.

Record Response := {
  StatusCode : Z;
  RespHeader : Header;
  RespHost : string;
  Body : list (bytes * readEnd);
}.

(** The outside world of one forward. *)
Record Env := {
  build_request : string -> string -> option string;
  do_request : OutRequest -> Response + forwardError;
}.

Definition upstream_target (rt : Route) (r : Request) : string :=
  let p := TrimPrefix (Path r) (TrimSuffix (Prefix rt) "/") in
  let p := if negb (HasPrefix p "/") then String.append "/" p else p in
  let target := String.append (trim_right_char "/" (Upstream rt)) p in
  if RawQuery r =s "" then target else String.append target (String.append "?" (RawQuery r)).

Definition modesSupplyingTheirOwnCredential (mode : string) : bool := mode =s AuthPassthrough.

(** The header loop of [Forward]: [it] is the range order. *)
Fixpoint copy_headers (strip : bool) (keyHeader : string) (it : list (string * list string)) (out : Header)
    : Header :=
  match it with
  | [] => out
  | (k, vs) :: it' =>
      if hopByHop (ToLower k) then copy_headers strip keyHeader it' out
      else if strip && isCallerCredential k keyHeader then copy_headers strip keyHeader it' out
      else copy_headers strip keyHeader it' (foldl (fun h v => Add h k v) out vs)
  end.

Definition outbound_header (rt : boundRoute) (it : list (string * list string)) : Header :=
  let strip := negb (modesSupplyingTheirOwnCredential (AuthMode (BAuth rt))) in
  Set_ (copy_headers strip (KeyHeader (BRoute rt)) it ∅) "User-Agent" "helixchannel-gateway/1".

(** The outbound request, before it is sent. *)
Definition prepare (env : Env) (rt : boundRoute) (it : list (string * list string)) (r : Request)
    : OutRequest + forwardError :=
  let target := upstream_target (BRoute rt) r in
  match build_request env (Method r) target with
  | Some e => inr (BuildFailed e)
  | None =>
      match Apply (BAuth rt) (outbound_header rt it) with
      | inr e => inr (ApplyFailed e)
      | inl h => inl {| OMethod := Method r; OTarget := target; OHeader := h; OContentLength := ContentLength r |}
      end
  end.

Definition Forward (env : Env) (rt : boundRoute) (it : list (string * list string)) (r : Request)
    : Response + forwardError :=
  match prepare env rt it r with
  | inr e => inr e
  | inl out => do_request env out
  end.

Definition redirectNotFollowed (resp : Response) : bool :=
  if (StatusCode resp <? 300) || (399 <? StatusCode resp) then false
  else negb (Get (RespHeader resp) "Location" =s "").

Definition errorClass (e : forwardError) : string :=
  let by_text t :=
    if Contains t "connection refused" then "refused"%string
    else if Contains t "no such host" then "dns"
    else if Contains t "certificate" then "tls" else "upstream_error" in
  match e with
  | DeadlineExceeded => "timeout"
  | Canceled => "canceled"
  | BuildFailed t | TransportError t => by_text t
  | ApplyFailed CredentialEmpty => by_text "apply credentials: upstream credential is empty"
  | ApplyFailed (NeedsLease route) =>
      by_text (String.append "apply credentials: route " (String.append route
        ": rotating credential requires a key lease; Apply was called without one"))
  end.

(** ** Copying the response

    [writes] are the outcomes of the caller-side writes: bytes written, and
    whether the write failed.  The extractor observes a chunk before it is
    written; [observing] says whether there is one. *)
Fixpoint copy_body (observing : bool) (body : list (bytes * readEnd)) (writes : list (Z * bool))
    (total : Z) (tail : bytes) : Z * bytes :=
  match body with
  | [] => (total, tail)
  | (chunk, e) :: body' =>
      if Nat.eqb (length chunk) 0 then
        match e with More => copy_body observing body' writes total tail | _ => (total, tail) end
      else
        let tail := if observing then Usage.Observe tail chunk else tail in
        let '(n, failed) := default (Z.of_nat (length chunk), false) (head writes) in
        let total := total + n in
        if failed then (total, tail)
        else match e with
             | More => copy_body observing body' (drop 1 writes) total tail
             | _ => (total, tail)
             end
  end.

Definition relayed_header (it : list (string * list string)) : Header := copy_headers false "" it ∅.

(** ** Caller authentication *)

Definition GatewayTokenHeader : string := "X-HLXN-Token".

Inductive proxyAuthRefusal : Type := proxyAuthOK | refusalTokenRequired | refusalTokenInvalid.

#[export] Instance proxyAuthRefusal_eq_dec : EqDecision proxyAuthRefusal.
Proof. solve_decision. Defined.

Definition isLoopbackPeer (remoteAddr : string) : bool :=
  let host := match Net.SplitHostPort (to_bytes remoteAddr) with
              | Some (h, _) => h
              | None => to_bytes remoteAddr
              end in
  let host := ConnectTarget.strip_brackets host in
  let host := match Net.index_byte "%" host with Some i => take i host | None => host end in
  match Net.ParseIP host with
  | Some ip => Net.IsLoopback ip
  | None => false
  end.

Definition authorizeProxy (mode : ProxyAuthMode) (token : string) (r : Request) : proxyAuthRefusal :=
  if decide (mode = ProxyAuthOpen \/ mode = ProxyAuthLoopbackOnly) then proxyAuthOK
  else
    let presented := TrimSpace (Get (RHeader r) GatewayTokenHeader) in
    if presented =s "" then
      if bool_decide (mode = ProxyAuthTokenLoopbackExempt) && isLoopbackPeer (RemoteAddr r)
      then proxyAuthOK else refusalTokenRequired
    else if token =s "" then refusalTokenInvalid
    else if negb (presented =s token) then refusalTokenInvalid
    else proxyAuthOK.

(** The text up to the first comma, [strings.SplitN(xff, ",", 2)[0]]. *)
Definition first_field (s : string) : string :=
  match Net.index_byte "," (to_bytes s) with
  | Some i => of_bytes (take i (to_bytes s))
  | None => s
  end.

Definition auditClientAddr (trust : bool) (r : Request) : string :=
  if negb trust || negb (isLoopbackPeer (RemoteAddr r)) then RemoteAddr r
  else
    let xff := Get (RHeader r) "X-Forwarded-For" in
    if xff =s "" then RemoteAddr r
    else
      let first := TrimSpace (first_field xff) in
      if first =s "" then RemoteAddr r
      else match Net.ParseIP (to_bytes first) with
           | None => RemoteAddr r
           | Some _ => first
           end.

Definition authorizeConnect (connToken header : string) : bool :=
  if (connToken =s "") || negb (HasPrefix header "Bearer ") then false
  else
    let got := TrimSpace (TrimPrefix header "Bearer ") in
    if got =s "" then false else got =s connToken.

(** [SanitiseCaller]: printable ASCII, at most 64 bytes. *)
Definition maxCallerLen : nat := 64.

Definition caller_char (c : ascii) : bool := (33 <=? code c) && (code c <=? 126).

Fixpoint sanitise_loop (s : bytes) (n : nat) : bytes :=
  match s, n with
  | _, O => []
  | [], _ => []
  | c :: s', S n' => if caller_char c then c :: sanitise_loop s' n' else sanitise_loop s' n
  end.

Definition SanitiseCaller (s : string) : string := of_bytes (sanitise_loop (to_bytes s) maxCallerLen).

End Gateway.
