(* ===== verification/GatewayServer.v ===== *)
(** * The gateway server

    Models [src/internal/channel/server.go]: construction, the reverse-proxy
    handler with its key leases, the health surface, and the decisions the
    serving socket forces.  [Server] holds the state the handlers share; the
    rotation store of a pooled route is kept in [stores] under the route's name,
    and a missing entry is the nil store. *)

From Stdlib Require Import ZArith Lia Ascii String.
From stdpp Require Import base option list gmap strings sorting.
From S2P Require Import Prelude GoStrings Net Rotation RotationStore Usage VendorError ConnectTarget GatewayTypes Secret Headers GatewayConfig Gateway.

Module GatewayServer.
Import GoStrings GatewayTypes Headers Gateway.

#[local] Existing Instance Rotation.policy_Select.
#[local] Existing Instance RotationStore.admissionRefusal_eq_dec.
#[local] Existing Instance ConnectTarget.listenScope_eq_dec.

Record Server := {
  cfg : Config;
  sroutes : list boundRoute;
  stores : gmap string Store;
  connToken : string;
  proxyAuth : ProxyAuthMode;
  proxyToken : string;
  allowed : list string;
  trustForwardedForAudit : bool;
  scope : ConnectTarget.listenScope;
}.

Definition set_store (s : Server) (route : string) (st : Store) : Server :=
  {| cfg := cfg s; sroutes := sroutes s; stores := <[route := st]> (stores s);
     connToken := connToken s; proxyAuth := proxyAuth s; proxyToken := proxyToken s;
     allowed := allowed s; trustForwardedForAudit := trustForwardedForAudit s; scope := scope s |}.

(** ** Construction *)

Definition newRotationStore (now : Time) (r : Route) (keys : Z) : Store :=
  let rot := default {| Policy := ""; RBudget := {| RotationStore.Window := 0; RotationStore.BTokens := 0;
                          RotationStore.BRequests := 0; RotationStore.SoftRatio := Float64.Float64.zero;
                          RotationStore.EstimateTokens := 0 |}; MaxRetryAfter := 0 |} (Rotation_ r) in
  let policy := default (Rotation.PRoundRobin Rotation.NewRoundRobinPolicy) (Rotation.NewPolicy (Policy rot)) in
  RotationStore.NewStore now {[ Name r := keys ]} policy (RBudget rot) (MaxRetryAfter rot) 0.

Inductive serverError : Type :=
  | RouteFailed (name : string) (e : authError)
  | ConnectTokenFailed (e : Secret.firstError) | ConnectTokenBlank
  | GatewayTokenFailed (e : Secret.firstError) | GatewayTokenBlank | SameToken.

Fixpoint bind_routes (now : Time) (sp : Secret.SecretProvider) (rs : list Route)
    : (list boundRoute * gmap string Store) + serverError :=
  match rs with
  | [] => inl ([], ∅)
  | r :: rs' =>
      match newAuthenticatorFor r sp with
      | inr e => inr (RouteFailed (Name r) e)
      | inl a =>
          match bind_routes now sp rs' with
          | inr e => inr e
          | inl (brs, sts) =>
              inl ({| BRoute := r; BAuth := a |} :: brs,
                   if hasPluralKeys r
                   then <[Name r := newRotationStore now r (Z.of_nat (Secret.declaredKeyCount r))]> sts else sts)
          end
      end
  end.

(** Longest prefix first: [sort.Slice] with this order, as a merge sort. *)
Definition longer_prefix (a b : boundRoute) : Prop :=
  (String.length (Prefix (BRoute b)) <= String.length (Prefix (BRoute a)))%nat.

#[export] Instance longer_prefix_dec : RelDecision longer_prefix.
Proof. intros a b. apply Nat.le_dec. Defined.

Definition NewServer (now : Time) (c : Config) (sp : Secret.SecretProvider) : Server + serverError :=
  match bind_routes now sp (EnabledRoutes c) with
  | inr e => inr e
  | inl (brs, sts) =>
      let connect :=
        if CEnabled (Connect c) then
          match Secret.resolveFirst sp (Secret.secretRefs (CTokenRef (Connect c)) (CTokenEnv (Connect c)) (CTokenFile (Connect c))) with
          | inr e => inr (ConnectTokenFailed e)
          | inl tok =>
              let tok := TrimSpace tok in
              if tok =s "" then inr ConnectTokenBlank else inl (tok, ToLower <$> AllowedHosts (Connect c))
          end
        else inl (""%string, []) in
      match connect with
      | inr e => inr e
      | inl (ctok, hosts) =>
          let gateway :=
            if hasToken (GatewayAuth c) then
              match Secret.resolveFirst sp (Secret.secretRefs (GTokenRef (GatewayAuth c)) (GTokenEnv (GatewayAuth c)) (GTokenFile (GatewayAuth c))) with
              | inr e => inr (GatewayTokenFailed e)
              | inl tok =>
                  let tok := TrimSpace tok in
                  if tok =s "" then inr GatewayTokenBlank
                  else if negb (ctok =s "") && (tok =s ctok) then inr SameToken
                  else inl tok
              end
            else inl ""%string in
          match gateway with
          | inr e => inr e
          | inl ptok =>
              inl {| cfg := c; sroutes := merge_sort longer_prefix brs; stores := sts; connToken := ctok;
                     proxyAuth := Mode (GatewayAuth c); proxyToken := ptok; allowed := hosts;
                     trustForwardedForAudit := TrustForwardedForAudit c;
                     scope := ConnectTarget.scopeUnknown |}
          end
      end
  end.

Definition RouteNames (s : Server) : list string := (fun rt => Name (BRoute rt)) <$> sroutes s.

(** [match]: the first route whose prefix matches. *)
Definition match_route (s : Server) (path : string) : option boundRoute :=
  List.find (fun rt => HasPrefix path (Prefix (BRoute rt))) (sroutes s).

(** ** Leases *)

Definition leaseFor (now : Time) (s : Server) (a : Authenticator)
    : option (Authenticator * RotationStore.KeyLease) * RotationStore.admissionRefusal * Server :=
  match a with
  | rotatingInjector keys route mode header prefix =>
      match stores s !! route with
      | None => (None, RotationStore.refusalDrained, s)
      | Some st =>
          let '(lease, refusal, st) := RotationStore.acquire now route st in
          let s := set_store s route st in
          match lease with
          | None => (None, refusal, s)
          | Some l =>
              let i := RotationStore.l_index l in
              match (if 0 <=? i then keys !! Z.to_nat i else None) with
              | Some k => (Some (leasedInjector k header prefix mode, l), RotationStore.refusalNone, s)
              | None =>
                  let '(_, st, _) := RotationStore.Settle now l
                    {| RotationStore.Outcome := RotationStore.OutcomeFailed; RotationStore.STokens := 0;
                       RotationStore.SEstimated := false |} st in
                  (None, RotationStore.refusalDrained, set_store s route st)
              end
          end
      end
  | _ => (None, RotationStore.refusalDrained, s)
  end.

(** [keyLeaser] is implemented by the rotating injector alone. *)
Definition is_leaser (a : Authenticator) : bool :=
  match a with rotatingInjector _ _ _ _ _ => true | _ => false end.

Definition retryAfter (now : Time) (s : Server) (a : Authenticator) : Duration * Server :=
  match a with
  | rotatingInjector _ route _ _ _ =>
      match stores s !! route with
      | None => (RotationStore.MinRetryAfter, s)
      | Some st =>
          let '(d, st) := RotationStore.RetryAfter now route st in
          (default RotationStore.MinRetryAfter d, set_store s route st)
      end
  | _ => (RotationStore.MinRetryAfter, s)
  end.

Definition on_store (s : Server) (a : Authenticator) (f : string -> Store -> Store * list string)
    : Server * list string :=
  match a with
  | rotatingInjector _ route _ _ _ =>
      match stores s !! route with
      | None => (s, [])
      | Some st => let '(st, ev) := f route st in (set_store s route st, ev)
      end
  | _ => (s, [])
  end.

Definition retire (now : Time) (idx : Z) (reason : string) (s : Server) (a : Authenticator) : Server * list string :=
  on_store s a (fun route st => RotationStore.retireForWindow now route idx reason st).

Definition retireUntil (now : Time) (idx : Z) (until : Time) (reason : string) (s : Server) (a : Authenticator)
    : Server * list string :=
  on_store s a (fun route st => RotationStore.RetireWithReason now route idx until reason st).

Definition settle (now : Time) (l : RotationStore.KeyLease) (sample : RotationStore.UsageSample) (s : Server)
    (a : Authenticator) : RotationStore.KeyLease * Server :=
  match a with
  | rotatingInjector _ route _ _ _ =>
      match stores s !! route with
      | None => (l, s)
      | Some st => let '(l, st, _) := RotationStore.Settle now l sample st in (l, set_store s route st)
      end
  | _ => (l, s)
  end.

(** ** Charging *)

Definition failed_sample : RotationStore.UsageSample :=
  {| RotationStore.Outcome := RotationStore.OutcomeFailed; RotationStore.STokens := 0;
     RotationStore.SEstimated := false |}.

Definition chargeableSample (status : Z) (sample : RotationStore.UsageSample) : RotationStore.UsageSample :=
  if 500 <=? status then failed_sample
  else if (300 <=? status) && (RotationStore.STokens sample =? RotationStore.TokensUnknown) then
    {| RotationStore.Outcome := RotationStore.OutcomeCompleted; RotationStore.STokens := 0;
       RotationStore.SEstimated := false |}
  else sample.

Definition chargedTokensFor (r : Route) (sample : RotationStore.UsageSample) : Z :=
  match RotationStore.Outcome sample with
  | RotationStore.OutcomeFailed => 0
  | RotationStore.OutcomeCompleted =>
      if negb (RotationStore.STokens sample =? RotationStore.TokensUnknown) then RotationStore.STokens sample
      else match Rotation_ r with
           | None => 0
           | Some rot => RotationStore.EstimateTokens (RBudget rot)
           end
  end.

Definition isQuotaStatus (status : Z) : bool := (status =? 429) || (status =? 402).

(** The clock readings of one request. *)
Record Clock := {
  at_lease : Time;
  at_retry : Time;
  at_reset : nat -> Time;
  at_vendor : Time;
  at_retire : Time;
  at_settle : Time;
}.

Record AuditEvent := {
  Event : string;
  ERoute : string;
  EAuthMode : string;
  EMethod : string;
  EPath : string;
  EUpstream : string;
  EUpstreamHost : string;
  EStatus : Z;
  EBytesOut : Z;
  EClientAddr : string;
  EError : string;
  EKeyIndex : option Z;
  ETokens : Z;
  ETokensEstimated : bool;
}.

(** The retirement a response forces, before its lease is settled. *)
Definition retire_for (clk : Clock) (rt : boundRoute) (idx status : Z) (tail : bytes) (s : Server)
    : Server * list string :=
  if is_leaser (BAuth rt) then
    let '(sig, found) := VendorError.parseVendorSignal (at_reset clk) tail in
    if found then
      if VendorError.Retires sig then
        retireUntil (at_retire clk) idx (VendorError.vendorRetireUntil sig (at_vendor clk) time_zero)
          (VendorError.Reason sig) s (BAuth rt)
      else (s, [])
    else if isQuotaStatus status then retire (at_retire clk) idx RotationStore.ReasonQuota s (BAuth rt)
    else (s, [])
  else (s, []).

Definition settleLease (clk : Clock) (rt : boundRoute) (l : RotationStore.KeyLease) (status : Z) (tail : bytes)
    (ev : AuditEvent) (s : Server) : AuditEvent * RotationStore.KeyLease * Server :=
  let sample := chargeableSample status (Usage.Result tail) in
  let '(s, _) := retire_for clk rt (RotationStore.l_index l) status tail s in
  let '(l', s) := settle (at_settle clk) l sample s (BAuth rt) in
  ({| Event := Event ev; ERoute := ERoute ev; EAuthMode := EAuthMode ev; EMethod := EMethod ev; EPath := EPath ev;
      EUpstream := EUpstream ev; EUpstreamHost := EUpstreamHost ev; EStatus := EStatus ev;
      EBytesOut := EBytesOut ev; EClientAddr := EClientAddr ev; EError := EError ev;
      EKeyIndex := Some (RotationStore.l_index l); ETokens := chargedTokensFor (BRoute rt) sample;
      ETokensEstimated := RotationStore.SEstimated sample |}, l', s).

(** ** Refusals *)

Definition refusalAnswerFor (now : Time) (refusal : RotationStore.admissionRefusal) (s : Server) (a : Authenticator)
    : string * Duration * Server :=
  if decide (refusal = RotationStore.refusalAdmission)
  then ("admission_limited"%string, RotationStore.MinRetryAfter, s)
  else let '(d, s) := retryAfter now s a in ("keys_exhausted"%string, d, s).

(** The [Retry-After] seconds of [writeUnavailable]. *)
Definition retry_seconds (d : Duration) : Z :=
  let secs := Z.quot d Second in
  let secs := if negb (Z.rem d Second =? 0) then secs + 1 else secs in
  if secs <? 1 then 1 else secs.

(** ** The reverse-proxy handler *)

(** What the caller receives: a refusal made by the gateway, or a relayed
    upstream response. *)
Inductive Answer : Type :=
  | Unauthorized (refusal : proxyAuthRefusal)
  | NotFound (routes : list string)
  | Unavailable (code : string) (retry_after_seconds : Z)
  | BadGateway
  | Relayed (status : Z) (header : Header) (bytes_out : Z).

Record Outcome := {
  answer : Answer;
  sent : option OutRequest;
  audit : option AuditEvent;
}.

Definition base_event (s : Server) (rt : boundRoute) (r : Request) (status : Z) (err : string) : AuditEvent :=
  {| Event := "proxy_request"; ERoute := Name (BRoute rt); EAuthMode := AuthMode (BAuth rt);
     EMethod := Method r; EPath := Path r; EUpstream := Upstream (BRoute rt); EUpstreamHost := "";
     EStatus := status; EBytesOut := 0; EClientAddr := auditClientAddr (trustForwardedForAudit s) r;
     EError := err; EKeyIndex := None; ETokens := 0; ETokensEstimated := false |}.

Definition with_key (ev : AuditEvent) (l : option RotationStore.KeyLease) : AuditEvent :=
  {| Event := Event ev; ERoute := ERoute ev; EAuthMode := EAuthMode ev; EMethod := EMethod ev; EPath := EPath ev;
     EUpstream := EUpstream ev; EUpstreamHost := EUpstreamHost ev; EStatus := EStatus ev;
     EBytesOut := EBytesOut ev; EClientAddr := EClientAddr ev; EError := EError ev;
     EKeyIndex := RotationStore.l_index <$> l; ETokens := ETokens ev; ETokensEstimated := ETokensEstimated ev |}.

Definition with_response (ev : AuditEvent) (resp : Response) (n : Z) : AuditEvent :=
  {| Event := Event ev; ERoute := ERoute ev; EAuthMode := EAuthMode ev; EMethod := EMethod ev; EPath := EPath ev;
     EUpstream := EUpstream ev; EUpstreamHost := RespHost resp; EStatus := EStatus ev;
     EBytesOut := n; EClientAddr := EClientAddr ev;
     EError := if redirectNotFollowed resp then "redirect_not_followed" else EError ev;
     EKeyIndex := EKeyIndex ev; ETokens := ETokens ev; ETokensEstimated := ETokensEstimated ev |}.

(** The caller's request once the gateway token is removed. *)
Definition drop_token (r : Request) : Request :=
  {| Method := Method r; Path := Path r; RawQuery := RawQuery r;
     RHeader := Del (RHeader r) GatewayTokenHeader; ContentLength := ContentLength r; RemoteAddr := RemoteAddr r |}.

(** [Forward], the copy and the settlement, for the route [fwd] the request is
    sent with: the route itself, or the route with its leased key. *)
Definition serve (env : Env) (clk : Clock) (range : Header -> list (string * list string))
    (writes : list (Z * bool)) (rt fwd : boundRoute) (lease : option RotationStore.KeyLease)
    (r : Request) (s : Server) : Outcome * option RotationStore.KeyLease * Server :=
  let out := match prepare env fwd (range (RHeader r)) r with inl o => Some o | inr _ => None end in
  match Forward env fwd (range (RHeader r)) r with
  | inr e =>
      ({| answer := BadGateway; sent := out;
          audit := Some (with_key (base_event s rt r 502 (errorClass e)) lease) |}, lease, s)
  | inl resp =>
      let '(n, tail) := copy_body (bool_decide (is_Some lease)) (Body resp) writes 0 [] in
      let ev := with_response (base_event s rt r (StatusCode resp) "") resp n in
      let ans := Relayed (StatusCode resp) (relayed_header (range (RespHeader resp))) n in
      match lease with
      | None => ({| answer := ans; sent := out; audit := Some ev |}, None, s)
      | Some l =>
          let '(ev, l', s) := settleLease clk rt l (StatusCode resp) tail ev s in
          ({| answer := ans; sent := out; audit := Some ev |}, Some l', s)
      end
  end.

Definition handleProxy (env : Env) (clk : Clock) (range : Header -> list (string * list string))
    (writes : list (Z * bool)) (r : Request) (s : Server) : Outcome * Server :=
  let refusal := authorizeProxy (proxyAuth s) (proxyToken s) r in
  if decide (refusal <> proxyAuthOK) then
    ({| answer := Unauthorized refusal; sent := None;
        audit := Some {| Event := "proxy_denied"; ERoute := ""; EAuthMode := ""; EMethod := Method r; EPath := Path r;
                         EUpstream := ""; EUpstreamHost := ""; EStatus := 401; EBytesOut := 0;
                         EClientAddr := auditClientAddr (trustForwardedForAudit s) r;
                         EError := match refusal with
                                   | refusalTokenRequired => "gateway_token_required"
                                   | refusalTokenInvalid => "gateway_token_invalid"
                                   | proxyAuthOK => ""
                                   end;
                         EKeyIndex := None; ETokens := 0; ETokensEstimated := false |} |}, s)
  else
    let r := drop_token r in
    match match_route s (Path r) with
    | None => ({| answer := NotFound (RouteNames s); sent := None; audit := None |}, s)
    | Some rt =>
        if is_leaser (BAuth rt) then
          let '(leased, refusal, s) := leaseFor (at_lease clk) s (BAuth rt) in
          match leased with
          | None =>
              let '(code, wait, s) := refusalAnswerFor (at_retry clk) refusal s (BAuth rt) in
              ({| answer := Unavailable code (retry_seconds wait); sent := None;
                  audit := Some (base_event s rt r 503 code) |}, s)
          | Some (auth, l) =>
              let '(o, l', s) := serve env clk range writes rt {| BRoute := BRoute rt; BAuth := auth |} (Some l) r s in
              (** The deferred settlement: a no-op when the lease is settled. *)
              match l' with
              | Some l' => let '(_, s) := settle (at_settle clk) l' failed_sample s (BAuth rt) in (o, s)
              | None => (o, s)
              end
          end
        else
          let '(o, _, s) := serve env clk range writes rt rt None r s in (o, s)
    end.

(** ** Health *)

Record KeyInventory := { IMode : string; Pooled : bool; Keys : Z; Available : Z; Degraded : bool }.

Definition inventory (now : Time) (s : Server) (a : Authenticator) : KeyInventory * Server :=
  match a with
  | rotatingInjector keys route mode _ _ =>
      let '(avail, s) :=
        match stores s !! route with
        | None => (0, s)
        | Some st =>
            let '(states, st) := RotationStore.Snapshot now route st in
            (Z.of_nat (length (filter (fun k => Rotation.Selectable k = true) states)), set_store s route st)
        end in
      ({| IMode := mode; Pooled := true; Keys := Z.of_nat (length keys); Available := avail;
          Degraded := avail =? 0 |}, s)
  | _ =>
      let mode := AuthMode a in
      if mode =s AuthPassthrough
      then ({| IMode := mode; Pooled := false; Keys := 0; Available := 0; Degraded := false |}, s)
      else ({| IMode := mode; Pooled := false; Keys := 1; Available := 1; Degraded := false |}, s)
  end.

(** [KeyInventory()]; [clock i] is the reading for the [i]-th route. *)
Fixpoint key_inventory (clock : nat -> Time) (i : nat) (rts : list boundRoute) (s : Server)
    : gmap string KeyInventory * Server :=
  match rts with
  | [] => (∅, s)
  | rt :: rts' =>
      let '(inv, s) := inventory (clock i) s (BAuth rt) in
      let '(rest, s) := key_inventory clock (S i) rts' s in
      (if decide (is_Some (rest !! Name (BRoute rt))) then rest else <[Name (BRoute rt) := inv]> rest, s)
  end.

(** The body of [/healthz]: liveness for everyone, the inventory for callers the
    proxy leg would serve. *)
Record Health := {
  HProxyAuth : ProxyAuthMode;
  HDetail : option (list string * gmap string KeyInventory * bool);
}.

Definition handleHealth (clock : nat -> Time) (r : Request) (s : Server) : Health * Server :=
  if decide (authorizeProxy (proxyAuth s) (proxyToken s) r = proxyAuthOK) then
    let '(inv, s') := key_inventory clock 0 (sroutes s) s in
    ({| HProxyAuth := proxyAuth s; HDetail := Some (RouteNames s, inv, CEnabled (Connect (cfg s))) |}, s')
  else ({| HProxyAuth := proxyAuth s; HDetail := None |}, s).

(** ** The serving socket *)

Definition servingScope (s : Server) (local : option ConnectTarget.Addr) : ConnectTarget.listenScope :=
  match scope s with
  | ConnectTarget.scopeUnknown =>
      match local with
      | Some _ => ConnectTarget.boundListenScope local
      | None => ConnectTarget.scopeReachable
      end
  | sc => sc
  end.

Inductive bindRefusalReason : Type :=
  | RefuseTokenless | RefuseSelfTarget (h : string) (why : ConnectTarget.selfReference).

Fixpoint bound_hosts (bound : bytes) (hosts : list string) : option bindRefusalReason :=
  match hosts with
  | [] => None
  | h :: hosts' =>
      match Net.SplitHostPort (to_bytes h) with
      | None => bound_hosts bound hosts'
      | Some (host, port) =>
          match ConnectTarget.connectSelfReference host port bound false with
          | Some why => Some (RefuseSelfTarget h why)
          | None => bound_hosts bound hosts'
          end
      end
  end.

(** [bindRefusal]; [bound] is [addr.String()]. *)
Definition bindRefusal (s : Server) (bound : bytes) (sc : ConnectTarget.listenScope) : option bindRefusalReason :=
  if decide (sc = ConnectTarget.scopeLoopbackOnly) then None
  else if decide (proxyAuth s = ProxyAuthLoopbackOnly) then Some RefuseTokenless
  else if negb (CEnabled (Connect (cfg s))) then None
  else bound_hosts bound (AllowedHosts (Connect (cfg s))).

(** The prologue of [Serve]: the adopted scope, or the refusal that closes the
    listener before any request is accepted. *)
Definition Serve (s : Server) (addr : option ConnectTarget.Addr) (bound : bytes) : Server + bindRefusalReason :=
  let sc := ConnectTarget.boundListenScope addr in
  match bindRefusal s bound sc with
  | Some why => inr why
  | None =>
      inl {| cfg := cfg s; sroutes := sroutes s; stores := stores s; connToken := connToken s;
             proxyAuth := proxyAuth s; proxyToken := proxyToken s; allowed := allowed s;
             trustForwardedForAudit := trustForwardedForAudit s; scope := sc |}
  end.

End GatewayServer.
