(* ===== verification/GatewaySpec.v ===== *)
(** * What the gateway guarantees

    The credential boundary of the forwarder, caller authentication, lease
    accounting through the reverse-proxy handler, charging, refusals, route
    matching and the serving socket. *)

From Stdlib Require Import ZArith Lia Ascii String.
From stdpp Require Import base option list gmap strings sorting.
From S2P Require Import Prelude GoStrings Net Float64 Rotation RotationStore RotationStoreSpec Usage VendorError ConnectTarget GatewayTypes Secret Headers GatewayConfig Gateway GatewayServer.

Module GatewaySpec.
Import GoStrings GatewayTypes Headers Gateway GatewayServer.

#[local] Existing Instance Rotation.policy_Select.
#[local] Existing Instance RotationStore.admissionRefusal_eq_dec.
#[local] Existing Instance ConnectTarget.listenScope_eq_dec.

(** ** Header lemmas *)

Lemma fold_add_other (k key : string) (vs : list string) (out : Header) :
  canonical k <> key -> foldl (fun h v => Add h k v) out vs !! key = out !! key.
Proof.
  intros Hne. revert out; induction vs as [|v vs IH]; intros out; simpl; [done|].
  rewrite IH. unfold Add. by rewrite lookup_insert_ne.
Qed.

Lemma fold_add_same (k : string) (vs : list string) (out : Header) :
  foldl (fun h v => Add h k v) out vs !! canonical k =
  match vs with [] => out !! canonical k | _ => Some (default [] (out !! canonical k) ++ vs) end.
Proof.
  revert out; induction vs as [|v vs IH]; intros out; [done|]. cbn [foldl]. rewrite IH.
  assert (Ha : Add out k v !! canonical k = Some (default [] (out !! canonical k) ++ [v]))
    by (unfold Add; by rewrite lookup_insert_eq).
  rewrite Ha. destruct vs as [|w vs]; [done|]. simpl. by rewrite <- app_assoc.
Qed.

(** A header entry the loop copies. *)
Definition copied (strip : bool) (keyHeader k : string) : bool :=
  negb (hopByHop (ToLower k)) && negb (strip && isCallerCredential k keyHeader).

Lemma copy_headers_cons strip kh k vs it out :
  copy_headers strip kh ((k, vs) :: it) out =
  copy_headers strip kh it (if copied strip kh k then foldl (fun h v => Add h k v) out vs else out).
Proof. unfold copied. simpl. destruct (hopByHop _); [done|]. by destruct (strip && _). Qed.

Lemma copy_headers_other strip kh it out key :
  (forall k vs, (k, vs) ∈ it -> copied strip kh k = true -> canonical k <> key) ->
  copy_headers strip kh it out !! key = out !! key.
Proof.
  revert out; induction it as [|[k vs] it IH]; intros out H; [done|].
  rewrite copy_headers_cons, IH by (intros k' vs' Hin; apply (H k' vs'); by right).
  destruct (copied strip kh k) eqn:E; [|done]. apply fold_add_other. apply (H k vs); [by left|done].
Qed.

(** When keys are canonical and distinct, a copied header arrives whole. *)
Lemma copy_headers_lookup strip kh it out key vs :
  NoDup (it.*1) -> (forall k ws, (k, ws) ∈ it -> canonical k = k) -> out !! key = None ->
  (key, vs) ∈ it -> vs <> [] -> copied strip kh key = true ->
  copy_headers strip kh it out !! key = Some vs.
Proof.
  intros Hnd Hcan Hout Hin Hne Hc. revert out Hout; induction it as [|[k ws] it IH]; intros out Hout.
  { by apply not_elem_of_nil in Hin. }
  rewrite copy_headers_cons. simpl in Hnd. apply NoDup_cons in Hnd as [Hni Hnd].
  assert (Hk : canonical k = k) by (eapply Hcan; by left).
  apply elem_of_cons in Hin as [[= <- <-]|Hin].
  - rewrite Hc, copy_headers_other.
    + pose proof (fold_add_same key vs out) as Hf. rewrite Hk, Hout in Hf. rewrite Hf. by destruct vs.
    + intros k' ws' Hin' _ He. apply Hni. rewrite (Hcan k' ws') in He by (by right). subst k'.
      apply list_elem_of_fmap. by exists (key, ws').
  - apply IH; auto; [intros k' ws' H; apply (Hcan k' ws'); by right|].
    destruct (copied strip kh k); [|done]. rewrite fold_add_other; [done|].
    rewrite Hk. intros ->. apply Hni. apply list_elem_of_fmap. by exists (key, vs).
Qed.

(** ** Credentials *)

(** The credential an authenticator writes: header and value. *)
Definition injected (a : Authenticator) : option (string * string) :=
  match a with
  | bearerInjector key => Some ("Authorization"%string, String.append "Bearer " key)
  | leasedInjector key header prefix _ =>
      Some (if header =s "" then "Authorization"%string else header, String.append prefix key)
  | _ => None
  end.

Lemma Apply_lookup a h h' key :
  Apply a h = inl h' ->
  h' !! key =
    match injected a with
    | Some (name, v) => if decide (canonical name = key) then Some [v]
                        else if decide (canonical "Authorization" = key) then None else h !! key
    | None => h !! key
    end \/ (h' !! key = h !! key /\ exists name v, injected a = Some (name, v) /\ canonical name <> key /\
            EqualFold name "Authorization" = true).
Proof.
  unfold Apply, injected. destruct a as [k| |k header prefix mode|keys route mode header prefix]; [| | |done].
  - destruct (k =s ""); [done|]. intros [= <-]. unfold Set_.
    case_decide as Hd; [left; subst; by rewrite lookup_insert_eq|].
    right. rewrite lookup_insert_ne by done. split; [done|]. by exists "Authorization"%string, (String.append "Bearer " k).
  - intros [= <-]. by left.
  - destruct (k =s ""); [done|]. set (name := if header =s "" then "Authorization"%string else header).
    intros [= <-]. unfold Set_, Del. case_decide as Hd; [left; subst; by rewrite lookup_insert_eq|].
    rewrite lookup_insert_ne by done.
    destruct (EqualFold name "Authorization") eqn:Ef; simpl.
    + right. split; [done|]. eauto.
    + left. case_decide as Ha; [subst; by rewrite lookup_delete_eq|]. by rewrite lookup_delete_ne.
Qed.

Lemma canonical_ua : canonical "User-Agent" = "User-Agent".
Proof. vm_compute. reflexivity. Qed.

(** ** Theorem: the credential boundary *)

(** The names a credential may travel under, up to case: eight well-known ones and
    the key header of the route. *)
Definition names_credential (key name : string) : Prop :=
  ToLower name ∈ ["authorization"; "proxy-authorization"; "x-api-key"; "api-key"; "x-goog-api-key"; "cookie";
                  "openai-organization"; "openai-project"]%string \/
  (TrimSpace key <> "" /\ folds name (TrimSpace key)).

#[local] Instance names_credential_dec key name : Decision (names_credential key name).
Proof. unfold names_credential, folds. apply _. Defined.

Lemma isCallerCredential_exact name key : isCallerCredential name key = true <-> names_credential key name.
Proof.
  assert (Hl : existsb (fun deny => EqualFold name deny) callerCredentialHeaders = true <->
    ToLower name ∈ ["authorization"; "proxy-authorization"; "x-api-key"; "api-key"; "x-goog-api-key"; "cookie";
                    "openai-organization"; "openai-project"]%string).
  { change (["authorization"; "proxy-authorization"; "x-api-key"; "api-key"; "x-goog-api-key"; "cookie"; "openai-organization";
             "openai-project"]%string) with (ToLower <$> callerCredentialHeaders).
    rewrite existsb_exists, list_elem_of_fmap. setoid_rewrite EqualFold_spec. setoid_rewrite <- list_elem_of_In. naive_solver. }
  unfold isCallerCredential, names_credential, folds. rewrite <- Hl. destruct (existsb _ _); [naive_solver|].
  rewrite andb_true_iff, negb_true_iff, String.eqb_neq, EqualFold_spec. naive_solver.
Qed.

(** C8: On every mode where the gateway supplies the credential, what the upstream
    receives under a credential name is the injected value or nothing: no value
    the caller sent under any deny-listed name, in any letter case, or under the
    route's own key header gets through, and the outbound request does not
    depend on those headers at all. *)
Theorem credential_boundary (env : Env) (rt : boundRoute) (it it' : list (string * list string)) (r : Request)
    (out : OutRequest) (deny : string) :
  prepare env rt it r = inl out -> AuthMode (BAuth rt) <> AuthPassthrough ->
  names_credential (KeyHeader (BRoute rt)) deny -> canonical deny <> "User-Agent" ->
  OHeader out !! canonical deny =
    (match injected (BAuth rt) with
     | Some (name, v) => if decide (canonical name = canonical deny) then Some [v] else None
     | None => None
     end) /\
  (filter (fun kv => ~ names_credential (KeyHeader (BRoute rt)) kv.1) it =
   filter (fun kv => ~ names_credential (KeyHeader (BRoute rt)) kv.1) it' ->
   prepare env rt it' r = inl out).
Proof.
  intros Hp Hmode Hdeny%isCallerCredential_exact Hua.
  assert (Hstrip : negb (modesSupplyingTheirOwnCredential (AuthMode (BAuth rt))) = true).
  { unfold modesSupplyingTheirOwnCredential. by apply negb_true_iff, String.eqb_neq. }
  assert (Hfilter : forall l o, copy_headers true (KeyHeader (BRoute rt)) l o =
    copy_headers true (KeyHeader (BRoute rt))
      (filter (fun kv => ~ names_credential (KeyHeader (BRoute rt)) kv.1) l) o).
  { induction l as [|[k vs] l IH]; intros o; [done|]. rewrite copy_headers_cons, filter_cons. simpl.
    case_decide as Hd; [by rewrite copy_headers_cons, IH|].
    unfold copied. apply isCallerCredential_exact in Hd. rewrite Hd. simpl. by rewrite andb_false_r, IH. }
  pose proof Hp as Hp'. unfold prepare in Hp'. destruct (build_request env _ _) eqn:Eb; [done|].
  destruct (Apply (BAuth rt) (outbound_header rt it)) as [h|] eqn:Ea; [|done]. injection Hp' as <-.
  split.
  - assert (Hbase : outbound_header rt it !! canonical deny = None).
    { unfold outbound_header, Set_. rewrite Hstrip. rewrite lookup_insert_ne by (by rewrite canonical_ua).
      rewrite copy_headers_other; [apply lookup_empty|].
      intros k vs _ Hc. apply not_credential_key with (KeyHeader (BRoute rt)); [|done].
      unfold copied in Hc. apply andb_true_iff in Hc as [_ Hc]. by apply negb_true_iff in Hc. }
    destruct (Apply_lookup _ _ _ (canonical deny) Ea) as [H|[H (name & v & Hi & Hne & _)]]; simpl.
    + rewrite H. destruct (injected (BAuth rt)) as [[name v]|] eqn:Hi.
      * case_decide; [done|]. by case_decide.
      * done.
    + by rewrite H, Hi, decide_False.
  - intros He. unfold prepare. rewrite Eb. unfold outbound_header. rewrite Hstrip, Hfilter, <- He, <- Hfilter.
    unfold outbound_header in Ea. rewrite Hstrip in Ea. by rewrite Ea.
Qed.

Definition wit_route : Route :=
  {| Name := "minimax"; Prefix := "/minimax/"; Upstream := "https://api.minimaxi.com"; Auth := AuthInject;
     Enabled := true; Timeout := Minute; KeyEnv := "K"; KeyFile := ""; KeyRef := "";
     KeyEnvs := None; KeyFiles := None; KeyRefs := None; KeyHeader := ""; KeyPrefix := ""; Rotation_ := None |}.

Definition wit_env : Env :=
  {| build_request := fun _ _ => None;
     do_request := fun _ => inl {| StatusCode := 200; RespHeader := ∅; RespHost := "api.minimaxi.com:443";
                                   Body := [(to_bytes "ok", EOF)] |} |}.

Definition wit_req : Request :=
  {| Method := "POST"; Path := "/minimax/v1/chat"; RawQuery := ""; ContentLength := 2; RemoteAddr := "10.0.0.9:4000";
     RHeader := {[ "Authorization" := ["Bearer stolen"]; "X-Api-Key" := ["mine"]; "Accept" := ["*/*"] ]} |}.

Definition wit_bound : boundRoute := {| BRoute := wit_route; BAuth := bearerInjector "sk-real" |}.

Lemma credential_boundary_witness :
  OHeader (match prepare wit_env wit_bound [("x-api-key", ["mine"]); ("Authorization", ["Bearer stolen"])] wit_req with
           | inl o => o | inr _ => {| OMethod := ""; OTarget := ""; OHeader := ∅; OContentLength := 0 |} end)
    !! canonical "X-API-KEY" = None.
Proof.
  eapply (proj1 (credential_boundary wit_env wit_bound
    [("x-api-key", ["mine"]); ("Authorization", ["Bearer stolen"])] [] wit_req _ "X-API-KEY" _ _ _ _)).
  Unshelve. all: try (vm_compute; reflexivity); try (vm_compute; discriminate).
  left. apply (bool_decide_unpack _). vm_compute. exact I.
Defined.

(** Passthrough is transparent: with the canonical, distinct header names
    [net/http] delivers, every header the caller sent that is not hop-by-hop
    arrives at the upstream with its values unchanged and in order, credentials
    included; only User-Agent is replaced. *)
Theorem passthrough_transparent (env : Env) (rt : Route) (it : list (string * list string)) (r : Request)
    (out : OutRequest) (key : string) (vs : list string) :
  prepare env {| BRoute := rt; BAuth := passthrough |} it r = inl out ->
  it ≡ₚ map_to_list (RHeader r) -> (forall k, is_Some (RHeader r !! k) -> canonical k = k) ->
  RHeader r !! key = Some vs -> vs <> [] -> key <> "User-Agent" ->
  OHeader out !! key = if hopByHop (ToLower key) then None else Some vs.
Proof.
  intros Hp Hperm Hcan Hkey Hne Hua. unfold prepare in Hp.
  destruct (build_request env _ _); [done|]. simpl in Hp. injection Hp as <-. simpl.
  unfold outbound_header, Set_. simpl. rewrite lookup_insert_ne by (by rewrite canonical_ua).
  assert (Hnd : NoDup (it.*1)) by (rewrite Hperm; apply NoDup_fst_map_to_list).
  assert (Hcan' : forall k ws, (k, ws) ∈ it -> canonical k = k).
  { intros k ws Hin. apply Hcan. rewrite Hperm, elem_of_map_to_list in Hin. by rewrite Hin. }
  assert (Hin : (key, vs) ∈ it) by (by rewrite Hperm, elem_of_map_to_list).
  destruct (hopByHop (ToLower key)) eqn:Eh.
  - rewrite copy_headers_other; [apply lookup_empty|]. intros k ws Hk Hc He.
    rewrite (Hcan' _ _ Hk) in He. subst k. unfold copied in Hc. by rewrite Eh in Hc.
  - eapply copy_headers_lookup; try done; try apply lookup_empty. unfold copied. by rewrite Eh.
Qed.

Lemma passthrough_transparent_witness :
  exists out, prepare wit_env {| BRoute := wit_route; BAuth := passthrough |} (map_to_list (RHeader wit_req)) wit_req = inl out /\
    OHeader out !! "Authorization" = Some ["Bearer stolen"].
Proof.
  eexists; split; [vm_compute; reflexivity|].
  refine (passthrough_transparent wit_env wit_route (map_to_list (RHeader wit_req)) wit_req _ "Authorization"
    ["Bearer stolen"] _ _ _ _ _ _).
  - vm_compute. reflexivity.
  - done.
  - intros k [vs Hk]. unfold wit_req, RHeader in Hk.
    repeat (rewrite lookup_insert in Hk; case_decide; [subst; vm_compute; reflexivity|]).
    rewrite lookup_singleton in Hk. case_decide; [subst; vm_compute; reflexivity|done].
  - vm_compute. reflexivity.
  - done.
  - done.
Defined.

(** ** Caller authentication *)

(** Exactly who is served: everyone on the two postures that hold no token; in
    the token postures a caller whose trimmed token equals the configured one,
    and, under the loopback exemption only, a caller on a loopback connection
    that presented none.  A wrong token is never rescued by the exemption, and a
    blank configured token authorises nobody. *)
Theorem authorize_proxy_exact (mode : ProxyAuthMode) (token : string) (r : Request) :
  let presented := TrimSpace (Get (RHeader r) GatewayTokenHeader) in
  (authorizeProxy mode token r = proxyAuthOK <->
   mode = ProxyAuthOpen \/ mode = ProxyAuthLoopbackOnly \/
   (presented <> "" /\ presented = token) \/
   (presented = "" /\ mode = ProxyAuthTokenLoopbackExempt /\ isLoopbackPeer (RemoteAddr r) = true)) /\
  (authorizeProxy mode token r = refusalTokenRequired -> presented = "") /\
  (authorizeProxy mode token r = refusalTokenInvalid -> presented <> "" /\ presented <> token).
Proof.
  intros presented. unfold authorizeProxy. fold presented. case_decide as Hm.
  - split_and!; [|done|done]. tauto.
  - destruct (String.eqb_spec presented "") as [He|He].
    + destruct (decide (mode = ProxyAuthTokenLoopbackExempt)) as [->|Hx].
      * rewrite bool_decide_eq_true_2 by done. simpl.
        destruct (isLoopbackPeer (RemoteAddr r)); split_and!; try done; try tauto.
        split; [done|]. intros [?|[?|[[? _]|(_ & _ & ?)]]]; done.
      * rewrite bool_decide_eq_false_2 by done. simpl. split_and!; try done.
        split; [done|]. intros [?|[?|[[? _]|(_ & ? & _)]]]; tauto.
    + assert (Hiff : mode = ProxyAuthOpen \/ mode = ProxyAuthLoopbackOnly \/
        (presented <> "" /\ presented = token) \/
        (presented = "" /\ mode = ProxyAuthTokenLoopbackExempt /\ isLoopbackPeer (RemoteAddr r) = true) <->
        presented = token) by tauto.
      rewrite Hiff. destruct (String.eqb_spec token "") as [Ht|Ht].
      * split_and!; try done; [|intros _; split; congruence]. split; [done|congruence].
      * destruct (String.eqb_spec presented token); simpl; split_and!; try done; try tauto.
Qed.

(** C18: A refused caller costs nothing and learns nothing: no upstream request, no
    change to any store, a 401 that names neither routes nor keys, and a health
    answer without the inventory. *)
Theorem unauthenticated_is_inert (env : Env) (clk : Clock) (range : Header -> list (string * list string))
    (writes : list (Z * bool)) (clock : nat -> Time) (r : Request) (s : Server) :
  authorizeProxy (proxyAuth s) (proxyToken s) r <> proxyAuthOK ->
  (let '(o, s') := handleProxy env clk range writes r s in
   s' = s /\ sent o = None /\ answer o = Unauthorized (authorizeProxy (proxyAuth s) (proxyToken s) r)) /\
  handleHealth clock r s = ({| HProxyAuth := proxyAuth s; HDetail := None |}, s).
Proof.
  intros H. split.
  - unfold handleProxy. by rewrite decide_True.
  - unfold handleHealth. by rewrite decide_False.
Qed.

Definition wit_server : Server :=
  {| cfg := GatewayConfig.wit_config; sroutes := [wit_bound]; stores := ∅; connToken := "c";
     proxyAuth := ProxyAuthToken; proxyToken := "t"; allowed := []; trustForwardedForAudit := false;
     scope := ConnectTarget.scopeReachable |}.

Definition wit_clock : Clock :=
  {| at_lease := 1; at_retry := 2; at_reset := fun _ => 3; at_vendor := 4; at_retire := 5; at_settle := 6 |}.

Lemma unauthenticated_is_inert_witness :
  (handleProxy wit_env wit_clock map_to_list [] wit_req wit_server).2 = wit_server.
Proof.
  pose proof (unauthenticated_is_inert wit_env wit_clock map_to_list [] (fun _ => 0) wit_req wit_server) as H.
  destruct (handleProxy wit_env wit_clock map_to_list [] wit_req wit_server) as [o s'] eqn:E.
  apply H. vm_compute. discriminate.
Defined.

(** ** Leases through the handler *)

Definition store_inv (st : Store) : Prop :=
  forall r i k, RotationStoreSpec.key_at st r i = Some k -> RotationStoreSpec.kinv (RotationStore.budget st) k.

Definition balanced (ls : list RotationStoreSpec.label) : Prop :=
  forall r i, RotationStoreSpec.count_labels (RotationStoreSpec.reserves_of r i) ls =
              RotationStoreSpec.count_labels (RotationStoreSpec.settles_of r i) ls.

Lemma sstep_inv (st st' : Store) l : RotationStoreSpec.sstep st l st' -> store_inv st -> store_inv st'.
Proof.
  intros Hs Hi r i k Hk. destruct (RotationStoreSpec.sstep_config _ _ _ Hs) as [-> _].
  destruct (RotationStoreSpec.sstep_key _ _ _ r i k Hs) as (k0 & evs & Hk0 & Hks & _); [by apply Hi|done|].
  by eapply RotationStoreSpec.ksteps_inv in Hks as [? _]; [|by eapply Hi].
Qed.

Lemma sstep_outstanding (st st' : Store) l r i k' :
  RotationStoreSpec.sstep st l st' -> store_inv st -> RotationStoreSpec.key_at st' r i = Some k' ->
  exists k, RotationStoreSpec.key_at st r i = Some k /\
    RotationStoreSpec.outstanding k' = RotationStoreSpec.outstanding k +
      Z.b2z (RotationStoreSpec.reserves_of r i l) - Z.b2z (RotationStoreSpec.settles_of r i l).
Proof.
  intros Hs Hi Hk. destruct (RotationStoreSpec.sstep_key _ _ _ r i k' Hs) as (k & evs & Hk0 & Hks & Hc1 & Hc2);
    [by apply Hi|done|].
  exists k. split; [done|]. eapply RotationStoreSpec.ksteps_inv in Hks as [_ ->]; [|by eapply Hi]. lia.
Qed.

(** The locked updates keep every key. *)
Lemma on_key_keeps (st : Store) now route idx f r i :
  is_Some (RotationStoreSpec.key_at st r i) ->
  is_Some (RotationStoreSpec.key_at (RotationStore.on_key now route idx f st).1 r i).
Proof.
  unfold RotationStore.on_key. destruct (RotationStore.routes st !! route) as [rs|] eqn:E; [|done].
  case_match; [|done]. destruct (RotationStore.rkeys _ !! Z.to_nat idx) as [k|] eqn:Ek; [|done].
  destruct (f _ k) as [k' ev]. simpl. rewrite RotationStoreSpec.key_at_set_route.
  case_decide as Hr; [subst|done]. unfold RotationStoreSpec.key_at. rewrite E. simpl.
  rewrite !lookup_lt_is_Some, length_insert. unfold RotationStore.advance.
  by rewrite RotationStoreSpec.advance_length.
Qed.

(** A granted lease is on a key with that lease outstanding. *)
Lemma acquire_granted (st st' : Store) now route l refusal :
  store_inv st -> RotationStore.acquire now route st = (Some l, refusal, st') ->
  exists i k, l = {| RotationStore.l_route := route; RotationStore.l_index := Z.of_nat i; RotationStore.settled := false |} /\
    RotationStoreSpec.sstep st (RotationStoreSpec.LReserve route i) st' /\
    RotationStoreSpec.key_at st' route i = Some k /\ 0 < RotationStoreSpec.outstanding k.
Proof.
  intros Hi. unfold RotationStore.acquire. destruct (RotationStore.reserve now route st) as [[idx ref] st1] eqn:E.
  case_decide as Hr; [|done]. intros [= <- <- ->]. subst ref.
  destruct (RotationStore.routes st !! route) as [rs0|] eqn:Er.
  2: { unfold RotationStore.reserve in E. by rewrite Er in E. }
  destruct (RotationStoreSpec.reserve_spec st now route rs0 Er) as [(i & k & s1 & H & Hk & _)|[(_ & _ & H)|(_ & H)]];
    rewrite E in H; simplify_eq.
  exists i, (RotationStore.set_leases k (RotationStore.leases k ++ [now])).
  assert (Hs : RotationStoreSpec.sstep st (RotationStoreSpec.LReserve route i)
    (RotationStore.set_route s1 route (RotationStore.append_lease (RotationStore.advance st rs0 now) i now)))
    by (by eapply RotationStoreSpec.SS_reserve).
  assert (Hk' : RotationStoreSpec.key_at (RotationStore.set_route s1 route
      (RotationStore.append_lease (RotationStore.advance st rs0 now) i now)) route i =
      Some (RotationStore.set_leases k (RotationStore.leases k ++ [now]))).
  { rewrite RotationStoreSpec.key_at_set_route, decide_True by done. unfold RotationStore.append_lease; simpl.
    by rewrite list_lookup_alter, decide_True, Hk. }
  split_and!; auto.
  destruct (sstep_outstanding _ _ _ _ _ _ Hs Hi Hk') as (k0 & Hk0 & ->). simpl.
  rewrite bool_decide_eq_true_2 by done. simpl. pose proof (Hi _ _ _ Hk0) as [Ho _ _ _].
  unfold RotationStoreSpec.outstanding, RotationStore.inFlight. lia.
Qed.

Lemma acquire_refused (st st' : Store) now route refusal :
  RotationStore.acquire now route st = (None, refusal, st') ->
  RotationStoreSpec.sstep st RotationStoreSpec.LOther st'.
Proof.
  unfold RotationStore.acquire. destruct (RotationStore.reserve now route st) as [[idx ref] st1] eqn:E.
  case_decide as Hr; [done|]. intros [= <- <-]. by eapply RotationStoreSpec.SS_refuse.
Qed.

(** Settling an unsettled lease whose key has it outstanding. *)
Lemma settle_step (st : Store) now sample route i k :
  RotationStoreSpec.key_at st route i = Some k -> 0 < RotationStoreSpec.outstanding k ->
  exists st', RotationStore.Settle now
      {| RotationStore.l_route := route; RotationStore.l_index := Z.of_nat i; RotationStore.settled := false |} sample st =
    ({| RotationStore.l_route := route; RotationStore.l_index := Z.of_nat i; RotationStore.settled := true |}, st',
     (RotationStore.RecordSample now route (Z.of_nat i) sample st).2) /\
    RotationStoreSpec.sstep st (RotationStoreSpec.LSettle route i) st'.
Proof.
  intros Hk Ho. exists (RotationStore.RecordSample now route (Z.of_nat i) sample st).1. split.
  - unfold RotationStore.Settle. simpl. by destruct (RotationStore.RecordSample _ _ _ _ _).
  - by eapply RotationStoreSpec.SS_settle.
Qed.

Definition all_other (ls : list RotationStoreSpec.label) : Prop :=
  Forall (fun l => l = RotationStoreSpec.LOther) ls.

Lemma filter_other f ls : all_other ls -> f RotationStoreSpec.LOther = false -> List.filter f ls = [].
Proof. intros Ho Hf. induction Ho as [|l ls -> _ IH]; simpl; [done|]. by rewrite Hf. Qed.

Lemma balanced_other ls : all_other ls -> balanced ls.
Proof. intros Ho r j. unfold RotationStoreSpec.count_labels. by rewrite !filter_other. Qed.

Lemma balanced_lease route i ls :
  all_other ls -> balanced ((RotationStoreSpec.LReserve route i :: ls) ++ [RotationStoreSpec.LSettle route i]).
Proof.
  intros Ho r j. unfold RotationStoreSpec.count_labels. rewrite !List.filter_app, !length_app.
  cbn [List.filter RotationStoreSpec.reserves_of RotationStoreSpec.settles_of].
  rewrite !filter_other by done. by destruct (bool_decide _).
Qed.

(** One step, as a history. *)
Lemma hist_one (st st' : Store) l : RotationStoreSpec.sstep st l st' -> RotationStoreSpec.hist st [l] st'.
Proof. intros H. by apply (RotationStoreSpec.H_snoc st [] st l st' (RotationStoreSpec.H_nil st)). Qed.

Lemma hist_cons (st st1 st2 : Store) l ls :
  RotationStoreSpec.sstep st l st1 -> RotationStoreSpec.hist st1 ls st2 -> RotationStoreSpec.hist st (l :: ls) st2.
Proof.
  intros Hs Hh. induction Hh as [st1|st1 ls st2 l' st3 Hh IH Hs']; [by apply hist_one|].
  change (l :: ls ++ [l']) with ((l :: ls) ++ [l']). econstructor; [by apply IH|done].
Qed.

(** The store of [route] becomes [st'], every other store stays. *)
Definition store_now (s s' : Server) (route : string) (st' : Store) : Prop :=
  stores s' !! route = Some st' /\ forall n, n <> route -> stores s' !! n = stores s !! n.

Lemma store_now_set s route st : store_now s (set_store s route st) route st.
Proof. split; simpl; [apply lookup_insert_eq|]. intros n Hn. by rewrite lookup_insert_ne. Qed.

Lemma store_now_refl s route st : stores s !! route = Some st -> store_now s s route st.
Proof. by split. Qed.

Lemma store_now_trans s s1 s2 route st1 st2 :
  store_now s s1 route st1 -> store_now s1 s2 route st2 -> store_now s s2 route st2.
Proof. intros [_ H1] [H2 H3]. split; [done|]. intros n Hn. by rewrite H3, H1. Qed.

(** A retirement keeps the lease outstanding. *)
Lemma on_key_outstanding (st : Store) now route idx f i k :
  store_inv st -> RotationStoreSpec.sstep st RotationStoreSpec.LOther (RotationStore.on_key now route idx f st).1 ->
  RotationStoreSpec.key_at st route i = Some k -> 0 < RotationStoreSpec.outstanding k ->
  exists k', RotationStoreSpec.key_at (RotationStore.on_key now route idx f st).1 route i = Some k' /\
    0 < RotationStoreSpec.outstanding k'.
Proof.
  intros Hi Hs Hk Ho. destruct (on_key_keeps st now route idx f route i) as [k' Hk']; [by rewrite Hk|].
  exists k'. split; [done|]. destruct (sstep_outstanding _ _ _ _ _ _ Hs Hi Hk') as (k0 & Hk0 & ->). simpl.
  rewrite Hk in Hk0. injection Hk0 as <-. lia.
Qed.

Section handler.
Context (keys : list string) (route mode header prefix : string) (rt0 : Route).
Let a := rotatingInjector keys route mode header prefix.
Let rt := {| BRoute := rt0; BAuth := a |}.

Lemma retire_for_step clk idx status tail s st i k :
  stores s !! route = Some st -> store_inv st ->
  RotationStoreSpec.key_at st route i = Some k -> 0 < RotationStoreSpec.outstanding k ->
  exists st1 ls k1, store_now s (retire_for clk rt idx status tail s).1 route st1 /\
    RotationStoreSpec.hist st ls st1 /\ all_other ls /\ store_inv st1 /\
    RotationStoreSpec.key_at st1 route i = Some k1 /\ 0 < RotationStoreSpec.outstanding k1.
Proof.
  intros Hst Hi Hk Ho.
  assert (Hnone : exists st1 ls k1, store_now s s route st1 /\ RotationStoreSpec.hist st ls st1 /\ all_other ls /\
    store_inv st1 /\ RotationStoreSpec.key_at st1 route i = Some k1 /\ 0 < RotationStoreSpec.outstanding k1).
  { exists st, [], k. split_and!; auto using store_now_refl; constructor. }
  assert (Hstep : forall now f, RotationStoreSpec.sstep st RotationStoreSpec.LOther (RotationStore.on_key now route idx f st).1 ->
    exists st1 ls k1, store_now s (set_store s route (RotationStore.on_key now route idx f st).1) route st1 /\
    RotationStoreSpec.hist st ls st1 /\ all_other ls /\ store_inv st1 /\
    RotationStoreSpec.key_at st1 route i = Some k1 /\ 0 < RotationStoreSpec.outstanding k1).
  { intros now f Hs. destruct (on_key_outstanding _ _ _ _ _ _ _ Hi Hs Hk Ho) as (k1 & Hk1 & Ho1).
    eexists _, [RotationStoreSpec.LOther], k1. split_and!; eauto using store_now_set, hist_one, sstep_inv.
    by constructor. }
  unfold retire_for, retireUntil, retire, on_store. cbn [is_leaser BAuth rt]. unfold a. rewrite Hst.
  destruct (VendorError.parseVendorSignal _ _) as [sig found]. destruct found.
  - destruct (VendorError.Retires sig); [|exact Hnone].
    pose proof (RotationStoreSpec.SS_retire st (at_retire clk) route idx
      (VendorError.vendorRetireUntil sig (at_vendor clk) time_zero) (VendorError.Reason sig)) as Hs.
    specialize (Hstep _ _ Hs). unfold RotationStore.RetireWithReason in *.
    destruct (RotationStore.on_key _ _ _ _ _) as [st1 ev]. exact Hstep.
  - destruct (isQuotaStatus status); [|exact Hnone].
    pose proof (RotationStoreSpec.SS_retireWindow st (at_retire clk) route idx RotationStore.ReasonQuota) as Hs.
    specialize (Hstep _ _ Hs). unfold RotationStore.retireForWindow in *.
    destruct (RotationStore.on_key _ _ _ _ _) as [st1 ev]. exact Hstep.
Qed.

(** [serve] settles the lease or leaves it for the deferred settlement. *)
Lemma serve_step env clk range writes fwd r s st i k :
  let l := {| RotationStore.l_route := route; RotationStore.l_index := Z.of_nat i; RotationStore.settled := false |} in
  stores s !! route = Some st -> store_inv st ->
  RotationStoreSpec.key_at st route i = Some k -> 0 < RotationStoreSpec.outstanding k ->
  let '(_, l', s') := serve env clk range writes rt fwd (Some l) r s in
  exists l1 st', l' = Some l1 /\ store_now s s' route st' /\
    (l1 = l /\ st' = st \/
     RotationStore.settled l1 = true /\ exists ls, all_other ls /\
       RotationStoreSpec.hist st (ls ++ [RotationStoreSpec.LSettle route i]) st').
Proof.
  intros l Hst Hi Hk Ho. unfold serve. destruct (Forward env fwd _ r) as [resp|e].
  2: { exists l, st. split_and!; auto using store_now_refl. }
  destruct (copy_body _ _ _ _ _) as [n tail]. unfold settleLease.
  destruct (retire_for_step clk (RotationStore.l_index l) (StatusCode resp) tail s st i k Hst Hi Hk Ho)
    as (st1 & ls & k1 & Hn & Hh & Hls & Hi1 & Hk1 & Ho1).
  destruct (retire_for clk rt _ _ _ s) as [s1 ev]. simpl in Hn. destruct Hn as [Hs1 Hrest].
  unfold settle. cbn [BAuth rt]. unfold a. rewrite Hs1.
  destruct (settle_step st1 (at_settle clk) (chargeableSample (StatusCode resp) (Usage.Result tail)) route i k1 Hk1 Ho1)
    as (st2 & He & Hs2). unfold l. rewrite He.
  eexists _, st2. split_and!; [done| |].
  - eapply store_now_trans; [by split|]. apply store_now_set.
  - right. split; [done|]. exists ls. split; [done|]. by econstructor.
Qed.

(** The deferred settlement completes the account. *)
Lemma deferred_settle clk s st l1 i k :
  stores s !! route = Some st ->
  (RotationStore.settled l1 = true \/
   l1 = {| RotationStore.l_route := route; RotationStore.l_index := Z.of_nat i; RotationStore.settled := false |} /\
   RotationStoreSpec.key_at st route i = Some k /\ 0 < RotationStoreSpec.outstanding k) ->
  exists st', store_now s (settle (at_settle clk) l1 failed_sample s a).2 route st' /\
    (RotationStore.settled l1 = true /\ st' = st \/
     RotationStore.settled l1 = false /\ RotationStoreSpec.sstep st (RotationStoreSpec.LSettle route i) st').
Proof.
  intros Hst H. unfold settle, a. rewrite Hst. destruct H as [Hset|(-> & Hk & Ho)].
  - unfold RotationStore.Settle. rewrite Hset. exists st. split; [apply store_now_set|auto].
  - destruct (settle_step st (at_settle clk) failed_sample route i k Hk Ho) as (st' & He & Hs).
    rewrite He. exists st'. split; [apply store_now_set|auto].
Qed.

(** A leased request, from the grant to the deferred settlement. *)
Lemma leased_balanced env clk range writes fwd r s st st1 s1 i k :
  let l := {| RotationStore.l_route := route; RotationStore.l_index := Z.of_nat i; RotationStore.settled := false |} in
  store_now s s1 route st1 -> store_inv st1 ->
  RotationStoreSpec.sstep st (RotationStoreSpec.LReserve route i) st1 ->
  RotationStoreSpec.key_at st1 route i = Some k -> 0 < RotationStoreSpec.outstanding k ->
  let '(_, l', s2) := serve env clk range writes rt fwd (Some l) r s1 in
  exists l1 st' ls, l' = Some l1 /\ store_now s (settle (at_settle clk) l1 failed_sample s2 a).2 route st' /\
    RotationStoreSpec.hist st ls st' /\ balanced ls.
Proof.
  intros l [Hs1 Hrest] Hi1 Hres Hk Ho.
  pose proof (serve_step env clk range writes fwd r s1 st1 i k Hs1 Hi1 Hk Ho) as H. cbv zeta in H. fold l in H.
  destruct (serve env clk range writes rt fwd (Some l) r s1) as [[o l'] s2].
  destruct H as (l1 & st2 & -> & Hn2 & Hcase). exists l1.
  assert (Hd : RotationStore.settled l1 = true \/ l1 = l /\ RotationStoreSpec.key_at st2 route i = Some k /\
                 0 < RotationStoreSpec.outstanding k) by (destruct Hcase as [[-> ->]|[? _]]; auto).
  destruct (deferred_settle clk s2 st2 l1 i k (proj1 Hn2) Hd) as (st3 & Hn3 & Hc3).
  assert (Hnow : store_now s (settle (at_settle clk) l1 failed_sample s2 a).2 route st3).
  { eapply store_now_trans; [by split|]. by eapply store_now_trans. }
  destruct Hcase as [[-> ->]|[Hset (ls & Hls & Hh)]].
  - destruct Hc3 as [[? _]|[_ Hs3]]; [done|].
    exists st3, ([RotationStoreSpec.LReserve route i] ++ [RotationStoreSpec.LSettle route i]). split_and!; [done|done| |].
    + eapply hist_cons; [done|]. by apply hist_one.
    + apply (balanced_lease route i []). constructor.
  - destruct Hc3 as [[_ ->]|[? _]]; [|congruence].
    exists st2, ((RotationStoreSpec.LReserve route i :: ls) ++ [RotationStoreSpec.LSettle route i]). split_and!; [done|done| |].
    + simpl. by eapply hist_cons.
    + by apply balanced_lease.
Qed.

(** A refused lease makes no reservation, or settles the one it made. *)
Lemma refused_balanced now s st s1 refusal :
  stores s !! route = Some st -> store_inv st -> leaseFor now s a = (None, refusal, s1) ->
  exists st1 ls, store_now s s1 route st1 /\ RotationStoreSpec.hist st ls st1 /\ balanced ls /\ store_inv st1.
Proof.
  intros Hst Hi. unfold leaseFor, a. rewrite Hst.
  destruct (RotationStore.acquire now route st) as [[lease ref] st1] eqn:E. destruct lease as [l|].
  - destruct (acquire_granted _ _ _ _ _ _ Hi E) as (i & k & -> & Hs & Hk & Ho).
    cbn [RotationStore.l_index]. destruct (if 0 <=? Z.of_nat i then keys !! Z.to_nat (Z.of_nat i) else None); [done|].
    destruct (settle_step st1 now failed_sample route i k Hk Ho) as (st2 & He & Hs2).
    unfold failed_sample in He. rewrite He. intros [= <- <-].
    exists st2, ([RotationStoreSpec.LReserve route i] ++ [RotationStoreSpec.LSettle route i]).
    split_and!; [|by eapply hist_cons, hist_one|apply (balanced_lease route i []); constructor|by eauto using sstep_inv].
    eapply store_now_trans; apply store_now_set.
  - intros [= <- <-]. exists st1, [RotationStoreSpec.LOther].
    pose proof (acquire_refused _ _ _ _ _ E) as Hs.
    split_and!; [apply store_now_set|by apply hist_one|apply balanced_other; by constructor|by eauto using sstep_inv].
Qed.

Lemma leaseFor_granted now s st s1 auth l refusal :
  stores s !! route = Some st -> store_inv st -> leaseFor now s a = (Some (auth, l), refusal, s1) ->
  exists i k st1, l = {| RotationStore.l_route := route; RotationStore.l_index := Z.of_nat i; RotationStore.settled := false |} /\
    store_now s s1 route st1 /\ store_inv st1 /\ RotationStoreSpec.sstep st (RotationStoreSpec.LReserve route i) st1 /\
    RotationStoreSpec.key_at st1 route i = Some k /\ 0 < RotationStoreSpec.outstanding k.
Proof.
  intros Hst Hi. unfold leaseFor, a. rewrite Hst.
  destruct (RotationStore.acquire now route st) as [[lease ref] st1] eqn:E. destruct lease as [l0|]; [|done].
  destruct (acquire_granted _ _ _ _ _ _ Hi E) as (i & k & -> & Hs & Hk & Ho).
  cbn [RotationStore.l_index]. destruct (if 0 <=? Z.of_nat i then keys !! Z.to_nat (Z.of_nat i) else None).
  2: { by destruct (RotationStore.Settle _ _ _ _) as [[? ?] ?]. }
  intros [= <- <- <- <-]. exists i, k, st1. split_and!; auto using store_now_set; eauto using sstep_inv.
Qed.

(** Every operation of the handler touches the store of its own route only. *)
Definition framed (s s' : Server) : Prop := forall n, n <> route -> stores s' !! n = stores s !! n.

Lemma framed_refl s : framed s s.
Proof. done. Qed.

Lemma framed_set s st : framed s (set_store s route st).
Proof. intros n Hn. simpl. by rewrite lookup_insert_ne. Qed.

Lemma framed_trans s s1 s2 : framed s s1 -> framed s1 s2 -> framed s s2.
Proof. intros H1 H2 n Hn. by rewrite H2, H1. Qed.

Lemma leaseFor_framed now s : framed s (leaseFor now s a).2.
Proof.
  unfold leaseFor, a. destruct (stores s !! route) as [st|]; [|apply framed_refl].
  destruct (RotationStore.acquire now route st) as [[[l|] ref] st1]; [|apply framed_set].
  destruct (if 0 <=? _ then _ else _); [apply framed_set|].
  destruct (RotationStore.Settle _ _ _ _) as [[? st2] ?]. eapply framed_trans; apply framed_set.
Qed.

Lemma settle_framed now l sample s : framed s (settle now l sample s a).2.
Proof.
  unfold settle, a. destruct (stores s !! route) as [st|]; [|apply framed_refl].
  destruct (RotationStore.Settle _ _ _ _) as [[? st2] ?]. apply framed_set.
Qed.

Lemma retire_for_framed clk idx status tail s : framed s (retire_for clk rt idx status tail s).1.
Proof.
  assert (Hon : forall f, framed s (on_store s a f).1).
  { intros f. unfold on_store, a. destruct (stores s !! route) as [st|]; [|apply framed_refl].
    destruct (f route st). apply framed_set. }
  unfold retire_for, retireUntil, retire. cbn [is_leaser BAuth rt].
  destruct (VendorError.parseVendorSignal _ _) as [sig found]. repeat case_match; auto using framed_refl.
Qed.

Lemma serve_framed env clk range writes fwd l r s : framed s (serve env clk range writes rt fwd (Some l) r s).2.
Proof.
  unfold serve. destruct (Forward _ _ _ _); [|apply framed_refl].
  destruct (copy_body _ _ _ _ _) as [n tail]. unfold settleLease.
  pose proof (retire_for_framed clk (RotationStore.l_index l) (StatusCode r0) tail s) as H1.
  destruct (retire_for _ _ _ _ _ _) as [s1 ?].
  pose proof (settle_framed (at_settle clk) l (chargeableSample (StatusCode r0) (Usage.Result tail)) s1) as H2.
  cbn [BAuth rt]. destruct (settle _ _ _ _ _) as [l1 s2]. by eapply framed_trans.
Qed.

Lemma refusalAnswer_framed now refusal s : framed s (refusalAnswerFor now refusal s a).2.
Proof.
  unfold refusalAnswerFor, retryAfter, a. case_decide; [apply framed_refl|].
  destruct (stores s !! route) as [st|]; [|apply framed_refl].
  destruct (RotationStore.RetryAfter _ _ _) as [d st1]. apply framed_set.
Qed.

Lemma refusalAnswer_step now refusal s st :
  stores s !! route = Some st ->
  exists st1 ls, store_now s (refusalAnswerFor now refusal s a).2 route st1 /\
    RotationStoreSpec.hist st ls st1 /\ all_other ls.
Proof.
  intros Hst. unfold refusalAnswerFor, retryAfter, a. case_decide.
  - exists st, []. split_and!; [by apply store_now_refl|constructor|constructor].
  - rewrite Hst. pose proof (RotationStoreSpec.SS_retryAfter st now route) as Hs.
    destruct (RotationStore.RetryAfter now route st) as [d st1].
    exists st1, [RotationStoreSpec.LOther]. split_and!; [apply store_now_set|by apply hist_one|by constructor].
Qed.

End handler.

Lemma hist_app (st st1 st2 : Store) ls1 ls2 :
  RotationStoreSpec.hist st ls1 st1 -> RotationStoreSpec.hist st1 ls2 st2 -> RotationStoreSpec.hist st (ls1 ++ ls2) st2.
Proof.
  intros H1 H2. induction H2 as [st1|st1 ls st2 l st3 H2 IH Hs]; [by rewrite app_nil_r|].
  rewrite app_assoc. econstructor; [by apply IH|done].
Qed.

Lemma hist_store_inv (st st' : Store) ls : RotationStoreSpec.hist st ls st' -> store_inv st -> store_inv st'.
Proof. induction 1; eauto using sstep_inv. Qed.

Lemma balanced_app ls1 ls2 : balanced ls1 -> balanced ls2 -> balanced (ls1 ++ ls2).
Proof.
  intros H1 H2 r i. specialize (H1 r i). specialize (H2 r i). unfold RotationStoreSpec.count_labels in *.
  rewrite !List.filter_app, !length_app. lia.
Qed.

(** The leased branch of the handler, on its own route's store. *)
Lemma leased_branch env clk range writes r s keys route mode header prefix rt0 st :
  let a := rotatingInjector keys route mode header prefix in
  let rt := {| BRoute := rt0; BAuth := a |} in
  stores s !! route = Some st -> store_inv st ->
  exists st' ls, store_now s
    (let '(leased, refusal, s) := leaseFor (at_lease clk) s a in
     match leased with
     | None => let '(code, wait, s) := refusalAnswerFor (at_retry clk) refusal s a in s
     | Some (auth, l) =>
         let '(o, l', s) := serve env clk range writes rt {| BRoute := rt0; BAuth := auth |} (Some l) r s in
         match l' with Some l' => (settle (at_settle clk) l' failed_sample s a).2 | None => s end
     end) route st' /\ RotationStoreSpec.hist st ls st' /\ balanced ls.
Proof.
  intros a rt Hst Hi. destruct (leaseFor (at_lease clk) s a) as [[leased refusal] s1] eqn:E.
  destruct leased as [[auth l]|].
  - destruct (leaseFor_granted _ _ _ _ _ _ _ _ _ _ _ _ Hst Hi E) as (i & k & st1 & -> & Hn & Hi1 & Hs & Hk & Ho).
    pose proof (leased_balanced keys route mode header prefix rt0 env clk range writes
      {| BRoute := rt0; BAuth := auth |} r s st st1 s1 i k Hn Hi1 Hs Hk Ho) as H. cbv zeta in H. fold a rt in H.
    destruct (serve _ _ _ _ _ _ _ _ _) as [[o l'] s2].
    destruct H as (l1 & st' & ls & -> & Hn' & Hh & Hb). exists st', ls. auto.
  - destruct (refused_balanced _ _ _ _ _ _ _ _ _ _ Hst Hi E) as (st1 & ls1 & Hn1 & Hh1 & Hb1 & Hi1).
    destruct (refusalAnswer_step keys route mode header prefix (at_retry clk) refusal s1 st1 (proj1 Hn1))
      as (st2 & ls2 & Hn2 & Hh2 & Ho2). fold a in Hn2.
    destruct (refusalAnswerFor _ _ _ _) as [[code wait] s2].
    exists st2, (ls1 ++ ls2). split_and!; [by eapply store_now_trans|by eapply hist_app|].
    apply balanced_app; [done|by apply balanced_other].
Qed.

(** The handler's final server, by branch. *)
Lemma handleProxy_server env clk range writes r s :
  (handleProxy env clk range writes r s).2 =
  (if decide (authorizeProxy (proxyAuth s) (proxyToken s) r <> proxyAuthOK) then s
   else match match_route s (Path r) with
        | None => s
        | Some rt =>
            if is_leaser (BAuth rt) then
              let '(leased, refusal, s) := leaseFor (at_lease clk) s (BAuth rt) in
              match leased with
              | None => let '(code, wait, s) := refusalAnswerFor (at_retry clk) refusal s (BAuth rt) in s
              | Some (auth, l) =>
                  let '(o, l', s) := serve env clk range writes rt {| BRoute := BRoute rt; BAuth := auth |} (Some l)
                                       (drop_token r) s in
                  match l' with Some l' => (settle (at_settle clk) l' failed_sample s (BAuth rt)).2 | None => s end
              end
            else s
        end).
Proof.
  unfold handleProxy. case_decide; [done|]. cbn [Path drop_token].
  destruct (match_route s (Path r)) as [rt|]; [|done]. destruct (is_leaser (BAuth rt)).
  - destruct (leaseFor _ _ _) as [[[[auth l]|] refusal] s1].
    + destruct (serve _ _ _ _ _ _ _ _ _) as [[o [l'|]] s2]; [|done]. by destruct (settle _ _ _ _ _).
    + by destruct (refusalAnswerFor _ _ _ _) as [[? ?] ?].
  - unfold serve. destruct (Forward _ _ _ _); [|done]. by destruct (copy_body _ _ _ _ _).
Qed.

Lemma leased_frame env clk range writes r s keys route mode header prefix rt0 :
  let a := rotatingInjector keys route mode header prefix in
  let rt := {| BRoute := rt0; BAuth := a |} in
  framed route s
    (let '(leased, refusal, s) := leaseFor (at_lease clk) s a in
     match leased with
     | None => let '(code, wait, s) := refusalAnswerFor (at_retry clk) refusal s a in s
     | Some (auth, l) =>
         let '(o, l', s) := serve env clk range writes rt {| BRoute := rt0; BAuth := auth |} (Some l) r s in
         match l' with Some l' => (settle (at_settle clk) l' failed_sample s a).2 | None => s end
     end).
Proof.
  intros a rt. pose proof (leaseFor_framed keys route mode header prefix (at_lease clk) s) as H1. fold a in H1.
  destruct (leaseFor _ _ _) as [[[[auth l]|] refusal] s1].
  - pose proof (serve_framed keys route mode header prefix rt0 env clk range writes
      {| BRoute := rt0; BAuth := auth |} l r s1) as H2. fold a in H2. fold rt in H2.
    destruct (serve _ _ _ _ _ _ _ _ _) as [[o [l'|]] s2]; [|by eapply framed_trans].
    pose proof (settle_framed keys route mode header prefix (at_settle clk) l' failed_sample s2) as H3.
    eapply framed_trans; [by eapply framed_trans|exact H3].
  - pose proof (refusalAnswer_framed keys route mode header prefix (at_retry clk) refusal s1) as H2. fold a in H2.
    destruct (refusalAnswerFor _ _ _ _) as [[? ?] s2]. by eapply framed_trans.
Qed.

(** C10: Whatever happens to a request — refused, granted, the upstream failing, the
    response charged, the key retired — the handler leaves no lease behind: on
    every rotation store it is a history with as many settlements as
    reservations of each key, so the reservations outstanding before and after
    the request are the same. *)
Theorem handler_leaks_no_lease (env : Env) (clk : Clock) (range : Header -> list (string * list string))
    (writes : list (Z * bool)) (r : Request) (s : Server) (name : string) (st : Store) :
  stores s !! name = Some st -> store_inv st ->
  exists st' ls, stores (handleProxy env clk range writes r s).2 !! name = Some st' /\
    RotationStoreSpec.hist st ls st' /\ balanced ls /\ store_inv st'.
Proof.
  intros Hst Hi. rewrite handleProxy_server.
  assert (Hsame : exists st' ls, stores s !! name = Some st' /\ RotationStoreSpec.hist st ls st' /\
    balanced ls /\ store_inv st') by (exists st, []; split_and!; auto; [constructor|by intros ??]).
  case_decide; [done|]. destruct (match_route s (Path r)) as [[rt0 au]|]; [|done].
  destruct au as [| | |keys route mode header prefix]; try done. cbn [is_leaser BAuth BRoute].
  destruct (decide (name = route)) as [->|Hne].
  - destruct (leased_branch env clk range writes (drop_token r) s keys route mode header prefix rt0 st Hst Hi)
      as (st' & ls & [Hn _] & Hh & Hb).
    exists st', ls. split_and!; auto. by eapply hist_store_inv.
  - pose proof (leased_frame env clk range writes (drop_token r) s keys route mode header prefix rt0 name Hne) as Hf.
    cbv zeta in Hf. by rewrite Hf.
Qed.

(** A pooled server with one key and a request cap of three. *)
Definition wit_pool_bound : boundRoute :=
  {| BRoute := Secret.wit_pool_route;
     BAuth := rotatingInjector ["k1"; "k2"] "exa" AuthHeaderInject "x-api-key" "" |}.

Definition wit_pool_store : Store :=
  RotationStore.NewStore 0 {[ "exa" := 2 ]} (Rotation.PRoundRobin Rotation.NewRoundRobinPolicy)
    {| RotationStore.Window := Hour; RotationStore.BTokens := 0; RotationStore.BRequests := 3;
       RotationStore.SoftRatio := Float64.f0_8; RotationStore.EstimateTokens := 0 |} 0 0.

Definition wit_pool_server : Server :=
  {| cfg := GatewayConfig.wit_config; sroutes := [wit_pool_bound]; stores := {[ "exa" := wit_pool_store ]};
     connToken := "c"; proxyAuth := ProxyAuthLoopbackOnly; proxyToken := ""; allowed := [];
     trustForwardedForAudit := false; scope := ConnectTarget.scopeLoopbackOnly |}.

Definition wit_pool_req : Request :=
  {| Method := "POST"; Path := "/exa/search"; RawQuery := "q=1"; ContentLength := 2; RemoteAddr := "127.0.0.1:4000";
     RHeader := {[ "Accept" := ["*/*"] ]} |}.

Lemma handler_leaks_no_lease_witness :
  exists st' ls, stores (handleProxy wit_env wit_clock map_to_list [] wit_pool_req wit_pool_server).2 !! "exa" = Some st' /\
    RotationStoreSpec.hist wit_pool_store ls st' /\ balanced ls /\ store_inv st'.
Proof.
  apply handler_leaks_no_lease.
  - reflexivity.
  - intros r i k Hk. exact (proj1 (RotationStoreSpec.NewStore_fresh 0 _ _ _ 0 0 r i k Hk)).
Defined.

(** ** Charging *)

Lemma release_counts k :
  RotationStore.requests (RotationStore.releaseLocked k) = RotationStore.requests k /\
  RotationStore.tokens (RotationStore.releaseLocked k) = RotationStore.tokens k /\
  RotationStore.errors (RotationStore.releaseLocked k) = RotationStore.errors k.
Proof. unfold RotationStore.releaseLocked. repeat case_match; auto. Qed.

Lemma Result_shape tail :
  RotationStore.Outcome (Usage.Result tail) = RotationStore.OutcomeCompleted /\
  (RotationStore.STokens (Usage.Result tail) = RotationStore.TokensUnknown \/
   0 <= RotationStore.STokens (Usage.Result tail)).
Proof.
  unfold Usage.Result. destruct (Usage.scan_back (S (length tail)) tail) as [n|] eqn:E; simpl; [|auto].
  split; [done|right].
  apply Usage.scan_back_sound in E as (_ & _ & _ & (? & ? & ds & ? & ? & _ & _ & _ & _ & Hd & _ & <- & _)).
  by apply dec_value_nonneg.
Qed.

(** The store charges a completed sample the audited figure. *)
Lemma completed_charge r rot k sm :
  Rotation_ r = Some rot -> RotationStore.Outcome sm = RotationStore.OutcomeCompleted ->
  (RotationStore.STokens sm = RotationStore.TokensUnknown \/ 0 <= RotationStore.STokens sm) ->
  let k' := (RotationStore.settleLocked (RBudget rot) k (RotationStore.normalise sm)).1 in
  RotationStore.requests k' = RotationStore.requests k + 1 /\
  RotationStore.tokens k' = i64_add (RotationStore.tokens k) (chargedTokensFor r sm).
Proof.
  intros Hrot Ho Ht k'. destruct (release_counts k) as (Hr1 & Hr2 & _).
  assert (Hcharge : forall c e,
    let kk := (RotationStore.applyCapsLocked (RBudget rot) (RotationStore.charge_key (RotationStore.releaseLocked k) c e)).1 in
    RotationStore.requests kk = RotationStore.requests k + 1 /\ RotationStore.tokens kk = i64_add (RotationStore.tokens k) c).
  { intros c e kk. destruct (RotationStoreSpec.applyCaps_fields (RBudget rot)
      (RotationStore.charge_key (RotationStore.releaseLocked k) c e)) as (H1 & H2 & _).
    subst kk. rewrite H1, H2. simpl. by rewrite Hr1, Hr2. }
  unfold k', RotationStore.settleLocked, RotationStore.normalise, chargedTokensFor. rewrite Ho, Hrot.
  unfold RotationStore.TokensUnknown in *.
  destruct (Z.ltb_spec (RotationStore.STokens sm) 0) as [Hneg|Hnn]; cbn [RotationStore.Outcome RotationStore.STokens].
  - destruct Ht as [Ht|Ht]; [|lia]. rewrite Ht. apply Hcharge.
  - rewrite Ho, (proj2 (Z.eqb_neq _ _)) by lia. apply Hcharge.
Qed.

(** The audit figure is the accounting figure, and the status decides it: a
    response below 500 counts one request and adds exactly the audited tokens to
    the key; a 5xx charges nothing at all and counts an error; a 3xx or 4xx that
    reported no usage is charged zero tokens, never the estimate. *)
Theorem audit_reconciles (r : Route) (rot : RotationConfig) (k : RotationStore.keyState) (status : Z) (tail : bytes) :
  Rotation_ r = Some rot ->
  let sample := chargeableSample status (Usage.Result tail) in
  let k' := (RotationStore.settleLocked (RBudget rot) k (RotationStore.normalise sample)).1 in
  (status < 500 ->
     RotationStore.requests k' = RotationStore.requests k + 1 /\
     RotationStore.tokens k' = i64_add (RotationStore.tokens k) (chargedTokensFor r sample)) /\
  (500 <= status ->
     RotationStore.requests k' = RotationStore.requests k /\ RotationStore.tokens k' = RotationStore.tokens k /\
     RotationStore.errors k' = RotationStore.errors k + 1 /\ chargedTokensFor r sample = 0) /\
  (300 <= status < 500 -> RotationStore.STokens (Usage.Result tail) = RotationStore.TokensUnknown ->
     chargedTokensFor r sample = 0).
Proof.
  intros Hrot sample k'. destruct (Result_shape tail) as [Hro Hrt]. unfold k', sample, chargeableSample. split_and!.
  - intros Hlt. rewrite (proj2 (Z.leb_gt _ _)) by lia.
    destruct ((300 <=? status) && (RotationStore.STokens (Usage.Result tail) =? RotationStore.TokensUnknown));
      apply completed_charge; simpl; auto; right; lia.
  - intros Hge. rewrite (proj2 (Z.leb_le _ _)) by lia. destruct (release_counts k) as (H1 & H2 & H3).
    unfold RotationStore.settleLocked, RotationStore.normalise, failed_sample; simpl. auto with lia.
  - intros [H3 H5] Hu. rewrite (proj2 (Z.leb_gt _ _)) by lia. rewrite (proj2 (Z.leb_le 300 _)) by lia.
    rewrite Hu. done.
Qed.

Definition wit_rot : RotationConfig :=
  {| Policy := "least_used"; RBudget := RotationStore.budget wit_pool_store; MaxRetryAfter := Hour |}.

Lemma audit_reconciles_witness :
  RotationStore.errors (RotationStore.settleLocked (RBudget wit_rot) RotationStore.zero_key
    (RotationStore.normalise (chargeableSample 503 (Usage.Result [])))).1 = 0 + 1.
Proof.
  apply (audit_reconciles (GatewayConfig.set_rotation Secret.wit_pool_route (Some wit_rot)) wit_rot
           RotationStore.zero_key 503 [] eq_refl). lia.
Defined.

(** ** Refusals *)

(** The advertised wait is the ceiling of the duration in seconds and never less
    than one second; an admission refusal always advertises one second. *)
Theorem retry_seconds_ceiling (d : Duration) (now : Time) (s : Server) (a : Authenticator) :
  1 <= retry_seconds d /\ d <= retry_seconds d * Second /\
  (1 < retry_seconds d -> (retry_seconds d - 1) * Second < d) /\
  (let '(code, wait, s') := refusalAnswerFor now RotationStore.refusalAdmission s a in
   code = "admission_limited"%string /\ retry_seconds wait = 1 /\ s' = s).
Proof.
  unfold retry_seconds. change Second with 1000000000.
  pose proof (Z.quot_rem' d 1000000000) as Hq. pose proof (Z.rem_bound_abs d 1000000000 ltac:(lia)) as Hb.
  assert (Hpos : 0 <= d -> 0 <= Z.rem d 1000000000) by (intros; apply Z.rem_nonneg; lia).
  assert (Hneg : d < 0 -> Z.rem d 1000000000 <= 0) by (intros; apply Z.rem_nonpos; lia).
  split_and!; [| | |done]; destruct (Z.eqb_spec (Z.rem d 1000000000) 0); simpl; zbool; lia.
Qed.

(** ** Construction *)

Lemma longer_prefix_total : Total longer_prefix.
Proof. intros a b. unfold longer_prefix. lia. Qed.

Lemma longer_prefix_trans : Transitive longer_prefix.
Proof. intros a b c. unfold longer_prefix. lia. Qed.

Lemma find_sorted_longest rts path rt rt' :
  StronglySorted longer_prefix rts ->
  List.find (fun rt => HasPrefix path (Prefix (BRoute rt))) rts = Some rt ->
  rt' ∈ rts -> HasPrefix path (Prefix (BRoute rt')) = true -> longer_prefix rt rt'.
Proof.
  induction 1 as [|x rts Hs IH HF]; simpl; [done|]. intros Hf Hin Hp.
  destruct (HasPrefix path (Prefix (BRoute x))) eqn:E.
  - injection Hf as ->. apply elem_of_cons in Hin as [->|Hin]; [unfold longer_prefix; lia|].
    by eapply Forall_forall in HF.
  - apply elem_of_cons in Hin as [->|Hin]; [congruence|auto].
Qed.

Lemma bind_routes_spec now sp rs brs sts :
  NoDup (Name <$> rs) -> bind_routes now sp rs = inl (brs, sts) ->
  BRoute <$> brs = rs /\
  (forall b, b ∈ brs -> newAuthenticatorFor (BRoute b) sp = inl (BAuth b)) /\
  (forall r, r ∈ rs -> hasPluralKeys r = true ->
     sts !! Name r = Some (newRotationStore now r (Z.of_nat (Secret.declaredKeyCount r)))).
Proof.
  revert brs sts; induction rs as [|r rs IH]; intros brs sts Hnd; simpl.
  { intros [= <- <-]. split_and!; [done|by intros b Hb%not_elem_of_nil|by intros r Hr%not_elem_of_nil]. }
  apply NoDup_cons in Hnd as [Hni Hnd].
  destruct (newAuthenticatorFor r sp) as [a|] eqn:Ea; [|done].
  destruct (bind_routes now sp rs) as [[brs' sts']|] eqn:Eb; [|done]. intros [= <- <-].
  destruct (IH _ _ Hnd eq_refl) as (Hr & Ha & Hs). split_and!.
  - by rewrite fmap_cons, Hr.
  - intros b [->|Hb]%elem_of_cons; [done|auto].
  - intros r' [->|Hr']%elem_of_cons Hp; [rewrite Hp; by rewrite lookup_insert_eq|].
    assert (Name r <> Name r') by (intros He; apply Hni; rewrite He; by apply list_elem_of_fmap_2).
    destruct (hasPluralKeys r); [|auto]. rewrite lookup_insert_ne by done. auto.
Qed.

Lemma newAuth_rotating r sp keys route mode header prefix :
  newAuthenticatorFor r sp = inl (rotatingInjector keys route mode header prefix) ->
  route = Name r /\ hasPluralKeys r = true /\ length keys = Secret.declaredKeyCount r /\ keys <> [].
Proof.
  unfold newAuthenticatorFor. case_match; [|by case_match].
  destruct (hasPluralKeys r); [|by repeat case_match].
  destruct (Secret.resolveKeyPool r sp) as [ks|] eqn:E; [|done]. intros [= -> <- _ _ _].
  unfold Secret.resolveKeyPool in E. destruct (Secret.resolve_slots sp (Secret.slot_refs r)) as [kls|] eqn:Es; [|done].
  destruct (Nat.eqb_spec (length kls) 0) as [|Hne]; [done|].
  destruct (Secret.rejectDuplicateCredentials kls); [done|]. injection E as <-.
  apply Secret.resolve_slots_inv in Es. apply Forall2_length in Es. rewrite Secret.slot_refs_length in Es.
  rewrite length_fmap. split_and!; auto. by destruct kls.
Qed.

Lemma newRotationStore_keys now r n :
  0 < n -> exists rs, RotationStore.routes (newRotationStore now r n) !! Name r = Some rs /\
    RotationStore.rkeys rs = replicate (Z.to_nat n) RotationStore.zero_key.
Proof.
  intros Hn. unfold newRotationStore, RotationStore.NewStore. cbn [RotationStore.routes].
  rewrite lookup_omap, lookup_singleton_eq. simpl. rewrite (proj2 (Z.leb_gt _ _)) by lia. by eexists.
Qed.

(** A server that starts is sound: every pooled route has a rotation store with
    exactly one accounting slot per resolved key, so a lease never points
    outside the keys; neither token is blank, and the two are different secrets.
    The hypothesis is the uniqueness of names validation guarantees. *)
Theorem new_server_sound (now : Time) (c : Config) (sp : Secret.SecretProvider) (s : Server) :
  NoDup (Name <$> Routes c) -> NewServer now c sp = inl s ->
  (forall rt keys route mode header prefix,
     rt ∈ sroutes s -> BAuth rt = rotatingInjector keys route mode header prefix ->
     exists st rs, stores s !! route = Some st /\ RotationStore.routes st !! route = Some rs /\
       length (RotationStore.rkeys rs) = length keys /\ keys <> []) /\
  (CEnabled (Connect c) = true -> connToken s <> "") /\
  (hasToken (GatewayAuth c) = true -> proxyToken s <> "" /\ proxyToken s <> connToken s) /\
  proxyAuth s = Mode (GatewayAuth c).
Proof.
  intros Hnd. unfold NewServer.
  destruct (bind_routes now sp (EnabledRoutes c)) as [[brs sts]|] eqn:Eb; [|done].
  assert (Hnd' : NoDup (Name <$> EnabledRoutes c)).
  { eapply sublist_NoDup; [exact Hnd|]. apply fmap_sublist, sublist_filter. }
  destruct (bind_routes_spec _ _ _ _ _ Hnd' Eb) as (Hr & Ha & Hs).
  assert (Hpool : forall rt keys route mode header prefix,
    rt ∈ brs -> BAuth rt = rotatingInjector keys route mode header prefix ->
    exists st rs, sts !! route = Some st /\ RotationStore.routes st !! route = Some rs /\
      length (RotationStore.rkeys rs) = length keys /\ keys <> []).
  { intros rt keys route mode header prefix Hin Hau. pose proof (Ha _ Hin) as Hnew. rewrite Hau in Hnew.
    destruct (newAuth_rotating _ _ _ _ _ _ _ Hnew) as (-> & Hpl & Hlen & Hne).
    assert (Hin' : BRoute rt ∈ EnabledRoutes c) by (rewrite <- Hr; by apply list_elem_of_fmap_2).
    destruct (newRotationStore_keys now (BRoute rt) (Z.of_nat (Secret.declaredKeyCount (BRoute rt)))) as (rs & Hrs & Hk).
    { rewrite <- Hlen. destruct keys; [done|simpl; lia]. }
    eexists _, rs. split_and!; [by apply Hs|done| |done]. rewrite Hk, length_replicate, Hlen. lia. }
  set (conn := if CEnabled (Connect c) then _ else _).
  destruct conn as [[ctok hosts]|] eqn:Ec; [|done]. unfold conn in Ec.
  set (gate := if hasToken (GatewayAuth c) then _ else _).
  destruct gate as [ptok|] eqn:Eg; [|done]. unfold gate in Eg. intros [= <-]. simpl. split_and!.
  - intros rt keys route mode header prefix Hin. apply Hpool. by rewrite merge_sort_Permutation in Hin.
  - intros He. rewrite He in Ec. destruct (Secret.resolveFirst _ _) as [tok|]; [|done].
    destruct (String.eqb_spec (TrimSpace tok) ""); [done|]. by injection Ec as <- <-.
  - intros Ht. rewrite Ht in Eg. clear Ec conn.
    destruct (Secret.resolveFirst _ _) as [tok|]; [|done].
    destruct (String.eqb_spec (TrimSpace tok) ""); [done|].
    destruct (String.eqb_spec ctok ""), (String.eqb_spec (TrimSpace tok) ctok); simpl in Eg; try done;
      injection Eg as <-; split; congruence.
  - done.
Qed.

Definition wit_sp : Secret.SecretProvider :=
  Secret.envResolve (fun n => if n =s "EXA_1" then Some " k1"%string else if n =s "EXA_2" then Some "k2"%string
                              else if n =s "TOK" then Some "tok"%string else None).

Definition wit_new_server : Server :=
  match NewServer 7 GatewayConfig.wit_config' wit_sp with inl s => s | inr _ => wit_server end.

Lemma new_server_sound_witness :
  NewServer 7 GatewayConfig.wit_config' wit_sp = inl wit_new_server /\ connToken wit_new_server <> "".
Proof.
  assert (H : NewServer 7 GatewayConfig.wit_config' wit_sp = inl wit_new_server) by (vm_compute; reflexivity).
  split; [exact H|].
  refine (proj1 (proj2 (new_server_sound 7 GatewayConfig.wit_config' wit_sp wit_new_server _ H)) _).
  - vm_compute. apply NoDup_singleton.
  - vm_compute. reflexivity.
Defined.

(** Requests go to the most specific route: the matched route's prefix is a
    prefix of the path and no other enabled route that matches has a longer one;
    a path no enabled route matches is answered 404. *)
Theorem longest_prefix_wins (now : Time) (c : Config) (sp : Secret.SecretProvider) (s : Server) (path : string) :
  NewServer now c sp = inl s ->
  match match_route s path with
  | Some rt => rt ∈ sroutes s /\ HasPrefix path (Prefix (BRoute rt)) = true /\
      forall rt', rt' ∈ sroutes s -> HasPrefix path (Prefix (BRoute rt')) = true ->
        (String.length (Prefix (BRoute rt')) <= String.length (Prefix (BRoute rt)))%nat
  | None => forall rt, rt ∈ sroutes s -> HasPrefix path (Prefix (BRoute rt)) = false
  end.
Proof.
  intros H.
  assert (Hsort : StronglySorted longer_prefix (sroutes s)).
  { unfold NewServer in H. destruct (bind_routes _ _ _) as [[brs sts]|]; [|done].
    destruct (if CEnabled (Connect c) then _ else _) as [[ctok hosts]|]; [|done].
    destruct (if hasToken (GatewayAuth c) then _ else _); [|done]. injection H as <-. simpl.
    apply Sorted_StronglySorted; [apply longer_prefix_trans|]. apply Sorted_merge_sort, longer_prefix_total. }
  unfold match_route. destruct (List.find _ (sroutes s)) as [rt|] eqn:E.
  - pose proof (List.find_some _ _ E) as [Hin Hp]. split_and!; [by apply list_elem_of_In|done|].
    intros rt' Hin' Hp'. by eapply find_sorted_longest in E.
  - intros rt Hin. apply (List.find_none _ _ E). by apply list_elem_of_In.
Qed.

Lemma longest_prefix_wins_witness :
  match match_route wit_new_server "/exa/search" with
  | Some rt => HasPrefix "/exa/search" (Prefix (BRoute rt)) = true
  | None => False
  end.
Proof.
  pose proof (longest_prefix_wins 7 GatewayConfig.wit_config' wit_sp wit_new_server "/exa/search"
                ltac:(vm_compute; reflexivity)) as H.
  destruct (match_route wit_new_server "/exa/search") as [rt|] eqn:E.
  - exact (proj1 (proj2 H)).
  - vm_compute in E. discriminate.
Defined.

(** ** The serving socket *)

(** A socket that is not refused to a gateway that authenticates nobody is a
    loopback one. *)
Lemma bind_allowed_loopback (s : Server) (addr : option ConnectTarget.Addr) (bound : bytes) :
  bindRefusal s bound (ConnectTarget.boundListenScope addr) = None -> proxyAuth s = ProxyAuthLoopbackOnly ->
  exists ip, ConnectTarget.addrIP addr = Some ip /\ Net.IsLoopback ip = true /\ Net.IsUnspecified ip = false.
Proof.
  unfold bindRefusal. intros E Hm. rewrite Hm in E. case_decide as Hsc; [|by rewrite decide_True in E].
  unfold ConnectTarget.boundListenScope in Hsc. destruct (ConnectTarget.addrIP addr) as [ip|]; [|done]. exists ip.
  destruct (Net.IsUnspecified ip); [done|]. by destruct (Net.IsLoopback ip).
Qed.

(** A gateway that authenticates nobody never serves on a socket other hosts can
    reach, and no gateway whose socket they can reach serves while an
    allowlisted CONNECT target names its own machine. *)
Theorem tokenless_never_reachable (s s' : Server) (addr : option ConnectTarget.Addr) (bound : bytes) :
  Serve s addr bound = inl s' ->
  scope s' = ConnectTarget.boundListenScope addr /\
  (proxyAuth s = ProxyAuthLoopbackOnly ->
   exists ip, ConnectTarget.addrIP addr = Some ip /\ Net.IsLoopback ip = true /\ Net.IsUnspecified ip = false) /\
  (scope s' <> ConnectTarget.scopeLoopbackOnly -> CEnabled (Connect (cfg s)) = true ->
   forall h host port, h ∈ AllowedHosts (Connect (cfg s)) -> Net.SplitHostPort (to_bytes h) = Some (host, port) ->
     ConnectTarget.localTargetKind host = None).
Proof.
  unfold Serve. set (sc := ConnectTarget.boundListenScope addr).
  destruct (bindRefusal s bound sc) eqn:E; [done|]. intros [= <-]. simpl. split_and!; [done|by eapply bind_allowed_loopback|].
  unfold bindRefusal in E.
  - intros Hsc Hen h host port Hin Hsp. rewrite decide_False in E by done. case_decide; [done|].
    rewrite Hen in E. simpl in E. induction (AllowedHosts (Connect (cfg s))) as [|h' hosts IH].
    { by apply not_elem_of_nil in Hin. }
    simpl in E. apply elem_of_cons in Hin as [->|Hin].
    + rewrite Hsp in E. unfold ConnectTarget.connectSelfReference in E.
      destruct (ConnectTarget.splitHostPortLenient bound). by destruct (ConnectTarget.localTargetKind host).
    + apply IH; [|done]. repeat case_match; done.
Qed.

Lemma tokenless_never_reachable_witness :
  exists s', Serve wit_pool_server (Some (ConnectTarget.TCPAddr (Net.IPv4 127 0 0 1))) (to_bytes "127.0.0.1:14443") = inl s' /\
    scope s' = ConnectTarget.boundListenScope (Some (ConnectTarget.TCPAddr (Net.IPv4 127 0 0 1))).
Proof.
  eexists. split; [vm_compute; reflexivity|].
  refine (proj1 (tokenless_never_reachable wit_pool_server _ (Some (ConnectTarget.TCPAddr (Net.IPv4 127 0 0 1)))
    (to_bytes "127.0.0.1:14443") _)). vm_compute. reflexivity.
Defined.

End GatewaySpec.
