(* ===== verification/AuditLog.v ===== *)
(** * The audit log

    Models, of [src/internal/channel/server.go], [AuditEvent] as it is encoded,
    the NDJSON auditor, the dispatch of [Handler] and the bodies of the gateway's
    own refusals.  The theorems show that the log can be read back line by line
    and that summing its tokens reconciles with what was charged. *)

From Stdlib Require Import ZArith Lia Ascii String.
From stdpp Require Import base option list gmap strings.
From S2P Require Import Prelude GoStrings Utf8 Trim Strconv Json JsonSpec JsonMap JsonStruct JsonLines Net Headers Gateway GatewayServer.

Module AuditLog.
Import GoStrings Json JsonSpec JsonMap JsonStruct JsonLines Headers.

(** ** Events as JSON *)

(** The whole struct: what [GatewayServer] computes with the fields that only
    describe the request. *)
Record AuditEvent := {
  TS : string;
  RequestID : string;
  Target : string;
  LatencyMS : Z;
  Caller : string;
  core : GatewayServer.AuditEvent;
}.

Definition marshal (e : AuditEvent) : json :=
  let c := core e in
  JObj ([(to_bytes "ts", JText (TS e)); (to_bytes "event", JText (GatewayServer.Event c)); (to_bytes "request_id", JText (RequestID e))] ++
    opt_text "route" (GatewayServer.ERoute c) ++ opt_text "auth_mode" (GatewayServer.EAuthMode c) ++ opt_text "method" (GatewayServer.EMethod c) ++
    opt_text "path" (GatewayServer.EPath c) ++ opt_text "upstream" (GatewayServer.EUpstream c) ++
    opt_text "upstream_host" (GatewayServer.EUpstreamHost c) ++ opt_text "target" (Target e) ++ opt_int "status" (GatewayServer.EStatus c) ++
    [(to_bytes "latency_ms", JInt (LatencyMS e))] ++ opt_int "bytes_out" (GatewayServer.EBytesOut c) ++
    opt_text "client_addr" (GatewayServer.EClientAddr c) ++ opt_text "caller" (Caller e) ++ opt_text "error" (GatewayServer.EError c) ++
    match GatewayServer.EKeyIndex c with Some i => [(to_bytes "key_index", JInt i)] | None => [] end ++
    opt_int "tokens" (GatewayServer.ETokens c) ++
    (if GatewayServer.ETokensEstimated c then [(to_bytes "tokens_estimated", JBool true)] else [])).

(** ** The auditor *)

Definition stamp (now : string) (e : AuditEvent) : AuditEvent :=
  if TS e =s "" then {| TS := now; RequestID := RequestID e; Target := Target e; LatencyMS := LatencyMS e; Caller := Caller e; core := core e |} else e.

(** [ndjsonAuditor.Log] on what was written so far; [now] is the clock as
    RFC 3339. *)
Definition Log (w : bytes) (now_e : string * AuditEvent) : bytes := w ++ print (marshal (stamp now_e.1 now_e.2)) ++ [Trim.LF].

Definition log_all (calls : list (string * AuditEvent)) : bytes := foldl Log [] calls.

(** ** The handler's front and its own answers *)

Inductive dispatched := ToConnect | ToHealth | ToProxy.

Definition Handler (method path : string) : dispatched :=
  if method =s "CONNECT" then ToConnect
  else if (path =s "/healthz") || (path =s "/health") then ToHealth
  else ToProxy.

(** A response the gateway writes itself. *)
Record response := { status : Z; header : Header; body : json }.

Definition jsonHeader : Header := Set_ ∅ "Content-Type" "application/json".

(** [writeNotFound]. *)
Definition writeNotFound (routes : list string) : response :=
  {| status := 404; header := jsonHeader;
     body := JObj [(to_bytes "error", JText "not_found"); (to_bytes "hint", JText "prefix the path with an enabled route");
                   (to_bytes "routes", JArr (JText <$> routes))] |}.

(** [writeUnavailable]; the hint is that of [refusalAnswerFor]. *)
Definition writeUnavailable (route code hint : string) (retryAfter : Duration) : response :=
  let secs := GatewayServer.retry_seconds retryAfter in
  {| status := 503; header := Set_ (Set_ ∅ "Retry-After" (of_bytes (Strconv.Itoa secs))) "Content-Type" "application/json";
     body := JObj [(to_bytes "error", JText code); (to_bytes "hint", JText hint); (to_bytes "retry_after_seconds", JInt secs);
                   (to_bytes "route", JText route)] |}.

(** ** Lemmas *)

Lemma marshal_members e : exists ms, marshal e = JObj ms /\ Forall member_ok ms.
Proof.
  eexists. split; [reflexivity|].
  assert (T : forall name s, str_ok (to_bytes name) -> member_ok (to_bytes name, JText s)) by (intros; split_and!; [done|apply text_ok|done]).
  assert (I : forall name z, str_ok (to_bytes name) -> member_ok (to_bytes name, JInt z)) by (intros; split_and!; [done|apply int_num_ok|done]).
  rewrite !Forall_app. split_and!;
    repeat first [apply opt_text_ok|apply opt_int_ok|apply T|apply I|constructor|apply key_ok; vm_compute; reflexivity|case_match]; done.
Qed.

Lemma marshal_wf e : wf (marshal e).
Proof. destruct (marshal_members e) as (ms & -> & Hms). by apply flat_object_wf. Qed.

(** ** Reading the log *)

Definition line (c : string * AuditEvent) : bytes := print (marshal (stamp c.1 c.2)).

Lemma log_all_lines calls : forall w, foldl Log w calls = w ++ ndjson ((fun c => marshal (stamp c.1 c.2)) <$> calls).
Proof.
  induction calls as [|c calls IH]; intros w; [by rewrite app_nil_r|]. cbn [foldl fmap list_fmap]. rewrite IH, ndjson_cons. unfold Log.
  by rewrite <- !app_assoc.
Qed.

(** However the events come, the log has exactly one line for each, in order, and
    each line parses back to its event. *)
Theorem audit_log_reads_back calls :
  Net.split Trim.LF (log_all calls) = (line <$> calls) ++ [[]] /\
  mapM parse (line <$> calls) = Some ((fun c => marshal (stamp c.1 c.2)) <$> calls).
Proof.
  unfold log_all. rewrite log_all_lines, app_nil_l.
  destruct (ndjson_reads_back ((fun c => marshal (stamp c.1 c.2)) <$> calls)) as [H1 H2].
  - apply Forall_fmap, Forall_true. intros c. apply marshal_wf.
  - rewrite <- list_fmap_compose in H1, H2. split; [exact H1|exact H2].
Qed.

(** What a reader of the tokens field does. *)
Definition tokens_field : list (string * decoder Z) := [("tokens"%string, dec_int)].
Definition read_tokens (l : bytes) : option Z := unmarshal 0 (dec_struct tokens_field) l.

Definition other (ms : list (bytes * json)) : Prop := Forall (fun kv => selects "tokens" kv.1 = false) ms.

Lemma skip_members ms a : other ms -> foldl (dec_member tokens_field) (Some a) ms = Some a.
Proof.
  intros H. induction H as [|kv ms Hk _ IH]; [done|]. cbn [foldl]. unfold dec_member at 2. cbn [mbind option_bind list_find tokens_field fst].
  rewrite decide_False by (by rewrite Hk). cbn [fmap option_fmap option_map]. exact IH.
Qed.

Lemma other_text name s : selects "tokens" (to_bytes name) = false -> other (opt_text name s).
Proof. intros H. unfold opt_text. by destruct (s =s ""); repeat constructor. Qed.

Lemma other_int name z : selects "tokens" (to_bytes name) = false -> other (opt_int name z).
Proof. intros H. unfold opt_int. by destruct (z =? 0); repeat constructor. Qed.

Lemma tokens_read e : in_int64 (GatewayServer.ETokens (core e)) ->
  read_tokens (print (marshal e)) = Some (GatewayServer.ETokens (core e)).
Proof.
  intros Hr. unfold read_tokens, unmarshal. rewrite parse_print by apply marshal_wf. cbn [mbind option_bind]. unfold marshal. cbn [dec_struct].
  rewrite !foldl_app.
  repeat match goal with
  | |- context [foldl (dec_member tokens_field) (Some 0) (opt_text ?n ?s)] =>
      rewrite (skip_members (opt_text n s) 0) by (apply other_text; vm_compute; reflexivity)
  | |- context [foldl (dec_member tokens_field) (Some 0) (opt_int ?n ?z)] =>
      lazymatch n with "tokens"%string => fail | _ => rewrite (skip_members (opt_int n z) 0) by (apply other_int; vm_compute; reflexivity) end
  | |- context [foldl (dec_member tokens_field) (Some 0) ((?k, ?v) :: ?l)] =>
      rewrite (skip_members ((k, v) :: l) 0) by (repeat constructor; vm_compute; reflexivity)
  | |- context [foldl (dec_member tokens_field) (Some 0) (match GatewayServer.EKeyIndex ?c with _ => _ end)] =>
      rewrite (skip_members (match GatewayServer.EKeyIndex c with Some i => [(to_bytes "key_index", JInt i)] | None => [] end) 0)
        by (destruct (GatewayServer.EKeyIndex c); repeat constructor; vm_compute; reflexivity)
  end.
  assert (Ht : foldl (dec_member tokens_field) (Some 0) (opt_int "tokens" (GatewayServer.ETokens (core e))) = Some (GatewayServer.ETokens (core e))).
  { unfold opt_int. destruct (Z.eqb_spec (GatewayServer.ETokens (core e)) 0) as [->|Hz]; [done|]. cbn [foldl]. unfold dec_member.
    cbn [mbind option_bind list_find tokens_field fst snd]. rewrite decide_True by (vm_compute; reflexivity). cbn [fst snd].
    unfold dec_int, JInt. by rewrite int_num_text, Strconv.Atoi_Itoa. }
  rewrite Ht. apply skip_members. destruct (GatewayServer.ETokensEstimated (core e)); repeat constructor; vm_compute; reflexivity.
Qed.

(** Summing the tokens field over the lines of the log gives what the events
    carried. *)
Theorem audit_tokens_reconcile calls :
  Forall (fun c => in_int64 (GatewayServer.ETokens (core c.2))) calls ->
  exists ts, mapM read_tokens (line <$> calls) = Some ts /\
    foldr Z.add 0 ts = foldr Z.add 0 ((fun c => GatewayServer.ETokens (core c.2)) <$> calls).
Proof.
  intros H. exists ((fun c => GatewayServer.ETokens (core c.2)) <$> calls). split; [|done].
  apply mapM_Some_2. rewrite Forall2_fmap_l, Forall2_fmap_r. apply Forall_Forall2_diag. eapply Forall_impl; [exact H|].
  intros [now e] Hr. cbn in Hr. unfold line. cbn [fst snd].
  assert (Hs : GatewayServer.ETokens (core (stamp now e)) = GatewayServer.ETokens (core e)) by (unfold stamp; by destruct (TS e =s "")).
  rewrite <- Hs in Hr. pose proof (tokens_read (stamp now e) Hr) as Ht. rewrite Hs in Ht. exact Ht.
Qed.

(** The refusals the gateway writes are JSON a client reads back. *)
Theorem refusal_bodies_read_back routes route errCode hint retryAfter :
  parse (print (body (writeNotFound routes))) = Some (body (writeNotFound routes)) /\
  parse (print (body (writeUnavailable route errCode hint retryAfter))) = Some (body (writeUnavailable route errCode hint retryAfter)) /\
  Get (header (writeUnavailable route errCode hint retryAfter)) "Retry-After" = of_bytes (Strconv.Itoa (GatewayServer.retry_seconds retryAfter)) /\
  1 <= GatewayServer.retry_seconds retryAfter.
Proof.
  split_and!.
  - apply parse_print. split.
    + cbn [lexed writeNotFound body List.map foldr]. split_and!; try (apply key_ok; vm_compute; reflexivity); try apply text_ok; try done.
      induction routes as [|r routes IH]; [done|]. split; [apply text_ok|exact IH].
    + assert (Hd : foldr Z.max 0 (List.map depth (JText <$> routes)) = 0).
      { clear. induction routes as [|r routes IH]; [done|]. rewrite fmap_cons. cbn [List.map foldr]. rewrite IH. done. }
      unfold writeNotFound, body. cbn [depth List.map foldr snd]. rewrite Hd. done.
  - apply parse_print. split; [|done]. cbn [lexed writeUnavailable body List.map foldr].
    split_and!; try (apply key_ok; vm_compute; reflexivity); try apply text_ok; try apply int_num_ok; done.
  - reflexivity.
  - unfold GatewayServer.retry_seconds. destruct (negb _); zbool; lia.
Qed.

(** ** Witness *)

Definition ex_event (tokens : Z) : AuditEvent :=
  {| TS := ""; RequestID := "r1"; Target := ""; LatencyMS := 12; Caller := "host-a";
     core := {| GatewayServer.Event := "proxy_request"; GatewayServer.ERoute := "exa"; GatewayServer.EAuthMode := "inject";
                GatewayServer.EMethod := "POST"; GatewayServer.EPath := of_bytes (to_bytes "/exa/a" ++ [Trim.LF]); GatewayServer.EUpstream := ""; GatewayServer.EUpstreamHost := "";
                GatewayServer.EStatus := 200; GatewayServer.EBytesOut := 7; GatewayServer.EClientAddr := ""; GatewayServer.EError := "";
                GatewayServer.EKeyIndex := Some 0; GatewayServer.ETokens := tokens; GatewayServer.ETokensEstimated := false |} |}.

(** A line break in a path stays inside its line. *)
Lemma audit_tokens_reconcile_witness :
  exists ts, mapM read_tokens (line <$> [("t0"%string, ex_event 40); ("t1"%string, ex_event 0); ("t2"%string, ex_event 2)]) = Some ts /\ foldr Z.add 0 ts = 42.
Proof.
  destruct (audit_tokens_reconcile [("t0"%string, ex_event 40); ("t1"%string, ex_event 0); ("t2"%string, ex_event 2)]) as (ts & H & Hs).
  - repeat constructor; vm_compute; discriminate.
  - exists ts. split; [exact H|]. rewrite Hs. reflexivity.
Defined.

End AuditLog.
