(* ===== verification/GatewayWire.v ===== *)
(** * What the gateway says about a request

    [handleProxy] of [src/internal/channel/server.go] once more, with all that it
    says: the response on the wire ([denyUnauthenticated] of [proxy_auth.go],
    [denyUnavailable], [writeUnavailable], [writeNotFound], the 502), the audit
    event and the rows of [AdmissionRefusedTotal] and [ForwardFailedTotal] of
    [metrics.go].  The state it leaves is that of [GatewayServer.handleProxy]. *)

From Stdlib Require Import ZArith Lia Ascii String.
From stdpp Require Import base option list gmap strings.
From S2P Require Import Prelude GoStrings Strconv Json JsonLines Headers GatewayTypes RotationStore VendorError Gateway GatewayServer AuditLog.

Module GatewayWire.
Import GoStrings Json JsonLines Headers GatewayTypes Gateway GatewayServer.

#[local] Existing Instance RotationStore.admissionRefusal_eq_dec.

(** ** Responses *)

Inductive payload := JsonBody (v : json) | TextBody (b : bytes) | Upstream (n : Z).

Record wire := { status : Z; header : Header; body : payload }.

Definition json_wire (x : AuditLog.response) : wire :=
  {| status := AuditLog.status x; header := AuditLog.header x; body := JsonBody (AuditLog.body x) |}.

Definition gatewayAuthChallenge : string :=
  of_bytes (to_bytes "HelixChannel realm=" ++ [byte 34] ++ to_bytes "helixchannel-gateway" ++ [byte 34] ++ to_bytes ", header=" ++ [byte 34] ++
            to_bytes GatewayTokenHeader ++ [byte 34]).

Definition refusal_text (x : proxyAuthRefusal) : string :=
  match x with
  | proxyAuthOK => ""
  | refusalTokenRequired => "gateway_token_required"
  | refusalTokenInvalid => "gateway_token_invalid"
  end.

Definition token_hint : string :=
  "the reverse-proxy leg requires a gateway token in the " ++ GatewayTokenHeader ++
  " header; it is not the Authorization header and not the CONNECT channel token".

Definition exhausted_hint : string := "every upstream key on this route is retired or drained; retry after the advertised wait".
Definition admission_hint : string :=
  "every upstream key on this route is at its per-window cap once the requests already in flight are counted; none has been retired and none is drained, so retry immediately rather than after a window".

(** The hint of [refusalAnswerFor]. *)
Definition refusal_hint (x : RotationStore.admissionRefusal) : string :=
  if decide (x = RotationStore.refusalAdmission) then admission_hint else exhausted_hint.

(** [http.Error(w, "upstream unavailable", 502)]. *)
Definition badGateway : wire :=
  {| status := 502; header := Set_ (Set_ ∅ "Content-Type" "text/plain; charset=utf-8") "X-Content-Type-Options" "nosniff";
     body := TextBody (to_bytes "upstream unavailable" ++ [byte 10]) |}.

(** ** Metrics *)

Inductive row := AdmissionRefusedTotal (route code : string) | ForwardFailedTotal (route class : string).

(** [vendorSignalFrom]: no extractor, no signal. *)
Definition vendorSignalFrom (now : nat -> Time) (usage : option bytes) : VendorError.VendorSignal * bool :=
  match usage with
  | None => (VendorError.zero_signal, false)
  | Some tail => VendorError.parseVendorSignal now tail
  end.

(** [Store.emit]: one call of the observer for each retirement, none without one. *)
Definition emit (observer : bool) (route : string) (events : list string) : list (string * string) :=
  if observer then (fun r => (route, r)) <$> events else [].

(** ** The refusals *)

Definition denyUnauthenticated (s : Server) (r : Request) (refusal : proxyAuthRefusal) : wire * AuditEvent :=
  ({| status := 401; header := Set_ (Set_ ∅ "WWW-Authenticate" gatewayAuthChallenge) "Content-Type" "application/json";
      body := JsonBody (JObj [(to_bytes "error", JText (refusal_text refusal)); (to_bytes "header", JText GatewayTokenHeader);
                              (to_bytes "hint", JText token_hint)]) |},
   {| Event := "proxy_denied"; ERoute := ""; EAuthMode := ""; EMethod := Method r; EPath := Path r; EUpstream := ""; EUpstreamHost := "";
      EStatus := 401; EBytesOut := 0; EClientAddr := auditClientAddr (trustForwardedForAudit s) r; EError := refusal_text refusal;
      EKeyIndex := None; ETokens := 0; ETokensEstimated := false |}).

Definition denyUnavailable (now : Time) (rt : boundRoute) (r : Request) (refusal : RotationStore.admissionRefusal) (s : Server)
  : wire * row * AuditEvent * Server :=
  let '(code, wait, s) := refusalAnswerFor now refusal s (BAuth rt) in
  (json_wire (AuditLog.writeUnavailable (Name (BRoute rt)) code (refusal_hint refusal) wait),
   AdmissionRefusedTotal (Name (BRoute rt)) code, base_event s rt r 503 code, s).

(** ** The handler *)

Record said := { response : wire; counted : list row; audited : option AuditEvent }.

(** From the upstream call on; the state and the settlement are those of
    [GatewayServer.serve]. *)
Definition say (env : Env) (clk : Clock) (range : Header -> list (string * list string)) (writes : list (Z * bool)) (rt fwd : boundRoute)
    (lease : option RotationStore.KeyLease) (r : Request) (s : Server) : said :=
  let ev := audit (serve env clk range writes rt fwd lease r s).1.1 in
  match Forward env fwd (range (RHeader r)) r with
  | inr e =>
      let class := errorClass e in
      {| response := badGateway; counted := [ForwardFailedTotal (Name (BRoute rt)) class];
         audited := Some (with_key (base_event s rt r 502 class) lease) |}
  | inl resp =>
      {| response := {| status := StatusCode resp; header := relayed_header (range (RespHeader resp));
                        body := Upstream (copy_body (bool_decide (is_Some lease)) (Body resp) writes 0 []).1 |};
         counted := []; audited := ev |}
  end.

Definition handleProxy (env : Env) (clk : Clock) (range : Header -> list (string * list string)) (writes : list (Z * bool))
    (r : Request) (s : Server) : said :=
  let refusal := authorizeProxy (proxyAuth s) (proxyToken s) r in
  if decide (refusal <> proxyAuthOK) then
    let '(w, ev) := denyUnauthenticated s r refusal in {| response := w; counted := []; audited := Some ev |}
  else
    let r := drop_token r in
    match match_route s (Path r) with
    | None => {| response := json_wire (AuditLog.writeNotFound (RouteNames s)); counted := []; audited := None |}
    | Some rt =>
        if is_leaser (BAuth rt) then
          let '(leased, refusal, s) := leaseFor (at_lease clk) s (BAuth rt) in
          match leased with
          | None => let '(w, m, ev, _) := denyUnavailable (at_retry clk) rt r refusal s in {| response := w; counted := [m]; audited := Some ev |}
          | Some (auth, l) => say env clk range writes rt {| BRoute := BRoute rt; BAuth := auth |} (Some l) r s
          end
        else say env clk range writes rt rt None r s
    end.

(** ** Properties *)

(** The response the caller sees for an answer of [GatewayServer]. *)
Definition shows (a : Answer) (w : wire) : Prop :=
  match a with
  | Unauthorized x => status w = 401 /\ exists rest, body w = JsonBody (JObj ((to_bytes "error", JText (refusal_text x)) :: rest))
  | NotFound rs => w = json_wire (AuditLog.writeNotFound rs)
  | Unavailable code secs =>
      status w = 503 /\ Get (header w) "Retry-After" = of_bytes (Strconv.Itoa secs) /\
      exists hint route, body w = JsonBody (JObj [(to_bytes "error", JText code); (to_bytes "hint", JText hint);
                                                  (to_bytes "retry_after_seconds", JInt secs); (to_bytes "route", JText route)])
  | BadGateway => w = badGateway
  | Relayed st h n => w = {| status := st; header := h; body := Upstream n |}
  end.

(** The rows a refusal adds. *)
Definition rows_of (ev : option AuditEvent) (a : Answer) : list row :=
  match ev, a with
  | Some ev, Unavailable _ _ => [AdmissionRefusedTotal (ERoute ev) (EError ev)]
  | Some ev, BadGateway => [ForwardFailedTotal (ERoute ev) (EError ev)]
  | _, _ => []
  end.

Lemma say_agrees env clk range writes rt fwd lease r s :
  let o := (serve env clk range writes rt fwd lease r s).1.1 in let x := say env clk range writes rt fwd lease r s in
  audited x = audit o /\ shows (answer o) (response x) /\ counted x = rows_of (audit o) (answer o) /\
  exists ev, audited x = Some ev /\ EStatus ev = status (response x).
Proof.
  cbv zeta. unfold say, serve. destruct (Forward _ _ _ _) as [resp|e].
  - destruct (copy_body _ _ _ _ _) as [n tail]. destruct lease as [l|].
    + unfold settleLease. destruct (retire_for _ _ _ _ _ _) as [s1 evs]. destruct (settle _ _ _ _ _) as [l' s2]. simpl.
      split_and!; try done. eexists. by split.
    + simpl. split_and!; try done. eexists. by split.
  - simpl. split_and!; try done. eexists. by split.
Qed.

(** C17: What the gateway says about a request cannot drift apart: the response, the
    audit event and the counters name one and the same outcome.  The audit event
    is the one of [GatewayServer.handleProxy], the response shows its answer, the
    status in the event is the one on the wire, and a counter moves exactly for a
    refusal before dispatch and for an upstream call without a response, under
    the route and the error of the event; only the 404 leaves no event. *)
Theorem answers_cannot_drift env clk range writes r s :
  let o := (GatewayServer.handleProxy env clk range writes r s).1 in let x := handleProxy env clk range writes r s in
  audited x = audit o /\ shows (answer o) (response x) /\ counted x = rows_of (audit o) (answer o) /\
  match audited x with
  | Some ev => EStatus ev = status (response x)
  | None => status (response x) = 404
  end.
Proof.
  cbv zeta. unfold handleProxy, GatewayServer.handleProxy.
  destruct (decide (authorizeProxy (proxyAuth s) (proxyToken s) r <> proxyAuthOK)) as [Ha|Ha].
  { simpl. split_and!; try done. eauto. }
  destruct (match_route s (Path (drop_token r))) as [rt|]; [|done].
  destruct (is_leaser (BAuth rt)).
  - destruct (leaseFor _ _ _) as [[[[auth l]|] refusal] s1].
    + pose proof (say_agrees env clk range writes rt {| BRoute := BRoute rt; BAuth := auth |} (Some l) (drop_token r) s1) as H.
      destruct (serve _ _ _ _ _ _ _ _ _) as [[o l'] s2]. cbn [fst] in H. destruct H as (H1 & H2 & H3 & ev & Hev & Hst).
      set (x := say _ _ _ _ _ _ _ _ _) in *. clearbody x.
      assert (Ho : (match l' with
                    | Some l' => let '(_, s) := settle (at_settle clk) l' failed_sample s2 (BAuth rt) in (o, s)
                    | None => (o, s2)
                    end).1 = o) by (destruct l' as [l'|]; [by destruct (settle _ _ _ _ _)|done]).
      rewrite Ho. split_and!; try done. by rewrite Hev.
    + unfold denyUnavailable. destruct (refusalAnswerFor _ _ _ _) as [[code wait] s2]. simpl. split_and!; try done.
      eexists _, _. reflexivity.
  - pose proof (say_agrees env clk range writes rt rt None (drop_token r) s) as H.
    destruct (serve _ _ _ _ _ _ _ _ _) as [[o l'] s2]. cbn [fst] in *. destruct H as (H1 & H2 & H3 & ev & Hev & Hst).
    split_and!; try done. by rewrite Hev.
Qed.

End GatewayWire.
