(* ===== verification/Tunnel.v ===== *)
(** * The CONNECT leg: admission, the dial guard and tunnel deadlines

    Models, from [src/internal/channel/server.go], the tunnel semaphore, the
    decisions of [handleConnect] before and after the dial, the copy loop of one
    direction, and [tunnelDeadlines], the single writer of both connections'
    deadlines.  The two copy directions of a tunnel and the handlers of
    different tunnels run concurrently: their interleavings are the step
    relations below. *)

From Stdlib Require Import ZArith Lia Ascii String.
From stdpp Require Import base option list gmap strings.
From S2P Require Import Prelude GoStrings Net ConnectTarget GatewayTypes Gateway GatewayServer.

Module Tunnel.
Import GoStrings GatewayTypes Gateway GatewayServer.

#[local] Existing Instance ConnectTarget.listenScope_eq_dec.

(** ** The semaphore *)

Definition connectMaxConcurrent (c : Config) : Z :=
  if 0 <? MaxConcurrent (Connect c) then MaxConcurrent (Connect c) else DefaultConnectMaxConcurrent.

(** [used] is the number of slots taken of the channel's capacity. *)
Definition acquireTunnel (c : Config) (used : Z) : bool * Z :=
  if used <? connectMaxConcurrent c then (true, used + 1) else (false, used).

Definition releaseTunnel (used : Z) : Z := used - 1.

(** ** The decisions of handleConnect *)

Inductive connectReason : Type :=
  | connect_disabled | bad_token | host_not_allowlisted | tunnels_at_capacity | dial_failed
  | self_target (why : ConnectTarget.dialRefusal) | hijack_unsupported | hijack_failed.

Record ConnectRequest := {
  CHost : string;
  URLHost : string;
  ProxyAuthorization : string;
  CallerHeader : string;
  LocalAddr : option ConnectTarget.Addr;
}.

Definition connect_target (r : ConnectRequest) : string := if CHost r =s "" then URLHost r else CHost r.

(** Up to the dial: a denial, or a slot taken and the dial attempted. *)
Definition admission (s : Server) (r : ConnectRequest) (used : Z) : option (Z * connectReason) * Z :=
  if negb (CEnabled (Connect (cfg s))) then (Some (405, connect_disabled), used)
  else if negb (authorizeConnect (connToken s) (ProxyAuthorization r)) then (Some (407, bad_token), used)
  else if negb (bool_decide (ToLower (connect_target r) ∈ allowed s)) then (Some (403, host_not_allowlisted), used)
  else
    let '(ok, used) := acquireTunnel (cfg s) used in
    if ok then (None, used) else (Some (503, tunnels_at_capacity), used).

(** The dialled connection: its two addresses. *)
Record Dialled := { d_local : option ConnectTarget.Addr; d_remote : option ConnectTarget.Addr }.

Inductive hijackResult : Type := HijackOK | HijackUnsupported | HijackFailed.

(** After the dial: a denial, or the tunnel. *)
Definition establish (s : Server) (r : ConnectRequest) (dial : option Dialled) (h : hijackResult)
    : option (Z * connectReason) :=
  match dial with
  | None => Some (502, dial_failed)
  | Some d =>
      match ConnectTarget.connectDialRefusal (servingScope s (LocalAddr r)) (d_local d) (d_remote d) with
      | Some why => Some (403, self_target why)
      | None =>
          match h with
          | HijackUnsupported => Some (500, hijack_unsupported)
          | HijackFailed => Some (500, hijack_failed)
          | HijackOK => None
          end
      end
  end.

Definition defaultConnectHalfCloseLinger : Duration := 30 * Second.

Definition effective_linger (configured : Duration) : Duration :=
  if configured <=? 0 then defaultConnectHalfCloseLinger else configured.

Definition effective_idle (c : Config) : Duration :=
  if IdleTimeout (Connect c) <=? 0 then DefaultConnectIdleTimeout else IdleTimeout (Connect c).

(** ** Concurrent handlers *)

(** The phases of the handlers in progress. *)
Inductive phase : Type := Dialling (r : ConnectRequest) | Open (r : ConnectRequest).

Record Leg := {
  used_slots : Z;
  dials : Z;
  handlers : gmap nat phase;
}.

(** One handler's step: arrival and refusal, arrival and dial, the tunnel
    opening, or an exit whose deferred release gives the slot back. *)
Inductive leg_step (s : Server) : Leg -> Leg -> Prop :=
  | L_refuse g r why used :
      admission s r (used_slots g) = (Some why, used) ->
      leg_step s g {| used_slots := used; dials := dials g; handlers := handlers g |}
  | L_admit g id r used :
      admission s r (used_slots g) = (None, used) -> handlers g !! id = None ->
      leg_step s g {| used_slots := used; dials := dials g + 1; handlers := <[id := Dialling r]> (handlers g) |}
  | L_deny g id r dial h why :
      handlers g !! id = Some (Dialling r) -> establish s r dial h = Some why ->
      leg_step s g {| used_slots := releaseTunnel (used_slots g); dials := dials g; handlers := delete id (handlers g) |}
  | L_open g id r dial h :
      handlers g !! id = Some (Dialling r) -> establish s r dial h = None ->
      leg_step s g {| used_slots := used_slots g; dials := dials g; handlers := <[id := Open r]> (handlers g) |}
  | L_close g id r :
      handlers g !! id = Some (Open r) ->
      leg_step s g {| used_slots := releaseTunnel (used_slots g); dials := dials g; handlers := delete id (handlers g) |}.

Definition leg0 : Leg := {| used_slots := 0; dials := 0; handlers := ∅ |}.

Inductive leg_reachable (s : Server) : Leg -> Prop :=
  | LR_init : leg_reachable s leg0
  | LR_step g g' : leg_reachable s g -> leg_step s g g' -> leg_reachable s g'.

(** ** tunnelDeadlines *)

Inductive side : Type := Client | Upstream_.

#[export] Instance side_eq_dec : EqDecision side.
Proof. solve_decision. Defined.

(** The recorded idle deadlines, and the deadlines in force on each connection:
    [read] is set by a refresh and by arming, [write] by arming alone.  [None]
    is the zero time, no deadline. *)
Record Deadlines := {
  armed : bool;
  lingerAt : Time;
  idleAt : side -> Time;
  read_dl : side -> option Time;
  write_dl : side -> option Time;
}.

Definition upd {A} (f : side -> A) (c : side) (v : A) : side -> A := fun d => if decide (d = c) then v else f d.

Definition newDeadlines : Deadlines :=
  {| armed := false; lingerAt := time_zero; idleAt := fun _ => time_zero;
     read_dl := fun _ => None; write_dl := fun _ => None |}.

Definition refreshIdle (idle : Duration) (now : Time) (src : side) (d : Deadlines) : Deadlines :=
  let at_ := time_add now idle in
  let at_ := if armed d && (lingerAt d <? at_) then lingerAt d else at_ in
  {| armed := armed d; lingerAt := lingerAt d; idleAt := upd (idleAt d) src at_;
     read_dl := upd (read_dl d) src (Some at_); write_dl := write_dl d |}.

Definition tightenLocked (linger_at : Time) (idle_at : Time) : Time :=
  if negb (time_is_zero idle_at) && (idle_at <? linger_at) then idle_at else linger_at.

Definition arm (linger : Duration) (now : Time) (d : Deadlines) : Deadlines :=
  if armed d then d
  else
    let l := time_add now linger in
    let at_ c := Some (tightenLocked l (idleAt d c)) in
    {| armed := true; lingerAt := l; idleAt := idleAt d; read_dl := at_; write_dl := at_ |}.

(** *** One direction

    The reads of the source as the loop sees them: bytes and whether the read
    failed, and the outcome of each write.  The total is what was written. *)
Fixpoint copyTunnelHalf (reads : list (Z * bool)) (writes : list (Z * bool)) (total : Z) : Z :=
  match reads with
  | [] => total
  | (n, rerr) :: reads' =>
      if 0 <? n then
        let '(w, werr) := default (n, false) (head writes) in
        let total := total + w in
        if werr then total
        else if rerr then total
        else copyTunnelHalf reads' (drop 1 writes) total
      else if rerr then total
      else copyTunnelHalf reads' writes total
  end.

(** Interleavings of the two directions: each refreshes before a read and arms
    when it ends.  The clock does not go back. *)
Inductive dl_step (idle linger : Duration) : Time -> Deadlines -> Time -> Deadlines -> Prop :=
  | D_refresh t now src d : t <= now -> dl_step idle linger t d now (refreshIdle idle now src d)
  | D_arm t now d : t <= now -> dl_step idle linger t d now (arm linger now d).

Inductive dl_reachable (idle linger : Duration) (t0 : Time) : Time -> Deadlines -> Prop :=
  | DR_init : dl_reachable idle linger t0 t0 newDeadlines
  | DR_step t d t' d' : dl_reachable idle linger t0 t d -> dl_step idle linger t d t' d' ->
      dl_reachable idle linger t0 t' d'.

(** ** Invariants *)

Record leg_inv (s : Server) (g : Leg) : Prop := {
  li_used : used_slots g = Z.of_nat (size (handlers g));
  li_cap : 0 <= used_slots g <= connectMaxConcurrent (cfg s);
  li_dials : used_slots g <= dials g;
}.

Lemma connectMaxConcurrent_pos c : 0 < connectMaxConcurrent c.
Proof. unfold connectMaxConcurrent. zbool; [lia|done]. Qed.

Lemma admit_spec s r used why used' :
  admission s r used = (why, used') ->
  match why with
  | Some _ => used' = used
  | None => used' = used + 1 /\ used < connectMaxConcurrent (cfg s) /\ CEnabled (Connect (cfg s)) = true /\
            authorizeConnect (connToken s) (ProxyAuthorization r) = true /\
            ToLower (connect_target r) ∈ allowed s
  end.
Proof.
  unfold admission, acquireTunnel. destruct (CEnabled _); simpl; [|by intros [= <- <-]].
  destruct (authorizeConnect _ _); simpl; [|by intros [= <- <-]].
  case_bool_decide; simpl; [|by intros [= <- <-]].
  zbool; intros [= <- <-]; auto.
Qed.

Lemma leg_step_inv s g g' : leg_step s g g' -> leg_inv s g -> leg_inv s g'.
Proof.
  intros Hs [Hu Hc Hd]. destruct Hs as [g r why used Ha|g id r used Ha Hid|g id r dial h why Hid _|g id r dial h Hid _|g id r Hid].
  - apply admit_spec in Ha as ->. by constructor.
  - apply admit_spec in Ha as (-> & Hlt & _). constructor; simpl; [|lia|lia].
    rewrite map_size_insert_None by done. lia.
  - assert (0 < Z.of_nat (size (handlers g))).
    { destruct (size (handlers g)) eqn:E; [|lia]. apply map_size_empty_inv in E. by rewrite E in Hid. }
    constructor; simpl; unfold releaseTunnel; [|lia|lia]. rewrite map_size_delete_Some by done. lia.
  - constructor; simpl; [|done|done]. by rewrite map_size_insert_Some.
  - assert (0 < Z.of_nat (size (handlers g))).
    { destruct (size (handlers g)) eqn:E; [|lia]. apply map_size_empty_inv in E. by rewrite E in Hid. }
    constructor; simpl; unfold releaseTunnel; [|lia|lia]. rewrite map_size_delete_Some by done. lia.
Qed.

Lemma leg_reachable_inv s g : leg_reachable s g -> leg_inv s g.
Proof.
  induction 1 as [|g g' _ IH Hs]; [|by eapply leg_step_inv].
  pose proof (connectMaxConcurrent_pos (cfg s)). constructor; simpl; [by rewrite map_size_empty|lia|lia].
Qed.

(** The deadlines at time [t]: no read deadline is later than an idle period
    from now, and once armed none is later than the linger bound. *)
Record dl_inv (idle linger : Duration) (t : Time) (d : Deadlines) : Prop := {
  di_idle : forall c x, read_dl d c = Some x -> armed d = false -> x <= t + idle /\ idleAt d c = x;
  di_none : forall c, armed d = false -> read_dl d c = None -> idleAt d c = time_zero;
  di_write : armed d = false -> forall c, write_dl d c = None;
  di_armed : armed d = true -> lingerAt d <= t + linger /\
    (forall c, exists x, read_dl d c = Some x /\ x <= lingerAt d) /\
    (forall c, exists x, write_dl d c = Some x /\ x <= lingerAt d);
}.

Lemma tightenLocked_le l i : tightenLocked l i <= l.
Proof. unfold tightenLocked. destruct (negb _); simpl; zbool; lia. Qed.

Lemma refresh_inv idle linger t now src d :
  t <= now -> dl_inv idle linger t d -> dl_inv idle linger now (refreshIdle idle now src d).
Proof.
  intros Ht [Hi Hn Hw Ha]. unfold refreshIdle, time_add, upd. constructor; simpl.
  - intros c x Hx Hf. rewrite Hf in *. simpl in *. case_decide; [injection Hx as <-; split; [lia|done]|].
    destruct (Hi c x Hx eq_refl). split; [lia|done].
  - intros c Hf. case_decide; [done|auto].
  - done.
  - intros Hf. rewrite Hf in *. destruct (Ha eq_refl) as (Hl & Hr & Hw'). split_and!; [lia| |done].
    intros c. case_decide; [|auto]. eexists; split; [done|]. simpl. zbool; lia.
Qed.

Lemma arm_inv idle linger t now d :
  t <= now -> dl_inv idle linger t d -> dl_inv idle linger now (arm linger now d).
Proof.
  intros Ht [Hi Hn Hw Ha]. unfold arm. destruct (armed d) eqn:Ed.
  - destruct (Ha eq_refl) as (Hl & ? & ?). constructor; try (intros; congruence).
    intros _. split_and!; auto. lia.
  - constructor; simpl; try done. intros _. unfold time_add. split_and!; [lia| |]; intros c;
      eexists; (split; [done|apply tightenLocked_le]).
Qed.

Lemma dl_reachable_inv idle linger t0 t d : dl_reachable idle linger t0 t d -> dl_inv idle linger t d /\ t0 <= t.
Proof.
  induction 1 as [|t d t' d' _ [IH Ht] Hs].
  - split; [|lia]. constructor; simpl; try done.
  - destruct Hs; (split; [|lia]); eauto using refresh_inv, arm_inv.
Qed.

(** ** Theorems *)

(** C25: The tunnel bound is exact under every interleaving of handlers: the slots in
    use are the handlers past admission, they never exceed connect.max_concurrent,
    so no more than that many dials or tunnels are alive at once, and when every
    handler has returned no slot is left taken. *)
Theorem tunnel_slots_exact (s : Server) (g : Leg) :
  leg_reachable s g ->
  used_slots g = Z.of_nat (size (handlers g)) /\
  0 <= used_slots g <= connectMaxConcurrent (cfg s) /\
  (handlers g = ∅ -> used_slots g = 0).
Proof.
  intros H. destruct (leg_reachable_inv s g H) as [Hu Hc _]. split_and!; auto; try lia.
  intros He. by rewrite Hu, He, map_size_empty.
Qed.

Definition wit_connect : ConnectRequest :=
  {| CHost := "api.anthropic.com:443"; URLHost := ""; ProxyAuthorization := "Bearer tok"; CallerHeader := "";
     LocalAddr := None |}.

Definition wit_leg_server : Server :=
  {| cfg := GatewayConfig.GatewayConfig.wit_config; sroutes := []; stores := ∅; connToken := "tok";
     proxyAuth := ProxyAuthToken; proxyToken := "t"; allowed := ["api.anthropic.com:443"];
     trustForwardedForAudit := false; scope := ConnectTarget.scopeReachable |}.

Definition wit_leg : Leg := {| used_slots := 1; dials := 1; handlers := {[ 0%nat := Dialling wit_connect ]} |}.

Lemma tunnel_slots_exact_witness :
  leg_reachable wit_leg_server wit_leg /\ 0 <= used_slots wit_leg <= connectMaxConcurrent (cfg wit_leg_server).
Proof.
  assert (H : leg_reachable wit_leg_server wit_leg).
  { eapply LR_step; [apply LR_init|]. apply (L_admit wit_leg_server leg0 0 wit_connect 1); vm_compute; reflexivity. }
  split; [exact H|]. exact (proj1 (proj2 (tunnel_slots_exact wit_leg_server wit_leg H))).
Defined.

(** Nothing is dialled for a caller that was not admitted: an outbound dial is
    made only with the leg enabled, a correct token, an allowlisted target and a
    free slot; a full gateway answers 503 without dialling. *)
Theorem dial_only_admitted (s : Server) (g g' : Leg) :
  leg_step s g g' -> dials g' <> dials g ->
  exists r, CEnabled (Connect (cfg s)) = true /\ authorizeConnect (connToken s) (ProxyAuthorization r) = true /\
    ToLower (connect_target r) ∈ allowed s /\ used_slots g < connectMaxConcurrent (cfg s) /\
    dials g' = dials g + 1 /\ used_slots g' = used_slots g + 1.
Proof.
  intros Hs Hd. destruct Hs as [g r why used Ha|g id r used Ha Hid| | |]; simpl in *; try done.
  apply admit_spec in Ha as (-> & ? & ? & ? & ?). exists r. auto 10.
Qed.

Lemma dial_only_admitted_witness :
  exists r, authorizeConnect (connToken wit_leg_server) (ProxyAuthorization r) = true.
Proof.
  destruct (dial_only_admitted wit_leg_server leg0 wit_leg) as (r & _ & H & _).
  - apply (L_admit wit_leg_server leg0 0 wit_connect 1); vm_compute; reflexivity.
  - discriminate.
  - exact (ex_intro _ r H).
Defined.

(** The two bounds of a tunnel only ever tighten each other: before either
    direction has ended no read deadline is more than one idle period away; from
    the moment one ends, every deadline of both connections, whatever refreshes
    follow, stays at or before the linger bound fixed then; and arming never
    moves an earlier deadline out. *)
Theorem deadlines_only_tighten (idle linger : Duration) (t0 t : Time) (d : Deadlines) :
  0 <= linger -> dl_reachable idle linger t0 t d ->
  (forall c x, read_dl d c = Some x -> armed d = false -> x <= t + idle) /\
  (armed d = true -> lingerAt d <= t + linger /\
     forall c, (exists x, read_dl d c = Some x /\ x <= lingerAt d) /\ (exists x, write_dl d c = Some x /\ x <= lingerAt d)) /\
  (forall now c x, t <= now -> read_dl d c = Some x -> 0 < x ->
     exists y, read_dl (arm linger now d) c = Some y /\ y <= x).
Proof.
  intros Hl H. destruct (dl_reachable_inv _ _ _ _ _ H) as [[Hi Hn Hw Ha] Ht]. split_and!.
  - intros c x Hx Hf. by apply (Hi c x).
  - intros Hf. destruct (Ha Hf) as (? & ? & ?). auto.
  - intros now c x Hnow Hx Hpos. unfold arm. destruct (armed d) eqn:Ed; [exists x; split; [done|lia]|].
    eexists; split; [done|]. destruct (Hi c x Hx eq_refl) as [_ ->].
    unfold tightenLocked, time_is_zero. zbool; simpl; lia.
Qed.

Lemma deadlines_only_tighten_witness :
  armed (arm (30 * Second) 20 (refreshIdle (5 * Minute) 10 Client newDeadlines)) = true /\
  lingerAt (arm (30 * Second) 20 (refreshIdle (5 * Minute) 10 Client newDeadlines)) <= 20 + 30 * Second.
Proof.
  split; [reflexivity|].
  refine (proj1 (proj1 (proj2 (deadlines_only_tighten (5 * Minute) (30 * Second) 0 20 _ _ _)) _)).
  - unfold Second. lia.
  - eapply DR_step; [eapply DR_step; [apply DR_init|apply (D_refresh _ _ 0 10 Client)]|apply (D_arm _ _ 10 20)]; lia.
  - reflexivity.
Defined.

(** A tunnel whose far end turned out to be this machine is never opened on a
    reachable socket: no client bytes reach it, whatever the name was. *)
Theorem no_tunnel_to_self (s : Server) (r : ConnectRequest) (d : Dialled) (h : hijackResult) :
  establish s r (Some d) h = None -> servingScope s (LocalAddr r) <> ConnectTarget.scopeLoopbackOnly ->
  forall rip, ConnectTarget.addrIP (d_remote d) = Some rip ->
    Net.IsLoopback rip = false /\ Net.IsUnspecified rip = false /\
    forall lip, ConnectTarget.addrIP (d_local d) = Some lip -> Net.Equal lip rip = false.
Proof.
  unfold establish, ConnectTarget.connectDialRefusal. intros H Hs rip Hr. rewrite decide_False, Hr in H by done.
  destruct (Net.IsLoopback rip); [done|]. destruct (Net.IsUnspecified rip); [done|]. simpl in H.
  split_and!; [done|done|]. intros lip Hl. rewrite Hl in H. by destruct (Net.Equal lip rip).
Qed.

Lemma no_tunnel_to_self_witness :
  Net.IsLoopback (Net.IPv4 203 0 113 7) = false.
Proof.
  refine (proj1 (no_tunnel_to_self wit_leg_server wit_connect
    {| d_local := Some (ConnectTarget.TCPAddr (Net.IPv4 10 0 0 5));
       d_remote := Some (ConnectTarget.TCPAddr (Net.IPv4 203 0 113 7)) |} HijackOK _ _ (Net.IPv4 203 0 113 7) _));
    vm_compute; try reflexivity; discriminate.
Defined.

End Tunnel.
