(* ===== verification/Client.v ===== *)
(** * The gateway's client side

    Models [src/internal/channel/client.go], the loopback forward proxy an agent
    points HTTPS_PROXY at: its handler, the CONNECT it sends the gateway, the
    connection that replays what was buffered, and the environment it announces;
    [src/internal/channel/aes_bridge.go], the guard of the bridge's listener;
    and [src/internal/channel/shutdown.go].

    The TLS dial is an argument.  [http.ReadResponse] over a [bufio.Reader] is a
    parameter of the section: from a stream it returns the status, what is left in
    the buffer and the rest of the stream, or does not return.  Each end of a
    tunnel is a peer: the script of what it sends, whether it then keeps its side
    open without a word, and how many bytes it takes before writes to it fail. *)

From Stdlib Require Import ZArith Lia Ascii String.
From stdpp Require Import base option list gmap strings.
From S2P Require Import Prelude GoStrings Utf8 Stream Net Socks5 Headers GatewayTypes Gateway GatewayServer Tunnel.

Module Client.
Import GoStrings Stream Net Headers GatewayTypes Gateway GatewayServer.

(** ** The replaying connection *)

Record prefixedConn := { pending : bytes; under : conn }.

Definition prefixed_read (k : nat) (p : prefixedConn) : bytes * option connError * prefixedConn :=
  match pending p with
  | _ :: _ => (take k (pending p), None, {| pending := drop k (pending p); under := under p |})
  | [] => let '(bs, err, c) := Read k (under p) in (bs, err, {| pending := []; under := c |})
  end.

(** The other end of a connection. *)
Record peer := {
  script : conn;              (* what reading from it returns, in order *)
  holds : bool;               (* after that it stays open and silent, or it closes *)
  takes : option nat;         (* the bytes it takes before a write fails; [None]: all *)
}.

(** A write: what was written, the room left, and whether all of it was. *)
Definition write (room : option nat) (bs : bytes) : bytes * option nat * bool :=
  match room with
  | None => (bs, None, true)
  | Some n => if (length bs <=? n)%nat then (bs, Some (n - length bs)%nat, true) else (take n bs, Some 0%nat, false)
  end.

(** [io.Copy] with its 32 KiB buffer: what it writes, and whether it returns.  It
    blocks in [Read] for ever on a silent source; the bytes that come with an
    error are written before the error is looked at; a failed write ends it. *)
Definition copyBuf : nat := Z.to_nat (32 * 1024).

Fixpoint copy_loop (fuel : nat) (hold : bool) (room : option nat) (p : prefixedConn) : bytes * bool :=
  match fuel with
  | O => ([], false)
  | S fuel =>
      if hold && Nat.eqb (length (pending p) + length (under p)) 0 then ([], false)
      else
        let '(bs, err, p) := prefixed_read copyBuf p in
        let '(w, room, ok) := write room bs in
        if negb ok then (w, true)
        else
          match err with
          | Some _ => (w, true)
          | None => let '(rest, fin) := copy_loop fuel hold room p in (w ++ rest, fin)
          end
  end.

Definition Copy (hold : bool) (room : option nat) (p : prefixedConn) : bytes * bool :=
  copy_loop (S (length (pending p) + length (under p) + length (data (under p)))) hold room p.

(** ** The client proxy *)

Record ClientProxy := {
  Listen : string;
  CallerID : string;
  GatewayAddr : string;
  Token : string;
  DialTimeout : Duration;
}.

(** [ListenAndServe] before it binds: the refusals, and the default timeout. *)
Definition clientPreflight (c : ClientProxy) : option string * ClientProxy :=
  if GatewayAddr c =s "" then (Some "gateway is required"%string, c)
  else if Token c =s "" then (Some "token is required"%string, c)
  else (None, {| Listen := Listen c; CallerID := CallerID c; GatewayAddr := GatewayAddr c; Token := Token c;
                 DialTimeout := if DialTimeout c =? 0 then 15 * Second else DialTimeout c |}).

(** The CONNECT request as it is sent. *)
Record wireRequest := { WMethod : string; WOpaque : string; WHost : string; WHeader : Header }.

Definition stampCaller (c : ClientProxy) (h : Header) : Header :=
  let id := SanitiseCaller (CallerID c) in
  if id =s "" then h else Set_ h "X-HLXN-Caller" id.

Definition connect_request (c : ClientProxy) (target : string) : wireRequest :=
  {| WMethod := "CONNECT"; WOpaque := target; WHost := target;
     WHeader := stampCaller c {[ "Proxy-Authorization"%string := [String.append "Bearer " (Token c)] ]} |}.

(** The SNI name, and the dial timeout in force. *)
Definition serverName (gateway : string) : string :=
  match SplitHostPort (to_bytes gateway) with Some (host, _) => of_bytes host | None => gateway end.

Definition effective_timeout (c : ClientProxy) : Duration := if DialTimeout c =? 0 then 15 * Second else DialTimeout c.

Inductive gatewayError :=
  | DialGateway (e : forwardError)
  | WriteConnect (e : forwardError)
  | ReadConnectResponse (e : forwardError)
  | GatewayRefused (status : Z).

(** [fmt.Errorf] with a prefix. *)
Definition prefixed_error (prefix : string) (e : forwardError) : forwardError :=
  match e with TransportError t => TransportError (String.append prefix t) | e => e end.

Definition classOf (e : gatewayError) : string :=
  match e with
  | DialGateway e => errorClass (prefixed_error "dial gateway: " e)
  | WriteConnect e => errorClass (prefixed_error "write CONNECT: " e)
  | ReadConnectResponse e => errorClass (prefixed_error "read CONNECT response: " e)
  | GatewayRefused _ => errorClass (TransportError "gateway refused CONNECT: ")
  end.

(** What the network and the server do with one request.  [early] is what the
    agent sent along with its CONNECT and the server's reader has taken in. *)
Record Env := {
  tls : forwardError + peer;
  connectWrite : option forwardError;
  hijack : Tunnel.hijackResult;
  early : bytes;
  agent : peer;
}.

(** [dialGateway]: it fails, with the connection closed if there was one; it waits
    for an answer, on which there is no deadline; or it returns the tunnel. *)
Inductive dialled :=
| DialFails (e : gatewayError) (req : option wireRequest)
| DialWaits (req : wireRequest)
| DialOK (tunnel : prefixedConn) (gateway : peer) (req : wireRequest).

Section dialling.
Context (ReadResponse : bool -> conn -> option (forwardError + (Z * bytes * conn))).

Definition dialGateway (c : ClientProxy) (env : Env) (target : string) : dialled :=
  match tls env with
  | inl e => DialFails (DialGateway e) None
  | inr g =>
      match connectWrite env with
      | Some e => DialFails (WriteConnect e) None
      | None =>
          let req := connect_request c target in
          match ReadResponse (holds g) (script g) with
          | None => DialWaits req
          | Some (inl e) => DialFails (ReadConnectResponse e) (Some req)
          | Some (inr (status, buffered, rest)) =>
              if negb (status =? 200) then DialFails (GatewayRefused status) (Some req)
              else DialOK {| pending := buffered; under := rest |} g req
          end
      end
  end.

(** A request of the agent. *)
Record agentRequest := { AMethod : string; AHost : string; AURLHost : string; AHeader : Header }.

Record clientEvent := { CEvent : string; CTarget : string; CStatus : Z; CError : string }.

(** A connection of the handler: never opened, open, or closed. *)
Inductive leg := NoLeg | OpenLeg | ClosedLeg.

(** What one request did: the HTTP error answered, the raw bytes written to the
    agent after the hijack, the request sent to the gateway and the bytes copied
    to it, the audit event, whether the handler has returned, and the state of
    its two connections. *)
Record outcome := {
  httpError : option Z;
  to_agent : bytes;
  sent : option wireRequest;
  to_gateway : bytes;
  event : option clientEvent;
  returned : bool;
  gateway_leg : leg;
  agent_leg : leg;
}.

Definition established : bytes := to_bytes "HTTP/1.1 200 Connection Established" ++ [byte 13; byte 10; byte 13; byte 10].

(** A deferred [Close] runs when the handler returns. *)
Definition deferred (ret : bool) : leg := if ret then ClosedLeg else OpenLeg.

(** The end of the handler, from the tunnel on.  The buffered reader that
    [Hijack] returns, with the [early] bytes in it, is not used. *)
Definition tunnelled (env : Env) (target : string) (tunnel : prefixedConn) (g : peer) (req : wireRequest) : outcome :=
  match hijack env with
  | Tunnel.HijackUnsupported =>
      {| httpError := Some 500; to_agent := []; sent := Some req; to_gateway := []; event := None;
         returned := true; gateway_leg := deferred true; agent_leg := NoLeg |}
  | Tunnel.HijackFailed =>
      {| httpError := None; to_agent := []; sent := Some req; to_gateway := []; event := None;
         returned := true; gateway_leg := deferred true; agent_leg := NoLeg |}
  | Tunnel.HijackOK =>
      let '(w, room, ok) := write (takes (agent env)) established in
      if negb ok then
        {| httpError := None; to_agent := w; sent := Some req; to_gateway := []; event := None;
           returned := true; gateway_leg := deferred true; agent_leg := deferred true |}
      else
        let '(up, upDone) := Copy (holds (agent env)) (takes g) {| pending := []; under := script (agent env) |} in
        let '(down, downDone) := Copy (holds g) room tunnel in
        let ret := upDone && downDone in
        {| httpError := None; to_agent := w ++ down; sent := Some req; to_gateway := up;
           event := Some {| CEvent := "client_connect_established"; CTarget := target; CStatus := 200; CError := "" |};
           returned := ret; gateway_leg := deferred ret; agent_leg := deferred ret |}
  end.

Definition handle (c : ClientProxy) (env : Env) (r : agentRequest) : outcome :=
  if negb (AMethod r =s "CONNECT") then
    {| httpError := Some 405; to_agent := []; sent := None; to_gateway := []; event := None;
       returned := true; gateway_leg := NoLeg; agent_leg := NoLeg |}
  else
    let target := if AHost r =s "" then AURLHost r else AHost r in
    match dialGateway c env target with
    | DialFails e req =>
        {| httpError := Some 502; to_agent := []; sent := req; to_gateway := [];
           event := Some {| CEvent := "client_connect_failed"; CTarget := target; CStatus := 502; CError := classOf e |};
           returned := true; gateway_leg := match tls env with inl _ => NoLeg | inr _ => ClosedLeg end; agent_leg := NoLeg |}
    | DialWaits req =>
        {| httpError := None; to_agent := []; sent := Some req; to_gateway := []; event := None;
           returned := false; gateway_leg := OpenLeg; agent_leg := NoLeg |}
    | DialOK tunnel g req => tunnelled env target tunnel g req
    end.

End dialling.

(** [ProxyEnv]. *)
Definition ProxyEnv (listen : string) : gmap string string :=
  let addr := if HasPrefix listen ":" then String.append "127.0.0.1" listen else listen in
  let endpoint := String.append "http://" addr in
  list_to_map [("HTTPS_PROXY", endpoint); ("HTTP_PROXY", endpoint); ("https_proxy", endpoint); ("http_proxy", endpoint);
               ("NO_PROXY", "127.0.0.1,localhost,::1")]%string.

(** ** The AES bridge's listener *)

Definition requireLoopbackAddr (addr : string) : bool :=
  match SplitHostPort (to_bytes addr) with
  | None => false
  | Some (host, _) =>
      if EqualFold (of_bytes host) "localhost" then true
      else match ParseIP host with Some ip => IsLoopback ip | None => false end
  end.

Inductive bridgeResult := RefusedListen | ListenFailed | RefusedSocket | Serving.

(** [ListenAndServe] then [Serve]: [bound] is the address of the socket the
    kernel bound, if it did. *)
Definition bridgeServe (bound : string) : bridgeResult :=
  if requireLoopbackAddr bound then Serving else RefusedSocket.

Definition bridgeListenAndServe (listen : string) (bound : option string) : bridgeResult :=
  if requireLoopbackAddr listen then match bound with None => ListenFailed | Some b => bridgeServe b end
  else RefusedListen.

(** ** Shutdown *)

Definition httpStateNewIdleGrace : Duration := 5 * Second.
Definition shutdownGrace : Duration := 3 * httpStateNewIdleGrace.

(** The server as shutdown sees it: its connections by their remaining work,
    the listener, and the serve goroutine. *)
Record httpServer := { busy : list Duration; listening : bool; serving : bool }.

Inductive shutError := DeadlineForced (budget : Duration) | OtherShut (msg : string) | ServeErr (msg : string).

(** [srv.Shutdown] within a budget: the listener is closed; connections that
    finish within it are gone; [true] is [context.DeadlineExceeded]. *)
Definition Shutdown (budget : Duration) (srv : httpServer) : bool * httpServer :=
  let left := filter (fun d => budget < d) (busy srv) in
  (negb (bool_decide (left = [])), {| busy := left; listening := false; serving := serving srv |}).

(** [srv.Close]. *)
Definition CloseServer (srv : httpServer) : httpServer := {| busy := []; listening := false; serving := serving srv |}.

(** [<-serveErr]: it comes once the listener is closed. *)
Definition join_serve (srv : httpServer) : httpServer :=
  {| busy := busy srv; listening := listening srv; serving := listening srv && serving srv |}.

(** [listenerErr] is an error of [Shutdown] other than the deadline. *)
Definition shutdownHTTPServerWithin (srv : httpServer) (listenerErr serveErr : option string) (budget : Duration)
  : option shutError * httpServer :=
  let '(expired, srv) := Shutdown budget srv in
  let '(shutErr, srv) :=
    if expired : bool then (Some (DeadlineForced budget), CloseServer srv)
    else (OtherShut <$> listenerErr, srv) in
  let srv := join_serve srv in
  match shutErr with
  | Some e => (Some e, srv)
  | None => (ServeErr <$> serveErr, srv)
  end.

Definition shutdownHTTPServer (srv : httpServer) (listenerErr serveErr : option string) : option shutError * httpServer :=
  shutdownHTTPServerWithin srv listenerErr serveErr shutdownGrace.

(** ** Lemmas *)




#[local] Opaque copyBuf.

(** *** What a copy comes to *)











Lemma sent_token c target :
  WHeader (connect_request c target) !! "Proxy-Authorization"%string = Some [String.append "Bearer " (Token c)].
Proof.
  unfold connect_request, stampCaller. cbn [WHeader]. destruct (_ =s ""); [by rewrite lookup_singleton_eq|].
  unfold Set_. rewrite lookup_insert_ne, lookup_singleton_eq by (vm_compute; discriminate). done.
Qed.



(** ** Theorems *)

Section theorems.
Context (ReadResponse : bool -> conn -> option (forwardError + (Z * bytes * conn))).

(** Reading a response takes its header off the front and loses nothing. *)
Context (reads_header : forall h s status buffered rest,
  ReadResponse h s = Some (inr (status, buffered, rest)) -> clean s -> clean rest /\ exists header, data s = header ++ buffered ++ data rest).


(** Client and gateway fit: a gateway with the client's token that allows the
    target and has a free slot admits the CONNECT the client sends. *)
Theorem client_admitted srv c target used local :
  CEnabled (Connect (cfg srv)) = true -> connToken srv = Token c -> Token c <> ""%string -> TrimSpace (Token c) = Token c ->
  target <> ""%string -> ToLower target ∈ allowed srv -> used < Tunnel.connectMaxConcurrent (cfg srv) ->
  let req := connect_request c target in
  Tunnel.admission srv
    {| Tunnel.CHost := WHost req; Tunnel.URLHost := ""; Tunnel.ProxyAuthorization := Get (WHeader req) "Proxy-Authorization";
       Tunnel.CallerHeader := Get (WHeader req) "X-HLXN-Caller"; Tunnel.LocalAddr := local |} used = (None, used + 1).
Proof.
  intros He Ht Hne Htrim Hta Hal Hu req. unfold Tunnel.admission. rewrite He. cbn [negb].
  cbn [Tunnel.ProxyAuthorization]. unfold Get. change (canonical "Proxy-Authorization") with "Proxy-Authorization"%string.
  unfold req. rewrite sent_token. unfold authorizeConnect. rewrite Ht.
  destruct (String.eqb_spec (Token c) ""); [done|].
  assert (Hp : HasPrefix (String.append "Bearer " (Token c)) "Bearer " = true).
  { unfold HasPrefix. apply has_prefix_spec. by exists (to_bytes (Token c)). }
  rewrite Hp. cbn [orb negb]. unfold TrimPrefix. rewrite Hp.
  change (drop (String.length "Bearer ") (to_bytes (String.append "Bearer " (Token c)))) with (to_bytes (Token c)).
  rewrite of_to_bytes, Htrim. destruct (String.eqb_spec (Token c) ""); [done|]. rewrite String.eqb_refl. cbn [negb].
  unfold Tunnel.connect_target. cbn [Tunnel.CHost connect_request WHost]. destruct (String.eqb_spec target ""); [done|].
  rewrite bool_decide_eq_true_2 by done. cbn [negb]. unfold Tunnel.acquireTunnel.
  by rewrite (proj2 (Z.ltb_lt _ _) Hu).
Qed.

End theorems.

(** The bridge speaks plain HTTP only to this machine: it serves only a socket
    whose own address is 127.0.0.0/8, ::1 or the name localhost, whatever the
    configured address resolved to; a missing host, a wildcard and a host name
    are refused before anything is bound. *)
Theorem bridge_serves_loopback listen bound :
  (bridgeListenAndServe listen bound = Serving ->
     exists b host port, bound = Some b /\ SplitHostPort (to_bytes b) = Some (host, port) /\
       (EqualFold (of_bytes host) "localhost" = true \/
        exists ip, ParseIP host = Some ip /\ ((exists q, To4 ip = Some q /\ head q = Some 127) \/ ip = IPv6loopback))) /\
  (forall host port, SplitHostPort (to_bytes listen) = Some (host, port) -> EqualFold (of_bytes host) "localhost" = false ->
     ParseIP host = None \/ ParseIP host = Some IPv4zero \/ ParseIP host = Some IPv6unspecified ->
     bridgeListenAndServe listen bound = RefusedListen).
Proof.
  split.
  - unfold bridgeListenAndServe, bridgeServe. destruct (requireLoopbackAddr listen); [|done].
    destruct bound as [b|]; [|done]. destruct (requireLoopbackAddr b) eqn:E; [|done]. intros _.
    unfold requireLoopbackAddr in E. destruct (SplitHostPort (to_bytes b)) as [[host port]|] eqn:Es; [|done].
    exists b, host, port. split; [done|]. split; [done|]. destruct (EqualFold _ _); [by left|]. right.
    destruct (ParseIP host) as [ip|]; [|done]. exists ip. split; [done|]. by apply IsLoopback_spec.
  - intros host port Hs Hl Hip. unfold bridgeListenAndServe, requireLoopbackAddr. rewrite Hs, Hl.
    by destruct Hip as [->|[->| ->]].
Qed.

(** Shutdown leaves nothing behind: when it returns, the listener is closed, the
    serve loop has ended and no connection is left; the error says that
    connections were closed by force exactly when one needed more than the
    budget. *)
Theorem shutdown_complete srv listenerErr serveErr budget e srv' :
  shutdownHTTPServerWithin srv listenerErr serveErr budget = (e, srv') ->
  busy srv' = [] /\ listening srv' = false /\ serving srv' = false /\
  (e = Some (DeadlineForced budget) <-> Exists (fun d => budget < d) (busy srv)).
Proof.
  unfold shutdownHTTPServerWithin, Shutdown. set (left := filter _ (busy srv)).
  assert (Hl : left <> [] <-> Exists (fun d => budget < d) (busy srv)).
  { unfold left. split.
    - intros Hne. destruct (filter _ _) as [|d l] eqn:E; [done|].
      assert (Hd : d ∈ filter (fun d => budget < d) (busy srv)) by (rewrite E; left).
      apply list_elem_of_filter in Hd as [Hd Hin]. apply Exists_exists. eauto.
    - intros (d & Hin & Hd)%Exists_exists E. apply (not_elem_of_nil d). rewrite <- E. by apply list_elem_of_filter. }
  destruct (decide (left = [])) as [E|E].
  - rewrite bool_decide_eq_true_2 by done. cbn [negb]. intros H.
    assert (Hs : srv' = {| busy := left; listening := false; serving := false |} /\ e <> Some (DeadlineForced budget)).
    { destruct listenerErr, serveErr; injection H as <- <-; done. }
    destruct Hs as [-> He]. cbn. split_and!; [done..|]. split; [done|]. intros Hx. by apply Hl in Hx.
  - rewrite bool_decide_eq_false_2 by done. cbn [negb]. intros [= <- <-]. cbn. split_and!; [done..|]. by rewrite <- Hl.
Qed.

(** ** Witnesses *)

(** A reader of responses: the header block, and the status from its front. *)
Definition ex_ReadResponse (hold : bool) (s : conn) : option (forwardError + (Z * bytes * conn)) :=
  match Socks5.readHTTPHeaders s with
  | (inr buffered, rest) =>
      Some (inr (if has_prefix (to_bytes "HTTP/1.1 200") (data s) then 200 else 502, buffered, rest))
  | (inl _, []) => if hold then None else Some (inl (TransportError "unexpected EOF"))
  | (inl _, _) => Some (inl (TransportError "malformed response"))
  end.




Definition ex_client : ClientProxy :=
  {| Listen := ":8787"; CallerID := "win3"; GatewayAddr := "edge.example.com:8443"; Token := "tok"; DialTimeout := 0 |}.

Definition says (t : bytes) : Stream.event := {| ev_bytes := t; ev_err := None |}.

(** A gateway whose first bytes of the tunnel come with its answer. *)
Definition ex_gateway : peer :=
  {| script := [says (to_bytes "HTTP/1.1 200 OK" ++ [byte 13; byte 10; byte 13; byte 10] ++ to_bytes "first"); says (to_bytes " second")];
     holds := false; takes := None |}.

Definition ex_agent (hold : bool) : peer := {| script := [says (to_bytes "hello")]; holds := hold; takes := None |}.

Definition ex_env (hold : bool) : Env :=
  {| tls := inr ex_gateway; connectWrite := None; hijack := Tunnel.HijackOK; early := to_bytes "TLS hello"; agent := ex_agent hold |}.
Definition ex_request : agentRequest :=
  {| AMethod := "CONNECT"; AHost := "api.anthropic.com:443"; AURLHost := ""; AHeader := ∅ |}.

(** What the agent sent along with its CONNECT never reaches the gateway: the
    buffered reader that [Hijack] returns is thrown away. *)
Example early_bytes_lost :
  let o := handle ex_ReadResponse ex_client (ex_env false) ex_request in
  to_agent o = established ++ to_bytes "first second" /\ to_gateway o = to_bytes "hello" /\
  returned o = true /\ gateway_leg o = ClosedLeg /\ agent_leg o = ClosedLeg.
Proof. vm_compute. done. Qed.

(** The gateway has closed the tunnel and the agent keeps its side open: the
    handler waits for ever, and both connections stay open. *)
Example half_closed_tunnel_held :
  let o := handle ex_ReadResponse ex_client (ex_env true) ex_request in
  returned o = false /\ gateway_leg o = OpenLeg /\ agent_leg o = OpenLeg.
Proof. vm_compute. done. Qed.

(** A gateway that accepts the connection and does not answer the CONNECT holds
    the handler too: the timeout is the dial's. *)
Example silent_gateway_held :
  let env := {| tls := inr {| script := []; holds := true; takes := None |}; connectWrite := None;
                hijack := Tunnel.HijackOK; early := []; agent := ex_agent false |} in
  let o := handle ex_ReadResponse ex_client env ex_request in
  returned o = false /\ gateway_leg o = OpenLeg /\ httpError o = None.
Proof. vm_compute. done. Qed.


Lemma client_admitted_witness :
  (Tunnel.admission Tunnel.wit_leg_server
    {| Tunnel.CHost := WHost (connect_request ex_client "api.anthropic.com:443"); Tunnel.URLHost := "";
       Tunnel.ProxyAuthorization := Get (WHeader (connect_request ex_client "api.anthropic.com:443")) "Proxy-Authorization";
       Tunnel.CallerHeader := Get (WHeader (connect_request ex_client "api.anthropic.com:443")) "X-HLXN-Caller";
       Tunnel.LocalAddr := None |} 0).1 = None.
Proof.
  rewrite (client_admitted Tunnel.wit_leg_server ex_client "api.anthropic.com:443" 0 None);
    [reflexivity|vm_compute; reflexivity|reflexivity|discriminate|vm_compute; reflexivity|discriminate|vm_compute; left|vm_compute; reflexivity].
Defined.

Lemma bridge_serves_loopback_witness :
  bridgeListenAndServe "127.0.0.1:8788" (Some "127.0.0.1:8788"%string) = Serving /\
  bridgeListenAndServe "0.0.0.0:8788" (Some "0.0.0.0:8788"%string) = RefusedListen.
Proof.
  split; [vm_compute; reflexivity|].
  destruct (bridge_serves_loopback "0.0.0.0:8788" (Some "0.0.0.0:8788"%string)) as [_ H].
  apply (H (to_bytes "0.0.0.0") (to_bytes "8788")); [vm_compute; reflexivity|vm_compute; reflexivity|].
  right; left. vm_compute. reflexivity.
Defined.

Lemma shutdown_complete_witness :
  busy (shutdownHTTPServer {| busy := [Second; 20 * Second]; listening := true; serving := true |} None None).2 = [].
Proof.
  eapply (shutdown_complete {| busy := [Second; 20 * Second]; listening := true; serving := true |} None None shutdownGrace).
  apply surjective_pairing.
Defined.

End Client.
