(* ===== verification/GatewayCmd.v ===== *)
(** * The serving subcommands

    Models [src/cmd/helixchannel/gateway.go] and the dispatch of
    [src/cmd/helixchannel/main.go]: how the [gateway] subcommand composes the
    configuration, the secrets and one or two servers, how its two legs end
    together, and the [proxy] and [aes-bridge] subcommands; of
    [src/internal/channel/server.go], [ListenAndServe] and [ServeWrapped].  The
    files, the YAML decoder, the secret provider and the sockets are arguments. *)

From Stdlib Require Import ZArith Lia Ascii String.
From stdpp Require Import base option list gmap strings sorting.
From S2P Require Import Prelude GoStrings Net Float64 Rotation RotationStore ConnectTarget GatewayTypes Secret KeyMaterial Headers GatewayConfig Gateway GatewayServer GatewaySpec Client Flags CheckKeys Diagnostics.

Module GatewayCmd.
Import GoStrings Secret GatewayConfig GatewayTypes GatewayServer Flags.

(** ** Helpers *)

Definition envOrDefault (getenv : string -> string) (key fallback : string) : string :=
  if getenv key =s "" then fallback else getenv key.

Definition is_blank (c : ascii) : bool :=
  Ascii.eqb c " " || Ascii.eqb c (byte 10) || Ascii.eqb c (byte 13) || Ascii.eqb c (byte 9).

Fixpoint drop_blank (s : bytes) : bytes :=
  match s with
  | c :: s' => if is_blank c then drop_blank s' else s
  | [] => []
  end.

(** [trimSpace] of the tool: four blanks, from both ends. *)
Definition trimSpace (s : string) : string := of_bytes (rev (drop_blank (rev (drop_blank (to_bytes s))))).

Definition filterTestFlags (args : list string) : list string :=
  filter (fun a => HasPrefix a "-test." = false /\ HasPrefix a "--test." = false) args.

Inductive tokenError := TokenFileRead | TokenFileEmpty (path : string) | NoToken (env : string).

Definition resolveConnectToken (getenv : string -> string) (read : string -> readResult) (envName filePath : string) : string + tokenError :=
  if negb (envName =s "") && negb (getenv envName =s "") then inl (getenv envName)
  else if negb (filePath =s "") then
    match read filePath with
    | ReadOK b => if trimSpace b =s "" then inr (TokenFileEmpty filePath) else inl (trimSpace b)
    | _ => inr TokenFileRead
    end
  else inr (NoToken envName).

(** ** The process *)

(** The configuration file decodes to the gateway's configuration and the path of
    its audit log. *)
Record Host := {
  getenv : string -> string;
  readFile : string -> readResult;
  yaml : string -> option (Config * string);
  provider : SecretProvider;
  openAudit : string -> bool;
  clock : nat -> Time;
  register : option bool;                        (* the error of RegisterMetrics; [true] for a duplicate *)
  keyPair : string -> string -> bool;            (* tls.LoadX509KeyPair *)
  netListen : string -> option (ConnectTarget.Addr * bytes);  (* the bound address and its text *)
}.

Inductive gwError :=
  | GwFlags (e : flagError)
  | GwRead | GwParse | GwInvalid (e : ConfigError)
  | GwAudit
  | GwServer (e : serverError)
  | GwMetrics
  | GwKey (e : KeyMaterial.keyError)
  | GwAESServer (e : serverError)
  | GwAESPair
  | GwAESListen.

(** [channel.LoadConfig]. *)
Definition LoadConfig (h : Host) (path : string) : (Config * string) + gwError :=
  match readFile h path with
  | ReadOK raw =>
      match yaml h raw with
      | None => inr GwParse
      | Some (c, audit) => match Validate c with inl c' => inl (c', audit) | inr e => inr (GwInvalid e) end
      end
  | _ => inr GwRead
  end.

Definition set_Listen (c : Config) (listen : string) : Config :=
  {| Listen := listen; CTimeout := CTimeout c; Routes := Routes c; Connect := Connect c; GatewayAuth := GatewayAuth c;
     TLS := TLS c; AES := AES c; TrustForwardedForAudit := TrustForwardedForAudit c |}.

(** The configuration the command serves: the file, and [--listen] over it with a
    second validation. *)
Definition effectiveConfig (h : Host) (fs : FlagSet) : (Config * string) + gwError :=
  match LoadConfig h (strOf fs "config") with
  | inr e => inr e
  | inl (c, audit) =>
      if strOf fs "listen" =s "" then inl (c, audit)
      else match Validate (set_Listen c (strOf fs "listen")) with inl c' => inl (c', audit) | inr e => inr (GwInvalid e) end
  end.

Inductive warning :=
  | TokenBudget (a : BudgetAdvisory) | UncappedPool (a : UncappedPoolAdvisory)
  | Unauthenticated (listen : string) | OpenRelay (listen : string).

Definition warnAdvisoryTokenBudgets (c : Config) : list warning := TokenBudget <$> TokenBudgetAdvisories c.
Definition warnUncappedPools (c : Config) : list warning := UncappedPool <$> UncappedPoolAdvisories c.

Definition warnUnauthenticatedProxyLeg (mode : ProxyAuthMode) (listen : string) : list warning :=
  match mode with
  | ProxyAuthLoopbackOnly => [Unauthenticated listen]
  | ProxyAuthOpen => [OpenRelay listen]
  | _ => []
  end.

Definition noConnect : ConnectConfig :=
  {| CEnabled := false; AllowedHosts := []; CTokenEnv := ""; CTokenFile := ""; CTokenRef := ""; DialTimeout := 0;
     MaxConcurrent := 0; IdleTimeout := 0 |}.

Definition noAES : AESConfig :=
  {| AESEnabled := false; AESListen := ""; AESKeyEnv := ""; AESKeyFile := ""; AESKeyRef := ""; AESTLS := {| CertFile := ""; TLSKeyFile := "" |} |}.

Definition aesLegConfig (c : Config) : Config :=
  {| Listen := AESListen (AES c); CTimeout := CTimeout c; Routes := Routes c; Connect := noConnect; GatewayAuth := GatewayAuth c;
     TLS := TLS c; AES := noAES; TrustForwardedForAudit := TrustForwardedForAudit c |}.

(** The second leg: its server, its key, and the socket it is bound to. *)
Record aesLeg := { ASrv : Server; AKey : bytes; AAddr : ConnectTarget.Addr; ABound : bytes }.

Definition startAES (h : Host) (c : Config) : option aesLeg + gwError :=
  if negb (AESEnabled (AES c)) then inl None
  else
    match KeyMaterial.ResolveAESKey (provider h) (AESKeyRef (AES c)) (AESKeyEnv (AES c)) (AESKeyFile (AES c)) with
    | inr e => inr (GwKey e)
    | inl key =>
        match NewServer (clock h 1) (aesLegConfig c) (provider h) with
        | inr e => inr (GwAESServer e)
        | inl s =>
            if negb (keyPair h (CertFile (AESTLS (AES c))) (TLSKeyFile (AESTLS (AES c)))) then inr GwAESPair
            else
              match netListen h (AESListen (AES c)) with
              | None => inr GwAESListen
              | Some (addr, bound) => inl (Some {| ASrv := s; AKey := key; AAddr := addr; ABound := bound |})
              end
        end
    end.

Inductive started :=
  | PrintRoutes (listen : string) (routes : list string) (connect : bool) (mode : ProxyAuthMode)
  | Legs (main : Server) (aes : option aesLeg).

Definition gateway_flags (h : Host) : FlagSet :=
  NewFlagSet [("config", VStr (envOrDefault (getenv h) "HELIXCHANNEL_GATEWAY_CONFIG" "/etc/helixchannel/gateway.yml"));
              ("listen", VStr ""); ("print-routes", VBool false)]%string.

Definition string_le (a b : string) : Prop := String.leb a b = true.
#[export] Instance string_le_dec : RelDecision string_le.
Proof. intros a b. unfold string_le. apply _. Defined.

(** [runGateway] up to the moment its legs run: what it warned about, and the
    error, the printed table, or the legs. *)
Definition startGateway (h : Host) (args : list string) : list warning * (started + gwError) :=
  match Parse (gateway_flags h) (filterTestFlags args) with
  | inr e => ([], inr (GwFlags e))
  | inl (fs, _) =>
      match effectiveConfig h fs with
      | inr e => ([], inr e)
      | inl (c, audit) =>
          let ws := warnAdvisoryTokenBudgets c ++ warnUncappedPools c in
          if negb (audit =s "") && negb (openAudit h audit) then (ws, inr GwAudit)
          else
            match NewServer (clock h 0) c (provider h) with
            | inr e => (ws, inr (GwServer e))
            | inl s =>
                if bool_decide (register h = Some false) then (ws, inr GwMetrics)
                else if boolOf fs "print-routes" then
                  (ws, inl (PrintRoutes (Listen c) (merge_sort string_le (RouteNames s)) (CEnabled (Connect c)) (proxyAuth s)))
                else
                  (ws ++ warnUnauthenticatedProxyLeg (proxyAuth s) (Listen c),
                   match startAES h c with inr e => inr e | inl leg => inl (Legs s leg) end)
            end
      end
  end.

(** ** One leg *)

Inductive legStart := BindError | Refused (why : bindRefusalReason) | Running (s : Server) (addr : ConnectTarget.Addr).

(** [Server.ListenAndServe]. *)
Definition ListenAndServe (h : Host) (s : Server) : legStart :=
  match netListen h (Listen (cfg s)) with
  | None => BindError
  | Some (addr, bound) => match Serve s (Some addr) bound with inr why => Refused why | inl s' => Running s' addr end
  end.

(** [Server.ServeWrapped]: the same refusal, judged from the socket; the scope is
    not adopted. *)
Definition ServeWrapped (s : Server) (addr : ConnectTarget.Addr) (bound : bytes) : legStart :=
  match bindRefusal s bound (ConnectTarget.boundListenScope (Some addr)) with
  | Some why => Refused why
  | None => Running s addr
  end.

(** ** The client side *)

(** The lines of [--print-env], sorted by name. *)
Definition printEnv (listen : string) : list string :=
  let env := Client.ProxyEnv listen in
  (fun k => (k ++ "=" ++ default "" (env !! k))%string) <$> merge_sort string_le (elements (dom env)).

Definition proxy_flags (h : Host) : FlagSet :=
  NewFlagSet [("listen", VStr (envOrDefault (getenv h) "HELIXCHANNEL_PROXY_LISTEN" "127.0.0.1:47820"));
              ("gateway", VStr (envOrDefault (getenv h) "HELIXCHANNEL_GATEWAY" ""));
              ("token-env", VStr "HELIXCHANNEL_CONNECT_TOKEN"); ("token-file", VStr "");
              ("caller-id", VStr (envOrDefault (getenv h) "HC_CALLER_ID" "")); ("insecure", VBool false); ("print-env", VBool false)]%string.

Inductive proxyStart :=
  | ProxyFlags (e : flagError) | EnvLines (l : list string) | GatewayRequired | ProxyToken (e : tokenError)
  | ProxyRefused (why : string) | ProxyUp (c : Client.ClientProxy) (insecure : bool).

Definition runProxy (h : Host) (args : list string) : proxyStart :=
  match Parse (proxy_flags h) (filterTestFlags args) with
  | inr e => ProxyFlags e
  | inl (fs, _) =>
      if boolOf fs "print-env" then EnvLines (printEnv (strOf fs "listen"))
      else if strOf fs "gateway" =s "" then GatewayRequired
      else
        match resolveConnectToken (getenv h) (readFile h) (strOf fs "token-env") (strOf fs "token-file") with
        | inr e => ProxyToken e
        | inl token =>
            let c := {| Client.Listen := strOf fs "listen"; Client.CallerID := strOf fs "caller-id"; Client.GatewayAddr := strOf fs "gateway";
                        Client.Token := token; Client.DialTimeout := 0 |} in
            match Client.clientPreflight c with
            | (Some why, _) => ProxyRefused why
            | (None, c) => ProxyUp c (boolOf fs "insecure")
            end
        end
  end.

Definition bridge_flags (h : Host) : FlagSet :=
  NewFlagSet [("listen", VStr (envOrDefault (getenv h) "HELIXCHANNEL_AES_BRIDGE_LISTEN" "127.0.0.1:8788"));
              ("gateway", VStr (envOrDefault (getenv h) "HELIXCHANNEL_AES_GATEWAY" ""));
              ("key-env", VStr "HELIXCHANNEL_AES_KEY"); ("key-file", VStr ""); ("key-ref", VStr ""); ("insecure", VBool false)]%string.

Inductive bridgeStart :=
  | BridgeFlags (e : flagError) | BridgeGatewayRequired | BridgeKey (e : KeyMaterial.keyError)
  | BridgeRan (key : bytes) (r : Client.bridgeResult).

Definition runAESBridge (h : Host) (args : list string) : bridgeStart :=
  match Parse (bridge_flags h) (filterTestFlags args) with
  | inr e => BridgeFlags e
  | inl (fs, _) =>
      if strOf fs "gateway" =s "" then BridgeGatewayRequired
      else
        match KeyMaterial.ResolveAESKey (provider h) (strOf fs "key-ref") (strOf fs "key-env") (strOf fs "key-file") with
        | inr e => BridgeKey e
        | inl key => BridgeRan key (Client.bridgeListenAndServe (strOf fs "listen") ((fun p => of_bytes p.2) <$> netListen h (strOf fs "listen")))
        end
  end.

(** ** The dispatch *)

Inductive command :=
  | version | factory_probe | key_check | header_stamp | doctor | endpoint_check | kilo_verify | check_keys | gateway | proxy | aes_bridge.

Definition commands : list (string * command) :=
  [("version", version); ("factory-probe", factory_probe); ("key-check", key_check); ("header-stamp", header_stamp); ("doctor", doctor);
   ("endpoint-check", endpoint_check); ("kilo-verify", kilo_verify); ("check-keys", check_keys); ("gateway", gateway); ("proxy", proxy);
   ("aes-bridge", aes_bridge)]%string.

Inductive action := Usage (status : Z) | VersionLine | Run (c : command) (args : list string).

(** [main], by the arguments after the program's name. *)
Definition dispatch (argv : list string) : action :=
  match argv with
  | [] => Usage 2
  | a :: args =>
      if (a =s "--version") || (a =s "-version") then VersionLine
      else if (a =s "--help") || (a =s "-h") then Usage 0
      else
        match list_find (fun p => p.1 = a) commands with
        | Some (_, (_, c)) => Run c args
        | None => Usage 2
        end
  end.

(** The exit status, given what each subcommand returns. *)
Definition main (run_command : command -> list string -> option CheckKeys.cmdError) (argv : list string) : Z :=
  match dispatch argv with
  | Usage status => status
  | VersionLine => 0
  | Run c args => CheckKeys.exit_code (run_command c args)
  end.

Definition proxyHelixChannelVersion : string := "v18712-1".

(** [versionLine]: the version, the Go release, and the revision if the build
    recorded one. *)
Definition versionLine (goVersion : string) (settings : option (list (string * string))) : string :=
  let sha := match list_find (fun kv => kv.1 = "vcs.revision"%string) (default [] settings) with Some (_, kv) => kv.2 | None => ""%string end in
  if sha =s "" then ("helixchannel_version=" ++ proxyHelixChannelVersion ++ " go_version=" ++ goVersion)%string
  else ("helixchannel_version=" ++ proxyHelixChannelVersion ++ " go_version=" ++ goVersion ++ " git_sha=" ++ sha)%string.

(** ** The legs together

    The goroutines of the legs and the loop that collects their results.  A leg
    that was not cancelled ends only with an error: [http.Serve] returns nil for
    no reason but a shutdown.  A leg that was cancelled ends with the result of
    its shutdown. *)

Inductive leg := Up | Down (e : option string).

#[export] Instance leg_eq_dec : EqDecision leg.
Proof. solve_decision. Defined.

Record run := {
  cancelled : bool;
  legs : list leg;
  errCh : list (option string);
  taken : list (option string);
  firstErr : option string;
}.

Definition launch (n : nat) : run :=
  {| cancelled := false; legs := replicate n Up; errCh := []; taken := []; firstErr := None |}.

Definition leg_ends (i : nat) (e : option string) (r : run) : run :=
  {| cancelled := cancelled r; legs := <[i := Down e]> (legs r); errCh := errCh r ++ [e]; taken := taken r; firstErr := firstErr r |}.

(** One turn of the collecting loop. *)
Definition collect (e : option string) (q : list (option string)) (r : run) : run :=
  match e, firstErr r with
  | Some m, None => {| cancelled := true; legs := legs r; errCh := q; taken := taken r ++ [e]; firstErr := Some m |}
  | _, _ => {| cancelled := cancelled r; legs := legs r; errCh := q; taken := taken r ++ [e]; firstErr := firstErr r |}
  end.

Inductive step : run -> run -> Prop :=
  | step_fail i m r : legs r !! i = Some Up -> step r (leg_ends i (Some m) r)
  | step_stop i e r : cancelled r = true -> legs r !! i = Some Up -> step r (leg_ends i e r)
  | step_signal r : step r {| cancelled := true; legs := legs r; errCh := errCh r; taken := taken r; firstErr := firstErr r |}
  | step_collect e q r : errCh r = e :: q -> (length (taken r) < length (legs r))%nat -> step r (collect e q r).

Definition returned (r : run) : Prop := length (taken r) = length (legs r).

Definition result_of (l : leg) : list (option string) := match l with Up => [] | Down e => [e] end.
Definition results (r : run) : list (option string) := legs r ≫= result_of.

(** What holds in every state: each leg that ended has put exactly its result on
    the channel, the first error is the first one taken, and it cancels. *)
Record legs_inv (r : run) : Prop := {
  inv_results : taken r ++ errCh r ≡ₚ results r;
  inv_first : firstErr r = head (omap id (taken r));
  inv_cancel : firstErr r <> None -> cancelled r = true;
  inv_clean : cancelled r = false -> None ∉ results r;
}.

Lemma results_end i e (ls : list leg) : ls !! i = Some Up -> (<[i := Down e]> ls) ≫= result_of ≡ₚ e :: (ls ≫= result_of).
Proof.
  revert i. induction ls as [|l ls IH]; intros [|i] H; simplify_eq/=; [done|].
  rewrite (IH i H). by rewrite Permutation_middle.
Qed.

Lemma launch_inv n : legs_inv (launch n).
Proof.
  assert (E : results (launch n) = []) by (unfold results; cbn; by induction n).
  split; rewrite ?E; try done. intros _. apply not_elem_of_nil.
Qed.

Lemma end_inv i e r : legs_inv r -> legs r !! i = Some Up -> (cancelled r = false -> e <> None) -> legs_inv (leg_ends i e r).
Proof.
  intros [Hr Hf Hc Hn] Hi He.
  assert (Hres : results (leg_ends i e r) ≡ₚ e :: results r) by (by apply results_end).
  split; cbn [leg_ends cancelled legs errCh taken firstErr]; [|done|done|].
  - rewrite Hres, <- Hr, app_assoc. symmetry. apply Permutation_cons_append.
  - intros H. rewrite Hres, not_elem_of_cons. split; [|by apply Hn]. intros <-. by apply He.
Qed.

Lemma collect_inv e q r : legs_inv r -> errCh r = e :: q -> legs_inv (collect e q r).
Proof.
  intros [Hr Hf Hc Hn] Hq. rewrite Hq in Hr.
  assert (Hr' : (taken r ++ [e]) ++ q ≡ₚ results r) by (by rewrite <- app_assoc).
  assert (Ho : head (omap id (taken r ++ [e])) = match firstErr r with Some m => Some m | None => e end).
  { rewrite omap_app, Hf. destruct (omap id (taken r)); [|done]. by destruct e. }
  unfold collect. destruct e as [m|]; [destruct (firstErr r) as [m0|] eqn:E|]; split; cbn [cancelled legs errCh taken firstErr];
    try done; try (by rewrite Ho); by destruct (firstErr r).
Qed.

Lemma step_inv r r' : legs_inv r -> step r r' -> legs_inv r'.
Proof.
  intros Hi Hs. destruct Hs as [i m r Hu|i e r Hcan Hu|r|e q r Hq Hlen].
  - by apply end_inv.
  - apply end_inv; [done|done|congruence].
  - destruct Hi as [Hr Hf Hc Hn]. by split.
  - by apply collect_inv.
Qed.

Lemma step_legs r r' : step r r' -> length (legs r) = length (legs r').
Proof. intros Hs. destruct Hs as [i m r|i e r|r|e q r]; cbn; rewrite ?length_insert; try done. unfold collect. by destruct e, (firstErr r). Qed.

Lemma legs_reachable_inv n r : rtc step (launch n) r -> legs_inv r /\ length (legs r) = n.
Proof.
  revert r. apply rtc_ind_r.
  - split; [apply launch_inv|apply length_replicate].
  - intros x y _ Hs [Hi Hl]. split; [by eapply step_inv|]. by rewrite <- (step_legs _ _ Hs).
Qed.

Lemma omap_head_none (l : list (option string)) : head (omap id l) = None <-> Forall (fun e => e = None) l.
Proof. induction l as [|[m|] l IH]; cbn; rewrite ?Forall_cons; naive_solver. Qed.

Lemma results_length (ls : list leg) : (length (ls ≫= result_of) <= length ls)%nat.
Proof. induction ls as [|[|e] ls IH]; cbn; [lia|lia|]. unfold mbind, list_bind in *. cbn in *. lia. Qed.

Lemma all_down (ls : list leg) : length (ls ≫= result_of) = length ls -> ls = Down <$> (ls ≫= result_of).
Proof.
  induction ls as [|[|e] ls IH]; cbn; [done| |].
  - pose proof (results_length ls). unfold mbind, list_bind in *. lia.
  - intros [= H]. f_equal. by apply IH.
Qed.

(** ** The end of the process *)

Definition failed (r : run) : Prop := exists i m, legs r !! i = Some (Down (Some m)).

Lemma failed_results r : failed r <-> exists m, Some m ∈ results r.
Proof.
  unfold failed, results. split.
  - intros (i & m & H). exists m. apply list_elem_of_bind. exists (Down (Some m)). split; [by apply list_elem_of_singleton|by eapply list_elem_of_lookup_2].
  - intros (m & (l & Hl & Hin)%list_elem_of_bind). apply list_elem_of_lookup in Hin as [i Hi]. exists i, m.
    destruct l as [|e]; cbn in Hl; [by apply not_elem_of_nil in Hl|]. by apply list_elem_of_singleton in Hl as ->.
Qed.

Lemma returned_taken r : legs_inv r -> returned r -> taken r ≡ₚ results r /\ errCh r = [].
Proof.
  intros Hi Hret. pose proof (inv_results r Hi) as Hp. pose proof (Permutation_length Hp) as Hl. rewrite length_app in Hl.
  pose proof (results_length (legs r)) as Hb. fold (results r) in Hb. unfold returned in Hret.
  assert (He : errCh r = []) by (apply length_zero_iff_nil; lia). rewrite He, app_nil_r in Hp. done.
Qed.

(** When the command returns, every leg has ended; it returns an error exactly
    when a leg failed, and the error of a leg; and without an error it was
    cancelled by a signal, every leg having shut down cleanly. *)
Theorem legs_end_together n r :
  rtc step (launch n) r -> returned r -> (0 < n)%nat ->
  (firstErr r <> None <-> failed r) /\
  (forall m, firstErr r = Some m -> exists i, legs r !! i = Some (Down (Some m))) /\
  (firstErr r = None -> cancelled r = true /\ legs r = replicate n (Down None)).
Proof.
  intros Hreach Hret Hn. destruct (legs_reachable_inv n r Hreach) as [Hi Hlen].
  destruct (returned_taken r Hi Hret) as [Hp He]. pose proof (inv_first r Hi) as Hf. split_and!.
  - rewrite failed_results. split.
    + intros H. rewrite Hf in H. destruct (omap id (taken r)) as [|m l] eqn:Eo; [done|]. exists m. rewrite <- Hp.
      assert (Hm : m ∈ omap id (taken r)) by (rewrite Eo; apply elem_of_cons; by left).
      apply list_elem_of_omap in Hm as (x & Hx & Ex). by cbn in Ex; subst x.
    + intros (m & Hm) Hnone. rewrite Hf, omap_head_none, Forall_forall in Hnone. rewrite <- Hp in Hm. by apply Hnone in Hm.
  - intros m Hm. rewrite Hf in Hm. destruct (omap id (taken r)) as [|m' l] eqn:Eo; [done|]. injection Hm as ->.
    assert (Hin : m ∈ omap id (taken r)) by (rewrite Eo; apply elem_of_cons; by left).
    apply list_elem_of_omap in Hin as (x & Hx & Ex). cbn in Ex. subst x. rewrite Hp in Hx.
    apply list_elem_of_bind in Hx as (l' & Hl & Hin). apply list_elem_of_lookup in Hin as [i Hil]. exists i.
    destruct l' as [|e]; cbn in Hl; [by apply not_elem_of_nil in Hl|]. by apply list_elem_of_singleton in Hl as ->.
  - intros H0. rewrite Hf, omap_head_none in H0.
    assert (Hres : Forall (fun e => e = None) (results r)) by (by rewrite <- Hp).
    assert (Hlr : length (results r) = n) by (rewrite <- Hp; unfold returned in Hret; lia).
    split.
    + destruct (cancelled r) eqn:Ec; [done|]. exfalso. apply (inv_clean r Hi Ec).
      destruct (results r) as [|e l]; [cbn in Hlr; lia|]. apply Forall_cons in Hres as [-> _]. apply elem_of_cons. by left.
    + rewrite (all_down (legs r)) by (fold (results r); lia). fold (results r). rewrite <- Hlr.
      clear - Hres. induction Hres as [|e l -> _ IH]; [done|]. cbn. by rewrite <- IH.
Qed.

(** ** Progress *)

Lemma channel_room r : legs_inv r -> (length (taken r) + length (errCh r) = length (results r))%nat /\ (length (results r) <= length (legs r))%nat.
Proof.
  intros Hi. pose proof (Permutation_length (inv_results r Hi)) as H. rewrite length_app in H.
  pose proof (results_length (legs r)). fold (results r) in *. lia.
Qed.

(** The loop empties the channel. *)
Lemma collect_all k : forall r, legs_inv r -> length (errCh r) = k ->
  exists r', rtc step r r' /\ legs_inv r' /\ errCh r' = [] /\ legs r' = legs r /\ (cancelled r = true -> cancelled r' = true).
Proof.
  induction k as [|k IH]; intros r Hi Hk.
  - exists r. split_and!; [done|done|by apply length_zero_iff_nil|done|done].
  - destruct (errCh r) as [|e q] eqn:Eq; [done|]. pose proof (channel_room r Hi) as Hroom. rewrite Eq in Hroom. cbn in Hroom.
    assert (Hs : step r (collect e q r)) by (apply step_collect; [done|lia]).
    assert (Hc : errCh (collect e q r) = q /\ legs (collect e q r) = legs r /\ (cancelled r = true -> cancelled (collect e q r) = true))
      by (unfold collect; by destruct e, (firstErr r)).
    destruct Hc as (H1 & H2 & H3). destruct (IH (collect e q r)) as (r' & Hr & Hi' & Hq & Hl & Hcan).
    + by eapply step_inv.
    + rewrite H1. by injection Hk.
    + exists r'. split_and!; [by eapply rtc_l|done|done|by rewrite Hl|auto].
Qed.

Lemma some_up (ls : list leg) : (length (ls ≫= result_of) < length ls)%nat -> exists i, ls !! i = Some Up.
Proof.
  induction ls as [|[|e] ls IH]; [cbn; lia|by exists 0%nat|]. intros H.
  destruct IH as [i Hi]; [unfold mbind, list_bind in *; cbn in *; lia|]. by exists (S i).
Qed.

(** Cancelled legs stop. *)
Lemma stop_all k : forall r, legs_inv r -> cancelled r = true -> (length (legs r) - length (results r) = k)%nat ->
  exists r', rtc step r r' /\ legs_inv r' /\ length (results r') = length (legs r').
Proof.
  induction k as [|k IH]; intros r Hi Hc Hk.
  - exists r. pose proof (channel_room r Hi). split_and!; [done|done|lia].
  - destruct (some_up (legs r)) as [i Hup]; [fold (results r); lia|].
    assert (Hs : step r (leg_ends i None r)) by (by apply step_stop).
    assert (Hres : length (results (leg_ends i None r)) = S (length (results r))).
    { unfold results. cbn [leg_ends legs]. by rewrite (results_end i None (legs r) Hup). }
    destruct (IH (leg_ends i None r)) as (r' & Hr & Hi' & Hl).
    + by eapply step_inv.
    + done.
    + cbn [leg_ends legs]. rewrite length_insert. lia.
    + exists r'. split_and!; [by eapply rtc_l|done|done].
Qed.

(** From every state in which a leg has failed or a signal has come, the command
    can return: the failure of one leg cancels the other. *)
Theorem legs_drain n r :
  rtc step (launch n) r -> failed r \/ cancelled r = true -> exists r', rtc step r r' /\ returned r'.
Proof.
  intros Hreach Hwhy. destruct (legs_reachable_inv n r Hreach) as [Hi _].
  destruct (collect_all _ r Hi eq_refl) as (r1 & H1 & Hi1 & Hq1 & Hl1 & Hc1).
  assert (Hc : cancelled r1 = true).
  { destruct Hwhy as [Hf|Hc]; [|by apply Hc1]. apply (inv_cancel r1 Hi1). rewrite (inv_first r1 Hi1), omap_head_none, Forall_forall.
    apply failed_results in Hf as [m Hm]. intros Hnone. pose proof (inv_results r1 Hi1) as Hp. rewrite Hq1, app_nil_r in Hp.
    unfold results in Hm, Hp. rewrite Hl1 in Hp. rewrite <- Hp in Hm. by apply Hnone in Hm. }
  destruct (stop_all _ r1 Hi1 Hc eq_refl) as (r2 & H2 & Hi2 & Hl2).
  destruct (collect_all _ r2 Hi2 eq_refl) as (r3 & H3 & Hi3 & Hq3 & Hl3 & _).
  exists r3. split; [etrans; [exact H1|]; etrans; [exact H2|exact H3]|].
  unfold returned. pose proof (channel_room r3 Hi3) as Hroom. rewrite Hq3 in Hroom. unfold results in Hroom, Hl2. rewrite Hl3 in *. cbn in Hroom. lia.
Qed.

(** ** What the command serves *)

(** The gateway token the configuration names. *)
Definition token_of (sp : SecretProvider) (g : GatewayAuthConfig) : string :=
  if hasToken g then match resolveFirst sp (secretRefs (GTokenRef g) (GTokenEnv g) (GTokenFile g)) with inl tok => TrimSpace tok | inr _ => "" end
  else "".

Lemma NewServer_fields now c sp s : NewServer now c sp = inl s ->
  cfg s = c /\ proxyAuth s = Mode (GatewayAuth c) /\ proxyToken s = token_of sp (GatewayAuth c) /\
  (CEnabled (Connect c) = false -> connToken s = ""%string /\ allowed s = []).
Proof.
  unfold NewServer, token_of. destruct (bind_routes now sp (EnabledRoutes c)) as [[brs sts]|]; [|done].
  destruct (CEnabled (Connect c)).
  - destruct (resolveFirst sp (secretRefs (CTokenRef (Connect c)) _ _)) as [tok|]; [|done]. destruct (TrimSpace tok =s ""); [done|].
    destruct (hasToken (GatewayAuth c)); [|by intros [= <-]].
    destruct (resolveFirst sp (secretRefs (GTokenRef (GatewayAuth c)) _ _)) as [gt|]; [|done].
    destruct (TrimSpace gt =s ""); [done|]. destruct (negb _ && _); [done|]. by intros [= <-].
  - destruct (hasToken (GatewayAuth c)); [|by intros [= <-]].
    destruct (resolveFirst sp (secretRefs (GTokenRef (GatewayAuth c)) _ _)) as [gt|]; [|done].
    destruct (TrimSpace gt =s ""); [done|]. destruct (negb _ && _); [done|]. by intros [= <-].
Qed.

Lemma Validate_Listen c c' : Validate c = inl c' -> Listen c' = Listen c.
Proof. intros H. unfold Validate in H. inv_checked. by subst c'. Qed.

(** The configuration in force has been validated as it stands, with the address
    of the command line when one is given. *)
Lemma effectiveConfig_valid h fs c audit : effectiveConfig h fs = inl (c, audit) ->
  Validate c = inl c /\ (strOf fs "listen" <> ""%string -> Listen c = strOf fs "listen").
Proof.
  unfold effectiveConfig, LoadConfig. destruct (readFile h (strOf fs "config")) as [raw| | |]; try done.
  destruct (yaml h raw) as [[c0 a0]|]; [|done]. destruct (Validate c0) as [c1|] eqn:E1; [|done].
  destruct (String.eqb_spec (strOf fs "listen") "") as [He|He].
  - intros [= <- <-]. split; [by apply (validate_idempotent c0)|done].
  - destruct (Validate (set_Listen c1 _)) as [c2|] eqn:E2; [|done]. intros [= <- <-].
    split; [by eapply validate_idempotent|]. intros _. by rewrite (Validate_Listen _ _ E2).
Qed.

Definition loopback_socket (addr : ConnectTarget.Addr) : Prop :=
  exists ip, ConnectTarget.addrIP (Some addr) = Some ip /\ Net.IsLoopback ip = true /\ Net.IsUnspecified ip = false.

Lemma ListenAndServe_guard h s s' addr :
  ListenAndServe h s = Running s' addr -> proxyAuth s = ProxyAuthLoopbackOnly -> loopback_socket addr.
Proof.
  unfold ListenAndServe. destruct (netListen h (Listen (cfg s))) as [[a bound]|]; [|done]. unfold Serve.
  destruct (bindRefusal s bound _) eqn:E; [done|]. intros [= _ <-] Hm. by eapply GatewaySpec.bind_allowed_loopback.
Qed.

Lemma ServeWrapped_guard s addr bound s' addr' :
  ServeWrapped s addr bound = Running s' addr' -> proxyAuth s = ProxyAuthLoopbackOnly -> loopback_socket addr'.
Proof.
  unfold ServeWrapped. destruct (bindRefusal s bound _) eqn:E; [done|]. intros [= _ <-] Hm. by eapply GatewaySpec.bind_allowed_loopback.
Qed.

Lemma startAES_leg h c l : startAES h c = inl (Some l) ->
  AESEnabled (AES c) = true /\ length (AKey l) = 32%nat /\ NewServer (clock h 1) (aesLegConfig c) (provider h) = inl (ASrv l) /\
  netListen h (AESListen (AES c)) = Some (AAddr l, ABound l).
Proof.
  unfold startAES. destruct (AESEnabled (AES c)); cbn [negb]; [|done].
  destruct (KeyMaterial.ResolveAESKey _ _ _ _) as [key|] eqn:Ek; [|done]. destruct (NewServer _ _ _) as [s|]; [|done].
  destruct (keyPair h _ _); cbn [negb]; [|done]. destruct (netListen h _) as [[addr bound]|]; [|done].
  intros [= <-]. cbn. split_and!; try done. unfold KeyMaterial.ResolveAESKey in Ek.
  destruct (secretRefs _ _ _) as [|ref refs]; [done|]. destruct (resolveFirst _ _) as [m|]; [|done].
  by eapply KeyMaterial.parseAESKey_length.
Qed.

(** C37: What the [gateway] subcommand brings up, whatever its flags: the main leg runs
    a configuration that validates as it stands, with the address of the command
    line if given; the AES leg has a 32-byte key, the same caller authentication
    and no CONNECT; no leg that authenticates nobody serves on a socket other
    hosts can reach; and both unauthenticated postures are warned about. *)
Theorem gateway_command_guarded h args ws s leg :
  startGateway h args = (ws, inl (Legs s leg)) ->
  (exists fs rest c audit, Parse (gateway_flags h) (filterTestFlags args) = inl (fs, rest) /\ effectiveConfig h fs = inl (c, audit) /\
     cfg s = c /\ Validate c = inl c /\ (strOf fs "listen" <> ""%string -> Listen (cfg s) = strOf fs "listen")) /\
  (forall s' addr, ListenAndServe h s = Running s' addr -> proxyAuth s = ProxyAuthLoopbackOnly -> loopback_socket addr) /\
  (forall l, leg = Some l ->
     length (AKey l) = 32%nat /\ proxyAuth (ASrv l) = proxyAuth s /\ proxyToken (ASrv l) = proxyToken s /\
     connToken (ASrv l) = ""%string /\ allowed (ASrv l) = [] /\
     forall s' addr, ServeWrapped (ASrv l) (AAddr l) (ABound l) = Running s' addr -> proxyAuth s = ProxyAuthLoopbackOnly -> loopback_socket addr) /\
  (proxyAuth s = ProxyAuthLoopbackOnly -> Unauthenticated (Listen (cfg s)) ∈ ws) /\
  (proxyAuth s = ProxyAuthOpen -> OpenRelay (Listen (cfg s)) ∈ ws).
Proof.
  unfold startGateway. destruct (Parse (gateway_flags h) (filterTestFlags args)) as [[fs rest]|] eqn:Ep; [|done].
  destruct (effectiveConfig h fs) as [[c audit]|] eqn:Ec; [|done]. destruct (negb _ && _); [done|].
  destruct (NewServer (clock h 0) c (provider h)) as [s0|] eqn:En; [|done]. case_bool_decide; [done|].
  destruct (boolOf fs "print-routes"); [done|]. destruct (startAES h c) as [leg0|] eqn:Ea; [|done]. intros [= <- <- <-].
  destruct (NewServer_fields _ _ _ _ En) as (Hcfg & Hmode & Htok & _). destruct (effectiveConfig_valid _ _ _ _ Ec) as [Hv Hl].
  split_and!.
  - exists fs, rest, c, audit. by rewrite Hcfg.
  - by apply ListenAndServe_guard.
  - intros l ->. destruct (startAES_leg _ _ _ Ea) as (_ & Hk & Hn & _). destruct (NewServer_fields _ _ _ _ Hn) as (_ & Hm & Ht & Hcon).
    destruct (Hcon eq_refl) as [Hct Hal]. split_and!; try done; [by rewrite Hm, Hmode|by rewrite Ht, Htok|].
    intros s' addr Hs Hp. eapply ServeWrapped_guard; [exact Hs|]. by rewrite Hm, <- Hp, Hmode.
  - intros ->%(f_equal (fun m => warnUnauthenticatedProxyLeg m (Listen c))). apply elem_of_app. right. rewrite Hcfg. by apply list_elem_of_singleton.
  - intros ->%(f_equal (fun m => warnUnauthenticatedProxyLeg m (Listen c))). apply elem_of_app. right. rewrite Hcfg. by apply list_elem_of_singleton.
Qed.

(** ** The client side *)

Lemma drop_blank_spec s : exists a, s = a ++ drop_blank s /\ Forall (fun c => is_blank c = true) a /\
  match drop_blank s with [] => True | c :: _ => is_blank c = false end.
Proof.
  induction s as [|c s (a & E & Ha & Hh)]; [by exists []|]. cbn [drop_blank]. destruct (is_blank c) eqn:Ec.
  - exists (c :: a). split_and!; [cbn; by rewrite <- E|by constructor|done].
  - exists []. by split_and!.
Qed.

Lemma blank_run_plain a c t : Forall (fun c => is_blank c = true) a -> is_blank c = false -> drop_blank (a ++ c :: t) = c :: t.
Proof. intros Ha Hc. induction Ha as [|d a Hd _ IH]; cbn; [by rewrite Hc|]. by rewrite Hd. Qed.

(** The trimmed text is the text between blanks: nothing but blanks is cut, and
    no blank is left at an end. *)
Theorem trim_space_exact s :
  exists a b, to_bytes s = a ++ to_bytes (trimSpace s) ++ b /\
  Forall (fun c => is_blank c = true) a /\ Forall (fun c => is_blank c = true) b /\
  (forall c, head (to_bytes (trimSpace s)) = Some c -> is_blank c = false) /\
  (forall c, last (to_bytes (trimSpace s)) = Some c -> is_blank c = false).
Proof.
  unfold trimSpace. rewrite to_of_bytes. destruct (drop_blank_spec (to_bytes s)) as (a & Ea & Ha & Hh).
  set (u := drop_blank (to_bytes s)) in *. destruct (drop_blank_spec (rev u)) as (b & Eb & Hb & Hl). set (v := drop_blank (rev u)) in *.
  assert (Eu : u = rev v ++ rev b) by (by rewrite <- rev_app_distr, <- Eb, rev_involutive).
  exists a, (rev b). split_and!; [by rewrite <- Eu|done|by apply Forall_rev| |].
  - intros c Hc. rewrite Eu in Hh. by destruct (rev v); simplify_eq/=.
  - intros c Hc. destruct v as [|d v']; [done|]. cbn in Hc. rewrite last_snoc in Hc. by injection Hc as <-.
Qed.

(** A client proxy that comes up has a gateway and a token: the environment
    variable as it stands, or else the file without its blanks. *)
Theorem proxy_starts_ready h args c insecure :
  runProxy h args = ProxyUp c insecure ->
  Client.GatewayAddr c <> ""%string /\ Client.Token c <> ""%string /\ Client.DialTimeout c = 15 * Second /\
  ((exists name, Client.Token c = getenv h name) \/ exists path b, readFile h path = ReadOK b /\ Client.Token c = trimSpace b).
Proof.
  unfold runProxy. destruct (Parse _ _) as [[fs rest]|]; [|done]. destruct (boolOf fs "print-env"); [done|].
  destruct (String.eqb_spec (strOf fs "gateway") "") as [|Hg]; [done|]. unfold resolveConnectToken.
  destruct (String.eqb_spec (strOf fs "token-env") ""), (String.eqb_spec (getenv h (strOf fs "token-env")) ""); cbn [negb andb];
    try (destruct (String.eqb_spec (strOf fs "token-file") ""); cbn [negb]; [done|];
      destruct (readFile h (strOf fs "token-file")) as [b| | |] eqn:Er; try done;
      destruct (String.eqb_spec (trimSpace b) "") as [|Ht]; [done|]);
    unfold Client.clientPreflight; cbn; zbool; try done; intros [= <- <-]; cbn; split_and!; try done; eauto.
Qed.

(** The AES bridge serves only with a 32-byte key and on a loopback socket. *)
Theorem bridge_command_guarded h args key :
  runAESBridge h args = BridgeRan key Client.Serving ->
  length key = 32%nat /\ exists listen addr bound, netListen h listen = Some (addr, bound) /\
    Client.requireLoopbackAddr listen = true /\ Client.requireLoopbackAddr (of_bytes bound) = true.
Proof.
  unfold runAESBridge. destruct (Parse _ _) as [[fs rest]|]; [|done]. destruct (strOf fs "gateway" =s ""); [done|].
  unfold KeyMaterial.ResolveAESKey. destruct (secretRefs _ _ _) as [|ref refs]; [done|]. destruct (resolveFirst _ _) as [m|]; [|done].
  destruct (KeyMaterial.parseAESKey m) as [k|] eqn:Ek; [|done]. intros [= <- Hb]. split; [by eapply KeyMaterial.parseAESKey_length|].
  exists (strOf fs "listen"). unfold Client.bridgeListenAndServe in Hb. destruct (Client.requireLoopbackAddr (strOf fs "listen")) eqn:El; [|done].
  destruct (netListen h (strOf fs "listen")) as [[addr bound]|]; [|done]. cbn [fmap option_fmap option_map snd] in Hb.
  exists addr, bound. split_and!; [done|done|]. unfold Client.bridgeServe in Hb. by destruct (Client.requireLoopbackAddr (of_bytes bound)).
Qed.

(** ** Examples and witnesses *)

(** A tokenless gateway on loopback with an AES leg. *)
Definition ex_config : Config :=
  {| Listen := Listen wit_config; CTimeout := CTimeout wit_config; Routes := Routes wit_config; Connect := Connect wit_config;
     GatewayAuth := GatewayAuth wit_config; TLS := TLS wit_config;
     AES := {| AESEnabled := true; AESListen := "127.0.0.1:8444"; AESKeyEnv := "AES"; AESKeyFile := ""; AESKeyRef := "";
               AESTLS := {| CertFile := "c.pem"; TLSKeyFile := "k.pem" |} |};
     TrustForwardedForAudit := false |}.

Definition ex_env (n : string) : option string :=
  if n =s "EXA_1" then Some "k1"%string else if n =s "EXA_2" then Some "k2"%string else if n =s "TOK" then Some "tok"%string
  else if n =s "AES" then Some "0123456789abcdef0123456789ABCDEF"%string else None.

Definition ex_host : Host :=
  {| getenv := fun n => default ""%string (ex_env n); readFile := fun _ => ReadOK "file"; yaml := fun _ => Some (ex_config, ""%string);
     provider := envResolve ex_env; openAudit := fun _ => true; clock := fun _ => 7; register := Some true;
     keyPair := fun _ _ => true; netListen := fun l => Some (ConnectTarget.TCPAddr (Net.IPv4 127 0 0 1), to_bytes l) |}.

(** The address of the command line is validated too. *)
Example listen_override_refused :
  exists hint, startGateway ex_host ["--listen"; "0.0.0.0:80"]%string = ([], inr (GwInvalid (TokenlessReachable hint))).
Proof. eexists. vm_compute. reflexivity. Qed.

Lemma gateway_command_guarded_witness :
  exists ws s l, startGateway ex_host ["-test.v"; "--listen=127.0.0.1:9000"]%string = (ws, inl (Legs s (Some l))) /\
    length (AKey l) = 32%nat /\ Unauthenticated (Listen (cfg s)) ∈ ws.
Proof.
  destruct (startGateway ex_host ["-test.v"; "--listen=127.0.0.1:9000"]%string) as [ws [[| s [l|]]|]] eqn:E; try (vm_compute in E; discriminate).
  exists ws, s, l. split; [reflexivity|].
  destruct (gateway_command_guarded ex_host ["-test.v"; "--listen=127.0.0.1:9000"]%string ws s (Some l) E) as (_ & _ & Hl & Hw & _).
  split; [exact (proj1 (Hl l eq_refl))|]. apply Hw. vm_compute in E. injection E as _ <- _. reflexivity.
Defined.

(** The AES leg fails; the main leg is cancelled and shuts down. *)
Definition ex_failed : run := leg_ends 1 (Some "bind refused"%string) (launch 2).
Definition ex_cancelled : run := collect (Some "bind refused"%string) [] ex_failed.
Definition ex_stopped : run := leg_ends 0 None ex_cancelled.
Definition ex_returned : run := collect None [] ex_stopped.

Lemma ex_failed_reached : rtc step (launch 2) ex_failed.
Proof. apply rtc_once. by apply step_fail. Qed.

Lemma ex_returned_reached : rtc step (launch 2) ex_returned.
Proof.
  etrans; [exact ex_failed_reached|]. eapply rtc_l; [apply step_collect; [done|cbn; lia]|].
  eapply rtc_l; [apply (step_stop 0 None); done|]. apply rtc_once. apply step_collect; [done|cbn; lia].
Qed.

Lemma legs_end_together_witness : returned ex_returned /\ firstErr ex_returned <> None.
Proof.
  split; [reflexivity|]. apply (legs_end_together 2 ex_returned ex_returned_reached eq_refl ltac:(lia)).
  exists 1%nat, "bind refused"%string. reflexivity.
Defined.

Lemma legs_drain_witness : exists r', rtc step ex_failed r' /\ returned r'.
Proof.
  apply (legs_drain 2 ex_failed ex_failed_reached). left. exists 1%nat, "bind refused"%string. reflexivity.
Defined.

Lemma proxy_starts_ready_witness :
  exists c, runProxy ex_host ["--gateway=edge:8443"; "--token-env"; "TOK"; "--insecure"]%string = ProxyUp c true /\ Client.Token c <> ""%string.
Proof.
  eexists. split; [vm_compute; reflexivity|].
  exact (proj1 (proj2 (proxy_starts_ready ex_host ["--gateway=edge:8443"; "--token-env"; "TOK"; "--insecure"]%string _ true ltac:(vm_compute; reflexivity)))).
Defined.

Lemma bridge_command_guarded_witness :
  runAESBridge ex_host ["--gateway=edge:8444"; "--key-env=AES"]%string = BridgeRan (to_bytes "0123456789abcdef0123456789ABCDEF") Client.Serving /\
  length (to_bytes "0123456789abcdef0123456789ABCDEF") = 32%nat.
Proof.
  assert (E : runAESBridge ex_host ["--gateway=edge:8444"; "--key-env=AES"]%string = BridgeRan (to_bytes "0123456789abcdef0123456789ABCDEF") Client.Serving)
    by (vm_compute; reflexivity).
  split; [exact E|]. exact (proj1 (bridge_command_guarded _ _ _ E)).
Defined.

(** The pool of the example with a cap of one request per key. *)
Definition ex_capped : Host :=
  {| getenv := getenv ex_host; readFile := readFile ex_host;
     yaml := fun _ => Some ({| Listen := Listen ex_config; CTimeout := CTimeout ex_config;
       Routes := [GatewayConfig.set_rotation wit_pool_route (Some {| Policy := "round_robin"; MaxRetryAfter := 0;
         RBudget := {| RotationStore.Window := Hour; RotationStore.BTokens := 0; RotationStore.BRequests := 1;
                       RotationStore.SoftRatio := Float64.zero; RotationStore.EstimateTokens := 0 |} |})];
       Connect := Connect ex_config; GatewayAuth := GatewayAuth ex_config; TLS := TLS ex_config; AES := AES ex_config;
       TrustForwardedForAudit := false |}, ""%string);
     provider := provider ex_host; openAudit := openAudit ex_host; clock := clock ex_host; register := register ex_host;
     keyPair := keyPair ex_host; netListen := netListen ex_host |}.

(** How many of [n] requests a server admits on its first route. *)
Fixpoint admitted (n : nat) (s : Server) : nat :=
  match n, head (sroutes s) with
  | S n, Some rt =>
      match leaseFor 8 s (Gateway.BAuth rt) with
      | (Some _, _, s) => S (admitted n s)
      | (None, _, s) => admitted n s
      end
  | _, _ => 0
  end.

(** Each leg has a store of its own: a plan of one request per key, two keys,
    admits two requests on the main leg and two more on the AES leg. *)
Example legs_double_the_cap :
  match startGateway ex_capped [] with
  | (_, inl (Legs s (Some l))) => admitted 5 s = 2%nat /\ admitted 5 (ASrv l) = 2%nat
  | _ => False
  end.
Proof. vm_compute. split; reflexivity. Qed.

(** Sorted, the variables an agent needs. *)
Example print_env_lines :
  printEnv ":47820" = ["HTTPS_PROXY=http://127.0.0.1:47820"; "HTTP_PROXY=http://127.0.0.1:47820"; "NO_PROXY=127.0.0.1,localhost,::1";
    "http_proxy=http://127.0.0.1:47820"; "https_proxy=http://127.0.0.1:47820"]%string.
Proof. vm_compute. reflexivity. Qed.

End GatewayCmd.
