(* ===== verification/Serving.v ===== *)
(** * Serve loops

    Models how the gateway's servers run and end: [Server.Serve] and
    [Server.ServeWrapped] of [src/internal/channel/server.go], [AESBridge.Serve] and
    the dial of its transport in [aes_bridge.go], [ClientProxy.ListenAndServe] of
    [client.go], and the serve loops the listener factories return
    ([src/internal/proxy/listener.go], [src/internal/proxy/socks5/server.go]).  What
    [net/http] and the network do meanwhile is an argument. *)

From Stdlib Require Import ZArith Lia Ascii String.
From stdpp Require Import base option list strings.
From S2P Require Import Prelude GoStrings Net ConnectTarget GatewayTypes Headers GatewayConfig Gateway GatewayServer GatewaySpec Client GatewayCmd.

Module Serving.
Import GoStrings GatewayServer Client.

(** ** The common tail *)

(** How [http.Server.Serve] ends, and what the goroutine sends. *)
Inductive serveEnd := ErrServerClosed | ServeFailed (msg : string).
Definition sent (e : serveEnd) : option string := match e with ErrServerClosed => None | ServeFailed m => Some m end.

(** Which case of the [select] fires: the context, with the server as it is then
    and the errors that shutdown meets, or the end of the serve goroutine, which
    has closed the listener and left the open connections alone. *)
Inductive waited :=
  | ContextDone (srv : httpServer) (listenerErr : option string) (e : serveEnd)
  | ServeEnded (e : serveEnd) (open : list Duration).

Definition await (w : waited) : option shutError * httpServer :=
  match w with
  | ContextDone srv listenerErr e => shutdownHTTPServer srv listenerErr (sent e)
  | ServeEnded e open => (ServeErr <$> sent e, {| busy := open; listening := false; serving := false |})
  end.

(** What a server call returns: it was refused and the listener, if any, closed
    before a connection was accepted; or it served and came back. *)
Inductive ran (A : Type) := NotServed (why : A) | Served (r : option shutError) (after : httpServer).
Arguments NotServed {A} _.
Arguments Served {A} _ _.

(** ** The four servers *)

Definition SServe (s : Server) (addr : option ConnectTarget.Addr) (bound : bytes) (w : waited) : ran bindRefusalReason * option Server :=
  match GatewayServer.Serve s addr bound with
  | inr why => (NotServed why, None)
  | inl s' => let '(r, after) := await w in (Served r after, Some s')
  end.

Definition SServeWrapped (s : Server) (addr : ConnectTarget.Addr) (bound : bytes) (w : waited) : ran bindRefusalReason :=
  match GatewayCmd.ServeWrapped s addr bound with
  | GatewayCmd.Refused why => NotServed why
  | _ => let '(r, after) := await w in Served r after
  end.

(** [AESBridge.Serve]. *)
Definition bridgeRun (bound : string) (w : waited) : ran bridgeResult :=
  match bridgeServe bound with
  | Serving => let '(r, after) := await w in Served r after
  | why => NotServed why
  end.

Definition effective_read_header_timeout (d : Duration) : Duration := if d =? 0 then 10 * Second else d.

(** [ClientProxy.ListenAndServe]: a bind that fails is an end of the goroutine. *)
Definition clientRun (c : ClientProxy) (w : waited) : ran string :=
  match clientPreflight c with
  | (Some why, _) => NotServed why
  | (None, _) => let '(r, after) := await w in Served r after
  end.

(** ** The dial of the bridge *)

Inductive dialed := DialFailed (msg : string) | HandshakeFailed (msg : string) | Sealed (key : bytes) (serverName : string) (verify : bool).

Record bridge := { BGateway : string; BKey : bytes; BInsecure : bool }.

Definition gatewayHost (b : bridge) : string :=
  match Net.SplitHostPort (to_bytes (BGateway b)) with Some (h, _) => of_bytes h | None => BGateway b end.

(** The dial and the handshake by their errors; the second component says whether
    the raw connection is left open. *)
Definition DialTLSContext (b : bridge) (dialErr handshakeErr : option string) : dialed * bool :=
  match dialErr with
  | Some e => (DialFailed e, false)
  | None =>
      match handshakeErr with
      | Some e => (HandshakeFailed e, false)
      | None => (Sealed (BKey b) (gatewayHost b) (negb (BInsecure b)), true)
      end
  end.

(** ** The loops of the factories *)

(** The loop of the AES factory: connections accepted so far, those still open, the
    tamper forwarders still running. *)
Record acceptor := { accepted : list nat; openConns : list nat; forwarders : list nat }.

(** One pass after [Accept] gave connection [c]: wrap it, start its forwarder, close
    it, retire the forwarder. *)
Definition accept_one (a : acceptor) (c : nat) : acceptor :=
  let a := {| accepted := accepted a ++ [c]; openConns := c :: openConns a; forwarders := c :: forwarders a |} in
  let a := {| accepted := accepted a; openConns := remove Nat.eq_dec c (openConns a); forwarders := forwarders a |} in
  {| accepted := accepted a; openConns := openConns a; forwarders := remove Nat.eq_dec c (forwarders a) |}.

(** The connections until [Accept] fails, by the closing of the listener or not;
    the loop then returns nil. *)
Definition aesServeLoop (conns : list nat) (a : acceptor) : option string * acceptor := (None, foldl accept_one a conns).

(** The loop of the SOCKS5 factory classifies how the library's [Serve] ended. *)
Inductive socksEnd := NetErrClosed | SocksErr (msg : string).
Definition socksServeLoop (e : socksEnd) (cancelled : bool) : option string :=
  match e with NetErrClosed => None | SocksErr m => if cancelled then None else Some m end.

(** ** Lemmas *)

(** Nothing of a server is left. *)
Definition gone (srv : httpServer) : Prop := busy srv = [] /\ listening srv = false /\ serving srv = false.

(** Shutdown with the package's budget: nothing is left, and the error is the forced
    close when a connection outlives the budget, else what shutdown or the serve
    goroutine report. *)
Lemma shutdown_result srv listenerErr serveErr r after :
  shutdownHTTPServer srv listenerErr serveErr = (r, after) ->
  gone after /\
  r = (if decide (Exists (fun d => shutdownGrace < d) (busy srv)) then Some (DeadlineForced shutdownGrace)
       else match listenerErr with Some m => Some (OtherShut m) | None => ServeErr <$> serveErr end).
Proof.
  unfold shutdownHTTPServer, shutdownHTTPServerWithin, Shutdown. set (stuck := filter _ (busy srv)).
  assert (Hl : stuck = [] <-> ~ Exists (fun d => shutdownGrace < d) (busy srv)).
  { unfold stuck. rewrite <- Forall_Exists_neg. induction (busy srv) as [|d l IH]; [split; [constructor|done]|].
    rewrite Forall_cons. destruct (decide (shutdownGrace < d)) as [Hd|Hd].
    - rewrite filter_cons_True by done. split; [done|intros [? _]; contradiction].
    - rewrite filter_cons_False by done. rewrite IH. split; [intros ?; by split|by intros [_ ?]]. }
  destruct (decide (Exists _ _)) as [He|He].
  - rewrite bool_decide_eq_false_2 by (intros Hs; by apply Hl in Hs). cbn. by intros [= <- <-].
  - rewrite bool_decide_eq_true_2 by (by apply Hl). cbn. assert (Hs : stuck = []) by (by apply Hl).
    destruct listenerErr, serveErr; intros [= <- <-]; unfold gone; cbn; by rewrite Hs.
Qed.

(** ** Theorems *)

(** Cancelling any of the four servers leaves nothing running: no connection, no
    listener, no serve goroutine.  The call comes back with an error exactly when a
    connection had to be cut after fifteen seconds, or shutdown or the goroutine
    failed; the ordinary end of [Serve] is no error. *)
Theorem cancelled_server_is_gone srv listenerErr e :
  let w := ContextDone srv listenerErr e in
  let clean := Forall (fun d => d <= 15 * Second) (busy srv) /\ listenerErr = None /\ e = ErrServerClosed in
  (forall s addr bound r after s', SServe s addr bound w = (Served r after, s') -> gone after /\ (r = None <-> clean)) /\
  (forall s addr bound r after, SServeWrapped s addr bound w = Served r after -> gone after /\ (r = None <-> clean)) /\
  (forall bound r after, bridgeRun bound w = Served r after -> gone after /\ (r = None <-> clean)) /\
  (forall c r after, clientRun c w = Served r after -> gone after /\ (r = None <-> clean)).
Proof.
  intros w clean. assert (H : forall r after, await w = (r, after) -> gone after /\ (r = None <-> clean)).
  { intros r after Ha. apply shutdown_result in Ha as [Hg ->]. split; [done|]. unfold clean. change (15 * Second) with shutdownGrace.
    assert (Hf : Forall (fun d => d <= shutdownGrace) (busy srv) <-> ~ Exists (fun d => shutdownGrace < d) (busy srv)).
    { rewrite <- Forall_Exists_neg. split; intros Hx; (eapply Forall_impl; [exact Hx|]); cbn; intros; lia. }
    rewrite Hf. destruct (decide _) as [Hd|Hd]; [split; [done|by intros []]|].
    destruct listenerErr; [split; [done|by intros (_ & ? & _)]|]. destruct e; cbn; split; try done. by intros (_ & _ & ?). }
  split_and!.
  - intros s addr bound r after s'. unfold SServe. destruct (GatewayServer.Serve s addr bound); [|done]. destruct (await w) as [r0 a0] eqn:E.
    intros [= <- <- _]. by apply H.
  - intros s addr bound r after. unfold SServeWrapped. destruct (GatewayCmd.ServeWrapped s addr bound); try done; destruct (await w) as [r0 a0] eqn:E; intros [= <- <-]; by apply H.
  - intros bound r after. unfold bridgeRun. destruct (bridgeServe bound); try done. destruct (await w) as [r0 a0] eqn:E. intros [= <- <-]. by apply H.
  - intros c r after. unfold clientRun. destruct (clientPreflight c) as [[?|] ?]; [done|]. destruct (await w) as [r0 a0] eqn:E. intros [= <- <-]. by apply H.
Qed.

(** The loop of the AES factory answers nobody: every connection it accepts is
    closed in the same pass, and no forwarder outlives its connection. *)
Theorem aes_loop_closes_everything conns a :
  openConns a = [] -> forwarders a = [] ->
  let '(r, a') := aesServeLoop conns a in
  r = None /\ accepted a' = accepted a ++ conns /\ openConns a' = [] /\ forwarders a' = [].
Proof.
  intros Ho Hf. cbn. split; [done|]. revert a Ho Hf. induction conns as [|c conns IH]; intros a Ho Hf; [by rewrite app_nil_r|]. cbn [foldl].
  destruct (IH (accept_one a c)) as (H1 & H2 & H3).
  - unfold accept_one. cbn. rewrite Ho. by destruct (Nat.eq_dec c c).
  - unfold accept_one. cbn. rewrite Hf. by destruct (Nat.eq_dec c c).
  - rewrite H1. split_and!; [|done|done]. cbn. by rewrite <- app_assoc.
Qed.

(** The bridge's dial hands out a connection only sealed under its key and verified
    for the gateway's own host unless told otherwise, and leaves no raw connection
    open when it fails. *)
Theorem bridge_dial_exact b dialErr handshakeErr :
  let '(r, leftOpen) := DialTLSContext b dialErr handshakeErr in
  (leftOpen = true <-> exists k h v, r = Sealed k h v) /\
  (forall k h v, r = Sealed k h v -> dialErr = None /\ handshakeErr = None /\ k = BKey b /\ v = negb (BInsecure b) /\
     forall host port, Net.SplitHostPort (to_bytes (BGateway b)) = Some (host, port) -> to_bytes h = host).
Proof.
  unfold DialTLSContext. destruct dialErr as [e|]; [split; [split; [done|by intros (? & ? & ? & ?)]|done]|].
  destruct handshakeErr as [e|]; [split; [split; [done|by intros (? & ? & ? & ?)]|done]|].
  split; [split; [by eexists _, _, _|done]|]. intros k h v [= <- <- <-]. split_and!; try done.
  intros host port Hs. unfold gatewayHost. by rewrite Hs, to_of_bytes.
Qed.

(** ** Witnesses *)

Lemma cancelled_server_is_gone_witness :
  let w := ContextDone {| busy := [Second; 20 * Second]; listening := true; serving := true |} None ErrServerClosed in
  exists r after, bridgeRun "127.0.0.1:8788" w = Served r after /\ gone after /\ r <> None.
Proof.
  intros w. destruct (bridgeRun "127.0.0.1:8788" w) as [why|r after] eqn:E; [vm_compute in E; discriminate E|].
  exists r, after. split; [done|].
  destruct (cancelled_server_is_gone {| busy := [Second; 20 * Second]; listening := true; serving := true |} None ErrServerClosed) as (_ & _ & Hb & _).
  destruct (Hb _ _ _ E) as [Hg Hr]. split; [done|]. intros Hn. apply Hr in Hn as [Hf _]. apply Forall_cons in Hf as [_ Hf]. apply Forall_cons in Hf as [Hf _].
  vm_compute in Hf. by apply Hf.
Defined.

Lemma aes_loop_closes_everything_witness :
  (aesServeLoop [1; 2; 3]%nat {| accepted := []; openConns := []; forwarders := [] |}).2 = {| accepted := [1; 2; 3]%nat; openConns := []; forwarders := [] |}.
Proof.
  pose proof (aes_loop_closes_everything [1; 2; 3]%nat {| accepted := []; openConns := []; forwarders := [] |} eq_refl eq_refl) as H.
  destruct (aesServeLoop _ _) as [r [acc op fw]]. cbn in H. destruct H as (_ & -> & -> & ->). reflexivity.
Defined.
End Serving.
