(* ===== verification/RouterConfig.v ===== *)
(** * The router's configuration

    Models [src/internal/config/config.go] and [diagaddr.go]: the configuration
    records, the defaulting and validation [LoadConfig] runs on a decoded file,
    [ResolvedCircuit], [ToRuntime] and the diagnostic listen addresses.  Reading
    the file and decoding the YAML are outside ([LoadConfig] starts from the
    decoded record); the process environment is [lookupEnv] and [url.Parse]
    with [Hostname] is [hostname_of]. *)

From Stdlib Require Import ZArith Lia Ascii String.
From stdpp Require Import base option list gmap strings.
From S2P Require Import Prelude GoStrings Net.

Module RouterConfig.
Import GoStrings.

(** ** Records *)

Record SmartRouteConfig := { SmEnabled : bool; PolicyFile : string }.

Record FairShareConfig := {
  FsEnabled : bool;
  MaxRequestsPerUser : Z;
  FsWindow : Duration;
  FsBurst : Z;
}.

Record CircuitConfig := { CThreshold : Z; CCooldown : Duration }.

Record Defaults := {
  MaxQueueDepth : Z;
  MaxConcurrency : Z;
  RequestTimeout : Duration;
  KeyCooldown : Duration;
  MaxBodySize : Z;
  BodyReadTimeout : Duration;
  DCircuit : CircuitConfig;
}.

Record LiveProbeConfig := { LInterval : Duration; LBurst : Z }.

Record HealthConfig := {
  HInterval : Duration;
  HTimeout : Duration;
  HPath : string;
  UnhealthyThreshold : Z;
  HealthyThreshold : Z;
  LiveProbe : LiveProbeConfig;
}.

Record TunnelConfig := {
  TEnabled : bool;
  THost : string;
  TPort : Z;
  TUser : string;
  TIdentityFile : string;
  TLocalPort : Z;
  TConnectTimeout : Duration;
}.

(** [RequestDefaults] maps a body key to the raw JSON of its default. *)
Record NodeConfig := {
  Name : string;
  URL : string;
  Tier : string;
  Enabled : string;
  Weight : Z;
  Models : list string;
  APIKey : string;
  APIKeys : list string;
  Workloads : list string;
  PIILocal : bool;
  Vendor : string;
  APIKeyEnv : string;
  EnabledVendor : string;
  ModelRewrite : gmap string string;
  RequestDefaults : gmap string string;
  QuotaDetectRegex : string;
  Priority : Z;
  NCircuit : CircuitConfig;
  AuthHeader : string;
  HealthCheckDisabled : bool;
  NTunnel : TunnelConfig;
}.

Record Config := {
  Listen : string;
  PIILocalRule : string;
  MetricsAddr : string;
  DebugAddr : string;
  LogLevel : string;
  AuthToken : string;
  CustomerTokens : list string;
  SlackWebhookURL : string;
  SlackChannel : string;
  CDefaults : Defaults;
  HealthCheck : HealthConfig;
  FairShare : FairShareConfig;
  Nodes : list NodeConfig;
  SmartRoute : SmartRouteConfig;
}.

(** ** Constants *)

Definition DefaultCircuitThreshold : Z := 5.
Definition DefaultCircuitCooldown : Duration := 30 * Second.
Definition DefaultBodyReadTimeout : Duration := 15 * Second.
Definition LoopbackHost : string := "127.0.0.1".
Definition DefaultMetricsAddr : string := LoopbackHost ++ ":9091".
Definition ForbiddenUpstreamHostSuffixes : list string := ["zende.sk"; "zendesk.com"].

(** ** Diagnostic listeners *)

(** [net.JoinHostPort]. *)
Definition JoinHostPort (host port : string) : string :=
  if bool_decide (is_Some (Net.index_byte ":" (to_bytes host))) ||
     bool_decide (is_Some (Net.index_byte "%" (to_bytes host)))
  then "[" ++ host ++ "]:" ++ port
  else host ++ ":" ++ port.

Definition DiagnosticListenAddr (addr : string) : string :=
  if addr =s "" then ""
  else
    match Net.SplitHostPort (to_bytes addr) with
    | None => addr
    | Some (host, port) =>
        if negb (of_bytes host =s "") then addr
        else JoinHostPort LoopbackHost (of_bytes port)
    end.

(** ** Per-node resolution *)

Definition ResolvedCircuit (n : NodeConfig) (def : Defaults) : Z * Duration :=
  let threshold := CThreshold (DCircuit def) in
  let threshold := if 0 <? CThreshold (NCircuit n) then CThreshold (NCircuit n) else threshold in
  let threshold := if threshold <=? 0 then DefaultCircuitThreshold else threshold in
  let cooldown := CCooldown (DCircuit def) in
  let cooldown := if 0 <? CCooldown (NCircuit n) then CCooldown (NCircuit n) else cooldown in
  let cooldown := if cooldown <=? 0 then DefaultCircuitCooldown else cooldown in
  (threshold, cooldown).

Record SSHTunnelRuntime := {
  RHost : string;
  RPort : Z;
  RUser : string;
  RIdentityFile : string;
  RLocalPort : Z;
  RConnectTimeout : Duration;
}.

Inductive tunnelError := ErrTunnelDisabled | errTunnelMissingField (field : string).

Definition ToRuntime (t : TunnelConfig) : tunnelError + SSHTunnelRuntime :=
  if negb (TEnabled t) then inl ErrTunnelDisabled
  else if (THost t =s "") || (TUser t =s "") || (TIdentityFile t =s "")
  then inl (errTunnelMissingField "host/user/identity_file")
  else if (TLocalPort t <=? 0) || (65535 <? TLocalPort t)
  then inl (errTunnelMissingField "local_port")
  else
    let ct := TConnectTimeout t in
    let ct := if ct =? 0 then 10 * Second else ct in
    inr {| RHost := THost t; RPort := TPort t; RUser := TUser t;
           RIdentityFile := TIdentityFile t; RLocalPort := TLocalPort t;
           RConnectTimeout := ct |}.

(** ** Validation *)

Inductive configError :=
| ErrBodyReadTimeout
| ErrLiveProbeInterval
| ErrLiveProbeBurst
| ErrNoNodes
| ErrForbiddenHost (node host suffix : string)
| ErrAuthHeaderAuthorization (node : string)
| ErrAuthHeaderSyntax (node : string) (c : ascii)
| ErrAuthHeaderKey (node : string)
| ErrWorkload (node w : string).

Definition validateWorkloads (n : NodeConfig) : option configError :=
  match list_find (fun w => negb ((w =s "internal") || (w =s "customer")) = true) (Workloads n) with
  | Some (_, w) => Some (ErrWorkload (Name n) w)
  | None => None
  end.

Definition auth_header_char (c : ascii) : bool :=
  is_lower c || is_upper c || is_digit c || Ascii.eqb c "-".

(** A usable key: the single key, or any of the pool. *)
Definition hasKey (n : NodeConfig) : bool :=
  negb (APIKey n =s "") || existsb (fun k => negb (k =s "")) (APIKeys n).

Definition validateAuthHeader (n : NodeConfig) : option configError :=
  if AuthHeader n =s "" then None
  else if EqualFold (AuthHeader n) "Authorization" then Some (ErrAuthHeaderAuthorization (Name n))
  else
    match list_find (fun c => auth_header_char c = false) (to_bytes (AuthHeader n)) with
    | Some (_, c) => Some (ErrAuthHeaderSyntax (Name n) c)
    | None => if negb (hasKey n) then Some (ErrAuthHeaderKey (Name n)) else None
    end.

Section env.

(** [os.LookupEnv], and the host name of a URL that parses. *)
Context (lookupEnv : string -> option string) (hostname_of : string -> option string).

Definition forbidden (host suffix : string) : bool :=
  (host =s suffix) || HasSuffix host ("." ++ suffix).

Definition ValidateUpstreamURL (nodeName rawURL : string) : option configError :=
  if rawURL =s "" then None
  else
    match hostname_of rawURL with
    | None => None
    | Some h =>
        let host := ToLower h in
        if host =s "" then None
        else
          match list_find (fun s => forbidden host s = true) ForbiddenUpstreamHostSuffixes with
          | Some (_, suffix) => Some (ErrForbiddenHost nodeName host suffix)
          | None => None
          end
    end.

Definition ExpandEnvValue (s : string) : string :=
  if negb (HasPrefix s "${") || negb (HasSuffix s "}") then s
  else
    let key := substring 2 (String.length s - 3) s in
    default "" (lookupEnv key).

(** ** LoadConfig *)

Definition applyDefaults (d : Defaults) : Defaults :=
  {| MaxQueueDepth := if MaxQueueDepth d <=? 0 then 8 else MaxQueueDepth d;
     MaxConcurrency := if MaxConcurrency d <=? 0 then 2 else MaxConcurrency d;
     RequestTimeout := if RequestTimeout d <=? 0 then 120 * Second else RequestTimeout d;
     KeyCooldown := (if KeyCooldown d <? 0 then 0
                     else if KeyCooldown d =? 0 then 5 * Minute else KeyCooldown d);
     MaxBodySize := if MaxBodySize d <=? 0 then 2 ^ 20 else MaxBodySize d;
     BodyReadTimeout := (if BodyReadTimeout d =? 0 then DefaultBodyReadTimeout else BodyReadTimeout d);
     DCircuit := {| CThreshold := (if CThreshold (DCircuit d) <=? 0 then DefaultCircuitThreshold
                                   else CThreshold (DCircuit d));
                    CCooldown := (if CCooldown (DCircuit d) <=? 0 then DefaultCircuitCooldown
                                  else CCooldown (DCircuit d)) |} |}.

Definition applyHealth (h : HealthConfig) : HealthConfig :=
  {| HInterval := if HInterval h <=? 0 then 15 * Second else HInterval h;
     HTimeout := if HTimeout h <=? 0 then 5 * Second else HTimeout h;
     HPath := if HPath h =s "" then "/health" else HPath h;
     UnhealthyThreshold := if UnhealthyThreshold h <=? 0 then 3 else UnhealthyThreshold h;
     HealthyThreshold := if HealthyThreshold h <=? 0 then 1 else HealthyThreshold h;
     LiveProbe := LiveProbe h |}.

Definition applyFairShare (f : FairShareConfig) : FairShareConfig :=
  if FsEnabled f then
    {| FsEnabled := true;
       MaxRequestsPerUser := if MaxRequestsPerUser f <=? 0 then 10 else MaxRequestsPerUser f;
       FsWindow := if FsWindow f <=? 0 then 60 * Second else FsWindow f;
       FsBurst := if FsBurst f <=? 0 then 3 else FsBurst f |}
  else f.

Definition expandNode (n : NodeConfig) : NodeConfig :=
  {| Name := Name n; URL := URL n; Tier := Tier n; Enabled := ExpandEnvValue (Enabled n);
     Weight := Weight n; Models := Models n; APIKey := ExpandEnvValue (APIKey n);
     APIKeys := ExpandEnvValue <$> APIKeys n; Workloads := Workloads n; PIILocal := PIILocal n;
     Vendor := Vendor n; APIKeyEnv := APIKeyEnv n; EnabledVendor := EnabledVendor n;
     ModelRewrite := ModelRewrite n; RequestDefaults := RequestDefaults n;
     QuotaDetectRegex := QuotaDetectRegex n; Priority := Priority n; NCircuit := NCircuit n;
     AuthHeader := AuthHeader n; HealthCheckDisabled := HealthCheckDisabled n;
     NTunnel := NTunnel n |}.

(** One iteration of the node loop. *)
Definition loadNode (n : NodeConfig) : configError + NodeConfig :=
  let n := expandNode n in
  match ValidateUpstreamURL (Name n) (URL n) with
  | Some e => inl e
  | None =>
      match validateAuthHeader n with
      | Some e => inl e
      | None =>
          match validateWorkloads n with
          | Some e => inl e
          | None => inr n
          end
      end
  end.

Fixpoint loadNodes (ns : list NodeConfig) : configError + list NodeConfig :=
  match ns with
  | [] => inr []
  | n :: ns' =>
      match loadNode n with
      | inl e => inl e
      | inr n' =>
          match loadNodes ns' with
          | inl e => inl e
          | inr out => inr (n' :: out)
          end
      end
  end.

Definition LoadConfig (cfg : Config) : configError + Config :=
  if BodyReadTimeout (CDefaults cfg) <? 0 then inl ErrBodyReadTimeout
  else if LInterval (LiveProbe (HealthCheck cfg)) <? 0 then inl ErrLiveProbeInterval
  else if LBurst (LiveProbe (HealthCheck cfg)) <? 0 then inl ErrLiveProbeBurst
  else if Nat.eqb (length (Nodes cfg)) 0 then inl ErrNoNodes
  else
    match loadNodes (Nodes cfg) with
    | inl e => inl e
    | inr nodes =>
        inr {| Listen := if Listen cfg =s "" then ":8080" else Listen cfg;
               PIILocalRule := PIILocalRule cfg;
               MetricsAddr :=
                 DiagnosticListenAddr
                   (if MetricsAddr cfg =s "" then DefaultMetricsAddr else MetricsAddr cfg);
               DebugAddr := DiagnosticListenAddr (DebugAddr cfg);
               LogLevel := LogLevel cfg;
               AuthToken := ExpandEnvValue (AuthToken cfg);
               CustomerTokens := CustomerTokens cfg;
               SlackWebhookURL := SlackWebhookURL cfg;
               SlackChannel := SlackChannel cfg;
               CDefaults := applyDefaults (CDefaults cfg);
               HealthCheck := applyHealth (HealthCheck cfg);
               FairShare := applyFairShare (FairShare cfg);
               Nodes := nodes;
               SmartRoute := SmartRoute cfg |}
    end.

(** ** What a loaded configuration promises *)

Record defaults_ok (d : Defaults) : Prop := {
  ok_queue : 0 < MaxQueueDepth d;
  ok_concurrency : 0 < MaxConcurrency d;
  ok_timeout : 0 < RequestTimeout d;
  ok_keycooldown : 0 <= KeyCooldown d;
  ok_body : 0 < MaxBodySize d;
  ok_bodyread : 0 < BodyReadTimeout d;
  ok_threshold : 0 < CThreshold (DCircuit d);
  ok_cooldown : 0 < CCooldown (DCircuit d);
}.

Record health_ok (h : HealthConfig) : Prop := {
  ok_interval : 0 < HInterval h;
  ok_htimeout : 0 < HTimeout h;
  ok_path : HPath h <> "";
  ok_unhealthy : 0 < UnhealthyThreshold h;
  ok_healthy : 0 < HealthyThreshold h;
  ok_live : 0 <= LInterval (LiveProbe h) /\ 0 <= LBurst (LiveProbe h);
}.

Record node_ok (n : NodeConfig) : Prop := {
  ok_auth_header : AuthHeader n <> "" ->
    ToLower (AuthHeader n) <> "authorization" /\
    Forall (fun c => auth_header_char c = true) (to_bytes (AuthHeader n)) /\
    (APIKey n <> "" \/ exists k, k ∈ APIKeys n /\ k <> "");
  ok_workloads : Forall (fun w => w = "internal" \/ w = "customer") (Workloads n);
  ok_host : forall h suffix,
    URL n <> "" -> hostname_of (URL n) = Some h -> suffix ∈ ForbiddenUpstreamHostSuffixes ->
    ToLower h <> suffix /\ HasSuffix (ToLower h) ("." ++ suffix) = false;
}.

Lemma applyDefaults_ok d : 0 <= BodyReadTimeout d -> defaults_ok (applyDefaults d).
Proof.
  intros Hb. split; unfold applyDefaults; simpl;
    unfold DefaultBodyReadTimeout, DefaultCircuitThreshold, DefaultCircuitCooldown, Minute, Second; zbool; lia.
Qed.

Lemma applyHealth_ok h :
  0 <= LInterval (LiveProbe h) -> 0 <= LBurst (LiveProbe h) -> health_ok (applyHealth h).
Proof. intros Hi Hl. split; unfold applyHealth; simpl; unfold Second; zbool; try lia; done. Qed.

Lemma validateWorkloads_ok n :
  validateWorkloads n = None -> Forall (fun w => w = "internal" \/ w = "customer") (Workloads n).
Proof.
  unfold validateWorkloads. case_match eqn:E; [by destruct p|intros _].
  apply list_find_None in E. eapply Forall_impl; [exact E|].
  intros w Hw. simpl in Hw. zbool; subst; auto. by destruct Hw.
Qed.

Lemma hasKey_ok n : hasKey n = true -> APIKey n <> "" \/ exists k, k ∈ APIKeys n /\ k <> "".
Proof.
  unfold hasKey. rewrite orb_true_iff. intros [H|H]; [left; by zbool|right].
  apply existsb_exists in H as (k & Hin & Hk). exists k.
  split; [by apply list_elem_of_In|by zbool].
Qed.

Lemma validateAuthHeader_ok n :
  validateAuthHeader n = None -> AuthHeader n <> "" ->
  ToLower (AuthHeader n) <> "authorization" /\
  Forall (fun c => auth_header_char c = true) (to_bytes (AuthHeader n)) /\
  (APIKey n <> "" \/ exists k, k ∈ APIKeys n /\ k <> "").
Proof.
  unfold validateAuthHeader. intros H Hne. destruct (String.eqb_spec (AuthHeader n) ""); [done|].
  destruct (EqualFold _ _) eqn:Ef; [done|]. case_match eqn:E; [by destruct p|].
  destruct (hasKey n) eqn:Hk; [|done].
  apply list_find_None in E. split; [|split].
  - intros Heq. enough (EqualFold (AuthHeader n) "Authorization" = true) by congruence.
    by apply EqualFold_spec.
  - eapply Forall_impl; [exact E|]. intros c. simpl. by destruct (auth_header_char c).
  - by apply hasKey_ok.
Qed.

Lemma ValidateUpstreamURL_ok name u h suffix :
  ValidateUpstreamURL name u = None -> u <> "" -> hostname_of u = Some h ->
  suffix ∈ ForbiddenUpstreamHostSuffixes ->
  ToLower h <> suffix /\ HasSuffix (ToLower h) ("." ++ suffix) = false.
Proof.
  unfold ValidateUpstreamURL. intros H Hu Hh Hin.
  destruct (String.eqb_spec u ""); [done|]. rewrite Hh in H.
  destruct (String.eqb_spec (ToLower h) "") as [He|].
  - rewrite He. unfold ForbiddenUpstreamHostSuffixes in Hin. set_unfold in Hin.
    by destruct Hin as [-> | [-> | []]].
  - case_match eqn:E; [by destruct p|]. apply list_find_None in E.
    rewrite Forall_forall in E. specialize (E _ Hin). simpl in E. unfold forbidden in E.
    destruct (String.eqb_spec (ToLower h) suffix); [by destruct E|].
    split; [done|]. simpl in E. by destruct (HasSuffix _ _).
Qed.

Lemma loadNode_ok n n' : loadNode n = inr n' -> n' = expandNode n /\ node_ok n'.
Proof.
  unfold loadNode. destruct (ValidateUpstreamURL _ _) eqn:E1; [done|].
  destruct (validateAuthHeader _) eqn:E2; [done|]. destruct (validateWorkloads _) eqn:E3; [done|].
  intros [= <-]. split; [done|]. split.
  - by apply validateAuthHeader_ok.
  - by apply validateWorkloads_ok.
  - intros h suffix. by apply ValidateUpstreamURL_ok with (name := Name (expandNode n)).
Qed.

Lemma loadNodes_ok ns ns' : loadNodes ns = inr ns' -> ns' = expandNode <$> ns /\ Forall node_ok ns'.
Proof.
  revert ns'. induction ns as [|n ns IH]; simpl; intros ns'; [by intros [= <-]|].
  destruct (loadNode n) eqn:E; [done|]. destruct (loadNodes ns) eqn:E'; [done|].
  intros [= <-]. apply loadNode_ok in E as [-> ?]. destruct (IH _ eq_refl) as [-> ?].
  split; [done|by constructor].
Qed.

(** A configuration that loads is safe to run: every limit, timeout and
    threshold is positive, every node's gateway credential goes out in a header
    other than Authorization and has a key behind it, every workload class is a
    known one, no node points at a forbidden host or at a subdomain of one, and
    the nodes are the configured ones in order with their secrets expanded. *)
Theorem load_config_sound cfg c :
  LoadConfig cfg = inr c ->
  defaults_ok (CDefaults c) /\ health_ok (HealthCheck c) /\
  Nodes c <> [] /\ Nodes c = expandNode <$> Nodes cfg /\ Forall node_ok (Nodes c).
Proof.
  unfold LoadConfig. destruct (Z.ltb_spec (BodyReadTimeout (CDefaults cfg)) 0); [done|].
  destruct (Z.ltb_spec (LInterval (LiveProbe (HealthCheck cfg))) 0); [done|].
  destruct (Z.ltb_spec (LBurst (LiveProbe (HealthCheck cfg))) 0); [done|].
  destruct (Nat.eqb_spec (length (Nodes cfg)) 0); [done|].
  destruct (loadNodes (Nodes cfg)) as [err|ns] eqn:E; [done|]. intros [= <-]; simpl.
  apply loadNodes_ok in E as [-> Hok]. split; [by apply applyDefaults_ok|].
  split; [by apply applyHealth_ok|]. split; [|done]. by destruct (Nodes cfg).
Qed.

End env.

(** ** Diagnostic listeners *)

Lemma last_index_byte_drop c s i :
  Net.last_index_byte c s = Some i -> Net.last_index_byte c (drop (S i) s) = None.
Proof.
  revert i. induction s as [|x s IH]; simpl; intros i; [done|].
  destruct (Net.last_index_byte c s) eqn:E.
  - intros [= <-]. by apply IH.
  - destruct (Ascii.eqb c x); [|done]. intros [= <-]. by rewrite drop_0.
Qed.

Lemma index_byte_app_none c a b :
  Net.index_byte c a = None -> Net.index_byte c b = None -> Net.index_byte c (a ++ b) = None.
Proof.
  unfold Net.index_byte. rewrite !fmap_None, !list_find_None. intros Ha Hb. by apply Forall_app.
Qed.

Lemma index_byte_drop_none c s n m :
  (n <= m)%nat -> ~ is_Some (Net.index_byte c (drop n s)) -> Net.index_byte c (drop m s) = None.
Proof.
  intros Hle Hc. apply eq_None_not_Some in Hc. unfold Net.index_byte in *.
  rewrite !fmap_None, !list_find_None in *. replace m with (n + (m - n))%nat by lia.
  rewrite <- drop_drop. by apply Forall_drop.
Qed.

(** The port of an address that splits has no colon and no bracket. *)
Lemma SplitHostPort_port hp host port :
  Net.SplitHostPort hp = Some (host, port) ->
  Net.last_index_byte ":" port = None /\
  Net.index_byte "[" port = None /\ Net.index_byte "]" port = None.
Proof.
  unfold Net.SplitHostPort. destruct (Net.last_index_byte ":" hp) as [i|] eqn:E; [|done].
  intros H.
  assert (Hp : port = drop (S i) hp /\ exists j k, (j <= S i)%nat /\ (k <= S i)%nat /\
    ~ is_Some (Net.index_byte "[" (drop j hp)) /\ ~ is_Some (Net.index_byte "]" (drop k hp))).
  { repeat (case_match; try done); repeat case_bool_decide; simplify_eq; split; try done.
    - match goal with H : (_ =? i)%nat = true |- _ => apply Nat.eqb_eq in H end.
      exists 1%nat, (S n). repeat split; auto; lia.
    - exists 0%nat, 0%nat. repeat split; auto; lia. }
  destruct Hp as (-> & j & k & Hj & Hk & H1 & H2).
  split; [by apply last_index_byte_drop|].
  split; [exact (index_byte_drop_none _ _ _ _ Hj H1)|exact (index_byte_drop_none _ _ _ _ Hk H2)].
Qed.

(** The address of a diagnostic listener never leaves the interface to a missing
    host: an address that splits has a non-empty host, and an address that named
    a host, or that does not split, is the operator's own. *)
Theorem diagnostic_never_hostless addr host port :
  Net.SplitHostPort (to_bytes (DiagnosticListenAddr addr)) = Some (host, port) ->
  host <> [] /\
  (DiagnosticListenAddr addr = addr \/ host = to_bytes LoopbackHost).
Proof.
  unfold DiagnosticListenAddr. destruct (String.eqb_spec addr "") as [->|]; [done|].
  destruct (Net.SplitHostPort (to_bytes addr)) as [[h p]|] eqn:E; [|by rewrite E].
  destruct (String.eqb_spec (of_bytes h) "") as [Hh|Hh]; cbn [negb].
  - apply SplitHostPort_port in E as (Hc & Ho & Hb).
    change (JoinHostPort LoopbackHost (of_bytes p)) with (LoopbackHost ++ ":" ++ of_bytes p)%string.
    rewrite !to_bytes_app, to_of_bytes. 
    change (to_bytes ":" ++ p) with (":"%char :: p). unfold Net.SplitHostPort. rewrite (Net.last_index_byte_app ":" (to_bytes LoopbackHost) p Hc).
    rewrite bool_decide_eq_false_2 by done. rewrite take_app_length.
    rewrite (bool_decide_eq_false_2 (is_Some (Net.index_byte ":" _))) by (by apply eq_None_not_Some).
    rewrite !drop_0. rewrite !bool_decide_eq_false_2.
    + intros [= <- _]. split; [done|by right].
    + apply eq_None_not_Some. apply index_byte_app_none; [done|]. by apply (index_byte_app_none _ [_]).
    + apply eq_None_not_Some. apply index_byte_app_none; [done|]. by apply (index_byte_app_none _ [_]).
  - rewrite E. intros [= <- <-]. split; [|by left]. intros ->. done.
Qed.

(** ** Witnesses *)

Definition ex_tunnel : TunnelConfig :=
  {| TEnabled := false; THost := ""; TPort := 0; TUser := ""; TIdentityFile := "";
     TLocalPort := 0; TConnectTimeout := 0 |}.

Definition ex_node (name : string) (weight prio : Z) (workloads : list string) (pii : bool) : NodeConfig :=
  {| Name := name; URL := "http://10.0.0.5:8000"; Tier := "gpu"; Enabled := ""; Weight := weight;
     Models := ["m3"]; APIKey := "${NODE_KEY}"; APIKeys := ["k0"; "k1"]; Workloads := workloads;
     PIILocal := pii; Vendor := ""; APIKeyEnv := ""; EnabledVendor := ""; ModelRewrite := {[ "m3" := "qwen/qwen3" ]};
     RequestDefaults := {[ "reasoning_split" := "true" ]}; QuotaDetectRegex := ""; Priority := prio;
     NCircuit := {| CThreshold := 0; CCooldown := 0 |}; AuthHeader := "X-Gateway-Token";
     HealthCheckDisabled := false; NTunnel := ex_tunnel |}.

Definition ex_config (nodes : list NodeConfig) : Config :=
  {| Listen := ""; PIILocalRule := ""; MetricsAddr := ":9091"; DebugAddr := ""; LogLevel := "";
     AuthToken := "t"; CustomerTokens := []; SlackWebhookURL := ""; SlackChannel := "";
     CDefaults := {| MaxQueueDepth := 0; MaxConcurrency := 0; RequestTimeout := 0; KeyCooldown := 0;
                     MaxBodySize := 0; BodyReadTimeout := 0;
                     DCircuit := {| CThreshold := 0; CCooldown := 0 |} |};
     HealthCheck := {| HInterval := 0; HTimeout := 0; HPath := ""; UnhealthyThreshold := 0;
                       HealthyThreshold := 0; LiveProbe := {| LInterval := 0; LBurst := 0 |} |};
     FairShare := {| FsEnabled := false; MaxRequestsPerUser := 0; FsWindow := 0; FsBurst := 0 |};
     Nodes := nodes; SmartRoute := {| SmEnabled := false; PolicyFile := "" |} |}.

Definition ex_env (k : string) : option string := if k =s "NODE_KEY" then Some "sk-1" else None.
Definition ex_hostname (u : string) : option string :=
  if u =s "http://10.0.0.5:8000" then Some "10.0.0.5" else None.

Lemma load_config_sound_witness :
  exists c, LoadConfig ex_env ex_hostname (ex_config [ex_node "a" 2 1 ["internal"] false]) = inr c /\
    defaults_ok (CDefaults c) /\ Forall (node_ok ex_hostname) (Nodes c) /\
    (APIKey <$> Nodes c) = ["sk-1"].
Proof.
  eexists. split; [vm_compute; reflexivity|].
  destruct (load_config_sound ex_env ex_hostname (ex_config [ex_node "a" 2 1 ["internal"] false]) _
              ltac:(vm_compute; reflexivity)) as (Hd & _ & _ & _ & Hn).
  split; [exact Hd|]. split; [exact Hn|]. vm_compute. reflexivity.
Defined.

Lemma diagnostic_never_hostless_witness :
  DiagnosticListenAddr ":6060" = "127.0.0.1:6060" /\ to_bytes "127.0.0.1" <> [].
Proof.
  split; [vm_compute; reflexivity|].
  apply (diagnostic_never_hostless ":6060" (to_bytes "127.0.0.1") (to_bytes "6060")).
  vm_compute. reflexivity.
Defined.

End RouterConfig.
