(* ===== verification/RequestBody.v ===== *)
(** * Reading and rewriting request bodies

    Models, of [src/internal/router/helpers.go], [ExtractModel],
    [ApplyModelRewrite] and [MergeRequestDefaults]; of [src/main.go] the body a
    candidate is sent, and [usageTokensFromJSON], [extractUsageTokens].  A
    rewrite that assigns to a nil map panics: that is the outcome [RPanic]. *)

From Stdlib Require Import ZArith Lia Ascii String.
From stdpp Require Import base option list gmap strings.
From S2P Require Import Prelude GoStrings Utf8 Json JsonSpec JsonMap Net RouterConfig.

Module RequestBody.
Import GoStrings Utf8 Json JsonSpec JsonMap RouterConfig.

(** ** Operations *)

Definition ExtractModel (body : string) : string :=
  match parse (to_bytes body) with
  | Some (JObj ms) => of_bytes (default [] (string_field "model" ms))
  | _ => ""
  end.

(** [nil], new bytes, or an assignment to a nil map. *)
Inductive rewritten := Keep | Replace (b : string) | RPanic.

Definition ApplyModelRewrite (body : string) (rewrites : gmap string string) : rewritten :=
  if bool_decide (rewrites = ∅) then Keep
  else
    let from := ExtractModel body in
    match rewrites !! from with
    | None => Keep
    | Some to =>
        if (to =s "") || (to =s from) then Keep
        else
          match unmarshal_map (to_bytes body) with
          | DErr => Keep
          | DNil => RPanic
          | DVal payload =>
              Replace (of_bytes (marshal_map (put (to_bytes "model") (JStr (escape (to_bytes to))) payload)))
          end
    end.

(** One default: skipped when the key is empty or set; a value that is no JSON
    makes [Marshal] fail. *)
Definition merge_default (acc : gomap json * bool * bool) (kv : string * string) : gomap json * bool * bool :=
  let '(payload, changed, ok) := acc in
  if kv.1 =s "" then acc
  else if bool_decide (is_Some (get (to_bytes kv.1) payload)) then acc
  else match parse (to_bytes kv.2) with
       | Some v => (put (to_bytes kv.1) v payload, true, ok)
       | None => (put (to_bytes kv.1) JNull payload, true, false)
       end.

Definition MergeRequestDefaults (body : string) (defaults : gmap string string) : rewritten :=
  if bool_decide (defaults = ∅) then Keep
  else
    match unmarshal_map (to_bytes body) with
    | DErr => Keep
    | DNil => if existsb (fun kv => negb (kv.1 =s "")) (map_to_list defaults) then RPanic else Keep
    | DVal payload =>
        let '(payload, changed, ok) := foldl merge_default (payload, false, true) (map_to_list defaults) in
        if changed && ok then Replace (of_bytes (marshal_map payload)) else Keep
    end.

(** The body one candidate is sent; [None] is a panic. *)
Definition forwardBody (c : NodeConfig) (body : string) : option string :=
  let after r b := match r with Keep => Some b | Replace b' => Some b' | RPanic => None end in
  fwd ← after (ApplyModelRewrite body (ModelRewrite c)) body;
  after (MergeRequestDefaults fwd (RequestDefaults c)) fwd.

(** ** Token counts of a response *)

(** A number stored into an [int] field. *)
Definition int_value (n : number) : option Z :=
  match n_frac n, n_exp n with
  | None, None =>
      let v := (if n_neg n then -1 else 1) * dec_value (n_int n) in
      if (min_int64 <=? v) && (v <=? max_int64) then Some v else None
  | _, _ => None
  end.

Definition store_int (name : string) (v : json) (key : bytes) (old : Z) : option Z :=
  if selects name key then
    match v with JNum n => int_value n | JNull => Some old | _ => None end
  else Some old.

(** The members of [usage] into its two counters; [None] is a type error. *)
Definition store_usage (acc : option (Z * Z)) (kv : bytes * json) : option (Z * Z) :=
  '(p, c) ← acc;
  p ← store_int "prompt_tokens" kv.2 kv.1 p;
  c ← store_int "completion_tokens" kv.2 kv.1 c;
  Some (p, c).

(** [payload.Usage] through the members of the document: a second object is
    decoded into the struct the first one left. *)
Definition store_payload (acc : option (option (Z * Z))) (kv : bytes * json) : option (option (Z * Z)) :=
  u ← acc;
  if selects "usage" kv.1 then
    match kv.2 with
    | JNull => Some None
    | JObj ms => Some <$> foldl store_usage (Some (default (0, 0) u)) ms
    | _ => None
    end
  else Some u.

Definition usageTokensFromJSON (body : bytes) : option (Z * Z) :=
  match parse body with
  | Some (JObj ms) => foldl store_payload (Some None) ms ≫= id
  | _ => None
  end.

(** The payload of an SSE data line, if the line has one. *)
Definition data_payload (rawLine : bytes) : option bytes :=
  let line := trim_bytes rawLine in
  if has_prefix (to_bytes "data: ") line then
    let payload := trim_bytes (drop 6 line) in
    if bool_decide (payload = []) || bool_decide (payload = to_bytes "[DONE]") then None else Some payload
  else None.

Fixpoint first_usage (lines : list bytes) : option (Z * Z) :=
  match lines with
  | [] => None
  | l :: ls =>
      match data_payload l ≫= usageTokensFromJSON with
      | Some u => Some u
      | None => first_usage ls
      end
  end.

Definition extractUsageTokens (body : bytes) : option (Z * Z) :=
  match first_usage (Net.split (byte 10) body) with
  | Some u => Some u
  | None => usageTokensFromJSON body
  end.

(** ** What a rewrite preserves *)

(** The value a JSON text denotes: string contents decoded, numbers as written. *)
Fixpoint denote (v : json) : json :=
  match v with
  | JStr r => JStr (unquote r)
  | JArr l => JArr (List.map denote l)
  | JObj l => JObj (List.map (fun kv => (unquote kv.1, denote kv.2)) l)
  | v => v
  end.

Lemma denote_html v : lexed v -> denote (html_json v) = denote v.
Proof.
  induction v as [| | |r|l IH|l IH] using json_tree_ind; simpl; try done.
  - intros H. by rewrite unquote_html by (by apply str_ok_lit_iff).
  - rewrite Forall_foldr_and. intros H. f_equal. rewrite map_map. apply map_ext_in. intros x Hx%list_elem_of_In.
    rewrite Forall_forall in IH, H. auto.
  - rewrite Forall_foldr_and. intros H. f_equal. rewrite map_map. apply map_ext_in. intros x Hx%list_elem_of_In.
    rewrite Forall_forall in IH, H. destruct (H x Hx) as [Hk Hv]. simpl.
    rewrite unquote_html by (by apply str_ok_lit_iff). f_equal. auto.
Qed.

(** A document as the map of its members' values; [None] when it is no object. *)
Definition fields (body : string) : option (gomap json) :=
  match unmarshal_map (to_bytes body) with
  | DVal m => Some (List.map (fun kv => (kv.1, denote kv.2)) m)
  | _ => None
  end.

Definition field (k : string) (body : string) : option json := fields body ≫= get (to_bytes k).

Lemma field_marshal m k :
  sorted m -> Forall entry_ok m ->
  field k (of_bytes (marshal_map m)) = denote <$> get (to_bytes k) m.
Proof.
  intros Hs Hm. unfold field, fields. rewrite to_of_bytes, unmarshal_marshal by done. simpl.
  rewrite map_map. transitivity (get (to_bytes k) (List.map (fun kv => (kv.1, denote kv.2)) m)); [|apply get_map].
  f_equal. apply map_ext_in. intros x Hx%list_elem_of_In. rewrite Forall_forall in Hm.
  destruct (Hm x Hx) as (_ & Hl & _). simpl. by rewrite denote_html.
Qed.

Lemma field_map body m k : unmarshal_map (to_bytes body) = DVal m -> field k body = denote <$> get (to_bytes k) m.
Proof. unfold field, fields. intros ->. simpl. apply get_map. Qed.

(** ** Reading the model *)

Lemma lower_le c : code c <= code (lower_char c).
Proof. destruct c as [[] [] [] [] [] [] [] []]; vm_compute; discriminate. Qed.

(** A key that folds to a lower-case name without s and k is not after it. *)
Lemma fold_key_le name : forall k,
  Forall (fun c => c <> "s"%char /\ c <> "k"%char) name -> fold_key k = name -> bytes_ltb name k = false.
Proof.
  intros k. revert name. induction k as [k IH] using (induction_ltof1 _ (@length ascii)). unfold ltof in IH.
  intros name Hn H. destruct k as [|c k]; [by destruct name|]. unfold fold_key in H. rewrite walk_step in H.
  unfold fold_step in H. destruct (has_prefix [byte 197; byte 191] (c :: k)); [subst; by inversion Hn as [|? ? [? _] _]|].
  destruct (has_prefix [byte 226; byte 132; byte 170] (c :: k)); [subst; by inversion Hn as [|? ? [_ ?] _]|].
  cbn [fst snd app] in H. change (drop (Nat.max 1 1) (c :: k)) with k in H. subst name. inversion Hn as [|? ? _ Hn']; subst.
  simpl. destruct (Ascii.eqb_spec (lower_char c) c) as [E|E]; [by apply IH; [simpl; lia|done|]|].
  apply Z.ltb_ge. apply lower_le.
Qed.

Definition textual (v : json) : Prop := match v with JStr _ | JNull => True | _ => False end.

Lemma string_field_textual name ms : forall acc b,
  foldl (store_string name) acc ms = Some b -> Forall (fun kv => selects name kv.1 = true -> textual kv.2) ms.
Proof.
  induction ms as [|[k v] ms IH]; intros acc b H; [constructor|]. simpl in H. constructor; [|by eapply IH].
  simpl. intros Hs. unfold store_string in H. simpl in H. rewrite Hs in H.
  assert (Hn : forall l, foldl (store_string name) None l = None).
  { clear. induction l as [|[k v] l IH]; simpl; [done|]. rewrite <- IH at 2. f_equal. unfold store_string. simpl.
    repeat case_match; done. }
  destruct v; simpl; try done; by rewrite Hn in H.
Qed.

Lemma selects_escape name k : valid_utf8 k -> selects name (escape k) = bool_decide (fold_key k = to_bytes name).
Proof. intros Hk. unfold selects. by rewrite unquote_escape, Hk. Qed.

Lemma put_in_inv {A} k (v : A) m x : x ∈ put k v m -> x = (k, v) \/ x ∈ m.
Proof.
  induction m as [|[k' v'] m IH]; simpl; [set_solver|]. destruct (bytes_ltb k k'); [set_solver|].
  case_bool_decide; set_solver.
Qed.

(** The members of a decoded object come from the text. *)
Lemma members_map_in ms : forall kv, kv ∈ members_map ms -> exists k, (k, kv.2) ∈ ms /\ kv.1 = unquote k.
Proof.
  unfold members_map. induction ms as [|[k v] ms IH] using rev_ind; intros kv H; [by apply elem_of_nil in H|].
  rewrite foldl_app in H. simpl in H. apply put_in_inv in H as [->|H]; [exists k; set_solver|].
  destruct (IH kv H) as (k' & Hk & E). exists k'. set_solver.
Qed.

Lemma put_split {A} k (v : A) m : sorted m ->
  exists l r, put k v m = l ++ (k, v) :: r /\ Forall (fun kv => bytes_lt k kv.1) r /\ (forall x, x ∈ l -> x ∈ m).
Proof.
  induction 1 as [|[k' v'] m Hm IH Hall]; simpl; [by exists [], []|].
  destruct (bytes_ltb k k') eqn:E.
  - exists [], ((k', v') :: m). split_and!; [done| |set_solver]. constructor; [done|].
    eapply Forall_impl; [exact Hall|]. intros x Hx. by eapply bytes_lt_trans.
  - case_bool_decide as Ek.
    + subst. exists [], m. split_and!; [done|done|set_solver].
    + destruct IH as (l & r & -> & Hr & Hl). exists ((k', v') :: l), r. split_and!; [done|done|set_solver].
Qed.

(** A document whose last string for the field comes last reads it. *)
Lemma string_field_last name l k raw r :
  Forall (fun kv => selects name kv.1 = true -> textual kv.2) l -> selects name k = true ->
  Forall (fun kv => selects name kv.1 = false) r ->
  string_field name (l ++ (k, JStr raw) :: r) = Some (unquote raw).
Proof.
  intros Hl Hk Hr. unfold string_field. rewrite foldl_app.
  assert (H1 : exists b, foldl (store_string name) (Some []) l = Some b).
  { generalize (@nil ascii). induction Hl as [|[k' v'] l Hx _ IH]; intros acc; simpl; [by eexists|].
    unfold store_string at 2. simpl in *. destruct (selects name k'); [|apply IH].
    specialize (Hx eq_refl). destruct v'; try done; apply IH. }
  destruct H1 as [b ->]. simpl. unfold store_string at 2. simpl. rewrite Hk. simpl.
  induction Hr as [|[k' v'] r Hx _ IH]; simpl; [done|]. unfold store_string at 2. simpl in *. by rewrite Hx.
Qed.

Lemma ExtractModel_object body :
  ExtractModel body <> "" ->
  exists ms, parse (to_bytes body) = Some (JObj ms) /\ string_field "model" ms = Some (to_bytes (ExtractModel body)).
Proof.
  unfold ExtractModel. destruct (parse (to_bytes body)) as [[]|]; try done. intros H. eexists. split; [done|].
  destruct (string_field "model" l) as [b|]; simpl in *; [by rewrite to_of_bytes|done].
Qed.

Lemma apply_cases body rw out :
  ApplyModelRewrite body rw = Replace out ->
  exists to m, rw !! ExtractModel body = Some to /\ to <> "" /\ to <> ExtractModel body /\
    unmarshal_map (to_bytes body) = DVal m /\
    out = of_bytes (marshal_map (put (to_bytes "model") (JStr (escape (to_bytes to))) m)).
Proof.
  unfold ApplyModelRewrite. case_bool_decide; [done|]. destruct (rw !! ExtractModel body) as [to|]; [|done].
  destruct (String.eqb_spec to ""), (String.eqb_spec to (ExtractModel body)); simpl; try done.
  destruct (unmarshal_map (to_bytes body)) as [| |m]; try done. intros [= <-]. eauto 10.
Qed.

Lemma model_entry_ok (to : string) : entry_ok (to_bytes "model", JStr (escape (to_bytes to))).
Proof. split_and!; [by vm_compute|apply lit_str_ok, lit_escape|by vm_compute]. Qed.

Lemma rewritten_payload body m to :
  unmarshal_map (to_bytes body) = DVal m ->
  sorted (put (to_bytes "model") (JStr (escape (to_bytes to))) m) /\
  Forall entry_ok (put (to_bytes "model") (JStr (escape (to_bytes to))) m).
Proof.
  intros H. apply unmarshal_ok in H as [Hs Hm]. split; [by apply put_sorted|]. apply put_Forall; [apply model_entry_ok|done].
Qed.

Lemma rewrite_fields body rw out to :
  ApplyModelRewrite body rw = Replace out -> rw !! ExtractModel body = Some to -> ExtractModel body <> "" ->
  valid_utf8 (to_bytes to) ->
  ExtractModel out = to /\ field "model" out = Some (JStr (to_bytes to)) /\
  forall k, k <> "model" -> field k out = field k body.
Proof.
  intros H Hto Hfrom Hv. apply apply_cases in H as (to' & m & Hto' & _ & _ & Hm & ->).
  assert (to' = to) as -> by congruence.
  destruct (rewritten_payload body m to Hm) as [Hs Hok]. split_and!.
  - unfold ExtractModel at 1. rewrite to_of_bytes, marshal_parses by done.
    destruct (ExtractModel_object body Hfrom) as (ms & Hp & Hsf).
    unfold unmarshal_map in Hm. rewrite Hp in Hm. injection Hm as <-.
    pose proof (string_field_textual _ _ _ _ Hsf) as Htx. rewrite Forall_forall in Htx.
    destruct (put_split (to_bytes "model") (JStr (escape (to_bytes to))) (members_map ms) (members_map_sorted ms))
      as (l & r & E & Hr & Hl). rewrite E in *. apply Forall_app in Hok as [Hokl Hokr].
    inversion Hokr as [|? ? _ Hokr']; subst. rewrite map_app. cbn [List.map fst snd html_json].
    rewrite (string_field_last "model").
    + simpl. rewrite unquote_html by apply lit_escape. rewrite unquote_escape, Hv. apply of_to_bytes.
    + apply Forall_forall. intros x (y & <- & Hy%list_elem_of_In)%list_elem_of_In%in_map_iff. simpl.
      rewrite Forall_forall in Hokl. destruct (Hokl y Hy) as (Hvy & _). rewrite selects_escape by done.
      intros Hsel%bool_decide_eq_true. destruct (members_map_in ms y (Hl y Hy)) as (k & Hk & Ek).
      assert (Hx : textual y.2). { apply (Htx _ Hk). simpl. unfold selects. rewrite <- Ek. by apply bool_decide_eq_true. }
      by destruct (y.2).
    + by vm_compute.
    + apply Forall_forall. intros x (y & <- & Hy%list_elem_of_In)%list_elem_of_In%in_map_iff. simpl.
      rewrite Forall_forall in Hokr', Hr. destruct (Hokr' y Hy) as (Hvy & _). rewrite selects_escape by done.
      apply bool_decide_eq_false. intros Hf. specialize (Hr y Hy). unfold bytes_lt in Hr.
      rewrite (fold_key_le (to_bytes "model") y.1) in Hr; [done|by repeat constructor|done].
  - rewrite field_marshal, get_put_eq by done. simpl. by rewrite unquote_escape, Hv.
  - intros k Hk. rewrite field_marshal, (field_map body m) by done. rewrite get_put_ne; [done|].
    by intros ?%to_bytes_inj.
Qed.

(** A model rewrite does what the node asked for and nothing else: the engine
    reads the configured name, and every other field of the caller's body has
    the value it had (numbers digit for digit), whatever letter case, order or
    repetition the caller used for the model key. *)
Theorem model_rewrite_exact body rw out to :
  ApplyModelRewrite body rw = Replace out -> rw !! ExtractModel body = Some to -> ExtractModel body <> "" ->
  valid_utf8 (to_bytes to) ->
  ExtractModel out = to /\ field "model" out = Some (JStr (to_bytes to)) /\
  forall k, k <> "model" -> field k out = field k body.
Proof. apply rewrite_fields. Qed.

(** ** Defaults *)

(** A default the configuration can hold: [UnmarshalYAML] stores the marshalled
    value under a key of the file. *)
Definition default_ok (k raw : string) : Prop :=
  valid_utf8 (to_bytes k) /\ exists v, parse (to_bytes raw) = Some v /\ 1 + depth v <= maxNestingDepth.

(** What the caller set, else the default of a non-empty key. *)
Definition filled (own : option json) (k : string) (d : option string) : option json :=
  match own with
  | Some v => Some v
  | None => if k =s "" then None else d ≫= fun raw => parse (to_bytes raw)
  end.

Fixpoint assoc (k : string) (l : list (string * string)) : option string :=
  match l with
  | [] => None
  | (k', v) :: l => if k =s k' then Some v else assoc k l
  end.

Lemma assoc_map_to_list (d : gmap string string) k : assoc k (map_to_list d) = d !! k.
Proof.
  assert (H : forall l : list (string * string), NoDup l.*1 ->
    assoc k l = (list_to_map l : gmap string string) !! k).
  { induction l as [|[k' v'] l IH]; simpl; [by rewrite lookup_empty|]. intros Hn. inversion Hn; subst.
    destruct (String.eqb_spec k k') as [->|]; [by rewrite lookup_insert_eq|]. rewrite lookup_insert_ne by done. auto. }
  rewrite H by apply NoDup_fst_map_to_list. by rewrite list_to_map_to_list.
Qed.

Lemma merge_fold l : forall m ch m' ch' ok',
  foldl merge_default (m, ch, true) l = (m', ch', ok') ->
  Forall (fun kv => default_ok kv.1 kv.2) l -> NoDup l.*1 -> sorted m -> Forall entry_ok m ->
  sorted m' /\ Forall entry_ok m' /\ ok' = true /\ (ch' = false -> ch = false /\ m' = m) /\
  forall k, get (to_bytes k) m' = filled (get (to_bytes k) m) k (assoc k l).
Proof.
  induction l as [|[k0 raw] l IH]; intros m ch m' ch' ok' H Hd Hn Hs Hm; simpl in H.
  - simplify_eq. split_and!; try done. intros k. unfold filled. simpl. by repeat case_match.
  - inversion Hd as [|? ? [Hvk (v & Hp & Hdp)] Hd']; subst. simpl in *. inversion Hn as [|? ? Hnin Hn']; subst.
    destruct (String.eqb_spec k0 "") as [->|Hne].
    { destruct (IH _ _ _ _ _ H Hd' Hn' Hs Hm) as (? & ? & ? & ? & Hg). split_and!; try done. intros k. rewrite Hg.
      unfold filled. destruct (get _ m); [done|]. by destruct (String.eqb_spec k ""). }
    case_bool_decide as Hset.
    { destruct (IH _ _ _ _ _ H Hd' Hn' Hs Hm) as (? & ? & ? & ? & Hg). split_and!; try done. intros k. rewrite Hg.
      destruct (String.eqb_spec k k0) as [->|]; [|done]. destruct Hset as [w ->]. done. }
    rewrite Hp in H.
    destruct (IH _ _ _ _ _ H Hd' Hn') as (? & ? & ? & Hch & Hg).
    { by apply put_sorted. }
    { apply put_Forall; [|done]. split_and!; [done| |done]. by destruct (parse_wf _ _ Hp). }
    split_and!; try done; [by intros ?%Hch; naive_solver|]. intros k. rewrite Hg.
    destruct (String.eqb_spec k k0) as [->|Hk].
    + rewrite get_put_eq. unfold filled. apply eq_None_not_Some in Hset. rewrite Hset.
      destruct (String.eqb_spec k0 ""); [done|]. simpl. by rewrite Hp.
    + rewrite get_put_ne; [done|]. by intros ?%to_bytes_inj.
Qed.

Lemma merge_fields body d m :
  unmarshal_map (to_bytes body) = DVal m -> map_Forall default_ok d ->
  exists out, (MergeRequestDefaults body d = Replace out \/ (MergeRequestDefaults body d = Keep /\ out = body)) /\
    forall k, field k out = match field k body with
                            | Some v => Some v
                            | None => denote <$> filled None k (d !! k)
                            end.
Proof.
  intros Hm Hd. unfold MergeRequestDefaults. case_bool_decide as He.
  { subst. exists body. split; [by right|]. intros k. rewrite lookup_empty. unfold filled. simpl.
    destruct (field k body); [done|]. by case_match. }
  rewrite Hm. destruct (foldl merge_default (m, false, true) (map_to_list d)) as [[m' ch] ok] eqn:E.
  destruct (unmarshal_ok _ _ Hm) as [Hs Hok].
  destruct (merge_fold _ _ _ _ _ _ E) as (Hs' & Hok' & -> & Hch & Hg); try done.
  { apply Forall_forall. intros [k v] Hkv. apply elem_of_map_to_list in Hkv. by apply (Hd k v). }
  { apply NoDup_fst_map_to_list. }
  assert (Hf : forall k, denote <$> get (to_bytes k) m' =
    match field k body with Some v => Some v | None => denote <$> filled None k (d !! k) end).
  { intros k. rewrite Hg, (field_map body m), assoc_map_to_list by done. by destruct (get (to_bytes k) m). }
  destruct ch; simpl.
  - exists (of_bytes (marshal_map m')). split; [by left|]. intros k. by rewrite field_marshal.
  - exists body. split; [by right|]. destruct Hch as [_ ->]; [done|]. intros k. rewrite <- Hf. by apply field_map.
Qed.

(** Request defaults fill gaps and never override: after the merge a field has
    the value the caller sent, or else the node's default, or is absent. *)
Theorem request_defaults_fill body d m :
  unmarshal_map (to_bytes body) = DVal m -> map_Forall default_ok d ->
  exists out, (MergeRequestDefaults body d = Replace out \/ (MergeRequestDefaults body d = Keep /\ out = body)) /\
    forall k, field k out = match field k body with
                            | Some v => Some v
                            | None => denote <$> filled None k (d !! k)
                            end.
Proof. apply merge_fields. Qed.

(** ** The whole hop *)

(** The value a node's rewrite gives the model field, if it gives one. *)
Definition renamed (c : NodeConfig) (body : string) : option string :=
  match ModelRewrite c !! ExtractModel body with
  | Some to => if (to =s "") || (to =s ExtractModel body) then None else Some to
  | None => None
  end.

(** What the node is told about a field: its own name for the model, else what
    the caller sent, else its default. *)
Definition node_field (c : NodeConfig) (body k : string) : option json :=
  match (if k =s "model" then renamed c body else None) with
  | Some to => Some (JStr (to_bytes to))
  | None =>
      match field k body with
      | Some v => Some v
      | None => denote <$> filled None k (RequestDefaults c !! k)
      end
  end.

Lemma apply_renames c body m :
  unmarshal_map (to_bytes body) = DVal m ->
  ApplyModelRewrite body (ModelRewrite c) =
  match renamed c body with
  | Some to => Replace (of_bytes (marshal_map (put (to_bytes "model") (JStr (escape (to_bytes to))) m)))
  | None => Keep
  end.
Proof.
  intros Hm. unfold ApplyModelRewrite, renamed. case_bool_decide as He; [by rewrite He, lookup_empty|].
  destruct (ModelRewrite c !! ExtractModel body) as [to|]; [|done]. destruct (_ || _); [done|]. by rewrite Hm.
Qed.

Lemma object_map body ms : parse (to_bytes body) = Some (JObj ms) -> exists m, unmarshal_map (to_bytes body) = DVal m.
Proof. intros Hp. unfold unmarshal_map. rewrite Hp. eauto. Qed.

Lemma renamed_lookup c body to :
  renamed c body = Some to -> ModelRewrite c !! ExtractModel body = Some to.
Proof. unfold renamed. destruct (ModelRewrite c !! ExtractModel body) as [t|]; [|done]. destruct (_ || _); naive_solver. Qed.

(** The body after the model rewrite, field by field. *)
Lemma renamed_fields body m to :
  unmarshal_map (to_bytes body) = DVal m -> valid_utf8 (to_bytes to) ->
  let out := of_bytes (marshal_map (put (to_bytes "model") (JStr (escape (to_bytes to))) m)) in
  forall k, field k out = if k =s "model" then Some (JStr (to_bytes to)) else field k body.
Proof.
  intros Hm Hv out k. destruct (rewritten_payload body m to Hm) as [Hs Hok]. unfold out. rewrite field_marshal by done.
  destruct (String.eqb_spec k "model") as [->|Hk]; [rewrite get_put_eq by done; simpl; by rewrite unquote_escape, Hv|].
  rewrite (field_map body m) by done. rewrite get_put_ne; [done|]. by intros ?%to_bytes_inj.
Qed.

(** The body of one hop when the caller sent an object, field by field. *)
Lemma forward_fields c body out ms :
  forwardBody c body = Some out -> parse (to_bytes body) = Some (JObj ms) -> map_Forall default_ok (RequestDefaults c) ->
  map_Forall (fun _ to => valid_utf8 (to_bytes to)) (ModelRewrite c) ->
  forall k, field k out = node_field c body k.
Proof.
  intros H Hp Hd Hv. destruct (object_map body ms Hp) as [m Hm]. unfold forwardBody in H.
  rewrite (apply_renames c body m Hm) in H.
  assert (Hmid : exists fwd m', unmarshal_map (to_bytes fwd) = DVal m' /\
    match MergeRequestDefaults fwd (RequestDefaults c) with Keep => Some fwd | Replace b => Some b | RPanic => None end =
      Some out /\
    forall k, field k fwd = match (if k =s "model" then renamed c body else None) with
                            | Some to => Some (JStr (to_bytes to)) | None => field k body end).
  { destruct (renamed c body) as [to|] eqn:Er; simpl in H.
    - destruct (rewritten_payload body m to Hm) as [Hs Hok].
      eexists _, _. split; [rewrite to_of_bytes; by apply unmarshal_marshal|]. split; [exact H|]. intros k.
      rewrite (renamed_fields body m to Hm (Hv _ _ (renamed_lookup _ _ _ Er))). by destruct (k =s "model").
    - exists body, m. split; [done|]. split; [exact H|]. intros k. by destruct (k =s "model"). }
  destruct Hmid as (fwd & m' & Hm' & Hout & Hf). intros k.
  destruct (merge_fields fwd (RequestDefaults c) m' Hm' Hd) as (out' & Ho & Hk).
  assert (out' = out) as ->. { destruct Ho as [Ho|[Ho ->]]; rewrite Ho in Hout; congruence. }
  rewrite Hk, Hf. unfold node_field. by destruct (if k =s "model" then renamed c body else None).
Qed.

(** A body that is no object is forwarded as it came, or not at all. *)
Lemma forward_other c body out :
  forwardBody c body = Some out -> (forall ms, parse (to_bytes body) <> Some (JObj ms)) -> out = body.
Proof.
  intros H Hno.
  assert (Hu : unmarshal_map (to_bytes body) = DErr \/ unmarshal_map (to_bytes body) = DNil).
  { unfold unmarshal_map. destruct (parse (to_bytes body)) as [[]|]; naive_solver. }
  assert (Ha : ApplyModelRewrite body (ModelRewrite c) = Keep \/ ApplyModelRewrite body (ModelRewrite c) = RPanic).
  { unfold ApplyModelRewrite. case_bool_decide; [by left|]. destruct (_ !! _); [|by left].
    destruct (_ || _); [by left|]. destruct Hu as [-> | ->]; auto. }
  assert (Hd : MergeRequestDefaults body (RequestDefaults c) = Keep \/ MergeRequestDefaults body (RequestDefaults c) = RPanic).
  { unfold MergeRequestDefaults. case_bool_decide; [by left|]. destruct Hu as [-> | ->]; [by left|]. case_match; auto. }
  unfold forwardBody in H. destruct Ha as [Ha|Ha]; rewrite Ha in H; [|done]. simpl in H.
  destruct Hd as [Hd|Hd]; rewrite Hd in H; [|done]. congruence.
Qed.

(** The merge panics exactly on the document null, when there is a default to
    set. *)
Theorem merge_panics_on_null body d :
  MergeRequestDefaults body d = RPanic <->
  parse (to_bytes body) = Some JNull /\ exists k, k <> "" /\ is_Some (d !! k).
Proof.
  unfold MergeRequestDefaults, unmarshal_map. case_bool_decide as He.
  { subst. split; [done|]. intros (_ & k & _ & Hk). rewrite lookup_empty in Hk. by destruct Hk. }
  destruct (parse (to_bytes body)) as [[]|]; try (split; [done|by intros [? _]]).
  - destruct (existsb _ _) eqn:E.
    + split; [|done]. intros _. split; [done|]. apply existsb_exists in E as ([k v] & Hin & Hk). exists k.
      apply list_elem_of_In, elem_of_map_to_list in Hin. split; [by intros ->|by eexists].
    + split; [done|]. intros (_ & k & Hne & v & Hk). apply not_true_iff_false in E. destruct E. apply existsb_exists.
      exists (k, v). split; [by apply list_elem_of_In, elem_of_map_to_list|]. by apply negb_true_iff, String.eqb_neq.
  - destruct (foldl _ _ _) as [[? []] []]; simpl; split; try done; by intros [? _].
Qed.

(** ** Examples and witnesses *)

(** JSON text for examples, with apostrophes for quotes. *)
Definition quoting (s : string) : string :=
  of_bytes (List.map (fun c => if Ascii.eqb c "'" then dquote else c) (to_bytes s)).

Definition ex_body : string := quoting "{'Model': 'alias', 'seed': 9007199254740993, 'user': 'a<b', 'model':'alias'}".

Definition ex_rewrites : gmap string string := {[ "alias" := "qwen/qwen3" ]}.

Definition ex_rewritten : string :=
  quoting "{'Model':'alias','model':'qwen/qwen3','seed':9007199254740993,'user':'a\u003cb'}".

Example ex_rewrite : ApplyModelRewrite ex_body ex_rewrites = Replace ex_rewritten.
Proof. vm_compute. reflexivity. Qed.

Lemma model_rewrite_exact_witness :
  ExtractModel ex_rewritten = "qwen/qwen3" /\ field "seed" ex_rewritten = field "seed" ex_body.
Proof.
  destruct (model_rewrite_exact ex_body ex_rewrites ex_rewritten "qwen/qwen3") as (H & _ & Hk);
    [vm_compute; reflexivity|vm_compute; reflexivity|vm_compute; discriminate|vm_compute; reflexivity|].
  split; [exact H|apply Hk; discriminate].
Defined.

Definition ex_defaults : gmap string string := {[ "reasoning_split" := "true"; "seed" := "1" ]}.

Lemma request_defaults_fill_witness :
  exists out, field "seed" out = field "seed" ex_body /\ field "reasoning_split" out = Some (JBool true).
Proof.
  destruct (unmarshal_map (to_bytes ex_body)) as [| |m] eqn:E; [vm_compute in E; discriminate..|].
  destruct (request_defaults_fill ex_body ex_defaults m E) as (out & _ & H).
  - apply map_Forall_insert_2; [split; [vm_compute; reflexivity|eexists; split; [vm_compute; reflexivity|vm_compute; discriminate]]|].
    apply map_Forall_singleton. split; [vm_compute; reflexivity|eexists; split; [vm_compute; reflexivity|vm_compute; discriminate]].
  - exists out. rewrite !H. split; vm_compute; reflexivity.
Defined.

(** A streamed answer: the usage of the first chunk that carries one. *)
Example ex_stream_usage :
  extractUsageTokens (to_bytes (quoting "data: {'usage':null}
data: {'usage':{'prompt_tokens':7,'completion_tokens':5}}
data: [DONE]
")) = Some (7, 5).
Proof. vm_compute. reflexivity. Qed.

Example ex_plain_usage :
  extractUsageTokens (to_bytes (quoting "{'id':'x','usage':{'completion_tokens':5,'prompt_tokens':7}}")) = Some (7, 5) /\
  extractUsageTokens (to_bytes (quoting "{'usage':{'prompt_tokens':1.5}}")) = None.
Proof. vm_compute. done. Qed.

End RequestBody.
