(* ===== verification/SmartRoute.v ===== *)
(** * Smart routing

    Models [src/internal/smartroute/smartroute.go] and [agents.go]: the policy and
    its validation, agent detection and gates, the classifiers, [Decide] and
    [Rewrite]; and [loadSmartRoute] of [src/main.go] on a decoded policy.  A
    parameter of a route is held as its JSON encoding, [None] for the values
    [json.Marshal] refuses (YAML's .nan and .inf). *)

From Stdlib Require Import ZArith Lia Ascii String.
From stdpp Require Import base option list gmap strings.
From S2P Require Import Prelude GoStrings Utf8 Json JsonSpec JsonMap JsonAny Headers RouterConfig RequestBody.

Module SmartRoute.
Import GoStrings Utf8 Json JsonSpec JsonMap JsonAny Headers RequestBody.

(** ** Policy *)

Definition HeaderTaskClass : string := "X-Helixon-Task".
Definition HeaderAgent : string := "X-Helixon-Agent".
Definition AutoModel : string := "auto".

Inductive source :=
| SourceHeader | SourceExplicitModel | SourceHeuristic | SourceDefault | SourceDisabled | SourceAgentForce.

#[export] Instance source_eq_dec : EqDecision source.
Proof. solve_decision. Defined.

Record Match_ := { AnyOfMarkers : list string; MinPromptChars : Z }.

Record RouteTo := { RouteModel : string; RouteTier : string; RouteParams : gmap string (option json) }.

Record Class_ := {
  ClassName : string;
  Description : string;
  ClassEnabled : option bool;
  ClassMatch : Match_;
  ClassRoute : RouteTo;
}.

Definition IsEnabled (c : Class_) : bool := match ClassEnabled c with None => true | Some b => b end.

Record AgentPolicy := { AgentEnabled : option bool; ForceClass_ : string }.

Record Policy := {
  PolicyEnabled : bool;
  Agents : gmap string AgentPolicy;
  DefaultClass : string;
  Classes : list Class_;
}.

Inductive policy_error :=
| NoClasses
| NameRequired (i : nat)
| DuplicateName (i : nat) (name : string)
| ModelRequired (name : string)
| DefaultRequired
| DefaultUndefined (name : string)
| ForceUndefined (agent name : string).

(** The loop over the classes: the error of the first bad one, or the names. *)
Fixpoint validate_classes (i : nat) (seen : gset string) (cs : list Class_) : policy_error + gset string :=
  match cs with
  | [] => inr seen
  | c :: cs =>
      if ClassName c =s "" then inl (NameRequired i)
      else if bool_decide (ClassName c ∈ seen) then inl (DuplicateName i (ClassName c))
      else if RouteModel (ClassRoute c) =s "" then inl (ModelRequired (ClassName c))
      else validate_classes (S i) ({[ ClassName c ]} ∪ seen) cs
  end.

Definition force_error (seen : gset string) (a : string * AgentPolicy) : option policy_error :=
  let fc := ForceClass_ a.2 in
  if negb (fc =s "") && negb (bool_decide (fc ∈ seen)) then Some (ForceUndefined a.1 fc) else None.

Fixpoint first_some {A B} (f : A -> option B) (l : list A) : option B :=
  match l with
  | [] => None
  | x :: l => match f x with Some y => Some y | None => first_some f l end
  end.

Definition Validate (p : Policy) : option policy_error :=
  match Classes p with
  | [] => Some NoClasses
  | _ =>
      match validate_classes 0 ∅ (Classes p) with
      | inl e => Some e
      | inr seen =>
          if DefaultClass p =s "" then Some DefaultRequired
          else if negb (bool_decide (DefaultClass p ∈ seen)) then Some (DefaultUndefined (DefaultClass p))
          else first_some (force_error seen) (map_to_list (Agents p))
      end
  end.

(** [LoadPolicy], from what reading and decoding the file gives. *)
Definition LoadPolicy (decoded : option Policy) : option Policy :=
  p ← decoded;
  match Validate p with Some _ => None | None => Some p end.

Definition EnabledClasses (p : Policy) : list Class_ := List.filter IsEnabled (Classes p).

Definition lookupClass (p : Policy) (name : string) : option Class_ :=
  List.find (fun c => ClassName c =s name) (Classes p).

(** ** Agents *)

Definition uaHints : list (string * string) :=
  [("kilo", "kilo-code"); ("cursor", "cursor"); ("claude", "claude-code"); ("codex", "codex"); ("openai", "codex")].

Definition DetectAgent (h : Header) : string :=
  let a := ToLower (TrimSpace (Get h HeaderAgent)) in
  if negb (a =s "") then a
  else
    let ua := ToLower (Get h "User-Agent") in
    if ua =s "" then ""
    else match List.find (fun hint => Contains ua hint.1) uaHints with
         | Some hint => hint.2
         | None => ""
         end.

(** [Policy.AgentAllowed]. *)
Definition agentAllowed (p : Policy) (agent : string) : bool :=
  if bool_decide (Agents p = ∅) || (agent =s "") then true
  else match Agents p !! ToLower agent with
       | Some ap => default true (AgentEnabled ap)
       | None => true
       end.

Definition ForceClass (p : Policy) (agent : string) : string :=
  if agent =s "" then "" else match Agents p !! ToLower agent with Some ap => ForceClass_ ap | None => "" end.

(** [Router.AgentAllowed]. *)
Definition AgentAllowed (p : Policy) (agent : string) : bool :=
  if negb (PolicyEnabled p) then true else agentAllowed p agent.

(** ** The prompt *)

(** A message: the raw content, if there is one. *)
Abbreviation message := (option json).

Definition store_content (m : message) (kv : bytes * json) : message :=
  if selects "content" kv.1 then Some kv.2 else m.

(** A value decoded into a message; [None] is a type error. *)
Definition store_message (old : message) (v : json) : option message :=
  match v with
  | JObj ms => Some (foldl store_content old ms)
  | JNull => Some old
  | _ => None
  end.

(** An array decoded into the slice the field holds: an element is decoded into
    the one that is there. *)
Fixpoint store_messages (old : list message) (vs : list json) : option (list message) :=
  match vs with
  | [] => Some []
  | v :: vs =>
      m ← store_message (default None (head old)) v;
      ms ← store_messages (tail old) vs;
      Some (m :: ms)
  end.

Definition store_body (acc : option (bytes * list message)) (kv : bytes * json) : option (bytes * list message) :=
  '(prompt, msgs) ← acc;
  if selects "prompt" kv.1 then
    match kv.2 with JStr r => Some (unquote r, msgs) | JNull => acc | _ => None end
  else if selects "messages" kv.1 then
    match kv.2 with JArr vs => pair prompt <$> store_messages msgs vs | JNull => Some (prompt, []) | _ => None end
  else acc.

(** The text of one part of a multimodal content. *)
Definition part_text (v : json) : option bytes :=
  match v with JObj ms => string_field "text" ms | JNull => Some [] | _ => None end.

Definition content_text (m : message) : bytes :=
  match m with
  | Some (JStr r) => unquote r
  | Some (JArr parts) => default [] (@concat ascii <$> all_some (List.map part_text parts))
  | _ => []
  end.

Definition extractPrompt (body : string) : bytes :=
  match parse (to_bytes body) with
  | Some (JObj ms) =>
      match foldl store_body (Some ([], [])) ms with
      | Some (prompt, msgs) => prompt ++ concat (List.map content_text msgs)
      | None => []
      end
  | _ => []
  end.

(** ** Classifiers *)

Definition headerClassify (h : Header) (p : Policy) : option string :=
  let name := TrimSpace (Get h HeaderTaskClass) in
  if name =s "" then None else ClassName <$> lookupClass p name.

(** The enabled class with the largest size bound the prompt reaches. *)
Definition by_size (len : Z) (best : string * Z) (c : Class_) : string * Z :=
  let min := MinPromptChars (ClassMatch c) in
  if (0 <? min) && (min <=? len) && (best.2 <? min) then (ClassName c, min) else best.

Definition by_marker (prompt : bytes) (c : Class_) : bool :=
  existsb (fun marker => negb (marker =s "") && contains prompt (to_bytes marker)) (AnyOfMarkers (ClassMatch c)).

Definition heuristicClassify (body : string) (p : Policy) : option string :=
  let prompt := extractPrompt body in
  match prompt with
  | [] => None
  | _ =>
      let best := foldl (by_size (Z.of_nat (length prompt))) ("", 0) (EnabledClasses p) in
      if negb (best.1 =s "") then Some best.1
      else ClassName <$> List.find (by_marker prompt) (EnabledClasses p)
  end.

(** ** Decisions *)

Record Decision := {
  DClass : string; DModel : string; DTier : string; DParams : gmap string (option json); DSource : source;
}.

Definition decisionFor (c : Class_) (s : source) : Decision :=
  {| DClass := ClassName c; DModel := RouteModel (ClassRoute c); DTier := RouteTier (ClassRoute c);
     DParams := RouteParams (ClassRoute c); DSource := s |}.

Definition passThrough (model : string) (s : source) : Decision :=
  {| DClass := ""; DModel := model; DTier := ""; DParams := ∅; DSource := s |}.

(** The class a name denotes, when it is on. *)
Definition enabledClass (p : Policy) (name : string) : option Class_ :=
  match lookupClass p name with
  | Some c => if IsEnabled c then Some c else None
  | None => None
  end.

(** [Decide] with the chain of [NewRouter]; [None] is the missing default class. *)
Definition Decide (p : Policy) (h : Header) (body : string) : option Decision :=
  if negb (PolicyEnabled p) then Some (passThrough (ExtractModel body) SourceDisabled)
  else
    let fc := ForceClass p (DetectAgent h) in
    match (if fc =s "" then None else enabledClass p fc) with
    | Some c => Some (decisionFor c SourceAgentForce)
    | None =>
        let m := ExtractModel body in
        if negb (m =s "") && negb (EqualFold m AutoModel) then Some (passThrough m SourceExplicitModel)
        else
          match headerClassify h p ≫= enabledClass p with
          | Some c => Some (decisionFor c SourceHeader)
          | None =>
              match heuristicClassify body p ≫= enabledClass p with
              | Some c => Some (decisionFor c SourceHeuristic)
              | None => (fun c => decisionFor c SourceDefault) <$> lookupClass p (DefaultClass p)
              end
          end
    end.

(** ** Rewriting *)

(** The new body, an encoding error, or an assignment to a nil map. *)
Inductive rewrite_result := Rewritten (b : string) | RewriteErr | RewritePanic.

Definition add_param (payload : gomap (option json)) (kv : string * option json) : gomap (option json) :=
  if bool_decide (is_Some (get (to_bytes kv.1) payload)) then payload else put (to_bytes kv.1) kv.2 payload.

(** [json.Marshal] of the payload. *)
Definition marshal_payload (payload : gomap (option json)) : option bytes :=
  (fun l => print (JObj l)) <$> all_some (List.map (fun kv => pair (escape kv.1) <$> kv.2) payload).

Definition Rewrite (body : string) (d : Decision) : rewrite_result :=
  if bool_decide (DSource d = SourceDisabled \/ DSource d = SourceExplicitModel) then Rewritten body
  else
    match unmarshal_anymap (to_bytes body) with
    | DErr => Rewritten body
    | DNil =>
        if negb (DModel d =s "") || negb (bool_decide (DParams d = ∅)) then RewritePanic else Rewritten "null"
    | DVal m =>
        let payload := List.map (fun kv => (kv.1, Some (encode_any kv.2))) m in
        let payload := if DModel d =s "" then payload
                       else put (to_bytes "model") (Some (JStr (escape (to_bytes (DModel d))))) payload in
        let payload := foldl add_param payload (map_to_list (DParams d)) in
        match marshal_payload payload with
        | Some out => Rewritten (of_bytes out)
        | None => RewriteErr
        end
    end.

End SmartRoute.
