(* ===== verification/SmartRouteSpec.v ===== *)
(** * What smart routing guarantees

    Validation is exact, a validated policy decides every request, a pass-through
    decision leaves the body alone, and a rewrite sets the model, fills in the
    parameters the caller left out and keeps the caller's fields.  Two runs show
    where the code departs from its comments. *)

From Stdlib Require Import ZArith Lia Ascii String Sorted.
From stdpp Require Import base option list gmap strings.
From S2P Require Import Prelude GoStrings Utf8 Json JsonSpec JsonMap JsonAny Headers RouterConfig RequestBody SmartRoute.

Module SmartRouteSpec.
Import GoStrings Utf8 Json JsonSpec JsonMap JsonAny Headers RequestBody SmartRoute.

(** ** Validation *)

Record policy_ok (p : Policy) : Prop := {
  ok_names : NoDup (ClassName <$> Classes p);
  ok_named : Forall (fun c => ClassName c <> "" /\ RouteModel (ClassRoute c) <> "") (Classes p);
  ok_default : is_Some (lookupClass p (DefaultClass p));
  ok_force : map_Forall (fun _ ap => ForceClass_ ap <> "" -> is_Some (lookupClass p (ForceClass_ ap))) (Agents p);
}.

Lemma lookupClass_iff p name : is_Some (lookupClass p name) <-> name ∈ ClassName <$> Classes p.
Proof.
  unfold lookupClass. induction (Classes p) as [|c cs IH]; simpl; [split; [by intros []|by intros ?%elem_of_nil]|].
  rewrite elem_of_cons, <- IH. destruct (String.eqb_spec (ClassName c) name) as [->|Hn].
  - split; [by left|by eexists].
  - split; [by right|by intros [->|]].
Qed.

Lemma lookupClass_Some p name c : lookupClass p name = Some c -> c ∈ Classes p /\ ClassName c = name.
Proof. intros H. apply find_some in H as [Hin Hn]. split; [by apply list_elem_of_In|by apply String.eqb_eq]. Qed.

Lemma validate_classes_spec cs : forall i seen seen',
  validate_classes i seen cs = inr seen' <->
  seen' = list_to_set (ClassName <$> cs) ∪ seen /\ NoDup (ClassName <$> cs) /\
  Forall (fun c => ClassName c ∉ seen) cs /\ Forall (fun c => ClassName c <> "" /\ RouteModel (ClassRoute c) <> "") cs.
Proof.
  induction cs as [|c cs IH]; intros i seen seen'; simpl.
  { rewrite (left_id_L ∅ (∪)) by apply _. split; [intros [= <-]; split_and!; constructor|by intros [-> _]]. }
  rewrite NoDup_cons, !Forall_cons.
  destruct (String.eqb_spec (ClassName c) ""); [split; [done|naive_solver]|].
  case_bool_decide; [split; [done|naive_solver]|].
  destruct (String.eqb_spec (RouteModel (ClassRoute c)) ""); [split; [done|naive_solver]|].
  rewrite IH. rewrite !Forall_forall. split.
  - intros (-> & Hnd & Hs & Hok). split; [set_solver|]. split; [split; [|done]|].
    + intros (c' & Hc & Hin)%list_elem_of_fmap. apply (Hs c' Hin). set_solver.
    + split; [split; [done|]|done]. intros c' Hin. specialize (Hs c' Hin). set_solver.
  - intros (-> & [Hni Hnd] & [Hc Hs] & [_ Hok]). split; [set_solver|]. split; [done|]. split; [|done].
    intros c' Hin. rewrite not_elem_of_union. split; [|by apply Hs]. rewrite not_elem_of_singleton. intros E. apply Hni.
    rewrite <- E. by apply list_elem_of_fmap_2.
Qed.

Lemma first_some_None {A B} (f : A -> option B) l : first_some f l = None <-> Forall (fun x => f x = None) l.
Proof.
  induction l as [|x l IH]; simpl; [split; [constructor|done]|]. rewrite Forall_cons, <- IH.
  destruct (f x); naive_solver.
Qed.

Lemma validate_iff p : Validate p = None <-> policy_ok p.
Proof.
  unfold Validate. destruct (Classes p) as [|c0 cs0] eqn:Ec.
  { split; [done|]. intros [_ _ Hd _]. unfold lookupClass in Hd. rewrite Ec in Hd. by destruct Hd. }
  rewrite <- Ec. clear Ec c0 cs0. destruct (validate_classes 0 ∅ (Classes p)) as [e|seen] eqn:Ev.
  { split; [done|]. intros [Hn Hm _ _].
    assert (H : validate_classes 0 ∅ (Classes p) = inr (list_to_set (ClassName <$> Classes p) ∪ ∅)).
    { apply validate_classes_spec. split_and!; try done. apply Forall_forall. set_solver. }
    congruence. }
  apply validate_classes_spec in Ev as (-> & Hnd & _ & Hok).
  assert (Hin : forall n, n ∈ (list_to_set (ClassName <$> Classes p) ∪ ∅ : gset string) <-> is_Some (lookupClass p n)).
  { intros n. rewrite lookupClass_iff. set_solver. }
  assert (Hne : ~ is_Some (lookupClass p "")).
  { rewrite lookupClass_iff. intros (c & Hc & Hi)%list_elem_of_fmap. rewrite Forall_forall in Hok. by destruct (Hok c Hi). }
  destruct (String.eqb_spec (DefaultClass p) "") as [E|E]; [split; [done|]; intros [_ _ Hd _]; by rewrite E in Hd|].
  case_bool_decide as Hdef; rewrite Hin in Hdef; simpl; [|split; [done|]; by intros [_ _ Hd _]].
  rewrite first_some_None, Forall_forall. split.
  - intros H. split; try done. intros a ap Ha Hf. specialize (H (a, ap) (proj2 (elem_of_map_to_list _ _ _) Ha)).
    unfold force_error in H. simpl in H. rewrite (proj2 (String.eqb_neq _ _) Hf) in H. simpl in H.
    case_bool_decide as Hi; [by apply Hin|done].
  - intros [_ _ _ Hf] [a ap] Ha%elem_of_map_to_list. specialize (Hf a ap Ha). unfold force_error. simpl.
    destruct (String.eqb_spec (ForceClass_ ap) ""); [done|]. rewrite bool_decide_eq_true_2; [done|]. by apply Hin, Hf.
Qed.

(** C34: A policy loads exactly when its classes are named, distinct and routed, its
    default is one of them, and so is every class an agent is forced to. *)
Theorem policy_validates p : Validate p = None <-> policy_ok p.
Proof. apply validate_iff. Qed.

(** ** Decisions *)

Lemma enabledClass_Some p n c : enabledClass p n = Some c -> c ∈ Classes p /\ IsEnabled c = true.
Proof.
  unfold enabledClass. destruct (lookupClass p n) as [c'|] eqn:E; [|done]. apply lookupClass_Some in E as [Hin _].
  destruct (IsEnabled c') eqn:Ee; [|done]. by intros [= <-].
Qed.

(** What a decision may be. *)
Definition routed (p : Policy) (d : Decision) : Prop :=
  exists c, c ∈ Classes p /\ d = decisionFor c (DSource d) /\ DModel d <> "" /\
    (IsEnabled c = true \/ (DSource d = SourceDefault /\ ClassName c = DefaultClass p)).

Definition left_alone (body : string) (d : Decision) : Prop :=
  d = passThrough (ExtractModel body) (DSource d) /\ Rewrite body d = Rewritten body.

Lemma decide_cases p h body :
  Validate p = None ->
  exists d, Decide p h body = Some d /\
    if bool_decide (DSource d = SourceDisabled \/ DSource d = SourceExplicitModel)
    then left_alone body d else routed p d.
Proof.
  intros [_ Hok [cd Hcd] _]%validate_iff. rewrite Forall_forall in Hok.
  assert (Hr : forall c s, c ∈ Classes p -> IsEnabled c = true \/ (s = SourceDefault /\ ClassName c = DefaultClass p) ->
    routed p (decisionFor c s)).
  { intros c s Hin He. exists c. split_and!; try done. by destruct (Hok c Hin). }
  unfold Decide, left_alone. destruct (PolicyEnabled p); simpl; [|by eexists].
  destruct (if ForceClass p (DetectAgent h) =s "" then None else enabledClass p (ForceClass p (DetectAgent h))) as [c|] eqn:Ef.
  { case_match; [done|]. apply enabledClass_Some in Ef as [Hin He]. eexists. split; [done|]. apply Hr; auto. }
  destruct (negb (ExtractModel body =s "") && negb (EqualFold (ExtractModel body) AutoModel)); [by eexists|].
  destruct (headerClassify h p ≫= enabledClass p) as [c|] eqn:Eh.
  { apply bind_Some in Eh as (n & _ & [Hin He]%enabledClass_Some). eexists. split; [done|]. apply Hr; auto. }
  destruct (heuristicClassify body p ≫= enabledClass p) as [c|] eqn:Ehe.
  { apply bind_Some in Ehe as (n & _ & [Hin He]%enabledClass_Some). eexists. split; [done|]. apply Hr; auto. }
  rewrite Hcd. simpl. apply lookupClass_Some in Hcd as [Hin Hn]. eexists. split; [done|]. apply Hr; auto.
Qed.

(** A validated policy decides every request, whatever its body: either the
    request is left alone, because the policy is off or the caller named a model,
    or it is routed to a class of the policy that is on, or to the default. *)
Theorem decide_total p h body :
  Validate p = None ->
  exists d, Decide p h body = Some d /\
    if bool_decide (DSource d = SourceDisabled \/ DSource d = SourceExplicitModel)
    then left_alone body d else routed p d.
Proof. apply decide_cases. Qed.

(** ** Rewriting *)

(** A parameter of the policy: its encoding is a JSON value. *)
Definition param_ok (k : string) (v : option json) : Prop :=
  valid_utf8 (to_bytes k) /\ match v with Some j => lexed j /\ 1 + depth j <= maxNestingDepth | None => True end.

Definition slot_ok (kv : bytes * option json) : Prop :=
  valid_utf8 kv.1 /\ match kv.2 with Some j => lexed j /\ 1 + depth j <= maxNestingDepth | None => True end.

Fixpoint passoc (k : string) (l : list (string * option json)) : option (option json) :=
  match l with
  | [] => None
  | (k', v) :: l => if k =s k' then Some v else passoc k l
  end.

Lemma passoc_map_to_list (d : gmap string (option json)) k : passoc k (map_to_list d) = d !! k.
Proof.
  assert (H : forall l : list (string * option json), NoDup l.*1 ->
    passoc k l = (list_to_map l : gmap string (option json)) !! k).
  { induction l as [|[k' v'] l IH]; simpl; [by rewrite lookup_empty|]. intros Hn. inversion Hn; subst.
    destruct (String.eqb_spec k k') as [->|]; [by rewrite lookup_insert_eq|]. rewrite lookup_insert_ne by done. auto. }
  rewrite H by apply NoDup_fst_map_to_list. by rewrite list_to_map_to_list.
Qed.

Lemma add_params l : forall m,
  Forall (fun kv => param_ok kv.1 kv.2) l -> sorted m -> Forall slot_ok m ->
  sorted (foldl add_param m l) /\ Forall slot_ok (foldl add_param m l) /\
  forall k, get (to_bytes k) (foldl add_param m l) =
            match get (to_bytes k) m with Some v => Some v | None => passoc k l end.
Proof.
  induction l as [|[k0 v] l IH]; intros m Hl Hs Hm; simpl.
  { split_and!; try done. intros k. by destruct (get (to_bytes k) m). }
  inversion Hl as [|? ? Hk Hl']; subst. unfold add_param at 2 4 6. simpl. case_bool_decide as Hset.
  - destruct (IH m Hl' Hs Hm) as (? & ? & Hg). split_and!; try done. intros k. rewrite Hg.
    destruct (String.eqb_spec k k0) as [->|]; [|done]. destruct Hset as [w ->]. done.
  - destruct (IH (put (to_bytes k0) v m) Hl' ltac:(by apply put_sorted)) as (? & ? & Hg).
    { by apply put_Forall. }
    split_and!; try done. intros k. rewrite Hg. destruct (String.eqb_spec k k0) as [->|Hne].
    + rewrite get_put_eq. apply eq_None_not_Some in Hset. by rewrite Hset.
    + rewrite get_put_ne; [done|]. by intros ?%to_bytes_inj.
Qed.

Lemma payload_values (m : gomap (option json)) l :
  all_some (List.map (fun kv => pair (escape kv.1) <$> kv.2) m) = Some l ->
  exists m', m = List.map (fun kv => (kv.1, Some kv.2)) m' /\ l = List.map (fun kv => (escape kv.1, kv.2)) m'.
Proof.
  revert l. induction m as [|[k v] m IH]; intros l H; simpl in H; [simplify_eq; by exists []|].
  apply bind_Some in H as (x & Hx & H). apply bind_Some in H as (r & Hr & H). simplify_eq/=.
  destruct v as [v|]; simplify_eq/=. destruct (IH r Hr) as (m' & -> & ->). by exists ((k, v) :: m').
Qed.

Lemma sorted_values {A B} (f : A -> B) (m : gomap A) : sorted (List.map (fun kv => (kv.1, f kv.2)) m) <-> sorted m.
Proof.
  unfold sorted. induction m as [|x m IH]; simpl; [split; constructor|]. split; intros [H1 H2]%StronglySorted_inv.
  - constructor; [by apply IH|]. apply Forall_forall. intros y Hy. rewrite Forall_forall in H2.
    apply (H2 (y.1, f y.2)). apply list_elem_of_In, in_map_iff. exists y. split; [done|by apply list_elem_of_In].
  - constructor; [by apply IH|]. apply Forall_forall. intros y (z & <- & Hz)%list_elem_of_In%in_map_iff.
    rewrite Forall_forall in H2. apply (H2 z). by apply list_elem_of_In.
Qed.

(** The member of the rewritten body under [k]: the decision's model, else the
    caller's own value, else the route's parameter. *)
Definition expected (d : Decision) (m : gomap any) (k : string) : option json :=
  if (k =s "model") && negb (DModel d =s "") then Some (JStr (escape (to_bytes (DModel d))))
  else match get (to_bytes k) m with
       | Some a => Some (encode_any a)
       | None => DParams d !! k ≫= id
       end.

(** Policy fills gaps and never overrides a choice: the rewritten body is an
    object whose members are exactly the model of the decision, the caller's
    other fields re-encoded, and the parameters the caller left out. *)
Theorem rewrite_fills_gaps body d m out :
  unmarshal_anymap (to_bytes body) = DVal m -> map_Forall param_ok (DParams d) ->
  DSource d <> SourceDisabled -> DSource d <> SourceExplicitModel -> Rewrite body d = Rewritten out ->
  exists m', unmarshal_map (to_bytes out) = DVal m' /\ forall k, get (to_bytes k) m' = expected d m k.
Proof.
  intros Hm Hp Hn1 Hn2 H. unfold Rewrite in H. rewrite bool_decide_eq_false_2 in H by naive_solver. rewrite Hm in H.
  destruct (unmarshal_anymap_ok _ _ Hm) as [Hs Hok]. set (own := List.map (fun kv => (kv.1, Some (encode_any kv.2))) m) in *.
  assert (Hown : sorted own /\ Forall slot_ok own).
  { split; [by apply (sorted_values (fun a => Some (encode_any a)))|]. subst own. apply Forall_forall.
    intros y (z & <- & Hz%list_elem_of_In)%list_elem_of_In%in_map_iff. rewrite Forall_forall in Hok.
    destruct (Hok z Hz) as [Hv Hd]. split; simpl; [done|]. rewrite encode_any_depth. split; [apply encode_any_lexed|done]. }
  destruct Hown as [Hso Hoo].
  set (named := if DModel d =s "" then own else put (to_bytes "model") (Some (JStr (escape (to_bytes (DModel d))))) own) in *.
  assert (Hnm : sorted named /\ Forall slot_ok named).
  { subst named. destruct (DModel d =s ""); [by split|]. split; [by apply put_sorted|]. apply put_Forall; [|done].
    split; [by vm_compute|]. simpl. split; [apply lit_str_ok, lit_escape|by vm_compute]. }
  destruct Hnm as [Hsn Hon].
  destruct (add_params (map_to_list (DParams d)) named) as (Hsp & Hop & Hg); try done.
  { apply Forall_forall. intros [k v] Hkv%elem_of_map_to_list. by apply (Hp k v). }
  unfold marshal_payload in H. destruct (all_some _) as [l|] eqn:E; simplify_eq/=.
  apply payload_values in E as (m' & Em & ->). rewrite Em in *. apply (proj1 (sorted_values Some m')) in Hsp.
  exists m'. rewrite to_of_bytes. split.
  - apply unmarshal_object; [done|]. clear -Hop. induction m' as [|kv m' IH]; [constructor|].
    inversion Hop as [|? ? [Hv Hx] Hop']; subst. simpl in Hx. destruct Hx as [Hl Hd]. constructor; [by split_and!|auto].
  - intros k. specialize (Hg k). rewrite get_map, passoc_map_to_list in Hg.
    assert (Hx : get (to_bytes k) named = if (k =s "model") && negb (DModel d =s "")
      then Some (Some (JStr (escape (to_bytes (DModel d))))) else (fun a => Some (encode_any a)) <$> get (to_bytes k) m).
    { subst named own. destruct (String.eqb_spec (DModel d) ""); simpl;
        [rewrite andb_false_r; apply (get_map (fun a => Some (encode_any a)))|].
      rewrite andb_true_r. destruct (String.eqb_spec k "model") as [->|Hk]; [apply get_put_eq|].
      rewrite get_put_ne by (by intros ?%(to_bytes_inj k "model")). apply (get_map (fun a => Some (encode_any a))). }
    rewrite Hx in Hg. unfold expected. destruct ((k =s "model") && _).
    { simpl in Hg. by destruct (get _ m'); simplify_eq/=. }
    destruct (get (to_bytes k) m) as [a|]; simpl in Hg.
    + by destruct (get _ m'); simplify_eq/=.
    + destruct (DParams d !! k) as [[v|]|]; simpl in *; destruct (get _ m'); simplify_eq/=; done.
Qed.

(** C33: The document null makes every request of an enabled policy panic: [Decide]
    routes it to a class, and the rewrite assigns to the nil map. *)
Theorem null_body_panics p h body :
  Validate p = None -> PolicyEnabled p = true -> parse (to_bytes body) = Some JNull ->
  exists d, Decide p h body = Some d /\ Rewrite body d = RewritePanic.
Proof.
  intros Hv He Hb. destruct (decide_cases p h body Hv) as (d & Hd & Hr). exists d. split; [done|].
  assert (Hm : ExtractModel body = "") by (unfold ExtractModel; by rewrite Hb).
  assert (Hs : ~ (DSource d = SourceDisabled \/ DSource d = SourceExplicitModel)).
  { unfold Decide in Hd. rewrite He, Hm in Hd. simpl in Hd. intros Hx.
    clear Hr. repeat case_match; simplify_eq/=; try (by destruct Hx).
    all: destruct (lookupClass p (DefaultClass p)); simplify_eq/=; by destruct Hx. }
  rewrite bool_decide_eq_false_2 in Hr by done. destruct Hr as (c & _ & _ & Hne & _).
  unfold Rewrite. rewrite bool_decide_eq_false_2 by done. unfold unmarshal_anymap, unmarshal_any. rewrite Hb. simpl.
  by rewrite (proj2 (String.eqb_neq _ _) Hne).
Qed.

(** ** Examples and witnesses *)

Definition ex_class (name model : string) (on : option bool) (markers : list string) (min : Z)
    (params : gmap string (option json)) : Class_ :=
  {| ClassName := name; Description := ""; ClassEnabled := on;
     ClassMatch := {| AnyOfMarkers := markers; MinPromptChars := min |};
     ClassRoute := {| RouteModel := model; RouteTier := "t"; RouteParams := params |} |}.

Definition ex_temperature : json :=
  JNum {| n_neg := false; n_int := ["0"%char]; n_frac := Some ["2"%char]; n_exp := None |}.

Definition ex_policy : Policy :=
  {| PolicyEnabled := true;
     Agents := {[ "cursor" := {| AgentEnabled := None; ForceClass_ := "code" |};
                  "codex" := {| AgentEnabled := Some false; ForceClass_ := "" |} ]};
     DefaultClass := "chat";
     Classes := [ex_class "chat" "small" (Some false) [] 0 ∅;
                 ex_class "code" "coder" None ["func "] 0 {[ "temperature" := Some ex_temperature ]};
                 ex_class "long" "wide" None [] 40 ∅] |}.

Lemma ex_valid : Validate ex_policy = None.
Proof. vm_compute. reflexivity. Qed.

Definition ex_auto : string := quoting "{'model':'auto','seed':9007199254740993,'messages':[{'content':'func main'}]}".

Definition ex_decision : Decision := decisionFor (ex_class "code" "coder" None ["func "] 0 {[ "temperature" := Some ex_temperature ]}) SourceHeuristic.

Definition ex_routed : string :=
  quoting "{'messages':[{'content':'func main'}],'model':'coder','seed':9007199254740992,'temperature':0.2}".

(** The caller's seed is altered by the rewrite: numbers pass through float64. *)
Example rewrite_alters_numbers :
  Decide ex_policy ∅ ex_auto = Some ex_decision /\ Rewrite ex_auto ex_decision = Rewritten ex_routed /\
  field "seed" ex_routed <> field "seed" ex_auto.
Proof. vm_compute. done. Qed.

(** The default class is used although it is switched off. *)
Example default_ignores_flag :
  exists d, Decide ex_policy ∅ (quoting "{'model':'auto'}") = Some d /\ DClass d = "chat" /\ DSource d = SourceDefault.
Proof. eexists. split; [vm_compute; reflexivity|done]. Qed.

(** An agent entry whose name is not in lower case gates nothing: the identity
    is folded, the key of the policy is not. *)
Theorem agent_key_case p p' agent k ap :
  ToLower k <> k -> PolicyEnabled p' = PolicyEnabled p -> Agents p' = <[k := ap]> (Agents p) -> Agents p !! k = None ->
  AgentAllowed p' agent = AgentAllowed p agent /\ ForceClass p' agent = ForceClass p agent.
Proof.
  intros Hk He Ha Hn. assert (Hne : ToLower agent <> k).
  { intros <-. by rewrite ToLower_idemp in Hk. }
  unfold AgentAllowed, agentAllowed, ForceClass. rewrite He, Ha, lookup_insert_ne by done.
  rewrite (bool_decide_eq_false_2 (<[k:=ap]> (Agents p) = ∅)) by apply insert_non_empty. simpl.
  split; [|done]. destruct (negb (PolicyEnabled p)); [done|]. destruct (agent =s ""); [by rewrite orb_true_r|].
  rewrite orb_false_r. case_bool_decide as Hx; [|done]. by rewrite Hx, lookup_empty.
Qed.

Lemma decide_total_witness : exists d, Decide ex_policy ∅ ex_auto = Some d.
Proof. destruct (decide_total ex_policy ∅ ex_auto) as (d & H & _); [vm_compute; reflexivity|]. exists d. exact H. Defined.

Lemma rewrite_fills_gaps_witness : exists m', unmarshal_map (to_bytes ex_routed) = DVal m' /\
  get (to_bytes "temperature") m' = Some ex_temperature.
Proof.
  destruct (unmarshal_anymap (to_bytes ex_auto)) as [| |m] eqn:E; [vm_compute in E; discriminate..|].
  destruct (rewrite_fills_gaps ex_auto ex_decision m ex_routed E) as (m' & H & Hg);
    [|discriminate|discriminate|vm_compute; reflexivity|].
  - apply map_Forall_singleton. split; [vm_compute; reflexivity|]. split; [|vm_compute; discriminate].
    split; [left; reflexivity| |exact I]. split; [discriminate|repeat constructor].
  - exists m'. split; [exact H|]. rewrite (Hg "temperature"). vm_compute in E. injection E as <-. reflexivity.
Defined.

Lemma null_body_panics_witness : exists d, Rewrite "null" d = RewritePanic.
Proof.
  destruct (null_body_panics ex_policy ∅ "null") as (d & _ & H); [vm_compute; reflexivity|reflexivity|reflexivity|].
  exists d. exact H.
Defined.

End SmartRouteSpec.
