(* ===== verification/PolicyScript.v ===== *)
(** * The stand-alone check of a smartroute policy

    Models [scripts/validate-smartroute.go]: a policy is loaded, four requests
    are decided and rewritten, and a table is printed.  The exit status is what
    a pipeline goes by; the theorem says exactly what it vouches for. *)

From Stdlib Require Import ZArith Lia Ascii String.
From stdpp Require Import base option list gmap strings.
From S2P Require Import Prelude GoStrings Utf8 Strconv Json JsonMap JsonAny Headers RequestBody SmartRoute SmartRouteSpec.

Module PolicyScript.
Import GoStrings Utf8 Json JsonMap JsonAny RequestBody SmartRoute SmartRouteSpec.

(** ** The program *)

(** The texts of the sources of a decision. *)
Definition source_text (s : source) : string :=
  match s with
  | SourceHeader => "header" | SourceExplicitModel => "explicit_model" | SourceHeuristic => "heuristic"
  | SourceDefault => "default" | SourceDisabled => "disabled" | SourceAgentForce => "agent_force"
  end.

(** [%-<n>s]: at least [n] runes, blanks on the right. *)
Definition pad (n : nat) (s : string) : bytes :=
  to_bytes s ++ repeat " "%char (n - length (runes (to_bytes s))).

(** The four requests, with their quotation marks. *)
Definition cases : list (string * string) :=
  [("code", quoting "{'model':'auto','messages':[{'role':'user','content':'func main() {}'}]}");
   ("chat", quoting "{'model':'auto','messages':[{'role':'user','content':'hello there'}]}");
   ("explicit", quoting "{'model':'gpt-4o','messages':[{'role':'user','content':'func x'}]}");
   ("summarise", quoting "{'model':'auto','messages':[{'role':'user','content':'tl;dr this'}]}")]%string.

Definition table_line (name : string) (d : Decision) (out : string) : bytes :=
  pad 10 name ++ to_bytes " class=" ++ pad 13 (DClass d) ++ to_bytes " model=" ++ pad 18 (DModel d) ++
  to_bytes " tier=" ++ pad 7 (DTier d) ++ to_bytes " source=" ++ pad 15 (source_text (DSource d)) ++
  to_bytes " body=" ++ Strconv.Itoa (Z.of_nat (String.length out)) ++ to_bytes "B" ++ [byte 10].

(** How one case ends: its line and whether it failed, or a panic. *)
Inductive verdict := Line (failed : bool) (l : bytes) | CasePanics.

(** [defaultText] and [encodeText] are the texts of the two errors. *)
Definition run_case (p : Policy) (defaultText encodeText : string) (c : string * string) : verdict :=
  match Decide p ∅ c.2 with
  | None => Line true (to_bytes ("DECIDE_FAIL: " ++ c.1 ++ " " ++ defaultText) ++ [byte 10])
  | Some d =>
      match Rewrite c.2 d with
      | RewritePanic => CasePanics
      | RewriteErr => Line true (to_bytes ("REWRITE_FAIL: " ++ c.1 ++ " " ++ encodeText) ++ [byte 10])
      | Rewritten out => Line false (table_line c.1 d out)
      end
  end.

Fixpoint run_cases (p : Policy) (defaultText encodeText : string) (cs : list (string * string)) (fail : Z) (out : list bytes)
  : option (list bytes * Z) :=
  match cs with
  | [] => Some (out, fail)
  | c :: cs =>
      match run_case p defaultText encodeText c with
      | CasePanics => None
      | Line failed l => run_cases p defaultText encodeText cs (if failed then fail + 1 else fail) (out ++ [l])
      end
  end.

(** The default path, unless an argument names another. *)
Definition policy_path (args : list string) : string := default "configs/smartroute.example.yml"%string (head args).

(** The lines printed and the exit status; [None] is a panic.  [decode] is what
    reading and decoding the file gives, [loadText] the text of a load error. *)
Definition main (decode : string -> option Policy) (loadText defaultText encodeText : string) (args : list string) : option (list bytes * Z) :=
  match LoadPolicy (decode (policy_path args)) with
  | None => Some ([to_bytes ("LOAD_FAIL: " ++ loadText) ++ [byte 10]], 1)
  | Some p =>
      match run_cases p defaultText encodeText cases 0 [] with
      | None => None
      | Some (out, fail) =>
          if 0 <? fail then Some (out, 1) else Some (out ++ [to_bytes "example policy OK" ++ [byte 10]], 0)
      end
  end.

(** ** Properties *)

(** A parameter that has an encoding; what YAML decodes to a map with keys that
    are no strings, or to a number that is not finite, has none. *)
Definition encodable (p : Policy) : Prop :=
  Forall (fun c => map_Forall (fun _ v => is_Some v) (RouteParams (ClassRoute c))) (Classes p).

Lemma all_some_total {A} (l : list (option A)) : Forall is_Some l -> is_Some (all_some l).
Proof. induction 1 as [|x l [a ->] _ [r Hr]]; simpl; [done|]. rewrite Hr. done. Qed.

Lemma add_params_some l : forall m,
  Forall (fun kv : string * option json => is_Some kv.2) l -> Forall (fun kv : bytes * option json => is_Some kv.2) m ->
  Forall (fun kv => is_Some kv.2) (foldl add_param m l).
Proof.
  induction l as [|kv l IH]; intros m Hl Hm; simpl; [done|]. inversion Hl; subst. apply IH; [done|].
  unfold add_param. case_bool_decide; [done|]. by apply put_Forall.
Qed.

(** A body that is not null is always rewritten, if the parameters have encodings. *)
Lemma rewrite_total body d :
  unmarshal_anymap (to_bytes body) <> DNil -> map_Forall (fun _ v => is_Some v) (DParams d) ->
  exists out, Rewrite body d = Rewritten out.
Proof.
  intros Hn Hp. unfold Rewrite. case_bool_decide; [by eexists|]. destruct (unmarshal_anymap (to_bytes body)) as [| |m]; [by eexists|done|].
  unfold marshal_payload. match goal with |- context [all_some ?l] => destruct (all_some_total l) as [x ->] end; [|by eexists].
  apply Forall_forall. intros y (kv & <- & Hkv%list_elem_of_In)%list_elem_of_In%in_map_iff. apply fmap_is_Some. revert kv Hkv.
  apply Forall_forall, add_params_some.
  - apply Forall_forall. intros [k v] Hkv%elem_of_map_to_list. by apply (Hp k v).
  - assert (Ho : Forall (fun kv : bytes * option json => is_Some kv.2) (List.map (fun kv => (kv.1, Some (encode_any kv.2))) m)).
    { apply Forall_forall. intros y (z & <- & _)%list_elem_of_In%in_map_iff. by eexists. }
    destruct (DModel d =s ""); [done|]. apply put_Forall; [by eexists|done].
Qed.

Lemma case_passes p dt et c :
  Validate p = None -> encodable p -> unmarshal_anymap (to_bytes c.2) <> DNil ->
  exists d out, Decide p ∅ c.2 = Some d /\ Rewrite c.2 d = Rewritten out /\ run_case p dt et c = Line false (table_line c.1 d out).
Proof.
  intros Hv He Hn. destruct (decide_cases p ∅ c.2 Hv) as (d & Hd & Hc).
  assert (Hr : exists out, Rewrite c.2 d = Rewritten out).
  { case_bool_decide; [by destruct Hc; eexists|]. destruct Hc as (cl & Hin & Hcl & _). apply rewrite_total; [done|].
    rewrite Hcl. unfold encodable in He. rewrite Forall_forall in He. apply (He cl Hin). }
  destruct Hr as [out Ho]. exists d, out. split_and!; [done|done|]. unfold run_case. by rewrite Hd, Ho.
Qed.

Lemma cases_pass p dt et cs : forall out,
  Validate p = None -> encodable p -> Forall (fun c => unmarshal_anymap (to_bytes c.2) <> DNil) cs ->
  exists lines, run_cases p dt et cs 0 out = Some (out ++ lines, 0) /\ length lines = length cs.
Proof.
  induction cs as [|c cs IH]; intros out Hv He Hcs; [exists []; by rewrite app_nil_r|]. inversion Hcs; subst.
  destruct (case_passes p dt et c Hv He) as (d & o & _ & _ & Hc); [done|]. cbn [run_cases]. rewrite Hc.
  destruct (IH (out ++ [table_line c.1 d o])) as (lines & -> & Hl); try done.
  exists (table_line c.1 d o :: lines). rewrite <- app_assoc. split; [done|]. simpl. by rewrite Hl.
Qed.

(** What the exit status vouches for: it is 0 for every policy that loads and
    whose parameters can be encoded, whatever its classes send the four requests
    to, since no decision is compared with anything; and a status of 0 means that
    the policy loaded. *)
Theorem validator_passes_what_loads decode lt dt et args :
  (forall p, LoadPolicy (decode (policy_path args)) = Some p -> encodable p ->
   exists lines, main decode lt dt et args = Some (lines ++ [to_bytes "example policy OK" ++ [byte 10]], 0) /\ length lines = 4%nat) /\
  (forall out, main decode lt dt et args = Some (out, 0) -> is_Some (LoadPolicy (decode (policy_path args)))).
Proof.
  unfold main. split.
  - intros p Hp He. rewrite Hp. destruct (cases_pass p dt et cases []) as (lines & -> & Hl); [|done| |by exists lines].
    + unfold LoadPolicy in Hp. apply bind_Some in Hp as (q & _ & Hq). destruct (Validate q) eqn:Ev; [done|]. by simplify_eq.
    + repeat constructor; by vm_compute.
  - intros out H. destruct (LoadPolicy (decode (policy_path args))) as [p|]; [by eexists|done].
Qed.

(** The policy of the routing tests, with the markers of its code class turned
    round so that everything is sent elsewhere, passes all the same. *)
Definition ex_misrouting : Policy :=
  {| PolicyEnabled := true; Agents := ∅; DefaultClass := "code";
     Classes := [ex_class "code" "small" None [] 0 ∅; ex_class "chat" "coder" None ["func "] 0 ∅] |}.

Lemma validator_passes_what_loads_witness :
  exists lines, main (fun _ => Some ex_misrouting) "" "" "" [] = Some (lines ++ [to_bytes "example policy OK" ++ [byte 10]], 0).
Proof.
  destruct (validator_passes_what_loads (fun _ => Some ex_misrouting) "" "" "" []) as [H _].
  destruct (H ex_misrouting) as (lines & Hm & _); [vm_compute; reflexivity|repeat constructor; by apply map_Forall_empty|].
  exists lines. exact Hm.
Defined.

(** Its code request goes to the chat class. *)
Example misrouted_code :
  DClass <$> Decide ex_misrouting ∅ (quoting "{'model':'auto','messages':[{'role':'user','content':'func main() {}'}]}") = Some "chat"%string.
Proof. vm_compute. reflexivity. Qed.

End PolicyScript.
