(* ===== verification/Selection.v ===== *)
(** * Building and selecting upstream nodes

    Models, of [src/main.go], [upstreamNode] and its methods, [buildReloadable],
    [newRouter]'s and [Reload]'s arming of the PII rule, and
    [selectNodeFromSnapExcluding]; of [src/internal/router/helpers.go] the
    small predicates; of [src/internal/piiroute/piiroute.go] the two rule
    predicates; of [src/internal/quota/quota.go] the construction of a detector.

    A node is a shared object: every request holds pointers to the same nodes.
    The nodes of a snapshot are therefore one store, a list, a pointer is an
    index of it, and an operation returns the store it leaves. *)

From Stdlib Require Import ZArith Lia.
From stdpp Require Import base option list gmap strings sorting.
From S2P Require Import Prelude GoStrings Circuit KeyPool RouterConfig SmartRoute.

Module Selection.
Import GoStrings RouterConfig.
Import Circuit(Breaker, Allow, NewBreaker, WithName).
Import KeyPool(Pool).

(** ** Helpers of internal/router, internal/piiroute, internal/proxy *)

Definition NodeEnabled (value : string) : bool :=
  let value := TrimSpace (ToLower value) in
  (value =s "") || (value =s "1") || (value =s "true") || (value =s "yes") || (value =s "on").

Fixpoint SupportsModel (models : list string) (model : string) : bool :=
  match models with
  | [] => false
  | candidate :: models' => if candidate =s model then true else SupportsModel models' model
  end.

Definition MetricLabel (value fallback : string) : string :=
  let value := TrimSpace value in
  if value =s "" then fallback else value.

Inductive WorkloadClass := ClassInternal | ClassCustomer.

#[export] Instance WorkloadClass_eq_dec : EqDecision WorkloadClass.
Proof. solve_decision. Defined.

Definition class_string (c : WorkloadClass) : string :=
  match c with ClassInternal => "internal" | ClassCustomer => "customer" end.

Definition PersonalBlocks (personal nodePIILocal : bool) : bool := personal && negb nodePIILocal.

Definition RuleArmed (mode : string) (anyNodePIILocal : bool) : bool :=
  if mode =s "enforce" then true
  else if mode =s "off" then false
  else anyNodePIILocal.

(** ** Nodes *)

(** The parts of [*url.URL] the router reads and writes. *)
Record url := { UScheme : string; UHost : string; UPath : string; URawQuery : string }.

(** [quotaDet] is the pattern of the compiled detector; the breaker and the
    pool are absent only on a node not built by [buildReloadable]. *)
Record upstreamNode := {
  cfg : NodeConfig;
  baseURL : url;
  healthy : bool;
  consecutivePass : Z;
  consecutiveFail : Z;
  keyIdx : Z;
  keys : option Pool;
  quotaDet : option string;
  breaker : option Breaker;
  tunnelClient : option SSHTunnelRuntime;
}.

Definition set_breaker (n : upstreamNode) (b : option Breaker) : upstreamNode :=
  {| cfg := cfg n; baseURL := baseURL n; healthy := healthy n; consecutivePass := consecutivePass n;
     consecutiveFail := consecutiveFail n; keyIdx := keyIdx n; keys := keys n; quotaDet := quotaDet n;
     breaker := b; tunnelClient := tunnelClient n |}.

Definition set_keys (n : upstreamNode) (p : option Pool) : upstreamNode :=
  {| cfg := cfg n; baseURL := baseURL n; healthy := healthy n; consecutivePass := consecutivePass n;
     consecutiveFail := consecutiveFail n; keyIdx := keyIdx n; keys := p; quotaDet := quotaDet n;
     breaker := breaker n; tunnelClient := tunnelClient n |}.

Definition set_keyIdx (n : upstreamNode) (i : Z) : upstreamNode :=
  {| cfg := cfg n; baseURL := baseURL n; healthy := healthy n; consecutivePass := consecutivePass n;
     consecutiveFail := consecutiveFail n; keyIdx := i; keys := keys n; quotaDet := quotaDet n;
     breaker := breaker n; tunnelClient := tunnelClient n |}.

Definition set_health (n : upstreamNode) (h : bool) (pass fail : Z) : upstreamNode :=
  {| cfg := cfg n; baseURL := baseURL n; healthy := h; consecutivePass := pass;
     consecutiveFail := fail; keyIdx := keyIdx n; keys := keys n; quotaDet := quotaDet n;
     breaker := breaker n; tunnelClient := tunnelClient n |}.

Definition anyNodePIILocal (nodes : list upstreamNode) : bool :=
  existsb (fun n => PIILocal (cfg n)) nodes.

Definition AllowsClass (n : upstreamNode) (c : WorkloadClass) : bool :=
  if Nat.eqb (length (Workloads (cfg n))) 0 then true
  else bool_decide (class_string c ∈ Workloads (cfg n)).

(** The path of a node built outside [buildReloadable], and the single key. *)
Definition fallbackKey (n : upstreamNode) : string * Z * upstreamNode :=
  if Nat.ltb 0 (length (APIKeys (cfg n))) then
    let idx := wrapu64 (wrapu64 (keyIdx n + 1) - 1) in
    let i := idx mod Z.of_nat (length (APIKeys (cfg n))) in
    (default "" (APIKeys (cfg n) !! Z.to_nat i), i, set_keyIdx n (wrapu64 (keyIdx n + 1)))
  else (APIKey (cfg n), -1, n).

(** The key, its pool index (-1 outside a pool) and the node with its cursor
    advanced. *)
Definition nextAPIKeyIdx (now : Time) (n : upstreamNode) : string * Z * upstreamNode :=
  match keys n with
  | Some p =>
      if 0 <? KeyPool.size p then
        let '(k, i, p') := KeyPool.Next now p in (k, i, set_keys n (Some p'))
      else fallbackKey n
  | None => fallbackKey n
  end.

(** ** Building the reloadable state *)

Inductive buildError :=
| ErrNodeNameURL
| ErrNodeURL (name : string)
| ErrNodeTunnel (name : string) (e : tunnelError).

Definition with_weight (nc : NodeConfig) (w : Z) : NodeConfig :=
  {| Name := Name nc; URL := URL nc; Tier := Tier nc; Enabled := Enabled nc; Weight := w;
     Models := Models nc; APIKey := APIKey nc; APIKeys := APIKeys nc; Workloads := Workloads nc;
     PIILocal := PIILocal nc; Vendor := Vendor nc; APIKeyEnv := APIKeyEnv nc;
     EnabledVendor := EnabledVendor nc; ModelRewrite := ModelRewrite nc;
     RequestDefaults := RequestDefaults nc; QuotaDetectRegex := QuotaDetectRegex nc;
     Priority := Priority nc; NCircuit := NCircuit nc; AuthHeader := AuthHeader nc;
     HealthCheckDisabled := HealthCheckDisabled nc; NTunnel := NTunnel nc |}.

Section build.

(** [url.Parse], and whether [regexp.Compile] accepts a pattern. *)
Context (url_parse : string -> option url) (regex_compiles : string -> bool).

(** [quota.New]: no detector for an empty pattern or one that does not compile. *)
Definition newDetector (pattern : string) : option string :=
  if pattern =s "" then None else if regex_compiles pattern then Some pattern else None.

(** One enabled node of the loop. *)
Definition buildNode (def : Defaults) (nc : NodeConfig) : buildError + upstreamNode :=
  if (Name nc =s "") || (URL nc =s "") then inl ErrNodeNameURL
  else
    let nc := if Weight nc <=? 0 then with_weight nc 1 else nc in
    match url_parse (URL nc) with
    | None => inl (ErrNodeURL (Name nc))
    | Some parsed =>
        let '(ctThreshold, ctCooldown) := ResolvedCircuit nc def in
        let node tc :=
          {| cfg := nc; baseURL := parsed; healthy := true; consecutivePass := 0;
             consecutiveFail := 0; keyIdx := 0;
             keys := Some (KeyPool.New (APIKeys nc) (KeyCooldown def));
             quotaDet := newDetector (QuotaDetectRegex nc);
             breaker := Some (WithName (NewBreaker ctThreshold ctCooldown) (Name nc));
             tunnelClient := tc |} in
        if TEnabled (NTunnel nc) then
          match ToRuntime (NTunnel nc) with
          | inl e => inl (ErrNodeTunnel (Name nc) e)
          | inr rt => inr (node (Some rt))
          end
        else inr (node None)
    end.

Fixpoint buildNodes (def : Defaults) (ncs : list NodeConfig) : buildError + list upstreamNode :=
  match ncs with
  | [] => inr []
  | nc :: ncs' =>
      if negb (NodeEnabled (Enabled nc)) then buildNodes def ncs'
      else
        match buildNode def nc with
        | inl e => inl e
        | inr n =>
            match buildNodes def ncs' with
            | inl e => inl e
            | inr ns => inr (n :: ns)
            end
        end
  end.

(** The nodes and the capacity of the semaphore. *)
Definition buildReloadable (c : Config) : buildError + (list upstreamNode * Z) :=
  match buildNodes (CDefaults c) (Nodes c) with
  | inl e => inl e
  | inr ns => inr (ns, MaxConcurrency (CDefaults c))
  end.

(** The reloadable fields of the router. *)
Record routerState := {
  rcfg : Config;
  rnodes : list upstreamNode;
  semCap : Z;
  piiRuleArmed : bool;
  smart : option SmartRoute.Policy;
}.

Inductive reloadError := RLoad (e : configError) | RBuild (e : buildError) | RSmart.

(** [loadSmartRoute]; [None] is an error, [Some None] a router without the
    feature.  [readPolicy] reads and decodes the policy file. *)
Definition loadSmartRoute (readPolicy : string -> option SmartRoute.Policy) (c : Config)
  : option (option SmartRoute.Policy) :=
  if negb (SmEnabled (SmartRoute c)) || (PolicyFile (SmartRoute c) =s "") then Some None
  else Some <$> SmartRoute.LoadPolicy (readPolicy (PolicyFile (SmartRoute c))).

Definition newRouterState (c : Config) (ns : list upstreamNode) (cap : Z) (sm : option SmartRoute.Policy)
  : routerState :=
  {| rcfg := c; rnodes := ns; semCap := cap;
     piiRuleArmed := RuleArmed (PIILocalRule c) (anyNodePIILocal ns); smart := sm |}.

(** [Reload]: [loaded] is what [loadConfig] returns for the file.  On an error
    the state is the one before. *)
Definition Reload (loaded : configError + Config) (readPolicy : string -> option SmartRoute.Policy)
    (r : routerState) : option reloadError * routerState :=
  match loaded with
  | inl e => (Some (RLoad e), r)
  | inr c =>
      match buildReloadable c with
      | inl e => (Some (RBuild e), r)
      | inr (ns, cap) =>
          match loadSmartRoute readPolicy c with
          | None => (Some RSmart, r)
          | Some sm => (None, newRouterState c ns cap sm)
          end
      end
  end.

End build.

(** ** Selection *)

Record query := {
  model : string;
  targetTier : string;
  excluded : gset string;
  class : WorkloadClass;
  personal : bool;
}.

(** Every filter ahead of the breaker. *)
Definition prefilter (q : query) (n : upstreamNode) : bool :=
  AllowsClass n (class q) &&
  negb (personal q && PersonalBlocks (personal q) (PIILocal (cfg n))) &&
  healthy n &&
  negb (bool_decide (Name (cfg n) ∈ excluded q)) &&
  ((TrimSpace (targetTier q) =s "") || (Tier (cfg n) =s TrimSpace (targetTier q))).

(** One node of the scan: whether it is a candidate, and the node after the
    breaker was asked ([Allow] may move an open breaker to half-open). *)
Definition consider (now : Time) (q : query) (n : upstreamNode) : bool * upstreamNode :=
  if negb (prefilter q n) then (false, n)
  else
    let fits := (model q =s "") || SupportsModel (Models (cfg n)) (model q) in
    match breaker n with
    | None => (fits, n)
    | Some b =>
        let '(ok, b') := Allow now b in
        (ok && fits, set_breaker n (Some b'))
    end.

(** A bucket gains one entry per unit of weight. *)
Definition add_bucket (p : Z) (i : nat) (weight : Z) (bs : gmap Z (list nat)) : gmap Z (list nat) :=
  <[p := default [] (bs !! p) ++ replicate (Z.to_nat weight) i]> bs.

(** The loop over the snapshot from index [i]; [clk j] is the clock reading of
    node [j]'s breaker. *)
Fixpoint scan (clk : nat -> Time) (q : query) (i : nat) (ns : list upstreamNode)
    (bs : gmap Z (list nat)) : gmap Z (list nat) * list upstreamNode :=
  match ns with
  | [] => (bs, [])
  | n :: ns' =>
      let '(ok, n') := consider (clk i) q n in
      let bs' := if ok then add_bucket (Priority (cfg n)) i (Weight (cfg n)) bs else bs in
      let '(out, rest) := scan clk q (S i) ns' bs' in
      (out, n' :: rest)
  end.

(** The selection panics on an empty bucket (modulo by zero) and on a negative
    index (the cursor converted to [int]). *)
Inductive selection := Panic | NoNode | Chosen (i : nat).

Definition selectNodeFromSnapExcluding (clk : nat -> Time) (q : query) (ns : list upstreamNode) (rr : Z)
  : selection * list upstreamNode * Z :=
  let '(bs, ns') := scan clk q 0 ns ∅ in
  if Nat.eqb (size bs) 0 then (NoNode, ns', rr)
  else
    let priorities := merge_sort Z.le (map_to_list bs).*1 in
    let candidates := default [] (head priorities ≫= fun p => bs !! p) in
    let rr' := wrapu64 (rr + 1) in
    let n := Z.of_nat (length candidates) in
    if n =? 0 then (Panic, ns', rr')
    else
      let idx := Z.rem (wrap64 (wrapu64 (rr' - 1))) n in
      if idx <? 0 then (Panic, ns', rr')
      else (match candidates !! Z.to_nat idx with Some i => Chosen i | None => Panic end, ns', rr').

(** [selectNodeFromSnap]: at most one excluded name. *)
Definition selectNodeFromSnap (clk : nat -> Time) (model targetTier excludeName : string)
    (class : WorkloadClass) (personal : bool) (ns : list upstreamNode) (rr : Z)
  : selection * list upstreamNode * Z :=
  let excluded : gset string := if excludeName =s "" then ∅ else {[ excludeName ]} in
  selectNodeFromSnapExcluding clk
    {| model := model; targetTier := targetTier; excluded := excluded; class := class;
       personal := personal |} ns rr.

(** ** The model list *)

(** [handleModels]: the models of the healthy nodes of the caller's class, each
    once, in the order first met. *)
Fixpoint add_models (seen : list string) (ms : list string) : list string :=
  match ms with
  | [] => seen
  | m :: ms' => if bool_decide (m ∈ seen) then add_models seen ms' else add_models (seen ++ [m]) ms'
  end.

Definition handleModels (c : WorkloadClass) (ns : list upstreamNode) : list string :=
  foldl (fun seen n =>
    if negb (AllowsClass n c) then seen
    else if negb (healthy n) then seen
    else add_models seen (Models (cfg n))) [] ns.

(** ** What selection promises *)

(** A node that may serve the query now. *)
Record eligible (now : Time) (q : query) (n : upstreamNode) : Prop := {
  el_class : Workloads (cfg n) = [] \/ class_string (class q) ∈ Workloads (cfg n);
  el_pii : personal q = true -> PIILocal (cfg n) = true;
  el_healthy : healthy n = true;
  el_excluded : Name (cfg n) ∉ excluded q;
  el_tier : TrimSpace (targetTier q) = "" \/ Tier (cfg n) = TrimSpace (targetTier q);
  el_breaker : forall b, breaker n = Some b -> fst (Allow now b) = true;
  el_model : model q = "" \/ model q ∈ Models (cfg n);
}.

Lemma SupportsModel_spec ms m : SupportsModel ms m = true <-> m ∈ ms.
Proof.
  induction ms as [|x ms IH]; simpl; [set_solver|].
  destruct (String.eqb_spec x m); set_solver.
Qed.

Lemma AllowsClass_spec n c :
  AllowsClass n c = true <-> Workloads (cfg n) = [] \/ class_string c ∈ Workloads (cfg n).
Proof.
  unfold AllowsClass. destruct (Workloads (cfg n)) as [|w ws]; cbn [length Nat.eqb]; [by intuition|].
  rewrite bool_decide_eq_true. naive_solver.
Qed.

Lemma prefilter_spec q n :
  prefilter q n = true <->
  (Workloads (cfg n) = [] \/ class_string (class q) ∈ Workloads (cfg n)) /\
  (personal q = true -> PIILocal (cfg n) = true) /\ healthy n = true /\
  Name (cfg n) ∉ excluded q /\
  (TrimSpace (targetTier q) = "" \/ Tier (cfg n) = TrimSpace (targetTier q)).
Proof.
  unfold prefilter, PersonalBlocks. rewrite !andb_true_iff, AllowsClass_spec, !negb_true_iff,
    bool_decide_eq_false, orb_true_iff, !String.eqb_eq.
  destruct (personal q), (PIILocal (cfg n)); simpl; naive_solver.
Qed.

Lemma consider_spec now q n : fst (consider now q n) = true <-> eligible now q n.
Proof.
  unfold consider. destruct (prefilter q n) eqn:Ep; simpl.
  - apply prefilter_spec in Ep as (?&?&?&?&?).
    assert (Hm : (model q =s "") || SupportsModel (Models (cfg n)) (model q) = true <->
                 model q = "" \/ model q ∈ Models (cfg n)).
    { by rewrite orb_true_iff, String.eqb_eq, SupportsModel_spec. }
    destruct (breaker n) as [b|] eqn:Eb; simpl.
    + destruct (Allow now b) as [ok b'] eqn:Ea; simpl. rewrite andb_true_iff, Hm. split.
      * intros [-> ?]. split; try done. intros b0. rewrite Eb. intros [= <-]. by rewrite Ea.
      * intros []. split; [|done]. specialize (el_breaker0 _ Eb). by rewrite Ea in el_breaker0.
    + rewrite Hm. split; [|by intros []]. intros ?. split; try done. by rewrite Eb.
  - split; [done|]. intros []. enough (prefilter q n = true) by congruence. by apply prefilter_spec.
Qed.

(** The entries of priority [p]: each candidate's index, once per unit of
    weight, in node order. *)
Fixpoint bucket_of (clk : nat -> Time) (q : query) (p : Z) (i : nat) (ns : list upstreamNode) : list nat :=
  match ns with
  | [] => []
  | n :: ns' =>
      (if fst (consider (clk i) q n) && (Priority (cfg n) =? p)
       then replicate (Z.to_nat (Weight (cfg n))) i else []) ++ bucket_of clk q p (S i) ns'
  end.

(** The store a selection leaves. *)
Definition considered (clk : nat -> Time) (q : query) (i : nat) (ns : list upstreamNode) : list upstreamNode :=
  imap (fun j n => snd (consider (clk (i + j)%nat) q n)) ns.

Lemma considered_cons clk q i n ns :
  considered clk q i (n :: ns) = snd (consider (clk i) q n) :: considered clk q (S i) ns.
Proof.
  unfold considered. simpl. rewrite Nat.add_0_r. f_equal. apply imap_ext. intros j m _. simpl.
  by rewrite Nat.add_succ_r.
Qed.

Lemma scan_nodes clk q i ns bs : snd (scan clk q i ns bs) = considered clk q i ns.
Proof.
  revert i bs. induction ns as [|n ns IH]; intros i bs; [done|]. rewrite considered_cons. simpl.
  destruct (consider (clk i) q n) as [ok n']. specialize (IH (S i)).
  match goal with |- context [scan clk q (S i) ns ?b] => specialize (IH b); destruct (scan clk q (S i) ns b) end.
  simpl in *. by rewrite IH.
Qed.

Lemma scan_bucket clk q i ns bs p :
  default [] (fst (scan clk q i ns bs) !! p) = default [] (bs !! p) ++ bucket_of clk q p i ns.
Proof.
  revert i bs. induction ns as [|n ns IH]; intros i bs; simpl; [by rewrite app_nil_r|].
  destruct (consider (clk i) q n) as [ok n']. specialize (IH (S i)).
  match goal with |- context [scan clk q (S i) ns ?b] => specialize (IH b); destruct (scan clk q (S i) ns b) end.
  simpl in *. rewrite IH. destruct ok; simpl; [|done].
  unfold add_bucket. destruct (Z.eqb_spec (Priority (cfg n)) p) as [<-|Hne].
  - by rewrite lookup_insert_eq, app_assoc.
  - by rewrite lookup_insert_ne.
Qed.

Lemma scan_dom clk q i ns bs p :
  is_Some (fst (scan clk q i ns bs) !! p) <->
  is_Some (bs !! p) \/
  exists j n, ns !! j = Some n /\ eligible (clk (i + j)%nat) q n /\ Priority (cfg n) = p.
Proof.
  revert i bs. induction ns as [|n ns IH]; intros i bs; simpl.
  { split; [auto|]. intros [?|(j & n & Hj & _)]; [done|]. by rewrite lookup_nil in Hj. }
  pose proof (consider_spec (clk i) q n) as Hc.
  destruct (consider (clk i) q n) as [ok n']. specialize (IH (S i)).
  match goal with |- context [scan clk q (S i) ns ?b] => specialize (IH b); destruct (scan clk q (S i) ns b) end.
  simpl in *. rewrite IH. split.
  - intros [H|(j & m & Hj & He & Hp)].
    + destruct ok; [|by left]. unfold add_bucket in H.
      destruct (decide (Priority (cfg n) = p)) as [Hp|Hp].
      * right. exists 0%nat, n. rewrite Nat.add_0_r. split; [done|]. split; [by apply Hc|done].
      * left. by rewrite lookup_insert_ne in H.
    + right. exists (S j), m. rewrite Nat.add_succ_r. done.
  - intros [H|([|j] & m & Hj & He & Hp)].
    + left. destruct ok; [|done]. unfold add_bucket. rewrite lookup_insert_is_Some.
      destruct (decide (Priority (cfg n) = p)); auto.
    + left. simpl in Hj. injection Hj as <-. rewrite Nat.add_0_r in He.
      apply Hc in He as ->. unfold add_bucket. rewrite <- Hp, lookup_insert_eq. by eexists.
    + right. exists j, m. rewrite Nat.add_succ_r in He. done.
Qed.


(** The head of the sorted priorities is the least key. *)
Lemma head_priority (bs : gmap Z (list nat)) :
  bs <> ∅ ->
  exists p c, head (merge_sort Z.le (map_to_list bs).*1) = Some p /\ bs !! p = Some c /\
    forall p', is_Some (bs !! p') -> p <= p'.
Proof.
  intros Hne. set (l := (map_to_list bs).*1).
  assert (Hin : forall p, p ∈ merge_sort Z.le l <-> is_Some (bs !! p)).
  { intros p. rewrite (merge_sort_Permutation Z.le l). unfold l.
    rewrite list_elem_of_fmap. split.
    - intros ([p' c] & -> & H). apply elem_of_map_to_list in H. by exists c.
    - intros [c H]. exists (p, c). split; [done|]. by apply elem_of_map_to_list. }
  assert (Hs : StronglySorted Z.le (merge_sort Z.le l)).
  { apply Sorted_StronglySorted; [apply _|]. apply (Sorted_merge_sort _). }
  destruct (merge_sort Z.le l) as [|p ps] eqn:E.
  - destruct (map_choose _ Hne) as (p & c & Hp). assert (p ∈ @nil Z) by (apply Hin; by exists c). set_solver.
  - assert (is_Some (bs !! p)) as [c Hc] by (apply Hin; set_solver).
    exists p, c. split; [done|]. split; [done|]. intros p' Hp'. apply Hin in Hp'.
    apply StronglySorted_inv in Hs as [_ Hall]. rewrite Forall_forall in Hall.
    apply elem_of_cons in Hp' as [-> | Hp']; [lia|]. by apply Hall.
Qed.

Definition is_best (clk : nat -> Time) (q : query) (ns : list upstreamNode) (p : Z) : Prop :=
  (exists j n, ns !! j = Some n /\ eligible (clk j) q n /\ Priority (cfg n) = p) /\
  forall j n, ns !! j = Some n -> eligible (clk j) q n -> p <= Priority (cfg n).

(** The selection in terms of the specification: nothing eligible, or the entry
    of the best bucket at the cursor. *)
Lemma select_cases clk q ns rr :
  (selectNodeFromSnapExcluding clk q ns rr = (NoNode, considered clk q 0 ns, rr) /\
   forall j n, ns !! j = Some n -> ~ eligible (clk j) q n) \/
  (exists p, is_best clk q ns p /\
   let c := bucket_of clk q p 0 ns in
   let k := Z.rem (wrap64 (wrapu64 (wrapu64 (rr + 1) - 1))) (Z.of_nat (length c)) in
   selectNodeFromSnapExcluding clk q ns rr =
     (if (length c =? 0)%nat then Panic
      else if k <? 0 then Panic
      else match c !! Z.to_nat k with Some i => Chosen i | None => Panic end,
      considered clk q 0 ns, wrapu64 (rr + 1))).
Proof.
  unfold selectNodeFromSnapExcluding.
  pose proof (scan_nodes clk q 0 ns ∅) as Hn. pose proof (fun p => scan_bucket clk q 0 ns ∅ p) as Hb.
  pose proof (fun p => scan_dom clk q 0 ns ∅ p) as Hd.
  destruct (scan clk q 0 ns ∅) as [bs ns']. simpl in *. subst ns'.
  assert (Hd' : forall p, is_Some (bs !! p) <->
    exists j n, ns !! j = Some n /\ eligible (clk j) q n /\ Priority (cfg n) = p).
  { intros p. rewrite Hd, lookup_empty. split; [by intros [[? ?]|?]|auto]. }
  destruct (Nat.eqb_spec (size bs) 0) as [E|E].
  - left. split; [done|]. apply map_size_empty_inv in E. intros j n Hj He.
    destruct (proj2 (Hd' (Priority (cfg n)))) as [c Hc]; [by exists j, n|]. by rewrite E in Hc.
  - right. destruct (head_priority bs) as (p & c & Hh & Hc & Hmin).
    { intros ->. by rewrite map_size_empty in E. }
    exists p. split.
    { split; [apply Hd'; by exists c|]. intros j n Hj He. apply Hmin, Hd'. by exists j, n. }
    specialize (Hb p). rewrite Hc, lookup_empty in Hb. simpl in Hb. subst c.
    rewrite Hh. cbn [mbind option_bind]. rewrite Hc. cbn [default from_option id].
    destruct (bucket_of clk q p 0 ns) eqn:Eb; [done|]. cbn [length Nat.eqb].
    destruct (Z.eqb_spec (Z.of_nat (S (length l))) 0); [lia|]. by case_match.
Qed.

Lemma bucket_of_elem clk q p i ns j :
  j ∈ bucket_of clk q p i ns ->
  exists k n, j = (i + k)%nat /\ ns !! k = Some n /\ eligible (clk j) q n /\ Priority (cfg n) = p.
Proof.
  revert i. induction ns as [|n ns IH]; simpl; intros i; [set_solver|].
  rewrite elem_of_app. intros [H|H].
  - destruct (fst (consider (clk i) q n)) eqn:Ec; simpl in H; [|set_solver].
    destruct (Z.eqb_spec (Priority (cfg n)) p); [|set_solver].
    apply elem_of_replicate in H as [-> _]. exists 0%nat, n. rewrite Nat.add_0_r.
    split; [done|]. split; [done|]. split; [by apply consider_spec|done].
  - destruct (IH _ H) as (k & m & -> & ?). exists (S k), m. split; [lia|done].
Qed.

Lemma bucket_of_nonempty clk q p i ns :
  Forall (fun n => 0 < Weight (cfg n)) ns ->
  (exists j n, ns !! j = Some n /\ eligible (clk (i + j)%nat) q n /\ Priority (cfg n) = p) ->
  bucket_of clk q p i ns <> [].
Proof.
  intros Hw. revert i. induction Hw as [|n ns Hn Hw IH]; simpl; intros i (j & m & Hj & He & Hp).
  { by rewrite lookup_nil in Hj. }
  destruct j as [|j]; simpl in Hj.
  - injection Hj as ->. rewrite Nat.add_0_r in He. apply consider_spec in He.
    rewrite He, Hp, Z.eqb_refl. simpl. destruct (Z.to_nat (Weight (cfg m))) eqn:E; [lia|done].
  - rewrite Nat.add_succ_r in He. intros [_ H]%app_eq_nil. revert H. apply (IH (S i)). eauto.
Qed.

Lemma cursor_small rr : 0 <= rr < 2 ^ 63 -> wrap64 (wrapu64 (wrapu64 (rr + 1) - 1)) = rr.
Proof.
  intros H. rewrite (wrapu64_small (rr + 1)) by lia. rewrite wrapu64_small by lia.
  replace (rr + 1 - 1) with rr by lia. apply wrap64_small. unfold in_int64, min_int64, max_int64. lia.
Qed.

(** A selected node is eligible on every axis - workload class, PII mark,
    health, exclusion, tier, breaker and model - and no eligible node has a
    lower priority number. *)
Theorem selected_node_eligible clk q ns rr i ns' rr' :
  selectNodeFromSnapExcluding clk q ns rr = (Chosen i, ns', rr') ->
  exists n, ns !! i = Some n /\ eligible (clk i) q n /\
    forall j m, ns !! j = Some m -> eligible (clk j) q m -> Priority (cfg n) <= Priority (cfg m).
Proof.
  intros H. destruct (select_cases clk q ns rr) as [[E _]|(p & [_ Hmin] & E)]; rewrite E in H; [done|].
  cbv zeta in H. destruct (Nat.eqb _ _); [done|]. destruct (_ <? 0); [done|].
  destruct (bucket_of clk q p 0 ns !! _) as [i'|] eqn:El; [|done]. injection H as -> _ _.
  apply list_elem_of_lookup_2, bucket_of_elem in El as (k & n & -> & Hk & He & <-).
  exists n. split; [done|]. split; [done|]. exact Hmin.
Qed.

(** Selection gives up exactly when no node of the snapshot is eligible. *)
Theorem selection_none_iff clk q ns rr :
  fst (fst (selectNodeFromSnapExcluding clk q ns rr)) = NoNode <->
  forall j n, ns !! j = Some n -> ~ eligible (clk j) q n.
Proof.
  destruct (select_cases clk q ns rr) as [[E Hn]|(p & [(j & n & Hj & He & _) _] & E)]; rewrite E; simpl.
  - done.
  - split; [repeat case_match; done|]. intros H. by destruct (H j n Hj He).
Qed.

(** With the weights [buildReloadable] leaves and a cursor below 2^63 the
    selection never panics: it answers with a node whenever one is eligible. *)
Theorem selection_total clk q ns rr j n :
  Forall (fun n => 0 < Weight (cfg n)) ns -> 0 <= rr < 2 ^ 63 ->
  ns !! j = Some n -> eligible (clk j) q n ->
  exists i, selectNodeFromSnapExcluding clk q ns rr = (Chosen i, considered clk q 0 ns, wrapu64 (rr + 1)).
Proof.
  intros Hw Hrr Hj He.
  destruct (select_cases clk q ns rr) as [[_ Hn]|(p & [Hex _] & E)]; [by destruct (Hn j n)|].
  rewrite E. cbv zeta. rewrite (cursor_small rr Hrr).
  pose proof (bucket_of_nonempty clk q p 0 ns Hw Hex) as Hne.
  destruct (bucket_of clk q p 0 ns) as [|c cs] eqn:Eb; [done|]. cbn [length Nat.eqb].
  set (k := Z.rem rr _). assert (Hk : 0 <= k < Z.of_nat (S (length cs))) by (apply Z.rem_bound_pos; lia).
  destruct (Z.ltb_spec k 0); [lia|].
  destruct (lookup_lt_is_Some_2 (c :: cs) (Z.to_nat k)) as [i Hi]; [simpl; lia|].
  rewrite Hi. by exists i.
Qed.


(** ** The contract of selection

    What the failover loop relies on: a selector touches nothing of a node but
    its breaker, and what it chooses fits the query and is not excluded. *)

Definition cfgs (ns : list upstreamNode) : list NodeConfig := cfg <$> ns.

(** The part of eligibility that is fixed by the configuration. *)
Record may_serve (q : query) (c : NodeConfig) : Prop := {
  ms_class : Workloads c = [] \/ class_string (class q) ∈ Workloads c;
  ms_pii : personal q = true -> PIILocal c = true;
  ms_tier : TrimSpace (targetTier q) = "" \/ Tier c = TrimSpace (targetTier q);
  ms_model : model q = "" \/ model q ∈ Models c;
}.

Class Selector (sel : (nat -> Time) -> query -> list upstreamNode -> Z -> selection * list upstreamNode * Z) := {
  selector_breaker_only : forall clk q ns rr s ns' rr', sel clk q ns rr = (s, ns', rr') ->
    Forall2 (fun n n' => n' = set_breaker n (breaker n')) ns ns';
  selector_sound : forall clk q ns rr i ns' rr', sel clk q ns rr = (Chosen i, ns', rr') ->
    exists c, cfgs ns !! i = Some c /\ may_serve q c /\ Name c ∉ excluded q;
}.

Lemma consider_breaker_only now q n :
  snd (consider now q n) = set_breaker n (breaker (snd (consider now q n))).
Proof. unfold consider. destruct n; repeat case_match; done. Qed.

Lemma considered_breaker_only clk q i ns :
  Forall2 (fun n n' => n' = set_breaker n (breaker n')) ns (considered clk q i ns).
Proof.
  revert i. induction ns as [|n ns IH]; intros i; [constructor|]. rewrite considered_cons.
  constructor; [apply consider_breaker_only|apply IH].
Qed.

#[export] Instance select_Selector : Selector selectNodeFromSnapExcluding.
Proof.
  split.
  - intros clk q ns rr s ns' rr' H.
    destruct (select_cases clk q ns rr) as [[E _]|(p & _ & E)]; rewrite E in H; injection H as _ <- _;
      apply considered_breaker_only.
  - intros clk q ns rr i ns' rr' H.
    destruct (select_cases clk q ns rr) as [[E _]|(p & _ & E)]; rewrite E in H; [done|].
    cbv zeta in H. destruct (Nat.eqb _ _); [done|]. destruct (_ <? 0); [done|].
    destruct (bucket_of clk q p 0 ns !! _) as [i'|] eqn:El; [|done]. injection H as -> _ _.
    apply list_elem_of_lookup_2, bucket_of_elem in El as (k & n & -> & Hk & [] & _).
    exists (cfg n). unfold cfgs. simpl. rewrite list_lookup_fmap, Hk. done.
Qed.

Lemma selector_cfgs `{Selector sel} clk q ns rr s ns' rr' :
  sel clk q ns rr = (s, ns', rr') -> cfgs ns' = cfgs ns.
Proof.
  intros E%selector_breaker_only. induction E as [|n n' ns1 ns2 Hn _ IH]; [done|].
  unfold cfgs in *. simpl. f_equal; [by rewrite Hn|exact IH].
Qed.

(** ** Weighted round robin *)

(** The answers of [m] selections in a row; [clks k] is the clock of the
    [k]th. *)
Fixpoint picks (clks : nat -> nat -> Time) (q : query) (k m : nat) (ns : list upstreamNode) (rr : Z)
  : list selection :=
  match m with
  | O => []
  | S m' =>
      let '(s, ns', rr') := selectNodeFromSnapExcluding (clks k) q ns rr in
      s :: picks clks q (S k) m' ns' rr'
  end.

(** No breaker is open. *)
Definition steady (ns : list upstreamNode) : Prop :=
  Forall (fun n => forall b, breaker n = Some b -> Circuit.state b <> Circuit.Open) ns.

#[export] Instance selection_eq_dec : EqDecision selection.
Proof. solve_decision. Defined.

Definition share (i : nat) (l : list selection) : nat := length (filter (fun s => s = Chosen i) l).

Lemma steady_consider now now' q n :
  (forall b, breaker n = Some b -> Circuit.state b <> Circuit.Open) ->
  consider now q n = (fst (consider now' q n), n).
Proof.
  intros Hs. unfold consider. destruct (prefilter q n); simpl; [|done].
  destruct n as [c u h cp cf ki ks qd [b|] tc]; simpl in *; [|done].
  specialize (Hs b eq_refl). unfold Allow. by destruct (Circuit.state b).
Qed.

Lemma steady_considered clk q i ns : steady ns -> considered clk q i ns = ns.
Proof.
  intros Hs. revert i. induction Hs as [|n ns Hn Hs IH]; intros i; [done|].
  by rewrite considered_cons, IH, (steady_consider _ (clk i) q n Hn).
Qed.

Lemma steady_bucket clk clk' q p i ns :
  steady ns -> bucket_of clk q p i ns = bucket_of clk' q p i ns.
Proof.
  intros Hs. revert i. induction Hs as [|n ns Hn Hs IH]; intros i; [done|]. simpl.
  by rewrite IH, (steady_consider (clk i) (clk' i) q n Hn).
Qed.

Lemma steady_eligible now now' q n :
  (forall b, breaker n = Some b -> Circuit.state b <> Circuit.Open) ->
  eligible now q n <-> eligible now' q n.
Proof. intros Hs. by rewrite <- !consider_spec, (steady_consider now now' q n Hs). Qed.

Lemma steady_is_best clk clk' q ns p : steady ns -> is_best clk q ns p -> is_best clk' q ns p.
Proof.
  intros Hs [(j & n & Hj & He & Hp) Hmin]. unfold steady in Hs. rewrite Forall_lookup in Hs. split.
  - exists j, n. split; [done|]. split; [|done]. by apply (steady_eligible (clk j)); eauto.
  - intros k m Hk Hm. apply (Hmin k m Hk). by apply (steady_eligible (clk' k)); eauto.
Qed.

Lemma is_best_unique clk q ns p p' : is_best clk q ns p -> is_best clk q ns p' -> p = p'.
Proof.
  intros [(j & n & Hj & He & <-) H] [(k & m & Hk & Hm & <-) H'].
  specialize (H k m Hk Hm). specialize (H' j n Hj He). lia.
Qed.

(** One selection over a steady store: the cursor picks, and only the cursor
    moves. *)
Lemma select_steady clk clk0 q ns rr p :
  steady ns -> is_best clk0 q ns p -> Forall (fun n => 0 < Weight (cfg n)) ns -> 0 <= rr < 2 ^ 63 ->
  let c := bucket_of clk0 q p 0 ns in
  exists i, c !! rotate_nat_add (Z.to_nat rr) 0 (length c) = Some i /\
    selectNodeFromSnapExcluding clk q ns rr = (Chosen i, ns, rr + 1).
Proof.
  intros Hs Hb Hw Hrr c. apply (steady_is_best _ clk _ _ _ Hs) in Hb.
  destruct (select_cases clk q ns rr) as [[_ Hn]|(p' & Hb' & E)].
  { destruct Hb as [(j & n & Hj & He & _) _]. by destruct (Hn j n Hj He). }
  rewrite <- (is_best_unique _ _ _ _ _ Hb Hb') in E. rewrite E. cbv zeta. rewrite (cursor_small rr Hrr).
  rewrite (steady_bucket clk clk0) by done. fold c. rewrite (steady_considered _ _ _ _ Hs).
  assert (Hne : c <> []).
  { unfold c. rewrite (steady_bucket clk0 clk) by done. apply bucket_of_nonempty; [done|]. apply Hb. }
  destruct c as [|x xs] eqn:Ec; [done|]. cbn [length Nat.eqb].
  rewrite Z.rem_mod_nonneg by lia. destruct (Z.ltb_spec (rr mod Z.of_nat (S (length xs))) 0).
  { pose proof (Z.mod_pos_bound rr (Z.of_nat (S (length xs)))). lia. }
  unfold rotate_nat_add. replace (Z.of_nat (Z.to_nat rr) + Z.of_nat 0) with rr by lia.
  assert (Hlt : (Z.to_nat (rr mod Z.of_nat (S (length xs))) < length (x :: xs))%nat).
  { pose proof (Z.mod_pos_bound rr (Z.of_nat (S (length xs)))). simpl. lia. }
  apply lookup_lt_is_Some_2 in Hlt as [i Hi]. exists i. split; [done|]. rewrite Hi.
  by rewrite wrapu64_small by lia.
Qed.

Lemma picks_lookup clks clk0 q k m ns rr p j :
  steady ns -> is_best clk0 q ns p -> Forall (fun n => 0 < Weight (cfg n)) ns ->
  0 <= rr -> rr + Z.of_nat m <= 2 ^ 63 -> (j < m)%nat ->
  let c := bucket_of clk0 q p 0 ns in
  picks clks q k m ns rr !! j = Chosen <$> c !! rotate_nat_add (Z.to_nat rr) j (length c).
Proof.
  intros Hs Hb Hw. revert k rr j. induction m as [|m IH]; intros k rr j H0 Hm Hj c; [lia|]. simpl.
  destruct (select_steady (clks k) clk0 q ns rr p Hs Hb Hw ltac:(lia)) as (i & Hi & ->). fold c in Hi.
  destruct j as [|j]; simpl; [by rewrite Hi|]. rewrite IH by lia. fold c. do 2 f_equal.
  unfold rotate_nat_add. do 2 f_equal. lia.
Qed.

Lemma length_picks clks q k m ns rr : length (picks clks q k m ns rr) = m.
Proof.
  revert k ns rr. induction m as [|m IH]; intros k ns rr; [done|]. simpl.
  destruct (selectNodeFromSnapExcluding _ _ _ _) as [[s ns'] rr']. simpl. by rewrite IH.
Qed.

Lemma rotate_Permutation {A} n (l : list A) : rotate n l ≡ₚ l.
Proof. unfold rotate. rewrite Permutation_app_comm. by rewrite take_drop. Qed.

(** A full turn of the cursor visits the best bucket exactly once. *)
Lemma picks_turn clks clk0 q ns rr p :
  steady ns -> is_best clk0 q ns p -> Forall (fun n => 0 < Weight (cfg n)) ns ->
  let c := bucket_of clk0 q p 0 ns in
  0 <= rr -> rr + Z.of_nat (length c) <= 2 ^ 63 ->
  picks clks q 0 (length c) ns rr ≡ₚ Chosen <$> c.
Proof.
  intros Hs Hb Hw c H0 Hm. rewrite <- (rotate_Permutation (Z.to_nat rr) c) at 2.
  apply reflexive_eq, list_eq. intros j. rewrite list_lookup_fmap.
  destruct (decide (j < length c)%nat) as [Hj|Hj].
  - rewrite (picks_lookup clks clk0 q 0 _ ns rr p j) by done. fold c. by rewrite lookup_rotate_r.
  - rewrite !lookup_ge_None_2; [done|rewrite length_rotate; lia|rewrite length_picks; lia].
Qed.

Lemma share_app i a b : share i (a ++ b) = (share i a + share i b)%nat.
Proof. unfold share. by rewrite filter_app, length_app. Qed.

Lemma share_replicate_eq i n : share i (replicate n (Chosen i)) = n.
Proof.
  unfold share. induction n as [|n IH]; [done|]. cbn [replicate]. rewrite filter_cons_True by done.
  simpl. by rewrite IH.
Qed.

Lemma share_notin i l : Chosen i ∉ l -> share i l = 0%nat.
Proof.
  intros H. unfold share. induction l as [|s l IH]; [done|].
  rewrite filter_cons_False by set_solver. apply IH. set_solver.
Qed.

(** The entries of node [k] in a bucket are its weight. *)
Lemma share_bucket clk q p i ns k n :
  ns !! k = Some n -> eligible (clk (i + k)%nat) q n -> Priority (cfg n) = p ->
  share (i + k) (Chosen <$> bucket_of clk q p i ns) = Z.to_nat (Weight (cfg n)).
Proof.
  revert i k. induction ns as [|m ns IH]; intros i k Hk He Hp; [by rewrite lookup_nil in Hk|].
  simpl. rewrite fmap_app, share_app. destruct k as [|k]; simpl in Hk.
  - injection Hk as ->. rewrite Nat.add_0_r in *. apply consider_spec in He. rewrite He, Hp, Z.eqb_refl.
    simpl. rewrite fmap_replicate, share_replicate_eq, share_notin; [lia|].
    intros (j & [= ->] & Hj)%list_elem_of_fmap. apply bucket_of_elem in Hj as (? & ? & ? & _). lia.
  - rewrite Nat.add_succ_r in *. rewrite (share_notin (S (i + k))); [by apply (IH (S i) k)|].
    intros (j & [= <-] & Hj)%list_elem_of_fmap. case_match; [|set_solver].
    apply elem_of_replicate in Hj. lia.
Qed.

(** C15: Weighted round robin: while no breaker is open, one turn of the cursor over
    the best priority bucket picks every eligible node of that priority exactly
    [Weight] times, and every other node never. *)
Theorem weighted_round_robin clks q ns rr p :
  steady ns -> Forall (fun n => 0 < Weight (cfg n)) ns -> is_best (clks 0%nat) q ns p ->
  let turn := length (bucket_of (clks 0%nat) q p 0 ns) in
  0 <= rr -> rr + Z.of_nat turn <= 2 ^ 63 ->
  forall i n, ns !! i = Some n ->
  (eligible (clks 0%nat i) q n -> Priority (cfg n) = p ->
   share i (picks clks q 0 turn ns rr) = Z.to_nat (Weight (cfg n))) /\
  (~ eligible (clks 0%nat i) q n \/ Priority (cfg n) <> p ->
   share i (picks clks q 0 turn ns rr) = 0%nat).
Proof.
  intros Hs Hw Hb turn H0 Hm i n Hi.
  assert (Hp : share i (picks clks q 0 turn ns rr) = share i (Chosen <$> bucket_of (clks 0%nat) q p 0 ns)).
  { unfold turn, share. by rewrite (picks_turn clks (clks 0%nat) q ns rr p Hs Hb Hw H0 Hm). }
  rewrite Hp. split.
  - intros He Hpr. by apply (share_bucket _ q p 0 ns i n).
  - intros Hne. apply share_notin. intros (j & [= <-] & Hj)%list_elem_of_fmap.
    apply bucket_of_elem in Hj as (k & m & -> & Hk & He & Hpr). simplify_eq/=. by destruct Hne.
Qed.


(** ** The model list *)

Lemma add_models_elem seen ms m : m ∈ add_models seen ms <-> m ∈ seen \/ m ∈ ms.
Proof.
  revert seen. induction ms as [|x ms IH]; intros seen; simpl; [set_solver|].
  case_bool_decide; rewrite IH; set_solver.
Qed.

Lemma add_models_NoDup seen ms : NoDup seen -> NoDup (add_models seen ms).
Proof.
  revert seen. induction ms as [|x ms IH]; intros seen H; simpl; [done|].
  case_bool_decide; apply IH; [done|]. apply NoDup_app. split; [done|]. split; [set_solver|].
  apply NoDup_singleton.
Qed.

(** Node [n] shows model [m] to class [c]. *)
Definition shows (c : WorkloadClass) (m : string) (n : upstreamNode) : Prop :=
  healthy n = true /\ m ∈ Models (cfg n) /\ (Workloads (cfg n) = [] \/ class_string c ∈ Workloads (cfg n)).

(** A caller sees a model exactly when some healthy node open to its class lists
    it, and sees it once. *)
Theorem models_exact c ns :
  NoDup (handleModels c ns) /\ forall m, m ∈ handleModels c ns <-> Exists (shows c m) ns.
Proof.
  unfold handleModels.
  match goal with |- NoDup (foldl ?f _ _) /\ _ =>
    assert (H : forall seen, NoDup seen -> NoDup (foldl f seen ns) /\
      forall m, m ∈ foldl f seen ns <-> m ∈ seen \/ Exists (shows c m) ns) end.
  { induction ns as [|n ns IH]; intros seen Hs; simpl.
    { split; [done|]. intros m. rewrite Exists_nil. tauto. }
    match goal with |- NoDup (foldl _ ?seen' _) /\ _ =>
      assert (Hn : NoDup seen' /\ forall m, m ∈ seen' <-> m ∈ seen \/ shows c m n) end.
    { pose proof (AllowsClass_spec n c) as Ha. unfold shows. destruct (AllowsClass n c), (healthy n); simpl;
        (split; [try done; by apply add_models_NoDup|]); intros m; rewrite ?add_models_elem; intuition congruence. }
    destruct (IH _ (proj1 Hn)) as [H1 H2]. split; [exact H1|]. intros m. rewrite H2, (proj2 Hn), Exists_cons. tauto. }
  destruct (H [] NoDup_nil_2) as [H1 H2]. split; [done|]. intros m. rewrite H2, elem_of_nil. tauto.
Qed.

(** ** Building and reloading *)

(** A node just built from its configuration entry. *)
Record fresh (c : Config) (n : upstreamNode) : Prop := {
  fr_from : exists nc, nc ∈ Nodes c /\ NodeEnabled (Enabled nc) = true /\
    cfg n = (if Weight nc <=? 0 then with_weight nc 1 else nc);
  fr_named : Name (cfg n) <> "" /\ URL (cfg n) <> "";
  fr_weight : 0 < Weight (cfg n);
  fr_healthy : healthy n = true;
  fr_breaker : exists b, breaker n = Some b /\ Circuit.state b = Circuit.Closed /\
    Circuit.failures b = 0 /\ 0 < Circuit.threshold b /\ 0 < Circuit.cooldown b /\
    Circuit.nodeName b = Name (cfg n);
  fr_keys : keys n = Some (KeyPool.New (APIKeys (cfg n)) (KeyCooldown (CDefaults c)));
}.

Lemma ResolvedCircuit_pos nc def :
  0 < fst (ResolvedCircuit nc def) /\ 0 < snd (ResolvedCircuit nc def).
Proof.
  unfold ResolvedCircuit, DefaultCircuitThreshold, DefaultCircuitCooldown, Second. simpl.
  split; zbool; lia.
Qed.

Lemma new_breaker_named t c name :
  let b := WithName (NewBreaker t c) name in
  Circuit.state b = Circuit.Closed /\ Circuit.failures b = 0 /\ 0 < Circuit.threshold b /\
  0 < Circuit.cooldown b /\ Circuit.nodeName b = name.
Proof.
  unfold WithName, Circuit.recordState, NewBreaker, Second. simpl. destruct (name =s ""); simpl;
    repeat split; zbool; lia.
Qed.

Lemma buildNode_fresh up rc c nc n :
  nc ∈ Nodes c -> NodeEnabled (Enabled nc) = true ->
  buildNode up rc (CDefaults c) nc = inr n -> fresh c n.
Proof.
  intros Hin Hen. unfold buildNode. destruct (_ || _) eqn:Enm; [done|].
  apply orb_false_iff in Enm as [Hn%String.eqb_neq Hu%String.eqb_neq].
  destruct (up _); [|done]. destruct (ResolvedCircuit _ _) as [t cd].
  intros H.
  assert (Hf : exists tc, n = {| cfg := (if Weight nc <=? 0 then with_weight nc 1 else nc); baseURL := u;
    healthy := true; consecutivePass := 0; consecutiveFail := 0; keyIdx := 0;
    keys := Some (KeyPool.New (APIKeys (if Weight nc <=? 0 then with_weight nc 1 else nc)) (KeyCooldown (CDefaults c)));
    quotaDet := newDetector rc (QuotaDetectRegex (if Weight nc <=? 0 then with_weight nc 1 else nc));
    breaker := Some (WithName (NewBreaker t cd) (Name (if Weight nc <=? 0 then with_weight nc 1 else nc)));
    tunnelClient := tc |}).
  { repeat (case_match; try done); injection H as <-; eauto. }
  destruct Hf as [tc ->]. split; simpl; try done.
  - eauto.
  - by destruct (Weight nc <=? 0).
  - destruct (Z.leb_spec (Weight nc) 0); simpl; lia.
  - eexists. split; [done|]. apply new_breaker_named.
Qed.

Lemma buildNodes_fresh up rc c ncs ns :
  (forall nc, nc ∈ ncs -> nc ∈ Nodes c) ->
  buildNodes up rc (CDefaults c) ncs = inr ns -> Forall (fresh c) ns.
Proof.
  revert ns. induction ncs as [|nc ncs IH]; simpl; intros ns Hin; [by intros [= <-]|].
  destruct (NodeEnabled (Enabled nc)) eqn:Hen; simpl; [|apply IH; set_solver].
  destruct (buildNode _ _ _ _) as [err|n] eqn:En; [done|]. destruct (buildNodes _ _ _ _) as [err|ns'] eqn:E; [done|].
  intros [= <-]. constructor; [|apply IH; set_solver]. eapply buildNode_fresh; [|done|done]. set_solver.
Qed.

Lemma RuleArmed_spec mode any :
  RuleArmed mode any = true <-> mode = "enforce" \/ (mode <> "off" /\ any = true).
Proof.
  unfold RuleArmed. destruct (String.eqb_spec mode "enforce") as [->|]; [naive_solver|].
  destruct (String.eqb_spec mode "off"); naive_solver.
Qed.

Lemma anyNodePIILocal_spec ns : anyNodePIILocal ns = true <-> exists n, n ∈ ns /\ PIILocal (cfg n) = true.
Proof.
  unfold anyNodePIILocal. rewrite existsb_exists. by setoid_rewrite list_elem_of_In.
Qed.

Lemma loadSmartRoute_valid readPolicy c p :
  loadSmartRoute readPolicy c = Some (Some p) -> SmEnabled (SmartRoute c) = true /\ SmartRoute.Validate p = None.
Proof.
  unfold loadSmartRoute, SmartRoute.LoadPolicy. destruct (SmEnabled (SmartRoute c)); simpl; [|done].
  destruct (_ =s ""); [done|]. destruct (readPolicy _) as [p'|]; simpl; [|done].
  destruct (SmartRoute.Validate p') eqn:E; simpl; [done|]. by intros [= <-].
Qed.

(** A reload swaps the whole state or none of it: on any error the router keeps
    the state it had, and on success every node is freshly built from an enabled
    entry of the new file with a positive weight, a closed breaker under its own
    name and a key pool, the semaphore has the new capacity, and the PII rule is
    armed exactly when the mode is enforce, or is not off and some node is
    marked; a smartroute policy that is installed is a valid one. *)
Theorem reload_all_or_nothing up rc loaded readPolicy r :
  let '(e, r') := Reload up rc loaded readPolicy r in
  match e with
  | Some _ => r' = r
  | None =>
      exists c, loaded = inr c /\ rcfg r' = c /\ Forall (fresh c) (rnodes r') /\
        semCap r' = MaxConcurrency (CDefaults c) /\
        (forall p, smart r' = Some p -> SmEnabled (SmartRoute c) = true /\ SmartRoute.Validate p = None) /\
        (piiRuleArmed r' = true <->
         PIILocalRule c = "enforce" \/
         (PIILocalRule c <> "off" /\ exists n, n ∈ rnodes r' /\ PIILocal (cfg n) = true))
  end.
Proof.
  unfold Reload. destruct loaded as [|c]; [done|]. unfold buildReloadable.
  destruct (buildNodes _ _ _ _) as [|ns] eqn:E; [done|].
  destruct (loadSmartRoute readPolicy c) as [sm|] eqn:Es; [|done].
  exists c. simpl. split; [done|]. split; [done|]. split; [|split; [done|split]].
  - eapply buildNodes_fresh; [|exact E]. done.
  - intros p ->. by apply loadSmartRoute_valid in Es.
  - by rewrite RuleArmed_spec, anyNodePIILocal_spec.
Qed.

(** ** Witnesses *)

Definition ex_url : url := {| UScheme := "http"; UHost := "10.0.0.5:8000"; UPath := ""; URawQuery := "" |}.

Definition ex_up (name : string) (w p : Z) (workloads : list string) (pii : bool) : upstreamNode :=
  {| cfg := ex_node name w p workloads pii; baseURL := ex_url; healthy := true; consecutivePass := 0;
     consecutiveFail := 0; keyIdx := 0; keys := Some (KeyPool.New ["k0"; "k1"] (5 * Minute));
     quotaDet := None; breaker := Some (WithName (NewBreaker 5 (30 * Second)) name);
     tunnelClient := None |}.

Definition ex_nodes : list upstreamNode :=
  [ex_up "plan" 2 1 ["internal"] false; ex_up "local" 1 1 [] true; ex_up "spare" 1 2 [] false].

Definition ex_query (c : WorkloadClass) (pii : bool) : query :=
  {| model := "m3"; targetTier := " gpu "; excluded := ∅; class := c; personal := pii |}.

Definition ex_clk (i : nat) : Time := unix_epoch.

Lemma selected_node_eligible_witness :
  exists n, ex_nodes !! 1%nat = Some n /\ eligible (ex_clk 1) (ex_query ClassCustomer true) n.
Proof.
  destruct (selected_node_eligible ex_clk (ex_query ClassCustomer true) ex_nodes 7 1 ex_nodes 8)
    as (n & Hn & He & _); [vm_compute; reflexivity|]. exists n. split; [exact Hn|exact He].
Defined.

Lemma ex_eligible : eligible (ex_clk 1) (ex_query ClassInternal false) (ex_up "local" 1 1 [] true).
Proof. apply consider_spec. vm_compute. reflexivity. Qed.

Lemma selection_total_witness :
  exists i, fst (fst (selectNodeFromSnapExcluding ex_clk (ex_query ClassInternal false) ex_nodes 0)) = Chosen i.
Proof.
  destruct (selection_total ex_clk (ex_query ClassInternal false) ex_nodes 0 1 (ex_up "local" 1 1 [] true))
    as [i Hi]; [repeat constructor|lia|reflexivity|exact ex_eligible|].
  exists i. rewrite Hi. reflexivity.
Defined.

Lemma ex_best : is_best ex_clk (ex_query ClassInternal false) ex_nodes 1.
Proof.
  split.
  - exists 1%nat, (ex_up "local" 1 1 [] true). split; [done|]. split; [exact ex_eligible|done].
  - intros [|[|[|j]]] m Hm _; simpl in Hm; simplify_eq/=; lia.
Qed.

Lemma weighted_round_robin_witness :
  share 0 (picks (fun _ => ex_clk) (ex_query ClassInternal false) 0 3 ex_nodes 10) = 2%nat.
Proof.
  apply (weighted_round_robin (fun _ => ex_clk) (ex_query ClassInternal false) ex_nodes 10 1)
    with (n := ex_up "plan" 2 1 ["internal"] false).
  - repeat constructor; simpl; intros b [= <-]; vm_compute; discriminate.
  - repeat constructor.
  - exact ex_best.
  - lia.
  - vm_compute. discriminate.
  - reflexivity.
  - apply consider_spec. vm_compute. reflexivity.
  - reflexivity.
Defined.

End Selection.
