(* ===== verification/Attribution.v ===== *)
(** * Per-agent attribution

    Models [src/internal/proxy/attribution.go]: the label of a request and the
    bounded buffer between the handlers and the one goroutine that owns the
    sink.  The buffer is a step relation: handlers record at any time, the
    drainer takes events in its own time, [Close] ends the stream. *)

From Stdlib Require Import ZArith Lia Ascii String.
From stdpp Require Import base option list gmap strings.
From S2P Require Import Prelude GoStrings Headers.

Module Attribution.
Import GoStrings Headers.

Definition AgentHeader : string := "X-Helixon-Agent".
Definition maxAgentLabel : Z := 64.

Definition label_char (c : ascii) : bool :=
  is_lower c || is_upper c || is_digit c || Ascii.eqb c "_" || Ascii.eqb c "-" || Ascii.eqb c ".".

Definition AgentFromHeader (h : Header) : string :=
  let agent := TrimSpace (Get h AgentHeader) in
  if agent =s "" then ""
  else if maxAgentLabel <? Z.of_nat (String.length agent) then "unknown"
  else if forallb label_char (to_bytes agent) then agent else "unknown".

(** ** The buffer *)

Record attributionEvent := { agent : string; dur : Duration }.

(** The channel with its capacity, whether it is closed, the drainer's progress
    and the calls of the sink; [offered] is the history of what handlers
    offered, with whether the buffer took it. *)
Record Attribution := {
  cap : nat;
  events : list attributionEvent;
  closed : bool;
  done_ : bool;
  inced : list string;
  observed : list attributionEvent;
  offered : list (attributionEvent * bool);
}.

Definition NewAttribution (buffer : Z) : Attribution :=
  {| cap := if buffer <=? 0 then 1024 else Z.to_nat buffer; events := []; closed := false; done_ := false;
     inced := []; observed := []; offered := [] |}.

Inductive outcome := Returned (a : Attribution) | SendOnClosed.

(** [Record] at [now]: a [select] with a default never waits. *)
Definition Record_ (a : Attribution) (ag : string) (start now : Time) : outcome :=
  if ag =s "" then Returned a
  else if closed a then SendOnClosed
  else
    let ev := {| agent := ag; dur := time_sub now start |} in
    let took := Nat.ltb (length (events a)) (cap a) in
    Returned {| cap := cap a; events := if took then events a ++ [ev] else events a; closed := closed a; done_ := done_ a;
                inced := inced a; observed := observed a; offered := offered a ++ [(ev, took)] |}.

(** One turn of the drainer: the next event to the sink, or the end. *)
Definition drain1 (a : Attribution) : option Attribution :=
  if done_ a then None
  else
    match events a with
    | ev :: rest =>
        Some {| cap := cap a; events := rest; closed := closed a; done_ := false;
                inced := inced a ++ [agent ev]; observed := observed a ++ [ev]; offered := offered a |}
    | [] =>
        if closed a then
          Some {| cap := cap a; events := []; closed := true; done_ := true;
                  inced := inced a; observed := observed a; offered := offered a |}
        else None
    end.

(** The [close] half of [Close]; the other half waits for [done_]. *)
Definition close_events (a : Attribution) : Attribution :=
  {| cap := cap a; events := events a; closed := true; done_ := done_ a;
     inced := inced a; observed := observed a; offered := offered a |}.

Inductive step : Attribution -> Attribution -> Prop :=
| s_record a a' ag start now : Record_ a ag start now = Returned a' -> step a a'
| s_drain a a' : drain1 a = Some a' -> step a a'
| s_close a : closed a = false -> step a (close_events a).

Inductive reachable (buffer : Z) : Attribution -> Prop :=
| r_new : reachable buffer (NewAttribution buffer)
| r_step a a' : reachable buffer a -> step a a' -> reachable buffer a'.

(** ** Labels *)

(** A metric label is empty, or at most 64 characters of the safe alphabet. *)
Lemma label_safe h :
  let l := AgentFromHeader h in
  (Z.of_nat (String.length l) <= maxAgentLabel) /\ forallb label_char (to_bytes l) = true /\
  (l = "" <-> TrimSpace (Get h AgentHeader) = "").
Proof.
  unfold AgentFromHeader. cbn zeta. destruct (String.eqb_spec (TrimSpace (Get h AgentHeader)) "") as [->|Hn]; [done|].
  destruct (Z.ltb_spec maxAgentLabel (Z.of_nat (String.length (TrimSpace (Get h AgentHeader))))); [done|].
  destruct (forallb label_char _) eqn:E; [|done]. done.
Qed.

(** ** What reaches the sink *)

(** The events the buffer took. *)
Definition accepted (a : Attribution) : list attributionEvent := (List.filter snd (offered a)).*1.

Record ok (a : Attribution) : Prop := {
  ok_fifo : observed a ++ events a = accepted a;
  ok_both : inced a = agent <$> observed a;
  ok_cap : (length (events a) <= cap a)%nat;
  ok_done : done_ a = true -> closed a = true /\ events a = [];
}.

Lemma accepted_snoc l (x : attributionEvent * bool) :
  (List.filter snd (l ++ [x])).*1 = (List.filter snd l).*1 ++ (if x.2 then [x.1] else []).
Proof. rewrite List.filter_app, fmap_app. simpl. by destruct x as [? []]. Qed.

Lemma step_ok a a' : ok a -> step a a' -> ok a'.
Proof.
  intros [Hf Hb Hc Hd]. destruct 1 as [a a' ag start now H|a a' H|a H].
  - unfold Record_ in H. destruct (ag =s ""); [simplify_eq; by split|]. destruct (closed a) eqn:Ec; [done|].
    injection H as <-. destruct (Nat.ltb_spec (length (events a)) (cap a)) as [Hl|Hl];
      (split; cbn [observed events inced cap closed done_];
       [unfold accepted; cbn [offered]; rewrite accepted_snoc; cbn [fst snd]|done| |by intros Hx; destruct (Hd Hx)]).
    + by rewrite app_assoc, Hf.
    + rewrite length_app. simpl. lia.
    + by rewrite app_nil_r, Hf.
    + done.
  - unfold drain1 in H. destruct (done_ a) eqn:Ed; [done|]. destruct (events a) as [|ev rest] eqn:Ee.
    + destruct (closed a); [|done]. injection H as <-. by split.
    + injection H as <-. split; simpl; try done.
      * by rewrite <- app_assoc.
      * rewrite fmap_app. by f_equal.
      * simpl in Hc. lia.
  - split; simpl; try done. intros Hx. by destruct (Hd Hx).
Qed.

Lemma reachable_ok buffer a : reachable buffer a -> ok a.
Proof.
  induction 1 as [|a a' _ IH H]; [|by eapply step_ok]. split; simpl; try done. lia.
Qed.

(** [n] turns of the drainer. *)
Definition drains (n : nat) (a : Attribution) : option Attribution := Nat.iter n (fun o => o ≫= drain1) (Some a).

Lemma drains_S n a : drains (S n) a = drain1 a ≫= drains n.
Proof.
  unfold drains. rewrite Nat.iter_succ_r. simpl. destruct (drain1 a); [done|]. simpl.
  induction n as [|n IH]; simpl; [done|by rewrite IH].
Qed.

Lemma drains_ok n : forall a a', ok a -> drains n a = Some a' -> ok a'.
Proof.
  induction n as [|n IH]; intros a a' Ho E; [by injection E as <-|]. rewrite drains_S in E.
  destruct (drain1 a) as [a1|] eqn:E1; [|done]. eapply IH; [by eapply step_ok, s_drain|exact E].
Qed.

Lemma drain_all a : ok a -> closed a = true -> exists n a', drains n a = Some a' /\
  done_ a' = true /\ accepted a' = accepted a.
Proof.
  remember (length (events a)) as m eqn:Em. revert a Em. induction m as [|m IH]; intros a Em Hok Hc.
  - destruct (done_ a) eqn:Ed; [by exists 0%nat, a|]. exists 1%nat. unfold drains, drain1. simpl. rewrite Ed, Hc.
    destruct (events a); [|done]. eexists. split; [done|]. done.
  - destruct (done_ a) eqn:Ed; [destruct (ok_done _ Hok Ed) as [_ He]; by rewrite He in Em|].
    destruct (drain1 a) as [a1|] eqn:E1; [|unfold drain1 in E1; rewrite Ed in E1; destruct (events a); done].
    assert (H1 : length (events a1) = m /\ closed a1 = true /\ accepted a1 = accepted a).
    { unfold drain1 in E1. rewrite Ed in E1. destruct (events a) as [|ev rest]; [done|]. injection E1 as <-. simpl in *.
      split_and!; [lia|done|done]. }
    destruct H1 as (Hl & Hc1 & Ha). destruct (IH a1 (eq_sym Hl)) as (n & a' & Hi & Hd & Ha'); [by eapply step_ok, s_drain|done|].
    exists (S n), a'. rewrite drains_S, E1. split; [exact Hi|]. split; [done|congruence].
Qed.

(** The recorder loses nothing it accepted and invents nothing: at every moment
    of every interleaving the sink has got a prefix of the accepted events, in
    the order the handlers recorded them, once each for the count and for the
    duration; the buffer is within its capacity; recording returns at once
    unless the recorder was closed; and once it is closed the drainer delivers
    the rest and ends. *)
Theorem attribution_delivers buffer a :
  reachable buffer a ->
  observed a ++ events a = accepted a /\ inced a = agent <$> observed a /\
  Z.of_nat (length (events a)) <= (if buffer <=? 0 then 1024 else buffer) /\
  (forall ag start now, Record_ a ag start now <> SendOnClosed <-> ag = "" \/ closed a = false) /\
  (closed a = true -> exists n a', drains n a = Some a' /\ done_ a' = true /\
     observed a' = accepted a).
Proof.
  intros Hr. pose proof (reachable_ok _ _ Hr) as [Hf Hb Hc Hd]. split; [done|]. split; [done|]. split; [|split].
  - assert (Hcap : cap a = cap (NewAttribution buffer)).
    { clear -Hr. induction Hr as [|a a' _ IH H]; [done|]. rewrite <- IH. destruct H as [? ? ? ? ? H|? ? H|]; [| |done].
      - unfold Record_ in H. repeat case_match; simplify_eq; done.
      - unfold drain1 in H. repeat case_match; simplify_eq; done. }
    rewrite Hcap in Hc. simpl in Hc. destruct (Z.leb_spec buffer 0); lia.
  - intros ag start now. unfold Record_. destruct (String.eqb_spec ag "") as [->|Hne]; [naive_solver|].
    destruct (closed a); naive_solver.
  - intros Hcl. destruct (drain_all a (reachable_ok _ _ Hr) Hcl) as (n & a' & Hi & Hdn & Ha). exists n, a'.
    split; [done|]. split; [done|].
    pose proof (drains_ok n a a' (reachable_ok _ _ Hr) Hi) as Hr'.
    destruct (ok_done _ Hr' Hdn) as [_ He]. rewrite <- Ha, <- (ok_fifo _ Hr'), He. by rewrite app_nil_r.
Qed.

(** ** Examples and witnesses *)

Definition ex_run : option Attribution :=
  match Record_ (NewAttribution 1) "codex" 0 5 with
  | Returned a =>
      match Record_ a "cursor" 0 7 with
      | Returned a => drain1 (close_events a)
      | SendOnClosed => None
      end
  | SendOnClosed => None
  end.

Lemma attribution_delivers_witness :
  exists a, ex_run = Some a /\ observed a = [{| agent := "codex"; dur := 5 |}] /\ accepted a = observed a.
Proof.
  destruct ex_run as [a|] eqn:E; [|vm_compute in E; discriminate]. exists a. split; [reflexivity|].
  assert (Hr : reachable 1 a).
  { vm_compute in E. injection E as <-.
    eapply r_step; [eapply r_step; [eapply r_step; [eapply r_step; [apply r_new|]|]|]|].
    - apply (s_record _ _ "codex" 0 5). vm_compute. reflexivity.
    - apply (s_record _ _ "cursor" 0 7). vm_compute. reflexivity.
    - apply s_close. reflexivity.
    - apply s_drain. vm_compute. reflexivity. }
  destruct (attribution_delivers 1 a Hr) as (Hf & _).
  assert (Ho : observed a = [{| agent := "codex"; dur := 5 |}] /\ events a = []) by (vm_compute in E; injection E as <-; done).
  destruct Ho as [Ho He]. split; [exact Ho|]. rewrite He, app_nil_r in Hf. by rewrite Hf.
Defined.

End Attribution.
