(* ===== verification/FairShare.v ===== *)
(** * Per-user fair share

    Models [src/internal/fairshare/fairshare.go]: the float64 token bucket of a
    user, the scheduler's map of buckets with its garbage collection, and the
    identity [handleProxy] of [src/main.go] asks it about.  SHA-256 is an
    argument.

    A bucket is created and asked under two clock readings; [Acquire] is one
    step of the model, with the lookup and the bucket's own lock: in the code the
    lock of the map is released between the two, and a cleanup that falls just
    there makes the call take its token from a bucket the map no longer has.  Such
    histories are outside the model. *)

From Stdlib Require Import ZArith Lia String Reals Lra Psatz SpecFloat.
From stdpp Require Import base option list gmap strings.
From S2P Require Import Prelude GoStrings Headers Float64 FloatError.

Module FairShare.
Import GoStrings Headers Float64 FloatError.
Local Open Scope Z_scope.

Record Config := { MaxRequestsPerUser : Z; Window : Duration; Burst : Z; CleanupInterval : Duration }.

(** ** Buckets *)

Record bucket := {
  tokens : float64;
  maxTokens : Z;
  window : Duration;
  lastRefill : Time;
  lastAccess : Time;
}.

Definition newBucket (maxRequests : Z) (window : Duration) (burst : Z) (now : Time) : bucket :=
  let initial := if maxRequests <? burst then maxRequests else burst in
  {| tokens := of_int initial; maxTokens := maxRequests; window := window; lastRefill := now; lastAccess := now |}.

(** The tokens and the refill time after the refill of [Allow]. *)
Definition refilled (now : Time) (b : bucket) : float64 * Time :=
  let elapsed := time_sub now (lastRefill b) in
  if (0 <? elapsed) && (0 <? window b) then
    let refill := mul (of_int (maxTokens b)) (div (of_int elapsed) (of_int (window b))) in
    let t := add (tokens b) refill in
    (if ltb (of_int (maxTokens b)) t then of_int (maxTokens b) else t, now)
  else (tokens b, lastRefill b).

Definition Allow (now : Time) (b : bucket) : bool * bucket :=
  let '(t, last) := refilled now b in
  let ok := negb (ltb t one) in
  (ok, {| tokens := if ok then sub t one else t; maxTokens := maxTokens b; window := window b; lastRefill := last;
          lastAccess := now |}).

(** ** The scheduler *)

Record Scheduler := { cfg : Config; buckets : gmap string bucket }.

Definition New (c : Config) : Scheduler :=
  {| cfg := {| MaxRequestsPerUser := MaxRequestsPerUser c; Window := Window c; Burst := Burst c;
               CleanupInterval := if CleanupInterval c <=? 0 then 5 * Minute else CleanupInterval c |};
     buckets := ∅ |}.

Definition Acquire (user : string) (tNew tAllow : Time) (s : Scheduler) : bool * Scheduler :=
  let c := cfg s in
  let b := match buckets s !! user with
           | Some b => b
           | None => newBucket (MaxRequestsPerUser c) (Window c) (Burst c) tNew
           end in
  let '(ok, b) := Allow tAllow b in
  (ok, {| cfg := c; buckets := <[user := b]> (buckets s) |}).

Definition Release (user : string) (s : Scheduler) : Scheduler := s.

(** [s.cfg.Window*2] is an int64 product. *)
Definition gc (now : Time) (s : Scheduler) : Scheduler :=
  {| cfg := cfg s;
     buckets := filter (fun kv => negb (i64_mul (Window (cfg s)) 2 <? time_sub now (lastAccess kv.2))) (buckets s) |}.

(** ** Identities *)

(** [hex] is the hexadecimal SHA-256 of a string. *)
Definition UserFromToken (hex : string -> string) (token : string) : string :=
  if token =s "" then "" else "token:" ++ substring 0 16 (hex token).

Definition user_of (hex : string -> string) (h : Header) : string :=
  let user := Get h "X-User" in
  if user =s "" then UserFromToken hex (TrimPrefix (Get h "Authorization") "Bearer ") else user.

(** The gate of the handler: [None] admits the request untracked. *)
Definition fair_gate (hex : string -> string) (h : Header) (tNew tAllow : Time) (sch : option Scheduler)
  : bool * option Scheduler :=
  match sch with
  | None => (true, None)
  | Some s =>
      let user := user_of hex h in
      if user =s "" then (true, Some s) else let '(ok, s) := Acquire user tNew tAllow s in (ok, Some s)
  end.

(** ** One bucket in the reals *)

Section bound.
Context (M W : Z) (HM : 1 <= M < 2 ^ 50) (HW : 0 < W < 2 ^ 53).

Record wf (b : bucket) : Prop := {
  wf_max : maxTokens b = M;
  wf_window : window b = W;
  wf_num : num (tokens b);
  wf_le : (val (tokens b) <= IZR M)%R;
  wf_time : lastRefill b <= lastAccess b;
}.

Lemma HM' : (1 <= IZR M < bp 50)%R.
Proof. split; [apply IZR_le; lia|]. rewrite <- bp_IZR by lia. apply IZR_lt. lia. Qed.

Lemma M_float : num (of_int M) /\ val (of_int M) = IZR M.
Proof. apply of_int_exact. lia. Qed.

Lemma one_float : num one /\ val one = 1%R.
Proof. apply (of_int_exact 1). lia. Qed.

(** The errors of the analysis are far below the unit [M * ulp]. *)
Lemma constants : (0 < ulp /\ ulp <= / 1000 /\ 0 < tiny /\ 100 * IZR M * tiny <= IZR M * ulp /\ tiny <= IZR M * tiny)%R.
Proof.
  assert (H1 : ulp = (/ 4503599627370496)%R) by (unfold ulp, bp, powerRZ; f_equal; rewrite (pow_IZR 2); done).
  assert (H2 : (0 < tiny)%R) by apply bp_pos.
  assert (H3 : (128 * tiny <= ulp)%R).
  { change 128%R with (IZR (2 ^ 7)). rewrite bp_IZR by lia. unfold tiny, ulp. rewrite <- bp_add. apply bp_le. lia. }
  pose proof HM'. split; [rewrite H1; lra|]. split; [rewrite H1; lra|]. split; [done|]. split; nra.
Qed.

(** The ratio of elapsed time and window, for elapsed times below the window. *)
Lemma ratio_small e : 0 < e < W -> let a := div (of_int e) (of_int W) in
  num a /\ (val a <= IZR e / IZR W * (1 + ulp) + tiny)%R.
Proof.
  intros He. destruct (of_int_exact e ltac:(lia)) as [He1 He2]. destruct (of_int_exact W ltac:(lia)) as [HW1 HW2].
  assert (HWp : (0 < IZR W)%R) by (apply IZR_lt; lia). assert (Hep : (0 < IZR e < IZR W)%R) by (split; apply IZR_lt; lia).
  assert (Hr : (IZR e / IZR W <= 1)%R).
  { apply (Rmult_le_reg_r (IZR W)); [lra|]. unfold Rdiv. rewrite Rmult_assoc, Rinv_l by lra. lra. }
  pose proof (div_near (of_int e) (of_int W) He1 HW1) as Hd. rewrite He2, HW2 in Hd.
  specialize (Hd HWp). assert (Hh : (1 <= huge)%R) by (apply (bp_le 0); lia).
  specialize (Hd ltac:(lra)). split; [by eapply near_num|]. by apply near_le.
Qed.

(** The ratio for any elapsed time: a number, at most [2^65], and at least 1
    once the window is over. *)
Lemma ratio_any e : 0 < e <= max_int64 -> let a := div (of_int e) (of_int W) in
  num a /\ (val a <= bp 66)%R /\ (W <= e -> (1 <= val a)%R).
Proof.
  intros He. unfold max_int64 in He. pose proof (of_int_near e ltac:(lia)) as Hn. destruct (of_int_exact W ltac:(lia)) as [HW1 HW2].
  destruct constants as (Hu1 & Hu2 & Ht1 & _).
  assert (HWp : (1 <= IZR W)%R) by (apply IZR_le; lia).
  assert (Hep : (1 <= IZR e <= bp 63)%R) by (split; [apply IZR_le; lia|rewrite <- bp_IZR by lia; apply IZR_le; lia]).
  pose proof (near_le _ _ Hn) as Hle. pose proof (val_nonneg (of_int e)) as H0.
  assert (Ht : (tiny <= 1)%R) by (apply (bp_le (-1074) 0); lia).
  assert (H64 : (val (of_int e) <= bp 65)%R).
  { change 65 with (2 + 63). rewrite bp_add. change (bp 2) with (2 * (2 * 1))%R.
    assert (IZR e * ulp <= IZR e * / 1000)%R by (apply Rmult_le_compat_l; lra). lra. }
  assert (Hiv : (0 < / IZR W <= 1)%R).
  { split; [apply Rinv_0_lt_compat; lra|]. rewrite <- Rinv_1. apply Rinv_le_contravar; lra. }
  assert (Hq : (0 <= val (of_int e) / IZR W <= bp 65)%R) by (unfold Rdiv; split; nra).
  pose proof (div_near (of_int e) (of_int W) (near_num _ _ Hn) HW1) as Hd. rewrite HW2 in Hd.
  specialize (Hd ltac:(lra)). pose proof (bp_le 65 900 ltac:(lia)) as H900. specialize (Hd ltac:(unfold huge; lra)).
  split; [by eapply near_num|]. split.
  - pose proof (near_le _ _ Hd). change 66 with (1 + 65). rewrite bp_add. change (bp 1) with (2 * 1)%R.
    assert (2 * (2 * 1) <= bp 65)%R by (apply (bp_le 2); lia).
    set (x := (val (of_int e) / IZR W)%R) in *. assert (x * ulp <= x * / 1000)%R by (apply Rmult_le_compat_l; lra). lra.
  - intros HWe. apply (near_floor _ _ 0 Hd); [lia|]. rewrite bp_0.
    assert (Hmono : (IZR W <= val (of_int e))%R).
    { destruct (Z.lt_ge_cases e (2 ^ 53)) as [Hs|Hb].
      - destruct (of_int_exact e ltac:(lia)) as [_ ->]. by apply IZR_le.
      - apply (Rle_trans _ (bp 53)); [rewrite <- bp_IZR by lia; apply IZR_le; lia|].
        apply (near_floor _ _ 53 Hn); [lia|]. rewrite <- bp_IZR by lia. by apply IZR_le. }
    apply (Rmult_le_reg_r (IZR W)); [lra|]. unfold Rdiv. rewrite Rmult_assoc, Rinv_l by lra. lra.
Qed.

(** The product of [M] and a ratio. *)
Lemma refill_near a : num a -> (val a <= bp 66)%R -> near (mul (of_int M) a) (IZR M * val a) /\ (IZR M * val a <= bp 116)%R.
Proof.
  intros Ha Hle. destruct M_float as [Hm1 Hm2]. pose proof HM'. pose proof (val_nonneg a).
  assert (Hb : (IZR M * val a <= bp 116)%R) by (change 116 with (50 + 66); rewrite bp_add; nra).
  split; [|done]. rewrite <- Hm2. apply mul_near; [done|done|]. rewrite Hm2. pose proof (bp_le 116 900 ltac:(lia)). unfold huge. lra.
Qed.

Lemma sum_near t r : num t -> num r -> (val t <= IZR M)%R -> (val r <= bp 118)%R -> near (add t r) (val t + val r).
Proof.
  intros Ht Hr H1 H2. apply add_near; [done|done|]. pose proof HM'.
  assert (Hs : (val t + val r <= bp 119)%R).
  { pose proof (bp_le 50 118 ltac:(lia)). change 119 with (1 + 118). rewrite bp_add. change (bp 1) with (2 * 1)%R. lra. }
  pose proof (bp_le 119 900 ltac:(lia)). unfold huge. lra.
Qed.

(** The clamp at the capacity. *)
Lemma clamp_spec t : num t ->
  let c := if ltb (of_int M) t then of_int M else t in
  num c /\ (val c <= IZR M)%R /\ (val c <= val t)%R /\ ((1 <= val t)%R -> (1 <= val c)%R).
Proof.
  intros Ht. destruct M_float as [Hm1 Hm2]. pose proof HM'. cbn zeta.
  destruct (ltb (of_int M) t) eqn:E.
  - apply (ltb_val _ _ Hm1 Ht) in E. rewrite Hm2 in *. split; [done|]. lra.
  - apply (ltb_false _ _ Hm1 Ht) in E. rewrite Hm2 in E. split; [done|]. lra.
Qed.

Lemma refill_le a : num a -> (val a <= bp 66)%R -> (val (mul (of_int M) a) <= bp 118)%R.
Proof.
  intros Ha Hab. destruct (refill_near a Ha Hab) as [Hb Hbb]. destruct constants as (Hu1 & Hu2 & Ht1 & _).
  pose proof (near_le _ _ Hb) as Hrle. assert (Htl : (tiny <= 1)%R) by (apply (bp_le (-1074) 0); lia).
  pose proof HM'. pose proof (val_nonneg a).
  change 118 with (2 + 116). rewrite bp_add. change (bp 2) with (2 * (2 * 1))%R.
  assert (1 <= bp 116)%R by (apply (bp_le 0); lia). assert (Hx : (0 <= IZR M * val a)%R) by (apply Rmult_le_pos; lra).
  set (x := (IZR M * val a)%R) in *. assert (x * ulp <= x * / 1000)%R by (apply Rmult_le_compat_l; lra). lra.
Qed.

(** What a refill adds. *)
Lemma refill_bounds e (t : float64) :
  0 < e <= max_int64 -> num t -> (val t <= IZR M)%R ->
  let r := add t (mul (of_int M) (div (of_int e) (of_int W))) in
  num r /\ (W <= e -> (1 <= val r)%R) /\
  (e < W -> (val r <= val t + IZR M * (IZR e / IZR W) + 7 * (IZR M * ulp))%R).
Proof.
  intros He Ht Hle. cbn zeta. destruct (ratio_any e He) as (Ha & Hab & Ha1). set (a := div (of_int e) (of_int W)) in *.
  destruct (refill_near a Ha Hab) as [Hb Hbb]. destruct constants as (Hu1 & Hu2 & Ht1 & Htiny & Htm1). pose proof HM' as HMr.
  set (r := mul (of_int M) a) in *. pose proof (val_nonneg a) as Ha0. pose proof (val_nonneg t) as Ht0.
  pose proof (near_le _ _ Hb) as Hrle. assert (Htl : (tiny <= 1)%R) by (apply (bp_le (-1074) 0); lia).
  assert (Hr118 : (val r <= bp 118)%R) by (by apply refill_le).
  pose proof (sum_near t r Ht (near_num _ _ Hb) Hle Hr118) as Hs. split; [by eapply near_num|]. split.
  - intros HWe. specialize (Ha1 HWe).
    assert (Hr1 : (1 <= val r)%R). { rewrite <- bp_0. apply (near_floor _ _ 0 Hb); [lia|]. rewrite bp_0. nra. }
    rewrite <- bp_0. apply (near_floor _ _ 0 Hs); [lia|]. rewrite bp_0. lra.
  - intros HeW. destruct (ratio_small e ltac:(lia)) as [_ Hrs]. fold a in Hrs.
    assert (HWp : (0 < IZR W)%R) by (apply IZR_lt; lia). assert (Hep : (0 < IZR e < IZR W)%R) by (split; apply IZR_lt; lia).
    set (q := (IZR e / IZR W)%R) in *. assert (Hq : (0 <= q <= 1)%R).
    { split; [apply Rlt_le, Rdiv_lt_0_compat; lra|]. apply (Rmult_le_reg_r (IZR W)); [lra|].
      unfold q, Rdiv. rewrite Rmult_assoc, Rinv_l by lra. lra. }
    pose proof (near_le _ _ Hs) as Hsle. set (Mu := (IZR M * ulp)%R) in *.
    assert (HMu : (0 < Mu)%R) by (subst Mu; nra).
    assert (E1 : (IZR M * val a <= IZR M * q + Mu + IZR M * tiny)%R).
    { assert (IZR M * val a <= IZR M * (q * (1 + ulp) + tiny))%R by (apply Rmult_le_compat_l; lra).
      assert (IZR M * (q * ulp) <= Mu)%R by (subst Mu; apply Rmult_le_compat_l; nra). lra. }
    assert (HMs : (Mu <= IZR M * / 1000)%R) by (subst Mu; apply Rmult_le_compat_l; lra).
    assert (HMq : (IZR M * q <= IZR M)%R) by (rewrite <- (Rmult_1_r (IZR M)) at 2; apply Rmult_le_compat_l; lra).
    assert (E2 : (IZR M * val a * ulp <= 2 * Mu)%R).
    { replace (2 * Mu)%R with (2 * IZR M * ulp)%R by (subst Mu; ring). apply Rmult_le_compat_r; lra. }
    assert (E3 : (val r <= IZR M * q + 3 * Mu + 3 * (IZR M * tiny))%R) by lra.
    assert (E4 : ((val t + val r) * ulp <= 3 * Mu)%R).
    { replace (3 * Mu)%R with (3 * IZR M * ulp)%R by (subst Mu; ring). apply Rmult_le_compat_r; lra. }
    lra.
Qed.

Lemma refilled_spec now b :
  wf b -> lastRefill b <= now ->
  let '(t, last) := refilled now b in
  num t /\ (val t <= IZR M)%R /\ lastRefill b <= last <= now /\
  (val t <= val (tokens b) + IZR M * (IZR (last - lastRefill b) / IZR W) + 7 * (IZR M * ulp))%R /\
  (W <= now - lastRefill b -> (1 <= val t)%R).
Proof.
  intros [Hmax Hwin Hn Hle Htm] Hnow. unfold refilled. rewrite Hmax, Hwin. destruct constants as (Hu1 & _).
  pose proof HM' as HMr. assert (HWp : (0 < IZR W)%R) by (apply IZR_lt; lia).
  assert (Hsub : time_sub now (lastRefill b) = Z.min max_int64 (now - lastRefill b)) by (unfold time_sub, min_int64, max_int64; lia).
  rewrite Hsub. rewrite (proj2 (Z.ltb_lt 0 W)) by lia. rewrite andb_true_r.
  destruct (Z.ltb_spec 0 (Z.min max_int64 (now - lastRefill b))) as [Hpos|Hz].
  - set (e := Z.min max_int64 (now - lastRefill b)) in *. assert (Hmi : 2 ^ 53 < max_int64) by (unfold max_int64; lia).
    destruct (refill_bounds e (tokens b) ltac:(lia) Hn Hle) as (Hr & Hr1 & Hr2).
    set (r := add (tokens b) _) in *. destruct (clamp_spec r Hr) as (Hc1 & Hc2 & Hc3 & Hc4).
    split; [done|]. split; [done|]. split; [lia|]. split.
    + pose proof (val_nonneg (tokens b)). destruct (Z.lt_ge_cases e W) as [Hs|Hb].
      * assert (e = now - lastRefill b) as <- by lia. specialize (Hr2 Hs). lra.
      * assert (Hq : (1 <= IZR (now - lastRefill b) / IZR W)%R).
        { apply (Rmult_le_reg_r (IZR W)); [lra|]. unfold Rdiv. rewrite Rmult_assoc, Rinv_l by lra.
          assert (IZR W <= IZR (now - lastRefill b))%R by (apply IZR_le; lia). lra. }
        assert (0 < IZR M * ulp)%R by nra. nra.
    + intros HWn. apply Hc4, Hr1. lia.
  - assert (now = lastRefill b) as -> by (unfold max_int64 in *; lia). rewrite Z.sub_diag. unfold Rdiv. rewrite Rmult_0_l, Rmult_0_r.
    assert (0 < IZR M * ulp)%R by nra. split; [done|]. split; [done|]. split; [lia|]. split; [lra|lia].
Qed.

(** A refill keeps at least one token. *)
Lemma refilled_ge now b :
  wf b -> lastRefill b <= now -> (1 <= val (tokens b))%R ->
  let '(t, _) := refilled now b in num t /\ (1 <= val t)%R.
Proof.
  intros [Hmax Hwin Hn Hle Htm] Hnow H1. unfold refilled. rewrite Hmax, Hwin.
  destruct (0 <? W); [|by rewrite andb_false_r]. rewrite andb_true_r.
  destruct (Z.ltb_spec 0 (time_sub now (lastRefill b))) as [Hpos|Hz]; [|done].
  assert (He : 0 < time_sub now (lastRefill b) <= max_int64) by (unfold time_sub, min_int64, max_int64 in *; lia).
  set (e := time_sub now (lastRefill b)) in *. destruct (ratio_any e He) as (Ha & Hab & _).
  destruct (refill_near _ Ha Hab) as [Hb Hbb]. set (r := mul (of_int M) _) in *.
  destruct (refill_bounds e (tokens b) He Hn Hle) as (Hr & _). fold r in Hr.
  destruct (clamp_spec _ Hr) as (Hc1 & _ & _ & Hc4). split; [done|]. apply Hc4.
  assert (Hs : near (add (tokens b) r) (val (tokens b) + val r)).
  { apply sum_near; [done|by eapply near_num|done|]. by apply refill_le. }
  rewrite <- bp_0. apply (near_floor _ _ 0 Hs); [lia|]. rewrite bp_0. pose proof (val_nonneg r). lra.
Qed.

(** One request: the tokens left and the requests admitted together grow by no
    more than the share of the elapsed time and a rounding error. *)
Lemma Allow_spec now b :
  wf b -> lastAccess b <= now ->
  let '(ok, b') := Allow now b in
  wf b' /\ lastRefill b <= lastRefill b' <= now /\ lastAccess b' = now /\
  ((if ok then 1 else 0) + val (tokens b') <=
     val (tokens b) + IZR M * (IZR (lastRefill b' - lastRefill b) / IZR W) + 9 * (IZR M * ulp))%R /\
  (W <= now - lastRefill b -> ok = true).
Proof.
  intros Hwf Hnow. pose proof (wf_time _ Hwf). pose proof (refilled_spec now b Hwf ltac:(lia)) as Hr. unfold Allow.
  destruct (refilled now b) as [t last]. destruct Hr as (Hn & Hle & Hlast & Hval & Hfull).
  destruct one_float as [H1a H1b]. destruct constants as (Hu1 & Hu2 & Ht1 & Htiny & Htm1). pose proof HM' as HMr.
  assert (HMu : (0 < IZR M * ulp <= / 2)%R).
  { split; [nra|]. assert (IZR M * ulp <= bp 50 * ulp)%R by nra. unfold ulp in *. rewrite <- bp_add in H0.
    pose proof (bp_le (50 + -52) (-1) ltac:(lia)) as Hb. change (bp (-1)) with (/ (2 * 1))%R in Hb. lra. }
  destruct (ltb t one) eqn:E; cbn [negb].
  - split; [destruct Hwf; split; cbn [maxTokens window tokens lastRefill lastAccess]; (done || lia)|]. split; [done|]. split; [done|]. split; [cbn [tokens lastRefill]; lra|].
    intros HWn. exfalso. apply (ltb_val _ _ Hn H1a) in E. rewrite H1b in E. specialize (Hfull HWn). lra.
  - apply (ltb_false _ _ Hn H1a) in E. rewrite H1b in E.
    assert (Hh : (bp 50 <= huge)%R) by (apply bp_le; lia).
    pose proof (sub_near t one Hn H1a) as Hs. rewrite H1b in Hs. specialize (Hs ltac:(lra)). pose proof (near_le _ _ Hs) as Hsl.
    assert (Hd : (val (sub t one) <= val t - 1 + 2 * (IZR M * ulp))%R).
    { assert ((val t - 1) * ulp <= IZR M * ulp)%R by (apply Rmult_le_compat_r; lra).
      lra. }
    split; [|split; [done|split; [done|split; [cbn [tokens lastRefill]; lra|done]]]].
    split; cbn [maxTokens window tokens lastRefill lastAccess]; [apply Hwf|apply Hwf|by eapply near_num|lra|lia].
Qed.

End bound.

(** ** Histories *)

Inductive op := Acq (user : string) (tNew tAllow : Time) | Gc (now : Time).

Definition op_start (o : op) : Time := match o with Acq _ t _ => t | Gc t => t end.
Definition op_end (o : op) : Time := match o with Acq _ _ t => t | Gc t => t end.

(** The clock does not run backwards. *)
Fixpoint ordered (t : Time) (ops : list op) : Prop :=
  match ops with [] => True | o :: ops => t <= op_start o <= op_end o /\ ordered (op_end o) ops end.

Fixpoint end_time (t : Time) (ops : list op) : Time :=
  match ops with [] => t | o :: ops => end_time (op_end o) ops end.

(** The scheduler after a history, the requests of [u] that were admitted and
    the requests of [u]. *)
Fixpoint play (u : string) (ops : list op) (s : Scheduler) (adm calls : Z) : Scheduler * Z * Z :=
  match ops with
  | [] => (s, adm, calls)
  | Acq v t1 t2 :: ops =>
      let '(ok, s) := Acquire v t1 t2 s in
      if bool_decide (v = u) then play u ops s (if ok then adm + 1 else adm) (calls + 1) else play u ops s adm calls
  | Gc t :: ops => play u ops (gc t s) adm calls
  end.

Section history.
Context (c : Config).
Abbreviation M := (MaxRequestsPerUser c).
Abbreviation W := (Window c).
Context (HM : 1 <= M < 2 ^ 50) (HW : 0 < W < 2 ^ 53) (HB : 0 <= Burst c).

Definition initial : Z := Z.min (Burst c) M.
Definition share (d : Duration) : R := IZR M * (IZR d / IZR W).
Definition slack (calls : Z) : R := IZR calls * (9 * (IZR M * ulp)).

Lemma share_add a b : share (a + b) = (share a + share b)%R.
Proof. unfold share. rewrite plus_IZR. unfold Rdiv. ring. Qed.

Lemma share_nonneg d : 0 <= d -> (0 <= share d)%R.
Proof.
  intros Hd. unfold share. apply IZR_le in Hd. assert (0 < / IZR W)%R by (apply Rinv_0_lt_compat, IZR_lt; lia).
  assert (1 <= IZR M)%R by (apply IZR_le; lia). unfold Rdiv. apply Rmult_le_pos; [lra|]. apply Rmult_le_pos; lra.
Qed.

Lemma share_mono a b : a <= b -> (share a <= share b)%R.
Proof. intros H. replace b with (a + (b - a)) by lia. rewrite share_add. pose proof (share_nonneg (b - a) ltac:(lia)). lra. Qed.

Lemma share_window d : W <= d -> (IZR M <= share d)%R.
Proof.
  intros Hd. etransitivity; [|apply (share_mono W d Hd)]. unfold share. assert (0 < IZR W)%R by (apply IZR_lt; lia).
  right. field. lra.
Qed.

Lemma slack_succ n : slack (n + 1) = (slack n + 9 * (IZR M * ulp))%R.
Proof. unfold slack. rewrite plus_IZR. ring. Qed.

Lemma new_wf t : wf M W (newBucket M W (Burst c) t) /\ val (tokens (newBucket M W (Burst c) t)) = IZR initial.
Proof.
  unfold newBucket, initial. cbn [tokens].
  assert (Hi : (if M <? Burst c then M else Burst c) = Z.min (Burst c) M) by (destruct (Z.ltb_spec M (Burst c)); lia).
  rewrite Hi. destruct (of_int_exact (Z.min (Burst c) M) ltac:(lia)) as [Hn Hv]. split; [|done].
  split; cbn [maxTokens window tokens lastRefill lastAccess]; [done|done|done| |lia]. rewrite Hv. apply IZR_le. lia.
Qed.

(** The account of [u], which first asked at [t0], at time [t]. *)
Definition account (u : string) (t0 t : Time) (s : Scheduler) (adm calls : Z) : Prop :=
  cfg s = c /\
  match buckets s !! u with
  | Some b => wf M W b /\ lastAccess b <= t /\ t0 <= lastRefill b /\
      (IZR adm + val (tokens b) <= IZR initial + share (lastRefill b - t0) + slack calls)%R
  | None => (IZR adm + IZR M <= IZR initial + share (t - t0) + slack calls)%R
  end.

Lemma account_later u t0 t t' s adm calls : t <= t' -> account u t0 t s adm calls -> account u t0 t' s adm calls.
Proof.
  intros Ht [Hc Ha]. split; [done|]. destruct (buckets s !! u) as [b|].
  - destruct Ha as (? & ? & ? & ?). split_and!; try done. lia.
  - pose proof (share_mono (t - t0) (t' - t0) ltac:(lia)). lra.
Qed.

(** A request of [u] on a bucket that satisfies the account. *)
Lemma account_allow u t0 t2 s b adm calls :
  cfg s = c -> wf M W b -> lastAccess b <= t2 -> t0 <= lastRefill b ->
  (IZR adm + val (tokens b) <= IZR initial + share (lastRefill b - t0) + slack calls)%R ->
  let '(ok, b') := Allow t2 b in
  account u t0 t2 {| cfg := c; buckets := <[u := b']> (buckets s) |} (if ok then adm + 1 else adm) (calls + 1).
Proof.
  intros Hc Hwf Hl H0 Ha. pose proof (Allow_spec M W HM HW t2 b Hwf Hl) as H. destruct (Allow t2 b) as [ok b'].
  destruct H as (Hwf' & Hr & Hla & Hv & _). split; [done|]. cbn [buckets]. rewrite lookup_insert_eq. split_and!; [done|lia|lia|].
  fold (share (lastRefill b' - lastRefill b)) in Hv. rewrite slack_succ.
  replace (lastRefill b' - t0) with ((lastRefill b - t0) + (lastRefill b' - lastRefill b)) by lia. rewrite share_add.
  destruct ok; [rewrite plus_IZR|]; lra.
Qed.

Lemma account_acquire u v t0 t t1 t2 s adm calls :
  t0 <= t -> t <= t1 <= t2 -> account u t0 t s adm calls ->
  let '(ok, s') := Acquire v t1 t2 s in
  if decide (v = u) then account u t0 t2 s' (if ok then adm + 1 else adm) (calls + 1) else account u t0 t2 s' adm calls.
Proof.
  intros H0 Ht Hacc. pose proof Hacc as [Hc Ha]. unfold Acquire. rewrite Hc. destruct (decide (v = u)) as [->|Hne].
  - destruct (buckets s !! u) as [b|] eqn:Eb.
    + destruct Ha as (Hwf & Hla & Hlr & Hv). pose proof (account_allow u t0 t2 s b adm calls Hc Hwf ltac:(lia) Hlr Hv) as H.
      by destruct (Allow t2 b).
    + destruct (new_wf t1) as [Hwf Hv]. set (b := newBucket M W (Burst c) t1) in *.
      pose proof (account_allow u t0 t2 s b adm calls Hc Hwf) as H.
      assert (Hini : (IZR initial <= IZR M)%R) by (apply IZR_le; unfold initial; lia).
      pose proof (share_mono (t - t0) (t1 - t0) ltac:(lia)).
      specialize (H ltac:(simpl; lia) ltac:(simpl; lia) ltac:(simpl lastRefill; rewrite Hv; lra)). by destruct (Allow t2 b).
  - destruct (Allow t2 _) as [ok b']. destruct (account_later u t0 t t2 s adm calls ltac:(lia) Hacc) as [_ Ha'].
    split; [done|]. cbn [buckets]. by rewrite lookup_insert_ne.
Qed.

Lemma account_gc u t0 t t' s adm calls :
  t <= t' -> account u t0 t s adm calls -> account u t0 t' (gc t' s) adm calls.
Proof.
  intros Ht Hacc. destruct (account_later _ _ _ _ _ _ _ Ht Hacc) as [Hc Ha]. split; [done|]. unfold gc. cbn [buckets]. rewrite Hc.
  assert (HW2 : i64_mul W 2 = 2 * W) by (unfold i64_mul; rewrite wrap64_small; [lia|unfold in_int64, min_int64, max_int64; lia]).
  rewrite HW2. destruct (buckets s !! u) as [b|] eqn:Eb.
  - destruct (Z.ltb_spec (2 * W) (time_sub t' (lastAccess b))) as [Hidle|Hk].
    + rewrite (proj2 (map_lookup_filter_None _ _ _)).
      * destruct Ha as (Hwf & Hla & Hlr & Hv). pose proof (wf_time _ _ _ Hwf).
        assert (Hgap : W <= t' - lastRefill b) by (unfold time_sub, min_int64, max_int64 in Hidle; lia).
        pose proof (share_window _ Hgap) as Hsw. pose proof (val_nonneg (tokens b)).
        replace (t' - t0) with ((lastRefill b - t0) + (t' - lastRefill b)) by lia. rewrite share_add. lra.
      * right. intros b' Hb'. rewrite Eb in Hb'. injection Hb' as <-. simpl. rewrite (proj2 (Z.ltb_lt _ _)) by lia. by intros [].
    + rewrite (proj2 (map_lookup_filter_Some _ _ _ b)); [done|]. split; [done|]. simpl.
      by rewrite (proj2 (Z.ltb_ge _ _)) by lia.
  - rewrite (proj2 (map_lookup_filter_None _ _ _)) by (by left). done.
Qed.

Lemma play_account u t0 ops : forall t s adm calls,
  t0 <= t -> ordered t ops -> account u t0 t s adm calls ->
  let '(s', adm', calls') := play u ops s adm calls in account u t0 (end_time t ops) s' adm' calls'.
Proof.
  induction ops as [|o ops IH]; intros t s adm calls H0 Ho Ha; [done|]. destruct Ho as [Ht Ho]. cbn [play end_time].
  destruct o as [v t1 t2|t1]; cbn [op_start op_end] in *.
  - pose proof (account_acquire u v t0 t t1 t2 s adm calls H0 Ht Ha) as H. destruct (Acquire v t1 t2 s) as [ok s'].
    case_bool_decide as Hv; destruct (decide (v = u)); try done; apply IH; (done || lia).
  - apply IH; [lia|done|]. apply (account_gc u t0 t t1); [lia|done].
Qed.

Lemma account_bound u t0 t s adm calls :
  t0 <= t -> account u t0 t s adm calls -> (IZR adm <= IZR initial + share (t - t0) + slack calls)%R.
Proof.
  intros H0 [_ Ha]. assert (1 <= IZR M)%R by (apply IZR_le; lia). destruct (buckets s !! u) as [b|]; [|lra].
  destruct Ha as (Hwf & Hla & Hlr & Hv). pose proof (wf_time _ _ _ Hwf). pose proof (val_nonneg (tokens b)).
  pose proof (share_mono (lastRefill b - t0) (t - t0) ltac:(lia)). lra.
Qed.

(** C31: The rate limit, on the floats the code computes with: over any history of
    requests of all users and of garbage collections, a user is admitted at
    most its burst plus its share of the elapsed time, and a rounding error of
    less than [9 * M * 2^-52] per request.  An evicted bucket that is created
    anew gains nothing. *)
Theorem fair_share_bound u t0 t1 ops s s' adm calls :
  cfg s = c -> buckets s !! u = None -> t0 <= t1 -> ordered t1 ops ->
  play u (Acq u t0 t1 :: ops) s 0 0 = (s', adm, calls) ->
  (IZR adm <= IZR initial + share (end_time t1 ops - t0) + slack calls)%R.
Proof.
  intros Hc Hn Ht Ho H. cbn [play] in H. unfold Acquire in H. rewrite Hn, Hc in H.
  destruct (new_wf t0) as [Hwf Hv]. pose proof (account_allow u t0 t1 s _ 0 0 Hc Hwf) as Ha.
  specialize (Ha ltac:(simpl; lia) ltac:(simpl; lia)). rewrite Hv in Ha. cbn [lastRefill newBucket] in Ha.
  rewrite Z.sub_diag in Ha. unfold slack at 1, share at 1, Rdiv in Ha. rewrite !Rmult_0_l, Rmult_0_r in Ha. specialize (Ha ltac:(lra)).
  destruct (Allow t1 (newBucket M W (Burst c) t0)) as [ok b']. rewrite bool_decide_eq_true_2 in H by done.
  pose proof (play_account u t0 ops t1 _ _ _ Ht Ho Ha) as Hp. cbn [Z.add] in *. rewrite H in Hp.
  apply (account_bound u t0 (end_time t1 ops) s' adm calls); [|done].
  clear -Ht Ho. revert t1 Ht Ho. induction ops as [|o ops IH]; intros t1 Ht Ho; simpl; [done|]. destruct Ho. apply IH; [lia|done].
Qed.

(** Every bucket of the map is in order. *)
Definition orderly (t : Time) (s : Scheduler) : Prop :=
  cfg s = c /\ map_Forall (fun _ b => wf M W b /\ lastAccess b <= t) (buckets s).

(** Nobody is starved: a user the scheduler does not know is admitted, and so is
    one that has waited for a window since the last refill of its bucket. *)
Theorem fair_share_serves u t t1 t2 s :
  1 <= Burst c -> orderly t s -> t <= t1 <= t2 ->
  (forall b, buckets s !! u = Some b -> W <= t2 - lastRefill b) ->
  let '(ok, s') := Acquire u t1 t2 s in ok = true /\ orderly t2 s'.
Proof.
  intros HB1 [Hc Hall] Ht Hidle. unfold Acquire. rewrite Hc.
  assert (Hb : exists b, (match buckets s !! u with Some b => b | None => newBucket M W (Burst c) t1 end) = b /\
    wf M W b /\ lastAccess b <= t2 /\ (W <= t2 - lastRefill b \/ (1 <= val (tokens b))%R)).
  { destruct (buckets s !! u) as [b|] eqn:Eb.
    - exists b. destruct (Hall u b Eb) as [Hwf Hl]. split_and!; [done|done|lia|left; by apply Hidle].
    - destruct (new_wf t1) as [Hwf Hv]. eexists. split_and!; [done|done|simpl; lia|right]. rewrite Hv. apply IZR_le.
      unfold initial. lia. }
  destruct Hb as (b & -> & Hwf & Hl & Hor). pose proof (Allow_spec M W HM HW t2 b Hwf Hl) as Ha.
  assert (Hok : fst (Allow t2 b) = true).
  { destruct Hor as [Hw|H1].
    - destruct (Allow t2 b). by apply Ha.
    - pose proof (wf_time _ _ _ Hwf). pose proof (refilled_ge M W HM HW t2 b Hwf ltac:(lia) H1) as Hge.
      unfold Allow. destruct (refilled t2 b) as [tk last]. destruct Hge as [Hn Hge]. destruct one_float as [H1a H1b].
      rewrite (proj2 (ltb_false _ _ Hn H1a)) by (rewrite H1b; lra). done. }
  destruct (Allow t2 b) as [ok b']. split; [done|]. split; [done|]. cbn [buckets]. apply map_Forall_insert_2.
  - destruct Ha as (? & ? & ? & _). split; [done|lia].
  - eapply map_Forall_impl; [exact Hall|]. intros k x [? ?]. split; [done|lia].
Qed.

End history.

(** ** Examples and witnesses *)

Definition ex_cfg : Config := {| MaxRequestsPerUser := 10; Window := Minute; Burst := 3; CleanupInterval := 5 * Minute |}.

Definition ex_ops : list op := [Acq "bob" 5 5; Acq "alice" 5 6; Acq "alice" 7 8; Acq "alice" 8 9; Gc 10; Acq "alice" (6 * Second) (6 * Second)].

(** Three at once, the fourth refused, and one more a tenth of a window later. *)
Lemma fair_share_bound_witness :
  exists s' adm calls, play "alice" (Acq "alice" 0 0 :: ex_ops) (New ex_cfg) 0 0 = (s', adm, calls) /\ adm = 4 /\ calls = 5 /\
    (IZR adm <= IZR 3 + share ex_cfg (6 * Second) + slack ex_cfg 5)%R.
Proof.
  destruct (play "alice" (Acq "alice" 0 0 :: ex_ops) (New ex_cfg) 0 0) as [[s' adm] calls] eqn:E.
  assert (Hv : adm = 4 /\ calls = 5) by (vm_compute in E; injection E as _ <- <-; done). destruct Hv as [-> ->].
  exists s', 4, 5. split; [reflexivity|]. split; [reflexivity|]. split; [reflexivity|].
  apply (fair_share_bound ex_cfg ltac:(simpl; lia) ltac:(unfold ex_cfg, Minute, Second; simpl; lia) ltac:(simpl; lia)
           "alice" 0 0 ex_ops (New ex_cfg) s' 4 5); [reflexivity|reflexivity|lia| |exact E].
  simpl. unfold Second. lia.
Defined.

Definition ex_spent : Scheduler := fst (fst (play "alice" [Acq "alice" 0 0; Acq "alice" 0 0; Acq "alice" 0 0] (New ex_cfg) 0 0)).

Definition ex_empty : bucket :=
  {| tokens := S754_zero false; maxTokens := 10; window := Minute; lastRefill := 0; lastAccess := 0 |}.

Lemma fair_share_serves_witness :
  (Acquire "alice" 1 1 ex_spent).1 = false /\ (Acquire "alice" Minute Minute ex_spent).1 = true.
Proof.
  split; [vm_compute; reflexivity|].
  pose proof (fair_share_serves ex_cfg ltac:(simpl; lia) ltac:(unfold ex_cfg, Minute, Second; simpl; lia) ltac:(simpl; lia)
    "alice" 0 Minute Minute ex_spent ltac:(simpl; lia)) as H.
  destruct (Acquire "alice" Minute Minute ex_spent) as [ok s']. destruct H as [Hok _]; [|unfold Minute, Second; lia| |exact Hok].
  - split; [reflexivity|]. assert (Hs : buckets ex_spent = {[ "alice" := ex_empty ]}) by (vm_compute; reflexivity).
    rewrite Hs. apply map_Forall_singleton. split; [|unfold ex_empty; cbn [lastAccess]; lia].
    split; [reflexivity|reflexivity|exact I|simpl; lra|cbn [lastRefill lastAccess ex_empty]; lia].
  - intros b Hb. vm_compute in Hb. injection Hb as <-. simpl. unfold Minute, Second. lia.
Defined.

(** The [X-User] header is believed before the credential. *)
Example user_header_wins :
  user_of (fun _ => "0123456789abcdef0123") {[ "Authorization" := ["Bearer t"]; "X-User" := ["someone"] ]} = "someone" /\
  user_of (fun _ => "0123456789abcdef0123") {[ "Authorization" := ["Bearer t"] ]} = "token:0123456789abcdef".
Proof. vm_compute. done. Qed.

End FairShare.
