(* ===== verification/LiveProbe.v ===== *)
(** * The forced-probe limiter

    Models [src/internal/health/liveprobe.go], the global float64 token bucket
    in front of [/healthz?live=1], and [forcedProbeAllowed] of [src/main.go]
    that builds it on first use. *)

From Stdlib Require Import ZArith Lia Reals Lra Psatz.
From stdpp Require Import base option list.
From S2P Require Import Prelude Float64 FloatError FairShare RouterConfig.

Module LiveProbe.
Import Float64 FloatError.
Local Open Scope Z_scope.

Definition DefaultLiveProbeInterval : Duration := 10 * Second.
Definition DefaultLiveProbeBurst : Z := 3.

Record ProbeLimiter := { interval : Duration; burst : Z; tokens : float64; last : Time }.

Definition NewProbeLimiter (interval : Duration) (burst : Z) (now : Time) : ProbeLimiter :=
  let interval := if interval <=? 0 then DefaultLiveProbeInterval else interval in
  let burst := if burst <=? 0 then DefaultLiveProbeBurst else burst in
  {| interval := interval; burst := burst; tokens := of_int burst; last := now |}.

Definition Interval (l : option ProbeLimiter) : Duration := match l with None => 0 | Some l => interval l end.
Definition Burst (l : option ProbeLimiter) : Z := match l with None => 0 | Some l => burst l end.

Definition refilled (now : Time) (l : ProbeLimiter) : float64 * Time :=
  let elapsed := time_sub now (last l) in
  if 0 <? elapsed then
    let t := add (tokens l) (div (Seconds elapsed) (Seconds (interval l))) in
    let ceiling := of_int (burst l) in
    (if ltb ceiling t then ceiling else t, now)
  else (tokens l, last l).

Definition allow (now : Time) (l : ProbeLimiter) : bool * ProbeLimiter :=
  let '(t, at_) := refilled now l in
  let ok := negb (ltb t one) in
  (ok, {| interval := interval l; burst := burst l; tokens := if ok then sub t one else t; last := at_ |}).

(** [Allow]: a nil limiter denies. *)
Definition Allow (now : Time) (l : option ProbeLimiter) : bool * option ProbeLimiter :=
  match l with
  | None => (false, None)
  | Some l => let '(ok, l) := allow now l in (ok, Some l)
  end.

(** [forcedProbeAllowed]: the limiter of the configuration at the first call. *)
Definition forcedProbeAllowed (c : RouterConfig.Config) (tNew now : Time) (gate : option ProbeLimiter) : bool * option ProbeLimiter :=
  let gate := match gate with
              | Some l => l
              | None => let lp := RouterConfig.LiveProbe (RouterConfig.HealthCheck c) in
                        NewProbeLimiter (RouterConfig.LInterval lp) (RouterConfig.LBurst lp) tNew
              end in
  Allow now (Some gate).

(** ** Seconds in the reals *)

Definition secs (d : Duration) : R := IZR d / 1000000000.

Lemma small_units : (0 < ulp <= / 1000 /\ 0 < tiny /\ tiny <= ulp * / 1000000000 * / 1000000000000000000000)%R.
Proof.
  assert (H1 : ulp = (/ 4503599627370496)%R) by (unfold ulp, bp, powerRZ; f_equal; rewrite (pow_IZR 2); done).
  assert (H2 : (0 < tiny)%R) by apply bp_pos. split; [rewrite H1; lra|]. split; [done|].
  assert (H3 : (tiny * IZR (2 ^ 200) <= ulp)%R).
  { rewrite bp_IZR by lia. unfold tiny, ulp. rewrite <- bp_add. apply bp_le. lia. }
  assert (H4 : (1000000000 * 1000000000000000000000 <= IZR (2 ^ 200))%R).
  { rewrite <- mult_IZR. apply IZR_le. vm_compute. discriminate. }
  assert (H5 : (tiny * (1000000000 * 1000000000000000000000) <= ulp)%R).
  { apply (Rle_trans _ (tiny * IZR (2 ^ 200))); [|done]. apply Rmult_le_compat_l; lra. }
  lra.
Qed.

(** [Seconds] is exact to three units in the last place. *)
Lemma Seconds_spec d : 0 < d <= max_int64 ->
  num (Seconds d) /\ (secs d * (1 - 3 * ulp) <= val (Seconds d) <= secs d * (1 + 3 * ulp))%R.
Proof.
  intros Hd. unfold max_int64 in Hd. unfold Seconds, Second. rewrite Z.quot_div_nonneg, Z.rem_mod_nonneg by lia.
  set (q := d / 1000000000). set (r := d mod 1000000000).
  assert (Hr : 0 <= r < 1000000000) by (apply Z.mod_pos_bound; lia).
  assert (Hdq : d = 1000000000 * q + r) by (apply Z.div_mod; lia). assert (Hq : 0 <= q < 2 ^ 53) by lia. clearbody q r.
  destruct (of_int_exact q ltac:(lia)) as [Hq1 Hq2]. destruct (of_int_exact r ltac:(lia)) as [Hr1 Hr2].
  destruct (of_int_exact 1000000000 ltac:(lia)) as [Hn1 Hn2]. destruct small_units as ([Hu1 Hu2] & Ht1 & Ht2).
  assert (Hrr : (0 <= IZR r <= 999999999)%R) by (split; apply IZR_le; lia).
  assert (Hqr : (0 <= IZR q <= 9007199254740992)%R) by (split; apply IZR_le; lia).
  assert (Hh : (9007199254740992 * 4 <= huge)%R).
  { change (9007199254740992 * 4)%R with (IZR (2 ^ 53) * IZR (2 ^ 2))%R. rewrite !bp_IZR by lia. rewrite <- bp_add. apply bp_le. lia. }
  pose proof (div_near (of_int r) (of_int 1000000000) Hr1 Hn1) as Hd1. rewrite Hr2, Hn2 in Hd1.
  specialize (Hd1 ltac:(lra) ltac:(lra)). pose proof (near_le _ _ Hd1) as L1. pose proof (near_ge _ _ Hd1) as G1.
  set (f := div (of_int r) (of_int 1000000000)) in *. set (x := (IZR r / 1000000000)%R) in *.
  assert (Hx : (0 <= x <= 1)%R) by (subst x; lra).
  assert (Hxu : (0 <= x * ulp <= / 1000)%R) by (split; [apply Rmult_le_pos; lra|]; apply (Rle_trans _ (1 * ulp)); [apply Rmult_le_compat_r; lra|lra]).
  pose proof (add_near (of_int q) f Hq1 (near_num _ _ Hd1)) as Ha. rewrite Hq2 in Ha. specialize (Ha ltac:(lra)).
  pose proof (near_le _ _ Ha) as L2. pose proof (near_ge _ _ Ha) as G2. split; [by eapply near_num|].
  assert (Hs : secs d = (IZR q + x)%R) by (unfold secs; rewrite Hdq, plus_IZR, mult_IZR; subst x; lra).
  assert (Hs1 : (/ 1000000000 <= secs d)%R) by (unfold secs; assert (1 <= IZR d)%R by (apply IZR_le; lia); lra).
  set (s := secs d) in *. assert (Hxs : (x <= s)%R) by lra.
  assert (Hsu : (s * ulp >= 0)%R) by (apply Rle_ge, Rmult_le_pos; lra).
  assert (Hxsu : (x * ulp <= s * ulp)%R) by (apply Rmult_le_compat_r; lra).
  assert (Htu : (4 * tiny <= s * ulp * / 100)%R).
  { apply (Rle_trans _ (/ 1000000000 * ulp * / 100)); [lra|]. apply Rmult_le_compat_r; [lra|]. apply Rmult_le_compat_r; lra. }
  assert (Huu : (s * ulp * ulp <= s * ulp * / 1000)%R) by (apply Rmult_le_compat_l; lra).
  assert (Hfu : (val f * ulp <= (s - IZR q + x * ulp + tiny) * ulp)%R) by (apply Rmult_le_compat_r; lra).
  assert (Hxuu : (x * ulp * ulp <= s * ulp * / 1000)%R) by (apply (Rle_trans _ (s * ulp * ulp)); [apply Rmult_le_compat_r; lra|lra]).
  assert (Htuu : (tiny * ulp <= tiny)%R) by (rewrite <- (Rmult_1_r tiny) at 2; apply Rmult_le_compat_l; lra).
  assert (Hqu : ((IZR q + val f) * ulp <= s * ulp + s * ulp * / 1000 + tiny)%R) by lra.
  split; lra.
Qed.

(** ** The bound *)

Section bound.
Context (M I : Z) (HM : 1 <= M < 2 ^ 50) (HI : 0 < I <= max_int64).

Lemma ratio_spec e (r := (IZR e / IZR I)%R) : 0 < e <= max_int64 ->
  let a := div (Seconds e) (Seconds I) in num a /\ (val a <= r * (1 + 9 * ulp))%R /\ (0 < r <= bp 63)%R.
Proof.
  intros He. cbn zeta. destruct (Seconds_spec e He) as [Hne [Ge Le]]. destruct (Seconds_spec I HI) as [Hni [Gi Li]].
  destruct small_units as ([Hu1 Hu2] & Ht1 & Ht2).
  assert (He1 : (1 <= IZR e <= bp 63)%R).
  { unfold max_int64 in He. split; [apply IZR_le; lia|rewrite <- bp_IZR by lia; apply IZR_le; lia]. }
  assert (Hi1 : (1 <= IZR I <= bp 63)%R).
  { unfold max_int64 in HI. split; [apply IZR_le; lia|rewrite <- bp_IZR by lia; apply IZR_le; lia]. }
  assert (Hinv : (0 < / IZR I <= 1)%R).
  { split; [apply Rinv_0_lt_compat; lra|]. rewrite <- Rinv_1. apply Rinv_le_contravar; lra. }
  assert (Hr : (0 < r <= bp 63)%R).
  { unfold r, Rdiv. split; [apply Rmult_lt_0_compat; lra|]. rewrite <- (Rmult_1_r (bp 63)). apply Rmult_le_compat; lra. }
  assert (Hri : (IZR I * r = IZR e)%R) by (unfold r; field; lra).
  assert (Hsi : (0 < secs I)%R) by (unfold secs; lra). assert (Hse : (secs e = r * secs I)%R) by (unfold secs; rewrite <- Hri; lra).
  assert (Hvi : (0 < val (Seconds I))%R).
  { apply (Rlt_le_trans _ (secs I * (1 - 3 * ulp))); [|done]. apply Rmult_lt_0_compat; lra. }
  set (v := (val (Seconds e) / val (Seconds I))%R).
  assert (Hv : (v <= r * (1 + 7 * ulp))%R).
  { apply (Rmult_le_reg_r (val (Seconds I))); [done|]. unfold v, Rdiv. rewrite Rmult_assoc, Rinv_l, Rmult_1_r by lra.
    apply (Rle_trans _ (secs e * (1 + 3 * ulp))); [done|]. rewrite Hse.
    apply (Rle_trans _ (r * (1 + 7 * ulp) * (secs I * (1 - 3 * ulp)))).
    - replace (r * secs I * (1 + 3 * ulp))%R with (r * secs I * (1 + 3 * ulp))%R by ring.
      replace (r * (1 + 7 * ulp) * (secs I * (1 - 3 * ulp)))%R with (r * secs I * ((1 + 7 * ulp) * (1 - 3 * ulp)))%R by ring.
      apply Rmult_le_compat_l; [apply Rmult_le_pos; lra|].
      assert (ulp * ulp <= ulp * / 1000)%R by (apply Rmult_le_compat_l; lra). lra.
    - apply Rmult_le_compat_l; [apply Rmult_le_pos; lra|done]. }
  assert (Hru : (0 <= r * ulp <= r * / 1000)%R) by (split; [apply Rmult_le_pos|apply Rmult_le_compat_l]; lra).
  assert (Hh : (v <= huge)%R).
  { assert (r * (1 + 7 * ulp) <= 2 * 1 * bp 63)%R by lra. change (2 * 1)%R with (bp 1) in H. rewrite <- bp_add in H.
    pose proof (bp_le (1 + 63) 900 ltac:(lia)). unfold huge. lra. }
  pose proof (div_near _ _ Hne Hni Hvi Hh) as Hd. fold v in Hd. split; [by eapply near_num|]. split; [|done].
  pose proof (near_le _ _ Hd) as Hl.
  assert (Htr : (tiny <= r * ulp * / 2)%R).
  { assert (/ bp 63 <= r)%R. { unfold r, Rdiv. rewrite <- (Rmult_1_l (/ bp 63)). apply Rmult_le_compat; try lra.
      - apply Rlt_le, Rinv_0_lt_compat, bp_pos.
      - apply Rinv_le_contravar; lra. }
    assert (Hb : (/ bp 63 = / 9223372036854775808)%R) by (rewrite <- bp_IZR by lia; done). rewrite Hb in H.
    apply (Rle_trans _ (/ 9223372036854775808 * ulp * / 2)); [lra|]. apply Rmult_le_compat_r; [lra|]. apply Rmult_le_compat_r; lra. }
  assert (Hvu : (v * ulp <= r * ulp * (1 + 7 * ulp))%R).
  { replace (r * ulp * (1 + 7 * ulp))%R with (r * (1 + 7 * ulp) * ulp)%R by ring. apply Rmult_le_compat_r; lra. }
  assert (Hruu : (r * ulp * ulp <= r * ulp * / 1000)%R) by (apply Rmult_le_compat_l; lra). lra.
Qed.

Record wf (l : ProbeLimiter) : Prop := {
  wf_burst : burst l = M;
  wf_interval : interval l = I;
  wf_num : num (tokens l);
  wf_le : (val (tokens l) <= IZR M)%R;
}.

Lemma refilled_bound now l :
  wf l -> last l <= now ->
  let '(t, at_) := refilled now l in
  num t /\ (val t <= IZR M)%R /\ last l <= at_ <= now /\
  (val t <= val (tokens l) + IZR (at_ - last l) / IZR I + 13 * (IZR M * ulp))%R.
Proof.
  intros [Hb Hi Hn Hle] Hnow. unfold refilled. rewrite Hb, Hi.
  destruct (FairShare.constants M HM) as (Hu1 & Hu2 & Ht1 & Htiny & Htm). pose proof (FairShare.HM' M HM) as HMr.
  assert (HMu : (0 < IZR M * ulp)%R) by (apply Rmult_lt_0_compat; lra).
  assert (HMs : (IZR M * ulp <= IZR M * / 1000)%R) by (apply Rmult_le_compat_l; lra).
  assert (HIp : (0 < IZR I)%R) by (apply IZR_lt; lia).
  destruct (Z.ltb_spec 0 (time_sub now (last l))) as [Hpos|Hz].
  - set (e := time_sub now (last l)) in *.
    assert (He : 0 < e <= max_int64 /\ e <= now - last l) by (unfold e, time_sub, min_int64, max_int64 in *; lia).
    destruct He as [He Hel]. destruct (ratio_spec e He) as (Ha & Hav & Hr). set (a := div (Seconds e) (Seconds I)) in *.
    set (r := (IZR e / IZR I)%R) in *. assert (Hru : (r * ulp <= r * / 1000)%R) by (apply Rmult_le_compat_l; lra).
    assert (Ha118 : (val a <= bp 118)%R).
    { assert (val a <= 2 * 1 * bp 63)%R by lra. change (2 * 1)%R with (bp 1) in H. rewrite <- bp_add in H.
      pose proof (bp_le (1 + 63) 118 ltac:(lia)). lra. }
    pose proof (FairShare.sum_near M HM _ _ Hn Ha Hle Ha118) as Hs. destruct (FairShare.clamp_spec M HM _ (near_num _ _ Hs)) as (Hc1 & Hc2 & Hc3 & _).
    split; [done|]. split; [done|]. split; [lia|]. pose proof (val_nonneg (tokens l)).
    assert (Hrn : (r <= IZR (now - last l) / IZR I)%R).
    { unfold r, Rdiv. apply Rmult_le_compat_r; [apply Rlt_le, Rinv_0_lt_compat; lra|]. apply IZR_le. lia. }
    destruct (Rle_lt_dec (IZR M) r) as [Hbig|Hsm]; [lra|].
    pose proof (near_le _ _ Hs) as Hl. assert (HrM : (r * ulp <= IZR M * ulp)%R) by (apply Rmult_le_compat_r; lra).
    assert (Hsu : ((val (tokens l) + val a) * ulp <= 3 * IZR M * ulp)%R) by (apply Rmult_le_compat_r; lra). lra.
  - assert (now = last l) as -> by (unfold time_sub, min_int64, max_int64 in *; lia). rewrite Z.sub_diag. unfold Rdiv. rewrite Rmult_0_l.
    split; [done|]. split; [done|]. split; [lia|lra].
Qed.

Lemma allow_bound now l :
  wf l -> last l <= now ->
  let '(ok, l') := allow now l in
  wf l' /\ last l <= last l' <= now /\
  ((if ok then 1 else 0) + val (tokens l') <= val (tokens l) + IZR (last l' - last l) / IZR I + 15 * (IZR M * ulp))%R.
Proof.
  intros Hwf Hnow. pose proof (refilled_bound now l Hwf Hnow) as Hr. unfold allow. destruct (refilled now l) as [t at_].
  destruct Hr as (Hn & Hle & Hat & Hv). destruct (FairShare.constants M HM) as (Hu1 & Hu2 & Ht1 & Htiny & Htm).
  pose proof (FairShare.HM' M HM) as HMr. destruct FairShare.one_float as [H1a H1b].
  assert (HMu : (0 < IZR M * ulp <= / 2)%R).
  { split; [apply Rmult_lt_0_compat; lra|]. assert (Hx : (IZR M * ulp <= bp 50 * ulp)%R) by (apply Rmult_le_compat_r; lra).
    unfold ulp in *. rewrite <- bp_add in Hx. pose proof (bp_le (50 + -52) (-1) ltac:(lia)) as Hb.
    change (bp (-1)) with (/ (2 * 1))%R in Hb. lra. }
  destruct (ltb t one) eqn:E; cbn [negb].
  - split; [by destruct Hwf; split|]. split; [done|]. cbn [tokens last]. lra.
  - apply (ltb_false _ _ Hn H1a) in E. rewrite H1b in E. assert (Hh : (bp 50 <= huge)%R) by (apply bp_le; lia).
    pose proof (sub_near t one Hn H1a) as Hs. rewrite H1b in Hs. specialize (Hs ltac:(lra)). pose proof (near_le _ _ Hs) as Hsl.
    assert (Hd : ((val t - 1) * ulp <= IZR M * ulp)%R) by (apply Rmult_le_compat_r; lra).
    split; [|split; [done|cbn [tokens last]; lra]].
    split; cbn [burst interval tokens]; [apply Hwf|apply Hwf|by eapply near_num|lra].
Qed.

(** Calls at the given times: the limiter after them and how many were
    allowed. *)
Fixpoint calls (ts : list Time) (l : ProbeLimiter) (n : Z) : ProbeLimiter * Z :=
  match ts with
  | [] => (l, n)
  | t :: ts => let '(ok, l) := allow t l in calls ts l (if ok then n + 1 else n)
  end.

Fixpoint ascending (t : Time) (ts : list Time) : Prop :=
  match ts with [] => True | t' :: ts => t <= t' /\ ascending t' ts end.

Lemma calls_bound ts : forall t l n l' n',
  wf l -> last l <= t -> ascending t ts -> calls ts l n = (l', n') ->
  wf l' /\ last l <= last l' <= List.last ts t /\
  (IZR n' + val (tokens l') <= IZR n + val (tokens l) + IZR (last l' - last l) / IZR I +
     IZR (Z.of_nat (length ts)) * (15 * (IZR M * ulp)))%R.
Proof.
  induction ts as [|t1 ts IH]; intros t l n l' n' Hwf Hl Ha H; cbn [calls] in H.
  - injection H as <- <-. rewrite Z.sub_diag. simpl length. unfold Rdiv. rewrite !Rmult_0_l. split; [done|]. split; [simpl; lia|lra].
  - destruct Ha as [Ht Ha]. pose proof (allow_bound t1 l Hwf ltac:(lia)) as Hb. destruct (allow t1 l) as [ok l1].
    destruct Hb as (Hwf1 & Hl1 & Hv1). destruct (IH t1 l1 _ l' n' Hwf1 ltac:(lia) Ha H) as (Hwf' & Hl' & Hv').
    assert (Hlast : List.last (t1 :: ts) t = List.last ts t1) by (clear; revert t1; induction ts as [|x ts IH]; intros t1; [done|]; simpl in *; destruct ts; [done|apply IH]).
    split; [done|]. split; [rewrite Hlast; lia|].
    replace (last l' - last l) with ((last l1 - last l) + (last l' - last l1)) by lia. rewrite plus_IZR.
    cbn [length]. rewrite Nat2Z.inj_succ, <- Z.add_1_l, plus_IZR. unfold Rdiv in *. rewrite !Rmult_plus_distr_r, Rmult_1_l.
    destruct ok; [rewrite plus_IZR in Hv'|]; lra.
Qed.

End bound.

(** The probe load the endpoint can cause: whoever calls it and however often,
    the forced probes allowed are at most the burst plus one per interval, and
    a rounding error of less than [15 * burst * 2^-52] per call.  A non-positive
    interval or burst gives the default, never an unbounded limiter. *)
Theorem forced_probes_bounded i b t0 ts l n (l0 := NewProbeLimiter i b t0) :
  i <= max_int64 -> b < 2 ^ 50 -> ascending t0 ts -> calls ts l0 0 = (l, n) ->
  0 < interval l0 /\ 1 <= burst l0 /\
  (IZR n <= IZR (burst l0) + IZR (List.last ts t0 - t0) / IZR (interval l0) +
     IZR (Z.of_nat (length ts)) * (15 * (IZR (burst l0) * ulp)))%R.
Proof.
  intros Hi Hb Ha Hc. assert (HI : 0 < interval l0 <= max_int64).
  { unfold l0, NewProbeLimiter. cbn [interval]. unfold DefaultLiveProbeInterval, Second, max_int64 in *. destruct (Z.leb_spec i 0); lia. }
  assert (HM : 1 <= burst l0 < 2 ^ 50).
  { unfold l0, NewProbeLimiter. cbn [burst]. unfold DefaultLiveProbeBurst. destruct (Z.leb_spec b 0); lia. }
  split; [lia|]. split; [lia|].
  destruct (of_int_exact (burst l0) ltac:(lia)) as [Hn Hv].
  assert (Ht : tokens l0 = of_int (burst l0)) by done. assert (Hl : last l0 = t0) by done. clearbody l0.
  destruct (calls_bound (burst l0) (interval l0) HM HI ts t0 l0 0 l n) as (_ & Hlast & Hbound); [|lia|done|done|].
  - split; [done|done|by rewrite Ht|rewrite Ht, Hv; lra].
  - rewrite Ht, Hv, Hl in Hbound. pose proof (val_nonneg (tokens l)).
    assert (Hiv : (0 < / IZR (interval l0))%R) by (apply Rinv_0_lt_compat, IZR_lt; lia).
    assert (Hmono : (IZR (last l - t0) / IZR (interval l0) <= IZR (List.last ts t0 - t0) / IZR (interval l0))%R).
    { unfold Rdiv. apply Rmult_le_compat_r; [lra|]. apply IZR_le. lia. }
    lra.
Qed.

(** ** Examples and witnesses *)

Definition ex_calls : list Time := [1; 2; 3; 4; 5 * Second; 10 * Second; 11 * Second].

Lemma forced_probes_bounded_witness :
  exists l n, calls ex_calls (NewProbeLimiter 0 0 0) 0 = (l, n) /\ n = 4 /\
    (IZR n <= 3 + IZR (11 * Second) / IZR (10 * Second) + 7 * (15 * (3 * ulp)))%R.
Proof.
  destruct (calls ex_calls (NewProbeLimiter 0 0 0) 0) as [l n] eqn:E.
  assert (Hn : n = 4) by (vm_compute in E; injection E as _ <-; reflexivity). subst n. exists l, 4. split; [reflexivity|].
  split; [reflexivity|].
  destruct (forced_probes_bounded 0 0 0 ex_calls l 4 ltac:(unfold max_int64; lia) ltac:(lia)
    ltac:(simpl; unfold Second; lia) E) as (_ & _ & H). exact H.
Defined.

(** A limiter that was never built denies. *)
Example nil_limiter_denies : Allow 0 None = (false, None).
Proof. reflexivity. Qed.

End LiveProbe.
