(* ===== verification/Failover.v ===== *)
(** * The failover loop of the proxy handler

    Models, of [src/main.go], [setUpstreamAuth], [isFailoverStatus],
    [doUpstream], and the part of [handleProxy] from the first attempt to the
    choice of the response it relays; of [src/internal/proxy/helpers.go]
    [CopyHeaders]; of [src/internal/health/probe.go] [IsRetryableConnError].

    The outside world is the record [Env]: what [client.Do] answers to each
    request, what other goroutines do to the shared nodes while this one waits,
    and the regexp engine.  The body each
    candidate is sent is [RequestBody.forwardBody].  Responses are objects: a
    response is named by the attempt that produced it, and the loop keeps the
    sets of the bodies it closed and of the contexts it cancelled, so that
    relaying a closed body is visible. *)

From Stdlib Require Import ZArith Lia Ascii String.
From stdpp Require Import base option list gmap strings.
From S2P Require Import Prelude GoStrings Headers Circuit KeyPool RouterConfig RequestBody Selection.

Module Failover.
Import GoStrings Headers RouterConfig RequestBody Selection.
#[local] Existing Instance selection_eq_dec.

(** ** Headers *)

Definition CopyHeaders (dst : Header) (src : list (string * list string)) : Header :=
  foldl (fun h kv => foldl (fun h v => Add h kv.1 v) h kv.2) dst src.

Definition setUpstreamAuth (h : Header) (authHeader key : string) : Header :=
  if authHeader =s "" then
    if negb (key =s "") then Set_ h "Authorization" ("Bearer " ++ key) else h
  else
    let h := Del h "Authorization" in
    let h := Del h authHeader in
    if negb (key =s "") then Set_ h authHeader key else h.

(** ** One upstream *)

Definition maxFailoverAttempts : nat := 5.

Definition isFailoverStatus (code : Z) : bool := (code =? 429) || (500 <=? code).

Definition IsRetryableConnError (msg : string) : bool :=
  Contains msg "server closed idle connection" ||
  Contains msg "connection reset by peer" ||
  Contains msg "broken pipe".

(** The caller's request, its headers in range order. *)
Record Request := {
  Method : string;
  Path : string;
  RawQuery : string;
  RHeader : list (string * list string);
  Body : string;
}.

(** A request on the wire: [OVia] is the SSH leg of a tunnelled node. *)
Record OutRequest := {
  OMethod : string;
  OURL : url;
  OHeader : Header;
  OBody : string;
  OVia : option SSHTunnelRuntime;
}.

Inductive DoResult := DoErr (msg : string) | DoResp (status : Z) (body : string).

(** The shared nodes and the round-robin cursor. *)
Definition store : Type := list upstreamNode * Z.

(** The clock readings of one attempt. *)
Record clocks := {
  ckKey : nat -> Time;        (* KeyPool.Next of the first and the second build *)
  ckExhaust : Time;           (* MarkExhausted *)
  ckCooling : Time;           (* AllCooling *)
  ckFail : Time;              (* RecordFailure *)
  ckSame : nat -> Time;       (* selection that may return the same node *)
  ckNext : nat -> Time;       (* selection of the next node *)
}.

Record Env := {
  newRequest : string -> url -> option string;           (* NewRequestWithContext's error *)
  Do : nat -> nat -> OutRequest -> DoResult;              (* attempt, 0 or the retry 1 *)
  interfere : nat -> nat -> store -> store;               (* the other goroutines meanwhile *)
  queued : store -> store;                                (* the same, before the loop starts *)
  clk : nat -> clocks;
  quotaMatch : string -> string -> bool;                  (* pattern, peeked body *)
}.

Definition upstreamURL (n : upstreamNode) (r : Request) : url :=
  {| UScheme := UScheme (baseURL n); UHost := UHost (baseURL n);
     UPath := trim_right_char "/"%char (UPath (baseURL n)) ++ Path r;
     URawQuery := RawQuery r |}.

Definition update_node (st : store) (i : nat) (n : upstreamNode) : store := (<[i := n]> st.1, st.2).

(** The closure [build]: the error of [NewRequestWithContext] comes before a key
    is taken. *)
Definition build (e : Env) (k t i : nat) (r : Request) (body : string) (n : upstreamNode)
    (usedKeyIdx : Z) (st : store) : (string + OutRequest) * Z * store :=
  match newRequest e (Method r) (upstreamURL n r) with
  | Some err => (inl err, usedKeyIdx, st)
  | None =>
      let h := CopyHeaders ∅ (RHeader r) in
      let '(key, kidx, n') := nextAPIKeyIdx (ckKey (clk e k) t) n in
      let usedKeyIdx := if negb (key =s "") then kidx else usedKeyIdx in
      (inr {| OMethod := Method r; OURL := upstreamURL n r;
              OHeader := setUpstreamAuth h (AuthHeader (cfg n)) key; OBody := body;
              OVia := tunnelClient n |},
       usedKeyIdx, update_node st i n')
  end.

(** A request that was sent: the attempt, the node, the request. *)
Record sent := { s_attempt : nat; s_node : nat; s_req : OutRequest }.

Definition send (e : Env) (k t i : nat) (q : OutRequest) (st : store) : DoResult * store * sent :=
  (Do e k t q, interfere e k t st, {| s_attempt := k; s_node := i; s_req := q |}).

(** [doUpstream] with its one transparent retry.  A node is a pointer: its state
    is read from the store again for the second build. *)
Definition doUpstream (e : Env) (k i : nat) (r : Request) (body : string) (n : upstreamNode) (st : store)
  : DoResult * Z * store * list sent :=
  let '(b, used, st) := build e k 0 i r body n (-1) st in
  match b with
  | inl err => (DoErr err, used, st, [])
  | inr q =>
      let '(res, st, s) := send e k 0 i q st in
      match res with
      | DoErr msg =>
          if IsRetryableConnError msg then
            let n := default n (st.1 !! i) in
            let '(b, used, st) := build e k 1 i r body n used st in
            match b with
            | inl _ => (res, used, st, [s])
            | inr q' =>
                let '(res', st, s') := send e k 1 i q' st in
                (res', used, st, [s; s'])
            end
          else (res, used, st, [s])
      | DoResp _ _ => (res, used, st, [s])
      end
  end.

(** ** The loop *)

Record response := { rid : nat; rstatus : Z; rbody : string }.

(** The locals of the loop; [l_sent], [l_path], [l_results] and [l_cooled] are
    the history the theorems speak of, no statement of the source. *)
Record loop := {
  l_store : store;
  l_tried : gset string;
  l_held : option (response * nat);      (* heldResp, heldNode; heldCancel is the attempt's *)
  l_lastErr : option string;
  l_closed : gset nat;                   (* attempts whose response body was closed *)
  l_cancelled : gset nat;                (* attempts whose context was cancelled *)
  l_sent : list sent;
  l_path : list nat;                     (* the node of each attempt *)
  l_results : list DoResult;             (* the outcome of each attempt *)
  l_cooled : gset nat;                   (* attempts that cooled a key of a node with others ready *)
}.

Inductive loopOut := Served (r : response) (node : nat) | Exhausted | Panicked.

(** The bounded peek and the two ways a response is a quota event. *)
Definition quotaHit (e : Env) (n : upstreamNode) (status : Z) (body : string) : bool :=
  (status =? 429) ||
  match quotaDet n with
  | Some pat => quotaMatch e pat (substring 0 (64 * 1024) body)
  | None => false
  end.

Definition record_failure (now : Time) (n : upstreamNode) : upstreamNode :=
  set_breaker n (Circuit.RecordFailure now <$> breaker n).

Definition record_success (n : upstreamNode) : upstreamNode :=
  set_breaker n (Circuit.RecordSuccess <$> breaker n).

(** The fast eject of a probed node. *)
Definition eject (n : upstreamNode) : upstreamNode :=
  if negb (HealthCheckDisabled (cfg n))
  then set_health n false (consecutivePass n) (consecutiveFail n) else n.

Definition select_next (e : Env) (ck : nat -> Time) (q : query) (tried : gset string) (st : store)
  : selection * store :=
  let '(s, ns, rr) :=
    selectNodeFromSnapExcluding ck
      {| model := model q; targetTier := targetTier q; excluded := tried; class := class q;
         personal := personal q |} st.1 st.2 in
  (s, (ns, rr)).

(** Close and cancel the held response, then hold [h]. *)
Definition hold (h : response * nat) (l : loop) : loop :=
  let old := match l_held l with Some (r, _) => {[ rid r ]} | None => ∅ end in
  {| l_store := l_store l; l_tried := l_tried l; l_held := Some h; l_lastErr := None;
     l_closed := l_closed l ∪ old; l_cancelled := l_cancelled l ∪ old;
     l_sent := l_sent l; l_path := l_path l;
     l_results := l_results l; l_cooled := l_cooled l |}.

Definition with_store (l : loop) (st : store) : loop :=
  {| l_store := st; l_tried := l_tried l; l_held := l_held l; l_lastErr := l_lastErr l;
     l_closed := l_closed l; l_cancelled := l_cancelled l; l_sent := l_sent l; l_path := l_path l;
     l_results := l_results l; l_cooled := l_cooled l |}.

Definition mark_cooled (l : loop) (k : nat) : loop :=
  {| l_store := l_store l; l_tried := l_tried l; l_held := l_held l; l_lastErr := l_lastErr l;
     l_closed := l_closed l; l_cancelled := l_cancelled l; l_sent := l_sent l; l_path := l_path l;
     l_results := l_results l; l_cooled := {[ k ]} ∪ l_cooled l |}.

Definition at_node (l : loop) (i : nat) (f : upstreamNode -> upstreamNode) : loop :=
  with_store l (alter f i (l_store l).1, (l_store l).2).

(** The head of an iteration: mark the candidate tried and call it. *)
Definition attempt (e : Env) (k i : nat) (r : Request) (fwdBody : string) (n : upstreamNode) (l : loop)
  : DoResult * Z * loop :=
  let '(res, used, st, ss) := doUpstream e k i r fwdBody n (l_store l) in
  (res, used,
   {| l_store := st; l_tried := {[ Name (cfg n) ]} ∪ l_tried l; l_held := l_held l;
      l_lastErr := l_lastErr l; l_closed := l_closed l; l_cancelled := l_cancelled l;
      l_sent := l_sent l ++ ss; l_path := l_path l ++ [i];
      l_results := l_results l ++ [res]; l_cooled := l_cooled l |}).

(** The transport-error branch, up to the choice of the next candidate. *)
Definition on_error (e : Env) (k i : nat) (msg : string) (l : loop) : loop :=
  let l := at_node l i eject in
  let l := at_node l i (record_failure (ckFail (clk e k))) in
  {| l_store := l_store l; l_tried := l_tried l; l_held := l_held l; l_lastErr := Some msg;
     l_closed := l_closed l; l_cancelled := {[ k ]} ∪ l_cancelled l;
     l_sent := l_sent l; l_path := l_path l;
     l_results := l_results l; l_cooled := l_cooled l |}.

(** The key that served the attempt is cooled; [true] when another key of the
    node is still ready. *)
Definition cool_key (e : Env) (k i : nat) (used : Z) (n : upstreamNode) (l : loop) : bool * loop :=
  match keys n with
  | Some _ =>
      let l := at_node l i (fun n => set_keys n (KeyPool.MarkExhausted (ckExhaust (clk e k)) used <$> keys n)) in
      let n' := default n ((l_store l).1 !! i) in
      (negb (match keys n' with Some p => KeyPool.AllCooling (ckCooling (clk e k)) p | None => false end), l)
  | None => (false, l)
  end.

(** What an iteration decides. *)
Inductive verdict := Continue (i : nat) | Stop | Serve (r : response) (i : nat) | Die.

Definition continue_with (s : selection) : verdict :=
  match s with Panic => Die | NoNode => Stop | Chosen j => Continue j end.

(** The tail both failure branches share: score, hold, pick the next node. *)
Definition fail_over (e : Env) (k i : nat) (q : query) (resp : response) (l : loop) : verdict * loop :=
  let l := at_node l i (record_failure (ckFail (clk e k))) in
  let l := hold (resp, i) l in
  let '(s, st) := select_next e (ckNext (clk e k)) q (l_tried l) (l_store l) in
  (continue_with s, with_store l st).

(** The failover-status branch. *)
Definition on_failover (e : Env) (k i : nat) (q : query) (n : upstreamNode) (used : Z) (resp : response) (l : loop)
  : verdict * loop :=
  if quotaHit e n (rstatus resp) (rbody resp) && (0 <=? used) then
    let '(others, l) := cool_key e k i used n l in
    if others then
      let l := hold (resp, i) (mark_cooled l k) in
      let '(s, st) :=
        select_next e (ckSame (clk e k)) q (l_tried l ∖ {[ Name (cfg n) ]}) (l_store l) in
      let l := with_store l st in
      match s with
      | Panic => (Die, l)
      | Chosen j =>
          if bool_decide ((Name ∘ cfg <$> st.1 !! j) = Some (Name (cfg n))) then (Continue j, l)
          else fail_over e k i q resp l
      | NoNode => fail_over e k i q resp l
      end
    else fail_over e k i q resp l
  else fail_over e k i q resp l.

(** One iteration of the loop.  The body of the candidate comes first; building
    it can panic. *)
Definition iteration (e : Env) (k i : nat) (q : query) (r : Request) (n : upstreamNode) (l : loop)
  : verdict * loop :=
  match forwardBody (cfg n) (Body r) with
  | None => (Die, l)
  | Some fwdBody =>
      let '(res, used, l) := attempt e k i r fwdBody n l in
      match res with
      | DoErr msg =>
          let l := on_error e k i msg l in
          let '(s, st) := select_next e (ckNext (clk e k)) q (l_tried l) (l_store l) in
          (continue_with s, with_store l st)
      | DoResp status body =>
          let resp := {| rid := k; rstatus := status; rbody := body |} in
          if isFailoverStatus status then
            on_failover e k i q (default n ((l_store l).1 !! i)) used resp l
          else (Serve resp i, at_node l i record_success)
      end
  end.

(** The loop from attempt [k] with [fuel] attempts left. *)
Fixpoint failover (e : Env) (fuel k i : nat) (q : query) (r : Request) (l : loop) : loopOut * loop :=
  match fuel with
  | O => (Exhausted, l)
  | S fuel' =>
      match (l_store l).1 !! i with
      | None => (Panicked, l)
      | Some n =>
          let '(v, l) := iteration e k i q r n l in
          match v with
          | Continue j => failover e fuel' (S k) j q r l
          | Stop => (Exhausted, l)
          | Serve resp j => (Served resp j, l)
          | Die => (Panicked, l)
          end
      end
  end.

Definition initial (st : store) : loop :=
  {| l_store := st; l_tried := ∅; l_held := None; l_lastErr := None; l_closed := ∅;
     l_cancelled := ∅; l_sent := []; l_path := []; l_results := []; l_cooled := ∅ |}.

(** ** The response that is relayed *)

(** The three 503s of a request no node can serve. *)
Inductive refusal := pii_no_local_node | customer_no_node | unavailable.

Inductive answer :=
| Refused (why : refusal)
| Relay (r : response) (node : nat)
| BadGateway (err : option string)
| Crash.

Definition close_held (l : loop) : loop :=
  let old := match l_held l with Some (r, _) => {[ rid r ]} | None => ∅ end in
  {| l_store := l_store l; l_tried := l_tried l; l_held := l_held l; l_lastErr := l_lastErr l;
     l_closed := l_closed l ∪ old; l_cancelled := l_cancelled l ∪ old;
     l_sent := l_sent l; l_path := l_path l;
     l_results := l_results l; l_cooled := l_cooled l |}.

(** The loop from the node the first selection chose, and the [switch] after
    it.  The final loop state is the one at the moment the relay starts. *)
Definition run_failover (e : Env) (i : nat) (q : query) (r : Request) (st : store) : answer * loop :=
  let '(out, l) := failover e maxFailoverAttempts 0 i q r (initial st) in
  match out with
  | Panicked => (Crash, l)
  | Served resp node => (Relay resp node, close_held l)
  | Exhausted =>
      match l_held l with
      | Some (resp, node) => (Relay resp node, l)
      | None => (BadGateway (l_lastErr l), l)
      end
  end.

(** From the first selection to the relay.  Between the two the request waits
    for the semaphore, so the store may change. *)
Definition dispatch (e : Env) (ck : nat -> Time) (q : query) (r : Request) (st : store) : answer * loop :=
  let '(s, ns, rr) :=
    selectNodeFromSnap ck (model q) (targetTier q) "" (class q) (personal q) st.1 st.2 in
  let st' := (ns, rr) in
  match s with
  | Panic => (Crash, initial st')
  | NoNode =>
      (Refused (if personal q then pii_no_local_node
                else if decide (class q = ClassCustomer) then customer_no_node
                else unavailable), initial st')
  | Chosen i => run_failover e i q r (queued e st')
  end.

(** Whether the relayed body can still be read. *)
Definition readable (resp : response) (l : loop) : bool :=
  negb (bool_decide (rid resp ∈ l_closed l)) && negb (bool_decide (rid resp ∈ l_cancelled l)).

End Failover.
