(* ===== verification/FailoverSpec.v ===== *)
(** * What the failover loop guarantees

    Theorems about [Failover.run_failover]: how often it calls upstreams, which
    nodes a request can reach, which response it relays, and which credential
    leaves the router.  They hold for every environment whose other goroutines
    leave the nodes' configuration alone ([stable]). *)

From Stdlib Require Import ZArith Lia.
From stdpp Require Import base option list gmap strings.
From S2P Require Import Prelude GoStrings Headers Circuit KeyPool RouterConfig RequestBody Selection Failover.

Module FailoverSpec.
Import GoStrings Headers RouterConfig RequestBody Selection Failover.

(** ** Configuration is immutable *)

Lemma nextAPIKeyIdx_cfg now n : cfg (nextAPIKeyIdx now n).2 = cfg n.
Proof. unfold nextAPIKeyIdx, fallbackKey. repeat case_match; done. Qed.

Lemma insert_cfgs ns i n n' :
  ns !! i = Some n -> cfg n' = cfg n -> cfgs (<[i := n']> ns) = cfgs ns.
Proof.
  intros Hi Hc. unfold cfgs. rewrite list_fmap_insert, Hc. apply list_insert_id.
  by rewrite list_lookup_fmap, Hi.
Qed.

Lemma alter_cfgs ns i f : (forall n, cfg (f n) = cfg n) -> cfgs (alter f i ns) = cfgs ns.
Proof.
  intros Hf. unfold cfgs. revert i. induction ns as [|n ns IH]; intros [|i]; simpl; try done.
  - by rewrite Hf.
  - f_equal. apply IH.
Qed.

(** The pool of a node rotates the keys of its configuration. *)
Definition keyed (ns : list upstreamNode) : Prop :=
  Forall (fun n => forall p, keys n = Some p -> KeyPool.keys p = APIKeys (cfg n)) ns.

(** Nothing changes a node's configuration or swaps its pool. *)
Record kept (ns ns' : list upstreamNode) : Prop := {
  kept_cfgs : cfgs ns' = cfgs ns;
  kept_keyed : keyed ns -> keyed ns';
}.

#[local] Instance kept_preorder : PreOrder kept.
Proof. split; [by split|]. intros a b c [H1 H2] [H3 H4]. split; [congruence|auto]. Qed.

(** Nor do the other goroutines. *)
Definition stable (e : Env) : Prop := forall k t st, kept st.1 (interfere e k t st).1.

(** A key of the node's own configuration. *)
Definition own_key (c : NodeConfig) (key : string) : Prop := key = "" \/ key ∈ APIKey c :: APIKeys c.

(** A sent request carries the credential and the body of its node's
    configuration. *)
Definition sent_ok (k i : nat) (r : Request) (body : string) (c : NodeConfig) (s : sent) : Prop :=
  s_attempt s = k /\ s_node s = i /\ OBody (s_req s) = body /\
  exists key, own_key c key /\
    OHeader (s_req s) = setUpstreamAuth (CopyHeaders ∅ (RHeader r)) (AuthHeader c) key.

Lemma Next_key now p : (KeyPool.Next now p).1.1 = "" \/ (KeyPool.Next now p).1.1 ∈ KeyPool.keys p.
Proof.
  unfold KeyPool.Next. destruct (KeyPool.size p =? 0); simpl; [by left|].
  match goal with |- context [KeyPool.key_at ?p' ?i] => set (j := i) end.
  unfold KeyPool.key_at. simpl. destruct (KeyPool.keys p !! j) eqn:E; simpl; [right|by left].
  by eapply list_elem_of_lookup_2.
Qed.

Lemma Next_keys now p : KeyPool.keys (KeyPool.Next now p).2 = KeyPool.keys p.
Proof. unfold KeyPool.Next. by case_match. Qed.

Lemma nextAPIKeyIdx_keyed now n :
  (forall p, keys n = Some p -> KeyPool.keys p = APIKeys (cfg n)) ->
  own_key (cfg n) (nextAPIKeyIdx now n).1.1 /\
  forall p, keys (nextAPIKeyIdx now n).2 = Some p -> KeyPool.keys p = APIKeys (cfg n).
Proof.
  intros Hk. assert (Hf : own_key (cfg n) (fallbackKey n).1.1 /\
    forall p, keys (fallbackKey n).2 = Some p -> KeyPool.keys p = APIKeys (cfg n)).
  { unfold fallbackKey, own_key. destruct (Nat.ltb 0 _); simpl; [|split; [right; set_solver|done]].
    split; [|done]. destruct (APIKeys (cfg n) !! _) eqn:E; simpl; [|by left].
    right. apply elem_of_cons. right. by eapply list_elem_of_lookup_2. }
  unfold nextAPIKeyIdx. destruct (keys n) as [p|] eqn:E; [|done].
  destruct (0 <? KeyPool.size p); [|done]. specialize (Hk p eq_refl).
  pose proof (Next_key now p) as H1. pose proof (Next_keys now p) as H2.
  destruct (KeyPool.Next now p) as [[key kidx] p']. simpl in *. split.
  - unfold own_key. rewrite <- Hk. set_solver.
  - intros p0 [= <-]. by rewrite H2.
Qed.

Lemma insert_keyed ns i n :
  keyed ns -> (forall p, keys n = Some p -> KeyPool.keys p = APIKeys (cfg n)) -> keyed (<[i := n]> ns).
Proof. intros H Hn. by apply Forall_insert. Qed.

Lemma alter_keyed ns i f :
  (forall n p, keys (f n) = Some p -> cfg (f n) = cfg n /\
     exists p0, keys n = Some p0 /\ KeyPool.keys p = KeyPool.keys p0) ->
  keyed ns -> keyed (alter f i ns).
Proof.
  intros Hf H. apply Forall_alter; [done|]. intros n Hi Hn p Hp.
  destruct (Hf n p Hp) as (-> & p0 & Hp0 & ->). by apply Hn.
Qed.

Lemma select_keyed (sel : (nat -> Time) -> query -> list upstreamNode -> Z -> selection * list upstreamNode * Z)
    `{Selector sel} ck q ns rr s ns' rr' :
  sel ck q ns rr = (s, ns', rr') -> keyed ns -> keyed ns'.
Proof.
  intros E%selector_breaker_only Hk. induction E as [|n n' ns1 ns2 Hn _ IH]; [constructor|].
  apply Forall_cons in Hk as [Hk1 Hk2]. constructor; [|by apply IH]. rewrite Hn. exact Hk1.
Qed.

Section spec.
Context (e : Env) (Hstable : stable e) (q : query) (r : Request).

Lemma build_spec k t i body n used st b used' st' :
  st.1 !! i = Some n -> keyed st.1 -> build e k t i r body n used st = (b, used', st') ->
  cfgs st'.1 = cfgs st.1 /\ keyed st'.1 /\
  (forall o, b = inr o -> sent_ok k i r body (cfg n) {| s_attempt := k; s_node := i; s_req := o |}).
Proof.
  intros Hi Hk. unfold build. destruct (newRequest _ _ _); [by intros [= <- <- <-]|].
  assert (Hn : forall p, keys n = Some p -> KeyPool.keys p = APIKeys (cfg n)).
  { unfold keyed in Hk. rewrite Forall_lookup in Hk. by apply Hk with i. }
  pose proof (nextAPIKeyIdx_keyed (ckKey (clk e k) t) n Hn) as [Ho Hn'].
  pose proof (nextAPIKeyIdx_cfg (ckKey (clk e k) t) n) as Hc.
  destruct (nextAPIKeyIdx _ n) as [[key kidx] n']. simpl in *. intros [= <- <- <-]. split; [|split].
  - by apply (insert_cfgs _ _ n).
  - apply insert_keyed; [done|]. by rewrite Hc.
  - intros o [= <-]. split; [done|]. split; [done|]. split; [done|]. by exists key.
Qed.

Lemma cfgs_lookup ns i c : cfgs ns !! i = Some c -> exists n, ns !! i = Some n /\ cfg n = c.
Proof. unfold cfgs. rewrite list_lookup_fmap. destruct (ns !! i); simpl; naive_solver. Qed.

Lemma doUpstream_spec k i body n st res used st' ss :
  st.1 !! i = Some n -> keyed st.1 -> doUpstream e k i r body n st = (res, used, st', ss) ->
  cfgs st'.1 = cfgs st.1 /\ keyed st'.1 /\ (length ss <= 2)%nat /\ Forall (sent_ok k i r body (cfg n)) ss.
Proof.
  intros Hi Hk. unfold doUpstream. destruct (build e k 0 i r body n (-1) st) as [[b u] st1] eqn:E1.
  destruct (build_spec _ _ _ _ _ _ _ _ _ _ Hi Hk E1) as (Hc1 & Hk1 & Hs1).
  destruct b as [err|o]; [intros [= <- <- <- <-]; simpl; auto with lia|].
  specialize (Hs1 o eq_refl). unfold send.
  destruct (Hstable k 0%nat st1) as [Hi1 Hi2]. specialize (Hi2 Hk1).
  assert (Hc2 : cfgs (interfere e k 0 st1).1 = cfgs st.1) by (by rewrite Hi1, Hc1).
  assert (Hone : Forall (sent_ok k i r body (cfg n)) [{| s_attempt := k; s_node := i; s_req := o |}])
    by (constructor; [exact Hs1|constructor]).
  destruct (Do e k 0 o) as [msg|status rb] eqn:Ed; [|intros [= <- <- <- <-]; simpl; auto with lia].
  destruct (IsRetryableConnError msg); [|intros [= <- <- <- <-]; simpl; auto with lia].
  destruct (cfgs_lookup (interfere e k 0 st1).1 i (cfg n)) as (n2 & Hn2 & Hc).
  { rewrite Hc2. unfold cfgs. by rewrite list_lookup_fmap, Hi. }
  rewrite Hn2. simpl.
  destruct (build e k 1 i r body n2 u (interfere e k 0 st1)) as [[b2 u2] st2] eqn:E2.
  destruct (build_spec _ _ _ _ _ _ _ _ _ _ Hn2 Hi2 E2) as (Hc3 & Hk3 & Hs2). rewrite Hc in Hs2.
  destruct b2 as [err|o2]; intros [= <- <- <- <-].
  - rewrite Hc3. simpl; auto with lia.
  - destruct (Hstable k 1%nat st2) as [-> Hi3]. rewrite Hc3. simpl. split; [done|]. split; [auto|]. split; [lia|].
    constructor; [exact Hs1|]. constructor; [by apply Hs2|constructor].
Qed.

(** ** The shape of one iteration *)

(** What the verdict of a failed attempt promises about the next candidate. *)
Definition next_ok (cs : list NodeConfig) (tried : gset string) (v : verdict) : Prop :=
  match v with
  | Continue j => exists c, cs !! j = Some c /\ may_serve q c /\ Name c ∉ tried
  | Serve _ _ => False
  | Stop | Die => True
  end.

Definition held_id (l : loop) : gset nat :=
  match l_held l with Some (h, _) => {[ rid h ]} | None => ∅ end.

(** The outcomes of an attempt, and what each does to the held response and to
    the bodies. *)
Inductive shape (k i : nat) (cs : list NodeConfig) (name : string) (l l' : loop) : DoResult -> verdict -> Prop :=
| sh_err msg v :
    l_held l' = l_held l -> l_lastErr l' = Some msg -> l_closed l' = l_closed l ->
    l_cancelled l' = {[ k ]} ∪ l_cancelled l -> l_cooled l' = l_cooled l ->
    next_ok cs (l_tried l') v -> shape k i cs name l l' (DoErr msg) v
| sh_serve status body :
    isFailoverStatus status = false ->
    l_held l' = l_held l -> l_closed l' = l_closed l -> l_cancelled l' = l_cancelled l ->
    l_cooled l' = l_cooled l ->
    shape k i cs name l l' (DoResp status body) (Serve {| rid := k; rstatus := status; rbody := body |} i)
| sh_fail status body v :
    isFailoverStatus status = true ->
    l_held l' = Some ({| rid := k; rstatus := status; rbody := body |}, i) ->
    l_closed l' = l_closed l ∪ held_id l -> l_cancelled l' = l_cancelled l ∪ held_id l ->
    l_cooled l' = l_cooled l -> next_ok cs (l_tried l') v ->
    shape k i cs name l l' (DoResp status body) v
| sh_cool status body v :
    isFailoverStatus status = true ->
    l_held l' = Some ({| rid := k; rstatus := status; rbody := body |}, i) ->
    l_closed l' ⊆ l_closed l ∪ held_id l ∪ {[ k ]} ->
    l_cancelled l' ⊆ l_cancelled l ∪ held_id l ∪ {[ k ]} ->
    l_cooled l' = {[ k ]} ∪ l_cooled l ->
    (next_ok cs (l_tried l') v \/
     exists j c, v = Continue j /\ cs !! j = Some c /\ may_serve q c /\ Name c = name) ->
    shape k i cs name l l' (DoResp status body) v.

Lemma alter_kept ns i f :
  (forall n, cfg (f n) = cfg n) ->
  (forall n p, keys (f n) = Some p -> exists p0, keys n = Some p0 /\ KeyPool.keys p = KeyPool.keys p0) ->
  kept ns (alter f i ns).
Proof. intros H1 H2. split; [by apply alter_cfgs|]. apply alter_keyed. auto. Qed.

Lemma record_failure_kept now i ns : kept ns (alter (record_failure now) i ns).
Proof. apply alter_kept; [done|]. simpl. eauto. Qed.

Lemma eject_kept i ns : kept ns (alter eject i ns).
Proof.
  apply alter_kept; unfold eject; intros n; [by case_match|]. intros p. case_match; simpl; eauto.
Qed.

Lemma record_success_kept i ns : kept ns (alter record_success i ns).
Proof. apply alter_kept; [done|]. simpl. eauto. Qed.

Lemma exhaust_kept now used i ns :
  kept ns (alter (fun n => set_keys n (KeyPool.MarkExhausted now used <$> keys n)) i ns).
Proof.
  apply alter_kept; [done|]. simpl. intros n p. destruct (keys n) as [p0|]; [|done]. simpl.
  intros [= <-]. exists p0. split; [done|]. unfold KeyPool.MarkExhausted. by case_match.
Qed.

Lemma select_next_spec ck tried st s st' :
  select_next e ck q tried st = (s, st') ->
  kept st.1 st'.1 /\
  forall j, s = Chosen j -> exists c, cfgs st.1 !! j = Some c /\ may_serve q c /\ Name c ∉ tried.
Proof.
  unfold select_next. destruct (selectNodeFromSnapExcluding _ _ _ _) as [[s0 ns] rr] eqn:E.
  intros [= <- <-]. split; [split; [exact (selector_cfgs _ _ _ _ _ _ _ E)|exact (select_keyed _ _ _ _ _ _ _ _ E)]|].
  intros j ->. destruct (selector_sound _ _ _ _ _ _ _ E) as (c & Hc & [] & Hx). by exists c.
Qed.

Lemma continue_next cs tried s :
  (forall j, s = Chosen j -> exists c, cs !! j = Some c /\ may_serve q c /\ Name c ∉ tried) ->
  next_ok cs tried (continue_with s).
Proof. intros H. destruct s; simpl; auto. Qed.

(** [fail_over] never closes the response it holds unless it was held already. *)
Lemma fail_over_spec k i resp l v l' :
  fail_over e k i q resp l = (v, l') ->
  kept (l_store l).1 (l_store l').1 /\ l_tried l' = l_tried l /\
  l_held l' = Some (resp, i) /\ l_lastErr l' = None /\
  l_closed l' = l_closed l ∪ held_id l /\ l_cancelled l' = l_cancelled l ∪ held_id l /\
  l_cooled l' = l_cooled l /\ l_sent l' = l_sent l /\ l_path l' = l_path l /\
  l_results l' = l_results l /\ next_ok (cfgs (l_store l).1) (l_tried l) v.
Proof.
  unfold fail_over. destruct (select_next _ _ _ _ _) as [s st] eqn:E. intros [= <- <-].
  apply select_next_spec in E as [Hc Hn]. simpl in *.
  pose proof (record_failure_kept (ckFail (clk e k)) i (l_store l).1) as Ha.
  rewrite (kept_cfgs _ _ Ha) in Hn.
  split; [by etrans|]. repeat split; try done. by apply continue_next.
Qed.

(** Cooling a key touches the store only. *)
Lemma cool_key_spec k i used n l others l' :
  cool_key e k i used n l = (others, l') ->
  exists st, l' = with_store l st /\ kept (l_store l).1 st.1.
Proof.
  unfold cool_key. destruct (keys n).
  - intros [= _ <-]. unfold at_node. eexists. split; [done|]. apply exhaust_kept.
  - intros [= _ <-]. exists (l_store l). split; [by destruct l|done].
Qed.

(** The fields an iteration extends the same way on every branch. *)
Record extends (k i : nat) (n : upstreamNode) (res : DoResult) (l l' : loop) : Prop := {
  ex_kept : kept (l_store l).1 (l_store l').1;
  ex_path : l_path l' = l_path l ++ [i];
  ex_results : l_results l' = l_results l ++ [res];
  ex_tried : l_tried l' = {[ Name (cfg n) ]} ∪ l_tried l;
  ex_sent : exists ss body, l_sent l' = l_sent l ++ ss /\ (length ss <= 2)%nat /\
    forwardBody (cfg n) (Body r) = Some body /\ Forall (sent_ok k i r body (cfg n)) ss;
}.

(** The locals [attempt] leaves alone. *)
Definition same_held (l l' : loop) : Prop :=
  l_held l' = l_held l /\ l_lastErr l' = l_lastErr l /\ l_closed l' = l_closed l /\
  l_cancelled l' = l_cancelled l /\ l_cooled l' = l_cooled l.

Lemma attempt_spec k i body n l res used l' :
  (l_store l).1 !! i = Some n -> keyed (l_store l).1 -> forwardBody (cfg n) (Body r) = Some body ->
  attempt e k i r body n l = (res, used, l') ->
  extends k i n res l l' /\ same_held l l'.
Proof.
  intros Hi Hk Hb. unfold attempt. destruct (doUpstream _ _ _ _ _ _ _) as [[[res0 u] st] ss] eqn:E.
  intros [= <- <- <-]. apply (doUpstream_spec _ _ _ _ _ _ _ _ _ Hi Hk) in E as (Hc & Hk' & Hl & Hs).
  split; [|done]. split; simpl; try done. by exists ss, body.
Qed.

Lemma extends_trans k i n res l l1 l2 :
  extends k i n res l l1 -> kept (l_store l1).1 (l_store l2).1 -> l_path l2 = l_path l1 ->
  l_results l2 = l_results l1 -> l_tried l2 = l_tried l1 -> l_sent l2 = l_sent l1 ->
  extends k i n res l l2.
Proof. intros [] ? ? ? ? Hs. split; try congruence; [by etrans|]. by rewrite Hs. Qed.

(** The plain failover tail after [attempt]. *)
Lemma fail_over_shape k i n status body l l1 v l' :
  let resp := {| rid := k; rstatus := status; rbody := body |} in
  extends k i n (DoResp status body) l l1 -> same_held l l1 -> isFailoverStatus status = true ->
  fail_over e k i q resp l1 = (v, l') ->
  extends k i n (DoResp status body) l l' /\
  shape k i (cfgs (l_store l).1) (Name (cfg n)) l l' (DoResp status body) v.
Proof.
  intros resp Hx (Hh & _ & Hcl & Hca & Hco) Hf H.
  apply fail_over_spec in H as (H1 & H2 & H3 & H4 & H5 & H6 & H7 & H8 & H9 & H10 & H11).
  split; [by eapply extends_trans|].
  assert (Hid : held_id l1 = held_id l) by (unfold held_id; by rewrite Hh).
  apply sh_fail; try congruence; [done|].
  rewrite H2. by rewrite (kept_cfgs _ _ (ex_kept _ _ _ _ _ _ Hx)) in H11.
Qed.

Lemma on_failover_shape k i n n1 used status body l l1 v l' :
  let resp := {| rid := k; rstatus := status; rbody := body |} in
  extends k i n (DoResp status body) l l1 -> same_held l l1 -> isFailoverStatus status = true ->
  cfg n1 = cfg n ->
  on_failover e k i q n1 used resp l1 = (v, l') ->
  extends k i n (DoResp status body) l l' /\
  shape k i (cfgs (l_store l).1) (Name (cfg n)) l l' (DoResp status body) v.
Proof.
  intros resp Hx Hh Hf Hcfg. unfold on_failover.
  destruct (quotaHit _ _ _ _ && (0 <=? used)); [|by apply fail_over_shape].
  destruct (cool_key e k i used n1 l1) as [others l2] eqn:Ec.
  apply cool_key_spec in Ec as (st & -> & Hst).
  assert (Hx2 : extends k i n (DoResp status body) l (with_store l1 st)) by (by eapply extends_trans).
  assert (Hh2 : same_held l (with_store l1 st)) by exact Hh.
  destruct others; [|by apply fail_over_shape].
  destruct (select_next _ _ _ _ _) as [s st'] eqn:Es. apply select_next_spec in Es as [Hc Hn].
  simpl in Hc, Hn. pose proof (kept_cfgs _ _ (ex_kept _ _ _ _ _ _ Hx2)) as Hcs. simpl in Hcs.
  destruct Hh as (Hhe & _ & Hcl & Hca & Hco).
  assert (Hid : held_id l1 = held_id l) by (unfold held_id; by rewrite Hhe).
  set (l3 := with_store (hold (resp, i) (mark_cooled (with_store l1 st) k)) st').
  assert (Hx3 : extends k i n (DoResp status body) l l3)
    by (eapply extends_trans; [exact Hx2|done..]).
  assert (Hfall : fail_over e k i q resp l3 = (v, l') ->
    extends k i n (DoResp status body) l l' /\
    shape k i (cfgs (l_store l).1) (Name (cfg n)) l l' (DoResp status body) v).
  { intros H. apply fail_over_spec in H as (H1 & H2 & H3 & H4 & H5 & H6 & H7 & H8 & H9 & H10 & H11).
    split; [by eapply extends_trans|]. apply sh_cool; try done.
    - rewrite H5. cbn. fold (held_id l1). rewrite Hcl, Hid. set_solver.
    - rewrite H6. cbn. fold (held_id l1). rewrite Hca, Hid. set_solver.
    - rewrite H7. cbn. by rewrite Hco.
    - left. rewrite H2. by rewrite (kept_cfgs _ _ (ex_kept _ _ _ _ _ _ Hx3)) in H11. }
  assert (Hstay : forall v0, (v0 = Die \/ exists j c, v0 = Continue j /\ cfgs (l_store l).1 !! j = Some c /\
      may_serve q c /\ Name c = Name (cfg n)) -> (v0, l3) = (v, l') ->
    extends k i n (DoResp status body) l l' /\
    shape k i (cfgs (l_store l).1) (Name (cfg n)) l l' (DoResp status body) v).
  { intros v0 Hv [= -> <-]. split; [done|]. apply sh_cool; try done.
    - cbn. fold (held_id l1). rewrite Hcl, Hid. set_solver.
    - cbn. fold (held_id l1). rewrite Hca, Hid. set_solver.
    - cbn. by rewrite Hco.
    - destruct Hv as [-> | Hv]; [by left|by right]. }
  destruct s as [| |j].
  - apply Hstay. by left.
  - exact Hfall.
  - destruct (bool_decide_reflect ((Name ∘ cfg <$> st'.1 !! j) = Some (Name (cfg n1)))) as [Hname|];
      [|exact Hfall].
    apply Hstay. right. destruct (Hn j eq_refl) as (c & Hj & Hm & _).
    exists j, c. rewrite <- Hcs. repeat split; try done; [by apply Hm..|].
    rewrite <- (kept_cfgs _ _ Hc) in Hj. apply cfgs_lookup in Hj as (n' & Hj & <-). rewrite Hj in Hname.
    simpl in Hname. rewrite <- Hcfg. by injection Hname.
Qed.

Lemma iteration_shape k i n l v l' :
  (l_store l).1 !! i = Some n -> keyed (l_store l).1 -> iteration e k i q r n l = (v, l') ->
  (v = Die /\ l' = l) \/
  exists res, extends k i n res l l' /\ shape k i (cfgs (l_store l).1) (Name (cfg n)) l l' res v.
Proof.
  intros Hi Hk. unfold iteration.
  destruct (forwardBody (cfg n) (Body r)) as [fwd|] eqn:Eb; [intros H; right; revert H|intros [= <- <-]; by left].
  destruct (attempt e k i r fwd n l) as [[res used] l1] eqn:Ea.
  apply (attempt_spec _ _ _ _ _ _ _ _ Hi Hk Eb) in Ea as [Hx Hh].
  intros H. exists res. revert H. destruct res as [msg|status body].
  - destruct (select_next _ _ _ _ _) as [s st] eqn:Es. apply select_next_spec in Es as [Hc Hn].
    intros [= <- <-]. simpl in Hc, Hn.
    assert (Ha : kept (l_store l1).1 (alter (record_failure (ckFail (clk e k))) i (alter eject i (l_store l1).1)))
      by (etrans; [apply eject_kept|apply record_failure_kept]).
    rewrite (kept_cfgs _ _ Ha), (kept_cfgs _ _ (ex_kept _ _ _ _ _ _ Hx)) in Hn.
    destruct Hh as (Hhe & Hle & Hcl & Hca & Hco). split.
    + eapply extends_trans; [exact Hx|try done..]. simpl. by etrans.
    + apply sh_err; simpl; try congruence. by apply continue_next.
  - destruct (isFailoverStatus status) eqn:Ef.
    + intros H. eapply on_failover_shape; [done|done|done| |exact H].
      destruct ((l_store l1).1 !! i) as [m|] eqn:Em; simpl; [|done].
      pose proof (kept_cfgs _ _ (ex_kept _ _ _ _ _ _ Hx)) as Hc. apply (f_equal (.!! i)) in Hc.
      unfold cfgs in Hc. rewrite !list_lookup_fmap, Hi, Em in Hc. by injection Hc.
    + intros [= <- <-]. destruct Hh as (Hhe & Hle & Hcl & Hca & Hco). split.
      * eapply extends_trans; [exact Hx|try done..]. apply record_success_kept.
      * by apply sh_serve.
Qed.

(** ** Invariants of the loop *)

Definition is_err (res : DoResult) : Prop := exists msg, res = DoErr msg.

Definition unservable (res : DoResult) : Prop :=
  match res with DoErr _ => True | DoResp status _ => isFailoverStatus status = true end.

Definition err_msg (res : DoResult) : option string :=
  match res with DoErr msg => Some msg | DoResp _ _ => None end.

(** The nodes, the requests sent and the exclusion after [k] attempts. *)
Record inv (cs : list NodeConfig) (k : nat) (l : loop) : Prop := {
  iv_cfgs : cfgs (l_store l).1 = cs;
  iv_keyed : keyed (l_store l).1;
  iv_plen : length (l_path l) = k;
  iv_path : Forall (fun i => exists c, cs !! i = Some c /\ may_serve q c /\ Name c ∈ l_tried l) (l_path l);
  iv_sent : Forall (fun s => l_path l !! s_attempt s = Some (s_node s) /\
      exists c key, cs !! s_node s = Some c /\ own_key c key /\
        forwardBody c (Body r) = Some (OBody (s_req s)) /\
        OHeader (s_req s) = setUpstreamAuth (CopyHeaders ∅ (RHeader r)) (AuthHeader c) key) (l_sent l);
  iv_slen : (length (l_sent l) <= 2 * k)%nat;
  iv_repeat : forall a i c, l_path l !! S a = Some i -> cs !! i = Some c ->
    (forall b i' c', (b <= a)%nat -> l_path l !! b = Some i' -> cs !! i' = Some c' -> Name c' <> Name c) \/
    (a ∈ l_cooled l /\ exists i' c', l_path l !! a = Some i' /\ cs !! i' = Some c' /\ Name c' = Name c);
}.

(** The next candidate: it fits the query and is new, or it is the node of the
    attempt whose key was just cooled. *)
Definition cand (cs : list NodeConfig) (k i : nat) (l : loop) : Prop :=
  exists c, cs !! i = Some c /\ may_serve q c /\
    (Name c ∉ l_tried l \/
     exists a i' c', k = S a /\ a ∈ l_cooled l /\ l_path l !! a = Some i' /\ cs !! i' = Some c' /\
       Name c' = Name c).

Lemma inv_step cs k i n res v l l' :
  inv cs k l -> cand cs k i l -> (l_store l).1 !! i = Some n ->
  extends k i n res l l' -> shape k i (cfgs (l_store l).1) (Name (cfg n)) l l' res v ->
  inv cs (S k) l' /\ (forall j, v = Continue j -> cand cs (S k) j l').
Proof.
  intros [Hcs Hky Hpl Hp Hs Hsl Hr] (c & Hc & Hm & Hnew) Hi [[Xc Xk] Xp Xr Xt (ss & body & Xs & Xl & Xb & Xo)] Hsh.
  assert (Hcn : cfg n = c).
  { rewrite <- Hcs in Hc. unfold cfgs in Hc. rewrite list_lookup_fmap, Hi in Hc. by injection Hc. }
  assert (Hco : l_cooled l ⊆ l_cooled l').
  { destruct Hsh as [? ? ? ? ? ? -> | ? ? ? ? ? ? -> | ? ? ? ? ? ? ? -> | ? ? ? ? ? ? ? -> _]; clear; set_solver. }
  split.
  - split.
    + congruence.
    + by apply Xk.
    + rewrite Xp, length_app. simpl. lia.
    + rewrite Xp, Xt. apply Forall_app. split.
      * eapply Forall_impl; [exact Hp|]. simpl. intros x (cx & ? & ? & ?). exists cx.
        split; [done|]. split; [done|]. by apply elem_of_union_r.
      * constructor; [|constructor]. exists c. rewrite Hcn.
        split; [done|]. split; [done|]. apply elem_of_union_l, elem_of_singleton_2. done.
    + rewrite Xs, Xp. apply Forall_app. split.
      * eapply Forall_impl; [exact Hs|]. simpl. intros s [Hl Hx]. split; [|done].
        by apply lookup_app_l_Some.
      * eapply Forall_impl; [exact Xo|]. intros s (-> & -> & -> & key & Hok & ->). split.
        -- rewrite <- Hpl. by apply list_lookup_middle.
        -- exists c, key. by rewrite <- Hcn in Hc |- *.
    + rewrite Xs, length_app. lia.
    + rewrite Xp. intros a j cj Ha Hj. apply lookup_snoc_Some in Ha as [[Ha Hlk]|[Ha ->]].
      * destruct (Hr a j cj Hlk Hj) as [Hd|(Hin & i' & c' & Hl' & ? & ?)].
        -- left. intros b i' c' Hb Hl'. apply (Hd b i' c' Hb). rewrite lookup_app_l in Hl' by lia. done.
        -- right. split; [by apply Hco|]. exists i', c'. split; [|done]. by apply lookup_app_l_Some.
      * rewrite Hc in Hj. injection Hj as <-. destruct Hnew as [Hnew|(a' & i' & c' & -> & Hin & Hl' & Hc' & Hnm)].
        -- left. intros b i' c' Hb Hl' Hc'. rewrite lookup_app_l in Hl' by lia.
           rewrite Forall_lookup in Hp. destruct (Hp b i' Hl') as (c'' & Hc'' & _ & Hin).
           rewrite Hc' in Hc''. injection Hc'' as <-. intros Heq. by rewrite Heq in Hin.
        -- right. assert (a = a') as -> by lia. split; [by apply Hco|].
           exists i', c'. split; [|done]. by apply lookup_app_l_Some.
  - rewrite Hcs in Hsh. intros j ->.
    assert (Hnx : next_ok cs (l_tried l') (Continue j) -> cand cs (S k) j l').
    { intros (cj & ? & ? & ?). exists cj. auto. }
    inversion Hsh; subst; auto.
    destruct H4 as [H4|(j' & cj & [= <-] & Hcj & Hmj & Hnm)]; [by apply Hnx|].
    exists cj. split; [done|]. split; [done|]. right. exists (length (l_path l)), i, (cfg n).
    split; [done|].
    split; [rewrite H3; apply elem_of_union_l, elem_of_singleton_2; done|].
    split; [rewrite Xp; by apply list_lookup_middle|]. done.
Qed.

(** The held response is the answer of the most recent attempt that got one, and
    it is still readable unless that attempt cooled a key. *)
Record relay_ok (l : loop) (h : response) (node : nat) : Prop := {
  rk_result : l_results l !! rid h = Some (DoResp (rstatus h) (rbody h));
  rk_path : l_path l !! rid h = Some node;
  rk_last : forall j res, (rid h < j)%nat -> l_results l !! j = Some res -> is_err res;
  rk_readable : rid h ∉ l_cooled l -> rid h ∉ l_closed l /\ rid h ∉ l_cancelled l;
}.

Record held_inv (k : nat) (l : loop) : Prop := {
  hv_plen : length (l_path l) = k;
  hv_rlen : length (l_results l) = k;
  hv_unservable : Forall unservable (l_results l);
  hv_bound : forall j, j ∈ l_closed l \/ j ∈ l_cancelled l -> (j < k)%nat;
  hv_held : match l_held l with
            | Some (h, node) => relay_ok l h node
            | None => Forall is_err (l_results l) /\ l_lastErr l = last (l_results l) ≫= err_msg
            end;
}.

(** The loop's verdict on the response it serves: the last attempt's. *)
Definition serves (k : nat) (h : response) (node : nat) (l : loop) : Prop :=
  rid h = k /\ isFailoverStatus (rstatus h) = false /\
  l_results l !! k = Some (DoResp (rstatus h) (rbody h)) /\ l_path l !! k = Some node /\
  length (l_results l) = S k /\ Forall unservable (take k (l_results l)) /\
  k ∉ l_closed l /\ k ∉ l_cancelled l /\ k ∉ held_id l.

Lemma held_id_lt k l : held_inv k l -> forall j, j ∈ held_id l -> (j < k)%nat.
Proof.
  intros [_ Hrl _ _ Hh] j. unfold held_id. destruct (l_held l) as [[h node]|]; [|set_solver].
  intros ->%elem_of_singleton. apply rk_result, lookup_lt_Some in Hh. lia.
Qed.

(** An attempt whose response becomes the held one. *)
Lemma held_fresh k i n res l l' h :
  held_inv k l -> extends k i n res l l' -> l_held l' = Some (h, i) -> rid h = k ->
  res = DoResp (rstatus h) (rbody h) -> isFailoverStatus (rstatus h) = true ->
  (forall j, j ∈ l_closed l' \/ j ∈ l_cancelled l' -> (j < S k)%nat) ->
  (k ∉ l_cooled l' -> k ∉ l_closed l' /\ k ∉ l_cancelled l') -> held_inv (S k) l'.
Proof.
  intros [Hpl Hrl Hu Hb Hh] [_ Xp Xr _ _] Eh Er -> Hf Hb' Hrd. split; try done.
  - rewrite Xp, length_app. simpl. lia.
  - rewrite Xr, length_app. simpl. lia.
  - rewrite Xr. apply Forall_app. split; [done|]. by repeat constructor.
  - rewrite Eh. split; rewrite ?Er; try done.
    + rewrite Xr, <- Hrl. by apply list_lookup_middle.
    + rewrite Xp, <- Hpl. by apply list_lookup_middle.
    + intros j x Hj Hx. apply lookup_lt_Some in Hx. rewrite Xr, length_app in Hx. simpl in Hx. lia.
Qed.

(** An attempt that failed in transport keeps the held one. *)
Lemma held_keep k i n msg l l' :
  held_inv k l -> extends k i n (DoErr msg) l l' ->
  l_held l' = l_held l -> l_lastErr l' = Some msg -> l_closed l' = l_closed l ->
  l_cancelled l' = {[ k ]} ∪ l_cancelled l -> l_cooled l' = l_cooled l -> held_inv (S k) l'.
Proof.
  intros [Hpl Hrl Hu Hb Hh] [_ Xp Xr _ _] Eh El Ec Ea Eo. split.
  - rewrite Xp, length_app. simpl. lia.
  - rewrite Xr, length_app. simpl. lia.
  - rewrite Xr. apply Forall_app. split; [done|]. by repeat constructor.
  - rewrite Ec, Ea. intros j Hj. assert (j = k \/ (j < k)%nat); [|lia].
    rewrite elem_of_union, elem_of_singleton in Hj. specialize (Hb j). tauto.
  - rewrite Eh. destruct (l_held l) as [[h node]|] eqn:E.
    + destruct Hh as [R1 R2 R3 R4]. assert (rid h < k)%nat by (apply lookup_lt_Some in R1; lia). split.
      * rewrite Xr. by apply lookup_app_l_Some.
      * rewrite Xp. by apply lookup_app_l_Some.
      * rewrite Xr. intros j x Hj [[_ Hx]|[_ <-]]%lookup_snoc_Some; [by apply (R3 j)|by exists msg].
      * rewrite Eo, Ec, Ea. intros Hc. destruct (R4 Hc). split; [done|].
        intros [Hx%elem_of_singleton|]%elem_of_union; [lia|done].
    + destruct Hh as [He _]. split; [|by rewrite El, Xr, last_snoc].
      rewrite Xr. apply Forall_app. split; [done|]. constructor; [by exists msg|constructor].
Qed.

(** An attempt whose response is servable. *)
Lemma held_serve k i n status body l l' :
  held_inv k l -> extends k i n (DoResp status body) l l' -> isFailoverStatus status = false ->
  l_held l' = l_held l -> l_closed l' = l_closed l -> l_cancelled l' = l_cancelled l ->
  serves k {| rid := k; rstatus := status; rbody := body |} i l'.
Proof.
  intros Hinv [_ Xp Xr _ _] Hf Eh Ec Ea. pose proof (held_id_lt k l Hinv) as Hid.
  destruct Hinv as [Hpl Hrl Hu Hb Hh]. unfold serves. simpl.
  split; [done|]. split; [done|]. split; [rewrite Xr, <- Hrl; by apply list_lookup_middle|].
  split; [rewrite Xp, <- Hpl; by apply list_lookup_middle|].
  split; [rewrite Xr, length_app; simpl; lia|]. split; [rewrite Xr, take_app_le, take_ge by lia; done|].
  rewrite Ec, Ea. unfold held_id. rewrite Eh. fold (held_id l). split; [|split]; intros Hx.
  - specialize (Hb k (or_introl Hx)). lia.
  - specialize (Hb k (or_intror Hx)). lia.
  - specialize (Hid k Hx). lia.
Qed.

Lemma held_step k i n res v l l' :
  held_inv k l -> extends k i n res l l' ->
  shape k i (cfgs (l_store l).1) (Name (cfg n)) l l' res v ->
  match v with Serve h node => serves k h node l' | _ => held_inv (S k) l' end.
Proof.
  intros Hinv Hx Hsh. pose proof (held_id_lt k l Hinv) as Hid. pose proof (hv_bound _ _ Hinv) as Hb.
  destruct Hsh as [msg v Eh El Ec Ea Eo Hn|status body Hf Eh Ec Ea Eo|status body v Hf Eh Ec Ea Eo Hn|
                   status body v Hf Eh Ec Ea Eo Hn].
  - assert (held_inv (S k) l') by (by eapply held_keep). by destruct v.
  - by eapply held_serve.
  - assert (Hall : forall j, j ∈ l_closed l' \/ j ∈ l_cancelled l' -> (j < k)%nat).
    { rewrite Ec, Ea. intros j. rewrite !elem_of_union. specialize (Hb j). specialize (Hid j). tauto. }
    assert (held_inv (S k) l'); [|by destruct v].
    apply (held_fresh _ _ _ _ _ _ _ Hinv Hx Eh); try done.
    + intros j Hj. specialize (Hall j Hj). lia.
    + intros _. split; intros Hj; [specialize (Hall k (or_introl Hj))|specialize (Hall k (or_intror Hj))]; lia.
  - assert (held_inv (S k) l').
    { apply (held_fresh _ _ _ _ _ _ _ Hinv Hx Eh); try done.
      - intros j Hj. assert (Hj' : (j ∈ l_closed l \/ j ∈ l_cancelled l) \/ j ∈ held_id l \/ j = k)
          by (destruct Hj as [Hj|Hj]; [apply Ec in Hj|apply Ea in Hj]; rewrite !elem_of_union, elem_of_singleton in Hj; tauto).
        destruct Hj' as [Hj'|[Hj'| ->]]; [specialize (Hb j Hj')|specialize (Hid j Hj')|]; lia.
      - rewrite Eo. intros Hj. destruct Hj. by apply elem_of_union_l, elem_of_singleton_2. }
    destruct v; try done. destruct Hn as [[]|(? & ? & ? & _)]; done.
Qed.

(** The whole loop. *)
Lemma failover_run cs fuel k i l out l' :
  inv cs k l -> cand cs k i l -> held_inv k l -> failover e fuel k i q r l = (out, l') ->
  exists k', (k' <= k + fuel)%nat /\ inv cs k' l' /\
    match out with
    | Served h node => exists m, k' = S m /\ serves m h node l'
    | Exhausted => held_inv k' l'
    | Panicked => True
    end.
Proof.
  revert k i l. induction fuel as [|fuel IH]; intros k i l Hinv Hc Hh; simpl.
  { intros [= <- <-]. exists k. split; [lia|done]. }
  destruct ((l_store l).1 !! i) as [n|] eqn:Hi.
  2: { intros [= <- <-]. exists k. split; [lia|done]. }
  destruct (iteration e k i q r n l) as [v l1] eqn:E.
  destruct (iteration_shape _ _ _ _ _ _ Hi (iv_keyed _ _ _ Hinv) E) as [[-> ->]|(res & Hx & Hs)].
  { intros [= <- <-]. exists k. split; [lia|done]. }
  destruct (inv_step _ _ _ _ _ _ _ _ Hinv Hc Hi Hx Hs) as [Hinv' Hcand].
  pose proof (held_step _ _ _ _ _ _ _ Hh Hx Hs) as Hh'.
  destruct v as [j| |h node|].
  - intros H. destruct (IH (S k) j l1 Hinv' (Hcand j eq_refl) Hh' H) as (k' & Hk & Hr).
    exists k'. split; [lia|done].
  - intros [= <- <-]. exists (S k). split; [lia|done].
  - intros [= <- <-]. exists (S k). split; [lia|]. split; [done|]. by exists k.
  - intros [= <- <-]. exists (S k). split; [lia|done].
Qed.

Lemma initial_inv st : keyed st.1 -> inv (cfgs st.1) 0 (initial st) /\ held_inv 0 (initial st).
Proof.
  intros Hk. split; split; simpl; try done; try constructor.
  intros j [H|H]; set_solver.
Qed.

(** What a dispatched request's answer says about its attempts. *)
Definition answered (ans : answer) (l : loop) : Prop :=
  match ans with
  | Relay h node =>
      l_results l !! rid h = Some (DoResp (rstatus h) (rbody h)) /\
      l_path l !! rid h = Some node /\
      if isFailoverStatus (rstatus h) then
        Forall unservable (l_results l) /\
        (forall j res, (rid h < j)%nat -> l_results l !! j = Some res -> is_err res) /\
        (rid h ∉ l_cooled l -> readable h l = true)
      else
        length (l_results l) = S (rid h) /\ Forall unservable (take (rid h) (l_results l)) /\
        readable h l = true
  | BadGateway err => Forall is_err (l_results l) /\ err = last (l_results l) ≫= err_msg
  | Refused _ => l_results l = []
  | Crash => True
  end.

Lemma readable_true h l : rid h ∉ l_closed l -> rid h ∉ l_cancelled l -> readable h l = true.
Proof. intros H1 H2. unfold readable. by rewrite !bool_decide_eq_false_2. Qed.

Lemma run_failover_spec i st ans l :
  keyed st.1 -> cand (cfgs st.1) 0 i (initial st) -> run_failover e i q r st = (ans, l) ->
  exists k, (k <= maxFailoverAttempts)%nat /\ inv (cfgs st.1) k l /\ answered ans l.
Proof.
  intros Hk0 Hc. unfold run_failover. destruct (failover _ _ _ _ _ _ _) as [out l0] eqn:E.
  destruct (initial_inv st Hk0) as [Hi Hh].
  destruct (failover_run _ _ _ _ _ _ _ Hi Hc Hh E) as (k & Hk & Hinv & Hout). simpl in Hk.
  destruct out as [h node| |].
  - intros [= <- <-]. exists k. split; [lia|]. split; [by destruct Hinv; split|].
    destruct Hout as (m & -> & <- & Hf & Hr & Hp & Hl & Hu & H1 & H2 & H3). simpl. rewrite Hf.
    split; [done|]. split; [done|]. split; [done|]. split; [done|].
    apply readable_true; simpl; fold (held_id l0); rewrite elem_of_union; tauto.
  - destruct (l_held l0) as [[h node]|] eqn:Eh; intros [= <- <-]; exists k; (split; [lia|]); (split; [done|]);
      destruct Hout as [_ _ Hu _ Hhv]; rewrite Eh in Hhv.
    + destruct Hhv as [R1 R2 R3 R4]. simpl.
      assert (Hf : isFailoverStatus (rstatus h) = true).
      { rewrite Forall_lookup in Hu. apply (Hu _ _ R1). }
      rewrite Hf. split; [done|]. split; [done|]. split; [done|]. split; [exact R3|].
      intros Hx. destruct (R4 Hx). by apply readable_true.
    + done.
  - intros [= <- <-]. exists k. done.
Qed.

End spec.

(** ** Dispatch *)

Definition queue_stable (e : Env) : Prop := forall st, kept st.1 (queued e st).1.

Lemma dispatch_spec e ck q r st ans l :
  stable e -> queue_stable e -> keyed st.1 -> dispatch e ck q r st = (ans, l) ->
  exists k, (k <= maxFailoverAttempts)%nat /\ inv q r (cfgs st.1) k l /\ answered ans l.
Proof.
  intros Hs Hq Hk. unfold dispatch, selectNodeFromSnap.
  destruct (selectNodeFromSnapExcluding _ _ _ _) as [[s ns] rr] eqn:E.
  pose proof (selector_cfgs _ _ _ _ _ _ _ E) as Hc.
  assert (Hinit : inv q r (cfgs st.1) 0 (initial (ns, rr))).
  { destruct (initial_inv e Hs q r (ns, rr)) as [H _]; [exact (select_keyed _ _ _ _ _ _ _ _ E Hk)|].
    simpl in H. by rewrite Hc in H. }
  destruct s as [| |i].
  - intros [= <- <-]. exists 0%nat. split; [unfold maxFailoverAttempts; lia|]. done.
  - intros [= <- <-]. exists 0%nat. split; [unfold maxFailoverAttempts; lia|]. done.
  - intros H. destruct (selector_sound _ _ _ _ _ _ _ E) as (c & Hcs & Hm & _).
    destruct (Hq (ns, rr)) as [Hqs Hqk]. simpl in Hqs, Hqk. rewrite Hc in Hqs.
    apply (run_failover_spec e Hs) in H; [by rewrite Hqs in H|
      by apply Hqk; exact (select_keyed _ _ _ _ _ _ _ _ E Hk)|].
    exists c. rewrite Hqs. split; [done|]. split; [by destruct Hm|]. left. set_solver.
Qed.

(** Isolation through the whole chain: whatever fails and however often the
    request is retried, every upstream call of a request goes to a node that is
    configured for its workload class, carries the PII mark if the payload is
    personal, is of the asked tier and lists the model. *)
Theorem failover_isolation e ck q r st ans l s :
  stable e -> queue_stable e -> keyed st.1 -> dispatch e ck q r st = (ans, l) -> s ∈ l_sent l ->
  exists c, cfgs st.1 !! s_node s = Some c /\ may_serve q c.
Proof.
  intros Hs Hq Hk0 H Hin. destruct (dispatch_spec _ _ _ _ _ _ _ Hs Hq Hk0 H) as (k & _ & Hinv & _).
  pose proof (iv_sent _ _ _ _ _ Hinv) as Hx. rewrite Forall_forall in Hx.
  destruct (Hx s Hin) as [Hp _]. pose proof (iv_path _ _ _ _ _ Hinv) as Hpath.
  rewrite Forall_lookup in Hpath. destruct (Hpath _ _ Hp) as (c & Hc & Hm & _). by exists c.
Qed.


(** C6: What the caller is answered.  A servable response ends the chain and is
    relayed with its body open; a relayed 429 or 5xx is the true answer of the
    last attempt that got one, after which every attempt failed in transport and
    none was servable, and its body is open unless that attempt cooled a key; a
    502 means no attempt got any response; a refusal means nothing was sent. *)
Theorem relay_faithful e ck q r st ans l :
  stable e -> queue_stable e -> keyed st.1 -> dispatch e ck q r st = (ans, l) -> answered ans l.
Proof. intros Hs Hq Hk0 H. by destruct (dispatch_spec _ _ _ _ _ _ _ Hs Hq Hk0 H) as (k & _ & _ & ?). Qed.

(** C12: The exclude set: an attempt goes to a node whose name no earlier attempt
    used, except directly after an attempt that cooled a key of that very node. *)
Theorem attempts_distinct e ck q r st ans l a i c :
  stable e -> queue_stable e -> keyed st.1 -> dispatch e ck q r st = (ans, l) ->
  l_path l !! S a = Some i -> cfgs st.1 !! i = Some c ->
  (forall b i' c', (b <= a)%nat -> l_path l !! b = Some i' -> cfgs st.1 !! i' = Some c' -> Name c' <> Name c) \/
  (a ∈ l_cooled l /\ exists i' c', l_path l !! a = Some i' /\ cfgs st.1 !! i' = Some c' /\ Name c' = Name c).
Proof.
  intros Hs Hq Hk0 H. destruct (dispatch_spec _ _ _ _ _ _ _ Hs Hq Hk0 H) as (k & _ & Hinv & _).
  exact (iv_repeat _ _ _ _ _ Hinv a i c).
Qed.

(** ** Credentials *)

Lemma setUpstreamAuth_gateway h authHeader key :
  authHeader <> "" -> ToLower authHeader <> "authorization" ->
  setUpstreamAuth h authHeader key !! "Authorization" = None /\
  setUpstreamAuth h authHeader key !! canonical authHeader = (if key =s "" then None else Some [key]) /\
  forall k, k <> "Authorization" -> k <> canonical authHeader ->
    setUpstreamAuth h authHeader key !! k = h !! k.
Proof.
  intros Hne Hna. unfold setUpstreamAuth, Del, Set_.
  assert (Hc : canonical authHeader <> "Authorization").
  { intros Heq. apply Hna. rewrite <- (lower_canonical_key authHeader), Heq. reflexivity. }
  change (canonical "Authorization") with "Authorization".
  destruct (String.eqb_spec authHeader ""); [done|]. destruct (String.eqb_spec key "") as [->|Hk]; simpl.
  - rewrite lookup_delete_ne by done. rewrite lookup_delete_eq, lookup_delete_eq. split; [done|]. split; [done|].
    intros k H1 H2. by rewrite !lookup_delete_ne by done.
  - rewrite lookup_insert_ne by done. rewrite lookup_delete_ne by done. rewrite lookup_delete_eq, lookup_insert_eq.
    split; [done|]. split; [done|].
    intros k H1 H2. rewrite lookup_insert_ne by done. by rewrite !lookup_delete_ne by done.
Qed.

(** C13: The credential boundary of a gateway node: no request sent to a node with an
    [auth_header] carries an Authorization header, so the caller's router token
    never reaches it, and the named header holds the node's own key or nothing,
    whatever the caller put there. *)
Theorem gateway_node_credentials e ck q r st ans l s c :
  stable e -> queue_stable e -> keyed st.1 -> dispatch e ck q r st = (ans, l) -> s ∈ l_sent l ->
  cfgs st.1 !! s_node s = Some c -> AuthHeader c <> "" -> ToLower (AuthHeader c) <> "authorization" ->
  OHeader (s_req s) !! "Authorization" = None /\
  (OHeader (s_req s) !! canonical (AuthHeader c) = None \/
   exists key, key ∈ APIKey c :: APIKeys c /\ OHeader (s_req s) !! canonical (AuthHeader c) = Some [key]).
Proof.
  intros Hs Hq Hk0 H Hin Hc Hne Hna. destruct (dispatch_spec _ _ _ _ _ _ _ Hs Hq Hk0 H) as (k & _ & Hinv & _).
  pose proof (iv_sent _ _ _ _ _ Hinv) as Hx. rewrite Forall_forall in Hx.
  destruct (Hx s Hin) as (_ & c' & key & Hc' & Hok & _ & ->). rewrite Hc in Hc'. injection Hc' as <-.
  destruct (setUpstreamAuth_gateway (CopyHeaders ∅ (RHeader r)) _ key Hne Hna) as (H1 & H2 & _).
  split; [done|]. rewrite H2. destruct (String.eqb_spec key ""); [by left|right].
  destruct Hok as [|Hok]; [done|eauto].
Qed.

(** ** Witnesses *)

(** An environment that answers by attempt number, with nobody else running. *)
Definition ex_env (answers : nat -> DoResult) : Env :=
  {| newRequest := fun _ _ => None;
     Do := fun k _ _ => answers k;
     interfere := fun _ _ st => st;
     queued := fun st => st;
     clk := fun _ => {| ckKey := fun _ => unix_epoch; ckExhaust := unix_epoch; ckCooling := unix_epoch;
                        ckFail := unix_epoch; ckSame := fun _ => unix_epoch; ckNext := fun _ => unix_epoch |};
     quotaMatch := fun _ _ => false |}.

(** 503, then a dead connection, then a good answer. *)
Definition ex_answers (k : nat) : DoResult :=
  match k with
  | 0%nat => DoResp 503 "busy"
  | 1%nat => DoErr "connection refused"
  | _ => DoResp 200 "ok"
  end.

Definition ex_req : Request :=
  {| Method := "POST"; Path := "/v1/chat/completions"; RawQuery := "";
     RHeader := [("Authorization", ["Bearer router-token"]); ("X-Gateway-Token", ["smuggled"])];
     Body := "{}" |}.

Definition ex_run : answer * loop :=
  dispatch (ex_env ex_answers) ex_clk (ex_query ClassInternal false) ex_req (ex_nodes, 0).

Lemma ex_stable a : stable (ex_env a) /\ queue_stable (ex_env a).
Proof. split; intros; repeat intro; reflexivity. Qed.

Lemma ex_keyed : keyed (ex_nodes, 0).1.
Proof. repeat constructor; simpl; by intros p [= <-]. Qed.

Lemma ex_run_eq : dispatch (ex_env ex_answers) ex_clk (ex_query ClassInternal false) ex_req (ex_nodes, 0) =
  (ex_run.1, ex_run.2).
Proof. apply surjective_pairing. Qed.

Lemma failover_isolation_witness :
  exists s c, s ∈ l_sent ex_run.2 /\ s_node s = 1%nat /\ may_serve (ex_query ClassInternal false) c.
Proof.
  destruct (l_sent ex_run.2 !! 1%nat) as [s|] eqn:E; [|vm_compute in E; discriminate].
  assert (Hin : s ∈ l_sent ex_run.2) by (eapply list_elem_of_lookup_2; exact E).
  destruct (failover_isolation _ _ _ _ _ _ _ s (proj1 (ex_stable _)) (proj2 (ex_stable _)) ex_keyed ex_run_eq Hin)
    as (c & _ & Hm).
  exists s, c. split; [exact Hin|]. split; [vm_compute in E; injection E as <-; reflexivity|exact Hm].
Defined.


Lemma relay_faithful_witness :
  ex_run.1 = Relay {| rid := 2; rstatus := 200; rbody := "ok" |} 2 /\ answered ex_run.1 ex_run.2.
Proof.
  split; [vm_compute; reflexivity|].
  exact (relay_faithful _ _ _ _ _ _ _ (proj1 (ex_stable _)) (proj2 (ex_stable _)) ex_keyed ex_run_eq).
Defined.

Lemma attempts_distinct_witness :
  exists c, cfgs ex_nodes !! 2%nat = Some c /\
  ((forall b i' c', (b <= 1)%nat -> l_path ex_run.2 !! b = Some i' -> cfgs ex_nodes !! i' = Some c' -> Name c' <> Name c) \/
   (1%nat ∈ l_cooled ex_run.2 /\ exists i' c', l_path ex_run.2 !! 1%nat = Some i' /\ cfgs ex_nodes !! i' = Some c' /\ Name c' = Name c)).
Proof.
  eexists. split; [reflexivity|].
  apply (attempts_distinct _ _ _ _ _ _ _ 1 2 _ (proj1 (ex_stable _)) (proj2 (ex_stable _)) ex_keyed ex_run_eq);
    vm_compute; reflexivity.
Defined.

Lemma gateway_node_credentials_witness :
  exists s, l_sent ex_run.2 !! 0%nat = Some s /\ OHeader (s_req s) !! "Authorization" = None /\
    OHeader (s_req s) !! "X-Gateway-Token" = Some ["k0"].
Proof.
  destruct (l_sent ex_run.2 !! 0%nat) as [s|] eqn:E; [|vm_compute in E; discriminate].
  assert (Hin : s ∈ l_sent ex_run.2) by (eapply list_elem_of_lookup_2; exact E).
  exists s. split; [reflexivity|]. split.
  - apply (gateway_node_credentials _ _ _ _ _ _ _ s (ex_node "plan" 2 1 ["internal"] false)
             (proj1 (ex_stable _)) (proj2 (ex_stable _)) ex_keyed ex_run_eq Hin).
    + vm_compute in E. injection E as <-. reflexivity.
    + discriminate.
    + discriminate.
  - vm_compute in E. injection E as <-. vm_compute. reflexivity.
Defined.

(** ** A key-cooled response can be relayed after it was closed *)

(** Two nodes of equal priority.  The first answers 429 on one of its two keys;
    the reselection, meant to retry it on its other key, round-robins to the
    second node instead, so the code falls through to the node-level branch. *)
Definition ex_cool_nodes : list upstreamNode := [ex_up "a" 1 1 [] false; ex_up "b" 1 1 [] false].

Definition ex_cool_answers (k : nat) : DoResult :=
  match k with 0%nat => DoResp 429 "quota" | _ => DoErr "connection refused" end.

Definition ex_cool_run : answer * loop :=
  dispatch (ex_env ex_cool_answers) ex_clk (ex_query ClassInternal false) ex_req (ex_cool_nodes, 0).

(** The 429 is relayed with its body already closed and its context cancelled,
    and the breaker of the first node was scored although its second key was
    ready. *)
Theorem key_cooled_relay_closed :
  ex_cool_run.1 = Relay {| rid := 0; rstatus := 429; rbody := "quota" |} 0 /\
  readable {| rid := 0; rstatus := 429; rbody := "quota" |} ex_cool_run.2 = false /\
  (Circuit.failures <$> ((l_store ex_cool_run.2).1 !! 0%nat ≫= breaker)) = Some 1 /\
  (KeyPool.AllCooling unix_epoch <$> ((l_store ex_cool_run.2).1 !! 0%nat ≫= keys)) = Some false.
Proof. vm_compute. auto. Qed.

(** The same node can be attempted more than twice: with a single node, three
    keys and three quota answers it is called once per key. *)
Definition ex_three_keys : list upstreamNode :=
  [set_keys (ex_up "a" 1 1 [] false) (Some (KeyPool.New ["k0"; "k1"; "k2"] (5 * Minute)))].

Theorem same_node_retried_per_key :
  l_path (dispatch (ex_env (fun k => if Nat.ltb k 2 then DoResp 429 "quota" else DoResp 200 "ok"))
            ex_clk (ex_query ClassInternal false) ex_req (ex_three_keys, 0)).2 = [0; 0; 0]%nat.
Proof. vm_compute. reflexivity. Qed.

End FailoverSpec.
