(* ===== verification/Admission.v ===== *)
(** * Admission and release in the proxy handler

    Models the resource side of [handleProxy] in [src/main.go] under every
    interleaving of concurrent requests: the queue counter, the buffer counter
    and its peak ([beginBuffering]), the semaphore, the in-flight counter, the
    per-tier queue gauge ([addQueueDepthByTier]) and the stack of deferred
    releases.  A step of [step] is one atomic operation of one request; what a
    request does between two such operations is in [Selection] and
    [Failover].  One configuration is in force: a reload gives later requests a
    new semaphore. *)

From Stdlib Require Import ZArith Lia.
From stdpp Require Import base option list gmap strings.
From S2P Require Import Prelude GoStrings RouterConfig.

Module Admission.
Import RouterConfig.

(** ** State *)

(** What a deferred call gives back, in the order the handler defers them. *)
Inductive cleanup := DDequeue | DBuffer | DSem | DInflight.

Definition cleanup_eqb (a b : cleanup) : bool :=
  match a, b with
  | DDequeue, DDequeue | DBuffer, DBuffer | DSem, DSem | DInflight, DInflight => true
  | _, _ => false
  end.

(** Where a call of [dequeue] goes on. *)
Inductive point' := ThenRunning | ThenReturning.

(** Where a request is. *)
Inductive point :=
| Counted (d : Z)          (* queueDepth.Add(1) returned d *)
| Peaking (n : Z)          (* buffering.Add(1) returned n *)
| Reading                  (* the body is read, classified, and a node looked for *)
| Waiting                  (* at the select on the semaphore *)
| Acquired                 (* the semaphore was taken, dequeue is next *)
| Running                  (* between the semaphore and the in-flight counter *)
| Serving                  (* in the failover loop and the relay *)
| Cancelled                (* the context ended while waiting, dequeue is next *)
| Dequeuing (k : point')     (* dequeue gave the slot back, the tier gauge is next *)
| Returning                (* the deferred calls run *).

(** A request: its point, the two locals of [dequeue], and its deferred calls,
    last deferred first. *)
Record req := {
  pc : point;
  dequeued : bool;
  tierLabel : string;
  defers : list cleanup;
}.

Record state := {
  queueDepth : Z;
  buffering : Z;
  bufferingPeak : Z;
  semUsed : Z;
  inflight : Z;
  queueDepthByTier : gmap string Z;
  reqs : gmap nat req;
}.

(** ** Operations *)

Definition tier_depth (m : gmap string Z) (tier : string) : Z := default 0 (m !! tier).

Definition addQueueDepthByTier (tier : string) (delta : Z) (m : gmap string Z) : gmap string Z :=
  let next := tier_depth m tier + delta in
  let next := if next <? 0 then 0 else next in
  <[tier := next]> m.

Definition goto (r : req) (p : point) : req :=
  {| pc := p; dequeued := dequeued r; tierLabel := tierLabel r; defers := defers r |}.

Definition push (r : req) (d : cleanup) : req :=
  {| pc := pc r; dequeued := dequeued r; tierLabel := tierLabel r; defers := d :: defers r |}.

Definition pop (r : req) : req :=
  {| pc := pc r; dequeued := dequeued r; tierLabel := tierLabel r; defers := tail (defers r) |}.

Definition join_tier (r : req) (tier : string) : req :=
  {| pc := pc r; dequeued := dequeued r; tierLabel := tier; defers := defers r |}.

Definition mark_dequeued (r : req) : req :=
  {| pc := pc r; dequeued := true; tierLabel := tierLabel r; defers := defers r |}.

Definition set_req (s : state) (x : nat) (r : req) : state :=
  {| queueDepth := queueDepth s; buffering := buffering s; bufferingPeak := bufferingPeak s;
     semUsed := semUsed s; inflight := inflight s; queueDepthByTier := queueDepthByTier s;
     reqs := <[x := r]> (reqs s) |}.

Definition drop_req (s : state) (x : nat) : state :=
  {| queueDepth := queueDepth s; buffering := buffering s; bufferingPeak := bufferingPeak s;
     semUsed := semUsed s; inflight := inflight s; queueDepthByTier := queueDepthByTier s;
     reqs := delete x (reqs s) |}.

Definition add_queue (s : state) (n : Z) : state :=
  {| queueDepth := queueDepth s + n; buffering := buffering s; bufferingPeak := bufferingPeak s;
     semUsed := semUsed s; inflight := inflight s; queueDepthByTier := queueDepthByTier s;
     reqs := reqs s |}.

Definition add_buffer (s : state) (n : Z) : state :=
  {| queueDepth := queueDepth s; buffering := buffering s + n; bufferingPeak := bufferingPeak s;
     semUsed := semUsed s; inflight := inflight s; queueDepthByTier := queueDepthByTier s;
     reqs := reqs s |}.

(** The compare-and-swap loop of [beginBuffering], at the swap that succeeds. *)
Definition raise_peak (s : state) (n : Z) : state :=
  {| queueDepth := queueDepth s; buffering := buffering s;
     bufferingPeak := (if n <=? bufferingPeak s then bufferingPeak s else n);
     semUsed := semUsed s; inflight := inflight s; queueDepthByTier := queueDepthByTier s;
     reqs := reqs s |}.

Definition add_sem (s : state) (n : Z) : state :=
  {| queueDepth := queueDepth s; buffering := buffering s; bufferingPeak := bufferingPeak s;
     semUsed := semUsed s + n; inflight := inflight s; queueDepthByTier := queueDepthByTier s;
     reqs := reqs s |}.

Definition add_inflight (s : state) (n : Z) : state :=
  {| queueDepth := queueDepth s; buffering := buffering s; bufferingPeak := bufferingPeak s;
     semUsed := semUsed s; inflight := inflight s + n; queueDepthByTier := queueDepthByTier s;
     reqs := reqs s |}.

Definition add_tier (s : state) (tier : string) (n : Z) : state :=
  {| queueDepth := queueDepth s; buffering := buffering s; bufferingPeak := bufferingPeak s;
     semUsed := semUsed s; inflight := inflight s;
     queueDepthByTier := addQueueDepthByTier tier n (queueDepthByTier s); reqs := reqs s |}.

(** ** Steps *)

Section steps.
Context (d : Defaults).

Definition after (k : point') : point := match k with ThenRunning => Running | ThenReturning => Returning end.

(** After the slot is given back, [dequeue] leaves the tier gauge if it was
    joined; [k] is where the caller of [dequeue] goes on. *)
Definition tier_next (r : req) (k : point') : point :=
  if String.eqb (tierLabel r) "" then after k else Dequeuing k.

Inductive step : state -> state -> Prop :=
(* Arrival: the slot is counted and its release deferred. *)
| S_enter s x :
    reqs s !! x = None ->
    step s (set_req (add_queue s 1) x
              {| pc := Counted (queueDepth s + 1); dequeued := false; tierLabel := "";
                 defers := [DDequeue] |})
(* "router queue is full". *)
| S_full s x r n :
    reqs s !! x = Some r -> pc r = Counted n -> MaxQueueDepth d < n ->
    step s (set_req s x (goto r Returning))
(* beginBuffering: the counter, then the peak and the deferred release. *)
| S_buffer s x r n :
    reqs s !! x = Some r -> pc r = Counted n -> n <= MaxQueueDepth d ->
    step s (set_req (add_buffer s 1) x (push (goto r (Peaking (buffering s + 1))) DBuffer))
| S_peak s x r n :
    reqs s !! x = Some r -> pc r = Peaking n ->
    step s (set_req (raise_peak s n) x (goto r Reading))
(* A refusal before a node was chosen: the body did not read, no tenant, a
   disabled agent, no upstream. *)
| S_refuse s x r :
    reqs s !! x = Some r -> pc r = Reading -> step s (set_req s x (goto r Returning))
(* A node was chosen; its tier label is never empty. *)
| S_tier s x r tier :
    reqs s !! x = Some r -> pc r = Reading -> tier <> "" ->
    step s (set_req (add_tier s tier 1) x (goto (join_tier r tier) Waiting))
(* The select: a free slot of the semaphore, or the end of the context. *)
| S_acquire s x r :
    reqs s !! x = Some r -> pc r = Waiting -> semUsed s < MaxConcurrency d ->
    step s (set_req (add_sem s 1) x (goto r Acquired))
| S_cancel s x r :
    reqs s !! x = Some r -> pc r = Waiting -> step s (set_req s x (goto r Cancelled))
(* dequeue, called on acquiring and on cancellation. *)
| S_dequeue s x r :
    reqs s !! x = Some r -> pc r = Acquired -> dequeued r = false ->
    step s (set_req (add_queue s (-1)) x (push (goto (mark_dequeued r) (tier_next r ThenRunning)) DSem))
| S_dequeue_cancel s x r :
    reqs s !! x = Some r -> pc r = Cancelled -> dequeued r = false ->
    step s (set_req (add_queue s (-1)) x (goto (mark_dequeued r) (tier_next r ThenReturning)))
| S_tier_out s x r k :
    reqs s !! x = Some r -> pc r = Dequeuing k ->
    step s (set_req (add_tier s (tierLabel r) (-1)) x (goto r (after k)))
(* The fair-share refusal. *)
| S_fair s x r :
    reqs s !! x = Some r -> pc r = Running -> step s (set_req s x (goto r Returning))
| S_inflight s x r :
    reqs s !! x = Some r -> pc r = Running ->
    step s (set_req (add_inflight s 1) x (push (goto r Serving) DInflight))
(* Any return from the relay, a panic included. *)
| S_done s x r :
    reqs s !! x = Some r -> pc r = Serving -> step s (set_req s x (goto r Returning))
(* The deferred calls, last first. *)
| S_defer_inflight s x r ds :
    reqs s !! x = Some r -> pc r = Returning -> defers r = DInflight :: ds ->
    step s (set_req (add_inflight s (-1)) x (pop r))
| S_defer_sem s x r ds :
    reqs s !! x = Some r -> pc r = Returning -> defers r = DSem :: ds ->
    step s (set_req (add_sem s (-1)) x (pop r))
| S_defer_buffer s x r ds :
    reqs s !! x = Some r -> pc r = Returning -> defers r = DBuffer :: ds ->
    step s (set_req (add_buffer s (-1)) x (pop r))
| S_defer_dequeue s x r ds :
    reqs s !! x = Some r -> pc r = Returning -> defers r = DDequeue :: ds -> dequeued r = false ->
    step s (set_req (add_queue s (-1)) x (goto (mark_dequeued (pop r)) (tier_next r ThenReturning)))
| S_defer_dequeued s x r ds :
    reqs s !! x = Some r -> pc r = Returning -> defers r = DDequeue :: ds -> dequeued r = true ->
    step s (set_req s x (pop r))
| S_exit s x r :
    reqs s !! x = Some r -> pc r = Returning -> defers r = [] -> step s (drop_req s x).

Definition init : state :=
  {| queueDepth := 0; buffering := 0; bufferingPeak := 0; semUsed := 0; inflight := 0;
     queueDepthByTier := ∅; reqs := ∅ |}.

Inductive reachable : state -> Prop :=
| R_init : reachable init
| R_step s s' : reachable s -> step s s' -> reachable s'.

End steps.

(** ** Counting over the requests in progress *)

Definition tally (f : req -> Z) (m : gmap nat req) : Z := map_fold (fun _ r acc => f r + acc) 0 m.

Lemma tally_fresh f x r m : m !! x = None -> tally f (<[x := r]> m) = f r + tally f m.
Proof. intros H. unfold tally. rewrite map_fold_insert_L; [done|intros; lia|done]. Qed.

Lemma tally_delete f x r m : m !! x = Some r -> tally f (delete x m) = tally f m - f r.
Proof.
  intros H. rewrite <- (insert_delete_id m x r H) at 2. rewrite tally_fresh; [lia|]. apply lookup_delete_eq.
Qed.

Lemma tally_set f x r r' m : m !! x = Some r -> tally f (<[x := r']> m) = tally f m - f r + f r'.
Proof.
  intros H. rewrite <- insert_delete_eq, tally_fresh by apply lookup_delete_eq.
  rewrite (tally_delete f x r m H). lia.
Qed.

Lemma tally_nonneg f m : (forall r, 0 <= f r) -> 0 <= tally f m.
Proof.
  intros Hf. induction m as [|x r m Hx IH] using map_ind; [done|]. rewrite tally_fresh by done.
  specialize (Hf r). lia.
Qed.

Lemma tally_ge f m x r : (forall r, 0 <= f r) -> m !! x = Some r -> f r <= tally f m.
Proof.
  intros Hf H. pose proof (tally_delete f x r m H). pose proof (tally_nonneg f (delete x m) Hf). lia.
Qed.

Lemma tally_le f g m : (forall x r, m !! x = Some r -> f r <= g r) -> tally f m <= tally g m.
Proof.
  induction m as [|x r m Hx IH] using map_ind; [done|]. intros H. rewrite !tally_fresh by done.
  pose proof (H x r ltac:(by rewrite lookup_insert_eq)).
  enough (tally f m <= tally g m) by lia. apply IH. intros y r' Hy. apply (H y).
  rewrite lookup_insert_ne; [done|]. by intros ->; rewrite Hx in Hy.
Qed.

Lemma tally_add f g m : tally (fun r => f r + g r) m = tally f m + tally g m.
Proof.
  induction m as [|x r m Hx IH] using map_ind; [done|]. rewrite !tally_fresh by done. lia.
Qed.

(** ** What a request holds *)

Definition b2z (b : bool) : Z := if b then 1 else 0.

Definition has (c : cleanup) (r : req) : bool := existsb (cleanup_eqb c) (defers r).

Definition slot (r : req) : Z := b2z (negb (dequeued r)).
Definition buf (r : req) : Z := b2z (has DBuffer r).
Definition sem (r : req) : Z :=
  b2z (has DSem r || match pc r with Acquired => true | _ => false end).
Definition infl (r : req) : Z := b2z (has DInflight r).

Definition in_tier (t : string) (r : req) : Z :=
  b2z (String.eqb (tierLabel r) t &&
       match pc r with Waiting | Acquired | Cancelled | Dequeuing _ => true | _ => false end).

Section inv.
Context (d : Defaults).

(** A slot held past the queue gate. *)
Definition gated (r : req) : Z :=
  b2z (negb (dequeued r) &&
       match pc r with Counted n => n <=? MaxQueueDepth d | _ => has DBuffer r end).

(** A body still held after both the slot and the semaphore were given back. *)
Definition trailing (r : req) : Z := b2z (has DBuffer r && dequeued r && negb (has DSem r)).

(** The shapes a request takes. *)
Definition req_ok (r : req) : Prop :=
  match pc r with
  | Counted _ => dequeued r = false /\ tierLabel r = "" /\ defers r = [DDequeue]
  | Peaking _ | Reading => dequeued r = false /\ tierLabel r = "" /\ defers r = [DBuffer; DDequeue]
  | Waiting | Acquired | Cancelled =>
      dequeued r = false /\ tierLabel r <> "" /\ defers r = [DBuffer; DDequeue]
  | Dequeuing ThenRunning => dequeued r = true /\ tierLabel r <> "" /\ defers r = [DSem; DBuffer; DDequeue]
  | Dequeuing ThenReturning => dequeued r = true /\ tierLabel r <> "" /\ defers r = [DBuffer; DDequeue]
  | Running => dequeued r = true /\ defers r = [DSem; DBuffer; DDequeue]
  | Serving => dequeued r = true /\ defers r = [DInflight; DSem; DBuffer; DDequeue]
  | Returning =>
      if dequeued r then
        defers r = [DInflight; DSem; DBuffer; DDequeue] \/ defers r = [DSem; DBuffer; DDequeue] \/
        defers r = [DBuffer; DDequeue] \/ defers r = [DDequeue] \/ defers r = []
      else tierLabel r = "" /\ (defers r = [DBuffer; DDequeue] \/ defers r = [DDequeue])
  end.

Record inv (s : state) : Prop := {
  i_ok : forall x r, reqs s !! x = Some r -> req_ok r;
  i_queue : queueDepth s = tally slot (reqs s);
  i_buffer : buffering s = tally buf (reqs s);
  i_sem : semUsed s = tally sem (reqs s);
  i_inflight : inflight s = tally infl (reqs s);
  i_tier : forall t, t <> "" -> tier_depth (queueDepthByTier s) t = tally (in_tier t) (reqs s);
  i_cap : semUsed s <= Z.max 0 (MaxConcurrency d);
  i_gate : tally gated (reqs s) <= Z.max 0 (MaxQueueDepth d);
  i_peak : buffering s <= bufferingPeak s \/
    exists x r n, reqs s !! x = Some r /\ pc r = Peaking n /\ buffering s <= n;
}.

(** One request moves from [r] to [r'] and the counters follow. *)
Lemma inv_update s s' x r r' :
  inv s -> reqs s !! x = Some r -> reqs s' = <[x := r']> (reqs s) -> req_ok r' ->
  queueDepth s' = queueDepth s - slot r + slot r' ->
  buffering s' = buffering s - buf r + buf r' ->
  semUsed s' = semUsed s - sem r + sem r' ->
  inflight s' = inflight s - infl r + infl r' ->
  (forall t, t <> "" -> tier_depth (queueDepthByTier s') t =
    tier_depth (queueDepthByTier s) t - in_tier t r + in_tier t r') ->
  (semUsed s' <= semUsed s \/ semUsed s' <= MaxConcurrency d) ->
  gated r' <= gated r ->
  (buffering s' <= bufferingPeak s' \/
   exists y r n, reqs s' !! y = Some r /\ pc r = Peaking n /\ buffering s' <= n) ->
  inv s'.
Proof.
  intros [] Hx Hr Hok Hq Hb Hs Hi Ht Hc Hg Hp.
  split; rewrite ?Hr, ?(tally_set _ _ _ _ _ Hx); try lia.
  - intros y ry. rewrite lookup_insert_Some. intros [[_ <-]|[_ Hy]]; eauto.
  - intros t Hne. rewrite (tally_set _ _ _ _ _ Hx), Ht by done. by rewrite i_tier0.
  - by rewrite Hr in Hp.
Qed.

(** A witness of a raised peak survives a step of another request. *)
Lemma peak_other s x r r' b p :
  inv s -> reqs s !! x = Some r -> (forall n, pc r <> Peaking n) -> b <= buffering s -> p = bufferingPeak s ->
  b <= p \/ exists y ry n, <[x := r']> (reqs s) !! y = Some ry /\ pc ry = Peaking n /\ b <= n.
Proof.
  intros Hinv Hx Hn Hb Hp. destruct (i_peak _ Hinv) as [H|(y & ry & n & Hy & Hpc & Hle)]; [left; lia|].
  right. exists y, ry, n. split; [|split; [done|lia]].
  rewrite lookup_insert_ne; [done|]. intros ->. rewrite Hx in Hy. injection Hy as <-. by destruct (Hn n).
Qed.

Lemma tier_depth_add t t' n m :
  0 <= tier_depth m t + n ->
  tier_depth (addQueueDepthByTier t n m) t' = tier_depth m t' + (if String.eqb t t' then n else 0).
Proof.
  intros H. unfold addQueueDepthByTier. destruct (Z.ltb_spec (tier_depth m t + n) 0); [lia|].
  unfold tier_depth at 1. destruct (String.eqb_spec t t') as [->|Hne].
  - by rewrite lookup_insert_eq.
  - rewrite lookup_insert_ne by done. unfold tier_depth. lia.
Qed.

Lemma in_tier_nonneg t r : 0 <= in_tier t r.
Proof. unfold in_tier, b2z. case_match; lia. Qed.

(** The counters of one request at its points. *)
Ltac holdings :=
  unfold slot, buf, sem, infl, in_tier, gated, has, b2z, tier_next, after in *; simpl in *.

(** One step of a request in progress, whose shape is known. *)
Ltac move_req Hinv Hx :=
  let Hok := fresh "Hok" in
  pose proof (i_ok _ Hinv _ _ Hx) as Hok;
  match type of Hx with reqs _ !! _ = Some ?r => destruct r as [p dq tl df] end;
  unfold req_ok in Hok; simpl in *; subst; simpl in *;
  repeat match goal with k : point' |- _ => destruct k | b : bool |- _ => destruct b end;
  destruct_and?; destruct_or?; try discriminate;
  eapply (inv_update _ _ _ _ _ Hinv Hx); [reflexivity|..].

(** Arrival. *)
Lemma inv_enter s x :
  inv s -> reqs s !! x = None ->
  inv (set_req (add_queue s 1) x
         {| pc := Counted (queueDepth s + 1); dequeued := false; tierLabel := ""; defers := [DDequeue] |}).
Proof.
  intros [] Hx.
  assert (Hle : tally gated (reqs s) <= tally slot (reqs s)).
  { apply tally_le. intros y r _. unfold gated, slot. destruct (dequeued r); simpl; [lia|].
    unfold b2z. repeat case_match; lia. }
  rewrite <- i_queue0 in Hle. split; simpl; rewrite ?tally_fresh by done; holdings; try lia.
  - intros y r. rewrite lookup_insert_Some. intros [[_ <-]|[_ Hy]]; [|eauto]. by unfold req_ok.
  - intros t Ht. rewrite tally_fresh by done. rewrite i_tier0 by done. holdings. rewrite andb_false_r. lia.
  - zbool; lia.
  - destruct i_peak0 as [H|(y & r & n & Hy & Hp & Hn)]; [by left|right].
    exists y, r, n. rewrite lookup_insert_ne; [done|]. intros ->. congruence.
Qed.

(** The end of a request. *)
Lemma inv_exit s x r :
  inv s -> reqs s !! x = Some r -> pc r = Returning -> defers r = [] -> inv (drop_req s x).
Proof.
  intros Hinv Hx Hp Hf. pose proof (i_ok _ Hinv _ _ Hx) as Hok. destruct r as [p dq tl df]. simpl in *. subst.
  unfold req_ok in Hok. simpl in Hok. destruct dq; [|naive_solver]. destruct Hinv.
  split; simpl; rewrite ?(tally_delete _ _ _ _ Hx); holdings; try lia.
  - intros y r. rewrite lookup_delete_Some. intros [_ Hy]. eauto.
  - intros t Ht. rewrite (tally_delete _ _ _ _ Hx), i_tier0 by done. holdings. rewrite andb_false_r. lia.
  - destruct i_peak0 as [H|(y & r & n & Hy & Hp & Hle)]; [by left|right].
    exists y, r, n. rewrite lookup_delete_ne; [done|]. intros ->. rewrite Hx in Hy. by injection Hy as <-.
Qed.

(** [addQueueDepthByTier] with the deltas the handler uses never clamps. *)
Lemma tier_moves s t n :
  inv s -> t <> "" -> (n = 1 \/ n = -1 /\ 1 <= tally (in_tier t) (reqs s)) -> forall t', t' <> "" ->
  tier_depth (addQueueDepthByTier t n (queueDepthByTier s)) t' =
  tier_depth (queueDepthByTier s) t' + (if String.eqb t t' then n else 0).
Proof.
  intros Hinv Ht Hn t' Ht'. apply tier_depth_add. rewrite (i_tier _ Hinv t Ht).
  pose proof (tally_nonneg (in_tier t) (reqs s) (in_tier_nonneg t)). lia.
Qed.

Lemma admission_inv_step s s' : inv s -> step d s s' -> inv s'.
Proof.
  intros Hinv Hst. destruct Hst as
    [s x Hx|s x r n Hx Hp Hn|s x r n Hx Hp Hn|s x r n Hx Hp|s x r Hx Hp|s x r t Hx Hp Ht|s x r Hx Hp Hn|
     s x r Hx Hp|s x r Hx Hp Hd|s x r Hx Hp Hd|s x r k Hx Hp|s x r Hx Hp|s x r Hx Hp|s x r Hx Hp|
     s x r ds Hx Hp Hf|s x r ds Hx Hp Hf|s x r ds Hx Hp Hf|s x r ds Hx Hp Hf Hd|s x r ds Hx Hp Hf Hd|
     s x r Hx Hp Hf].
  1: by apply inv_enter.
  19: by eapply inv_exit.
  all: move_req Hinv Hx; destruct_and?; destruct_or?; simplify_eq; simpl in *.
  all: try (eapply (peak_other _ _ _ _ _ _ Hinv Hx); [done|lia|reflexivity]).
  all: unfold tier_next in *; simpl in *; repeat match goal with
    | H : ?tl <> "" |- context [String.eqb ?tl ""] => rewrite (proj2 (String.eqb_neq tl "") H) end.
  all: try solve [unfold req_ok; simpl; auto 10].
  all: try solve [holdings; zbool; lia].
  all: try solve [intros t0 Ht0; holdings; rewrite ?andb_false_r; lia].
  - right. eexists x, _, _. rewrite lookup_insert_eq. split; [done|]. split; [done|]. simpl. lia.
  - destruct (i_peak _ Hinv) as [H|(y & ry & m & Hy & Hp & Hle)]; [left; zbool; lia|].
    destruct (decide (y = x)) as [->|Hne]; [left; rewrite Hx in Hy; injection Hy as <-; injection Hp as <-; zbool; lia|].
    right. exists y, ry, m. by rewrite lookup_insert_ne.
  - intros t0 Ht0. rewrite (tier_moves s t 1) by auto. holdings. rewrite andb_false_r, andb_true_r.
    destruct (String.eqb t t0); lia.
  - intros t0 Ht0. rewrite (tier_moves s tl (-1)); auto.
    + holdings. rewrite andb_false_r, andb_true_r. destruct (String.eqb tl t0); lia.
    + right. split; [done|]. apply (tally_ge (in_tier tl) _ _ _ (in_tier_nonneg tl)) in Hx.
      revert Hx. unfold in_tier at 1. simpl. rewrite String.eqb_refl. simpl. lia.
  - intros t0 Ht0. rewrite (tier_moves s tl (-1)); auto.
    + holdings. rewrite andb_false_r, andb_true_r. destruct (String.eqb tl t0); lia.
    + right. split; [done|]. apply (tally_ge (in_tier tl) _ _ _ (in_tier_nonneg tl)) in Hx.
      revert Hx. unfold in_tier at 1. simpl. rewrite String.eqb_refl. simpl. lia.
Qed.

Lemma init_inv : inv init.
Proof.
  split; simpl; unfold tally; rewrite ?map_fold_empty; try done; try lia; try (by left).
Qed.

Lemma reachable_inv s : reachable d s -> inv s.
Proof. induction 1 as [|s s' _ IH Hs]; [apply init_inv|by eapply admission_inv_step]. Qed.

End inv.

(** Every counter of the handler is exactly the number of requests that hold
    what it counts, at every interleaving: the queue slots, the buffered bodies,
    the semaphore, the in-flight requests, and each tier's gauge. *)
Theorem counters_exact d s :
  reachable d s ->
  queueDepth s = tally slot (reqs s) /\ buffering s = tally buf (reqs s) /\
  semUsed s = tally sem (reqs s) /\ inflight s = tally infl (reqs s) /\
  (forall t, t <> "" -> tier_depth (queueDepthByTier s) t = tally (in_tier t) (reqs s)) /\
  (reqs s = ∅ -> queueDepth s = 0 /\ buffering s = 0 /\ semUsed s = 0 /\ inflight s = 0).
Proof.
  intros [? Hq Hb Hs Hi ? ? ? ?]%reachable_inv. do 5 (split; [done|]).
  intros He. by rewrite Hq, Hb, Hs, Hi, He.
Qed.

(** C21: The bounds: the semaphore never exceeds max_concurrency, the slots held past
    the queue gate never exceed max_queue_depth, and the bodies in memory never
    exceed their sum plus the requests that have given back both the slot and
    the semaphore but whose deferred buffer release has not run yet. *)
Theorem admission_bounds d s :
  0 <= MaxQueueDepth d -> 0 <= MaxConcurrency d -> reachable d s ->
  semUsed s <= MaxConcurrency d /\ tally (gated d) (reqs s) <= MaxQueueDepth d /\
  buffering s <= MaxQueueDepth d + MaxConcurrency d + tally trailing (reqs s).
Proof.
  intros H1 H2 [Hok Hq Hb Hs Hi Ht Hc Hg Hp]%reachable_inv. split; [lia|]. split; [lia|].
  rewrite Hb. rewrite Hs in Hc.
  assert (tally buf (reqs s) <= tally (fun r => gated d r + (sem r + trailing r)) (reqs s)).
  { apply tally_le. intros x r Hr. specialize (Hok x r Hr). unfold req_ok in Hok.
    unfold buf, gated, sem, trailing, has. destruct r as [p dq tl df]; simpl in *.
    destruct p; try (destruct k); simpl in *; destruct_and?; try (destruct dq); destruct_or?; simplify_eq/=; try lia.
    all: try (unfold b2z; zbool; lia). all: destruct_and?; destruct_or?; simplify_eq/=; lia. }
  rewrite !tally_add in H. lia.
Qed.

(** The high-water mark: once no request is between counting its body and
    raising the peak, the peak covers the current count. *)
Theorem peak_covers d s :
  reachable d s -> (forall x r n, reqs s !! x = Some r -> pc r <> Peaking n) ->
  buffering s <= bufferingPeak s.
Proof.
  intros Hr Hn. destruct (i_peak _ _ (reachable_inv _ _ Hr)) as [?|(x & r & n & Hx & Hp & _)]; [done|].
  by destruct (Hn x r n Hx).
Qed.

(** ** No deadlock *)

(** A step that neither lets a request in nor cancels one. *)
Definition quiet (d : Defaults) (s s' : state) : Prop :=
  step d s s' /\
  (forall x, reqs s !! x = None -> reqs s' !! x = None) /\
  (forall x r, reqs s' !! x = Some r -> pc r = Cancelled -> reqs s !! x = Some r).

(** The steps a request has left. *)
Definition weight (r : req) : Z :=
  match pc r with
  | Counted _ => 20 | Peaking _ => 19 | Reading => 18 | Waiting => 17 | Acquired => 16 | Cancelled => 16
  | Dequeuing ThenRunning => 14 | Running => 12 | Serving => 11 | Dequeuing ThenReturning => 8
  | Returning => Z.of_nat (length (defers r)) + 1
  end.

Lemma weight_pos r : 0 < weight r.
Proof. unfold weight. repeat case_match; lia. Qed.

(** Request [x] moves on. *)
Definition advances (x : nat) (r : req) (s s' : state) : Prop :=
  (exists r', reqs s' = <[x := r']> (reqs s) /\ weight r' < weight r /\ pc r' <> Cancelled) \/
  reqs s' = delete x (reqs s).

(** The request takes step [c] and is closer to its end. *)
Tactic Notation "fire" uconstr(c) :=
  eexists; split; [eapply c; (done || lia)|]; left; eexists; split; [reflexivity|];
  unfold tier_next; simpl;
  repeat match goal with H : ?tl <> "" |- context [String.eqb ?tl ""] => rewrite (proj2 (String.eqb_neq tl "") H) end;
  simpl; split; [lia|done].

Lemma advance d s x r :
  inv d s -> reqs s !! x = Some r -> pc r <> Waiting -> exists s', step d s s' /\ advances x r s s'.
Proof.
  intros Hinv Hx Hw. pose proof (i_ok _ _ Hinv _ _ Hx) as Hok. unfold advances, weight.
  destruct r as [p dq tl df]. unfold req_ok in Hok. simpl in *.
  destruct p as [n|n| | | | | | |k|]; try done; try (destruct_and? Hok; subst).
  - destruct (decide (n <= MaxQueueDepth d)); [fire S_buffer|fire S_full].
  - fire S_peak.
  - fire S_refuse.
  - fire S_dequeue.
  - fire S_inflight.
  - fire S_done.
  - fire S_dequeue_cancel.
  - destruct k; destruct_and? Hok; subst; fire S_tier_out.
  - destruct df as [|[] ds].
    + eexists. split; [by eapply S_exit|]. by right.
    + destruct dq; [fire S_defer_dequeued|]. destruct Hok as [-> _]. fire S_defer_dequeue.
    + fire S_defer_buffer.
    + fire S_defer_sem.
    + fire S_defer_inflight.
Qed.

Lemma advances_quiet d s s' x r :
  reqs s !! x = Some r -> step d s s' -> advances x r s s' ->
  quiet d s s' /\ tally weight (reqs s') < tally weight (reqs s).
Proof.
  intros Hx Hst [(r' & Hr & Hlt & Hc)|Hr].
  - split; [split; [done|]; rewrite Hr; split|rewrite Hr, (tally_set _ _ _ _ _ Hx); lia].
    + intros y Hy. rewrite lookup_insert_ne; [done|]. intros ->. congruence.
    + intros y ry. rewrite lookup_insert_Some. intros [[_ <-]|[_ Hy]]; [by intros ?|done].
  - pose proof (weight_pos r).
    split; [split; [done|]; rewrite Hr; split|rewrite Hr, (tally_delete _ _ _ _ Hx); lia].
    + intros y Hy. by rewrite lookup_delete_None; right.
    + intros y ry. by rewrite lookup_delete_Some; intros [].
Qed.

Definition waiting (r : req) : bool := match pc r with Waiting => true | _ => false end.

(** Some request can always move on without a cancellation: the semaphore is full
    only while a request past it holds it. *)
Lemma quiet_progress d s :
  0 < MaxConcurrency d -> inv d s -> reqs s <> ∅ ->
  exists s', quiet d s s' /\ tally weight (reqs s') < tally weight (reqs s).
Proof.
  intros Hcap Hinv Hne.
  destruct (decide (map_Forall (fun _ r => waiting r = true) (reqs s))) as [Hall|Hsome].
  - destruct (map_choose _ Hne) as (x & r & Hx). pose proof (Hall x r Hx) as Hw. unfold waiting in Hw.
    assert (Hz : semUsed s <= 0).
    { rewrite (i_sem _ _ Hinv). assert (H0 : tally (fun _ => 0) (reqs s) = 0).
      { clear. induction (reqs s) as [|? ? ? H IH] using map_ind; [done|]. by rewrite tally_fresh, IH. }
      rewrite <- H0. apply tally_le. intros y ry Hy. specialize (Hall y ry Hy). unfold waiting in Hall.
      pose proof (i_ok _ _ Hinv _ _ Hy) as Hok. unfold req_ok in Hok. unfold sem, has.
      destruct (pc ry); try done. destruct Hok as (_ & _ & ->). simpl. lia. }
    destruct (pc r) eqn:Hp; try done. eexists. eapply (advances_quiet d s _ x r Hx).
    + eapply S_acquire; [done|done|lia].
    + left. eexists. split; [reflexivity|]. unfold weight. rewrite Hp. simpl. split; [lia|done].
  - apply map_not_Forall in Hsome as (x & r & Hx & Hw); [|apply _].
    destruct (advance d s x r Hinv Hx) as (s' & Hst & Ha); [by intros Hp; apply Hw; unfold waiting; rewrite Hp|].
    exists s'. by eapply advances_quiet.
Qed.

(** C9: No deadlock and no leak: from every reachable state the requests in progress
    can all run to the end, with no cancellation needed and nobody new let in,
    and then every counter is back at zero. *)
Theorem admission_drains d s :
  0 < MaxConcurrency d -> reachable d s ->
  exists s', rtc (quiet d) s s' /\ reqs s' = ∅ /\
    queueDepth s' = 0 /\ buffering s' = 0 /\ semUsed s' = 0 /\ inflight s' = 0.
Proof.
  intros Hcap Hr%reachable_inv.
  remember (Z.to_nat (tally weight (reqs s))) as n eqn:En. revert s Hr En.
  induction n as [n IH] using lt_wf_ind. intros s Hinv ->.
  destruct (decide (reqs s = ∅)) as [He|Hne].
  - exists s. split; [done|]. split; [done|]. destruct Hinv as [_ Hq Hb Hs Hi _ _ _ _].
    by rewrite Hq, Hb, Hs, Hi, He.
  - destruct (quiet_progress d s Hcap Hinv Hne) as (s1 & Hq & Hlt).
    pose proof (tally_nonneg weight (reqs s1) (fun r => Z.lt_le_incl _ _ (weight_pos r))).
    destruct (IH (Z.to_nat (tally weight (reqs s1))) ltac:(lia) s1) as (s' & Hs' & ?);
      [by eapply admission_inv_step; [|apply Hq]|done|].
    exists s'. split; [by eapply rtc_l|done].
Qed.

(** ** Witnesses *)

Definition ex_defaults : Defaults :=
  {| MaxQueueDepth := 1; MaxConcurrency := 1; RequestTimeout := 120 * Second; KeyCooldown := 0;
     MaxBodySize := 1024; BodyReadTimeout := 15 * Second;
     DCircuit := {| CThreshold := 5; CCooldown := 30 * Second |} |}.

(** One more step of an explicit run. *)
Tactic Notation "then_step" hyp(H) uconstr(c) :=
  let K := fresh in
  eassert (K : reachable ex_defaults _)
    by (eapply (R_step _ _ _ H); eapply c; first [reflexivity|discriminate|vm_compute; reflexivity|vm_compute; discriminate]);
  clear H; rename K into H.

(** Requests 0 and 1 pass the semaphore one after the other and request 2
    arrives: with a queue of one and a concurrency of one, three bodies are in
    memory, because request 0 gives its semaphore slot back before its body. *)
Lemma ex_three_bodies :
  exists s, reachable ex_defaults s /\ buffering s = 3 /\ tally trailing (reqs s) = 1 /\ semUsed s = 1.
Proof.
  pose proof (R_init ex_defaults) as H.
  then_step H (S_enter _ _ 0%nat).
  then_step H (S_buffer _ _ 0%nat).
  then_step H (S_peak _ _ 0%nat).
  then_step H (S_tier _ _ 0%nat _ "gpu").
  then_step H (S_acquire _ _ 0%nat).
  then_step H (S_dequeue _ _ 0%nat).
  then_step H (S_tier_out _ _ 0%nat).
  then_step H (S_inflight _ _ 0%nat).
  then_step H (S_done _ _ 0%nat).
  then_step H (S_defer_inflight _ _ 0%nat).
  then_step H (S_defer_sem _ _ 0%nat).
  then_step H (S_enter _ _ 1%nat).
  then_step H (S_buffer _ _ 1%nat).
  then_step H (S_peak _ _ 1%nat).
  then_step H (S_tier _ _ 1%nat _ "gpu").
  then_step H (S_acquire _ _ 1%nat).
  then_step H (S_dequeue _ _ 1%nat).
  then_step H (S_tier_out _ _ 1%nat).
  then_step H (S_enter _ _ 2%nat).
  then_step H (S_buffer _ _ 2%nat).
  eexists. split; [exact H|]. vm_compute. auto.
Qed.

(** The documented ceiling of max_queue_depth + max_concurrency bodies is passed,
    by the body of the request whose deferred release has not run yet. *)
Theorem buffering_exceeds_documented_ceiling :
  exists s, reachable ex_defaults s /\
    MaxQueueDepth ex_defaults + MaxConcurrency ex_defaults < buffering s.
Proof.
  destruct ex_three_bodies as (s & H & Hb & _). exists s. split; [done|]. rewrite Hb. vm_compute. reflexivity.
Qed.

Lemma counters_exact_witness :
  exists s, reachable ex_defaults s /\ buffering s = 3 /\ buffering s = tally buf (reqs s).
Proof.
  destruct ex_three_bodies as (s & H & Hb & _). exists s. split; [exact H|]. split; [exact Hb|].
  exact (proj1 (proj2 (counters_exact ex_defaults s H))).
Defined.

Lemma admission_bounds_witness :
  exists s, reachable ex_defaults s /\ semUsed s = 1 /\
    buffering s <= MaxQueueDepth ex_defaults + MaxConcurrency ex_defaults + tally trailing (reqs s).
Proof.
  destruct ex_three_bodies as (s & H & _ & _ & Hs). exists s. split; [exact H|]. split; [exact Hs|].
  apply (admission_bounds ex_defaults s); [vm_compute; discriminate|vm_compute; discriminate|exact H].
Defined.

Lemma ex_one_body :
  exists s, reachable ex_defaults s /\ buffering s = 1 /\
    forall x r n, reqs s !! x = Some r -> pc r <> Peaking n.
Proof.
  pose proof (R_init ex_defaults) as H.
  then_step H (S_enter _ _ 0%nat). then_step H (S_buffer _ _ 0%nat). then_step H (S_peak _ _ 0%nat).
  eexists. split; [exact H|]. split; [reflexivity|]. intros x r n. simpl.
  destruct (decide (x = 0%nat)) as [->|Hne].
  - rewrite lookup_insert_eq. by intros [= <-].
  - by rewrite !lookup_insert_ne.
Qed.

Lemma peak_covers_witness :
  exists s, reachable ex_defaults s /\ buffering s = 1 /\ 1 <= bufferingPeak s.
Proof.
  destruct ex_one_body as (s & H & Hb & Hn). exists s. split; [exact H|]. split; [exact Hb|].
  rewrite <- Hb. exact (peak_covers ex_defaults s H Hn).
Defined.

Lemma admission_drains_witness :
  exists s s', reachable ex_defaults s /\ buffering s = 3 /\ rtc (quiet ex_defaults) s s' /\ reqs s' = ∅.
Proof.
  destruct ex_three_bodies as (s & H & Hb & _).
  destruct (admission_drains ex_defaults s ltac:(vm_compute; reflexivity) H) as (s' & Hr & He & _).
  exists s, s'. split; [exact H|]. split; [exact Hb|]. split; [exact Hr|exact He].
Defined.

End Admission.
