(* ===== verification/AdmissionSpec.v ===== *)
(** * The admission of the proxy handler against a specification by holdings

    [Admission] follows the code: atomic counters, a semaphore, a gauge per
    tier, the locals of [dequeue] and a stack of deferred calls.  Here is the
    contract those implement, stated with none of them: a request is a
    [ticket] that says what it holds, the two guards of the handler count the
    tickets that hold something, and a request that leaves gives back what it
    holds, one thing at a time and in any order.  Every step of [Admission] is
    one step of this specification, or one of the two bookkeeping steps that
    change no holding, and those cannot go on for ever. *)

From Stdlib Require Import ZArith Lia.
From stdpp Require Import base option list gmap strings.
From S2P Require Import Prelude GoStrings RouterConfig Admission.

Module AdmissionSpec.
Import RouterConfig Admission.

(** ** Forward simulation *)

Section simulation.
Context {C A : Type} (cstep : C -> C -> Prop) (astep : A -> A -> Prop) (abs : C -> A) (good : C -> Prop).
Context (good_step : forall s s', good s -> cstep s s' -> good s').
Context (simulates : forall s s', good s -> cstep s s' -> astep (abs s) (abs s') \/ abs s' = abs s).

(** A run of the implementation is a run of the specification. *)
Lemma simulated_run s s' : good s -> rtc cstep s s' -> rtc astep (abs s) (abs s').
Proof.
  intros Hg Hr. revert Hg. induction Hr as [s|s s1 s' Hs _ IH]; intros Hg; [done|].
  specialize (IH (good_step _ _ Hg Hs)). destruct (simulates _ _ Hg Hs) as [Ha| <-]; [by eapply rtc_l|done].
Qed.

End simulation.

(** ** The specification *)

(** What a request holds: its place while it has not been judged, a slot of the
    queue, its body in memory, a permit, its share of the work in flight and the
    tier it waits in. *)
Record ticket := {
  place : option Z;
  leaving : bool;
  slot : bool;
  body : bool;
  permit : bool;
  work : bool;
  tier : option string;
}.

Abbreviation office := (gmap nat ticket).

(** The requests that hold something. *)
Definition holders (f : ticket -> bool) (m : office) : Z :=
  Z.of_nat (size (filter (fun kv => f kv.2 = true) m)).

(** What may happen to a request that has been let in. *)
Inductive move (d : Defaults) (permits : Z) : ticket -> ticket -> Prop :=
| M_turn_away n :
    MaxQueueDepth d < n ->
    move d permits {| place := Some n; leaving := false; slot := true; body := false; permit := false; work := false; tier := None |}
                   {| place := None; leaving := true; slot := true; body := false; permit := false; work := false; tier := None |}
| M_take_in n :
    n <= MaxQueueDepth d ->
    move d permits {| place := Some n; leaving := false; slot := true; body := false; permit := false; work := false; tier := None |}
                   {| place := None; leaving := false; slot := true; body := true; permit := false; work := false; tier := None |}
| M_line_up t :
    t <> "" ->
    move d permits {| place := None; leaving := false; slot := true; body := true; permit := false; work := false; tier := None |}
                   {| place := None; leaving := false; slot := true; body := true; permit := false; work := false; tier := Some t |}
| M_permit t :
    permits < MaxConcurrency d ->
    move d permits {| place := None; leaving := false; slot := true; body := true; permit := false; work := false; tier := Some t |}
                   {| place := None; leaving := false; slot := true; body := true; permit := true; work := false; tier := Some t |}
| M_leave_queue t :
    move d permits {| place := None; leaving := false; slot := true; body := true; permit := true; work := false; tier := Some t |}
                   {| place := None; leaving := false; slot := false; body := true; permit := true; work := false; tier := Some t |}
| M_leave_tier t :
    move d permits {| place := None; leaving := false; slot := false; body := true; permit := true; work := false; tier := Some t |}
                   {| place := None; leaving := false; slot := false; body := true; permit := true; work := false; tier := None |}
| M_work :
    move d permits {| place := None; leaving := false; slot := false; body := true; permit := true; work := false; tier := None |}
                   {| place := None; leaving := false; slot := false; body := true; permit := true; work := true; tier := None |}
(* Refused before it lined up, gone while it waited, refused its fair share, or served. *)
| M_turn_back s p w t :
    (s = true -> p = false) -> (s = false -> t = None) ->
    move d permits {| place := None; leaving := false; slot := s; body := true; permit := p; work := w; tier := t |}
                   {| place := None; leaving := true; slot := s; body := true; permit := p; work := w; tier := t |}
| M_return_slot b p w t :
    move d permits {| place := None; leaving := true; slot := true; body := b; permit := p; work := w; tier := t |}
                   {| place := None; leaving := true; slot := false; body := b; permit := p; work := w; tier := t |}
| M_return_body s p w t :
    move d permits {| place := None; leaving := true; slot := s; body := true; permit := p; work := w; tier := t |}
                   {| place := None; leaving := true; slot := s; body := false; permit := p; work := w; tier := t |}
| M_return_permit s b t :
    move d permits {| place := None; leaving := true; slot := s; body := b; permit := true; work := false; tier := t |}
                   {| place := None; leaving := true; slot := s; body := b; permit := false; work := false; tier := t |}
| M_return_work s b p t :
    move d permits {| place := None; leaving := true; slot := s; body := b; permit := p; work := true; tier := t |}
                   {| place := None; leaving := true; slot := s; body := b; permit := p; work := false; tier := t |}
| M_return_tier s b p w t :
    move d permits {| place := None; leaving := true; slot := s; body := b; permit := p; work := w; tier := Some t |}
                   {| place := None; leaving := true; slot := s; body := b; permit := p; work := w; tier := None |}.

(** The ticket of a request that has just come, and of one that is through. *)
Definition arrival (n : Z) : ticket :=
  {| place := Some n; leaving := false; slot := true; body := false; permit := false; work := false; tier := None |}.

Definition through : ticket :=
  {| place := None; leaving := true; slot := false; body := false; permit := false; work := false; tier := None |}.

Inductive astep (d : Defaults) : office -> office -> Prop :=
| A_arrive m x : m !! x = None -> astep d m (<[x := arrival (holders slot m + 1)]> m)
| A_move m x t t' : m !! x = Some t -> move d (holders permit m) t t' -> astep d m (<[x := t']> m)
| A_gone m x : m !! x = Some through -> astep d m (delete x m).

(** ** The ticket of a request of the code *)

Definition ticket_of (r : req) : ticket :=
  {| place := match pc r with Counted n => Some n | _ => None end;
     leaving := match pc r with Cancelled | Dequeuing ThenReturning | Returning => true | _ => false end;
     slot := negb (dequeued r);
     body := has DBuffer r;
     permit := has DSem r || match pc r with Acquired => true | _ => false end;
     work := has DInflight r;
     tier := match pc r with Waiting | Acquired | Cancelled | Dequeuing _ => Some (tierLabel r) | _ => None end |}.

Definition office_of (s : state) : office := ticket_of <$> reqs s.

(** Counting tickets is what the tallies of [Admission] do. *)
Lemma holders_tally f g (m : gmap nat req) :
  (forall r, g r = b2z (f (ticket_of r))) -> holders f (ticket_of <$> m) = tally g m.
Proof.
  intros Hg. unfold holders. induction m as [|x r m Hx IH] using map_ind; [done|].
  rewrite fmap_insert, tally_fresh, Hg by done. destruct (f (ticket_of r)) eqn:E.
  - rewrite map_filter_insert_True by done. rewrite map_size_insert_None; [simpl; lia|].
    apply map_lookup_filter_None. left. by rewrite lookup_fmap, Hx.
  - rewrite map_filter_insert_False by (cbn [snd]; congruence). rewrite delete_id by (by rewrite lookup_fmap, Hx).
    rewrite IH. simpl. lia.
Qed.

Lemma holders_slot s : holders slot (office_of s) = tally Admission.slot (reqs s).
Proof. by apply holders_tally. Qed.

Lemma holders_permit s : holders permit (office_of s) = tally Admission.sem (reqs s).
Proof. by apply holders_tally. Qed.

(** A request that makes a move of the specification. *)
Lemma simulate_move d s s' x r r' :
  inv d s -> reqs s !! x = Some r -> reqs s' = <[x := r']> (reqs s) ->
  move d (semUsed s) (ticket_of r) (ticket_of r') -> astep d (office_of s) (office_of s').
Proof.
  intros Hi Hx Hr Hm. unfold office_of at 2. rewrite Hr, fmap_insert. eapply (A_move d (office_of s)).
  - unfold office_of. by rewrite lookup_fmap, Hx.
  - by rewrite holders_permit, <- (i_sem _ _ Hi).
Qed.

(** A request whose holdings stay the same. *)
Lemma simulate_stutter s s' x r r' :
  reqs s !! x = Some r -> reqs s' = <[x := r']> (reqs s) -> ticket_of r' = ticket_of r -> weight r' < weight r ->
  office_of s' = office_of s /\ tally weight (reqs s') < tally weight (reqs s).
Proof.
  intros Hx Hr Ht Hw. rewrite Hr, (tally_set _ _ _ _ _ Hx). split; [|lia].
  unfold office_of. rewrite Hr, fmap_insert, Ht. apply insert_id. by rewrite lookup_fmap, Hx.
Qed.

(** The shape of the request that steps, from the invariant. *)
Ltac shape Hi Hx :=
  let Hok := fresh "Hok" in
  pose proof (i_ok _ _ Hi _ _ Hx) as Hok;
  match type of Hx with reqs _ !! _ = Some ?r => destruct r as [p dq tl df] end;
  unfold req_ok in Hok; simpl in *; subst; simpl in *;
  repeat match goal with k : point' |- _ => destruct k | b : bool |- _ => destruct b end;
  destruct_and?; destruct_or?; destruct_and?; destruct_or?; simplify_eq/=.

Lemma step_simulated d s s' :
  inv d s -> step d s s' ->
  astep d (office_of s) (office_of s') \/
  (office_of s' = office_of s /\ tally weight (reqs s') < tally weight (reqs s)).
Proof.
  intros Hi Hst. destruct Hst as
    [s x Hx|s x r n Hx Hp Hn|s x r n Hx Hp Hn|s x r n Hx Hp|s x r Hx Hp|s x r t Hx Hp Ht|s x r Hx Hp Hn|
     s x r Hx Hp|s x r Hx Hp Hd|s x r Hx Hp Hd|s x r k Hx Hp|s x r Hx Hp|s x r Hx Hp|s x r Hx Hp|
     s x r ds Hx Hp Hf|s x r ds Hx Hp Hf|s x r ds Hx Hp Hf|s x r ds Hx Hp Hf Hd|s x r ds Hx Hp Hf Hd|
     s x r Hx Hp Hf].
  1: { left. unfold office_of at 2. simpl. rewrite fmap_insert. rewrite (i_queue _ _ Hi), <- holders_slot.
       apply (A_arrive d (office_of s) x). unfold office_of. by rewrite lookup_fmap, Hx. }
  19: { left. unfold office_of at 2. simpl. rewrite fmap_delete. apply A_gone. unfold office_of. rewrite lookup_fmap, Hx.
        shape Hi Hx. done. }
  all: shape Hi Hx.
  all: try (right; eapply simulate_stutter; [exact Hx|reflexivity|reflexivity|vm_compute; reflexivity]).
  all: left; eapply simulate_move; [exact Hi|exact Hx|reflexivity|].
  all: unfold ticket_of, tier_next, has; simpl; repeat match goal with
    | H : ?tl <> "" |- context [String.eqb ?tl ""] => rewrite (proj2 (String.eqb_neq tl "") H) end; simpl.
  all: by constructor.
Qed.

(** ** The refinement *)

(** C11: The handler implements the specification: in every state its requests can
    reach, the tickets are those of a run of the specification from an empty
    office, every further step is a step of the specification or one of
    bookkeeping that changes no ticket and brings its request nearer its end,
    and the counters the handler reads in its two guards are the counts the
    specification makes. *)
Theorem admission_refines_tickets d s :
  reachable d s ->
  rtc (astep d) ∅ (office_of s) /\
  queueDepth s = holders slot (office_of s) /\ semUsed s = holders permit (office_of s) /\
  forall s', step d s s' ->
    astep d (office_of s) (office_of s') \/
    (office_of s' = office_of s /\ tally weight (reqs s') < tally weight (reqs s)).
Proof.
  intros Hr. pose proof (reachable_inv _ _ Hr) as Hi.
  split; [|by rewrite holders_slot, holders_permit, (i_queue _ _ Hi), (i_sem _ _ Hi); split_and!; auto using step_simulated].
  assert (Hrun : rtc (step d) init s) by (clear Hi; induction Hr; [done|by eapply rtc_r]).
  eapply (simulated_run (step d) (astep d) office_of (inv d)) in Hrun; [exact Hrun| | |apply init_inv].
  - intros. by eapply admission_inv_step.
  - intros s1 s2 H1 H2. destruct (step_simulated _ _ _ H1 H2) as [?|[? _]]; auto.
Qed.

(** Three bodies are in memory, one of them of a request that holds nothing else. *)
Lemma admission_refines_tickets_witness :
  exists s, reachable ex_defaults s /\ rtc (astep ex_defaults) ∅ (office_of s) /\
    buffering s = 3 /\ holders permit (office_of s) = 1.
Proof.
  destruct ex_three_bodies as (s & H & Hb & _ & Hs). exists s. split; [exact H|].
  destruct (admission_refines_tickets ex_defaults s H) as (Hr & _ & Hp & _).
  split; [exact Hr|]. split; [exact Hb|]. rewrite <- Hp. exact Hs.
Defined.

End AdmissionSpec.
