(* ===== verification/Health.v ===== *)
(** * Health probing

    Models [src/internal/health/probe.go], and of [src/main.go] [runHealthPass],
    [probeNode], [probeAuthKey] and the node table of [handleHealth].  The
    goroutines of a pass touch one node each, so a pass is a map over the nodes;
    [probes] is what the network answers to a probe request. *)

From Stdlib Require Import ZArith Lia Ascii String.
From stdpp Require Import base option list gmap strings.
From S2P Require Import Prelude GoStrings Headers Circuit KeyPool RouterConfig Selection Failover FailoverSpec.

Module Health.
Import GoStrings Headers RouterConfig Selection.
#[local] Existing Instance Circuit.State_eq_dec.

(** ** Probe requests *)

Record probeRequest := { PURL : url; PHeader : Header }.

(** The status of the answer, or none when the request cannot be built or sent. *)
Definition prober : Type := probeRequest -> option Z.

Definition ProbePaths (primary : string) : list string :=
  primary :: (if negb (primary =s "/v1/models") then ["/v1/models"] else []).

Definition probe_target (base : url) (path : string) : url :=
  {| UScheme := UScheme base; UHost := UHost base;
     UPath := trim_right_char "/"%char (UPath base) ++ path; URawQuery := URawQuery base |}.

Definition ProbeNodePathAuth (net : prober) (base : url) (path authHeader authValue : string) : bool * Z :=
  let h : Header :=
    if negb (authHeader =s "") && negb (authValue =s "") then Set_ ∅ authHeader authValue else ∅ in
  match net {| PURL := probe_target base path; PHeader := h |} with
  | None => (false, 0)
  | Some status => ((200 <=? status) && (status <? 300), status)
  end.

Definition ProbeNodePath (net : prober) (base : url) (path : string) : bool * Z :=
  ProbeNodePathAuth net base path "" "".

Fixpoint probe_loop (net : prober) (base : url) (authHeader authValue : string) (paths : list string) : bool :=
  match paths with
  | [] => false
  | path :: paths' =>
      let '(ok, status) := ProbeNodePathAuth net base path authHeader authValue in
      if ok then true
      else if negb (status =? 404) then false
      else probe_loop net base authHeader authValue paths'
  end.

Definition ProbeNodeAuth (net : prober) (healthPath : string) (base : url) (authHeader authValue : string) : bool :=
  probe_loop net base authHeader authValue (ProbePaths healthPath).

Definition ProbeNode (net : prober) (healthPath : string) (base : url) : bool :=
  ProbeNodeAuth net healthPath base "" "".

(** The single key, else the first non-empty key of the pool; the pool's cursor
    is not touched. *)
Definition probeAuthKey (n : upstreamNode) : string :=
  if negb (APIKey (cfg n) =s "") then APIKey (cfg n)
  else default "" (snd <$> list_find (fun k => k <> "") (APIKeys (cfg n))).

Definition probeNode (net : prober) (hc : HealthConfig) (n : upstreamNode) : bool :=
  if negb (AuthHeader (cfg n) =s "")
  then ProbeNodeAuth net (HPath hc) (baseURL n) (AuthHeader (cfg n)) (probeAuthKey n)
  else ProbeNode net (HPath hc) (baseURL n).

(** ** The health pass *)

(** What the goroutine of a node does with the outcome of its probe. *)
Definition record_probe (hc : HealthConfig) (pass : bool) (n : upstreamNode) : upstreamNode :=
  if pass then
    let passes := i64_add (consecutivePass n) 1 in
    set_health n (if HealthyThreshold hc <=? passes then true else healthy n) passes 0
  else
    let fails := i64_add (consecutiveFail n) 1 in
    set_health n (if UnhealthyThreshold hc <=? fails then false else healthy n) 0 fails.

Definition health_node (net : upstreamNode -> prober) (hc : HealthConfig) (n : upstreamNode) : upstreamNode :=
  if HealthCheckDisabled (cfg n) then n else record_probe hc (probeNode (net n) hc n) n.

Definition runHealthPass (net : upstreamNode -> prober) (hc : HealthConfig) (ns : list upstreamNode)
  : list upstreamNode := health_node net hc <$> ns.

(** ** The health endpoint *)

(** The flag of each node as [handleHealth] reports it. *)
Definition reported (net : upstreamNode -> prober) (hc : HealthConfig) (live : bool) (n : upstreamNode) : bool :=
  if live && negb (HealthCheckDisabled (cfg n)) then probeNode (net n) hc n else healthy n.

Record healthReport := { ok : bool; healthy_nodes : Z; total_nodes : Z; flags : list bool; live_probe : bool;
                         live_probe_throttled : bool }.

(** [allowed] is the answer of [forcedProbeAllowed], asked only for [?live=1]. *)
Definition handleHealth (net : upstreamNode -> prober) (hc : HealthConfig) (wants_live allowed : bool)
    (ns : list upstreamNode) : healthReport :=
  let throttled := wants_live && negb allowed in
  let live := wants_live && allowed in
  let fl := reported net hc live <$> ns in
  let h := Z.of_nat (length (filter (fun b => b = true) fl)) in
  {| ok := 0 <? h; healthy_nodes := h; total_nodes := Z.of_nat (length ns); flags := fl;
     live_probe := live; live_probe_throttled := throttled |}.

(** ** Readiness *)

Inductive readiness :=
| Ready_
| NoHealthyUpstream
| QueueOverCeiling (cur ceiling : Z)
| BreakerOpen (node : string).

Definition breaker_open (n : upstreamNode) : bool :=
  match breaker n with Some b => bool_decide (Circuit.state b = Circuit.Open) | None => false end.

Definition Ready (d : Defaults) (queueDepth : Z) (ns : list upstreamNode) : readiness :=
  if Nat.eqb (length (filter (fun n => healthy n = true) ns)) 0 then NoHealthyUpstream
  else if MaxQueueDepth d <? queueDepth then QueueOverCeiling queueDepth (MaxQueueDepth d)
  else
    match list_find (fun n => breaker_open n = true) ns with
    | Some (_, n) => BreakerOpen (Name (cfg n))
    | None => Ready_
    end.

Definition handleReadyz (r : readiness) : Z := match r with Ready_ => 200 | _ => 503 end.

(** ** Histories

    A node sees the outcomes of its probes and, from the proxy, the fast eject
    of a transport error. *)

Inductive event := Probe (pass : bool) | Eject.

Definition apply_event (hc : HealthConfig) (n : upstreamNode) (e : event) : upstreamNode :=
  match e with
  | Probe pass => record_probe hc pass n
  | Eject => Failover.eject n
  end.

Definition run (hc : HealthConfig) (n : upstreamNode) (es : list event) : upstreamNode :=
  foldl (apply_event hc) n es.

(** The specification of the two counters: the probes of one outcome since the
    last of the other, whatever the proxy does in between. *)
Fixpoint streak (pass : bool) (acc : Z) (es : list event) : Z :=
  match es with
  | [] => acc
  | Probe b :: es' => streak pass (if Bool.eqb b pass then acc + 1 else 0) es'
  | Eject :: es' => streak pass acc es'
  end.

Lemma eject_fields n :
  consecutivePass (Failover.eject n) = consecutivePass n /\
  consecutiveFail (Failover.eject n) = consecutiveFail n /\ cfg (Failover.eject n) = cfg n.
Proof. unfold Failover.eject. by case_match. Qed.

Lemma run_snoc hc n es e : run hc n (es ++ [e]) = apply_event hc (run hc n es) e.
Proof. unfold run. by rewrite foldl_app. Qed.

Lemma streak_snoc pass acc es b :
  streak pass acc (es ++ [Probe b]) = if Bool.eqb b pass then streak pass acc es + 1 else 0.
Proof. revert acc. induction es as [|[b'|] es IH]; intros acc; simpl; [done|apply IH|apply IH]. Qed.

Lemma streak_bound pass acc es : 0 <= acc -> 0 <= streak pass acc es <= acc + Z.of_nat (length es).
Proof.
  revert acc. induction es as [|[b|] es IH]; intros acc Ha; simpl; [lia| |].
  - destruct (Bool.eqb b pass); [specialize (IH (acc + 1))|specialize (IH 0)]; lia.
  - specialize (IH acc). lia.
Qed.

(** The counters of a node are the streaks of its history. *)
Lemma run_counters hc n es :
  0 <= consecutivePass n -> 0 <= consecutiveFail n ->
  consecutivePass n + Z.of_nat (length es) <= max_int64 ->
  consecutiveFail n + Z.of_nat (length es) <= max_int64 ->
  consecutivePass (run hc n es) = streak true (consecutivePass n) es /\
  consecutiveFail (run hc n es) = streak false (consecutiveFail n) es.
Proof.
  revert n. induction es as [|e es IH]; intros n Hp Hf Hlp Hlf; [done|]. simpl in *.
  assert (Hadd : forall z, 0 <= z -> z + Z.of_nat (S (length es)) <= max_int64 -> i64_add z 1 = z + 1).
  { intros z Hz Hl. apply i64_add_small. unfold in_int64, min_int64. lia. }
  destruct e as [b|].
  - unfold record_probe. destruct b; simpl.
    + rewrite Hadd by lia. apply IH; simpl; lia.
    + rewrite Hadd by lia. apply IH; simpl; lia.
  - destruct (eject_fields n) as (H1 & H2 & _). rewrite <- H1, <- H2. apply IH; rewrite ?H1, ?H2; lia.
Qed.

(** The bound under which the counters do not wrap. *)
Definition short (n : upstreamNode) (es : list event) : Prop :=
  consecutivePass n = 0 /\ consecutiveFail n = 0 /\ Z.of_nat (length es) < max_int64.

(** C30: The flag after a probe is decided by the streaks of the history alone: a pass
    restores the node once the last [HealthyThreshold] probes passed, a failure
    removes it once the last [UnhealthyThreshold] probes failed, and otherwise
    the flag stays.  Ejections by the proxy between the probes do not reset
    either streak. *)
Theorem health_flag_exact hc n es pass :
  short n (es ++ [Probe pass]) ->
  healthy (run hc n (es ++ [Probe pass])) =
  if pass then (HealthyThreshold hc <=? streak true 0 (es ++ [Probe true])) || healthy (run hc n es)
  else negb (UnhealthyThreshold hc <=? streak false 0 (es ++ [Probe false])) && healthy (run hc n es).
Proof.
  intros (Hp & Hf & Hl). rewrite length_app in Hl. simpl in Hl.
  destruct (run_counters hc n es) as [Hcp Hcf]; [lia..|]. rewrite Hp in Hcp. rewrite Hf in Hcf.
  pose proof (streak_bound true 0 es ltac:(lia)). pose proof (streak_bound false 0 es ltac:(lia)).
  rewrite run_snoc, !streak_snoc. unfold apply_event, record_probe. rewrite Hcp, Hcf.
  rewrite !i64_add_small by (unfold in_int64, min_int64; lia).
  destruct pass; simpl; case_match; simpl; try done; by rewrite ?orb_true_r.
Qed.

Lemma streak_replicate pass acc es k :
  Z.of_nat k <= streak pass acc (es ++ replicate k (Probe pass)) \/ acc < 0 \/ (k = 0)%nat.
Proof.
  destruct (decide (0 <= acc)) as [Ha|]; [|lia]. left. induction k as [|k IH].
  - pose proof (streak_bound pass acc (es ++ replicate 0 (Probe pass)) Ha). lia.
  - rewrite replicate_S_end, app_assoc, streak_snoc, eqb_reflx. lia.
Qed.

(** Self-healing: whatever happened before, probes included, a node is back in
    rotation after [HealthyThreshold] passing probes in a row. *)
Theorem node_recovers hc n es k :
  short n (es ++ replicate k (Probe true)) -> HealthyThreshold hc <= Z.of_nat k -> (0 < k)%nat ->
  healthy (run hc n (es ++ replicate k (Probe true))) = true.
Proof.
  intros (Hp & Hf & Hl) Hk Hpos. destruct k as [|k]; [lia|].
  destruct (streak_replicate true 0 es (S k)) as [Hs|[?|?]]; [|lia|lia].
  rewrite replicate_S_end, app_assoc in *.
  destruct (run_counters hc n (es ++ replicate k (Probe true))) as [Hcp _];
    [rewrite length_app in Hl; simpl in Hl; lia..|].
  rewrite streak_snoc in Hs. simpl in Hs. rewrite Hp in Hcp.
  pose proof (streak_bound true 0 (es ++ replicate k (Probe true)) ltac:(lia)).
  rewrite length_app in Hl. simpl in Hl.
  rewrite run_snoc. simpl. rewrite Hcp, i64_add_small by (unfold in_int64, min_int64; lia).
  by rewrite (proj2 (Z.leb_le _ _)) by lia.
Qed.

(** A pass leaves the breaker, the keys and the configuration of every node
    alone, so it is a lawful neighbour of the failover loop, and it does not
    touch a node whose probing is disabled. *)
Theorem health_pass_lawful net hc ns :
  FailoverSpec.kept ns (runHealthPass net hc ns) /\
  (breaker <$> runHealthPass net hc ns) = (breaker <$> ns) /\
  forall i n, ns !! i = Some n -> HealthCheckDisabled (cfg n) = true -> runHealthPass net hc ns !! i = Some n.
Proof.
  assert (Hn : forall n, cfg (health_node net hc n) = cfg n /\ keys (health_node net hc n) = keys n /\
                         breaker (health_node net hc n) = breaker n).
  { intros n. unfold health_node, record_probe. by repeat case_match. }
  unfold runHealthPass. split; [split|split].
  - unfold cfgs. rewrite <- list_fmap_compose. apply list_fmap_ext. intros _ n _. apply Hn.
  - intros Hk. apply Forall_fmap. eapply Forall_impl; [exact Hk|]. intros n H p. simpl.
    destruct (Hn n) as (-> & -> & _). apply H.
  - rewrite <- list_fmap_compose. apply list_fmap_ext. intros _ n _. apply Hn.
  - intros i n Hi Hd. rewrite list_lookup_fmap, Hi. simpl. unfold health_node. by rewrite Hd.
Qed.

Definition answers_2xx (net : prober) (n : upstreamNode) (path auth key : string) : Prop :=
  (ProbeNodePathAuth net (baseURL n) path auth key).1 = true.

(** A probe passes exactly when the health path answers 2xx, or answers 404 and
    the model list answers 2xx; a node with an auth header is asked with its own
    key in that header, any other node anonymously. *)
Theorem probe_decides net hc n :
  let auth := AuthHeader (cfg n) in
  let key := if auth =s "" then "" else probeAuthKey n in
  probeNode net hc n = true <->
  answers_2xx net n (HPath hc) auth key \/
  (HPath hc <> "/v1/models" /\ (ProbeNodePathAuth net (baseURL n) (HPath hc) auth key).2 = 404 /\
   answers_2xx net n "/v1/models" auth key).
Proof.
  cbv zeta. unfold probeNode, ProbeNode, ProbeNodeAuth, ProbePaths, answers_2xx.
  destruct (String.eqb_spec (AuthHeader (cfg n)) "") as [He|He]; [rewrite He|]; simpl probe_loop; cbn [negb].
  all: match goal with |- context [ProbeNodePathAuth ?f ?b ?p ?a ?k] =>
         destruct (ProbeNodePathAuth f b p a k) as [ok1 st1] eqn:E1 end.
  all: cbn [fst snd]; destruct ok1; [naive_solver|]; destruct (Z.eqb_spec st1 404); cbn [negb]; [|naive_solver].
  all: destruct (String.eqb_spec (HPath hc) "/v1/models"); cbn [negb probe_loop]; [naive_solver|].
  all: match goal with |- context [ProbeNodePathAuth ?f ?b "/v1/models" ?a ?k] =>
         destruct (ProbeNodePathAuth f b "/v1/models" a k) as [ok2 st2] eqn:E2 end.
  all: cbn [fst snd]; destruct ok2; [naive_solver|]; destruct (negb _); naive_solver.
Qed.

(** The readiness contract: 200 exactly when some upstream is healthy, the queue is
    at or below its ceiling and no breaker is open. *)
Theorem ready_exact d queueDepth ns :
  handleReadyz (Ready d queueDepth ns) = 200 <->
  (exists n, n ∈ ns /\ healthy n = true) /\ queueDepth <= MaxQueueDepth d /\
  forall n b, n ∈ ns -> breaker n = Some b -> Circuit.state b <> Circuit.Open.
Proof.
  unfold Ready. destruct (Nat.eqb_spec (length (filter (fun n => healthy n = true) ns)) 0) as [E|E].
  { simpl. split; [done|]. intros [(n & Hin & Hh) _]. apply length_zero_iff_nil in E.
    assert (n ∈ filter (fun n => healthy n = true) ns) by (by apply list_elem_of_filter). rewrite E in H. set_solver. }
  assert (Hex : exists n, n ∈ ns /\ healthy n = true).
  { destruct (filter (fun n => healthy n = true) ns) as [|n l] eqn:El; [done|]. exists n.
    assert (Hin : n ∈ filter (fun n => healthy n = true) ns) by (rewrite El; set_solver).
    apply list_elem_of_filter in Hin. tauto. }
  destruct (Z.ltb_spec (MaxQueueDepth d) queueDepth); [simpl; split; [done|intros (_ & ? & _); lia]|].
  destruct (list_find _ ns) as [[i n]|] eqn:Ef; simpl.
  - apply list_find_Some in Ef as (Hi & Ho & _). split; [done|]. intros (_ & _ & Hb).
    unfold breaker_open in Ho. destruct (breaker n) as [b|] eqn:Eb; [|done].
    apply bool_decide_eq_true in Ho. by destruct (Hb n b (list_elem_of_lookup_2 _ _ _ Hi) Eb).
  - apply list_find_None in Ef. rewrite Forall_forall in Ef. split; [|done]. intros _.
    split; [done|]. split; [lia|]. intros n b Hin Eb Ho. apply (Ef n Hin). unfold breaker_open.
    by rewrite Eb, bool_decide_eq_true.
Qed.

(** ** Witnesses *)

Definition ex_hc : HealthConfig :=
  {| HInterval := 15 * Second; HTimeout := 5 * Second; HPath := "/health"; UnhealthyThreshold := 3;
     HealthyThreshold := 2; LiveProbe := {| LInterval := 0; LBurst := 0 |} |}.

Lemma health_flag_exact_witness :
  healthy (run ex_hc (ex_up "a" 1 1 [] false) ([Probe false; Probe false; Eject] ++ [Probe false])) = false /\
  streak false 0 [Probe false; Probe false; Eject; Probe false] = 3.
Proof.
  split; [|reflexivity].
  rewrite (health_flag_exact ex_hc (ex_up "a" 1 1 [] false) [Probe false; Probe false; Eject] false);
    [reflexivity|]. split; [reflexivity|]. split; [reflexivity|]. vm_compute. reflexivity.
Defined.

Lemma node_recovers_witness :
  healthy (run ex_hc (ex_up "a" 1 1 [] false)
             ([Probe false; Probe false; Probe false; Eject] ++ replicate 2 (Probe true))) = true.
Proof.
  apply node_recovers; [|vm_compute; discriminate|lia].
  split; [reflexivity|]. split; [reflexivity|]. vm_compute. reflexivity.
Defined.

End Health.
