(* ===== verification/Router.v ===== *)
(** * The proxy handler end to end

    Composes the parts of the router's request path: the bearer middleware of
    [src/internal/proxy/helpers.go] that derives the workload class, and
    [handleProxy] of [src/main.go] from the size check to the answer, with
    [Selection] and [Failover] for the choice and the calls of upstreams.  The
    queue and the semaphore are in [Admission], the PII detector in [PII], the
    model field of the body in [RequestBody], the smartroute policy in
    [SmartRoute]. *)

From Stdlib Require Import ZArith Lia.
From stdpp Require Import base option list gmap strings.
From S2P Require Import Prelude GoStrings Utf8 Json Headers Circuit KeyPool RouterConfig RequestBody SmartRoute PII Selection Failover FailoverSpec.

Module Router.
Import GoStrings Utf8 Json Headers RouterConfig RequestBody Selection Failover.
Import PII(DetectPersonal).

(** ** Bearer middleware *)

(** [ClassBearerAuthFunc]: a refusal, or the class put in the request context;
    [None] inside is a request let through with no class set. *)
Definition ClassBearerAuth (internal : string) (customerTokens : list string) (authorization : string)
  : option (option WorkloadClass) :=
  if (internal =s "") && Nat.eqb (length customerTokens) 0 then Some None
  else if negb (internal =s "") && (authorization =s ("Bearer " ++ internal)) then Some (Some ClassInternal)
  else if existsb (fun t => negb (t =s "") && (authorization =s ("Bearer " ++ t))) customerTokens
  then Some (Some ClassCustomer)
  else None.

Definition ClassFromRequest (ctx : option WorkloadClass) : WorkloadClass := default ClassInternal ctx.

(** ** The handler *)

(** The upstreams, the clock of the first selection, and the PII flag of the
    router when the body is classified: unlike the rest of the state it is not
    part of the snapshot the handler takes first. *)
Record World := { upstreams : Env; firstSelection : nat -> Time; armedNow : bool }.

Inductive reply :=
| Unauthorized
| BodyTooLarge
| TenantMissing
| AgentDisabled
| Answered (a : answer).

Definition header_get (r : Request) (name : string) : string := Get (list_to_map (RHeader r)) name.

Definition with_body (r : Request) (b : string) : Request :=
  {| Method := Method r; Path := Path r; RawQuery := RawQuery r; RHeader := RHeader r; Body := b |}.

(** The body and the tier after the smartroute block. *)
Inductive smart_result := SmartRefused | SmartRouted (r : Request) (tier : string) | SmartPanic.

Definition apply_smart (sm : option SmartRoute.Policy) (r : Request) : smart_result :=
  let tier := header_get r "X-Tier" in
  let h : Header := list_to_map (RHeader r) in
  match sm with
  | None => SmartRouted r tier
  | Some p =>
      if negb (SmartRoute.AgentAllowed p (SmartRoute.DetectAgent h)) then SmartRefused
      else
        match SmartRoute.Decide p h (Body r) with
        | None => SmartRouted r tier
        | Some d =>
            let tier := if tier =s "" then SmartRoute.DTier d else tier in
            match SmartRoute.Rewrite (Body r) d with
            | SmartRoute.Rewritten nb => SmartRouted (with_body r nb) tier
            | SmartRoute.RewriteErr => SmartRouted r tier
            | SmartRoute.RewritePanic => SmartPanic
            end
        end
  end.

Definition handleProxy (w : World) (rs : routerState) (rr : Z) (ctx : option WorkloadClass)
    (contentLength : Z) (r : Request) : reply * list sent :=
  let maxBody := MaxBodySize (CDefaults (rcfg rs)) in
  if (0 <? maxBody) && (maxBody <? contentLength) then (BodyTooLarge, [])
  else
    let class := ClassFromRequest ctx in
    let bodyPersonal := DetectPersonal (Body r) in
    let personal := bodyPersonal && armedNow w in
    if bool_decide (class = ClassCustomer) && (TrimSpace (header_get r "X-HLXN-Tenant") =s "")
    then (TenantMissing, [])
    else
      match apply_smart (smart rs) r with
      | SmartRefused => (AgentDisabled, [])
      | SmartPanic => (Answered Crash, [])
      | SmartRouted r' tier =>
          let model := ExtractModel (Body r') in
          let q := {| model := model; targetTier := tier; excluded := ∅; class := class; personal := personal |} in
          let '(a, l) := dispatch (upstreams w) (firstSelection w) q r' (rnodes rs, rr) in
          (Answered a, l_sent l)
      end.

(** The route: the middleware in front of the handler. *)
Definition serve (w : World) (rs : routerState) (rr : Z) (contentLength : Z) (r : Request) : reply * list sent :=
  match ClassBearerAuth (AuthToken (rcfg rs)) (CustomerTokens (rcfg rs)) (header_get r "Authorization") with
  | None => (Unauthorized, [])
  | Some ctx => handleProxy w rs rr ctx contentLength r
  end.

(** ** Properties *)

(** The class comes from the credential alone: a configured deployment lets a
    request through exactly when its bearer is the internal token (then it is
    internal) or else one of the non-empty customer tokens (then it is
    customer). *)
Theorem class_from_credential internal customers authorization :
  internal <> "" \/ customers <> [] ->
  ClassBearerAuth internal customers authorization =
  if decide (internal <> "" /\ authorization = "Bearer " ++ internal)%string then Some (Some ClassInternal)
  else if decide (Exists (fun t => t <> "" /\ authorization = "Bearer " ++ t)%string customers)
       then Some (Some ClassCustomer)
  else None.
Proof.
  intros Hc. unfold ClassBearerAuth.
  assert (He : (internal =s "") && (length customers =? 0)%nat = false).
  { destruct (String.eqb_spec internal ""), customers; simpl; try done. by destruct Hc. }
  rewrite He. destruct (decide (internal <> "" /\ _)) as [[Hi Ha]|Hn].
  - rewrite (proj2 (String.eqb_neq _ _) Hi), (proj2 (String.eqb_eq _ _) Ha). done.
  - assert (H1 : negb (internal =s "") && (authorization =s ("Bearer " ++ internal)) = false).
    { destruct (String.eqb_spec internal ""); [done|]. destruct (String.eqb_spec authorization ("Bearer " ++ internal)); [|done].
      by destruct Hn. }
    rewrite H1. case_match eqn:E; destruct (decide (Exists _ customers)) as [Hx|Hx]; try done.
    + destruct Hx. apply existsb_exists in E as (t & Hin & Ht). apply list_elem_of_In in Hin.
      apply Exists_exists. exists t. split; [done|]. apply andb_true_iff in Ht as [H2 H3].
      split; [by intros ->|by apply String.eqb_eq].
    + apply Exists_exists in Hx as (t & Hin & Hne & Ha). apply not_true_iff_false in E. destruct E.
      apply existsb_exists. exists t. split; [by apply list_elem_of_In|].
      by rewrite (proj2 (String.eqb_neq _ _) Hne), (proj2 (String.eqb_eq _ _) Ha).
Qed.

(** A lawful environment: other goroutines leave the configuration alone. *)
Definition lawful (w : World) : Prop := FailoverSpec.stable (upstreams w) /\ FailoverSpec.queue_stable (upstreams w).

Lemma serve_sent w rs rr cl r rep ss s :
  lawful w -> FailoverSpec.keyed (rnodes rs) -> serve w rs rr cl r = (rep, ss) -> s ∈ ss ->
  exists ctx c r' tier,
    ClassBearerAuth (AuthToken (rcfg rs)) (CustomerTokens (rcfg rs)) (header_get r "Authorization") = Some ctx /\
    cfgs (rnodes rs) !! s_node s = Some c /\
    apply_smart (smart rs) r = SmartRouted r' tier /\ forwardBody c (Body r') = Some (OBody (s_req s)) /\
    (ClassFromRequest ctx = ClassCustomer -> TrimSpace (header_get r "X-HLXN-Tenant") <> "") /\
    may_serve {| model := ExtractModel (Body r'); targetTier := tier; excluded := ∅;
                 class := ClassFromRequest ctx; personal := DetectPersonal (Body r) && armedNow w |} c.
Proof.
  intros [Hs Hq] Hk. unfold serve. destruct (ClassBearerAuth _ _ _) as [ctx|]; [|intros [= <- <-]; set_solver].
  unfold handleProxy. destruct (_ && (_ <? cl)); [intros [= <- <-]; set_solver|].
  destruct (bool_decide (ClassFromRequest ctx = ClassCustomer) && _) eqn:Et; [intros [= <- <-]; set_solver|].
  destruct (apply_smart (smart rs) r) as [|r' tier|] eqn:Es; [intros [= <- <-]; set_solver| |intros [= <- <-]; set_solver].
  destruct (dispatch _ _ _ _ _) as [a l] eqn:Ed. intros [= <- <-] Hin.
  destruct (FailoverSpec.dispatch_spec _ _ _ _ (rnodes rs, rr) _ _ Hs Hq Hk Ed) as (k & _ & Hinv & _).
  pose proof (FailoverSpec.iv_sent _ _ _ _ _ Hinv) as Hx. rewrite Forall_forall in Hx.
  destruct (Hx s Hin) as (Hp & cb & _ & Hcb & _ & Hb & _).
  pose proof (FailoverSpec.iv_path _ _ _ _ _ Hinv) as Hpath.
  rewrite Forall_lookup in Hpath. destruct (Hpath _ _ Hp) as (c & Hc & Hm & _).
  assert (cb = c) as -> by congruence.
  exists ctx, c, r', tier. split_and!; try done.
  intros Hcu. rewrite bool_decide_eq_true_2 in Et by done. simpl in Et. by apply String.eqb_neq.
Qed.

(** C1: Paid client work stays off the internal plans: when the bearer is a customer
    token and not the internal one, every upstream call of the request goes to a
    node whose workloads are unrestricted or name customer, and there is one only
    if the request names its tenant. *)
Theorem customer_isolated w rs rr cl r rep ss s t :
  lawful w -> FailoverSpec.keyed (rnodes rs) -> serve w rs rr cl r = (rep, ss) -> s ∈ ss ->
  t ∈ CustomerTokens (rcfg rs) -> t <> "" -> t <> AuthToken (rcfg rs) ->
  header_get r "Authorization" = ("Bearer " ++ t)%string ->
  TrimSpace (header_get r "X-HLXN-Tenant") <> "" /\
  exists c, cfgs (rnodes rs) !! s_node s = Some c /\ (Workloads c = [] \/ "customer" ∈ Workloads c).
Proof.
  intros Hl Hk H Hin Ht Hne Hni Ha.
  destruct (serve_sent _ _ _ _ _ _ _ _ Hl Hk H Hin) as (ctx & c & r' & tier & Hauth & Hc & _ & _ & Hten & Hm).
  assert (Hcls : ClassFromRequest ctx = ClassCustomer).
  { revert Hauth. unfold ClassBearerAuth. rewrite Ha.
    assert (E : (AuthToken (rcfg rs) =s "") && (length (CustomerTokens (rcfg rs)) =? 0)%nat = false).
    { destruct (CustomerTokens (rcfg rs)); [set_solver|]. by rewrite andb_false_r. }
    rewrite E. destruct (negb _ && _) eqn:E1.
    - apply andb_true_iff in E1 as [_ E1%String.eqb_eq]. simplify_eq/=.
    - case_match; [by intros [= <-]|done]. }
  split; [by apply Hten|]. exists c. split; [done|]. destruct Hm as [Hw _ _ _]. simpl in Hw. by rewrite Hcls in Hw.
Qed.

(** C2: A personal payload never leaves the local hardware: when the rule is armed and
    the detector matches the body as the client wrote it, every upstream call of
    the request goes to a node marked pii_local. *)
Theorem personal_stays_local w rs rr cl r rep ss s :
  lawful w -> FailoverSpec.keyed (rnodes rs) -> serve w rs rr cl r = (rep, ss) -> s ∈ ss ->
  armedNow w = true -> DetectPersonal (Body r) = true ->
  exists c, cfgs (rnodes rs) !! s_node s = Some c /\ PIILocal c = true.
Proof.
  intros Hl Hk H Hin Harm Hdet.
  destruct (serve_sent _ _ _ _ _ _ _ _ Hl Hk H Hin) as (ctx & c & r' & tier & _ & Hc & _ & _ & _ & [_ Hp _ _]).
  exists c. split; [done|]. apply Hp. simpl. by rewrite Hdet, Harm.
Qed.

(** C3: The body on the wire, of every upstream call.  When the body that is routed
    (the caller's own when there is no smartroute policy, the policy's rewriting
    of it otherwise) is a JSON object, with or without a model, each field of
    what the called node gets is what that node's configuration makes of it: the
    node's own name for the model, else the sent value digit for digit, else the
    node's default; nothing of another candidate's rewriting is left in it.  When
    it is anything else (empty, no JSON, an array) the node gets the same bytes
    and no default.  Assumed: the called node's defaults are JSON of bounded
    depth under UTF-8 keys and its rewrites are UTF-8, which is what the YAML
    loader stores. *)
Theorem wire_body_exact w rs rr cl r rep ss s c :
  lawful w -> FailoverSpec.keyed (rnodes rs) -> serve w rs rr cl r = (rep, ss) -> s ∈ ss ->
  cfgs (rnodes rs) !! s_node s = Some c ->
  map_Forall default_ok (RequestDefaults c) ->
  map_Forall (fun _ to => Utf8.valid_utf8 (to_bytes to)) (ModelRewrite c) ->
  exists r' tier,
    apply_smart (smart rs) r = SmartRouted r' tier /\ (smart rs = None -> r' = r) /\
    match parse (to_bytes (Body r')) with
    | Some (JObj _) => forall k, field k (OBody (s_req s)) = node_field c (Body r') k
    | _ => OBody (s_req s) = Body r'
    end.
Proof.
  intros Hl Hk H Hin Hc Hd Hv.
  destruct (serve_sent _ _ _ _ _ _ _ _ Hl Hk H Hin) as (ctx & c' & r' & tier & _ & Hc' & Ha & Hb & _).
  assert (c' = c) as -> by congruence. exists r', tier. split; [exact Ha|]. split.
  { intros Hs. rewrite Hs in Ha. simpl in Ha. congruence. }
  destruct (parse (to_bytes (Body r'))) as [[]|] eqn:Ep; try (apply (forward_other c); [exact Hb|congruence]).
  by eapply forward_fields.
Qed.

(** ** Witnesses *)

Definition ex_world : World :=
  {| upstreams := FailoverSpec.ex_env FailoverSpec.ex_answers; firstSelection := ex_clk; armedNow := true |}.

Definition ex_router : routerState :=
  newRouterState
    {| Listen := ":8080"; PIILocalRule := ""; MetricsAddr := DefaultMetricsAddr; DebugAddr := ""; LogLevel := "";
       AuthToken := "it"; CustomerTokens := ["ct"]; SlackWebhookURL := ""; SlackChannel := "";
       CDefaults := applyDefaults (CDefaults (ex_config [])); HealthCheck := applyHealth (HealthCheck (ex_config []));
       FairShare := FairShare (ex_config []); Nodes := cfgs ex_nodes; SmartRoute := SmartRoute (ex_config []) |}
    ex_nodes 2 None.

Definition ex_customer_req : Request :=
  {| Method := "POST"; Path := "/v1/chat/completions"; RawQuery := "";
     RHeader := [("Authorization", ["Bearer ct"]); ("X-Hlxn-Tenant", ["acme"])]; Body := quoting "{'model':'m3','seed':9007199254740993,'user':'mail a@b.example'}" |}.

Lemma ex_lawful : lawful ex_world.
Proof. exact (FailoverSpec.ex_stable _). Qed.

Definition ex_serve : reply * list sent := serve ex_world ex_router 0 16 ex_customer_req.

Lemma ex_serve_eq : serve ex_world ex_router 0 16 ex_customer_req = (ex_serve.1, ex_serve.2).
Proof. apply surjective_pairing. Qed.

Lemma class_from_credential_witness : ClassBearerAuth "it" ["ct"] "Bearer ct" = Some (Some ClassCustomer).
Proof. rewrite (class_from_credential "it" ["ct"] "Bearer ct"); [reflexivity|]. by left. Defined.

Lemma customer_isolated_witness :
  exists s c, s ∈ ex_serve.2 /\ cfgs ex_nodes !! s_node s = Some c /\ (Workloads c = [] \/ "customer" ∈ Workloads c).
Proof.
  destruct (ex_serve.2 !! 0%nat) as [s|] eqn:E; [|vm_compute in E; discriminate].
  assert (Hin : s ∈ ex_serve.2) by (eapply list_elem_of_lookup_2; exact E).
  destruct (customer_isolated ex_world ex_router 0 16 ex_customer_req _ _ s "ct" ex_lawful FailoverSpec.ex_keyed
              ex_serve_eq Hin) as (_ & c & Hc & Hw); [by left|discriminate|discriminate|reflexivity|].
  exists s, c. split; [exact Hin|]. split; [exact Hc|exact Hw].
Defined.

Lemma personal_stays_local_witness :
  exists s c, s ∈ ex_serve.2 /\ cfgs ex_nodes !! s_node s = Some c /\ PIILocal c = true.
Proof.
  destruct (ex_serve.2 !! 0%nat) as [s|] eqn:E; [|vm_compute in E; discriminate].
  assert (Hin : s ∈ ex_serve.2) by (eapply list_elem_of_lookup_2; exact E).
  destruct (personal_stays_local ex_world ex_router 0 16 ex_customer_req _ _ s ex_lawful FailoverSpec.ex_keyed
              ex_serve_eq Hin) as (c & Hc & Hp); [reflexivity|reflexivity|].
  exists s, c. split; [exact Hin|]. split; [exact Hc|exact Hp].
Defined.

(** The flag can change between the snapshot and the classification: a reload
    that disarms the rule lets a personal body of a request that started before
    it leave for a node of the old, armed configuration. *)
Example disarmed_in_flight :
  let w := {| upstreams := upstreams ex_world; firstSelection := ex_clk; armedNow := false |} in
  let r := {| Method := "POST"; Path := "/v1/chat/completions"; RawQuery := "";
              RHeader := [("Authorization", ["Bearer it"])]; Body := Body ex_customer_req |} in
  piiRuleArmed ex_router = true /\ DetectPersonal (Body r) = true /\
  (head (serve w ex_router 0 16 r).2 ≫= fun s => PIILocal <$> cfgs ex_nodes !! s_node s) = Some false.
Proof. vm_compute. done. Qed.

Lemma ex_customer_object : exists ms, parse (to_bytes (Body ex_customer_req)) = Some (JObj ms).
Proof. eexists. vm_compute. reflexivity. Qed.

Lemma wire_body_exact_witness :
  exists s, s ∈ ex_serve.2 /\ field "model" (OBody (s_req s)) = Some (JStr (to_bytes "qwen/qwen3")) /\
    field "seed" (OBody (s_req s)) = field "seed" (Body ex_customer_req) /\
    field "reasoning_split" (OBody (s_req s)) = Some (JBool true).
Proof.
  destruct (ex_serve.2 !! 0%nat) as [s|] eqn:E; [|vm_compute in E; discriminate].
  assert (Hin : s ∈ ex_serve.2) by (eapply list_elem_of_lookup_2; exact E).
  assert (Hn : s_node s = 1%nat) by (vm_compute in E; injection E as <-; reflexivity).
  destruct (wire_body_exact ex_world ex_router 0 16 ex_customer_req _ _ s (cfg (ex_up "local" 1 1 [] true))
              ex_lawful FailoverSpec.ex_keyed ex_serve_eq Hin) as (r' & tier & _ & Hr & H); [by rewrite Hn| | |].
  - apply map_Forall_singleton. split; [vm_compute; reflexivity|].
    eexists; split; [vm_compute; reflexivity|vm_compute; discriminate].
  - apply map_Forall_singleton. vm_compute. reflexivity.
  - specialize (Hr eq_refl). subst r'. destruct ex_customer_object as [ms Ep]. rewrite Ep in H.
    exists s. rewrite !H. split; [exact Hin|]. repeat split; vm_compute; reflexivity.
Defined.

(** A request without a body is sent without one, the node's defaults left out. *)
Example empty_body_forwarded :
  let r := {| Method := "GET"; Path := "/v1/models"; RawQuery := "";
              RHeader := [("Authorization", ["Bearer it"])]; Body := "" |} in
  (fun s => OBody (s_req s)) <$> head (serve ex_world ex_router 0 16 r).2 = Some "".
Proof. vm_compute. reflexivity. Qed.

End Router.
