(* ===== verification/RouterServe.v ===== *)
(** * The router process

    Models, of [src/main.go], [newRouter], the snapshot and the token readers,
    [watchReloadSignal], [healthLoop], [serveMux], [newDebugMux] and [runServe]:
    what the process sets up once at boot, what a SIGHUP replaces, and which
    paths of the public listener stand behind the bearer check.  The files, the
    environment and the sockets are arguments. *)

From Stdlib Require Import ZArith Lia Ascii String Sorted.
From stdpp Require Import base option list gmap strings.
From S2P Require Import Prelude GoStrings Net GatewayConfig RouterConfig SmartRoute Selection FairShare Router Headers Secret Flags CheckKeys Diagnostics.

Module RouterServe.
Import GoStrings RouterConfig Selection.

(** ** The listener's paths *)

Inductive endpoint := handleHealth | handleReadyz | handleModels | handleProxy | metricsHandler.

#[export] Instance endpoint_eq_dec : EqDecision endpoint.
Proof. solve_decision. Defined.

(** [serveMux]: the patterns, whether they are wrapped in the bearer check, and
    their handlers. *)
Definition serveMux : list (string * (bool * endpoint)) :=
  [("/healthz", (false, handleHealth)); ("/health", (false, handleHealth)); ("/readyz", (false, handleReadyz));
   ("/v1/models", (true, handleModels)); ("/v1/chat/completions", (true, handleProxy)); ("/v1/completions", (true, handleProxy));
   ("/v1/embeddings", (true, handleProxy)); ("/metrics", (false, metricsHandler))]%string.

(** The paths of [newDebugMux]; the first is a subtree. *)
Definition newDebugMux : list string :=
  ["/debug/pprof/"; "/debug/pprof/cmdline"; "/debug/pprof/profile"; "/debug/pprof/symbol"; "/debug/pprof/trace"]%string.

(** [cleanPath] of [http.ServeMux]. *)
Definition cleanPath (p : string) : string :=
  if p =s "" then "/"
  else
    let p := if HasPrefix p "/" then p else ("/" ++ p)%string in
    let np := of_bytes (GatewayConfig.Clean p) in
    if HasSuffix p "/" && negb (np =s "/") then (np ++ "/")%string else np.

(** What the mux does with a path, for any method but CONNECT: no pattern ends in
    a slash or has a wildcard, so a clean path is looked up as it is. *)
Inductive routed := Redirect (target : string) | NotFound | Handler (auth : bool) (e : endpoint).

Definition mux_route (path : string) : routed :=
  if negb (cleanPath path =s path) then Redirect (cleanPath path)
  else match list_find (fun p => p.1 = path) serveMux with Some (_, (_, (auth, e))) => Handler auth e | None => NotFound end.

(** The front of the listener under the tokens in force. *)
Inductive front := FRedirect | FNotFound | FUnauthorized | FServed (e : endpoint) (ctx : option WorkloadClass).

Definition AuthToken (rs : routerState) : string := RouterConfig.AuthToken (rcfg rs).
Definition CustomerTokens (rs : routerState) : list string := RouterConfig.CustomerTokens (rcfg rs).

Definition serveFront (rs : routerState) (path authorization : string) : front :=
  match mux_route path with
  | Redirect _ => FRedirect
  | NotFound => FNotFound
  | Handler false e => FServed e None
  | Handler true e =>
      match Router.ClassBearerAuth (AuthToken rs) (CustomerTokens rs) authorization with
      | None => FUnauthorized
      | Some ctx => FServed e ctx
      end
  end.

(** ** Boot and reload *)

Section process.

Context (url_parse : string -> option url) (regex_compiles : string -> bool) (readPolicy : string -> option SmartRoute.Policy).

Definition newRouter (c : Config) : (routerState * option FairShare.Scheduler) + reloadError :=
  match buildReloadable url_parse regex_compiles c with
  | inl e => inr (RBuild e)
  | inr (ns, cap) =>
      match loadSmartRoute readPolicy c with
      | None => inr RSmart
      | Some sm =>
          inl (newRouterState c ns cap sm,
               if FsEnabled (FairShare c)
               then Some (FairShare.New {| FairShare.MaxRequestsPerUser := MaxRequestsPerUser (FairShare c); FairShare.Window := FsWindow (FairShare c);
                                           FairShare.Burst := FsBurst (FairShare c); FairShare.CleanupInterval := 0 |})
               else None)
      end
  end.

(** The process after boot: the router, and what is fixed until it restarts. *)
Record process := {
  state : routerState;
  fairScheduler : option FairShare.Scheduler;
  bound : string;
  maxBodySize : Z;
  channel : string;
  metricsOn : option string;
  debugOn : option string;
}.

Inductive bootError := BootFlags (e : Flags.flagError) | BootLoad (e : configError) | BootRouter (e : reloadError) | BootBind (e : Diagnostics.listenError).

Definition serve_flags : Flags.FlagSet := Flags.NewFlagSet [("config", Flags.VStr "router.sample.yml")]%string.

Definition diagnostic (addr : string) : option string :=
  let a := DiagnosticListenAddr addr in if a =s "" then None else Some a.

(** [runServe] up to [server.Serve]; [load] is [loadConfig] and [bind] is
    [net.Listen].  The serve loop of the factory is discarded: the HTTP server
    accepts from the socket itself. *)
Definition runServe (getenv : string -> string) (load : string -> configError + Config) (bind : string -> string + string) (args : list string)
  : process + bootError :=
  match Flags.Parse serve_flags args with
  | inr e => inr (BootFlags e)
  | inl (fs, _) =>
      match load (Flags.strOf fs "config") with
      | inl e => inr (BootLoad e)
      | inr c =>
          match newRouter c with
          | inr e => inr (BootRouter e)
          | inl (rs, fair) =>
              let f := Diagnostics.SelectListenerFactory (Diagnostics.routerEnabledFromEnv (getenv "HELIXCHANNEL_ENABLED")) in
              match Diagnostics.Listen bind f (Listen c) with
              | inr e => inr (BootBind e)
              | inl b =>
                  inl {| state := rs; fairScheduler := fair; bound := b; maxBodySize := MaxBodySize (CDefaults c);
                         channel := Diagnostics.Channel f; metricsOn := diagnostic (MetricsAddr c); debugOn := diagnostic (DebugAddr c) |}
              end
          end
      end
  end.

Definition set_state (p : process) (rs : routerState) : process :=
  {| state := rs; fairScheduler := fairScheduler p; bound := bound p; maxBodySize := maxBodySize p; channel := channel p;
     metricsOn := metricsOn p; debugOn := debugOn p |}.

(** What happens to a running router: a signal with what the file holds then, or
    requests and probes that move the nodes' own state. *)
Inductive signal := SIGHUP | OtherSignal.
Inductive event := Signalled (s : signal) (loaded : configError + Config) | Worked (ns : list upstreamNode).

(** One turn of [watchReloadSignal], or of the traffic. *)
Definition react (p : process) (e : event) : process :=
  match e with
  | Signalled SIGHUP loaded => set_state p (Reload url_parse regex_compiles loaded readPolicy (state p)).2
  | Signalled OtherSignal _ => p
  | Worked ns =>
      set_state p {| rcfg := rcfg (state p); rnodes := ns; semCap := semCap (state p); piiRuleArmed := piiRuleArmed (state p); smart := smart (state p) |}
  end.

Definition watchReloadSignal (p : process) (evs : list event) : process := foldl react p evs.

(** Traffic moves health, keys and breakers, never the configuration of a node. *)
Fixpoint traffic_ok (p : process) (evs : list event) : Prop :=
  match evs with
  | [] => True
  | e :: evs =>
      match e with Worked ns => cfg <$> ns = cfg <$> rnodes (state p) | _ => True end /\ traffic_ok (react p e) evs
  end.

(** ** The prober's clock *)

Definition healthInterval (c : Config) : Duration := if HInterval (HealthCheck c) <=? 0 then 15 * Second else HInterval (HealthCheck c).

(** [healthLoop]: when its passes start, given the configuration in force when
    each wait begins and how long each pass takes. *)
Fixpoint healthLoop (t : Time) (waits : list (Config * Duration)) : list Time :=
  t :: match waits with [] => [] | (c, took) :: waits => healthLoop (t + took + healthInterval c) waits end.

(** ** Reloads *)

(** What a reload replaces: the configuration, the nodes' configurations, the
    capacity, the PII rule and the smartroute policy. *)
Definition settings (rs : routerState) := (rcfg rs, cfg <$> rnodes rs, semCap rs, piiRuleArmed rs, smart rs).

Definition reloads (e : event) : Prop := exists c x, e = Signalled SIGHUP (inr c) /\ newRouter c = inl x.

Lemma Reload_boots loaded rs :
  match loaded with
  | inl e => Reload url_parse regex_compiles loaded readPolicy rs = (Some (RLoad e), rs)
  | inr c => match newRouter c with
             | inl (rs', _) => Reload url_parse regex_compiles loaded readPolicy rs = (None, rs')
             | inr e => Reload url_parse regex_compiles loaded readPolicy rs = (Some e, rs)
             end
  end.
Proof.
  destruct loaded as [e|c]; [done|]. unfold newRouter, Reload. destruct (buildReloadable url_parse regex_compiles c) as [e|[ns cap]]; [done|].
  by destruct (loadSmartRoute readPolicy c).
Qed.

Lemma react_fixed p e :
  fairScheduler (react p e) = fairScheduler p /\ bound (react p e) = bound p /\ maxBodySize (react p e) = maxBodySize p /\
  channel (react p e) = channel p /\ metricsOn (react p e) = metricsOn p /\ debugOn (react p e) = debugOn p.
Proof. by destruct e as [[] loaded|ns]. Qed.

Lemma react_settings p e :
  match e with Worked ns => cfg <$> ns = cfg <$> rnodes (state p) | _ => True end ->
  (exists c rs fair, e = Signalled SIGHUP (inr c) /\ newRouter c = inl (rs, fair) /\ settings (state (react p e)) = settings rs) \/
  (~ reloads e /\ settings (state (react p e)) = settings (state p)).
Proof.
  destruct e as [[] loaded|ns]; intros Hw; cbn [react].
  - pose proof (Reload_boots loaded (state p)) as H. destruct loaded as [e|c].
    + right. rewrite H. split; [|done]. by intros (c & x & [=] & _).
    + destruct (newRouter c) as [[rs fair]|e] eqn:E; rewrite H.
      * left. by exists c, rs, fair.
      * right. split; [|done]. intros (c' & x & [= ->] & Hx). congruence.
  - right. split; [|done]. by intros (c & x & [=] & _).
  - right. split; [by intros (c & x & [=] & _)|]. unfold settings. cbn. by rewrite Hw.
Qed.

(** C28: Over any history of signals and traffic the settings in force are those of
    one file as a whole, the last that loaded, exactly as a boot with that file
    would set them; a failed reload leaves no trace; and the listener, the body
    limit, the fair-share scheduler and the diagnostic addresses stay as booted. *)
Theorem reload_history p evs :
  traffic_ok p evs ->
  let p' := watchReloadSignal p evs in
  (fairScheduler p' = fairScheduler p /\ bound p' = bound p /\ maxBodySize p' = maxBodySize p /\ channel p' = channel p /\
   metricsOn p' = metricsOn p /\ debugOn p' = debugOn p) /\
  ((Forall (fun e => ~ reloads e) evs /\ settings (state p') = settings (state p)) \/
   exists pre c rs fair post, evs = pre ++ Signalled SIGHUP (inr c) :: post /\ newRouter c = inl (rs, fair) /\
     settings (state p') = settings rs /\ Forall (fun e => ~ reloads e) post).
Proof.
  revert p. induction evs as [|e evs IH]; intros p Htr; [split; [done|by left]|]. destruct Htr as [He Htr].
  cbn [watchReloadSignal foldl]. fold (watchReloadSignal (react p e) evs). destruct (IH (react p e) Htr) as [Hfix Hset].
  destruct (react_fixed p e) as (F1 & F2 & F3 & F4 & F5 & F6). rewrite F1, F2, F3, F4, F5, F6 in Hfix. split; [exact Hfix|].
  destruct Hset as [[Hnone Hs]|(pre & c & rs & fair & post & -> & Hb & Hs & Hp)].
  - destruct (react_settings p e He) as [(c & rs & fair & -> & Hb & Hr)|[Hno Hr]].
    + right. exists [], c, rs, fair, evs. split_and!; [done|done|by rewrite Hs|done].
    + left. split; [by constructor|by rewrite Hs].
  - right. by exists (e :: pre), c, rs, fair, post.
Qed.

(** Whether HelixChannel is on changes nothing but the label that is logged: the
    HTTP server accepts from the same socket. *)
Theorem channel_is_a_label getenv getenv' load bind args p :
  runServe getenv load bind args = inl p ->
  exists p', runServe getenv' load bind args = inl p' /\ state p' = state p /\ bound p' = bound p /\ fairScheduler p' = fairScheduler p /\
    maxBodySize p' = maxBodySize p /\ metricsOn p' = metricsOn p /\ debugOn p' = debugOn p.
Proof.
  unfold runServe. destruct (Flags.Parse serve_flags args) as [[fs rest]|]; [|done]. destruct (load _) as [|c]; [done|].
  destruct (newRouter c) as [[rs fair]|]; [|done]. unfold Diagnostics.Listen. destruct (Listen c =s ""); [done|].
  destruct (bind (Listen c)) as [b|]; [|done]. intros [= <-]. by eexists.
Qed.

(** The diagnostic listeners of a booted router never lack a host. *)
Theorem diagnostics_have_host getenv load bind args p a host port :
  runServe getenv load bind args = inl p -> metricsOn p = Some a \/ debugOn p = Some a ->
  Net.SplitHostPort (to_bytes a) = Some (host, port) -> host <> [].
Proof.
  unfold runServe. destruct (Flags.Parse serve_flags args) as [[fs rest]|]; [|done]. destruct (load _) as [|c]; [done|].
  destruct (newRouter c) as [[rs fair]|]; [|done]. destruct (Diagnostics.Listen _ _ _); [|done]. intros [= <-]. cbn.
  assert (H : forall x, diagnostic x = Some a -> Net.SplitHostPort (to_bytes a) = Some (host, port) -> host <> []).
  { unfold diagnostic. intros x. destruct (_ =s _); [done|]. intros [= <-] Hsp. by destruct (diagnostic_never_hostless x host port Hsp). }
  intros [Hm|Hm]; by eapply H.
Qed.

End process.

(** ** The bearer boundary *)

Lemma route_cases path auth e : mux_route path = Handler auth e -> (path, (auth, e)) ∈ serveMux.
Proof.
  unfold mux_route. destruct (negb _); [done|]. destruct (list_find _ serveMux) as [[i [k [a e']]]|] eqn:E; [|done].
  apply list_find_Some in E as (Hi & <- & _). intros [= <- <-]. by eapply list_elem_of_lookup_2.
Qed.

Lemma mux_table auth e path : (path, (auth, e)) ∈ serveMux -> (auth = true <-> e = handleModels \/ e = handleProxy) /\ (auth = true <-> HasPrefix path "/v1/" = true).
Proof.
  assert (H : Forall (fun p => (p.2.1 = true <-> p.2.2 = handleModels \/ p.2.2 = handleProxy) /\ (p.2.1 = true <-> HasPrefix p.1 "/v1/" = true)) serveMux).
  { repeat (constructor; [cbn; split; split; intros; try done; try (by left); try (by right); naive_solver|]). constructor. }
  rewrite Forall_forall in H. apply (H (path, (auth, e))).
Qed.

(** C32: Every path under /v1/ stands behind the bearer check and nothing else does:
    a request is handed to the models or the proxy handler only with a credential
    the check accepts, which decides its class; the health, readiness and metrics
    endpoints are served to anyone; and a token in force means exactly the token
    or one of the customer tokens. *)
Theorem mux_auth_boundary rs path authorization :
  (forall e ctx, serveFront rs path authorization = FServed e ctx ->
     (HasPrefix path "/v1/" = true \/ e = handleModels \/ e = handleProxy ->
        Router.ClassBearerAuth (AuthToken rs) (CustomerTokens rs) authorization = Some ctx /\
        (AuthToken rs <> ""%string \/ CustomerTokens rs <> [] ->
           authorization = ("Bearer " ++ AuthToken rs)%string \/
           Exists (fun t => t <> ""%string /\ authorization = ("Bearer " ++ t)%string) (CustomerTokens rs)))) /\
  (forall e, (path, (false, e)) ∈ serveMux -> serveFront rs path authorization = FServed e None).
Proof.
  split.
  - intros e ctx Hs Hwhy. unfold serveFront in Hs. destruct (mux_route path) as [| |auth e'] eqn:Er; [done|done|].
    destruct (mux_table auth e' path (route_cases _ _ _ Er)) as [H1 H2]. destruct auth.
    2: { injection Hs as <- _. exfalso. assert (false = true) as [=]. destruct Hwhy as [Hv|He]; [by apply H2|by apply H1]. }
    destruct (Router.ClassBearerAuth _ _ _) as [ctx'|] eqn:Ec; [|done]. injection Hs as <- <-. split; [done|].
    intros Hcfg. rewrite Router.class_from_credential in Ec by done. case_decide as Hi; [left; by destruct Hi|].
    case_decide as Hc; [by right|done].
  - intros e He. assert (Hr : mux_route path = Handler false e); [|unfold serveFront; by rewrite Hr].
    assert (H : Forall (fun p => p.2.1 = false -> mux_route p.1 = Handler false p.2.2) serveMux).
    { repeat (constructor; [cbn [fst snd]; intros Hf; first [discriminate Hf|vm_compute; reflexivity]|]). constructor. }
    rewrite Forall_forall in H. by apply (H (path, (false, e))).
Qed.

(** ** The prober *)

Lemma healthInterval_pos c : 0 < healthInterval c.
Proof. unfold healthInterval, Second. zbool; lia. Qed.

(** Passes never pile up: each starts the interval in force after the one before
    has ended, and the interval is positive whatever the file says. *)
Theorem health_passes_spaced t waits :
  Forall (fun w => 0 <= w.2) waits ->
  length (healthLoop t waits) = S (length waits) /\ StronglySorted Z.lt (healthLoop t waits) /\
  forall i a b c took, healthLoop t waits !! i = Some a -> healthLoop t waits !! S i = Some b -> waits !! i = Some (c, took) ->
    b - (a + took) = healthInterval c.
Proof.
  revert t. induction waits as [|[c took] waits IH]; intros t Hw.
  { split_and!; [done|by repeat constructor|]. by intros [|i] ?????. }
  apply Forall_cons in Hw as [H0 Hw]. cbn in H0. destruct (IH (t + took + healthInterval c) Hw) as (Hl & Hs & Hg).
  pose proof (healthInterval_pos c) as Hp. cbn [healthLoop]. split_and!; [cbn; by rewrite Hl| |].
  - constructor; [done|]. destruct waits as [|[c' took'] waits]; cbn [healthLoop] in *; (constructor; [lia|]); [constructor|].
    apply StronglySorted_inv in Hs as [_ Hf]. eapply Forall_impl; [exact Hf|]. cbn. lia.
  - intros [|i] a b c' took' Ha Hb Hi; cbn in Ha, Hb, Hi; [|by eapply Hg].
    injection Ha as <-. injection Hi as <- <-. destruct waits as [|[c' took'] waits]; cbn in Hb; injection Hb as <-; lia.
Qed.

(** ** Examples and witnesses *)

Definition ex_node (name : string) : NodeConfig := RouterConfig.ex_node name 1 1 [] false.
Definition ex_file (name : string) : Config :=
  let c := RouterConfig.ex_config [ex_node name] in
  match RouterConfig.LoadConfig RouterConfig.ex_env RouterConfig.ex_hostname c with inr c => c | inl _ => c end.
Definition ex_parse (u : string) : option url := Some Selection.ex_url.

Definition ex_boot : process + bootError :=
  runServe ex_parse (fun _ => true) (fun _ => None) (fun _ => ""%string) (fun _ => inr (ex_file "a")) (fun a => inl a) [].

Definition ex_process : process :=
  match ex_boot with
  | inl p => p
  | inr _ => {| state := Router.ex_router; fairScheduler := None; bound := ""; maxBodySize := 0; channel := ""; metricsOn := None; debugOn := None |}
  end.

Definition ex_events : list event :=
  [Signalled SIGHUP (inr (ex_file "b")); Signalled OtherSignal (inr (ex_file "c")); Signalled SIGHUP (inr (ex_file ""))].

(** The name-less node of the last file fails to build, so the router stays on the
    second file. *)
Lemma reload_history_witness :
  Name <$> (cfg <$> rnodes (state (watchReloadSignal ex_parse (fun _ => true) (fun _ => None) ex_process ex_events))) = ["b"%string] /\
  bound (watchReloadSignal ex_parse (fun _ => true) (fun _ => None) ex_process ex_events) = bound ex_process.
Proof.
  split; [vm_compute; reflexivity|].
  refine (proj1 (proj2 (proj1 (reload_history ex_parse (fun _ => true) (fun _ => None) ex_process ex_events _)))).
  repeat split.
Defined.

Lemma channel_is_a_label_witness :
  exists p, runServe ex_parse (fun _ => true) (fun _ => None) (fun _ => "false"%string) (fun _ => inr (ex_file "a")) (fun a => inl a) [] = inl p /\
    bound p = bound ex_process.
Proof.
  destruct (channel_is_a_label ex_parse (fun _ => true) (fun _ => None) (fun _ => ""%string) (fun _ => "false"%string) (fun _ => inr (ex_file "a"))
    (fun a => inl a) [] ex_process ltac:(vm_compute; reflexivity)) as (p & H & _ & Hb & _). exists p. split; [exact H|exact Hb].
Defined.

Lemma health_passes_spaced_witness :
  healthLoop 100 [(ex_file "a", 3); (ex_file "b", 0)] = [100; 100 + 3 + healthInterval (ex_file "a"); 100 + 3 + healthInterval (ex_file "a") + 0 + healthInterval (ex_file "b")] /\
  StronglySorted Z.lt (healthLoop 100 [(ex_file "a", 3); (ex_file "b", 0)]).
Proof.
  split; [vm_compute; reflexivity|].
  apply (health_passes_spaced 100 [(ex_file "a", 3); (ex_file "b", 0)]). repeat constructor; vm_compute; discriminate.
Defined.

(** An unclean path is redirected before any handler sees it. *)
Example unclean_redirected : mux_route "/healthz/../v1/models" = Redirect "/v1/models".
Proof. vm_compute. reflexivity. Qed.

End RouterServe.
