(* ===== verification/BodyRead.v ===== *)
(** * Reading the request body

    Models, of [src/main.go], [bodyReadTimeout], [readBodyWithin],
    [bodyDeadlineReader.Read], [isReadDeadlineExceeded] and what [handleProxy]
    answers when the read fails.

    An upload is the list of what its reads will return, each with the moment
    the data is there.  A read that would still be waiting when the deadline of
    the connection passes returns the timeout at that moment.  The answers of
    [SetReadDeadline] are an argument: a writer that cannot carry a deadline is
    one of its values. *)

From Stdlib Require Import ZArith Lia Ascii String.
From stdpp Require Import base option list.
From S2P Require Import Prelude GoStrings RouterConfig.

Module BodyRead.
Import GoStrings RouterConfig.

Definition bodyReadTimeout (c : Config) : Duration :=
  if 0 <? BodyReadTimeout (CDefaults c) then BodyReadTimeout (CDefaults c) else DefaultBodyReadTimeout.

(** ** Uploads *)

Inductive readErr := ErrDeadline | NetTimeout | ErrOther (msg : string).

Inductive content := Chunk (b : bytes) | End_ | Fails (e : readErr).

(** One read: how long the handler takes to call it after the last one, when
    its result is there, and the result. *)
Record arrival := { lag : Duration; at_ : Time; what : content }.

(** The connection deadline: [None] until one is set. *)
Definition expires (deadline : option Time) (a : arrival) : option Time :=
  match deadline with
  | Some d => if d <? at_ a then Some d else None
  | None => None
  end.

#[global] Arguments expires : simpl never.

Record result := { body : option bytes; err : option readErr; finished : Time; deadline : option Time; warned : bool }.

(** [io.ReadAll] over the reader; [now] is the end of the last read, [n] numbers
    the calls of [SetReadDeadline].  An exhausted list is a connection that
    never says more: it ends at the deadline, or never ([None]). *)
Fixpoint read_all (setOK : nat -> bool) (within : Duration) (n : nat) (dl : option Time) (unbounded warn : bool)
    (acc : bytes) (now : Time) (up : list arrival) : option result :=
  match up with
  | [] =>
      let ok := setOK n in
      let dl' := if unbounded then dl else if ok then Some (now + within) else dl in
      (fun d => {| body := None; err := Some ErrDeadline; finished := Z.max now d; deadline := Some d;
                   warned := warn || negb unbounded && negb ok |}) <$> dl'
  | a :: up =>
      let start := now + lag a in
      let ok := setOK n in
      let dl' := if unbounded then dl else if ok then Some (start + within) else dl in
      let unbounded' := unbounded || negb ok in
      let warn' := warn || negb unbounded && negb ok in
      match expires dl' a with
      | Some d => Some {| body := None; err := Some ErrDeadline; finished := Z.max start d; deadline := dl'; warned := warn' |}
      | None =>
          let now' := Z.max start (at_ a) in
          match what a with
          | Chunk b => read_all setOK within (S n) dl' unbounded' warn' (acc ++ b) now' up
          | End_ => Some {| body := Some acc; err := None; finished := now'; deadline := dl'; warned := warn' |}
          | Fails e => Some {| body := None; err := Some e; finished := now'; deadline := dl'; warned := warn' |}
          end
      end
  end.

(** [readBodyWithin], called at [now].  A writer without deadlines is read with
    no bound. *)
Definition readBodyWithin (setOK : nat -> bool) (within : Duration) (now : Time) (up : list arrival) : option result :=
  if negb (setOK 0%nat) then read_all setOK within 1 None true true [] now up
  else
    r ← read_all setOK within 1 (Some (now + within)) false false [] now up;
    match err r with
    | Some _ => Some r
    | None => Some {| body := body r; err := None; finished := finished r; deadline := None; warned := warned r |}
    end.

Definition isReadDeadlineExceeded (e : readErr) : bool :=
  match e with ErrDeadline | NetTimeout => true | ErrOther _ => false end.

(** The answer of the handler to a read that failed. *)
Inductive refusal := RequestTimeout | BadRequest (msg : readErr).

Definition read_refusal (e : readErr) : refusal :=
  if isReadDeadlineExceeded e then RequestTimeout else BadRequest e.

(** ** The bound is on silence *)

(** When each read starts, if none of them times out. *)
Fixpoint starts (now : Time) (up : list arrival) : list (Time * arrival) :=
  match up with
  | [] => []
  | a :: up => (now + lag a, a) :: starts (Z.max (now + lag a) (at_ a)) up
  end.

(** The upload never goes silent for longer than [within] while a read waits. *)
Definition progressing (within : Duration) (now : Time) (up : list arrival) : Prop :=
  Forall (fun sa => at_ sa.2 - sa.1 <= within) (starts now up).

Definition chunks (bs : list bytes) (ats : list (Duration * Time)) (fin : Duration * Time) : list arrival :=
  zip_with (fun b la => {| lag := la.1; at_ := la.2; what := Chunk b |}) bs ats ++
  [{| lag := fin.1; at_ := fin.2; what := End_ |}].

Lemma expires_none within start a :
  at_ a - start <= within -> expires (Some (start + within)) a = None.
Proof. intros Hp. unfold expires. destruct (Z.ltb_spec (start + within) (at_ a)); [lia|done]. Qed.

Lemma read_all_progress within bs : forall ats fin n dl acc now,
  length ats = length bs -> progressing within now (chunks bs ats fin) ->
  exists r, read_all (fun _ => true) within n dl false false acc now (chunks bs ats fin) = Some r /\
    body r = Some (acc ++ concat bs) /\ err r = None.
Proof.
  unfold progressing, chunks. induction bs as [|b bs IH]; intros [|la ats] fin n dl acc now Hl Hp; simplify_eq/=.
  - inversion Hp as [|? ? H1 _]; subst. simpl in H1. rewrite expires_none by done. simpl. eexists. split; [done|].
    simpl. by rewrite app_nil_r.
  - inversion Hp as [|? ? H1 H2]; subst. simpl in H1. rewrite expires_none by done.
    destruct (IH ats fin (S n) (Some (now + la.1 + within)) (acc ++ b) (Z.max (now + la.1) la.2)) as (r & Hr & Hb & He); [lia|done|].
    exists r. split; [exact Hr|]. by rewrite Hb, <- app_assoc.
Qed.

(** The moment of the last progress before the read ended. *)
Lemma read_all_silence within up : 0 <= within -> forall n dl acc now,
  Forall (fun a => 0 <= lag a) up ->
  exists r, read_all (fun _ => true) within n dl false false acc now up = Some r /\
    (err r = Some ErrDeadline -> exists k start, finished r = start + within /\
       ((exists a, starts now up !! k = Some (start, a) /\ within < at_ a - start) \/
        (k = length up /\ start = foldl (fun t a => Z.max (t + lag a) (at_ a)) now up)) \/
       exists a, a ∈ up /\ what a = Fails ErrDeadline).
Proof.
  intros Hw. induction up as [|a up IH]; intros n dl acc now Hl; cbn [read_all].
  - simpl. eexists. split; [done|]. intros _. exists 0%nat, now. left. simpl. split; [lia|by right].
  - inversion Hl as [|? ? Hla Hl']; subst. cbn [orb negb andb]. unfold expires.
    destruct (Z.ltb_spec (now + lag a + within) (at_ a)) as [Hlt|Hge].
    + eexists. split; [done|]. intros _. exists 0%nat, (now + lag a). left. simpl. split; [lia|left].
      exists a. split; [done|lia].
    + destruct (what a) as [b| |e] eqn:Ew.
      * destruct (IH (S n) (Some (now + lag a + within)) (acc ++ b) (Z.max (now + lag a) (at_ a)) Hl') as (r & Hr & Hx).
        exists r. split; [exact Hr|]. intros He. destruct (Hx He) as (k & start & [(Hf & Hc)|(a' & Hin & Hfa)]).
        -- exists (S k), start. left. split; [done|]. destruct Hc as [Hc|[-> ->]]; [by left|by right].
        -- exists 0%nat, 0. right. exists a'. split; [by right|done].
      * eexists. split; [done|]. simpl. done.
      * eexists. split; [done|]. simpl. intros [= ->]. exists 0%nat, 0. right. exists a. split; [by left|done].
Qed.

(** C39: The read timeout bounds silence and not duration: however long the upload
    takes in all, a body whose reads never wait more than the bound is read
    completely; and when the handler gives up, a read had waited exactly the
    bound with nothing arriving, so a stalled caller holds its queue slot no
    longer than that past its last byte. *)
Theorem body_read_bounds_silence within now bs ats fin up :
  0 <= within -> length ats = length bs -> Forall (fun a => 0 <= lag a) up ->
  (progressing within now (chunks bs ats fin) ->
   exists r, readBodyWithin (fun _ => true) within now (chunks bs ats fin) = Some r /\ body r = Some (concat bs) /\
     err r = None /\ deadline r = None) /\
  exists r, readBodyWithin (fun _ => true) within now up = Some r /\
    (err r = Some ErrDeadline -> exists k start, finished r = start + within /\
       ((exists a, starts now up !! k = Some (start, a) /\ within < at_ a - start) \/
        (k = length up /\ start = foldl (fun t a => Z.max (t + lag a) (at_ a)) now up)) \/
       exists a, a ∈ up /\ what a = Fails ErrDeadline).
Proof.
  intros Hw Hl Hlag. unfold readBodyWithin. cbn [negb]. split.
  - intros Hp. destruct (read_all_progress within bs ats fin 1 (Some (now + within)) [] now Hl Hp) as (r & Hr & Hb & He).
    rewrite Hr. simpl. rewrite He. by eexists.
  - destruct (read_all_silence within up Hw 1 (Some (now + within)) [] now Hlag) as (r & Hr & Hx). rewrite Hr. simpl.
    destruct (err r) as [e|] eqn:Ee; [exists r; split; [done|by rewrite Ee]|by eexists].
Qed.

(** ** Examples and witnesses *)

(** Three seconds between segments, for a minute, against a bound of five. *)
Definition ex_slow : list (Duration * Time) := List.map (fun i => (0, 3 * Second * Z.of_nat i)) (seq 1 20).

Lemma body_read_bounds_silence_witness :
  (exists r, readBodyWithin (fun _ => true) (5 * Second) 0 (chunks (replicate 20 [byte 97]) ex_slow (0, 61 * Second)) = Some r /\
     body r = Some (replicate 20 (byte 97))) /\
  exists r, readBodyWithin (fun _ => true) (5 * Second) 0 [{| lag := 0; at_ := 2 * Second; what := Chunk [byte 97] |}] = Some r /\
    finished r = 7 * Second.
Proof.
  destruct (body_read_bounds_silence (5 * Second) 0 (replicate 20 [byte 97]) ex_slow (0, 61 * Second)
    [{| lag := 0; at_ := 2 * Second; what := Chunk [byte 97] |}]) as [H1 H2].
  - vm_compute. discriminate.
  - reflexivity.
  - repeat constructor. vm_compute. discriminate.
  - split.
    + destruct H1 as (r & Hr & Hb & _); [unfold progressing; apply (bool_decide_unpack _); vm_compute; exact I|]. exists r. split; [exact Hr|exact Hb].
    + destruct H2 as (r & Hr & _). exists r. split; [exact Hr|]. vm_compute in Hr. injection Hr as <-. reflexivity.
Defined.

(** A writer that cannot carry a deadline leaves a silent caller unbounded, and
    says so. *)
Example unbounded_without_deadlines :
  readBodyWithin (fun _ => false) (5 * Second) 0 [{| lag := 0; at_ := 2 * Second; what := Chunk [byte 97] |}] = None /\
  (warned <$> readBodyWithin (fun _ => false) (5 * Second) 0 [{| lag := 0; at_ := Hour; what := End_ |}]) = Some true.
Proof. vm_compute. done. Qed.

End BodyRead.
