(* ===== verification/Relay.v ===== *)
(** * The relay of a response

    Models the end of [handleProxy] of [src/main.go]: the copy of the chosen
    response to the client through [io.TeeReader], [limitedBuffer], the bounded
    capture of it, [observeTokenRates], and how the request is counted.
    [io.TeeReader] hands every chunk of the stream to [Write]; the answer is
    always the length of the chunk, so the capture can never cut the stream
    short. *)

From Stdlib Require Import ZArith Lia Ascii String.
From stdpp Require Import base option list gmap strings.
From S2P Require Import Prelude GoStrings Float64 RouterConfig RequestBody.

Module Relay.
Import GoStrings RequestBody.

Record limitedBuffer := { limit : Z; captured : list ascii }.

(** The reported length, and the buffer. *)
Definition Write (b : limitedBuffer) (p : list ascii) : Z * limitedBuffer :=
  let len := Z.of_nat (length (captured b)) in
  (Z.of_nat (length p),
   if (limit b <=? 0) || (len <? limit b) then
     let remaining := limit b - len in
     let remaining :=
       if (limit b <=? 0) || (Z.of_nat (length p) <? remaining) then Z.of_nat (length p) else remaining in
     if 0 <? remaining
     then {| limit := limit b; captured := captured b ++ take (Z.to_nat remaining) p |}
     else b
   else b).

Definition Bytes (b : limitedBuffer) : list ascii := captured b.

Definition write_all (b : limitedBuffer) (ps : list (list ascii)) : limitedBuffer :=
  foldl (fun b p => snd (Write b p)) b ps.

(** ** The copy *)

(** How the upstream body ends: at its end, with an error that is the client's
    cancellation or not; and the number of chunks after which the client stops
    taking them, with that error. *)
Inductive ending := Finished_ | Broke (canceled : bool).

Record exchange := { parts : list (list ascii); ends : ending; client_stops : option (nat * bool) }.

(** The bytes the client got, the capture, and the error of [io.Copy]: each
    chunk is captured when it is read, then written to the client. *)
Fixpoint copy_stream (cap : limitedBuffer) (got : list ascii) (ps : list (list ascii)) (e : ending)
    (stop : option (nat * bool)) : list ascii * limitedBuffer * option bool :=
  match ps with
  | [] => (got, cap, match e with Finished_ => None | Broke c => Some c end)
  | p :: ps =>
      let cap := snd (Write cap p) in
      match stop with
      | Some (O, c) => (got, cap, Some c)
      | Some (S n, c) => copy_stream cap (got ++ p) ps e (Some (n, c))
      | None => copy_stream cap (got ++ p) ps e None
      end
  end.

(** The observations of the two rate histograms. *)
Definition observeTokenRates (elapsed : Duration) (body : list ascii)
  : option Float64.float64 * option Float64.float64 :=
  if elapsed <=? 0 then (None, None)
  else
    match extractUsageTokens body with
    | None => (None, None)
    | Some (promptTokens, completionTokens) =>
        let rate n := if 0 <? n then Some (Float64.div (Float64.of_int n) (Float64.Seconds elapsed)) else None in
        (rate completionTokens, rate promptTokens)
    end.

Inductive counted := StreamError | Status (code : Z).

(** The tail of [handleProxy]: what the client got, the label the request is
    counted under, and the token rates. *)
Definition relay_body (code : Z) (elapsed : Duration) (x : exchange)
  : list ascii * counted * (option Float64.float64 * option Float64.float64) :=
  let '(got, cap, err) := copy_stream {| limit := 2 * 2 ^ 20; captured := [] |} [] (parts x) (ends x) (client_stops x) in
  match err with
  | Some false => (got, StreamError, (None, None))
  | _ => (got, Status code, observeTokenRates elapsed (Bytes cap))
  end.

(** ** Properties *)

Lemma Write_bounded b p :
  0 < limit b -> Z.of_nat (length (captured b)) <= limit b ->
  snd (Write b p) = {| limit := limit b; captured := take (Z.to_nat (limit b)) (captured b ++ p) |}.
Proof.
  intros Hl Hc. unfold Write. simpl. rewrite take_app. rewrite (take_ge (captured b)) by lia.
  destruct (Z.leb_spec (limit b) 0); [lia|]. simpl.
  destruct (Z.ltb_spec (Z.of_nat (length (captured b))) (limit b)).
  - destruct (Z.ltb_spec (Z.of_nat (length p)) (limit b - Z.of_nat (length (captured b)))).
    + rewrite (take_ge p) by lia. destruct (Z.ltb_spec 0 (Z.of_nat (length p))).
      * by rewrite (take_ge p) by lia.
      * destruct p; [|simpl in *; lia]. by destruct b; simpl; rewrite ?take_nil, ?app_nil_r.
    + destruct (Z.ltb_spec 0 (limit b - Z.of_nat (length (captured b)))); [|lia]. do 3 f_equal. lia.
  - replace (Z.to_nat (limit b) - length (captured b))%nat with 0%nat by lia.
    by destruct b; simpl; rewrite take_0, app_nil_r.
Qed.

Lemma Write_unbounded b p :
  limit b <= 0 -> snd (Write b p) = {| limit := limit b; captured := captured b ++ p |}.
Proof.
  intros Hl. unfold Write. simpl. destruct (Z.leb_spec (limit b) 0); [|lia]. simpl.
  destruct (Z.ltb_spec 0 (Z.of_nat (length p))).
  - by rewrite take_ge by lia.
  - destruct p; [|simpl in *; lia]. by destruct b; simpl; rewrite ?take_nil, ?app_nil_r.
Qed.

Lemma take_take_app {A} n (c k : list A) : take n (take n c ++ k) = take n (c ++ k).
Proof. rewrite !take_app, take_take, Nat.min_id, length_take. do 2 f_equal. lia. Qed.

(** The capture is the first [limit] bytes of the stream, however it was cut into
    chunks, and the whole stream for a limit that is not positive. *)
Lemma capture_prefix lim ps :
  Bytes (write_all {| limit := lim; captured := [] |} ps) =
  if 0 <? lim then take (Z.to_nat lim) (concat ps) else concat ps.
Proof.
  assert (H : forall b, (0 < limit b -> Z.of_nat (length (captured b)) <= limit b) ->
    Bytes (write_all b ps) = if 0 <? limit b then take (Z.to_nat (limit b)) (captured b ++ concat ps)
                             else captured b ++ concat ps).
  { induction ps as [|p ps IH]; intros b Hb.
    - simpl. rewrite app_nil_r. destruct (Z.ltb_spec 0 (limit b)) as [Hl|]; [|done].
      by rewrite take_ge by (specialize (Hb Hl); lia).
    - change (write_all b (p :: ps)) with (write_all (snd (Write b p)) ps). cbn [concat].
      destruct (Z.ltb_spec 0 (limit b)) as [Hl|Hl].
      + rewrite (Write_bounded b p Hl (Hb Hl)), IH by (simpl; intros _; rewrite length_take; lia). simpl.
        destruct (Z.ltb_spec 0 (limit b)); [|lia]. rewrite app_assoc. apply take_take_app.
      + rewrite (Write_unbounded b p Hl), IH by (simpl; lia). simpl.
        destruct (Z.ltb_spec 0 (limit b)); [lia|]. by rewrite app_assoc. }
  by rewrite H by (simpl; lia).
Qed.

Lemma copy_whole ps : forall cap got, copy_stream cap got ps Finished_ None = (got ++ concat ps, write_all cap ps, None).
Proof.
  induction ps as [|p ps IH]; intros cap got; simpl; [by rewrite app_nil_r|]. rewrite IH. by rewrite <- app_assoc.
Qed.

(** The relay is transparent and its accounting reads the true answer: an
    uninterrupted response reaches the client byte for byte however it was
    chunked and however large it is, it is counted under its own status, and
    for a response of at most 2 MiB the token rates are those of the whole
    body. *)
Theorem relay_transparent code elapsed ps :
  relay_body code elapsed {| parts := ps; ends := Finished_; client_stops := None |} =
  (concat ps, Status code, observeTokenRates elapsed (take (Z.to_nat (2 * 2 ^ 20)) (concat ps))) /\
  (Z.of_nat (length (concat ps)) <= 2 * 2 ^ 20 ->
   observeTokenRates elapsed (take (Z.to_nat (2 * 2 ^ 20)) (concat ps)) = observeTokenRates elapsed (concat ps)).
Proof.
  split; [|intros H; by rewrite take_ge by lia]. unfold relay_body. cbn [parts ends client_stops]. rewrite copy_whole.
  by rewrite capture_prefix.
Qed.

(** A client that goes away in mid-stream is counted under the upstream's status
    with whatever usage was captured; any other failure is a stream error. *)
Example cancelled_relay_counts_as_success :
  (relay_body 200 Second {| parts := [[byte 97]; [byte 98]]; ends := Finished_; client_stops := Some (1%nat, true) |}).1.2 = Status 200 /\
  (relay_body 200 Second {| parts := [[byte 97]]; ends := Broke false; client_stops := None |}).1.2 = StreamError.
Proof. vm_compute. done. Qed.

End Relay.
