(* ===== verification/ProxyHandler.v ===== *)
(** * The proxy handler as a whole

    [handleProxy] of [src/main.go] from its first statement to its last, with
    what it writes to the client and every row it adds to the counters and
    histograms of [src/internal/metrics/metrics.go]; [LimitBody], [FlushWriter]
    and [WriteJSON] of [src/internal/proxy/helpers.go].  The stages are the ones
    of [BodyRead], [PII], [SmartRoute], [Selection], [FairShare], [Failover] and
    [Relay] in the order of the source; the queue counter's value, the semaphore
    and the clock readings are arguments, and the counters they move are in
    [Admission].  Log lines are outside. *)

From Stdlib Require Import ZArith Lia Ascii String.
From stdpp Require Import base option list gmap strings.
From S2P Require Import Prelude GoStrings Utf8 Strconv Json JsonIndent Headers Float64 RouterConfig RequestBody SmartRoute PII Selection Attribution FairShare Failover FailoverSpec Router BodyRead Relay Diagnostics RouterServe.

Module ProxyHandler.
Import GoStrings Utf8 Quote Headers RouterConfig RequestBody Selection Failover.
Import Router(World, upstreams, firstSelection, armedNow, header_get, with_body, apply_smart, SmartRefused, SmartPanic, SmartRouted, ClassFromRequest).

(** ** Writing an answer *)

(** What the client is sent. *)
Record Response := { status : Z; header : Header; written : bytes }.

(** [http.Error] on a writer whose header map is [h]. *)
Definition Error (h : Header) (msg : string) (code : Z) : Response :=
  let h := Del h "Content-Length" in
  let h := Set_ h "Content-Type" "text/plain; charset=utf-8" in
  let h := Set_ h "X-Content-Type-Options" "nosniff" in
  {| status := code; header := h; written := to_bytes msg ++ [byte 10] |}.

(** A JSON literal of the source, its quotation marks written as single quotes. *)
Definition json_text (s : string) : string := of_bytes (Diagnostics.quote_marks s).

(** A payload that does not marshal leaves the body empty: the status is already
    on its way. *)
Definition WriteJSON (code : Z) (payload : option bytes) : Response :=
  {| status := code; header := Set_ ∅ "Content-Type" "application/json";
     written := match payload with Some b => b ++ [byte 10] | None => [] end |}.

(** The writer under the relay: what it was handed and what it has pushed out. *)
Record writer := { pending : bytes; pushed : bytes; flusher : bool }.

Definition Flush (w : writer) : writer := {| pending := []; pushed := pushed w ++ pending w; flusher := flusher w |}.

(** [FlushWriter.Write], for a writer that takes every byte. *)
Definition flush_write (w : writer) (p : bytes) : Z * writer :=
  let w := {| pending := pending w ++ p; pushed := pushed w; flusher := flusher w |} in
  (Z.of_nat (length p), if flusher w then Flush w else w).

(** ** The body under the limit of the listener *)

Definition ErrTooLarge : BodyRead.readErr := BodyRead.ErrOther "http: request body too large".

(** [LimitBody] puts [http.MaxBytesReader] before the upload: the read that goes
    past the limit fails. *)
Fixpoint limit_reads (n : Z) (up : list BodyRead.arrival) : list BodyRead.arrival :=
  match up with
  | [] => []
  | a :: up =>
      match BodyRead.what a with
      | BodyRead.Chunk b =>
          if Z.of_nat (length b) <=? n then a :: limit_reads (n - Z.of_nat (length b)) up
          else [{| BodyRead.lag := BodyRead.lag a; BodyRead.at_ := BodyRead.at_ a; BodyRead.what := BodyRead.Fails ErrTooLarge |}]
      | _ => a :: up
      end
  end.

Definition LimitBody (limit : Z) (up : list BodyRead.arrival) : list BodyRead.arrival := limit_reads (Z.max 0 limit) up.

(** ** Rows of the metrics *)

(** The last label of [requestsTotal]. *)
Inductive outcome :=
| body_too_large | queue_full | body_read_timeout | customer_tenant_missing | agent_disabled
| pii_no_local_node_ | customer_no_node_ | unavailable_ | cancelled | fairshare_rejected | bad_gateway | stream_error
| key_cooled (code : Z) | failed_over (code : Z) | relayed (code : Z).

Definition itoa (z : Z) : string := of_bytes (Strconv.Itoa z).

Definition label (o : outcome) : string :=
  match o with
  | body_too_large => "body_too_large" | queue_full => "queue_full" | body_read_timeout => "body_read_timeout"
  | customer_tenant_missing => "customer_tenant_missing" | agent_disabled => "agent_disabled"
  | pii_no_local_node_ => "pii_no_local_node" | customer_no_node_ => "customer_no_node" | unavailable_ => "unavailable"
  | cancelled => "cancelled" | fairshare_rejected => "fairshare_rejected" | bad_gateway => "bad_gateway"
  | stream_error => "stream_error"
  | key_cooled c => "key_cooled_" ++ itoa c | failed_over c => "failover_" ++ itoa c | relayed c => itoa c
  end.

Inductive row :=
| requestsTotal (model node : string) (o : outcome)
| requestRetries (model node : string)
| quotaFallbackTotal (model node vendor : string)
| nodeHealthyZero (node tier : string)
| piiLocalRequests (what : string)
| fairShareRejectedTotal (user : string)
| requestTTFT (model node : string) (d : Duration)
| tokenRate (prompt : bool) (model node : string) (rate : Float64.float64)
| requestDuration (model node : string) (d : Duration).

(** ** The rows of the failover loop *)

(** Each follows the definition of [Failover] of the same name over the same
    state, and lists what that code adds to the metrics. *)
Section loop_rows.
Context (e : Env) (q : query) (r : Request).

Definition doUpstream_rows (k i : nat) (body : string) (n : upstreamNode) (st : store) : list row :=
  match build e k 0 i r body n (-1) st with
  | (inl _, _, _) => []
  | (inr req, _, _) =>
      match Do e k 0 req with
      | DoErr msg => if IsRetryableConnError msg then [requestRetries (model q) (Name (cfg n))] else []
      | DoResp _ _ => []
      end
  end.

Definition retry_row (n : upstreamNode) (s : selection) : list row :=
  match s with Chosen _ => [requestRetries (model q) (Name (cfg n))] | _ => [] end.

Definition fail_over_rows (k i : nat) (n : upstreamNode) (resp : response) (l : loop) : list row :=
  let l := at_node l i (record_failure (ckFail (clk e k))) in
  let l := hold (resp, i) l in
  requestsTotal (model q) (Name (cfg n)) (failed_over (rstatus resp)) ::
  retry_row n (select_next e (ckNext (clk e k)) q (l_tried l) (l_store l)).1.

Definition quota_rows (n : upstreamNode) (body : string) : list row :=
  match quotaDet n with
  | Some pat => if quotaMatch e pat (substring 0 (64 * 1024) body)
                then [quotaFallbackTotal (model q) (Name (cfg n)) (Vendor (cfg n))] else []
  | None => []
  end.

Definition on_failover_rows (k i : nat) (n : upstreamNode) (used : Z) (resp : response) (l : loop) : list row :=
  quota_rows n (rbody resp) ++
  (if quotaHit e n (rstatus resp) (rbody resp) && (0 <=? used) then
     let '(others, l) := cool_key e k i used n l in
     if others then
       requestsTotal (model q) (Name (cfg n)) (key_cooled (rstatus resp)) ::
       let l := hold (resp, i) (mark_cooled l k) in
       let '(s, st) := select_next e (ckSame (clk e k)) q (l_tried l ∖ {[ Name (cfg n) ]}) (l_store l) in
       let l := with_store l st in
       match s with
       | Panic => []
       | Chosen j =>
           if bool_decide ((Name ∘ cfg <$> st.1 !! j) = Some (Name (cfg n))) then [requestRetries (model q) (Name (cfg n))]
           else fail_over_rows k i n resp l
       | NoNode => fail_over_rows k i n resp l
       end
     else fail_over_rows k i n resp l
   else fail_over_rows k i n resp l).

Definition iteration_rows (k i : nat) (n : upstreamNode) (l : loop) : list row :=
  match forwardBody (cfg n) (Body r) with
  | None => []
  | Some fwdBody =>
      doUpstream_rows k i fwdBody n (l_store l) ++
      let '(res, used, l) := attempt e k i r fwdBody n l in
      match res with
      | DoErr msg =>
          let l := on_error e k i msg l in
          (if negb (HealthCheckDisabled (cfg n)) then [nodeHealthyZero (Name (cfg n)) (Tier (cfg n))] else []) ++
          retry_row n (select_next e (ckNext (clk e k)) q (l_tried l) (l_store l)).1
      | DoResp code body =>
          let resp := {| rid := k; rstatus := code; rbody := body |} in
          if isFailoverStatus code then on_failover_rows k i (default n ((l_store l).1 !! i)) used resp l else []
      end
  end.

Fixpoint failover_rows (fuel k i : nat) (l : loop) : list row :=
  match fuel with
  | O => []
  | S fuel' =>
      match (l_store l).1 !! i with
      | None => []
      | Some n =>
          iteration_rows k i n l ++
          let '(v, l) := iteration e k i q r n l in
          match v with Continue j => failover_rows fuel' (S k) j l | _ => [] end
      end
  end.

End loop_rows.

(** ** The handler *)

(** What the outside decides about one request. *)
Record Scene := {
  world : World;
  bodyLimit : Z;                                          (* max_body_size when the process started *)
  queueNumber : Z;                                        (* what queueDepth.Add(1) returned *)
  setOK : nat -> bool;                                    (* SetReadDeadline *)
  readAt : Time;
  upload : list BodyRead.arrival;
  granted : bool;                                         (* the semaphore, or the end of the context *)
  hexSHA : string -> string;
  fairNew : Time;
  fairAllow : Time;
  respHeader : nat -> list (string * list string);        (* of the response of an attempt *)
  stream : response -> Relay.exchange;
  ttft : Duration;
  elapsed : Duration;
  printable : Z -> bool;
}.

(** How the handler ends: an answer, a panic, or never (an upload with no
    deadline that falls silent). *)
Inductive finish := Replied (r : Response) | Panicked_ | Waits.

Record trace := {
  fin : finish;
  rows : list row;
  calls : list sent;
  fair : option FairShare.Scheduler;
}.

Definition nodeName (st : store) (i : nat) : string := default "" (Name ∘ cfg <$> st.1 !! i).

Section handler.
Context (sc : Scene).

Let env : Env := upstreams (world sc).

Definition headers_of (r : Request) : Header := list_to_map (RHeader r).

(** The relay of a response: [WriteHeader] panics on a status outside 100..999. *)
Definition relay (mdl node : string) (resp : response) : finish * list row :=
  let first := requestTTFT mdl node (ttft sc) in
  if (rstatus resp <? 100) || (999 <? rstatus resp) then (Panicked_, [first])
  else
    let '(got, c, (gen, prompt)) := Relay.relay_body (rstatus resp) (elapsed sc) (stream sc resp) in
    let rate p x := match x with Some v => [tokenRate p mdl node v] | None => [] end in
    (Replied {| status := rstatus resp; header := CopyHeaders ∅ (respHeader sc (rid resp)); written := got |},
     first ::
     match c with
     | Relay.StreamError => [requestsTotal mdl node stream_error]
     | Relay.Status code =>
         rate false gen ++ rate true prompt ++ [requestsTotal mdl node (relayed code); requestDuration mdl node (elapsed sc)]
     end).

(** From the first attempt to the end. *)
Definition forward (q : query) (r : Request) (i : nat) (st : store) : finish * list row * list sent :=
  let '(ans, l) := run_failover env i q r st in
  let attempts := failover_rows env q r maxFailoverAttempts 0 i (initial st) in
  let '(f, last) :=
    match ans with
    | Relay resp j => relay (model q) (nodeName (l_store l) j) resp
    | BadGateway err =>
        (Replied (Error ∅ ("upstream request failed: " ++ default "<nil>" err) 502),
         [requestsTotal (model q) (nodeName st i) bad_gateway])
    | Refused _ | Crash => (Panicked_, [])
    end in
  (f, attempts ++ last, l_sent l).

(** The three 503s. *)
Definition refuse_node (mdl : string) (why : refusal) : Response * list row :=
  match why with
  | pii_no_local_node =>
      (Error ∅ (json_text "{'error':'no pii-local upstream available for this request'}") 503,
       [piiLocalRequests "no_local_node_refused"; requestsTotal mdl "none" pii_no_local_node_])
  | customer_no_node =>
      (Error (Set_ ∅ "Retry-After" "30") (json_text "{'error':'no customer-eligible upstream available; request held for retry'}") 503,
       [requestsTotal mdl "none" customer_no_node_])
  | unavailable =>
      (Error ∅ "no healthy upstream available for requested model" 503, [requestsTotal mdl "none" unavailable_])
  end.

(** From the semaphore on: the node [i] is chosen. *)
Definition admitted (q : query) (r : Request) (i : nat) (st : store) (sch : option FairShare.Scheduler)
  : finish * list row * list sent * option FairShare.Scheduler :=
  let node := nodeName st i in
  if negb (granted sc) then
    (Replied (Error ∅ "request cancelled while queued" 408), [requestsTotal (model q) node cancelled], [], sch)
  else
    let '(ok, sch) := FairShare.fair_gate (hexSHA sc) (headers_of r) (fairNew sc) (fairAllow sc) sch in
    if negb ok then
      (Replied (Error ∅ (json_text "{'error':'per-user rate limit exceeded'}") 429),
       [fairShareRejectedTotal (FairShare.user_of (hexSHA sc) (headers_of r)); requestsTotal (model q) node fairshare_rejected],
       [], sch)
    else (forward q r i (queued env st), sch).

(** The choice of the node for the body as it will be sent. *)
Definition route (class : WorkloadClass) (personal : bool) (tier : string) (r : Request) (st : store) (sch : option FairShare.Scheduler)
  : finish * list row * list sent * option FairShare.Scheduler :=
  let mdl := ExtractModel (Body r) in
  let q := {| model := mdl; targetTier := tier; excluded := ∅; class := class; personal := personal |} in
  let '(s, ns, rr) := selectNodeFromSnap (firstSelection (world sc)) mdl tier "" class personal st.1 st.2 in
  match s with
  | Panic => (Panicked_, [], [], sch)
  | NoNode =>
      let '(resp, rows) :=
        refuse_node mdl (if personal then pii_no_local_node
                         else if decide (class = ClassCustomer) then customer_no_node else unavailable) in
      (Replied resp, rows, [], sch)
  | Chosen i => admitted q r i (ns, rr) sch
  end.

Definition pii_rows (bodyPersonal personal : bool) : list row :=
  if personal then [piiLocalRequests "detected"]
  else if bodyPersonal then [piiLocalRequests "detected_rule_off"] else [].

(** From the body in memory to the choice of a node. *)
Definition classify (rs : routerState) (ctx : option WorkloadClass) (r : Request) (rr : Z) (sch : option FairShare.Scheduler)
  : finish * list row * list sent * option FairShare.Scheduler :=
  let class := ClassFromRequest ctx in
  let bodyPersonal := PII.DetectPersonal (Body r) in
  let personal := bodyPersonal && armedNow (world sc) in
  let seen := pii_rows bodyPersonal personal in
  if bool_decide (class = ClassCustomer) && (TrimSpace (header_get r "X-HLXN-Tenant") =s "") then
    (Replied (Error ∅ (json_text "{'error':'X-HLXN-Tenant header required for customer requests'}") 400),
     seen ++ [requestsTotal "unknown" "none" customer_tenant_missing], [], sch)
  else
    match apply_smart (smart rs) r with
    | SmartRefused =>
        (Replied (Error ∅ ("route disabled for agent " ++ Quote (printable sc) (SmartRoute.DetectAgent (headers_of r)) ++
                           " by smartroute policy") 403),
         seen ++ [requestsTotal (ExtractModel (Body r)) "none" agent_disabled], [], sch)
    | SmartPanic => (Panicked_, seen, [], sch)
    | SmartRouted r' tier =>
        let '(f, rws, cs, sch) := route class personal tier r' (rnodes rs, rr) sch in (f, seen ++ rws, cs, sch)
    end.

(** The answer to a read that failed; [MaxBytesReader] has marked the connection
    to be closed. *)
Definition read_failed (err : BodyRead.readErr) : Response * list row :=
  match BodyRead.read_refusal err with
  | BodyRead.RequestTimeout =>
      (Error (Set_ ∅ "Connection" "close") "request body stalled: no progress within body_read_timeout" 408,
       [requestsTotal "unknown" "none" body_read_timeout])
  | BodyRead.BadRequest (BodyRead.ErrOther msg) =>
      (Error (if msg =s "http: request body too large" then Set_ ∅ "Connection" "close" else ∅) ("read request body: " ++ msg) 400, [])
  | BodyRead.BadRequest _ => (Error ∅ "read request body: i/o timeout" 400, [])
  end.

Definition handle (rs : routerState) (sch : option FairShare.Scheduler) (rr : Z) (ctx : option WorkloadClass)
    (contentLength : Z) (r : Request) : trace :=
  let answer resp rws := {| fin := Replied resp; rows := rws; calls := []; fair := sch |} in
  let maxBody := MaxBodySize (CDefaults (rcfg rs)) in
  if (0 <? maxBody) && (maxBody <? contentLength) then
    answer (Error ∅ "request body exceeds max_body_size" 413) [requestsTotal "unknown" "none" body_too_large]
  else if MaxQueueDepth (CDefaults (rcfg rs)) <? queueNumber sc then
    answer (Error ∅ "router queue is full" 429) [requestsTotal "unknown" "none" queue_full]
  else
    match BodyRead.readBodyWithin (setOK sc) (BodyRead.bodyReadTimeout (rcfg rs)) (readAt sc)
            (LimitBody (bodyLimit sc) (upload sc)) with
    | None => {| fin := Waits; rows := []; calls := []; fair := sch |}
    | Some res =>
        match BodyRead.err res with
        | Some err => let '(resp, rws) := read_failed err in answer resp rws
        | None =>
            let '(f, rws, cs, sch) := classify rs ctx (with_body r (of_bytes (default [] (BodyRead.body res)))) rr sch in
            {| fin := f; rows := rws; calls := cs; fair := sch |}
        end
    end.

(** The deferred attribution runs on every return, a panic included. *)
Definition handleProxy (a : Attribution.Attribution) (start now : Time) (rs : routerState) (sch : option FairShare.Scheduler) (rr : Z)
    (ctx : option WorkloadClass) (contentLength : Z) (r : Request) : trace * Attribution.outcome :=
  let t := handle rs sch rr ctx contentLength r in
  (t, match fin t with
      | Waits => Attribution.Returned a
      | _ => Attribution.Record_ a (Attribution.AgentFromHeader (headers_of r)) start now
      end).

End handler.

(** ** The bearer middleware and the public listener *)

(** A middleware lets the request through, with the class it puts in the
    context, or answers it and calls the reject hook with the path. *)
Inductive auth := Through (ctx : option WorkloadClass) | Rejected (resp : Response) (hook : list string).

Definition unauthorized : Response := Error ∅ (json_text "{'error':'unauthorized'}") 401.

(** The static form has no hook. *)
Definition BearerAuth (token authorization : string) : auth :=
  if token =s "" then Through None
  else if negb (authorization =s ("Bearer " ++ token)) then Rejected unauthorized [] else Through None.

(** [onReject] is the hook [SetAuthRejectHook] installed last, [false] for none. *)
Definition BearerAuthFunc (onReject : bool) (token path authorization : string) : auth :=
  if token =s "" then Through None
  else if negb (authorization =s ("Bearer " ++ token)) then Rejected unauthorized (if onReject then [path] else []) else Through None.

Definition ClassBearerAuthFunc (onReject : bool) (internal : string) (customerTokens : list string) (path authorization : string) : auth :=
  match Router.ClassBearerAuth internal customerTokens authorization with
  | Some ctx => Through ctx
  | None => Rejected unauthorized (if onReject then [path] else [])
  end.

(** What the public listener does with a request: the mux, the middleware of
    [runServe] with its hook installed, the handler. *)
Inductive public :=
| PRedirect (target : string) | PNotFound | PRejected (resp : Response) (labels : list string)
| PEndpoint (e : RouterServe.endpoint) | PProxy (t : trace).

Definition serve_public (sc : Scene) (rs : routerState) (sch : option FairShare.Scheduler) (rr : Z) (contentLength : Z) (r : Request) : public :=
  match RouterServe.mux_route (Path r) with
  | RouterServe.Redirect target => PRedirect target
  | RouterServe.NotFound => PNotFound
  | RouterServe.Handler wrapped e =>
      let go ctx := match e with
                    | RouterServe.handleProxy => PProxy (handle sc rs sch rr ctx contentLength r)
                    | _ => PEndpoint e
                    end in
      if wrapped then
        match ClassBearerAuthFunc true (RouterServe.AuthToken rs) (RouterServe.CustomerTokens rs) (Path r) (header_get r "Authorization") with
        | Through ctx => go ctx
        | Rejected resp labels => PRejected resp labels
        end
      else go None
  end.

(** ** Properties *)

(** The rejects a stranger can cause are counted under a label of the mux, never
    under a text of the caller's choosing, whatever path it asks for. *)
Theorem reject_labels_known sc rs sch rr contentLength r resp labels :
  serve_public sc rs sch rr contentLength r = PRejected resp labels ->
  status resp = 401 /\ labels = [Path r] /\ Path r ∈ ["/v1/models"; "/v1/chat/completions"; "/v1/completions"; "/v1/embeddings"]%string.
Proof.
  unfold serve_public. destruct (RouterServe.mux_route (Path r)) as [| |wrapped e] eqn:Er; try done.
  pose proof (RouterServe.route_cases _ _ _ Er) as Hin. destruct wrapped; [|by destruct e].
  unfold ClassBearerAuthFunc. destruct (Router.ClassBearerAuth _ _ _); [by destruct e|]. intros [= <- <-].
  split_and!; [done|done|]. clear Er. unfold RouterServe.serveMux in Hin. rewrite !elem_of_cons in *. set_solver.
Qed.

(** ** What llm_router_requests_total counts *)

(** The increments of [requestsTotal], in order, by their last label. *)
Definition outcomes (l : list row) : list outcome :=
  omap (fun x => match x with requestsTotal _ _ o => Some o | _ => None end) l.

(** What one attempt adds: an answer that fails over is counted as such, as the
    cooling of a key when it cooled one, or, when the node is then not chosen
    again, as both; nothing else is counted. *)
Definition attempt_counts (res : DoResult) (os : list outcome) : Prop :=
  match res with
  | DoErr _ => os = []
  | DoResp code _ =>
      if isFailoverStatus code then
        os = [failed_over code] \/ os = [key_cooled code] \/ os = [key_cooled code; failed_over code]
      else os = []
  end.

(** The status an outcome is written with; a broken stream had its status
    written before. *)
Definition outcome_status (o : outcome) : option Z :=
  match o with
  | body_too_large => Some 413
  | queue_full | fairshare_rejected => Some 429
  | body_read_timeout | cancelled => Some 408
  | customer_tenant_missing => Some 400
  | agent_disabled => Some 403
  | pii_no_local_node_ | customer_no_node_ | unavailable_ => Some 503
  | bad_gateway => Some 502
  | relayed c => Some c
  | stream_error | key_cooled _ | failed_over _ => None
  end.

(** The last increment of a request that was answered: the status the client was
    sent, or a stream that broke after the upstream's status had been sent. *)
Definition final (sc : Scene) (o : outcome) (resp : Response) : Prop :=
  outcome_status o = Some (status resp) \/
  (o = stream_error /\ exists up, rstatus up = status resp /\
     (Relay.relay_body (rstatus up) (elapsed sc) (stream sc up)).1.2 = Relay.StreamError).

(** The increments of one request whose attempts were answered with [answers]. *)
Definition counted (sc : Scene) (f : finish) (rws : list row) (answers : list DoResult) : Prop :=
  exists blocks, Forall2 attempt_counts answers blocks /\
    match f with
    | Replied resp => exists o, outcomes rws = concat blocks ++ [o] /\ final sc o resp
    | _ => outcomes rws = concat blocks
    end.

Lemma outcomes_app l1 l2 : outcomes (l1 ++ l2) = outcomes l1 ++ outcomes l2.
Proof. apply omap_app. Qed.

Lemma pii_rows_outcomes a b : outcomes (pii_rows a b) = [].
Proof. by destruct a, b. Qed.

Lemma retry_row_outcomes q n s : outcomes (retry_row q n s) = [].
Proof. by destruct s. Qed.

Lemma fail_over_rows_outcomes e q k i n resp l : outcomes (fail_over_rows e q k i n resp l) = [failed_over (rstatus resp)].
Proof. unfold fail_over_rows. cbn [outcomes omap list_omap]. f_equal. apply retry_row_outcomes. Qed.

Lemma quota_rows_outcomes e q n b : outcomes (quota_rows e q n b) = [].
Proof. unfold quota_rows. by repeat case_match. Qed.

Lemma doUpstream_rows_outcomes e q r k i b n st : outcomes (doUpstream_rows e q r k i b n st) = [].
Proof. unfold doUpstream_rows. by repeat case_match. Qed.

Lemma outcomes_cons m n o l : outcomes (requestsTotal m n o :: l) = o :: outcomes l.
Proof. done. Qed.

Lemma on_failover_rows_outcomes e q k i n used resp l body :
  isFailoverStatus (rstatus resp) = true ->
  attempt_counts (DoResp (rstatus resp) body) (outcomes (on_failover_rows e q k i n used resp l)).
Proof.
  intros Hf. unfold attempt_counts. rewrite Hf. unfold on_failover_rows. rewrite outcomes_app, quota_rows_outcomes. cbn [app].
  destruct (_ && _); [|left; apply fail_over_rows_outcomes].
  destruct (cool_key _ _ _ _ _ _) as [[|] l1]; [|left; apply fail_over_rows_outcomes].
  rewrite outcomes_cons. destruct (select_next _ _ _ _ _) as [[| |j] st]; [by right; left| |].
  - right. right. by rewrite fail_over_rows_outcomes.
  - case_bool_decide; [by right; left|]. right. right. by rewrite fail_over_rows_outcomes.
Qed.

Lemma fail_over_results e k i q resp l : l_results (fail_over e k i q resp l).2 = l_results l.
Proof. unfold fail_over. by destruct (select_next _ _ _ _ _). Qed.

Lemma cool_key_results e k i used n l : l_results (cool_key e k i used n l).2 = l_results l.
Proof. unfold cool_key. by destruct (keys n). Qed.

Lemma on_failover_results e k i q n used resp l : l_results (on_failover e k i q n used resp l).2 = l_results l.
Proof.
  unfold on_failover. destruct (_ && _); [|apply fail_over_results].
  pose proof (cool_key_results e k i used n l) as Hc. destruct (cool_key _ _ _ _ _ _) as [[|] l1]; [|by rewrite fail_over_results].
  destruct (select_next _ _ _ _ _) as [[| |j] st]; [done|by rewrite fail_over_results|].
  case_bool_decide; [done|by rewrite fail_over_results].
Qed.

(** An iteration makes one attempt, or panics before it. *)
Lemma iteration_counts e q r k i n l :
  exists answers blocks, l_results (iteration e k i q r n l).2 = l_results l ++ answers /\
    Forall2 attempt_counts answers blocks /\ outcomes (iteration_rows e q r k i n l) = concat blocks.
Proof.
  unfold iteration, iteration_rows. destruct (forwardBody _ _) as [fwd|]; [|exists [], []; by rewrite app_nil_r].
  rewrite outcomes_app, doUpstream_rows_outcomes. cbn [app].
  destruct (attempt e k i r fwd n l) as [[res used] l1] eqn:Ea.
  assert (Hr : l_results l1 = l_results l ++ [res]).
  { unfold attempt in Ea. destruct (doUpstream _ _ _ _ _ _ _) as [[[? ?] ?] ?]. by injection Ea as <- <- <-. }
  destruct res as [msg|code body].
  - exists [DoErr msg], [[]]. destruct (select_next _ _ _ _ _) as [s st]. split; [exact Hr|]. split; [by repeat constructor|].
    rewrite outcomes_app, retry_row_outcomes. by destruct (HealthCheckDisabled _).
  - destruct (isFailoverStatus code) eqn:Ef.
    + exists [DoResp code body]. eexists [_]. split; [by rewrite on_failover_results|].
      split; [constructor; [|constructor]|simpl; symmetry; apply app_nil_r].
      by apply (on_failover_rows_outcomes e q k i _ used {| rid := k; rstatus := code; rbody := body |}).
    + exists [DoResp code body], [[]]. split; [exact Hr|]. split; [|done]. constructor; [|constructor]. unfold attempt_counts. by rewrite Ef.
Qed.

Lemma failover_counts e q r fuel : forall k i l,
  exists answers blocks, l_results (failover e fuel k i q r l).2 = l_results l ++ answers /\
    Forall2 attempt_counts answers blocks /\ outcomes (failover_rows e q r fuel k i l) = concat blocks.
Proof.
  assert (H0 : forall l : loop, exists answers blocks, l_results l = l_results l ++ answers /\
    Forall2 attempt_counts answers blocks /\ outcomes [] = concat blocks) by (intros l; exists [], []; by rewrite app_nil_r).
  induction fuel as [|fuel IH]; intros k i l; [apply H0|]. cbn [failover failover_rows].
  destruct (_ !! i) as [n|]; [|apply H0].
  destruct (iteration_counts e q r k i n l) as (a1 & b1 & Hr1 & Hf1 & Ho1). rewrite outcomes_app, Ho1.
  destruct (iteration e k i q r n l) as [v l1]. cbn [snd] in Hr1.
  destruct v as [j| | |]; try (exists a1, b1; cbn [outcomes omap list_omap snd]; by rewrite app_nil_r).
  destruct (IH (S k) j l1) as (a2 & b2 & Hr2 & Hf2 & Ho2). exists (a1 ++ a2), (b1 ++ b2).
  split; [by rewrite Hr2, Hr1, app_assoc|]. split; [by apply Forall2_app|]. by rewrite Ho2, concat_app.
Qed.

Lemma counted_before sc f pre rws answers : outcomes pre = [] -> counted sc f rws answers -> counted sc f (pre ++ rws) answers.
Proof. intros Hp. unfold counted. by rewrite outcomes_app, Hp. Qed.

Lemma counted_single sc resp rws o : outcomes rws = [o] -> outcome_status o = Some (status resp) -> counted sc (Replied resp) rws [].
Proof. intros Ho Hs. exists []. split; [constructor|]. exists o. split; [done|by left]. Qed.

Lemma relay_counted sc mdl node resp : let '(f, rws) := relay sc mdl node resp in counted sc f rws [].
Proof.
  unfold relay. destruct (_ || _); [by exists []|].
  destruct (Relay.relay_body _ _ _) as [[got c] [gen prompt]] eqn:E.
  assert (Hc : c = Relay.StreamError \/ c = Relay.Status (rstatus resp)).
  { unfold Relay.relay_body in E. destruct (Relay.copy_stream _ _ _ _ _) as [[? ?] [[|]|]]; simplify_eq; auto. }
  destruct Hc as [->| ->].
  - exists []. split; [constructor|]. exists stream_error. split; [done|]. right. split; [done|]. exists resp. by rewrite E.
  - apply (counted_single _ _ _ (relayed (rstatus resp))); [by destruct gen, prompt|done].
Qed.

Lemma forward_counted sc q r i st :
  let '(f, rws, cs) := forward sc q r i st in let l := (run_failover (upstreams (world sc)) i q r st).2 in
  cs = l_sent l /\ counted sc f rws (l_results l).
Proof.
  unfold forward. set (env := upstreams (world sc)).
  destruct (failover_counts env q r maxFailoverAttempts 0 i (initial st)) as (answers & blocks & Hr & Hf & Ho).
  assert (Hl : l_results (run_failover env i q r st).2 = answers).
  { unfold run_failover. destruct (failover _ _ _ _ _ _ _) as [[] l]; simpl in *; [done| |done]. by destruct (l_held l) as [[]|]. }
  assert (Hadd : forall f rws, counted sc f rws [] -> counted sc f (failover_rows env q r maxFailoverAttempts 0 i (initial st) ++ rws) answers).
  { intros f rws (bl & Hbl & Hx). inversion Hbl; subst. exists blocks. split; [done|]. rewrite outcomes_app, Ho.
    destruct f as [resp| |]; simpl in Hx; [|by rewrite Hx, app_nil_r..]. destruct Hx as (o & -> & Hfin). by exists o. }
  destruct (run_failover env i q r st) as [[why|resp j|err|] l]; cbn [snd] in *; rewrite Hl.
  1,4: split; [done|]; apply Hadd; by exists [].
  - pose proof (relay_counted sc (model q) (nodeName (l_store l) j) resp) as H.
    destruct (relay _ _ _ _) as [f rws]. split; [done|]. by apply Hadd.
  - split; [done|]. apply Hadd. by apply (counted_single _ _ _ bad_gateway).
Qed.

(** The increments of a stage, and the attempts they are for. *)
Definition stage_counted (sc : Scene) (x : finish * list row * list sent * option FairShare.Scheduler) : Prop :=
  let '(f, rws, cs, _) := x in
  exists answers, counted sc f rws answers /\
    ((answers = [] /\ cs = []) \/
     exists q r i st, let l := (run_failover (upstreams (world sc)) i q r st).2 in answers = l_results l /\ cs = l_sent l).

Lemma stage_single sc resp rws sch o :
  outcomes rws = [o] -> outcome_status o = Some (status resp) -> stage_counted sc (Replied resp, rws, [], sch).
Proof. intros Ho Hs. exists []. split; [by eapply counted_single|by left]. Qed.

Lemma stage_before sc pre f rws cs sch :
  outcomes pre = [] -> stage_counted sc (f, rws, cs, sch) -> stage_counted sc (f, pre ++ rws, cs, sch).
Proof. intros Hp (answers & Hc & Hx). exists answers. split; [by apply counted_before|done]. Qed.

Lemma admitted_counted sc q r i st sch : stage_counted sc (admitted sc q r i st sch).
Proof.
  unfold admitted. destruct (granted sc); simpl negb; cbv iota; [|by apply (stage_single _ _ _ _ cancelled)].
  destruct (FairShare.fair_gate _ _ _ _ _) as [[|] sch']; simpl negb; cbv iota; [|by apply (stage_single _ _ _ _ fairshare_rejected)].
  pose proof (forward_counted sc q r i (queued (upstreams (world sc)) st)) as H. destruct (forward _ _ _ _ _) as [[f rws] cs].
  destruct H as [-> Hc]. eexists. split; [exact Hc|]. right.
  exists q, r, i, (queued (upstreams (world sc)) st). done.
Qed.

Lemma route_counted sc class personal tier r st sch : stage_counted sc (route sc class personal tier r st sch).
Proof.
  unfold route. destruct (selectNodeFromSnap _ _ _ _ _ _ _ _) as [[[| |i] ns] rr]; [| |apply admitted_counted].
  - exists []. split; [by exists []|by left].
  - destruct personal; [|destruct (decide _)]; (eapply stage_single; [reflexivity|reflexivity]).
Qed.

Lemma classify_counted sc rs ctx r rr sch : stage_counted sc (classify sc rs ctx r rr sch).
Proof.
  unfold classify. destruct (_ && (_ =s "")).
  { apply stage_before; [apply pii_rows_outcomes|]. by apply (stage_single _ _ _ _ customer_tenant_missing). }
  destruct (apply_smart _ _) as [|r' tier|].
  - apply stage_before; [apply pii_rows_outcomes|]. by apply (stage_single _ _ _ _ agent_disabled).
  - pose proof (route_counted sc (ClassFromRequest ctx) (PII.DetectPersonal (Body r) && armedNow (world sc)) tier r' (rnodes rs, rr) sch) as H.
    destruct (route _ _ _ _ _ _ _) as [[[f rws] cs] sch']. by apply stage_before; [apply pii_rows_outcomes|].
  - exists []. split; [exists []; split; [constructor|apply pii_rows_outcomes]|by left].
Qed.

(** C26: What llm_router_requests_total counts of one request, all of it: first, for
    each upstream attempt that was answered with a failover status, an increment
    as failed over, as having cooled a key, or as both, so that the counter counts
    attempts too; then, when
    the request is answered, exactly one more, under the status the client was
    sent or, when the relayed body broke off after that status had gone out, as
    stream_error; nothing more when it panics or is still being read.  The
    exception is a request body that broke off for another reason than silence:
    its 400 is not counted at all. *)
Theorem requests_total_exact sc rs sch rr ctx contentLength r :
  let t := handle sc rs sch rr ctx contentLength r in
  (exists answers, counted sc (fin t) (rows t) answers /\
     ((answers = [] /\ calls t = []) \/
      exists q r' i st, let l := (run_failover (upstreams (world sc)) i q r' st).2 in answers = l_results l /\ calls t = l_sent l)) \/
  (exists res err resp,
     BodyRead.readBodyWithin (setOK sc) (BodyRead.bodyReadTimeout (rcfg rs)) (readAt sc) (LimitBody (bodyLimit sc) (upload sc)) = Some res /\
     BodyRead.err res = Some err /\ BodyRead.isReadDeadlineExceeded err = false /\
     fin t = Replied resp /\ status resp = 400 /\ rows t = []).
Proof.
  cbv zeta. unfold handle.
  assert (Hone : forall resp rws o, outcomes rws = [o] -> outcome_status o = Some (status resp) ->
    exists answers, counted sc (Replied resp) rws answers /\
      ((answers = [] /\ @nil sent = []) \/
       exists q r' i st, let l := (run_failover (upstreams (world sc)) i q r' st).2 in answers = l_results l /\ [] = l_sent l))
    by (intros resp rws o H1 H2; exact (stage_single sc resp rws sch o H1 H2)).
  destruct (_ && _); [left; eapply Hone; reflexivity|]. destruct (_ <? _); [left; eapply Hone; reflexivity|].
  destruct (BodyRead.readBodyWithin _ _ _ _) as [res|] eqn:Er; [|left; exists []; split; [by exists []|by left]].
  destruct (BodyRead.err res) as [err|] eqn:Ee.
  - unfold read_failed, BodyRead.read_refusal. destruct (BodyRead.isReadDeadlineExceeded err) eqn:Ed.
    + left. eapply Hone; reflexivity.
    + right. destruct err; try done. exists res. eexists _, _. split_and!; try reflexivity; done.
  - left. pose proof (classify_counted sc rs ctx (with_body r (of_bytes (default [] (BodyRead.body res)))) rr sch) as H.
    by destruct (classify _ _ _ _ _ _) as [[[f rws] cs] sch'].
Qed.

(** ** The gates around the core *)

(** What [Router.handleProxy] answers, as a status; a panic has none. *)
Definition core_status (x : Router.reply) : option Z :=
  match x with
  | Router.Unauthorized => Some 401
  | Router.BodyTooLarge => Some 413
  | Router.TenantMissing => Some 400
  | Router.AgentDisabled => Some 403
  | Router.Answered (Refused _) => Some 503
  | Router.Answered (Relay resp _) => if (rstatus resp <? 100) || (999 <? rstatus resp) then None else Some (rstatus resp)
  | Router.Answered (BadGateway _) => Some 502
  | Router.Answered Crash => None
  end.

Definition finish_status (f : finish) : option Z := match f with Replied resp => Some (status resp) | _ => None end.

(** The body the handler read, if it read one. *)
Definition body_read (sc : Scene) (rs : routerState) : option bytes :=
  res ← BodyRead.readBodyWithin (setOK sc) (BodyRead.bodyReadTimeout (rcfg rs)) (readAt sc) (LimitBody (bodyLimit sc) (upload sc));
  match BodyRead.err res with Some _ => None | None => Some (default [] (BodyRead.body res)) end.

Definition gates_open (sc : Scene) (rs : routerState) (sch : option FairShare.Scheduler) (r : Request) : Prop :=
  queueNumber sc <= MaxQueueDepth (CDefaults (rcfg rs)) /\ granted sc = true /\
  (FairShare.fair_gate (hexSHA sc) (headers_of r) (fairNew sc) (fairAllow sc) sch).1 = true.

Lemma apply_smart_header sm r r' tier : apply_smart sm r = SmartRouted r' tier -> RHeader r' = RHeader r.
Proof. unfold apply_smart. intros H. repeat case_match; by simplify_eq. Qed.

Lemma relay_status sc mdl node resp :
  finish_status (relay sc mdl node resp).1 = core_status (Router.Answered (Relay resp 0)).
Proof. unfold relay. cbn [core_status]. destruct (_ || _); [done|]. by destruct (Relay.relay_body _ _ _) as [[? ?] [? ?]]. Qed.

Lemma run_failover_not_refused e i q r st why : (run_failover e i q r st).1 <> Refused why.
Proof. unfold run_failover. by repeat case_match. Qed.

Lemma forward_core sc q r i st :
  let '(f, _, cs) := forward sc q r i st in let '(a, l) := run_failover (upstreams (world sc)) i q r st in
  cs = l_sent l /\ finish_status f = core_status (Router.Answered a).
Proof.
  unfold forward. pose proof (run_failover_not_refused (upstreams (world sc)) i q r st) as Hn.
  destruct (run_failover _ _ _ _ _) as [[why|resp j|err|] l]; try done.
  - by destruct (Hn why).
  - pose proof (relay_status sc (model q) (nodeName (l_store l) j) resp). by destruct (relay _ _ _ _).
Qed.

(** The stages from the choice of the node on, against [dispatch]. *)
Lemma route_core sc class personal tier r st sch :
  let '(f, _, cs, _) := route sc class personal tier r st sch in
  let '(a, l) := dispatch (upstreams (world sc)) (firstSelection (world sc))
                   {| model := ExtractModel (Body r); targetTier := tier; excluded := ∅; class := class; personal := personal |} r st in
  (cs = [] \/ cs = l_sent l) /\
  (granted sc = true -> (FairShare.fair_gate (hexSHA sc) (headers_of r) (fairNew sc) (fairAllow sc) sch).1 = true ->
   cs = l_sent l /\ finish_status f = core_status (Router.Answered a)).
Proof.
  unfold route, dispatch. cbn [model targetTier Selection.class Selection.personal].
  destruct (selectNodeFromSnap _ _ _ _ _ _ _ _) as [[[| |i] ns] rr]; [by split; [left|]| |].
  { destruct personal; [|destruct (decide _)]; simpl; split; by try left. }
  unfold admitted. destruct (granted sc); simpl.
  2: destruct (run_failover _ _ _ _ _) as [a l]; split; [by left|done].
  destruct (FairShare.fair_gate _ _ _ _ _) as [[|] sch']; simpl.
  2: destruct (run_failover _ _ _ _ _) as [a l]; split; [by left|done].
  match goal with |- context [forward sc ?q r i ?st'] => pose proof (forward_core sc q r i st') as H end.
  destruct (forward _ _ _ _ _) as [[f rws] cs], (run_failover _ _ _ _ _) as [a l]. destruct H as [-> H].
  split; [by right|by intros _ _].
Qed.

(** C14: The whole handler is its core behind gates.  Upstreams are called not at
    all, or exactly as [Router.handleProxy] calls them for the body that was
    read; and a request that finds the gates open (the queue, the read, the
    semaphore, its fair share) is answered with the core's status.  What holds of
    the core's upstream calls therefore holds of the handler's. *)
Theorem handler_refines_core sc rs sch rr ctx contentLength r :
  let t := handle sc rs sch rr ctx contentLength r in
  let core b := Router.handleProxy (world sc) rs rr ctx contentLength (with_body r (of_bytes b)) in
  (calls t = [] \/ exists b, body_read sc rs = Some b /\ calls t = (core b).2) /\
  (forall b, body_read sc rs = Some b -> gates_open sc rs sch r ->
   calls t = (core b).2 /\ finish_status (fin t) = core_status (core b).1).
Proof.
  cbv zeta. unfold handle, Router.handleProxy, body_read. destruct (_ && _).
  { split; [by left|]. intros. done. }
  destruct (Z.ltb_spec (MaxQueueDepth (CDefaults (rcfg rs))) (queueNumber sc)).
  { split; [by left|]. intros b _ [? _]. lia. }
  destruct (BodyRead.readBodyWithin _ _ _ _) as [res|]; cbn [mbind option_bind]; [|split; [by left|done]].
  destruct (BodyRead.err res) as [err|]; [destruct (read_failed err); split; [by left|done]|].
  set (b0 := default [] (BodyRead.body res)). clearbody b0. unfold classify.
  set (r0 := with_body r (of_bytes b0)).
  destruct (_ && (_ =s "")) eqn:Et.
  { split; [by left|]. intros b [= <-] _. fold r0. by rewrite Et. }
  destruct (apply_smart (smart rs) r0) as [|r' tier|] eqn:Es.
  1,3: split; [by left|]; intros b [= <-] _; fold r0; by rewrite Et, Es.
  assert (Hh : headers_of r' = headers_of r) by (unfold headers_of; by rewrite (apply_smart_header _ _ _ _ Es)).
  pose proof (route_core sc (ClassFromRequest ctx) (PII.DetectPersonal (Body r0) && armedNow (world sc)) tier r' (rnodes rs, rr) sch) as Hc.
  destruct (route _ _ _ _ _ _ _) as [[[f rws] cs] sch']. destruct (dispatch _ _ _ _ _) as [a l] eqn:Ed.
  rewrite Hh in Hc. destruct Hc as [H1 H2]. cbn [calls fin]. split.
  - destruct H1 as [->|H1]; [by left|right]. exists b0. split; [done|]. fold r0. rewrite Et, Es, Ed. done.
  - intros b [= <-] (_ & Hg & Hf). fold r0. rewrite Et, Es, Ed. by apply H2.
Qed.

(** ** The size of what is buffered *)

Lemma limited_read setOK within up : forall n dl unb warn acc now m res,
  BodyRead.read_all setOK within n dl unb warn acc now (limit_reads m up) = Some res ->
  0 <= m -> Z.of_nat (length (default [] (BodyRead.body res))) <= Z.of_nat (length acc) + m.
Proof.
  assert (Hb : forall b e f d w, b = None -> forall acc m, 0 <= m ->
    Z.of_nat (length (default [] (BodyRead.body {| BodyRead.body := b; BodyRead.err := e; BodyRead.finished := f;
      BodyRead.deadline := d; BodyRead.warned := w |}))) <= Z.of_nat (length (acc : bytes)) + m) by (intros; subst; simpl; lia).
  induction up as [|a up IH]; intros n dl unb warn acc now m res Hr Hm.
  - cbn [limit_reads BodyRead.read_all] in Hr. apply fmap_Some in Hr as (d & _ & ->). by apply Hb.
  - cbn [limit_reads] in Hr. destruct (BodyRead.what a) as [b| |e] eqn:Ew.
    + destruct (Z.leb_spec (Z.of_nat (length b)) m).
      * cbn [BodyRead.read_all] in Hr. destruct (BodyRead.expires _ a); [simplify_eq; by apply Hb|]. rewrite Ew in Hr.
        apply IH in Hr; [|lia]. rewrite length_app in Hr. lia.
      * cbn [BodyRead.read_all BodyRead.what] in Hr. destruct (BodyRead.expires _ _); simplify_eq; by apply Hb.
    + cbn [BodyRead.read_all] in Hr. rewrite Ew in Hr. destruct (BodyRead.expires _ a); simplify_eq; [by apply Hb|]. simpl. lia.
    + cbn [BodyRead.read_all] in Hr. rewrite Ew in Hr. destruct (BodyRead.expires _ a); simplify_eq; by apply Hb.
Qed.

(** C27: However much a caller sends and whatever length it declares, the body the
    handler works on is within the limit the process started with. *)
Theorem buffered_within_limit sc rs b :
  body_read sc rs = Some b -> Z.of_nat (length b) <= Z.max 0 (bodyLimit sc).
Proof.
  unfold body_read, BodyRead.readBodyWithin, LimitBody. intros H. apply bind_Some in H as (res & Hr & He).
  destruct (BodyRead.err res) eqn:Ee; [done|]. injection He as <-.
  destruct (setOK sc 0%nat); simpl in Hr.
  - apply bind_Some in Hr as (res' & Hr & He'). apply limited_read in Hr; [|lia]. destruct (BodyRead.err res'); simplify_eq; simpl in *; lia.
  - apply limited_read in Hr; [|lia]. simpl in Hr. lia.
Qed.

(** ** Streaming *)

(** Through [FlushWriter] every chunk is on its way before the next is read. *)
Lemma flush_write_pushes w ps :
  flusher w = true -> pending w = [] ->
  let w' := foldl (fun w p => (flush_write w p).2) w ps in pending w' = [] /\ pushed w' = pushed w ++ concat ps.
Proof.
  revert w. induction ps as [|p ps IH]; intros [pend push fl] Hf Hp; simpl in *; subst; [by rewrite app_nil_r|].
  destruct (IH {| pending := []; pushed := push ++ p; flusher := true |}) as [H1 H2]; try done.
  unfold flush_write, Flush in *. simpl in *. by rewrite H1, H2, app_assoc.
Qed.

(** ** Retries *)

Definition is_retry (x : row) : bool := match x with requestRetries _ _ => true | _ => false end.

Definition retries (l : list row) : nat := length (List.filter is_retry l).

(** ** Witnesses *)

Definition ex_chunk (s : string) : BodyRead.arrival := {| BodyRead.lag := 0; BodyRead.at_ := 0; BodyRead.what := BodyRead.Chunk (to_bytes s) |}.

Definition ex_end : BodyRead.arrival := {| BodyRead.lag := 0; BodyRead.at_ := 0; BodyRead.what := BodyRead.End_ |}.

Definition ex_scene (w : World) (up : list BodyRead.arrival) : Scene :=
  {| world := w; bodyLimit := 1024; queueNumber := 1; setOK := fun _ => true; readAt := 0; upload := up; granted := true;
     hexSHA := id; fairNew := 0; fairAllow := 0; respHeader := fun _ => [("Content-Type", ["text/plain"])];
     stream := fun resp => {| Relay.parts := [to_bytes (rbody resp)]; Relay.ends := Relay.Finished_; Relay.client_stops := None |};
     ttft := Second; elapsed := 2 * Second; printable := fun _ => true |}.

(** The customer request of [Router], its body sent in two pieces. *)
Definition ex_sc : Scene :=
  ex_scene Router.ex_world [ex_chunk (substring 0 20 (Body Router.ex_customer_req)); ex_chunk (substring 20 100 (Body Router.ex_customer_req)); ex_end].

Definition ex_handle : trace := handle ex_sc Router.ex_router None 0 (Some ClassCustomer) 16 Router.ex_customer_req.

Lemma handler_refines_core_witness :
  calls ex_handle <> [] /\
  calls ex_handle = (Router.handleProxy Router.ex_world Router.ex_router 0 (Some ClassCustomer) 16 Router.ex_customer_req).2 /\
  finish_status (fin ex_handle) =
    core_status (Router.handleProxy Router.ex_world Router.ex_router 0 (Some ClassCustomer) 16 Router.ex_customer_req).1.
Proof.
  destruct (handler_refines_core ex_sc Router.ex_router None 0 (Some ClassCustomer) 16 Router.ex_customer_req) as [_ H].
  split; [vm_compute; discriminate|].
  apply (H (to_bytes (Body Router.ex_customer_req))); [vm_compute; reflexivity|].
  repeat split; vm_compute; discriminate.
Defined.

Lemma buffered_within_limit_witness : Z.of_nat (length (to_bytes (Body Router.ex_customer_req))) <= 1024.
Proof. apply (buffered_within_limit ex_sc Router.ex_router). vm_compute. reflexivity. Defined.

(** Six nodes that all answer 503: five are called, and the fifth failure still
    counts a retry although the sixth node is never tried; the one request adds
    six to llm_router_requests_total. *)
Definition ex_six : routerState :=
  newRouterState (rcfg Router.ex_router) (List.map (fun n => ex_up n 1 1 [] true) ["a"; "b"; "c"; "d"; "e"; "f"]) 2 None.

Definition ex_busy : World :=
  {| upstreams := FailoverSpec.ex_env (fun _ => DoResp 503 "busy"); firstSelection := ex_clk; armedNow := false |}.

Example fifth_failure_counts_a_retry :
  let t := handle (ex_scene ex_busy [ex_chunk "{}"; ex_end]) ex_six None 0 None 2 (with_body Router.ex_customer_req "") in
  length (calls t) = 5%nat /\ retries (rows t) = 5%nat /\
  outcomes (rows t) = repeat (failed_over 503) 5 ++ [relayed 503].
Proof. vm_compute. done. Qed.

(** A body over the limit that did not declare its length is refused with 400,
    where the declared one gets 413, and is not counted. *)
Example undeclared_oversize_uncounted :
  let sc := ex_scene ex_busy [ex_chunk (of_bytes (repeat (byte 32) 2000)); ex_end] in
  let t := handle sc ex_six None 0 None (-1) (with_body Router.ex_customer_req "") in
  finish_status (fin t) = Some 400 /\ rows t = [] /\
  finish_status (fin (handle sc ex_six None 0 None (2 ^ 30) (with_body Router.ex_customer_req ""))) = Some 413.
Proof. vm_compute. done. Qed.

(** A status line of 099 passes the client and panics in [WriteHeader]. *)
Example status_below_100_panics :
  let w := {| upstreams := FailoverSpec.ex_env (fun _ => DoResp 99 ""); firstSelection := ex_clk; armedNow := false |} in
  fin (handle (ex_scene w [ex_chunk "{}"; ex_end]) ex_six None 0 None 2 (with_body Router.ex_customer_req "")) = Panicked_.
Proof. vm_compute. done. Qed.

Lemma reject_labels_known_witness :
  exists labels, serve_public ex_sc ex_six None 0 2 {| Method := "POST"; Path := "/v1/embeddings"; RawQuery := ""; RHeader := []; Body := "" |} =
    PRejected unauthorized labels /\ labels = ["/v1/embeddings"]%string.
Proof.
  eexists. split; [reflexivity|].
  apply (reject_labels_known ex_sc ex_six None 0 2 {| Method := "POST"; Path := "/v1/embeddings"; RawQuery := ""; RHeader := []; Body := "" |} unauthorized).
  reflexivity.
Defined.

End ProxyHandler.
