(* ===== verification/Bench.v ===== *)
(** * The benchmark client

    Models, of [src/main.go], what [bench] measures: the request it posts
    ([runBenchRequest], [runCancelProbe]), the reading of the event stream with its
    clock ([hasDeltaToken], [numberValue], [safeRate]), the workers of [runBench]
    as a step relation, the queue gauge it polls ([pollMetric],
    [parsePrometheusGauge] with [strings.Fields] and [strconv.ParseFloat]) and the
    statistics of [buildReport] ([percentile], [percent]).  The HTTP client is an
    argument: an answer is what it returned and when each piece of the body
    arrived. *)

From Stdlib Require Import ZArith Lia Ascii String SpecFloat Reals Lra.
From stdpp Require Import base option list relations strings.
From S2P Require Import Prelude GoStrings Utf8 Strconv Json JsonSpec JsonMap Float64 FloatError JsonAny Trim Net JsonLines RequestBody.

Module Bench.
Import GoStrings Utf8 Strconv Json JsonSpec JsonMap Float64 JsonAny JsonLines.

(** ** Numbers *)

(** [int(f)] and [int64(f)]: truncation, and the hardware's answer on amd64 where
    the value does not fit. *)
Definition to_int64 (f : float64) : Z :=
  match f with
  | S754_zero _ => 0
  | S754_finite s m e =>
      let q := if 0 <=? e then Zpos m * 2 ^ e else Z.shiftr (Zpos m) (- e) in
      let z := if s then - q else q in
      if (min_int64 <=? z) && (z <=? max_int64) then z else min_int64
  | _ => min_int64
  end.

Definition numberValue (v : option any) : float64 := match v with Some (ANum f) => f | _ => zero end.

Definition durationMillis (d : Duration) : float64 := of_int (Z.quot d 1000000).

Definition safeRate (tokens : Z) (latency : Duration) : float64 :=
  if (tokens =? 0) || (latency <=? 0) then zero else div (of_int tokens) (Seconds latency).

Definition percent (numerator denominator : Z) : float64 :=
  if denominator =? 0 then zero else mul (div (of_int numerator) (of_int denominator)) (of_int 100).

(** [sort.Float64s]; no value here is a NaN or a negative zero. *)
Fixpoint insert (x : float64) (l : list float64) : list float64 :=
  match l with
  | [] => [x]
  | y :: l' => if leb x y then x :: l else y :: insert x l'
  end.
Definition sort_floats (l : list float64) : list float64 := foldr insert [] l.

(** [int(math.Floor(f))] and [int(math.Ceil(f))] of a finite float. *)
Definition floor_int (f : float64) : Z :=
  match f with
  | S754_finite s m e => let z := if s then Zneg m else Zpos m in if 0 <=? e then z * 2 ^ e else z / 2 ^ (- e)
  | _ => 0
  end.
Definition ceil_int (f : float64) : Z :=
  match f with S754_finite s m e => - floor_int (S754_finite (negb s) m e) | _ => 0 end.

(** An index out of range panics: [None]. *)
Definition at_index (l : list float64) (i : Z) : option float64 := if i <? 0 then None else l !! Z.to_nat i.

Definition position (p : float64) (n : nat) : float64 := mul (div p (of_int 100)) (of_int (Z.of_nat n - 1)).

Definition percentile (values : list float64) (p : float64) : option float64 :=
  match values with
  | [] => Some zero
  | _ =>
      let sorted := sort_floats values in
      let pos := position p (length sorted) in
      let lower := floor_int pos in
      let upper := ceil_int pos in
      if lower =? upper then at_index sorted lower
      else
        lo ← at_index sorted lower;
        up ← at_index sorted upper;
        Some (add lo (mul (sub up lo) (sub pos (of_int lower))))
  end.

(** ** The queue gauge *)

(** [strings.Fields]. *)
Definition flush (cur : bytes) : list bytes := match cur with [] => [] | _ => [cur] end.
Fixpoint fields_go (fuel : nat) (cur s : bytes) : list bytes :=
  match fuel, s with
  | S fuel, c :: t =>
      match space_len space_seqs s with
      | O => fields_go fuel (cur ++ [c]) t
      | n => flush cur ++ fields_go fuel [] (drop n s)
      end
  | _, _ => flush cur
  end.
Definition Fields (s : bytes) : list bytes := fields_go (length s) [] s.

(** [strconv.ParseFloat(s, 64)]: the words, then decimal and hexadecimal literals
    with their underscores; [None] is a syntax or a range error. *)
Definition special (s : bytes) : option float64 :=
  let w := lower_char <$> s in
  if bool_decide (w = to_bytes "nan") then Some S754_nan
  else
    let '(neg, w) := match w with "-"%char :: w => (true, w) | "+"%char :: w => (false, w) | _ => (false, w) end in
    if bool_decide (w = to_bytes "inf" \/ w = to_bytes "infinity") then Some (S754_infinity neg) else None.

Definition is_hex (c : ascii) : bool := is_digit c || ((97 <=? code (lower_char c)) && (code (lower_char c) <=? 102)).
Definition hex_val (c : ascii) : Z := if is_digit c then digit_val c else code (lower_char c) - 87.

Inductive seen := SawStart | SawDigit | SawUnder | SawOther.
Fixpoint under_go (hex : bool) (saw : seen) (s : bytes) : bool :=
  match s with
  | [] => match saw with SawUnder => false | _ => true end
  | c :: s =>
      if is_digit c || (hex && is_hex c) then under_go hex SawDigit s
      else if Ascii.eqb c "_" then match saw with SawDigit => under_go hex SawUnder s | _ => false end
      else match saw with SawUnder => false | _ => under_go hex SawOther s end
  end.
Definition underscoreOK (s : bytes) : bool :=
  let s := match s with ("-" | "+")%char :: s => s | _ => s end in
  match s with
  | "0"%char :: c :: t =>
      if bool_decide (lower_char c ∈ ["b"; "o"; "x"]%char) then under_go (bool_decide (lower_char c = "x"%char)) SawDigit t
      else under_go false SawStart s
  | _ => under_go false SawStart s
  end.

(** The exponent after its letter: the whole rest. *)
Definition exponent (s : bytes) : option Z :=
  let '(neg, ds) := match s with "-"%char :: ds => (true, ds) | "+"%char :: ds => (false, ds) | _ => (false, s) end in
  if bool_decide (ds = []) || negb (forallb is_digit ds) then None
  else Some (if neg then - dec_value ds else dec_value ds).

Definition hex_float (neg : bool) (m e : Z) : option float64 :=
  let r :=
    if m =? 0 then S754_zero neg
    else if 1100 <? e then S754_infinity neg
    else if e <? - (1200 + Z.log2 m) then S754_zero neg
    else binary_normalize 53 1024 (if neg then - m else m) e neg in
  match r with S754_infinity _ | S754_nan => None | _ => Some r end.

Definition literal (hex neg : bool) (s : bytes) : option float64 :=
  let dig := if hex then is_hex else is_digit in
  let '(int, rest) := span dig s in
  let '(frac, rest) := match rest with "."%char :: rest => span dig rest | _ => ([], rest) end in
  if bool_decide (int ++ frac = []) then None
  else
    let fl := Z.of_nat (length frac) in
    match rest with
    | [] => if hex then None else dec_float neg (dec_value (int ++ frac)) (- fl)
    | c :: rest =>
        if Ascii.eqb (lower_char c) (if hex then "p" else "e")
        then x ← exponent rest;
             if hex then hex_float neg (foldl (fun acc c => acc * 16 + hex_val c) 0 (int ++ frac)) (x - 4 * fl)
             else dec_float neg (dec_value (int ++ frac)) (x - fl)
        else None
    end.

Definition ParseFloat (s : bytes) : option float64 :=
  match special s with
  | Some f => Some f
  | None =>
      if existsb (Ascii.eqb "_") s && negb (underscoreOK s) then None
      else
        let s := List.filter (fun c => negb (Ascii.eqb c "_")) s in
        let '(neg, s) := match s with "-"%char :: s => (true, s) | "+"%char :: s => (false, s) | _ => (false, s) end in
        match s with
        | "0"%char :: x :: _ :: _ => if Ascii.eqb (lower_char x) "x" then literal true neg (drop 2 s) else literal false neg s
        | _ => literal false neg s
        end
  end.

Fixpoint gauge_lines (name : bytes) (lines : list bytes) : Z :=
  match lines with
  | [] => 0
  | line :: lines =>
      if has_prefix name line
      then match Fields line with
           | [_; v] => match ParseFloat v with Some f => to_int64 f | None => gauge_lines name lines end
           | _ => gauge_lines name lines
           end
      else gauge_lines name lines
  end.
Definition parsePrometheusGauge (payload : bytes) (name : string) : Z := gauge_lines (to_bytes name) (Net.split Trim.LF payload).

(** The samples of [pollMetric]; [None] is a failed request.  The loop is the only
    writer, so its compare-and-swap succeeds at once. *)
Definition poll (name : string) (target : Z) (answer : option bytes) : Z :=
  match answer with
  | None => target
  | Some body => let value := parsePrometheusGauge body name in if value <=? target then target else value
  end.
Definition pollMetric (name : string) (answers : list (option bytes)) : Z := foldl (poll name) 0 answers.

(** ** The request *)

Record httpRequest := { ReqURL : string; ContentType : string; Authorization : option string; ReqBody : json }.

Definition message (content : string) : json :=
  JArr [JObj [(to_bytes "content", JText content); (to_bytes "role", JText "user")]].

Definition post (baseURL apiKey : string) (body : json) : httpRequest :=
  {| ReqURL := (trim_right_char "/" baseURL ++ "/v1/chat/completions")%string; ContentType := "application/json";
     Authorization := if apiKey =s "" then None else Some ("Bearer " ++ apiKey)%string; ReqBody := body |}.

(** A [map[string]any] is written in the order of its keys. *)
Definition benchRequest (baseURL model apiKey prompt : string) (maxTokens : Z) : httpRequest :=
  post baseURL apiKey
    (JObj [(to_bytes "max_tokens", JInt maxTokens); (to_bytes "messages", message prompt); (to_bytes "model", JText model);
           (to_bytes "stream", JBool true); (to_bytes "stream_options", JObj [(to_bytes "include_usage", JBool true)])]).

Definition cancelRequest (baseURL model apiKey prompt : string) (maxTokens : Z) : httpRequest :=
  post baseURL apiKey
    (JObj [(to_bytes "max_tokens", JInt maxTokens);
           (to_bytes "messages", message (prompt ++ " Keep streaming so cancellation can be observed.")); (to_bytes "model", JText model);
           (to_bytes "stream", JBool true)]).

(** ** The event stream *)

Definition hasDeltaToken (payload : gomap any) : bool :=
  match get (to_bytes "choices") payload with
  | Some (AArr (AObj first :: _)) =>
      match get (to_bytes "delta") first with
      | Some (AObj delta) =>
          existsb (fun key => match get (to_bytes key) delta with
                              | Some (AStr s) => negb (bool_decide (trim_bytes s = []))
                              | _ => false
                              end) ["content"; "reasoning_content"; "reasoning"]%string
      | _ => false
      end
  | _ => false
  end.

(** [bufio.Scanner] with the 1 MiB buffer of the source over a body that arrives in
    pieces, then ends: a line is delivered when its newline has arrived, without a
    trailing carriage return; a full buffer without one is [bufio.ErrTooLong]. *)
Definition maxTokenSize : Z := 1024 * 1024.
Definition CR : ascii := chr 13.
Definition dropCR (l : bytes) : bytes := match rev l with c :: r => if Ascii.eqb c CR then rev r else l | [] => [] end.

Fixpoint feed (t : Time) (cur : bytes) (bs : bytes) : list (bytes * Time) * option bytes :=
  match bs with
  | [] => ([], Some cur)
  | b :: bs =>
      if Ascii.eqb b Trim.LF then let '(ls, r) := feed t [] bs in ((dropCR cur, t) :: ls, r)
      else if maxTokenSize <=? Z.of_nat (length cur) + 1 then ([], None)
      else feed t (cur ++ [b]) bs
  end.

Inductive scanError := ErrTooLong | ReadError (msg : string).

(** The lines, and when the scan ends and how. *)
Fixpoint scan (cur : bytes) (pieces : list (Time * bytes)) (fin : Time * option string) : list (bytes * Time) * (Time * option scanError) :=
  match pieces with
  | [] => (match cur with [] => [] | _ => [(dropCR cur, fin.1)] end, (fin.1, ReadError <$> fin.2))
  | (t, bs) :: pieces =>
      let '(ls, r) := feed t cur bs in
      match r with
      | None => (ls, (t, Some ErrTooLong))
      | Some cur => let '(ls', e) := scan cur pieces fin in (ls ++ ls', e)
      end
  end.

(** What a line is to the loop. *)
Inductive event := Ignored | Done | Payload (p : gomap any).

Definition event_of (line : bytes) : event :=
  let line := trim_bytes line in
  if negb (has_prefix (to_bytes "data: ") line) then Ignored
  else
    let data := drop 6 line in
    if bool_decide (data = to_bytes "[DONE]") then Done
    else match unmarshal_anymap data with DErr => Ignored | DNil => Payload [] | DVal p => Payload p end.

Record streamState := { firstToken : option Time; promptTokens : Z; completionTokens : Z }.

Definition usage_of (p : gomap any) : option (Z * Z) :=
  match get (to_bytes "usage") p with
  | Some (AObj u) => Some (to_int64 (numberValue (get (to_bytes "prompt_tokens") u)), to_int64 (numberValue (get (to_bytes "completion_tokens") u)))
  | _ => None
  end.

Definition see (s : streamState) (p : gomap any) (t : Time) : streamState :=
  {| firstToken := match firstToken s with Some f => Some f | None => if hasDeltaToken p then Some t else None end;
     promptTokens := match usage_of p with Some u => u.1 | None => promptTokens s end;
     completionTokens := match usage_of p with Some u => u.2 | None => completionTokens s end |}.

(** The loop: its state, and the instant of [DONE] when it broke there. *)
Fixpoint loop (s : streamState) (lines : list (bytes * Time)) : streamState * option Time :=
  match lines with
  | [] => (s, None)
  | (l, t) :: lines =>
      match event_of l with
      | Done => (s, Some t)
      | Ignored => loop s lines
      | Payload p => loop (see s p t) lines
      end
  end.

Record requestResult := {
  OK : bool; Error : string; TTFTMillis : float64; LatencyMillis : float64; PromptTokens : Z; CompletionTokens : Z;
  GenerationTokensSec : float64; PromptTokensSec : float64;
}.

Definition zeroResult : requestResult :=
  {| OK := false; Error := ""; TTFTMillis := zero; LatencyMillis := zero; PromptTokens := 0; CompletionTokens := 0;
     GenerationTokensSec := zero; PromptTokensSec := zero |}.
Definition failed (msg : string) : requestResult :=
  {| OK := false; Error := msg; TTFTMillis := zero; LatencyMillis := zero; PromptTokens := 0; CompletionTokens := 0;
     GenerationTokensSec := zero; PromptTokensSec := zero |}.

(** What [client.Do] gave. *)
Inductive answer := DoError (msg : string) | Answer (status : Z) (pieces : list (Time * bytes)) (fin : Time * option string).

Definition scanMessage (e : scanError) : string :=
  match e with ErrTooLong => "bufio.Scanner: token too long" | ReadError m => m end.

Definition statusMessage (status : Z) (body : bytes) : string :=
  ("status=" ++ of_bytes (Itoa status) ++ " body=" ++ of_bytes (trim_bytes (take 4096 body)))%string.

Definition measured (start : Time) (s : streamState) (stop : Time) : requestResult :=
  let ttft := match firstToken s with Some t => time_sub t start | None => 0 end in
  let latency := time_sub stop start in
  {| OK := true; Error := ""; TTFTMillis := durationMillis ttft; LatencyMillis := durationMillis latency;
     PromptTokens := promptTokens s; CompletionTokens := completionTokens s;
     GenerationTokensSec :=
       if 0 <? completionTokens s
       then safeRate (completionTokens s) (match firstToken s with Some _ => if ttft <? latency then latency - ttft else latency | None => latency end)
       else zero;
     PromptTokensSec := safeRate (promptTokens s) ttft |}.

(** [runBenchRequest]; [url_error] is the refusal of [http.NewRequest]. *)
Definition runBenchRequest (url_error : string -> option string) (send : httpRequest -> answer) (start : Time)
    (baseURL model apiKey prompt : string) (maxTokens : Z) : requestResult :=
  let req := benchRequest baseURL model apiKey prompt maxTokens in
  match url_error (ReqURL req) with
  | Some e => failed e
  | None =>
      match send req with
      | DoError e => failed e
      | Answer status pieces fin =>
          if 300 <=? status then failed (statusMessage status (concat (snd <$> pieces)))
          else
            let '(lines, (stop, err)) := scan [] pieces fin in
            let '(s, broke) := loop {| firstToken := None; promptTokens := 0; completionTokens := 0 |} lines in
            match broke, err with
            | Some t, _ => measured start s t
            | None, Some e => failed (scanMessage e)
            | None, None => measured start s stop
            end
      end
  end.

(** ** The cancellation probe *)

Record cancelProbeResult := { CancelledCleanly : bool; CError : string; ElapsedMillis : float64 }.

Definition clientTimeout (cancelAfter : Duration) : Duration :=
  let d := i64_add cancelAfter (5 * Second) in if d <? 5 * Second then 5 * Second else d.

(** No other code point lowers to a letter of [context canceled]. *)
Definition cancelled_text (msg : string) : bool := Contains (ToLower msg) "context canceled".

(** [Do] failed, or the copy of the body ended, with the instant. *)
Inductive probeAnswer := PDo (msg : string) (at_ : Time) | PCopied (err : option string) (at_ : Time).

Definition runCancelProbe (url_error : string -> option string) (send : Duration -> httpRequest -> probeAnswer) (start : Time)
    (baseURL model apiKey prompt : string) (cancelAfter : Duration) (maxTokens : Z) : cancelProbeResult :=
  let req := cancelRequest baseURL model apiKey prompt maxTokens in
  match url_error (ReqURL req) with
  | Some e => {| CancelledCleanly := false; CError := e; ElapsedMillis := zero |}
  | None =>
      match send (clientTimeout cancelAfter) req with
      | PDo msg t => {| CancelledCleanly := cancelled_text msg; CError := msg; ElapsedMillis := durationMillis (time_sub t start) |}
      | PCopied err t =>
          {| CancelledCleanly := match err with Some m => cancelled_text m | None => false end; CError := default ""%string err;
             ElapsedMillis := durationMillis (time_sub t start) |}
      end
  end.

(** ** The workers of [runBench]

    The main goroutine hands the indices over an unbuffered channel, closes it and
    waits; a worker runs one request at a time and writes its own slot. *)
Record pool := { next : nat; idle : nat; busy : list nat; gone : nat; results : list requestResult }.

Definition start_pool (requests concurrency : nat) : pool :=
  {| next := 0; idle := concurrency; busy := []; gone := 0; results := replicate requests zeroResult |}.

Inductive pool_step (requests : nat) (run : nat -> requestResult) : pool -> pool -> Prop :=
| hand s k : (next s < requests)%nat -> idle s = S k ->
    pool_step requests run s {| next := S (next s); idle := k; busy := next s :: busy s; gone := gone s; results := results s |}
| finish s l i r : busy s = l ++ i :: r ->
    pool_step requests run s {| next := next s; idle := S (idle s); busy := l ++ r; gone := gone s; results := <[i := run i]> (results s) |}
| leave s k : next s = requests -> idle s = S k ->
    pool_step requests run s {| next := next s; idle := k; busy := busy s; gone := S (gone s); results := results s |}.

(** [wg.Wait] returned. *)
Definition returned (requests concurrency : nat) (s : pool) : Prop := next s = requests /\ gone s = concurrency.

(** ** The report *)

Record benchmarkReport := {
  Requests : Z; SuccessfulRequests : Z; FailedRequests : Z; SuccessRate : float64;
  P50TTFTMillis : option float64; P95TTFTMillis : option float64; P50LatencyMillis : option float64; P95LatencyMillis : option float64;
  AvgGenerationTokensPerSec : float64; AvgPromptTokensPerSec : float64; ObservedMaxQueueDepth : Z; CancelProbe : cancelProbeResult;
  Failures : list string; RawResults : list requestResult;
}.

Record sums := { ttfts : list float64; latencies : list float64; failures : list string; okCount : Z; genRateSum : float64; promptRateSum : float64 }.

Definition tally (a : sums) (r : requestResult) : sums :=
  if OK r
  then {| ttfts := ttfts a ++ [TTFTMillis r]; latencies := latencies a ++ [LatencyMillis r]; failures := failures a; okCount := okCount a + 1;
          genRateSum := add (genRateSum a) (GenerationTokensSec r); promptRateSum := add (promptRateSum a) (PromptTokensSec r) |}
  else {| ttfts := ttfts a; latencies := latencies a; failures := failures a ++ [Error r]; okCount := okCount a;
          genRateSum := genRateSum a; promptRateSum := promptRateSum a |}.

Definition f50 : float64 := of_int 50.
Definition f95 : float64 := of_int 95.

Definition buildReport (rs : list requestResult) (cancelResult : cancelProbeResult) (maxQueueDepth : Z) : benchmarkReport :=
  let a := foldl tally {| ttfts := []; latencies := []; failures := []; okCount := 0; genRateSum := zero; promptRateSum := zero |} rs in
  let n := Z.of_nat (length rs) in
  {| Requests := n; SuccessfulRequests := okCount a; FailedRequests := n - okCount a; SuccessRate := percent (okCount a) n;
     P50TTFTMillis := percentile (ttfts a) f50; P95TTFTMillis := percentile (ttfts a) f95;
     P50LatencyMillis := percentile (latencies a) f50; P95LatencyMillis := percentile (latencies a) f95;
     AvgGenerationTokensPerSec := if 0 <? okCount a then div (genRateSum a) (of_int (okCount a)) else zero;
     AvgPromptTokensPerSec := if 0 <? okCount a then div (promptRateSum a) (of_int (okCount a)) else zero;
     ObservedMaxQueueDepth := maxQueueDepth; CancelProbe := cancelResult; Failures := failures a; RawResults := rs |}.

(** ** The workers: lemmas *)

Section workers.

Context (requests concurrency : nat) (run : nat -> requestResult).

Notation step := (pool_step requests run).

(** Every index handed over is being run or has its result, once. *)
Record pool_inv (s : pool) : Prop := {
  i_next : (next s <= requests)%nat;
  i_workers : (idle s + length (busy s) + gone s = concurrency)%nat;
  i_leave : (0 < gone s)%nat -> next s = requests;
  i_busy : NoDup (busy s) /\ Forall (fun i => i < next s)%nat (busy s);
  i_len : length (results s) = requests;
  i_done : forall i, (i < requests)%nat -> results s !! i = Some (if bool_decide (i < next s /\ i ∉ busy s)%nat then run i else zeroResult);
}.

Lemma start_inv : pool_inv (start_pool requests concurrency).
Proof.
  constructor; cbn; try lia; [split; constructor|by rewrite length_replicate|].
  intros i Hi. rewrite lookup_replicate_2 by done. by rewrite bool_decide_eq_false_2 by lia.
Qed.

Lemma pool_step_inv s s' : step s s' -> pool_inv s -> pool_inv s'.
Proof.
  intros Hs [Hn Hw Hl [Hb Hlt] Hlen Hd]. destruct Hs as [s k Hlt' Hk|s l i r Hbu|s k Hreq Hk]; constructor; cbn in *; try lia; try done.
  - split; [constructor; [|done]|constructor; [lia|eapply Forall_impl; [exact Hlt|cbn; intros; lia]]].
    intros Hin. rewrite Forall_forall in Hlt. specialize (Hlt _ Hin). lia.
  - intros i Hi. rewrite Hd by done. f_equal.
    rewrite (bool_decide_ext (i < S (next s) /\ i ∉ next s :: busy s)%nat (i < next s /\ i ∉ busy s)%nat); [done|].
    rewrite not_elem_of_cons. split; [intros (? & ? & ?); split; [lia|done]|intros (? & ?); split_and!; [lia|lia|done]].
  - rewrite Hbu, length_app in Hw. rewrite length_app. cbn in Hw. lia.
  - rewrite Hbu in Hb, Hlt. apply NoDup_app in Hb as (H1 & H2 & H3%NoDup_cons). apply Forall_app in Hlt as [F1 [? F2]%Forall_cons].
    split; [|by apply Forall_app]. apply NoDup_app. split_and!; [done| |naive_solver]. intros x Hx Hr. apply (H2 x Hx). by right.
  - by rewrite length_insert.
  - intros j Hj. rewrite Hbu in Hb, Hlt, Hd. pose proof (NoDup_app l (i :: r)) as [(H1 & H2 & H3%NoDup_cons) _]; [exact Hb|]. clear Hbu.
    apply Forall_app in Hlt as [F1 [Hi F2]%Forall_cons]. destruct (decide (j = i)) as [->|Hne].
    + rewrite list_lookup_insert_eq by lia. rewrite bool_decide_eq_true_2; [done|]. split; [done|]. intros [Hx|Hx]%elem_of_app.
      * apply (H2 i Hx). by left.
      * naive_solver.
    + rewrite list_lookup_insert_ne by done. rewrite Hd by done. f_equal. apply (f_equal (fun b : bool => if b then run j else zeroResult)).
      apply bool_decide_ext. rewrite !elem_of_app, elem_of_cons. naive_solver.
Qed.

Lemma pool_reachable_inv s : rtc step (start_pool requests concurrency) s -> pool_inv s.
Proof. revert s. apply (rtc_ind_r pool_inv); [apply start_inv|]. intros y z _ Hst IH. by eapply pool_step_inv. Qed.

(** What is left to do. *)
Definition work_left (s : pool) : nat := 2 * (requests - next s) + length (busy s) + (concurrency - gone s).

Lemma work_shrinks s s' : pool_inv s -> step s s' -> (work_left s' < work_left s)%nat.
Proof.
  intros [Hn Hw _ _ _ _] Hs. unfold work_left. destruct Hs as [s k ? Hk|s l i r Hbu|s k ? Hk]; cbn; [lia| |].
  - rewrite Hbu, !length_app. cbn. lia.
  - rewrite Hk in Hw. lia.
Qed.

Lemma pool_progress s : (1 <= concurrency)%nat -> pool_inv s -> ~ returned requests concurrency s -> exists s', step s s'.
Proof.
  intros Hc [Hn Hw Hl _ _ _] Hr. destruct (busy s) as [|i r] eqn:Hbu; [|eexists; exact (finish requests run s [] i r Hbu)].
  cbn in Hw. destruct (idle s) as [|k] eqn:Hk.
  - exfalso. apply Hr. split; [apply Hl; lia|lia].
  - destruct (decide (next s = requests)) as [He|Hne]; [eexists; exact (leave requests run s k He Hk)|].
    eexists. apply (hand requests run s k); [lia|done].
Qed.

(** Whatever the interleaving, the run ends with the result of every request in
    its own slot: every step brings the end closer, a run that has not ended can
    go on, and at the end no slot is missing or overwritten. *)
Theorem bench_runs_each_once :
  (1 <= concurrency)%nat -> forall s, rtc step (start_pool requests concurrency) s ->
  (returned requests concurrency s -> results s = run <$> seq 0 requests) /\
  (~ returned requests concurrency s -> exists s', step s s') /\
  (forall s', step s s' -> (work_left s' < work_left s)%nat).
Proof.
  intros Hc s Hr%pool_reachable_inv. split_and!; [|by apply pool_progress|by intros s'; apply work_shrinks].
  intros [Hn Hg]. destruct Hr as [_ Hw _ _ Hlen Hd]. assert (Hb : busy s = []) by (destruct (busy s); [done|cbn in Hw; lia]).
  apply list_eq. intros i. rewrite list_lookup_fmap. destruct (decide (i < requests)%nat) as [Hi|Hi].
  - rewrite Hd, lookup_seq_lt by done. cbn. rewrite bool_decide_eq_true_2; [done|]. rewrite Hb. split; [lia|apply not_elem_of_nil].
  - rewrite lookup_seq_ge by lia. apply lookup_ge_None_2. lia.
Qed.

End workers.

(** With [--concurrency 0] nobody receives and the tool hangs on its first index. *)
Theorem bench_hangs_without_workers requests run :
  ~ returned (S requests) 0 (start_pool (S requests) 0) /\ forall s, ~ pool_step (S requests) run (start_pool (S requests) 0) s.
Proof.
  split; [by intros [? _]|]. intros s H. inversion H as [? k ? Hk|? l i r Hbu|? k ? Hk]; subst; cbn in *; try done. by destruct l.
Qed.

(** ** The stream *)

(** The lines up to the first [DONE], the instant of the first that carries a
    token, and the counts of the last that carries a usage object. *)
Fixpoint until_done (lines : list (bytes * Time)) : list (gomap any * Time) :=
  match lines with
  | [] => []
  | (l, t) :: lines =>
      match event_of l with Done => [] | Ignored => until_done lines | Payload p => (p, t) :: until_done lines end
  end.

Definition first_token_at (ps : list (gomap any * Time)) : option Time :=
  snd <$> head (List.filter (fun p => hasDeltaToken p.1) ps).
Definition last_usage (ps : list (gomap any * Time)) : Z * Z := default (0, 0) (last (omap (fun p => usage_of p.1) ps)).

Lemma loop_exact lines : forall s,
  let ps := until_done lines in
  let s' := (loop s lines).1 in
  firstToken s' = match firstToken s with Some f => Some f | None => first_token_at ps end /\
  (promptTokens s', completionTokens s') = default (promptTokens s, completionTokens s) (last (omap (fun p => usage_of p.1) ps)).
Proof.
  induction lines as [|[l t] lines IH]; intros s; [cbn; by destruct (firstToken s)|]. cbn [loop until_done].
  destruct (event_of l) as [| |p]; [apply IH|cbn; by destruct (firstToken s)|].
  destruct (IH (see s p t)) as [H1 H2]. cbn zeta. rewrite H1, H2. split.
  - cbn [see firstToken]. unfold first_token_at. cbn [List.filter fst]. destruct (firstToken s) as [f|]; [done|].
    by destruct (hasDeltaToken p).
  - cbn [omap list_omap fst]. destruct (usage_of p) as [u|] eqn:Hu; cbn [see promptTokens completionTokens]; rewrite Hu; [|done].
    set (l' := omap _ _). clearbody l'. induction l' as [|v l' _] using rev_ind; [by destruct u|].
    rewrite app_comm_cons, !last_snoc. done.
Qed.

(** A request whose stream is read is measured by its own events: the time to
    first token is the arrival of the first line, up to [DONE], whose delta has
    text of any kind, reasoning included, and the counts are those of the last
    usage object. *)
Theorem bench_measures_stream url_error send start baseURL model apiKey prompt maxTokens status pieces fin :
  let req := benchRequest baseURL model apiKey prompt maxTokens in
  let lines := (scan [] pieces fin).1 in
  let r := runBenchRequest url_error send start baseURL model apiKey prompt maxTokens in
  url_error (ReqURL req) = None -> send req = Answer status pieces fin -> OK r = true ->
  status < 300 /\
  TTFTMillis r = durationMillis (match first_token_at (until_done lines) with Some t => time_sub t start | None => 0 end) /\
  (PromptTokens r, CompletionTokens r) = last_usage (until_done lines).
Proof.
  intros req lines r Hu Hs. unfold r, runBenchRequest. fold req. rewrite Hu, Hs. destruct (Z.leb_spec 300 status) as [|Hlt]; [done|].
  unfold lines. destruct (scan [] pieces fin) as [ls [stop err]]. cbn [fst].
  pose proof (loop_exact ls {| firstToken := None; promptTokens := 0; completionTokens := 0 |}) as [H1 H2].
  destruct (loop _ ls) as [s broke]. cbn [fst firstToken promptTokens completionTokens] in H1, H2. rewrite <- H1.
  unfold last_usage. rewrite <- H2. destruct broke as [t|]; [done|]. by destruct err.
Qed.

(** ** The report *)

Lemma tally_exact rs : forall a,
  let b := foldl tally a rs in
  okCount b = okCount a + Z.of_nat (length (List.filter OK rs)) /\
  ttfts b = ttfts a ++ (TTFTMillis <$> List.filter OK rs) /\ latencies b = latencies a ++ (LatencyMillis <$> List.filter OK rs) /\
  failures b = failures a ++ (Error <$> List.filter (fun r => negb (OK r)) rs).
Proof.
  induction rs as [|r rs IH]; intros a; cbn zeta; [cbn; rewrite !app_nil_r; split_and!; (lia || done)|]. cbn [foldl].
  destruct (IH (tally a r)) as (H1 & H2 & H3 & H4). rewrite H1, H2, H3, H4. unfold tally. cbn [List.filter].
  destruct (OK r); cbn [okCount ttfts latencies failures negb length fmap list_fmap]; rewrite <- ?app_assoc; split_and!; (lia || done).
Qed.

Lemma filter_split {A} (f : A -> bool) l : (length (List.filter f l) + length (List.filter (fun x => negb (f x)) l) = length l)%nat.
Proof. induction l as [|x l IH]; [done|]. cbn. destruct (f x); cbn; lia. Qed.

(** Every request is counted once, a failure keeps its message and stays out of
    the percentiles. *)
Theorem report_accounts rs probe depth :
  let rep := buildReport rs probe depth in
  let ok := List.filter OK rs in
  SuccessfulRequests rep = Z.of_nat (length ok) /\ SuccessfulRequests rep + FailedRequests rep = Requests rep /\
  Failures rep = Error <$> List.filter (fun r => negb (OK r)) rs /\ Z.of_nat (length (Failures rep)) = FailedRequests rep /\
  P50TTFTMillis rep = percentile (TTFTMillis <$> ok) f50 /\ P95LatencyMillis rep = percentile (LatencyMillis <$> ok) f95.
Proof.
  intros rep ok. unfold rep, buildReport. cbn [SuccessfulRequests FailedRequests Requests Failures P50TTFTMillis P95LatencyMillis].
  destruct (tally_exact rs {| ttfts := []; latencies := []; failures := []; okCount := 0; genRateSum := zero; promptRateSum := zero |})
    as (-> & -> & -> & ->). cbn [okCount ttfts latencies failures app]. rewrite length_fmap. pose proof (filter_split OK rs). split_and!; (lia || done).
Qed.

(** ** Percentiles *)

Lemma insert_perm x l : insert x l ≡ₚ x :: l.
Proof. induction l as [|y l IH]; [done|]. cbn. destruct (leb x y); [done|]. rewrite IH. apply Permutation_swap. Qed.

Lemma sort_perm l : sort_floats l ≡ₚ l.
Proof. induction l as [|x l IH]; [done|]. cbn. by rewrite insert_perm, IH. Qed.

Import FloatError.

Lemma scaled_part e q r : e < 0 -> 0 <= r < 2 ^ (- e) ->
  (IZR (2 ^ (- e) * q + r) * bp e = IZR q + IZR r * bp e)%R /\ (0 <= IZR r * bp e < 1)%R.
Proof.
  intros He Hr. assert (Hb : (bp (- e) * bp e = 1)%R) by (rewrite <- bp_add; replace (- e + e) with 0 by lia; apply bp_0).
  pose proof (bp_pos e) as Hp. rewrite plus_IZR, mult_IZR, bp_IZR by lia. split.
  - transitivity (IZR q * (bp (- e) * bp e) + IZR r * bp e)%R; [ring|]. rewrite Hb. ring.
  - split; [apply Rmult_le_pos; [apply IZR_le; lia|lra]|]. rewrite <- Hb. apply Rmult_lt_compat_r; [done|].
    rewrite <- bp_IZR by lia. apply IZR_lt. lia.
Qed.

Lemma floor_val m e : 0 <= floor_int (S754_finite false m e) /\
  (IZR (floor_int (S754_finite false m e)) <= IZR (Zpos m) * bp e)%R.
Proof.
  cbn [floor_int]. destruct (Z.leb_spec 0 e) as [He|He].
  - rewrite mult_IZR, bp_IZR by done. split; [pose proof (Z.pow_pos_nonneg 2 e); nia|lra].
  - pose proof (Z.pow_pos_nonneg 2 (- e) ltac:(lia) ltac:(lia)) as Hp. pose proof (Z.div_mod (Zpos m) (2 ^ (- e)) ltac:(lia)) as Hdm.
    pose proof (scaled_part e (Zpos m / 2 ^ (- e)) _ He (Z.mod_pos_bound (Zpos m) (2 ^ (- e)) Hp)) as [H1 H2]. rewrite <- Hdm in H1.
    split; [apply Z.div_pos; lia|lra].
Qed.

Lemma ceil_val m e : (IZR (ceil_int (S754_finite false m e)) < IZR (Zpos m) * bp e + 1)%R /\ floor_int (S754_finite false m e) <= ceil_int (S754_finite false m e).
Proof.
  cbn [ceil_int floor_int negb]. destruct (Z.leb_spec 0 e) as [He|He].
  - rewrite opp_IZR, mult_IZR, bp_IZR by done. change (Zneg m) with (- Zpos m). rewrite opp_IZR. split; [lra|lia].
  - pose proof (Z.pow_pos_nonneg 2 (- e) ltac:(lia) ltac:(lia)) as Hp. pose proof (Z.div_mod (Zneg m) (2 ^ (- e)) ltac:(lia)) as Hdm.
    pose proof (scaled_part e (Zneg m / 2 ^ (- e)) _ He (Z.mod_pos_bound (Zneg m) (2 ^ (- e)) Hp)) as [H1 H2]. rewrite <- Hdm in H1.
    change (Zneg m) with (- Zpos m) in H1 at 1. rewrite opp_IZR in H1. rewrite opp_IZR. split; [lra|].
    change (Zneg m) with (- Zpos m). pose proof (Z.div_add_l). pose proof (Z.mul_div_le (Zpos m) (2 ^ (- e)) Hp).
    pose proof (Z.mul_div_le (- Zpos m) (2 ^ (- e)) Hp). nia.
Qed.

Lemma unit_bounds : (0 < ulp <= 1 / 1000)%R /\ (0 < tiny <= 1 / 1000)%R /\ (IZR (2 ^ 60) <= huge)%R.
Proof.
  assert (H : (bp (-10) <= 1 / 1000)%R).
  { assert (H1 : (bp 10 * bp (-10) = 1)%R) by (rewrite <- bp_add; apply bp_0). rewrite <- bp_IZR in H1 by lia. change (2 ^ 10) with 1024 in H1. lra. }
  split_and!; try apply bp_pos; [eapply Rle_trans; [|exact H]; apply bp_le; lia..|]. rewrite bp_IZR by lia. apply bp_le. lia.
Qed.

(** The two positions the report reads are indices of the list. *)
Lemma position_in_range p n : p = f50 \/ p = f95 -> (1 <= n)%nat -> Z.of_nat n <= 2 ^ 53 ->
  0 <= floor_int (position p n) < Z.of_nat n /\ 0 <= ceil_int (position p n) < Z.of_nat n.
Proof.
  intros Hp Hn Hb. destruct (decide (n = 1%nat)) as [->|Hn1]; [by destruct Hp as [-> | ->]|].
  destruct unit_bounds as (Hu & Ht & Hh). destruct (of_int_exact 100) as [N100 V100]; [lia|].
  assert (Hq : num (div p (of_int 100)) /\ (0 <= val (div p (of_int 100)) <= 24 / 25)%R).
  { assert (exists k, p = of_int k /\ 50 <= k <= 95) as (k & -> & Hk) by (destruct Hp as [-> | ->]; eexists; split; [reflexivity|lia|reflexivity|lia]).
    destruct (of_int_exact k) as [Nk Vk]; [lia|]. assert (H95 : (50 <= IZR k <= 95)%R) by (split; apply IZR_le; lia).
    assert (Hd : near (div (of_int k) (of_int 100)) (IZR k / 100)).
    { rewrite <- Vk, <- V100. apply div_near; rewrite ?Vk, ?V100; try done; [lra|]. eapply Rle_trans; [|exact Hh].
      eapply Rle_trans; [|apply IZR_le; instantiate (1 := 1); lia]. lra. }
    split; [by eapply near_num|]. split; [apply val_nonneg|]. apply near_le in Hd. nra. }
  destruct Hq as [Nq Vq]. destruct (of_int_exact (Z.of_nat n - 1)) as [Nn Vn]; [lia|].
  assert (Hn' : (1 <= IZR (Z.of_nat n - 1) <= IZR (2 ^ 60))%R) by (split; apply IZR_le; lia).
  assert (Hm : near (position p n) (val (div p (of_int 100)) * IZR (Z.of_nat n - 1))).
  { rewrite <- Vn. apply mul_near; try done. rewrite Vn. nra. }
  pose proof (near_num _ _ Hm) as Np. apply near_le in Hm.
  assert (Hv : (val (position p n) <= IZR (Z.of_nat n - 1))%R).
  { set (v := (val (div p (of_int 100)) * IZR (Z.of_nat n - 1))%R) in *. assert (Hv1 : (0 <= v <= 24 / 25 * IZR (Z.of_nat n - 1))%R) by (unfold v; nra).
    assert (Hv2 : (v * ulp <= v / 1000)%R) by nra. lra. }
  destruct (position p n) as [[]|s| |[] m e]; try done; [cbn; lia|]. cbn [val] in Hv.
  destruct (floor_val m e) as [F1 F2], (ceil_val m e) as [C1 C2]. rewrite minus_IZR in Hv.
  assert (ceil_int (S754_finite false m e) < Z.of_nat n) by (apply lt_IZR; lra). lia.
Qed.

Lemma percentile_defined values p : p = f50 \/ p = f95 -> Z.of_nat (length values) <= 2 ^ 53 -> is_Some (percentile values p).
Proof.
  intros Hp Hl. unfold percentile. destruct values as [|v values]; [by eexists|]. set (vs := v :: values) in *.
  assert (Hlen : length (sort_floats vs) = length vs) by (by rewrite sort_perm).
  destruct (position_in_range p (length (sort_floats vs)) Hp) as [H1 H2]; [rewrite Hlen; cbn; lia|by rewrite Hlen|].
  assert (Hat : forall i, 0 <= i < Z.of_nat (length (sort_floats vs)) -> is_Some (at_index (sort_floats vs) i)).
  { intros i Hi. unfold at_index. destruct (Z.ltb_spec i 0); [lia|]. apply lookup_lt_is_Some_2. lia. }
  destruct (_ =? _); [by apply Hat|]. destruct (Hat _ H1) as [lo ->], (Hat _ H2) as [up ->]. by eexists.
Qed.

(** The report is written whatever was measured: none of its four percentiles
    reads outside its list. *)
Theorem report_never_panics rs probe depth :
  Z.of_nat (length rs) <= 2 ^ 53 ->
  let rep := buildReport rs probe depth in
  is_Some (P50TTFTMillis rep) /\ is_Some (P95TTFTMillis rep) /\ is_Some (P50LatencyMillis rep) /\ is_Some (P95LatencyMillis rep).
Proof.
  intros Hl rep. unfold rep, buildReport. cbn [P50TTFTMillis P95TTFTMillis P50LatencyMillis P95LatencyMillis].
  destruct (tally_exact rs {| ttfts := []; latencies := []; failures := []; okCount := 0; genRateSum := zero; promptRateSum := zero |})
    as (_ & -> & -> & _). cbn [ttfts latencies app]. pose proof (filter_split OK rs).
  split_and!; apply percentile_defined; auto; rewrite length_fmap; lia.
Qed.

(** ** The gauge and the probe *)

(** The observed depth is the highest sample, and never below zero. *)
Theorem poll_is_max name answers :
  pollMetric name answers = foldr Z.max 0 (omap (fun a => (fun b => parsePrometheusGauge b name) <$> a) answers).
Proof.
  unfold pollMetric. induction answers as [|a answers IH] using rev_ind; [done|]. rewrite foldl_snoc, IH, omap_app, foldr_app.
  set (l := omap _ answers). clearbody l. unfold poll. destruct a as [b|]; cbn; [|done]. set (v := parsePrometheusGauge b name).
  clearbody v. clear. assert (H : forall b, foldr Z.max b l = Z.max b (foldr Z.max 0 l) \/ b < 0).
  { intros b. destruct (Z.ltb_spec b 0); [by right|left]. induction l as [|x l IH]; cbn; [lia|]. rewrite IH. lia. }
  destruct (H (Z.max v 0)) as [->|?]; [|lia]. assert (0 <= foldr Z.max 0 l) by (clear; induction l; cbn; lia).
  destruct (Z.leb_spec v (foldr Z.max 0 l)); lia.
Qed.

(** The probe's client never times out before its cancellation by more than the
    margin it was given: five seconds at least, also where the sum wraps. *)
Theorem probe_timeout_floor cancelAfter :
  in_int64 cancelAfter ->
  5 * Second <= clientTimeout cancelAfter /\
  (0 <= cancelAfter -> cancelAfter + 5 * Second <= max_int64 -> clientTimeout cancelAfter = cancelAfter + 5 * Second).
Proof.
  intros Hr. unfold clientTimeout. split.
  - destruct (Z.ltb_spec (i64_add cancelAfter (5 * Second)) (5 * Second)); lia.
  - intros H0 H1. rewrite i64_add_small; [|unfold in_int64, Second, min_int64, max_int64 in *; lia]. destruct (Z.ltb_spec (cancelAfter + 5 * Second) (5 * Second)); lia.
Qed.

(** ** The request and the router *)

Lemma bench_body_wf baseURL model apiKey prompt maxTokens : wf (ReqBody (benchRequest baseURL model apiKey prompt maxTokens)).
Proof.
  split; [|vm_compute; discriminate]. cbn [lexed benchRequest post ReqBody message List.map foldr fst snd].
  split_and!; try (apply key_ok; vm_compute; reflexivity); try apply text_ok; try apply int_num_ok; done.
Qed.

Lemma cancel_body_wf baseURL model apiKey prompt maxTokens : wf (ReqBody (cancelRequest baseURL model apiKey prompt maxTokens)).
Proof.
  split; [|vm_compute; discriminate]. cbn [lexed cancelRequest post ReqBody message List.map foldr fst snd].
  split_and!; try (apply key_ok; vm_compute; reflexivity); try apply text_ok; try apply int_num_ok; done.
Qed.

(** The router reads from the body the model the tool was asked to measure. *)
Theorem bench_routed_by_model baseURL model apiKey prompt maxTokens :
  valid_utf8 (to_bytes model) ->
  let body r := of_bytes (print (ReqBody r)) in
  RequestBody.ExtractModel (body (benchRequest baseURL model apiKey prompt maxTokens)) = model /\
  RequestBody.ExtractModel (body (cancelRequest baseURL model apiKey prompt maxTokens)) = model.
Proof.
  intros Hv. cbn zeta. unfold RequestBody.ExtractModel. rewrite !to_of_bytes.
  rewrite (parse_print _ (bench_body_wf baseURL model apiKey prompt maxTokens)), (parse_print _ (cancel_body_wf baseURL model apiKey prompt maxTokens)).
  cbn [benchRequest cancelRequest post ReqBody]. unfold string_field. cbn [foldl].
  assert (S1 : selects "model" (to_bytes "max_tokens") = false) by (vm_compute; reflexivity).
  assert (S2 : selects "model" (to_bytes "messages") = false) by (vm_compute; reflexivity).
  assert (S3 : selects "model" (to_bytes "model") = true) by (vm_compute; reflexivity).
  assert (S4 : selects "model" (to_bytes "stream") = false) by (vm_compute; reflexivity).
  assert (S5 : selects "model" (to_bytes "stream_options") = false) by (vm_compute; reflexivity).
  unfold store_string. cbn [fst snd]. rewrite S1, S2, S3, S4, S5. cbn [JText fmap option_fmap option_map default].
  unfold Datatypes.id. rewrite unquote_escape. unfold valid_utf8 in Hv. rewrite Hv, of_to_bytes. done.
Qed.

(** ** Witnesses and examples *)

Definition ex_line (s : string) : bytes := to_bytes s ++ [Trim.LF].
Definition q (s : string) : bytes := [dquote] ++ to_bytes s ++ [dquote].

(** A reasoning model: the first delta is thinking, the text comes later. *)
Definition ex_delta (field text : string) : bytes :=
  to_bytes "data: {" ++ q "choices" ++ to_bytes ":[{" ++ q "delta" ++ to_bytes ":{" ++ q field ++ to_bytes ":" ++ q text ++ to_bytes "}}]}" ++ [Trim.LF].
Definition ex_usage : bytes :=
  to_bytes "data: {" ++ q "usage" ++ to_bytes ":{" ++ q "prompt_tokens" ++ to_bytes ":7," ++ q "completion_tokens" ++ to_bytes ":5}}" ++ [Trim.LF].

Definition ex_pieces : list (Time * bytes) :=
  [(1000000, ex_delta "role" "assistant"); (200000000, ex_delta "reasoning_content" "hm"); (900000000, ex_delta "content" "hello");
   (1000000000, ex_usage ++ ex_line "data: [DONE]")].

Definition ex_send (r : httpRequest) : answer := Answer 200 ex_pieces (2000000000, None).
Definition ex_run : requestResult := runBenchRequest (fun _ => None) ex_send 0 "http://r/" "m" "k" "p" 64.

Lemma bench_measures_stream_witness :
  TTFTMillis ex_run = of_int 200 /\ (PromptTokens ex_run, CompletionTokens ex_run) = (7, 5).
Proof.
  destruct (bench_measures_stream (fun _ => None) ex_send 0 "http://r/" "m" "k" "p" 64 200 ex_pieces (2000000000, None)) as (_ & H1 & H2);
    [reflexivity|reflexivity|vm_compute; reflexivity|].
  split; [etransitivity; [exact H1|vm_compute; reflexivity]|etransitivity; [exact H2|vm_compute; reflexivity]].
Defined.

Lemma bench_runs_each_once_witness :
  let run := fun i => failed (of_bytes (Itoa (Z.of_nat i))) in
  returned 2 1 {| next := 2; idle := 0; busy := []; gone := 1; results := run <$> seq 0 2 |} /\
  exists s, rtc (pool_step 2 run) (start_pool 2 1) s /\ (exists s', pool_step 2 run s s').
Proof.
  intros run. split; [done|]. exists (start_pool 2 1). split; [apply rtc_refl|].
  apply (bench_runs_each_once 2 1 run ltac:(lia) (start_pool 2 1) (rtc_refl _ _)). by intros [? _].
Defined.

Lemma report_never_panics_witness :
  is_Some (P95LatencyMillis (buildReport [ex_run; failed "x"; ex_run] {| CancelledCleanly := true; CError := ""; ElapsedMillis := zero |} 0)).
Proof. apply (report_never_panics [ex_run; failed "x"; ex_run]). cbn. lia. Defined.

Lemma probe_timeout_floor_witness : 5 * Second <= clientTimeout max_int64 /\ clientTimeout 1500000000 = 6500000000.
Proof. split; [apply probe_timeout_floor; vm_compute; split; discriminate|apply probe_timeout_floor; vm_compute; try split; discriminate]. Defined.

Lemma bench_routed_by_model_witness :
  RequestBody.ExtractModel (of_bytes (print (ReqBody (benchRequest "http://r/" "qwen3.5-27b" "local" "hi" 64)))) = "qwen3.5-27b"%string.
Proof. apply (bench_routed_by_model "http://r/" "qwen3.5-27b" "local" "hi" 64). vm_compute. reflexivity. Defined.

(** A successful stream without a token counts as a time to first token of zero,
    which pulls the percentiles down. *)
Example silent_stream_counts_as_zero :
  let r := runBenchRequest (fun _ => None) (fun _ => Answer 200 [(900000000, ex_line "data: [DONE]")] (900000000, None)) 0 "http://r" "m" "" "p" 64 in
  OK r = true /\ TTFTMillis r = zero /\ P50TTFTMillis (buildReport [ex_run; r] {| CancelledCleanly := true; CError := ""; ElapsedMillis := zero |} 0) = Some (of_int 100).
Proof. vm_compute. auto. Qed.

(** The gauge is found by a prefix of its line, so another metric whose name goes
    on stands in for it where it comes first. *)
Example gauge_prefix :
  parsePrometheusGauge (to_bytes "llm_router_queue_depth_by_tier{tier=} 3" ++ [Trim.LF] ++ to_bytes "llm_router_queue_depth 9") "llm_router_queue_depth" = 3 /\
  parsePrometheusGauge (to_bytes "# HELP llm_router_queue_depth x" ++ [Trim.LF] ++ to_bytes "llm_router_queue_depth 1.5e+01") "llm_router_queue_depth" = 15.
Proof. vm_compute. auto. Qed.

Example parse_floats :
  ParseFloat (to_bytes "0x1p-1") = Some (div one (of_int 2)) /\ ParseFloat (to_bytes "1_0") = Some (of_int 10) /\ ParseFloat (to_bytes "1__0") = None /\
  ParseFloat (to_bytes "1e999") = None /\ ParseFloat (to_bytes "+Inf") = Some (S754_infinity false) /\ ParseFloat (to_bytes ".") = None.
Proof. vm_compute. auto 10. Qed.
End Bench.
