(* ===== verification/RouterCmd.v ===== *)
(** * The router's command line

    Models, of [src/main.go], [main], [runProbeGPU] with [runCommand], and the
    whole of [runBench] over the workers of [Bench]: [fetchJSON], the report with
    its JSON and what is written where.  The processes, the HTTP client, the clock text
    and the file system are arguments; the subcommand [serve] is
    [RouterServe.runServe]. *)

From Stdlib Require Import ZArith Lia Ascii String SpecFloat.
From stdpp Require Import base option list relations strings.
From S2P Require Import Prelude GoStrings Utf8 Strconv Json JsonSpec JsonIndent JsonMap JsonLines Float64 JsonAny JsonStruct GpuProbe Flags Trim Bench.

Module RouterCmd.
Import GoStrings Json JsonSpec JsonIndent JsonMap JsonLines.

(** What a run leaves outside the process. *)
Inductive effect := Stdout (b : bytes) | WroteFile (path : string) (b : bytes) | MadeDirs (path : string).

Inductive cmdError :=
| FlagsFailed (e : Flags.flagError) | ProbeFailed (e : GpuProbe.probeError) | MarshalFailed | IOFailed (msg : string).

(** ** probe-gpu *)

(** [runCommand]: the combined output, or an error that quotes it; [exec] gives
    the output and the error of the process. *)
Definition runCommand (exec : string -> list string -> bytes * option string) (name : string) (args : list string) : GpuProbe.R bytes :=
  let '(output, err) := exec name args in
  match err with
  | Some e => inl (GpuProbe.Runner (name ++ " " ++ String.concat " " args ++ ": " ++ e ++ ": " ++ of_bytes (trim_bytes output))%string)
  | None => inr output
  end.

Definition process_json (p : GpuProbe.Process) : json :=
  JObj [(to_bytes "pid", JInt (GpuProbe.PID p)); (to_bytes "process_name", JStr (escape (GpuProbe.ProcessName p)));
        (to_bytes "used_memory_mib", JInt (GpuProbe.UsedMemoryMiB p))].

Definition snapshot_json (g : GpuProbe.Snapshot) : json :=
  JObj ([(to_bytes "index", JInt (GpuProbe.Index g)); (to_bytes "uuid", JStr (escape (GpuProbe.UUID g)));
         (to_bytes "pci_bus_id", JStr (escape (GpuProbe.PCIBusID g))); (to_bytes "name", JStr (escape (GpuProbe.Name g)));
         (to_bytes "memory_total_mib", JInt (GpuProbe.MemoryTotalMiB g)); (to_bytes "memory_used_mib", JInt (GpuProbe.MemoryUsedMiB g));
         (to_bytes "utilization_gpu_pct", JInt (GpuProbe.UtilizationGPU g)); (to_bytes "temperature_c", JInt (GpuProbe.TemperatureC g))] ++
        match GpuProbe.Processes g with
        | [] => []
        | ps => [(to_bytes "processes", JArr (List.map process_json ps))]
        end).

Definition gpu_report (capturedAt : string) (gpus : list GpuProbe.Snapshot) : json :=
  JObj [(to_bytes "captured_at", JText capturedAt); (to_bytes "gpus", JArr (List.map snapshot_json gpus))].

Definition probe_flags : Flags.FlagSet := Flags.NewFlagSet [("output", Flags.VStr "")]%string.

(** The two queries of [CollectSnapshots]. *)
Definition gpu_query : list string :=
  ["--query-gpu=index,uuid,pci.bus_id,name,memory.total,memory.used,utilization.gpu,temperature.gpu"; "--format=csv,noheader"]%string.
Definition apps_query : list string := ["--query-compute-apps=gpu_uuid,pid,process_name,used_memory"; "--format=csv,noheader"]%string.

(** [write] gives the error of writing to standard output (no path) or to a file. *)
Definition runProbeGPU (exec : string -> list string -> bytes * option string) (capturedAt : string) (write : option string -> option string)
    (args : list string) : list effect * option cmdError :=
  match Flags.Parse probe_flags args with
  | inr e => ([], Some (FlagsFailed e))
  | inl (fs, _) =>
      match GpuProbe.CollectSnapshots (runCommand exec "nvidia-smi" gpu_query) (runCommand exec "nvidia-smi" apps_query) with
      | inl e => ([], Some (ProbeFailed e))
      | inr gpus =>
          let data := MarshalIndent (gpu_report capturedAt gpus) ++ [byte 10] in
          let output := Flags.strOf fs "output" in
          if output =s "" then
            match write None with None => ([Stdout data], None) | Some e => ([], Some (IOFailed e)) end
          else
            match write (Some output) with None => ([WroteFile output data], None) | Some e => ([], Some (IOFailed e)) end
      end
  end.

(** ** bench *)

(** [fetchJSON]: the first JSON value of the body, into a map; the caller drops
    the error. *)
Definition fetchJSON (body : option bytes) : option (decoded (gomap JsonAny.any)) :=
  b ← body;
  '(v, _) ← value (fuel_for (skip_ws b)) 0 (skip_ws b);
  a ← JsonAny.decode_any v;
  match a with JsonAny.ANull => Some DNil | JsonAny.AObj m => Some (DVal m) | _ => None end.

Definition snapshot_of (x : option (decoded (gomap JsonAny.any))) : gomap JsonAny.any :=
  match x with Some (DVal m) => m | _ => [] end.

(** A float that JSON cannot write fails the whole [Marshal]. *)
Definition float_json (f : Float64.float64) : option json :=
  match f with
  | S754_zero _ | S754_finite _ _ _ => Some (JNum (JsonAny.fmt_float f))
  | _ => None
  end.

Definition result_json (r : Bench.requestResult) : option json :=
  ttft ← float_json (Bench.TTFTMillis r); lat ← float_json (Bench.LatencyMillis r);
  gen ← float_json (Bench.GenerationTokensSec r); pr ← float_json (Bench.PromptTokensSec r);
  Some (JObj [(to_bytes "OK", JBool (Bench.OK r)); (to_bytes "Error", JText (Bench.Error r)); (to_bytes "TTFTMillis", ttft);
              (to_bytes "LatencyMillis", lat); (to_bytes "PromptTokens", JInt (Bench.PromptTokens r));
              (to_bytes "CompletionTokens", JInt (Bench.CompletionTokens r)); (to_bytes "GenerationTokensSec", gen);
              (to_bytes "PromptTokensSec", pr)]).

Definition probe_json (c : Bench.cancelProbeResult) : option json :=
  el ← float_json (Bench.ElapsedMillis c);
  Some (JObj ([(to_bytes "cancelled_cleanly", JBool (Bench.CancelledCleanly c))] ++ opt_text "error" (Bench.CError c) ++ [(to_bytes "elapsed_ms", el)])).

(** An [omitempty] map. *)
Definition opt_map (name : string) (m : gomap JsonAny.any) : list (bytes * json) :=
  match m with [] => [] | _ => [(to_bytes name, JsonAny.encode_any (JsonAny.AObj m))] end.

Definition opt_strings (name : string) (l : list string) : list (bytes * json) :=
  match l with [] => [] | _ => [(to_bytes name, JArr (List.map JText l))] end.

Definition zero_or (x : option Float64.float64) : Float64.float64 := default Float64.zero x.

Definition report_json (capturedAt baseURL model : string) (health models : gomap JsonAny.any) (r : Bench.benchmarkReport) : option json :=
  rate ← float_json (Bench.SuccessRate r);
  a ← float_json (zero_or (Bench.P50TTFTMillis r)); b ← float_json (zero_or (Bench.P95TTFTMillis r));
  c ← float_json (zero_or (Bench.P50LatencyMillis r)); d ← float_json (zero_or (Bench.P95LatencyMillis r));
  g ← float_json (Bench.AvgGenerationTokensPerSec r); p ← float_json (Bench.AvgPromptTokensPerSec r);
  cp ← probe_json (Bench.CancelProbe r);
  raw ← JsonAny.all_some (List.map result_json (Bench.RawResults r));
  Some (JObj ([(to_bytes "captured_at", JText capturedAt); (to_bytes "base_url", JText baseURL); (to_bytes "model", JText model);
               (to_bytes "requests", JInt (Bench.Requests r)); (to_bytes "successful_requests", JInt (Bench.SuccessfulRequests r));
               (to_bytes "failed_requests", JInt (Bench.FailedRequests r)); (to_bytes "success_rate", rate);
               (to_bytes "p50_ttft_ms", a); (to_bytes "p95_ttft_ms", b); (to_bytes "p50_latency_ms", c); (to_bytes "p95_latency_ms", d);
               (to_bytes "avg_generation_tokens_per_sec", g); (to_bytes "avg_prompt_tokens_per_sec", p);
               (to_bytes "observed_max_queue_depth", JInt (Bench.ObservedMaxQueueDepth r)); (to_bytes "cancel_probe", cp)] ++
              opt_map "health_snapshot" health ++ opt_map "models_snapshot" models ++ opt_strings "failures" (Bench.Failures r) ++
              [(to_bytes "raw_results", JArr raw)])).

Record benchFlags := { FUrl : string; FModel : string; FOutput : string }.

(** The end of [runBench], from the results of the workers on; [get] is the body
    [client.Get] answers with, [io] the error of each write in turn, [dir] is
    [filepath.Dir]. *)
Definition finishBench (fl : benchFlags) (capturedAt : string) (get : string -> option bytes) (dir : string -> string)
    (io : effect -> option string) (rs : list Bench.requestResult) (cancelResult : Bench.cancelProbeResult) (maxQueueDepth : Z)
  : list effect * option cmdError :=
  let base := trim_right_char "/" (FUrl fl) in
  let health := snapshot_of (fetchJSON (get (base ++ "/healthz")%string)) in
  let models := snapshot_of (fetchJSON (get (base ++ "/v1/models")%string)) in
  let report := Bench.buildReport rs cancelResult maxQueueDepth in
  match report_json capturedAt (FUrl fl) (FModel fl) health models report with
  | None => ([], Some MarshalFailed)
  | Some j =>
      let data := MarshalIndent j in
      match io (MadeDirs (dir (FOutput fl))) with
      | Some e => ([], Some (IOFailed e))
      | None =>
          match io (WroteFile (FOutput fl) data) with
          | Some e => ([MadeDirs (dir (FOutput fl))], Some (IOFailed e))
          | None =>
              ([MadeDirs (dir (FOutput fl)); WroteFile (FOutput fl) data;
                Stdout (to_bytes ("wrote benchmark report to " ++ FOutput fl)%string ++ [byte 10]); Stdout (data ++ [byte 10])], None)
          end
      end
  end.

(** [runBench] after its flags: a slice of negative length panics, without a
    receiver the first send on the channel blocks for ever, and else the report is
    made of what the workers left in the slice. *)
Inductive benchEnd := BenchPanics | BenchHangs | BenchDone (written : list effect) (err : option cmdError).

Definition runBench (fl : benchFlags) (requests concurrency : Z) (capturedAt : string) (get : string -> option bytes) (dir : string -> string)
    (io : effect -> option string) (run : nat -> Bench.requestResult) (cancelResult : Bench.cancelProbeResult) (maxQueueDepth : Z) : benchEnd :=
  if requests <? 0 then BenchPanics
  else if (0 <? requests) && (concurrency <=? 0) then BenchHangs
  else
    let '(written, err) := finishBench fl capturedAt get dir io (run <$> seq 0 (Z.to_nat requests)) cancelResult maxQueueDepth in
    BenchDone written err.

(** ** main *)

Inductive subcommand := serve | bench | probe_gpu.

Definition subcommand_of (a : string) : option subcommand :=
  if a =s "serve" then Some serve else if a =s "bench" then Some bench else if a =s "probe-gpu" then Some probe_gpu else None.

(** The exit status: [log.Fatal] is 1, a missing or unknown subcommand 2; [run]
    tells whether a subcommand returned an error. *)
Definition main (run : subcommand -> list string -> bool) (args : list string) : Z :=
  match args with
  | [] => 2
  | a :: rest => match subcommand_of a with Some c => if run c rest then 1 else 0 | None => 2 end
  end.

(** ** The reports read back *)

Create HintDb json_ok.

Lemma raw_text_ok b : lexed (JStr (escape b)).
Proof. cbn. apply lit_str_ok, lit_escape. Qed.

Lemma int_ok z : lexed (JInt z).
Proof. apply int_num_ok. Qed.

Lemma bool_ok b : lexed (JBool b).
Proof. done. Qed.

#[local] Hint Resolve raw_text_ok text_ok int_ok bool_ok : json_ok.

(** The members of a struct, one by one. *)
Ltac members_ok :=
  repeat (apply Forall_cons_2; [split; [by apply key_ok|cbn [snd]; auto with json_ok]|]); try apply Forall_nil_2.

Lemma object_lexed ms : Forall (fun kv => str_ok kv.1 /\ lexed kv.2) ms -> lexed (JObj ms).
Proof. intros H. cbn [lexed]. by apply Forall_foldr_and. Qed.

Lemma array_lexed l : Forall lexed l -> lexed (JArr l).
Proof. intros H. cbn [lexed]. by apply Forall_foldr_and. Qed.

Lemma array_depth l d : 0 <= d -> Forall (fun v => depth v <= d) l -> depth (JArr l) <= 1 + d.
Proof. intros Hd H. cbn [depth]. apply (JsonAny.max_le_Forall depth l d Hd) in H. lia. Qed.

Lemma object_depth ms d : 0 <= d -> Forall (fun kv => depth kv.2 <= d) ms -> depth (JObj ms) <= 1 + d.
Proof. intros Hd H. cbn [depth]. apply (JsonAny.max_le_Forall (fun kv => depth kv.2) ms d Hd) in H. lia. Qed.

Lemma process_json_ok p : lexed (process_json p) /\ depth (process_json p) <= 1.
Proof.
  split; [|done]. apply object_lexed. members_ok.
Qed.

Lemma snapshot_json_ok g : lexed (snapshot_json g) /\ depth (snapshot_json g) <= 3.
Proof.
  unfold snapshot_json. split.
  - apply object_lexed, Forall_app. split; [members_ok|].
    destruct (GpuProbe.Processes g) as [|p ps]; [constructor|]. constructor; [|constructor]. split; [by apply key_ok|].
    apply array_lexed, Forall_map, Forall_forall. intros q _. apply process_json_ok.
  - apply (object_depth _ 2); [done|]. apply Forall_app. split; [repeat constructor; done|].
    destruct (GpuProbe.Processes g) as [|p ps]; constructor; [|constructor]. apply (array_depth _ 1); [done|].
    apply Forall_map, Forall_forall. intros q _. apply process_json_ok.
Qed.

Lemma gpu_report_wf capturedAt gpus : wf (gpu_report capturedAt gpus).
Proof.
  split.
  - apply object_lexed. members_ok.
    apply array_lexed, Forall_map, Forall_forall. intros g _. apply snapshot_json_ok.
  - etrans; [apply (object_depth _ 4)|by vm_compute]; [done|]. repeat constructor; [done|]. apply (array_depth _ 3); [done|].
    apply Forall_map, Forall_forall. intros g _. apply snapshot_json_ok.
Qed.

(** *** A reader of the report *)

(** The member of an object under a key, an integer and a text there. *)
Definition member (name : string) (v : json) : option json :=
  match v with JObj ms => snd ∘ snd <$> list_find (fun kv => kv.1 = to_bytes name) ms | _ => None end.

Definition read_int (name : string) (v : json) : option Z :=
  x ← member name v; match x with JNum n => Strconv.Atoi (num_text n) | _ => None end.

Definition read_text (name : string) (v : json) : option bytes :=
  x ← member name v; match x with JStr raw => Some (unquote raw) | _ => None end.

Definition read_process (v : json) : option GpuProbe.Process :=
  pid ← read_int "pid" v; name ← read_text "process_name" v; mem ← read_int "used_memory_mib" v;
  Some {| GpuProbe.PID := pid; GpuProbe.ProcessName := name; GpuProbe.UsedMemoryMiB := mem |}.

(** A GPU without processes has no such member. *)
Definition read_snapshot (v : json) : option GpuProbe.Snapshot :=
  index ← read_int "index" v; uuid ← read_text "uuid" v; bus ← read_text "pci_bus_id" v; name ← read_text "name" v;
  total ← read_int "memory_total_mib" v; used ← read_int "memory_used_mib" v; util ← read_int "utilization_gpu_pct" v;
  temp ← read_int "temperature_c" v;
  ps ← match member "processes" v with None => Some [] | Some (JArr l) => mapM read_process l | Some _ => None end;
  Some {| GpuProbe.Index := index; GpuProbe.UUID := uuid; GpuProbe.PCIBusID := bus; GpuProbe.Name := name;
          GpuProbe.MemoryTotalMiB := total; GpuProbe.MemoryUsedMiB := used; GpuProbe.UtilizationGPU := util;
          GpuProbe.TemperatureC := temp; GpuProbe.Processes := ps |}.

Definition read_report (data : bytes) : option (bytes * list GpuProbe.Snapshot) :=
  v ← parse data; at_ ← read_text "captured_at" v; l ← member "gpus" v;
  match l with JArr l => gpus ← mapM read_snapshot l; Some (at_, gpus) | _ => None end.

(** What the reader gives back as it was written: integers of 64 bits and texts
    in UTF-8. *)
Record process_exact (p : GpuProbe.Process) : Prop := {
  pe_ints : Forall in_int64 [GpuProbe.PID p; GpuProbe.UsedMemoryMiB p];
  pe_name : Utf8.valid_utf8 (GpuProbe.ProcessName p);
}.

Record snapshot_exact (g : GpuProbe.Snapshot) : Prop := {
  se_ints : Forall in_int64 [GpuProbe.Index g; GpuProbe.MemoryTotalMiB g; GpuProbe.MemoryUsedMiB g; GpuProbe.UtilizationGPU g;
                             GpuProbe.TemperatureC g];
  se_texts : Forall Utf8.valid_utf8 [GpuProbe.UUID g; GpuProbe.PCIBusID g; GpuProbe.Name g];
  se_procs : Forall process_exact (GpuProbe.Processes g);
}.

Lemma read_int_at name v z : in_int64 z -> member name v = Some (JInt z) -> read_int name v = Some z.
Proof. intros Hz H. unfold read_int. rewrite H. unfold JInt. cbn [mbind option_bind]. by rewrite int_num_text, Strconv.Atoi_Itoa. Qed.

Lemma read_text_at name v b : Utf8.valid_utf8 b -> member name v = Some (JStr (escape b)) -> read_text name v = Some b.
Proof. intros Hb H. unfold read_text. rewrite H. cbn [mbind option_bind]. by rewrite unquote_escape, Hb. Qed.

Lemma read_process_json p : process_exact p -> read_process (process_json p) = Some p.
Proof.
  intros [Hi Hn]. repeat (apply Forall_cons_1 in Hi as [?Hz Hi]). unfold read_process.
  rewrite (read_int_at "pid" _ (GpuProbe.PID p)), (read_text_at "process_name" _ (GpuProbe.ProcessName p)),
    (read_int_at "used_memory_mib" _ (GpuProbe.UsedMemoryMiB p)) by (done || reflexivity). by destruct p.
Qed.

Lemma mapM_read {A B} (f : A -> B) (read : B -> option A) (ok : A -> Prop) l :
  (forall x, ok x -> read (f x) = Some x) -> Forall ok l -> mapM read (List.map f l) = Some l.
Proof.
  intros H HF. apply mapM_Some. induction HF as [|x l Hx _ IH]; [constructor|]. cbn [List.map]. constructor; [by apply H|done].
Qed.

Lemma read_snapshot_json g : snapshot_exact g -> read_snapshot (snapshot_json g) = Some g.
Proof.
  intros [Hi Ht Hp]. repeat (apply Forall_cons_1 in Hi as [?Hz Hi]). repeat (apply Forall_cons_1 in Ht as [?Hz Ht]).
  unfold read_snapshot.
  rewrite (read_int_at "index" _ (GpuProbe.Index g)), (read_text_at "uuid" _ (GpuProbe.UUID g)),
    (read_text_at "pci_bus_id" _ (GpuProbe.PCIBusID g)), (read_text_at "name" _ (GpuProbe.Name g)),
    (read_int_at "memory_total_mib" _ (GpuProbe.MemoryTotalMiB g)), (read_int_at "memory_used_mib" _ (GpuProbe.MemoryUsedMiB g)),
    (read_int_at "utilization_gpu_pct" _ (GpuProbe.UtilizationGPU g)), (read_int_at "temperature_c" _ (GpuProbe.TemperatureC g))
    by (done || reflexivity).
  cbn [mbind option_bind].
  assert (Hm : member "processes" (snapshot_json g) =
    match GpuProbe.Processes g with [] => None | ps => Some (JArr (List.map process_json ps)) end)
    by (unfold snapshot_json; destruct (GpuProbe.Processes g); reflexivity).
  rewrite Hm. destruct g as [? ? ? ? ? ? ? ? ps]. cbn [GpuProbe.Processes] in *.
  destruct ps as [|p ps]; [done|]. by rewrite (mapM_read process_json read_process process_exact _ read_process_json Hp).
Qed.

Lemma read_report_json capturedAt gpus data :
  Utf8.valid_utf8 (to_bytes capturedAt) -> Forall snapshot_exact gpus -> parse data = Some (gpu_report capturedAt gpus) ->
  read_report data = Some (to_bytes capturedAt, gpus).
Proof.
  intros Hc Hg Hp. unfold read_report. rewrite Hp. cbn [mbind option_bind].
  rewrite (read_text_at "captured_at" _ (to_bytes capturedAt)) by done. cbn [mbind option_bind].
  assert (Hm : member "gpus" (gpu_report capturedAt gpus) = Some (JArr (List.map snapshot_json gpus))) by reflexivity.
  rewrite Hm. cbn [mbind option_bind]. by rewrite (mapM_read snapshot_json read_snapshot snapshot_exact _ read_snapshot_json Hg).
Qed.

(** The texts the driver prints are UTF-8. *)
Definition gpu_utf8 (g : GpuProbe.Snapshot) : Prop := Forall Utf8.valid_utf8 [GpuProbe.UUID g; GpuProbe.PCIBusID g; GpuProbe.Name g].
Definition app_utf8 (up : bytes * (Z * bytes * option Z)) : Prop := Utf8.valid_utf8 up.2.1.2.

Lemma probed_exact gpus apps :
  Forall GpuProbe.gpu_ok gpus -> Forall gpu_utf8 gpus -> Forall GpuProbe.app_ok apps -> Forall app_utf8 apps ->
  Forall snapshot_exact ((fun g => GpuProbe.with_processes g (GpuProbe.of_uuid apps (GpuProbe.UUID g))) <$> gpus).
Proof.
  intros Hg Hgu Ha Hau. apply Forall_fmap, Forall_forall. intros g Hin. rewrite Forall_forall in Hg, Hgu.
  destruct (Hg g Hin) as [Hi _ _]. split; [exact Hi|exact (Hgu g Hin)|]. cbn [GpuProbe.with_processes GpuProbe.Processes].
  unfold GpuProbe.of_uuid. apply Forall_fmap, Forall_forall. intros up [_ Hup]%list_elem_of_filter.
  rewrite Forall_forall in Ha, Hau. destruct (Ha up Hup) as [_ _ Hpid Hmem]. split; [|exact (Hau up Hup)].
  constructor; [exact Hpid|]. constructor; [|constructor]. cbn. destruct up.2.2; [exact Hmem|done].
Qed.

(** C29: From the driver to the report: probe-gpu writes one JSON document, to the
    file that was asked for or to standard output, in which a reader by member
    names finds the capture time and exactly the GPUs the driver printed, in
    order, each with its eight figures and, in order, the processes printed under
    its UUID (an unavailable memory figure reads 0).  Assumed of what the driver
    printed: each GPU figure, pid and available process memory is a 64-bit
    integer with its unit, the texts are UTF-8, without commas, line feeds or
    white space at the ends, and both commands and the write succeed. *)
Theorem gpu_report_reads_back exec capturedAt write args fs rest gpus apps :
  Flags.Parse probe_flags args = inl (fs, rest) -> (forall p, write p = None) -> Utf8.valid_utf8 (to_bytes capturedAt) ->
  Forall GpuProbe.gpu_ok gpus -> Forall gpu_utf8 gpus -> Forall GpuProbe.app_ok apps -> Forall app_utf8 apps ->
  exec "nvidia-smi"%string gpu_query = (GpuProbe.print_lines (GpuProbe.print_gpu <$> gpus), None) ->
  exec "nvidia-smi"%string apps_query = (GpuProbe.print_lines (GpuProbe.print_app <$> apps), None) ->
  exists data,
    runProbeGPU exec capturedAt write args =
      ([if Flags.strOf fs "output" =s "" then Stdout data else WroteFile (Flags.strOf fs "output") data], None) /\
    read_report data = Some (to_bytes capturedAt,
      (fun g => GpuProbe.with_processes g (GpuProbe.of_uuid apps (GpuProbe.UUID g))) <$> gpus).
Proof.
  intros Hf Hw Hc Hg Hgu Ha Hau H1 H2. unfold runProbeGPU, runCommand. rewrite Hf, H1, H2, GpuProbe.collect_reads_back by done.
  eexists. split; [rewrite !Hw; by destruct (_ =s "")|]. apply read_report_json; [done|by apply probed_exact|].
  apply parse_indented; [apply gpu_report_wf|by right].
Qed.

Lemma float_json_ok f j : float_json f = Some j -> lexed j.
Proof.
  unfold float_json. pose proof (JsonAny.fmt_float_ok f) as Hn. set (n := JsonAny.fmt_float f) in *. clearbody n.
  destruct f; try discriminate; intros <-%(inj Some); exact Hn.
Qed.

#[local] Hint Resolve float_json_ok : json_ok.

Lemma opt_map_ok name m : str_ok (to_bytes name) -> Forall (fun kv => str_ok kv.1 /\ lexed kv.2) (opt_map name m).
Proof.
  intros Hn. unfold opt_map. destruct m as [|x m]; constructor; [|constructor]. split; [done|]. apply JsonAny.encode_any_lexed.
Qed.

Lemma opt_strings_ok name l : str_ok (to_bytes name) -> Forall (fun kv => str_ok kv.1 /\ lexed kv.2) (opt_strings name l).
Proof.
  intros Hn. unfold opt_strings. destruct l as [|x l]; constructor; [|constructor]. split; [done|].
  apply array_lexed, Forall_map, Forall_forall. intros s _. apply text_ok.
Qed.

Lemma result_json_ok r j : result_json r = Some j -> lexed j.
Proof.
  unfold result_json. intros (a & Ha & (b & Hb & (c & Hc & (d & Hd & <-%(inj Some))%bind_Some)%bind_Some)%bind_Some)%bind_Some.
  apply object_lexed. members_ok; eauto with json_ok.
Qed.

Lemma probe_json_ok c j : probe_json c = Some j -> lexed j.
Proof.
  unfold probe_json. intros (a & Ha & <-%(inj Some))%bind_Some. apply object_lexed. rewrite !Forall_app. split_and!.
  - members_ok.
  - eapply Forall_impl; [apply opt_text_ok; by apply key_ok|]. by intros kv (H1 & H2 & _).
  - members_ok. eauto with json_ok.
Qed.

Lemma all_some_lexed {A} (f : A -> option json) l r :
  (forall x j, f x = Some j -> lexed j) -> JsonAny.all_some (List.map f l) = Some r -> Forall lexed r.
Proof.
  intros Hf H%JsonAny.all_some_Forall2. revert r H. induction l as [|x l IH]; intros r H; inversion H; subst; constructor; eauto.
Qed.

Lemma report_json_lexed capturedAt baseURL model health models r j :
  report_json capturedAt baseURL model health models r = Some j -> lexed j.
Proof.
  unfold report_json.
  repeat (let x := fresh "x" in let H := fresh "H" in intros (x & H & Hj)%bind_Some; revert Hj).
  intros <-%(inj Some). apply object_lexed. rewrite !Forall_app. split_and!.
  - members_ok; eauto using float_json_ok, probe_json_ok.
  - apply opt_map_ok. by apply key_ok.
  - apply opt_map_ok. by apply key_ok.
  - apply opt_strings_ok. by apply key_ok.
  - members_ok. eapply array_lexed, all_some_lexed; [|eassumption]. apply result_json_ok.
Qed.

(** The bench report is one document: when every figure is finite and the two
    writes succeed, the file and the standard output carry the same text, and it
    reads back as the report of [buildReport] over the measured results; a figure
    JSON cannot write leaves no file at all. *)
Theorem bench_report_reads_back fl capturedAt get dir io rs probe depth_ :
  let base := trim_right_char "/" (FUrl fl) in
  let tree := report_json capturedAt (FUrl fl) (FModel fl) (snapshot_of (fetchJSON (get (base ++ "/healthz")%string)))
                (snapshot_of (fetchJSON (get (base ++ "/v1/models")%string))) (Bench.buildReport rs probe depth_) in
  (tree = None -> finishBench fl capturedAt get dir io rs probe depth_ = ([], Some MarshalFailed)) /\
  (forall j, tree = Some j -> depth j <= maxNestingDepth -> (forall x, io x = None) ->
   exists data, finishBench fl capturedAt get dir io rs probe depth_ =
     ([MadeDirs (dir (FOutput fl)); WroteFile (FOutput fl) data;
       Stdout (to_bytes ("wrote benchmark report to " ++ FOutput fl)%string ++ [byte 10]); Stdout (data ++ [byte 10])], None) /\
     parse data = Some j).
Proof.
  cbv zeta. unfold finishBench. split.
  - intros H. by rewrite H.
  - intros j H Hd Hio. rewrite H, !Hio. eexists. split; [reflexivity|].
    rewrite <- (app_nil_r (MarshalIndent j)). apply parse_indented; [|by left]. split; [by eapply report_json_lexed|done].
Qed.

(** ** The bench run against its workers *)

(** With a worker every run can be brought to its end. *)
Lemma pool_drains requests concurrency run s :
  (1 <= concurrency)%nat -> rtc (Bench.pool_step requests run) (Bench.start_pool requests concurrency) s ->
  exists s', rtc (Bench.pool_step requests run) s s' /\ Bench.returned requests concurrency s'.
Proof.
  intros Hc. remember (Bench.work_left requests concurrency s) as n eqn:En. revert s En.
  induction (lt_wf n) as [n _ IH]. intros s -> Hr. destruct (Bench.bench_runs_each_once requests concurrency run Hc s Hr) as (_ & Hp & Hw).
  destruct (decide (Bench.next s = requests /\ Bench.gone s = concurrency)) as [Hd|Hd]; [by exists s|].
  destruct (Hp Hd) as [s1 Hs]. destruct (IH _ (Hw s1 Hs) s1 eq_refl) as (s' & Hs' & He); [by eapply rtc_r|].
  exists s'. split; [by eapply rtc_l|done].
Qed.

(** What the workers leave in the slice is what [runBench] reports on. *)
Lemma pool_results requests concurrency run s :
  (requests = 0 \/ 1 <= concurrency)%nat -> rtc (Bench.pool_step requests run) (Bench.start_pool requests concurrency) s ->
  Bench.returned requests concurrency s -> Bench.results s = run <$> seq 0 requests.
Proof.
  intros [->|Hc] Hr He; [|by apply (Bench.bench_runs_each_once requests concurrency run Hc s Hr)].
  apply Bench.pool_reachable_inv in Hr. apply nil_length_inv. apply (Bench.i_len _ _ _ _ Hr).
Qed.

(** The bench command ends exactly as its workers let it: it hangs if and only if
    no interleaving of the workers ever ends; otherwise every interleaving can be
    brought to its end, and whichever way it ends, the report written is the one
    over what the workers left in the slice. *)
Theorem bench_ends_with_its_workers fl requests concurrency capturedAt get dir io run probe depth_ :
  0 <= requests ->
  let n := Z.to_nat requests in let w := Z.to_nat concurrency in
  let reached := rtc (Bench.pool_step n run) (Bench.start_pool n w) in
  let ends := runBench fl requests concurrency capturedAt get dir io run probe depth_ in
  (ends = BenchHangs <-> forall s, reached s -> ~ Bench.returned n w s) /\
  (ends <> BenchHangs -> forall s, reached s -> exists s', rtc (Bench.pool_step n run) s s' /\ Bench.returned n w s') /\
  (forall s, reached s -> Bench.returned n w s ->
   ends = let '(written, err) := finishBench fl capturedAt get dir io (Bench.results s) probe depth_ in BenchDone written err).
Proof.
  intros Hn. cbv zeta. unfold runBench. rewrite (proj2 (Z.ltb_ge requests 0)) by done.
  destruct ((0 <? requests) && (concurrency <=? 0)) eqn:E.
  - apply andb_prop in E as [H1%Z.ltb_lt H2%Z.leb_le]. replace (Z.to_nat concurrency) with 0%nat by lia.
    destruct (Z.to_nat requests) as [|k] eqn:Ek; [lia|].
    assert (Hs : forall s, rtc (Bench.pool_step (S k) run) (Bench.start_pool (S k) 0) s -> s = Bench.start_pool (S k) 0).
    { intros s Hr. inversion Hr as [|? y ? Hy]; [done|]. subst. by destruct (proj2 (Bench.bench_hangs_without_workers k run) y). }
    assert (Hno : forall s, rtc (Bench.pool_step (S k) run) (Bench.start_pool (S k) 0) s -> ~ Bench.returned (S k) 0 s).
    { intros s ->%Hs. apply (Bench.bench_hangs_without_workers k run). }
    split_and!; [done|done|]. intros s Hr He. by destruct (Hno s Hr).
  - assert (Hc : (Z.to_nat requests = 0 \/ 1 <= Z.to_nat concurrency)%nat) by (apply andb_false_iff in E as [H%Z.ltb_ge|H%Z.leb_gt]; lia).
    assert (Hd : forall s, rtc (Bench.pool_step (Z.to_nat requests) run) (Bench.start_pool (Z.to_nat requests) (Z.to_nat concurrency)) s ->
      exists s', rtc (Bench.pool_step (Z.to_nat requests) run) s s' /\ Bench.returned (Z.to_nat requests) (Z.to_nat concurrency) s').
    { intros s Hr. destruct (decide (1 <= Z.to_nat concurrency)%nat) as [Hw|Hw]; [by apply pool_drains|].
      exists s. split; [done|]. destruct (Bench.pool_reachable_inv _ _ _ _ Hr) as [Hi1 Hi2 _ _ _ _]. split; lia. }
    destruct (finishBench _ _ _ _ _ (run <$> _) _ _) as [written err] eqn:Ef. split_and!.
    + split; [done|]. intros Hno. destruct (Hd _ (rtc_refl _ _)) as (s & Hr & He). by destruct (Hno s Hr).
    + by intros _.
    + intros s Hr He. rewrite (pool_results _ _ run s Hc Hr He). by rewrite Ef.
Qed.

(** With a negative number of requests the slice cannot be made. *)
Example negative_requests_panic fl cc ca get dir io run probe depth_ : runBench fl (-1) cc ca get dir io run probe depth_ = BenchPanics.
Proof. reflexivity. Qed.

(** ** Witnesses *)

Definition ex_exec (name : string) (args : list string) : bytes * option string :=
  if bool_decide (args = gpu_query) then (GpuProbe.print_lines (GpuProbe.print_gpu <$> [GpuProbe.ex_gpu]), None)
  else (GpuProbe.print_lines (GpuProbe.print_app <$> GpuProbe.ex_apps), None).

Lemma gpu_report_reads_back_witness :
  exists data, runProbeGPU ex_exec "2026-01-01T00:00:00Z" (fun _ => None) ["-output"; "gpu.json"]%string = ([WroteFile "gpu.json" data], None) /\
    exists gpus, read_report data = Some (to_bytes "2026-01-01T00:00:00Z", gpus) /\
      GpuProbe.MemoryTotalMiB <$> gpus = [24564] /\ (List.map GpuProbe.PID ∘ GpuProbe.Processes) <$> gpus = [[4242; 9]].
Proof.
  destruct (Flags.Parse probe_flags ["-output"; "gpu.json"]%string) as [[fs rest]|e] eqn:E; [|vm_compute in E; discriminate].
  destruct (gpu_report_reads_back ex_exec "2026-01-01T00:00:00Z" (fun _ => None) ["-output"; "gpu.json"]%string fs rest [GpuProbe.ex_gpu] GpuProbe.ex_apps E)
    as (data & Hr & Hp); try reflexivity.
  - repeat constructor; vm_compute; discriminate.
  - repeat constructor; vm_compute; reflexivity.
  - repeat constructor; try (vm_compute; discriminate); eexists _, _; (split; [reflexivity|vm_compute; split; discriminate]).
  - repeat constructor; vm_compute; reflexivity.
  - exists data. split; [rewrite Hr; vm_compute in E; injection E as <- _; reflexivity|].
    eexists. split; [exact Hp|]. split; vm_compute; reflexivity.
Defined.

(** Two requests and one worker. *)
Lemma bench_ends_with_its_workers_witness :
  exists s, rtc (Bench.pool_step 2 (fun _ => Bench.zeroResult)) (Bench.start_pool 2 1) s /\ Bench.returned 2 1 s.
Proof.
  destruct (bench_ends_with_its_workers {| FUrl := ""; FModel := ""; FOutput := "" |} 2 1 "" (fun _ => None) (fun x => x) (fun _ => None)
    (fun _ => Bench.zeroResult) {| Bench.CancelledCleanly := true; Bench.CError := ""; Bench.ElapsedMillis := Float64.zero |} 0) as (_ & H & _); [lia|].
  apply (H ltac:(discriminate) _ (rtc_refl _ _)).
Defined.

End RouterCmd.
