(* ===== verification/Demo.v ===== *)
(** * The dual-listener demonstration

    Models [AgentraceAppender] of
    [src/internal/proxy/observability/observability.go] and, of
    [src/cmd/dual-listener-demo/main.go], the lazily opened appender, the
    status recorder, the outcome labels, the instrumented handler and the
    loopback proxy.  Prometheus counters are maps from their labels; a counter
    panics on a negative increment, as its documentation says.  The file system
    is the map of the log files, and the handler that is wrapped is the sequence
    of its calls on the response writer. *)

From Stdlib Require Import ZArith Lia Ascii String.
From stdpp Require Import base option list gmap strings.
From S2P Require Import Prelude GoStrings Utf8 Json JsonSpec JsonMap Net Trim JsonLines Observability Headers.

Module Demo.
Import GoStrings Json JsonSpec JsonMap JsonLines Observability Headers.

(** ** The appender *)

Definition marshal (e : AgentraceEvent) : json :=
  JObj ([(to_bytes "ts", JText (TS e)); (to_bytes "event", JText (Event e)); (to_bytes "listener", JText (Listener e))] ++
    opt_text "remote_addr" (RemoteAddr e) ++ opt_int "bytes_in" (BytesIn e) ++ opt_int "bytes_out" (BytesOut e) ++
    opt_int "duration_ms" (DurationMS e)).

(** An appender and whether its file is open; the files by path. *)
Record AgentraceAppender := { path : string; isOpen : bool }.
Abbreviation files := (gmap string bytes).

(** [os.OpenFile] with create and append; [openable] says where it succeeds. *)
Definition NewAgentraceAppender (openable : string -> bool) (p : string) (fs : files) : option (AgentraceAppender * files) :=
  if openable p then Some ({| path := p; isOpen := true |}, <[p := default [] (fs !! p)]> fs) else None.

(** [Append] holds the mutex around the single flight, so the key never joins two
    calls: every call writes its line. *)
Definition Append (a : AgentraceAppender) (event : AgentraceEvent) (key : string) (fs : files) : bool * files :=
  if isOpen a then (true, <[path a := default [] (fs !! path a) ++ print (marshal event) ++ [Trim.LF]]> fs) else (false, fs).

Definition Close (a : AgentraceAppender) : AgentraceAppender := {| path := path a; isOpen := false |}.

(** ** The package's appender *)

Record world := { disk : files; demoAgentrace : option AgentraceAppender; demoAgentracePath : string }.

(** [getAgentrace] for the configured path. *)
Definition getAgentrace (openable : string -> bool) (logPath : string) (w : world) : option AgentraceAppender * world :=
  if bool_decide (is_Some (demoAgentrace w) /\ demoAgentracePath w = logPath) then (demoAgentrace w, w)
  else
    match NewAgentraceAppender openable logPath (disk w) with
    | None => (None, {| disk := disk w; demoAgentrace := None; demoAgentracePath := demoAgentracePath w |})
    | Some (a, fs) => (Some a, {| disk := fs; demoAgentrace := Some a; demoAgentracePath := logPath |})
    end.

(** ** Labels and the status recorder *)

Definition outcomeLabel (status : Z) : string :=
  if (200 <=? status) && (status <? 300) then "ok" else if 500 <=? status then "error" else "closed".

Definition sessionOutcomeFromStatus (status : Z) : string :=
  if (200 <=? status) && (status <? 300) then "success" else if 500 <=? status then "failure" else "closed".

(** The calls of a handler on its writer: [Write] with what the connection took. *)
Inductive call := WriteHeader (code : Z) | Write (b : bytes) (n : Z).

Record statusRecorder := { status : Z; written : Z }.

Definition record (s : statusRecorder) (c : call) : statusRecorder :=
  match c with
  | WriteHeader code => {| status := code; written := written s |}
  | Write _ n => {| status := if status s =? 0 then 200 else status s; written := written s + n |}
  end.

Definition observed (calls : list call) : statusRecorder := foldl record {| status := 200; written := 0 |} calls.

(** ** The instrumented handler *)

Record metrics := {
  ConnectionsTotal : gmap (string * string) Z;
  BytesTotal : gmap (string * string) Z;
  RequestDuration : gmap (string * string) (list Duration);
  HelixChannelSessionTotal : gmap string Z;
}.

Definition count {K} `{Countable K} (m : gmap K Z) (k : K) : Z := default 0 (m !! k).
Definition bump {K} `{Countable K} (k : K) (v : Z) (m : gmap K Z) : gmap K Z := <[k := count m k + v]> m.

Record request := { Method : string; From : string; ContentLength : Z }.

(** What the clock said around the handler. *)
Record clocked := { now : string; took : Duration }.

(** The second component says that the increment of the received bytes panicked:
    [ContentLength] is -1 for a body of unknown length. *)
Definition instrumentHTTPHandler (openable : string -> bool) (logPath listener : string) (c : clocked) (r : request) (calls : list call)
    (st : metrics * world) : (metrics * world) * bool :=
  let '(m, w) := st in
  let ww := observed calls in
  let m := {| ConnectionsTotal := bump (listener, outcomeLabel (status ww)) 1 (ConnectionsTotal m); BytesTotal := BytesTotal m;
              RequestDuration := RequestDuration m; HelixChannelSessionTotal := HelixChannelSessionTotal m |} in
  if ContentLength r <? 0 then ((m, w), true)
  else
    let m := {| ConnectionsTotal := ConnectionsTotal m;
                BytesTotal := bump (listener, "out"%string) (written ww) (bump (listener, "in"%string) (ContentLength r) (BytesTotal m));
                RequestDuration := <[(listener, Method r) := default [] (RequestDuration m !! (listener, Method r)) ++ [took c]]> (RequestDuration m);
                HelixChannelSessionTotal :=
                  if (listener =s "helixchannel") || (listener =s "aes-mtls")
                  then bump (sessionOutcomeFromStatus (status ww)) 1 (HelixChannelSessionTotal m) else HelixChannelSessionTotal m |} in
    let '(app, w) := getAgentrace openable logPath w in
    match app with
    | None => ((m, w), false)
    | Some a =>
        let ev := {| TS := now c; Event := "demo.accept"; Listener := listener; RemoteAddr := From r; BytesIn := ContentLength r;
                     BytesOut := written ww; DurationMS := Z.quot (took c) 1000000 |} in
        ((m, {| disk := (Append a ev (listener ++ "|" ++ From r) (disk w)).2; demoAgentrace := demoAgentrace w;
                demoAgentracePath := demoAgentracePath w |}), false)
    end.

(** ** The loopback proxy *)

(** [http.Error]. *)
Definition httpError (msg : string) (code : Z) : list call :=
  let b := to_bytes msg ++ [Trim.LF] in [WriteHeader code; Write b (Z.of_nat (length b))].

Inductive upstream := BuildFailed | UpstreamError (msg : string) | Upstream (code : Z) (body : list bytes).

(** [newLoopbackProxyHandler], for a client that takes every byte. *)
Definition newLoopbackProxyHandler (u : upstream) : list call :=
  match u with
  | BuildFailed => httpError "proxy: build request failed" 500
  | UpstreamError msg => httpError ("proxy: upstream error: " ++ msg) 502
  | Upstream code body => WriteHeader code :: List.map (fun b => Write b (Z.of_nat (length b))) body
  end.

(** ** The log *)

Lemma event_wf e : wf (marshal e).
Proof.
  apply flat_object_wf.
  assert (T : forall name s, str_ok (to_bytes name) -> member_ok (to_bytes name, JText s)) by (intros; split_and!; [done|apply text_ok|done]).
  rewrite !Forall_app. split_and!;
    repeat first [apply opt_text_ok|apply opt_int_ok|apply T|constructor|apply key_ok; vm_compute; reflexivity]; done.
Qed.

Definition append_all (a : AgentraceAppender) (evs : list (AgentraceEvent * string)) (fs : files) : files :=
  foldl (fun fs e => (Append a e.1 e.2 fs).2) fs evs.

(** Every event has its line, whatever the keys: the log is the old one and the
    events in order, each of which reads back. *)
Theorem agentrace_keeps_every_event a evs fs :
  isOpen a = true ->
  default [] (append_all a evs fs !! path a) = default [] (fs !! path a) ++ ndjson (marshal <$> evs.*1) /\
  Net.split Trim.LF (ndjson (marshal <$> evs.*1)) = (print ∘ marshal <$> evs.*1) ++ [[]] /\
  mapM parse (print ∘ marshal <$> evs.*1) = Some (marshal <$> evs.*1).
Proof.
  intros Ho. split.
  - revert fs. induction evs as [|[e k] evs IH]; intros fs; [cbn; by rewrite app_nil_r|]. cbn [append_all foldl fmap list_fmap fst snd].
    unfold append_all in IH. rewrite IH, ndjson_cons. unfold Append. rewrite Ho. cbn [snd]. rewrite lookup_insert_eq. cbn [default from_option]. unfold id. by rewrite <- !app_assoc.
  - destruct (ndjson_reads_back (marshal <$> evs.*1)) as [H1 H2]; [apply Forall_fmap, Forall_true; intros e; apply event_wf|].
    rewrite (list_fmap_compose marshal print). split; [exact H1|exact H2].
Qed.

(** ** Counters *)

Section counters.

Context (openable : string -> bool) (logPath listener : string).
Context (channel : (listener =s "helixchannel") || (listener =s "aes-mtls") = true).

Record served := { clock : clocked; req : request; answer : list call }.

Definition serve (st : metrics * world) (s : served) : metrics * world :=
  (instrumentHTTPHandler openable logPath listener (clock s) (req s) (answer s) st).1.

Definition in_class (lo hi : Z) (s : served) : bool := (lo <=? status (observed (answer s))) && (status (observed (answer s)) <? hi).
Definition outcomes : list (string * string) := [("ok", "success"); ("error", "failure"); ("closed", "closed")]%string.

Lemma count_bump {K} `{Countable K} (k k' : K) v (m : gmap K Z) : count (bump k v m) k' = count m k' + (if bool_decide (k = k') then v else 0).
Proof. unfold count, bump. case_bool_decide as Hk; [subst; by rewrite lookup_insert_eq|rewrite lookup_insert_ne by done]. cbn. lia. Qed.

Lemma serve_counts st s : 0 <= ContentLength (req s) ->
  ConnectionsTotal (serve st s).1 = bump (listener, outcomeLabel (status (observed (answer s)))) 1 (ConnectionsTotal st.1) /\
  HelixChannelSessionTotal (serve st s).1 = bump (sessionOutcomeFromStatus (status (observed (answer s)))) 1 (HelixChannelSessionTotal st.1) /\
  BytesTotal (serve st s).1 = bump (listener, "out"%string) (written (observed (answer s))) (bump (listener, "in"%string) (ContentLength (req s)) (BytesTotal st.1)).
Proof.
  intros Hc. unfold serve, instrumentHTTPHandler. destruct st as [m w]. destruct (Z.ltb_spec (ContentLength (req s)) 0); [lia|].
  rewrite channel. destruct (getAgentrace openable logPath w) as [[a|] w']; done.
Qed.

Lemma labels_agree code : In (outcomeLabel code, sessionOutcomeFromStatus code) outcomes.
Proof. unfold outcomeLabel, sessionOutcomeFromStatus. destruct (_ && _); [by left|]. destruct (500 <=? code); cbn; auto. Qed.

(** Requests of known length are counted the same on both families, connection
    and session, and the bytes add up. *)
Theorem demo_counters_agree ss : Forall (fun s => 0 <= ContentLength (req s)) ss -> forall st,
  let m := (foldl serve st ss).1 in
  (forall o, In o outcomes ->
    count (ConnectionsTotal m) (listener, o.1) - count (ConnectionsTotal st.1) (listener, o.1) =
    count (HelixChannelSessionTotal m) o.2 - count (HelixChannelSessionTotal st.1) o.2) /\
  count (BytesTotal m) (listener, "out"%string) = count (BytesTotal st.1) (listener, "out"%string) + foldr Z.add 0 ((fun s => written (observed (answer s))) <$> ss) /\
  count (BytesTotal m) (listener, "in"%string) = count (BytesTotal st.1) (listener, "in"%string) + foldr Z.add 0 ((fun s => ContentLength (req s)) <$> ss).
Proof.
  induction 1 as [|s ss Hs _ IH]; intros st; cbn zeta; [cbn; split_and!; intros; lia|]. cbn [foldl].
  destruct (IH (serve st s)) as (H1 & H2 & H3). destruct (serve_counts st s Hs) as (C1 & C2 & C3). rewrite C3 in H2, H3. rewrite C1, C2 in H1.
  rewrite H2, H3, !count_bump. cbn [fmap list_fmap foldr]. split_and!.
  - intros o Ho. specialize (H1 o Ho). rewrite !count_bump in H1. pose proof (labels_agree (status (observed (answer s)))) as Hl.
    set (a := outcomeLabel _) in *. set (b := sessionOutcomeFromStatus _) in *. clearbody a b.
    unfold outcomes in Hl, Ho. cbn [In] in Hl, Ho.
    repeat match goal with H : _ \/ _ |- _ => destruct H as [H|H] | H : False |- _ => destruct H | H : (_, _) = _ |- _ => injection H as <- <- | H : _ = o |- _ => subst o end;
    cbn [fst snd] in H1 |- *; repeat match type of H1 with context [bool_decide ?P] => destruct (bool_decide_reflect P); try congruence end; lia.
  - repeat match goal with |- context [bool_decide ?P] => destruct (bool_decide_reflect P); try congruence end; lia.
  - repeat match goal with |- context [bool_decide ?P] => destruct (bool_decide_reflect P); try congruence end; lia.
Qed.

End counters.

(** A request whose length is not announced panics after its connection was
    counted: no bytes, no duration, no session and no event are recorded. *)
Theorem chunked_request_panics openable logPath listener c r calls m w :
  ContentLength r < 0 ->
  let '((m', w'), panicked) := instrumentHTTPHandler openable logPath listener c r calls (m, w) in
  panicked = true /\ w' = w /\ BytesTotal m' = BytesTotal m /\ HelixChannelSessionTotal m' = HelixChannelSessionTotal m /\
  forall o, count (ConnectionsTotal m') (listener, o) = count (ConnectionsTotal m) (listener, o) + (if bool_decide (outcomeLabel (status (observed calls)) = o) then 1 else 0).
Proof.
  intros Hr. unfold instrumentHTTPHandler. destruct (Z.ltb_spec (ContentLength r) 0); [|lia]. split_and!; try done. intros o. cbn [ConnectionsTotal].
  rewrite count_bump. by rewrite (bool_decide_ext ((listener, outcomeLabel (status (observed calls))) = (listener, o)) (outcomeLabel (status (observed calls)) = o)) by naive_solver.
Qed.

(** ** The package's appender *)

(** The appender handed out is the package's own, open and on the configured path,
    for as long as nobody closed it. *)
Definition appender_ok (w : world) : Prop :=
  match demoAgentrace w with Some a => isOpen a = true /\ path a = demoAgentracePath w | None => True end.

Theorem get_agentrace_current openable logPath w :
  appender_ok w ->
  let '(app, w') := getAgentrace openable logPath w in
  appender_ok w' /\ demoAgentrace w' = app /\
  match app with Some a => isOpen a = true /\ path a = logPath | None => openable logPath = false end /\
  (forall p, default [] (disk w' !! p) = default [] (disk w !! p)) /\ getAgentrace openable logPath w' = (app, w').
Proof.
  intros Hw. unfold getAgentrace. case_bool_decide as Hc.
  - destruct Hc as [[a Ha] Hp]. unfold appender_ok in Hw. rewrite Ha in Hw. split_and!; try done.
    + unfold appender_ok. by rewrite Ha.
    + rewrite Ha. by rewrite <- Hp.
    + by rewrite bool_decide_eq_true_2.
  - unfold NewAgentraceAppender. destruct (openable logPath) eqn:Ho; cbn [demoAgentrace demoAgentracePath disk].
    + split_and!; try done; [|by rewrite bool_decide_eq_true_2 by (split; [by eexists|done])].
      intros p. destruct (decide (p = logPath)) as [->|Hne]; [by rewrite lookup_insert_eq|by rewrite lookup_insert_ne].
    + split_and!; done.
Qed.

(** The proxy in front: an upstream that fails is an error and a failed session, and
    an answer keeps its own class. *)
Theorem loopback_outcomes u :
  let s := status (observed (newLoopbackProxyHandler u)) in
  match u with
  | Upstream code _ => s = code \/ (code = 0 /\ s = 200)
  | BuildFailed => s = 500
  | UpstreamError _ => s = 502
  end.
Proof.
  destruct u as [|msg|code body]; [done|done|]. cbn zeta. unfold observed. cbn [newLoopbackProxyHandler foldl record written].
  assert (H : forall r, (status r = code \/ (code = 0 /\ status r = 200)) ->
    let s := status (foldl record r (List.map (fun b => Write b (Z.of_nat (length b))) body)) in s = code \/ (code = 0 /\ s = 200)).
  { induction body as [|b body IH]; intros r Hr; [done|]. cbn [List.map foldl]. apply IH. cbn [record status].
    destruct (Z.eqb_spec (status r) 0); [right; split; [|done]; lia|done]. }
  apply H. by left.
Qed.

(** ** Witnesses *)

Definition ex_world : world := {| disk := ∅; demoAgentrace := None; demoAgentracePath := "" |}.
Definition ex_metrics : metrics := {| ConnectionsTotal := ∅; BytesTotal := ∅; RequestDuration := ∅; HelixChannelSessionTotal := ∅ |}.
Definition ex_clock : clocked := {| now := "t"; took := 5000000 |}.
Definition ex_served (u : upstream) : served := {| clock := ex_clock; req := {| Method := "GET"; From := "127.0.0.1:9"; ContentLength := 0 |}; answer := newLoopbackProxyHandler u |}.
Definition ex_event (k : string) : AgentraceEvent * string :=
  ({| TS := "t"; Event := "demo.accept"; Listener := "aes-mtls"; RemoteAddr := ""; BytesIn := 0; BytesOut := 4; DurationMS := 0 |}, k).

Lemma agentrace_keeps_every_event_witness :
  length (Net.split Trim.LF (default [] (append_all {| path := "l"; isOpen := true |} [ex_event "k"; ex_event "k"] ∅ !! "l"%string))) = 3%nat.
Proof.
  destruct (agentrace_keeps_every_event {| path := "l"; isOpen := true |} [ex_event "k"; ex_event "k"] ∅ eq_refl) as (H1 & H2 & _).
  cbn [path] in H1. rewrite H1, lookup_empty. cbn [default from_option app]. unfold id. rewrite H2. reflexivity.
Defined.

Lemma demo_counters_agree_witness :
  let m := (foldl (serve (fun _ => true) "l" "aes-mtls") (ex_metrics, ex_world) [ex_served (Upstream 200 [to_bytes "ab"]); ex_served (UpstreamError "x")]).1 in
  count (ConnectionsTotal m) ("aes-mtls"%string, "error"%string) = count (HelixChannelSessionTotal m) "failure"%string /\
  count (BytesTotal m) ("aes-mtls"%string, "out"%string) = 27.
Proof.
  destruct (demo_counters_agree (fun _ => true) "l" "aes-mtls" eq_refl [ex_served (Upstream 200 [to_bytes "ab"]); ex_served (UpstreamError "x")]
    ltac:(repeat constructor; cbn; lia) (ex_metrics, ex_world)) as (H1 & H2 & _).
  split; [|etransitivity; [exact H2|vm_compute; reflexivity]].
  specialize (H1 ("error", "failure")%string ltac:(right; left; reflexivity)). cbn [fst snd] in H1. unfold count in H1 at 2 4. cbn [ex_metrics ConnectionsTotal HelixChannelSessionTotal] in H1.
  rewrite !lookup_empty in H1. cbn [default from_option] in H1. rewrite !Z.sub_0_r in H1. exact H1.
Defined.

Lemma chunked_request_panics_witness :
  (instrumentHTTPHandler (fun _ => true) "l" "aes-mtls" ex_clock {| Method := "POST"; From := "a"; ContentLength := -1 |} [] (ex_metrics, ex_world)).2 = true.
Proof.
  pose proof (chunked_request_panics (fun _ => true) "l" "aes-mtls" ex_clock {| Method := "POST"; From := "a"; ContentLength := -1 |} [] ex_metrics ex_world eq_refl) as H.
  destruct (instrumentHTTPHandler _ _ _ _ _ _ _) as [[m w] b]. exact (proj1 H).
Defined.

Lemma get_agentrace_current_witness : demoAgentrace (getAgentrace (fun _ => true) "l" ex_world).2 = Some {| path := "l"; isOpen := true |}.
Proof.
  pose proof (get_agentrace_current (fun _ => true) "l" ex_world I) as H.
  assert (E : (getAgentrace (fun _ => true) "l" ex_world).1 = Some {| path := "l"; isOpen := true |}) by (vm_compute; reflexivity).
  destruct (getAgentrace (fun _ => true) "l" ex_world) as [app w]. destruct H as (_ & H & _). etransitivity; [exact H|exact E].
Defined.

End Demo.
