(* ===== verification/YamlForms.v ===== *)
(** * The hand-written YAML decoders

    Models the four [UnmarshalYAML] methods of the repository: [DurationValue] and
    [RequestDefaultsMap] of [src/internal/config/config.go], [RotationConfig] of
    [src/internal/channel/rotation_store.go] and [AgentPolicy] of
    [src/internal/smartroute/agents.go].  The YAML library is outside: a node is its
    kind, tag, text and children, and what [Decode] makes of one is a parameter. *)

From Stdlib Require Import ZArith Lia Ascii String SpecFloat.
From stdpp Require Import base option list gmap strings.
From S2P Require Import Prelude GoStrings Utf8 Strconv Float64 Json JsonSpec JsonMap JsonAny JsonLines Flags GatewayTypes RotationStore RouterConfig RequestBody SmartRoute.

Module YamlForms.
Import GoStrings Utf8 Json JsonSpec JsonMap JsonAny JsonLines.

(** ** Nodes *)

Inductive Kind := DocumentNode | SequenceNode | MappingNode | ScalarNode | AliasNode.

#[export] Instance Kind_eq_dec : EqDecision Kind.
Proof. solve_decision. Defined.

Inductive node := Node (kind : Kind) (tag value : string) (content : list node).

Definition kind_of (n : node) : Kind := let 'Node k _ _ _ := n in k.
Definition tag_of (n : node) : string := let 'Node _ t _ _ := n in t.
Definition value_of (n : node) : string := let 'Node _ _ v _ := n in v.
Definition content_of (n : node) : list node := let 'Node _ _ _ c := n in c.

(** What a node decodes to as [any]: a mapping is a [map[string]any], or a
    [map[any]any] when a key is no string; a timestamp is a [time.Time], which is
    marshalled as its text. *)
Inductive yval :=
| YNull | YBool (b : bool) | YInt (z : Z) | YFloat (f : Float64.float64) | YStr (s : bytes) | YTime (text : string)
| YSeq (l : list yval) | YMap (m : gomap yval) | YAnyMap.

(** [json.Marshal]; [None] is its error. *)
Fixpoint marshal (v : yval) : option json :=
  match v with
  | YNull => Some JNull
  | YBool b => Some (JBool b)
  | YInt z => Some (JInt z)
  | YFloat f => match f with S754_zero _ | S754_finite _ _ _ => Some (JNum (fmt_float f)) | _ => None end
  | YStr s => Some (JStr (escape s))
  | YTime t => Some (JText t)
  | YSeq l => JArr <$> all_some (List.map marshal l)
  | YMap m => JObj <$> all_some (List.map (fun kv => pair (escape kv.1) <$> marshal kv.2) m)
  | YAnyMap => None
  end.

(** The decoder's answers: text, a value, and the plain forms of the two structs. *)
Class Decoder := {
  decode_string : node -> string + string;
  decode_bool : node -> option bool;
  decode_any : node -> yval + string;
  decode_rotation : node -> GatewayTypes.RotationConfig + string;
  decode_agent : node -> SmartRoute.AgentPolicy + string;
}.

Section decoders.

Context `{Decoder}.

(** ** Durations *)

Inductive durationError := NotText (msg : string) | BadDuration (text : string).

Definition DurationValue_UnmarshalYAML (n : node) : Duration + durationError :=
  match decode_string n with
  | inr e => inr (NotText e)
  | inl s => match Flags.ParseDuration s with Some d => inl d | None => inr (BadDuration s) end
  end.

(** ** Request defaults *)

Inductive defaultsError := NotMapping (k : Kind) | BadValue (key msg : string) | BadMarshal (key : string).

Fixpoint defaults_loop (content : list node) (out : gmap string string) : gmap string string + defaultsError :=
  match content with
  | k :: v :: content =>
      match decode_any v with
      | inr e => inr (BadValue (value_of k) e)
      | inl val =>
          match marshal val with
          | None => inr (BadMarshal (value_of k))
          | Some enc => defaults_loop content (<[value_of k := of_bytes (print enc)]> out)
          end
      end
  | _ => inl out
  end.

Definition RequestDefaultsMap_UnmarshalYAML (n : node) : gmap string string + defaultsError :=
  if decide (kind_of n = MappingNode) then defaults_loop (content_of n) ∅ else inr (NotMapping (kind_of n)).

(** ** Rotation *)

Definition yamlKindName (k : Kind) : string :=
  match k with
  | DocumentNode => "document" | SequenceNode => "sequence" | MappingNode => "mapping" | ScalarNode => "scalar" | AliasNode => "alias"
  end.

Inductive rotationError := RotationShape (got : string) | RotationDecode (msg : string).

Definition rotationShapeError (n : node) : rotationError := RotationShape (yamlKindName (kind_of n)).

Definition zeroRotation (policy : string) : GatewayTypes.RotationConfig :=
  {| GatewayTypes.Policy := policy; GatewayTypes.RBudget := {| RotationStore.Window := 0; RotationStore.BTokens := 0; RotationStore.BRequests := 0;
                                     RotationStore.SoftRatio := Float64.zero; RotationStore.EstimateTokens := 0 |};
     GatewayTypes.MaxRetryAfter := 0 |}.

Definition RotationConfig_UnmarshalYAML (n : node) : GatewayTypes.RotationConfig + rotationError :=
  match kind_of n with
  | ScalarNode =>
      if tag_of n =s "!!null" then inl (zeroRotation "")
      else match decode_string n with inr _ => inr (rotationShapeError n) | inl name => inl (zeroRotation name) end
  | MappingNode => match decode_rotation n with inr e => inr (RotationDecode e) | inl p => inl p end
  | _ => inr (rotationShapeError n)
  end.

(** ** Agents *)

(** On the policy being decoded into; a bare boolean leaves its class alone. *)
Definition AgentPolicy_UnmarshalYAML (ap : SmartRoute.AgentPolicy) (n : node) : SmartRoute.AgentPolicy + string :=
  match decode_bool n with
  | Some b => inl {| SmartRoute.AgentEnabled := Some b; SmartRoute.ForceClass_ := SmartRoute.ForceClass_ ap |}
  | None => decode_agent n
  end.

End decoders.

(** ** Durations *)

Lemma fold_digits_ge ds : Strconv.digits ds -> forall x, 0 <= x -> x <= foldl (fun acc c => acc * 10 + digit_val c) x ds.
Proof.
  induction 1 as [|c ds Hc _ IH]; intros x Hx; cbn [foldl]; [lia|]. unfold is_digit in Hc. apply andb_true_iff in Hc as [Hc%Z.leb_le _].
  assert (0 <= digit_val c) by (unfold digit_val; lia). specialize (IH (x * 10 + digit_val c) ltac:(lia)). lia.
Qed.

Lemma leading_int_digits ds rest : Strconv.digits ds -> (forall c t, rest = c :: t -> is_digit c = false) -> forall x,
  0 <= x -> foldl (fun acc c => acc * 10 + digit_val c) x ds <= max_int64 ->
  Flags.leadingInt x (ds ++ rest) = Some (foldl (fun acc c => acc * 10 + digit_val c) x ds, rest).
Proof.
  intros Hd Hr. induction Hd as [|c ds Hc Hds IH]; intros x Hx Hm; cbn [app foldl Flags.leadingInt].
  - destruct rest as [|c t]; [done|]. cbn [Flags.leadingInt]. by rewrite (Hr c t eq_refl).
  - rewrite Hc. assert (Hc' : 0 <= digit_val c) by (unfold is_digit in Hc; apply andb_true_iff in Hc as [Hc%Z.leb_le _]; unfold digit_val; lia).
    cbn [foldl] in Hm. pose proof (fold_digits_ge ds Hds (x * 10 + digit_val c) ltac:(lia)) as Hg. unfold max_int64 in Hm.
    destruct (Z.ltb_spec (2 ^ 63 / 10) x) as [Hb|_]; [exfalso; change (2 ^ 63 / 10) with 922337203685477580 in Hb; lia|].
    destruct (Z.ltb_spec (2 ^ 63) (x * 10 + digit_val c)); [lia|]. apply IH; [lia|]. unfold max_int64. lia.
Qed.

Definition unit_ok (u : bytes * Duration) : Prop :=
  1 <= u.2 /\ Flags.unit_of u.1 = Some u.2 /\ span Flags.unit_char u.1 = (u.1, []) /\
  exists c t, u.1 = c :: t /\ is_digit c = false /\ Ascii.eqb c "." = false.

Lemma units_ok : Forall unit_ok Flags.unitMap.
Proof.
  unfold Flags.unitMap. repeat (constructor; [split_and!; [vm_compute; discriminate|vm_compute; reflexivity|vm_compute; reflexivity|]; eexists _, _; split_and!; [reflexivity|vm_compute; reflexivity|vm_compute; reflexivity]|]).
  constructor.
Qed.

Lemma itoa_digits n : 0 <= n -> Strconv.digits (Strconv.Itoa n) /\ dec_value (Strconv.Itoa n) = n /\ Strconv.Itoa n <> [].
Proof.
  intros Hn. destruct n as [|p|p]; [split_and!; [repeat constructor|done|done]| |lia]. unfold Strconv.Itoa.
  destruct (Strconv.dec_digits_spec (Zpos p) ltac:(lia)) as (c & ds & E & _ & Hd). rewrite E. split_and!; [done| |done].
  pose proof (Strconv.parse_digits_dec (Zpos p) ltac:(lia)) as Hp. unfold Strconv.parse_digits in Hp. rewrite E in Hp.
  destruct (_ || _); [done|]. by injection Hp.
Qed.

(** A whole number with a unit is read as that many units. *)
Lemma parse_whole_units n u unit : (u, unit) ∈ Flags.unitMap -> 0 <= n -> n * unit <= max_int64 ->
  Flags.ParseDuration (of_bytes (Strconv.Itoa n ++ u)) = Some (n * unit).
Proof.
  intros Hu Hn Hm. pose proof units_ok as Hok. rewrite Forall_forall in Hok.
  destruct (Hok _ Hu) as (H1 & H2 & H3 & c & t & H4 & H5 & H6). cbn [fst snd] in *. clear Hok Hu.
  destruct (itoa_digits n Hn) as (Hd & Hv & Hne). destruct (Strconv.Itoa n) as [|d ds] eqn:E; [done|]. clear Hne.
  assert (Hdd : is_digit d = true) by (by apply Forall_cons in Hd as [? _]).
  assert (Hsign : Ascii.eqb d "-" = false /\ Ascii.eqb d "+" = false) by (destruct (Ascii.eqb_spec d "-") as [->|]; [done|]; destruct (Ascii.eqb_spec d "+") as [->|]; done).
  assert (Hli : Flags.leadingInt 0 ((d :: ds) ++ u) = Some (n, u)).
  { rewrite leading_int_digits; [by fold (dec_value (d :: ds)); rewrite Hv|done| |lia|].
    - rewrite H4. by intros ? ? [= <- <-].
    - fold (dec_value (d :: ds)). rewrite Hv. nia. }
  assert (Hop : Flags.one_part ((d :: ds) ++ u) = Some (n * unit, [])).
  { unfold Flags.one_part. cbn [app]. rewrite Hdd, orb_true_r. cbn [negb]. change (d :: ds ++ u) with ((d :: ds) ++ u). rewrite Hli. cbn [mbind option_bind].
    rewrite H4 at 1. rewrite H6. assert (Hl : (length u =? length ((d :: ds) ++ u))%nat = false) by (rewrite length_app; cbn; apply Nat.eqb_neq; lia).
    rewrite Hl. cbn [negb andb]. rewrite H3, H2. cbn [mbind option_bind].
    destruct (Z.ltb_spec (2 ^ 63 / unit) n) as [Hb|_]; [exfalso|done].
    assert (n <= 2 ^ 63 / unit); [apply Z.div_le_lower_bound; unfold max_int64 in Hm; lia|lia]. }
  unfold Flags.ParseDuration. rewrite to_of_bytes. cbn [app]. destruct Hsign as [-> ->].
  rewrite bool_decide_eq_false_2 by (intros [= -> Hx]; rewrite H4 in Hx; by destruct ds).
  rewrite bool_decide_eq_false_2 by done. change (d :: ds ++ u) with ((d :: ds) ++ u).
  assert (Hf : exists f, length ((d :: ds) ++ u) = S f) by (cbn; eauto). destruct Hf as [f ->]. cbn [Flags.parts]. cbn [app]. change (d :: ds ++ u) with ((d :: ds) ++ u).
  rewrite Hop. cbn [mbind option_bind]. unfold wrapu64, max_int64 in *. rewrite Z.mod_small by nia.
  destruct (Z.ltb_spec (2 ^ 63) (0 + n * unit)); [lia|]. destruct f; cbn [Flags.parts mbind option_bind]; (destruct (Z.ltb_spec (2 ^ 63 - 1) (0 + n * unit)); [lia|]); f_equal; lia.
Qed.

Section yval_induction.
Context (P : yval -> Prop) (Hflat : forall v, match v with YSeq _ | YMap _ => True | _ => P v end)
  (Hseq : forall l, Forall P l -> P (YSeq l)) (Hmap : forall m, Forall (fun kv => P kv.2) m -> P (YMap m)).

Fixpoint yval_tree_ind (v : yval) : P v :=
  match v as v return P v with
  | YSeq l => Hseq l ((fix go l : Forall P l :=
      match l with [] => Forall_nil_2 _ | v :: l => Forall_cons_2 _ _ _ (yval_tree_ind v) (go l) end) l)
  | YMap m => Hmap m ((fix go l : Forall (fun kv => P kv.2) l :=
      match l with [] => Forall_nil_2 _ | kv :: l => Forall_cons_2 _ _ _ (yval_tree_ind kv.2) (go l) end) m)
  | YNull => Hflat YNull | YBool b => Hflat (YBool b) | YInt z => Hflat (YInt z) | YFloat f => Hflat (YFloat f)
  | YStr t => Hflat (YStr t) | YTime t => Hflat (YTime t) | YAnyMap => Hflat YAnyMap
  end.
End yval_induction.

(** What is marshalled is JSON text. *)
Lemma marshal_lexed v : forall j, marshal v = Some j -> lexed j.
Proof.
  apply (yval_tree_ind (fun v => forall j, marshal v = Some j -> lexed j)); clear v; [intros v|intros l IH|intros m IH].
  - destruct v as [|b|z|f|t|t|l|m|]; cbn [marshal]; try done; intros j; [by intros [= <-]|by intros [= <-]| | | |].
    + intros [= <-]. apply int_num_ok.
    + pose proof (fmt_float_ok f) as Hf. set (t := fmt_float f) in *. clearbody t. destruct f; intros Hj; try discriminate Hj; injection Hj as <-; exact Hf.
    + intros [= <-]. apply lit_str_ok, lit_escape.
    + intros [= <-]. apply text_ok.
  - cbn [marshal]. intros j (js & Hjs & ->)%fmap_Some. apply all_some_Forall2, Forall2_fmap_l in Hjs. cbn [lexed]. apply Forall_foldr_and.
    clear -Hjs IH. induction Hjs as [|v j l js Hj _ IHl]; [constructor|]. apply Forall_cons in IH as [Hv IH]. constructor; [by apply Hv|by apply IHl].
  - cbn [marshal]. intros j (js & Hjs & ->)%fmap_Some. apply all_some_Forall2, Forall2_fmap_l in Hjs. cbn [lexed]. apply Forall_foldr_and.
    clear -Hjs IH. induction Hjs as [|kv j l js Hj _ IHl]; [constructor|]. apply Forall_cons in IH as [Hv IH]. constructor; [|by apply IHl].
    apply fmap_Some in Hj as (j' & Hj & ->). split; [apply lit_str_ok, lit_escape|by apply Hv].
Qed.

Section forms.

Context `{Decoder}.

(** The text of a scalar is what a string decodes to, whatever its style. *)
Definition texts : Prop := forall tag v, tag <> "!!null"%string -> decode_string (Node ScalarNode tag v []) = inl v.

(** A whole number with one of Go's units is that many units; the router never
    runs with another duration than the one written. *)
Theorem duration_read_back n u unit tag :
  texts -> tag <> "!!null"%string -> (u, unit) ∈ Flags.unitMap -> 0 <= n -> n * unit <= max_int64 ->
  DurationValue_UnmarshalYAML (Node ScalarNode tag (of_bytes (Strconv.Itoa n ++ u)) []) = inl (n * unit).
Proof. intros Ht Hn Hu H0 Hm. unfold DurationValue_UnmarshalYAML. by rewrite Ht, (parse_whole_units n u unit). Qed.

(** The forms of [rotation]: a name is that policy without a budget, nothing is the
    zero configuration, a mapping is what it says, and anything else is refused
    with its kind, never read as a configuration without a budget. *)
Theorem rotation_forms n :
  texts ->
  match RotationConfig_UnmarshalYAML n with
  | inl rc => (kind_of n = MappingNode /\ decode_rotation n = inl rc) \/
              (kind_of n = ScalarNode /\ exists name, rc = zeroRotation name /\ (tag_of n <> "!!null"%string -> content_of n = [] -> name = value_of n))
  | inr (RotationShape got) => got = yamlKindName (kind_of n) /\ kind_of n <> MappingNode
  | inr (RotationDecode e) => kind_of n = MappingNode /\ decode_rotation n = inr e
  end /\
  (kind_of n = SequenceNode \/ kind_of n = AliasNode \/ kind_of n = DocumentNode -> RotationConfig_UnmarshalYAML n = inr (rotationShapeError n)).
Proof.
  intros Ht. destruct n as [k tag v content]. unfold RotationConfig_UnmarshalYAML. cbn [kind_of tag_of value_of content_of].
  split; [|by intros [->|[->| ->]]]. destruct k; cbn [rotationShapeError kind_of yamlKindName]; try done.
  - destruct (decode_rotation _) as [rc|e]; [by left|done].
  - destruct (String.eqb_spec tag "!!null") as [->|Hn].
    + right. split; [done|]. exists ""%string. done.
    + destruct (decode_string _) as [s|e] eqn:E; [|done]. right. split; [done|]. exists s. split; [done|].
      intros _ ->. rewrite Ht in E by done. by injection E.
Qed.

(** What the file last says under a key, as JSON. *)
Definition json_of (v : node) : option json := match decode_any v with inl y => marshal y | inr _ => None end.
Fixpoint last_json (k : string) (content : list node) (acc : option json) : option json :=
  match content with
  | n :: v :: content => last_json k content (if value_of n =s k then match json_of v with Some j => Some j | None => acc end else acc)
  | _ => acc
  end.

(** Keys are UTF-8, which the library sees to, and no value nests as deep as the
    JSON reader's limit. *)
Fixpoint sane (content : list node) : Prop :=
  match content with
  | n :: v :: content => valid_utf8 (to_bytes (value_of n)) /\ (forall j, json_of v = Some j -> 1 + depth j <= maxNestingDepth) /\ sane content
  | _ => True
  end.

Lemma defaults_loop_exact : forall content out d, defaults_loop content out = inl d ->
  forall k, d !! k = match last_json k content None with Some j => Some (of_bytes (print j)) | None => out !! k end.
Proof.
  fix IH 1. intros [|n [|v content]] out d Hd k; [by injection Hd as <-..|]. cbn [defaults_loop last_json] in *.
  unfold json_of. destruct (decode_any v) as [y|e]; [|done]. destruct (marshal y) as [j|] eqn:Ej; [|done].
  rewrite (IH content _ d Hd k). clear IH. destruct (String.eqb_spec (value_of n) k) as [->|Hne].
  - rewrite lookup_insert_eq. assert (Ha : forall l a, last_json k l (Some a) = match last_json k l None with Some b => Some b | None => Some a end).
    { fix IH 1. intros [|n' [|v' l]] a; [done..|]. cbn [last_json]. destruct (value_of n' =s k); [|apply IH].
      destruct (json_of v') as [j'|]; [|apply IH]. rewrite IH. by destruct (last_json k l None). }
    rewrite Ha. by destruct (last_json k content None).
  - rewrite lookup_insert_ne by done. done.
Qed.

Lemma last_json_sane : forall content k j, sane content -> forall acc, last_json k content acc = Some j ->
  (valid_utf8 (to_bytes k) /\ lexed j /\ 1 + depth j <= maxNestingDepth) \/ acc = Some j.
Proof.
  fix IH 1. intros [|n [|v content]] k j Hs acc Hj; [by right..|]. cbn [sane last_json] in *. destruct Hs as (Hu & Hd & Hs).
  destruct (IH content k j Hs _ Hj) as [?|Ha]; [by left|]. clear IH. destruct (String.eqb_spec (value_of n) k) as [<-|]; [|by right].
  destruct (json_of v) as [j'|] eqn:E; [|by right]. injection Ha as <-. left. split_and!; [done| |by apply Hd].
  unfold json_of in E. destruct (decode_any v) as [y|]; [|done]. by apply (marshal_lexed y).
Qed.

(** Defaults written in the file reach the body: under a key the caller did not send,
    the body forwarded has the JSON of what the file last says there, and nothing
    the caller sent is touched. *)
Theorem yaml_defaults_reach_body n d body m :
  RequestDefaultsMap_UnmarshalYAML n = inl d -> sane (content_of n) -> unmarshal_map (to_bytes body) = DVal m ->
  exists out, (RequestBody.MergeRequestDefaults body d = RequestBody.Replace out \/ (RequestBody.MergeRequestDefaults body d = RequestBody.Keep /\ out = body)) /\
    forall k, k <> ""%string ->
      RequestBody.field k out = match RequestBody.field k body with
                                | Some v => Some v
                                | None => RequestBody.denote <$> last_json k (content_of n) None
                                end.
Proof.
  unfold RequestDefaultsMap_UnmarshalYAML. destruct (decide _) as [_|]; [|done]. intros Hd Hs Hm.
  pose proof (defaults_loop_exact _ _ _ Hd) as Hl.
  assert (Hok : map_Forall RequestBody.default_ok d).
  { intros k raw Hk. rewrite Hl, lookup_empty in Hk. destruct (last_json k (content_of n) None) as [j|] eqn:Ej; [|done]. injection Hk as <-.
    destruct (last_json_sane _ k j Hs None Ej) as [(Hu & Hx & Hdp)|]; [|done]. split; [done|]. exists j. split; [|done].
    rewrite to_of_bytes. apply parse_print. split; [done|]. lia. }
  destruct (RequestBody.merge_fields body d m Hm Hok) as (out & Ho & Hf). exists out. split; [done|]. intros k Hk. rewrite Hf.
  destruct (RequestBody.field k body) as [v|]; [done|]. f_equal. unfold RequestBody.filled. destruct (String.eqb_spec k ""); [done|].
  rewrite Hl, lookup_empty. destruct (last_json k (content_of n) None) as [j|] eqn:Ej; [|done]. cbn [mbind option_bind]. rewrite to_of_bytes.
  destruct (last_json_sane _ k j Hs None Ej) as [(Hu & Hx & Hdp)|]; [|done]. apply parse_print. split; [done|]. lia.
Qed.

End forms.

(** ** Witnesses *)

(** A decoder of plain scalars. *)
Definition ex_decoder : Decoder := {|
  decode_string n := match kind_of n with ScalarNode => inl (value_of n) | _ => inr "not a scalar"%string end;
  decode_bool n := if tag_of n =s "!!bool" then Flags.ParseBool (value_of n) else None;
  decode_any n :=
    if tag_of n =s "!!bool" then inl (YBool (value_of n =s "true"))
    else if tag_of n =s "!!int" then match Strconv.Atoi (to_bytes (value_of n)) with Some z => inl (YInt z) | None => inr "bad int"%string end
    else inl (YStr (to_bytes (value_of n)));
  decode_rotation n := inr "no mappings"%string;
  decode_agent n := inr "no mappings"%string;
|}.

Definition scalar (tag v : string) : node := Node ScalarNode tag v [].

Lemma duration_read_back_witness : @DurationValue_UnmarshalYAML ex_decoder (scalar "!!str" "90s") = inl (90 * Second).
Proof.
  apply (@duration_read_back ex_decoder 90 (to_bytes "s") Second "!!str"); [intros tag v _; reflexivity|discriminate| |lia|vm_compute; discriminate].
  apply list_elem_of_In. do 5 right. left. reflexivity.
Defined.

Lemma rotation_forms_witness :
  @RotationConfig_UnmarshalYAML ex_decoder (Node SequenceNode "!!seq" "" []) = inr (RotationShape "sequence") /\
  @RotationConfig_UnmarshalYAML ex_decoder (scalar "!!str" "least_used") = inl (zeroRotation "least_used").
Proof.
  split.
  - apply (@rotation_forms ex_decoder (Node SequenceNode "!!seq" "" [])); [intros tag v _; reflexivity|by left].
  - pose proof (@rotation_forms ex_decoder (scalar "!!str" "least_used") ltac:(intros tag v _; reflexivity)) as [Hf _].
    destruct (RotationConfig_UnmarshalYAML (scalar "!!str" "least_used")) as [rc|[got|e]] eqn:E; [|discriminate E|discriminate E].
    destruct Hf as [[Hk _]|[_ (name & -> & Hn)]]; [discriminate Hk|]. rewrite Hn by (reflexivity || discriminate). reflexivity.
Defined.

Definition ex_defaults : node :=
  Node MappingNode "!!map" "" [scalar "!!str" "reasoning_split"; scalar "!!bool" "true"; scalar "!!str" "max_tokens"; scalar "!!int" "64"].

Lemma yaml_defaults_reach_body_witness :
  exists out, RequestBody.field "reasoning_split" out = Some (JBool true) /\ RequestBody.field "model" out = RequestBody.field "model" "{}".
Proof.
  destruct (@yaml_defaults_reach_body ex_decoder ex_defaults {[ "reasoning_split" := "true"; "max_tokens" := "64" ]}%string "{}" []) as (out & _ & Hf).
  - vm_compute. reflexivity.
  - cbn. split_and!; try (vm_compute; reflexivity); intros j Hj; vm_compute in Hj; injection Hj as <-; vm_compute; discriminate.
  - vm_compute. reflexivity.
  - exists out. split; [rewrite Hf by discriminate; vm_compute; reflexivity|].
    rewrite (Hf "model"%string) by discriminate. vm_compute. reflexivity.
Defined.

(** A key written twice keeps its last value. *)
Example repeated_default :
  @RequestDefaultsMap_UnmarshalYAML ex_decoder (Node MappingNode "!!map" "" [scalar "!!str" "k"; scalar "!!int" "1"; scalar "!!str" "k"; scalar "!!int" "2"])
  = inl {[ "k" := "2" ]}%string.
Proof. vm_compute. reflexivity. Qed.
End YamlForms.
