(* ===== verification/Integration.v ===== *)
(** * Probes and the hand-written client

    Models [src/internal/cdp/connect.go], the chat-completions client of
    [src/internal/proxy/integration/dashscope_client.go], which writes and reads
    HTTP/1.1 itself, the addresses of [realmodel_addr.go], and
    [WithHelixChannelHeader] of [src/internal/proxy/helixchannel_header.go], and the
    dial through the project's own SOCKS5 client ([dialThruSOCKS5],
    [DialContext]).  What the network answers and the TLS handshake are
    arguments. *)

From Stdlib Require Import ZArith Lia Ascii String.
From stdpp Require Import base option list gmap strings.
From S2P Require Import Prelude GoStrings Utf8 Strconv Json JsonSpec JsonMap JsonStruct JsonLines Net Trim Stream Socks5 Socks5Spec Headers.

Module Integration.
Import GoStrings Strconv Json JsonSpec JsonMap JsonStruct JsonLines Stream Socks5 Socks5Spec.

(** ** The DevTools probe *)

Record Browser := { BBrowser : bytes; ProtocolVersion : bytes; WebSocketDebuggerURL : bytes }.

Definition zeroBrowser : Browser := {| BBrowser := []; ProtocolVersion := []; WebSocketDebuggerURL := [] |}.

(** Keys are compared without case, so the names are written folded. *)
Definition dec_browser : decoder Browser := dec_struct
  [("browser", fun b v => x ← dec_string (BBrowser b) v; Some {| BBrowser := x; ProtocolVersion := ProtocolVersion b; WebSocketDebuggerURL := WebSocketDebuggerURL b |});
   ("protocol-version", fun b v => x ← dec_string (ProtocolVersion b) v; Some {| BBrowser := BBrowser b; ProtocolVersion := x; WebSocketDebuggerURL := WebSocketDebuggerURL b |});
   ("websocketdebuggerurl", fun b v => x ← dec_string (WebSocketDebuggerURL b) v; Some {| BBrowser := BBrowser b; ProtocolVersion := ProtocolVersion b; WebSocketDebuggerURL := x |})]%string.

Definition DefaultTimeout : Duration := 3 * Second.

Inductive pingError := EmptyBaseURL | NewRequest (msg : string) | Connect (msg : string) | Status (code : Z) | ReadBody (msg : string) | Decode.

(** What a GET comes to; the body is read up to a mebibyte. *)
Inductive got := GotError (msg : string) | Got (status : Z) (body : bytes) (readErr : option string).

Definition endpoint (baseURL : string) : string := (trim_right_char "/" baseURL ++ "/json/version")%string.

Definition limit : nat := Z.to_nat (2 ^ 20).

Definition Ping (url_error : string -> option string) (fetch : string -> got) (baseURL : string) : Browser + pingError :=
  if TrimSpace baseURL =s "" then inr EmptyBaseURL
  else
    match url_error (endpoint baseURL) with
    | Some e => inr (NewRequest e)
    | None =>
        match fetch (endpoint baseURL) with
        | GotError e => inr (Connect e)
        | Got status body err =>
            if negb (status =? 200) then inr (Status status)
            else match err with
                 | Some e => inr (ReadBody e)
                 | None => match unmarshal zeroBrowser dec_browser (take limit body) with Some b => inl b | None => inr Decode end
                 end
        end
    end.

(** ** Addresses *)

Definition lightsailSSHAddr (getenv : string -> string) : string :=
  let v := TrimSpace (getenv "REALMODEL_LIGHTSAIL_SOCKS5") in
  if negb (v =s "") then v
  else if TrimSpace (getenv "LLM_ROUTER_LIGHTSAIL_HOST") =s "" then ""
  else
    let port := TrimSpace (getenv "SSH_DYNAMIC_PORT") in
    ("127.0.0.1:" ++ (if port =s "" then "1080" else port))%string.

Definition upstreamHTTPSAddr (getenv : string -> string) : string :=
  let v := TrimSpace (getenv "UPSTREAM_HTTPS_ADDR") in if negb (v =s "") then v else "dashscope.aliyuncs.com:443".

Definition upstreamModel (getenv : string -> string) : string :=
  let v := TrimSpace (getenv "UPSTREAM_MODEL") in if negb (v =s "") then v else "qwen-turbo".

(** ** The version header *)

Definition HelixChannelVersion : string := "v18712-1".
Definition HelixChannelHeader : string := "HelixChannel-Version".

(** The header is set before the wrapped handler runs on the same header map. *)
Definition WithHelixChannelHeader {A} (next : Headers.Header -> A) (h : Headers.Header) : A :=
  next (Headers.Set_ h HelixChannelHeader HelixChannelVersion).

(** ** The chat-completions client *)

Definition chatCompletionsRequest (model prompt : string) : json :=
  JObj [(to_bytes "model", JText model);
        (to_bytes "messages", JArr [JObj [(to_bytes "role", JText "user"); (to_bytes "content", JText prompt)]]);
        (to_bytes "stream", JBool false)].

Definition request_lines (host apiKey : string) (length_ : Z) : list bytes :=
  [to_bytes "POST /compatible-mode/v1/chat/completions HTTP/1.1"; to_bytes "Host: " ++ to_bytes host; to_bytes "Content-Type: application/json";
   to_bytes "Authorization: Bearer " ++ to_bytes apiKey; to_bytes "Content-Length: " ++ Itoa length_; to_bytes "Connection: close"].

Definition chatRequest (host model apiKey prompt : string) : bytes :=
  let body := print (chatCompletionsRequest model prompt) in
  concat (List.map (fun l => l ++ CRLF) (request_lines host apiKey (Z.of_nat (length body)))) ++ CRLF ++ body.

Record chatCompletionsResponse := { ID : bytes; Choices : slice bytes }.
Definition zeroResponse : chatCompletionsResponse := {| ID := []; Choices := nil_slice |}.
Definition dec_response : decoder chatCompletionsResponse := dec_struct
  [("id", fun a v => x ← dec_string (ID a) v; Some {| ID := x; Choices := Choices a |});
   ("choices", fun a v => x ← dec_slice [] (dec_struct [("message", dec_struct [("content", dec_string)])]) (Choices a) v; Some {| ID := ID a; Choices := x |})]%string.

Inductive chatError := SetDeadline (msg : string) | WriteRequest (msg : string) | ReadResponse (msg : string)
  | Malformed | NotHTTP (line : bytes) | Non200 (line body : bytes) | ParseJSON (body : bytes) | EmptyChoices (body : bytes) | EmptyContent (body : bytes).

(** [strings.Split(hdr, CRLF)[0]]. *)
Definition first_line (hdr : bytes) : bytes := match index CRLF hdr with Some n => take n hdr | None => hdr end.

(** From the bytes read to the content. *)
Definition chatReply (raw : bytes) : bytes + chatError :=
  match index (CRLF ++ CRLF) raw with
  | None => inr Malformed
  | Some idx =>
      let line := first_line (take idx raw) in
      let body := drop (idx + 4) raw in
      if negb (has_prefix (to_bytes "HTTP/") line) then inr (NotHTTP line)
      else if negb (contains line (to_bytes " 200 ")) then inr (Non200 line body)
      else
        match unmarshal zeroResponse dec_response body with
        | None => inr (ParseJSON body)
        | Some resp =>
            match elements (Choices resp) with
            | [] => inr (EmptyChoices body)
            | content :: _ => if bool_decide (trim_bytes content = []) then inr (EmptyContent body) else inl content
            end
        end
  end.

(** The connection: its errors in order, and what it delivers. *)
Record wire := { deadlineErr : option string; writeErr : option string; readErr : option string; answer : bytes }.

(** The result and what was written; the connection is closed on every path. *)
Definition callChatCompletions (w : wire) (host model apiKey prompt : string) : (bytes + chatError) * bytes :=
  match deadlineErr w with
  | Some e => (inr (SetDeadline e), [])
  | None =>
      let req := chatRequest host model apiKey prompt in
      match writeErr w with
      | Some e => (inr (WriteRequest e), req)
      | None =>
          match readErr w with
          | Some e => (inr (ReadResponse e), req)
          | None => (chatReply (take limit (answer w)), req)
          end
      end
  end.

(** ** Framing *)

Lemma chat_body_wf model prompt : wf (chatCompletionsRequest model prompt).
Proof.
  split; [|vm_compute; discriminate]. cbn [lexed chatCompletionsRequest List.map foldr fst snd].
  split_and!; try (apply key_ok; vm_compute; reflexivity); try apply text_ok; done.
Qed.

Lemma no_cr_text s : forallb (fun c => negb (Ascii.eqb c CR)) (to_bytes s) = true -> no_cr (to_bytes s).
Proof. intros E. apply Forall_forall. intros x Hx%list_elem_of_In ->. by apply (proj1 (forallb_forall _ _) E) in Hx. Qed.

Lemma itoa_no_cr n : 0 <= n -> no_cr (Itoa n).
Proof.
  intros Hn. unfold Itoa. destruct n as [|q|q]; [by repeat constructor| |lia].
  destruct (dec_digits_spec (Zpos q)) as (c & r & -> & _ & Hd); [lia|]. eapply Forall_impl; [exact Hd|]. intros x Hx ->. by vm_compute in Hx.
Qed.

(** The request as a server frames it: the first blank line ends the header block,
    which announces the length of what follows, and what follows is the JSON of the
    question; provided neither the host nor the key holds a carriage return. *)
Theorem chat_request_frames host model apiKey prompt :
  no_cr (to_bytes host) -> no_cr (to_bytes apiKey) ->
  exists head body, chatRequest host model apiKey prompt = head ++ CRLF ++ CRLF ++ body /\
    index (CRLF ++ CRLF) (chatRequest host model apiKey prompt) = Some (length head) /\
    (to_bytes "Content-Length: " ++ Itoa (Z.of_nat (length body))) ∈ request_lines host apiKey (Z.of_nat (length body)) /\
    head ++ CRLF = concat (List.map (fun l => l ++ CRLF) (request_lines host apiKey (Z.of_nat (length body)))) /\
    parse body = Some (chatCompletionsRequest model prompt).
Proof.
  intros Hh Hk. set (body := print (chatCompletionsRequest model prompt)). set (ls := request_lines host apiKey (Z.of_nat (length body))).
  destruct (blank_line ls body) as (head & He & Hi).
  - done.
  - unfold ls, request_lines. repeat constructor; try (by intros [? ?]%app_eq_nil); try done; repeat apply Forall_app_2; try done;
      try (apply no_cr_text; vm_compute; reflexivity). apply itoa_no_cr. lia.
  - exists head, body. assert (Hc : chatRequest host model apiKey prompt = head ++ CRLF ++ CRLF ++ body).
    { unfold chatRequest. fold body ls. rewrite He. by rewrite <- app_assoc. }
    rewrite Hc. split_and!; [done|done| |done|by apply parse_print, chat_body_wf].
    unfold request_lines. do 4 right. left.
Qed.

Lemma index_CRLF line t : no_cr line -> index CRLF (line ++ CRLF ++ t) = Some (length line).
Proof.
  intros H. induction H as [|c line Hc _ IH]; [done|]. cbn [app length]. rewrite index_cons_no; [by rewrite IH|].
  cbn [CRLF has_prefix]. by destruct (Ascii.eqb_spec CR c) as [<-|].
Qed.

Lemma index_CRLF_none line : no_cr line -> index CRLF line = None.
Proof.
  intros H. induction H as [|c line Hc _ IH]; [done|]. rewrite index_cons_no; [by rewrite IH|].
  cbn [CRLF has_prefix]. by destruct (Ascii.eqb_spec CR c) as [<-|].
Qed.

(** The first line of a header block. *)
Lemma first_line_block line ls head : no_cr line -> Forall (fun l => l <> [] /\ no_cr l) ls ->
  concat (List.map (fun l => l ++ CRLF) (line :: ls)) = head ++ CRLF -> first_line head = line.
Proof.
  intros Hl Hls Hh. cbn [List.map concat] in Hh. unfold first_line. destruct ls as [|l ls].
  - cbn [List.map concat] in Hh. rewrite app_nil_r in Hh. apply app_inv_tail in Hh as <-. by rewrite index_CRLF_none.
  - destruct (blank_line (l :: ls) []) as (head' & He & _); [done|done|]. rewrite He, <- !app_assoc in Hh.
    rewrite (app_assoc CRLF), (app_assoc line) in Hh. apply app_inv_tail in Hh as <-.
    rewrite index_CRLF by done. apply take_app_length.
Qed.

(** The reader takes from a 200 answer of ordinary framing exactly the content of the
    first choice. *)
Theorem chat_reply_read reason ls body resp c rest :
  no_cr (to_bytes reason) -> Forall (fun l => l <> [] /\ no_cr l) ls ->
  unmarshal zeroResponse dec_response body = Some resp -> elements (Choices resp) = c :: rest -> trim_bytes c <> [] ->
  chatReply (concat (List.map (fun l => l ++ CRLF) ((to_bytes "HTTP/1.1 200 " ++ to_bytes reason) :: ls)) ++ CRLF ++ body) = inl c.
Proof.
  intros Hr Hls Hu He Hc. set (line := to_bytes "HTTP/1.1 200 " ++ to_bytes reason).
  assert (Hline : no_cr line) by (apply Forall_app_2; [apply no_cr_text; vm_compute; reflexivity|done]).
  destruct (blank_line (line :: ls) body) as (head & Hh & Hi); [done|constructor; [split; [by intros [? ?]%app_eq_nil|done]|done]|].
  rewrite Hh, <- app_assoc. unfold chatReply. rewrite Hi, take_app_length, (first_line_block line ls head) by done.
  assert (Hd : drop (length head + 4) (head ++ CRLF ++ CRLF ++ body) = body) by (rewrite drop_app_add'; done).
  rewrite Hd. assert (Hp : has_prefix (to_bytes "HTTP/") line = true) by (apply has_prefix_spec; by eexists).
  assert (H2 : contains line (to_bytes " 200 ") = true).
  { unfold contains, line. apply bool_decide_eq_true_2. by eexists. }
  rewrite Hp, H2. cbn [negb]. rewrite Hu, He. by rewrite bool_decide_eq_false_2.
Qed.

(** The probe succeeds exactly on a 200 answer with a readable version object, and
    asks for the version under the base URL whatever slashes end it. *)
Theorem ping_exact url_error fetch baseURL b :
  Ping url_error fetch baseURL = inl b <->
  TrimSpace baseURL <> ""%string /\ url_error (endpoint baseURL) = None /\
  exists body, fetch (endpoint baseURL) = Got 200 body None /\ unmarshal zeroBrowser dec_browser (take limit body) = Some b.
Proof.
  unfold Ping. destruct (String.eqb_spec (TrimSpace baseURL) "") as [->|Hb]; [split; [done|by intros [? _]]|].
  destruct (url_error (endpoint baseURL)) as [e|]; [split; [done|by intros (_ & ? & _)]|].
  destruct (fetch (endpoint baseURL)) as [e|status body err]; [split; [done|by intros (_ & _ & ? & ? & _)]|].
  destruct (Z.eqb_spec status 200) as [->|Hs]; cbn [negb]; [|split; [done|by intros (_ & _ & ? & [= ? ? ?] & _)]].
  destruct err as [e|]; [split; [done|by intros (_ & _ & ? & [= ? ?] & _)]|].
  destruct (unmarshal zeroBrowser dec_browser (take limit body)) as [b'|] eqn:E.
  - split; [intros [= ->]; split_and!; [done|done|by exists body]|]. intros (_ & _ & body' & [= <-] & Hu). rewrite E in Hu. by injection Hu as ->.
  - split; [done|]. intros (_ & _ & body' & [= <-] & Hu). by rewrite E in Hu.
Qed.

(** ** Witnesses and examples *)

Definition qt (s : string) : bytes := [dquote] ++ to_bytes s ++ [dquote].
Definition ex_body (content : string) : bytes :=
  to_bytes "{" ++ qt "choices" ++ to_bytes ":[{" ++ qt "message" ++ to_bytes ":{" ++ qt "content" ++ to_bytes ":" ++ qt content ++ to_bytes "}}]}".

Lemma chat_request_frames_witness :
  exists head body, chatRequest "dashscope.aliyuncs.com" "qwen-turbo" "k" "hi" = head ++ CRLF ++ CRLF ++ body /\
    parse body = Some (chatCompletionsRequest "qwen-turbo" "hi").
Proof.
  destruct (chat_request_frames "dashscope.aliyuncs.com" "qwen-turbo" "k" "hi") as (head & body & H1 & _ & _ & _ & H2);
    [apply no_cr_text; vm_compute; reflexivity..|]. by exists head, body.
Defined.

Lemma chat_reply_read_witness :
  chatReply (concat (List.map (fun l => l ++ CRLF) [to_bytes "HTTP/1.1 200 OK"; to_bytes "Connection: close"]) ++ CRLF ++ ex_body "pong") = inl (to_bytes "pong").
Proof.
  apply (chat_reply_read "OK" [to_bytes "Connection: close"] (ex_body "pong")
    {| ID := []; Choices := {| backing := [to_bytes "pong"]; slen := 1 |} |} (to_bytes "pong") []).
  - apply no_cr_text. vm_compute. reflexivity.
  - constructor; [split; [discriminate|apply no_cr_text; vm_compute; reflexivity]|constructor].
  - vm_compute. reflexivity.
  - reflexivity.
  - vm_compute. discriminate.
Defined.

(** The status is looked for anywhere in the line: a reason phrase can stand in for
    it, and a line without one is refused. *)
Example status_line_misread :
  chatReply (to_bytes "HTTP/1.1 500 expected 200 here" ++ CRLF ++ CRLF ++ ex_body "pong") = inl (to_bytes "pong") /\
  chatReply (to_bytes "HTTP/1.1 200" ++ CRLF ++ CRLF ++ ex_body "pong") = inr (Non200 (to_bytes "HTTP/1.1 200") (ex_body "pong")).
Proof. vm_compute. auto. Qed.

(** A key with a line break writes a header of its own. *)
Example key_injects_header :
  is_Some (index (CRLF ++ to_bytes "X-Injected: yes" ++ CRLF) (chatRequest "h" "m" (of_bytes (to_bytes "k" ++ CRLF ++ to_bytes "X-Injected: yes")) "p")).
Proof. vm_compute. by eexists. Qed.

(** ** The dial through the proxy *)

(** [socks5.DialContext], which [socks5Dial] calls. *)
Definition DialContext (now : Z) (dial : connError + sock) (setDeadlineErr : option connError) (target : bytes) : (dialError + unit) * option sock :=
  dialSOCKS5 now (10 * Second) dial setDeadlineErr target.

Inductive thruError := SplitHostport | ThruSOCKS5 (e : dialError) | TLSHandshake (msg : string).

(** [tls] is the error of the handshake for a server name over a socket.  The
    result is the name the certificate was checked against; with it, what became
    of the socket, if there was one. *)
Definition dialThruSOCKS5 (now : Z) (dial : connError + sock) (setDeadlineErr : option connError) (tls : bytes -> sock -> option string)
    (hostport : bytes) : (thruError + bytes) * option sock :=
  match Net.SplitHostPort hostport with
  | None => (inl SplitHostport, None)
  | Some (host, _) =>
      match DialContext now dial setDeadlineErr hostport with
      | (inl e, os) => (inl (ThruSOCKS5 e), os)
      | (inr _, None) => (inr host, None)
      | (inr _, Some s) =>
          match tls host s with
          | Some msg => (inl (TLSHandshake msg), Some (closeSock s))
          | None => (inr host, Some s)
          end
      end
  end.

(** A failed dial leaves no socket open, wherever it failed; a successful one has
    the socket the proxy connected, past the proxy's reply and with no deadline
    left, and the certificate was checked for the host of the address. *)
Theorem dial_thru_leaves_nothing now dial setErr tls hostport r os :
  dialThruSOCKS5 now dial setErr tls hostport = (r, os) ->
  match r with
  | inl _ => forall s', os = Some s' -> closed s' = true
  | inr host => exists port s s', Net.SplitHostPort hostport = Some (host, port) /\ dial = inr s /\ os = Some s' /\
      closed s' = closed s /\ deadline s' = None /\ tls host s' = None /\
      exists reply, reply_ok reply /\ data (inp s) = [Utf8.chr 5; Utf8.chr 0] ++ reply ++ data (inp s')
  end.
Proof.
  unfold dialThruSOCKS5, DialContext, dialSOCKS5. destruct (Net.SplitHostPort hostport) as [[host port]|]; [|by intros [= <- <-]].
  destruct dial as [e|s]; [by intros [= <- <-]|]. destruct setErr as [e|]; [intros [= <- <-]; by intros s' [= <-]|].
  pose proof (handshake_outcome hostport (setDeadline (Some (time_add now (10 * Second))) s)) as H.
  destruct (handshake _ _) as [[e|u] s']; [intros [= <- <-]; by intros s1 [= <-]|].
  destruct H as (h & p & reply & _ & Hr & Hd & _ & Hc & Hdl). destruct (tls host s') as [msg|] eqn:Et; intros [= <- <-].
  - by intros s1 [= <-].
  - exists port, s, s'. split_and!; try done. by exists reply.
Qed.

Lemma dial_thru_leaves_nothing_witness :
  exists s', (dialThruSOCKS5 0 (inr ex_sock) None (fun _ _ => Some "x509: unknown authority"%string) (to_bytes "api.example.com:1080")).2 = Some s' /\
    closed s' = true.
Proof.
  destruct (dialThruSOCKS5 0 (inr ex_sock) None (fun _ _ => Some "x509: unknown authority"%string) (to_bytes "api.example.com:1080")) as [r os] eqn:E.
  pose proof (dial_thru_leaves_nothing _ _ _ _ _ _ _ E) as H. vm_compute in E. injection E as <- <-. eexists. split; [reflexivity|]. exact (H _ eq_refl).
Defined.

End Integration.
