(* ===== verification/ToolReports.v ===== *)
(** * What the helixchannel tool prints

    Of [src/cmd/helixchannel/main.go]: the JSON lines of [runVersion],
    [runHeaderStamp] and [runDoctor], the failure line of [fail], the [usage]
    text, and [lightsailHTTPGet] with the context it cancels on return.  The
    decisions behind them are in [Diagnostics] and [GatewayCmd]. *)

From Stdlib Require Import ZArith Lia Ascii String.
From stdpp Require Import base option list gmap strings.
From S2P Require Import Prelude GoStrings Json JsonSpec JsonMap JsonLines Flags CheckKeys Diagnostics GatewayCmd Integration.

Module ToolReports.
Import GoStrings Json JsonSpec JsonMap JsonLines.

(** [json.NewEncoder(w).Encode(v)]: the text and a line break. *)
Definition Encode (v : json) : bytes := print v ++ [byte 10].

(** ** version *)

Record versionEnvelope := { HelixChannelVersion : string; GoVersion : string; GitSHA : string }.

Definition version_json (v : versionEnvelope) : json :=
  JObj ([(to_bytes "helixchannel_version", JText (HelixChannelVersion v)); (to_bytes "go_version", JText (GoVersion v))] ++
        opt_text "git_sha" (GitSHA v)).

Definition revision (settings : option (list (string * string))) : string :=
  match list_find (fun kv => kv.1 = "vcs.revision"%string) (default [] settings) with Some (_, kv) => kv.2 | None => ""%string end.

Definition version_flags : Flags.FlagSet := Flags.NewFlagSet [("text", Flags.VBool false)]%string.

(** Standard output, or the flag error. *)
Definition runVersion (goVersion : string) (settings : option (list (string * string))) (args : list string) : bytes + Flags.flagError :=
  match Flags.Parse version_flags args with
  | inr e => inr e
  | inl (fs, _) =>
      if Flags.boolOf fs "text" then inl (to_bytes (GatewayCmd.versionLine goVersion settings) ++ [byte 10])
      else inl (Encode (version_json {| HelixChannelVersion := GatewayCmd.proxyHelixChannelVersion; GoVersion := goVersion; GitSHA := revision settings |}))
  end.

(** ** header-stamp *)

Definition header_stamp : json :=
  JObj [(to_bytes "headers", JArr [JText (Integration.HelixChannelHeader ++ ": " ++ Integration.HelixChannelVersion)]);
        (to_bytes "channel", JText "HelixChannel")].

Definition runHeaderStamp : bytes := Encode header_stamp.

(** ** doctor *)

(** The envelope; a map is written with its keys in order. *)
Definition doctor_json (checks : gomap string) : json :=
  JObj [(to_bytes "checks", JObj (List.map (fun kv => (escape kv.1, JText kv.2)) checks))].

(** ** Failures *)

Definition verdict_text (label : string) : string := "verdict=" ++ label.

(** [fail]: the line on standard error; the keys of the map in order. *)
Definition fail_line (sub err : string) : bytes :=
  Encode (JObj [(to_bytes "error", JText err); (to_bytes "subcommand", JText sub)]).

(** [usage], after the program's name. *)
Definition usage_text : string :=
  " <version|factory-probe|key-check|header-stamp|doctor|endpoint-check|kilo-verify|check-keys> [--flags]".

(** ** lightsailHTTPGet *)

(** A response when [Do] returns: the status, the part of the body that has
    arrived with the head, and the part that has not. *)
Record inflight := { code : Z; arrived : bytes; outstanding : bytes }.

(** [io.ReadAll] of the body.  Cancelling the context of the request ends the
    transfer: what has not arrived never will, and the read fails. *)
Definition read_body (cancelled : bool) (x : inflight) : option bytes :=
  if cancelled && negb (bool_decide (outstanding x = [])) then None else Some (arrived x ++ outstanding x).

(** The response and whether its context is already cancelled: the deferred
    [cancel] runs when the function returns. *)
Definition lightsailHTTPGet (newRequest : string -> option bytes) (Do : string -> bytes + inflight) (url : string) : bytes + inflight * bool :=
  match newRequest url with
  | Some e => inl e
  | None => match Do url with inl e => inl e | inr x => inr (x, true) end
  end.

(** The answer [checkLightsailTCP443] works with. *)
Definition lightsail_answer (newRequest : string -> option bytes) (Do : string -> bytes + inflight) (url : string) : Diagnostics.httpAnswer :=
  match lightsailHTTPGet newRequest Do url with
  | inl e => inl e
  | inr (x, cancelled) => inr (code x, read_body cancelled x)
  end.

(** ** Properties *)

Lemma parse_encoded v : wf v -> parse (Encode v) = Some v.
Proof.
  intros [Hl Hd]. unfold parse, Encode. rewrite (print_not_space v [byte 10] Hl).
  by rewrite (value_print v _ 0 [byte 10] Hl) by (done || (unfold fuel_for; rewrite ?length_app; lia)).
Qed.

Lemma version_json_wf v : wf (version_json v).
Proof.
  apply flat_object_wf, Forall_app. split; [|apply opt_text_ok; by apply key_ok].
  repeat apply Forall_cons_2; [split_and!; [by apply key_ok|apply text_ok|done]..|constructor].
Qed.

Lemma append_empty (s : string) : (s ++ "")%string = s.
Proof. induction s as [|c s IH]; [done|]. exact (f_equal (String c) IH). Qed.

(** Both forms of the version name the same release, Go release and revision:
    the JSON line reads back as the envelope whose fields the text line spells. *)
Theorem version_forms_agree goVersion settings :
  let v := {| HelixChannelVersion := GatewayCmd.proxyHelixChannelVersion; GoVersion := goVersion; GitSHA := revision settings |} in
  (exists line, runVersion goVersion settings [] = inl line /\ parse line = Some (version_json v)) /\
  runVersion goVersion settings ["--text"]%string =
    inl (to_bytes ("helixchannel_version=" ++ HelixChannelVersion v ++ " go_version=" ++ GoVersion v ++
                   (if GitSHA v =s "" then "" else " git_sha=" ++ GitSHA v)) ++ [byte 10]).
Proof.
  cbv zeta. unfold runVersion. split.
  - destruct (Flags.Parse version_flags []) as [[fs rest]|e] eqn:E; [|vm_compute in E; discriminate].
    vm_compute in E. injection E as <- _. eexists. split; [reflexivity|]. apply parse_encoded, version_json_wf.
  - destruct (Flags.Parse version_flags ["--text"]%string) as [[fs rest]|e] eqn:E; [|vm_compute in E; discriminate].
    vm_compute in E. injection E as <- _. cbn [HelixChannelVersion GoVersion GitSHA].
    match goal with |- (if ?b then _ else _) = _ => change b with true end. cbv iota.
    unfold GatewayCmd.versionLine. fold (revision settings). destruct (revision settings =s ""); [|done]. by rewrite append_empty.
Qed.

(** The firewall check passes only when the whole answer came with its head: the
    context of the request is cancelled before the body is read. *)
Theorem lightsail_needs_whole_body getenv newRequest Do :
  getenv "LIGHTSAIL_API_BASE" <> ""%string ->
  Diagnostics.checkLightsailTCP443 getenv (lightsail_answer newRequest Do) = "pass"%string ->
  exists url x, Do url = inr x /\ code x = 200 /\ outstanding x = [].
Proof.
  intros Hb. unfold Diagnostics.checkLightsailTCP443. destruct (String.eqb_spec (getenv "LIGHTSAIL_API_BASE") "") as [|_]; [done|].
  set (url := (_ ++ _)%string). unfold lightsail_answer, lightsailHTTPGet, read_body.
  destruct (newRequest url); [done|]. destruct (Do url) as [e|x] eqn:Ed; [done|].
  destruct (Z.eqb_spec (code x) 200) as [Hc|]; [|done]. cbn [negb andb].
  destruct (bool_decide_reflect (outstanding x = [])) as [Ho|]; [|done]. intros _. by exists url, x.
Qed.

(** An open port whose answer is still arriving is reported as an error. *)
Definition ex_answer : bytes :=
  Diagnostics.quote_marks "{'portStates':[{'fromPort':443,'toPort':443,'protocol':'tcp','state':'open'}]}".

Definition ex_getenv (name : string) : string := if name =s "LIGHTSAIL_API_BASE" then "http://l" else "".

Lemma lightsail_needs_whole_body_witness :
  exists url x, (fun _ : string => inr {| code := 200; arrived := ex_answer; outstanding := [] |} : bytes + inflight) url = inr x /\
    code x = 200 /\ outstanding x = [].
Proof.
  apply (lightsail_needs_whole_body ex_getenv (fun _ => None) (fun _ => inr {| code := 200; arrived := ex_answer; outstanding := [] |}));
    [vm_compute; discriminate|vm_compute; reflexivity].
Defined.

Example lightsail_open_port_error :
  Diagnostics.checkLightsailTCP443 ex_getenv
    (lightsail_answer (fun _ => None) (fun _ => inr {| code := 200; arrived := take 10 ex_answer; outstanding := drop 10 ex_answer |})) = "error"%string.
Proof. vm_compute. done. Qed.

(** The usage line leaves out three of the subcommands it stands for. *)
Example usage_omits_gateway :
  Forall (fun name => Contains usage_text name = false /\ exists c, GatewayCmd.dispatch [name] = GatewayCmd.Run c [])
    ["gateway"; "proxy"; "aes-bridge"]%string.
Proof. repeat constructor; try (vm_compute; reflexivity); eexists; vm_compute; reflexivity. Qed.

End ToolReports.
