(* ===== verification/DemoRun.v ===== *)
(** * The demonstration as a process

    Of [src/cmd/dual-listener-demo/main.go] the start of
    [runDualListenerDemo] with [startMockUpstream], and its serving phase as a
    step relation over the goroutines of the two listeners and of
    [startMetricsServer], and [main]; of [src/internal/proxy/observability/observability.go]
    and [src/internal/channel/metrics.go] the set-up both rely on:
    [RegisterMetrics], [Reset], [ObserveHelixChannelSession], [InitTracer] and
    [Tracer].  Sockets, the Prometheus registry's own errors and the exporter are
    arguments. *)

From Stdlib Require Import ZArith Lia String.
From stdpp Require Import base option list gmap relations strings.
From S2P Require Import Prelude GoStrings Flags Demo.

Module DemoRun.
Import GoStrings.

(** ** Registering metrics *)

(** A registry is the set of the collectors it holds; [refuse] is a
    [Register] error of another kind. *)
Inductive registerError := AlreadyRegistered | OtherError (msg : string).

Definition Register (refuse : string -> option string) (c : string) (reg : gset string) : registerError + gset string :=
  if decide (c ∈ reg) then inl AlreadyRegistered
  else match refuse c with Some msg => inl (OtherError msg) | None => inr ({[ c ]} ∪ reg) end.

Definition collectors : list string :=
  ["ConnectionsTotal"; "BytesTotal"; "RequestDuration"; "DecryptFailedTotal"; "HelixChannelConnectionsTotal"; "HelixChannelBytesTotal";
   "HelixChannelSessionTotal"].

(** [observability.RegisterMetrics] passes over a collector that is there already. *)
Fixpoint register_all (refuse : string -> option string) (cs : list string) (reg : gset string) : option string * gset string :=
  match cs with
  | [] => (None, reg)
  | c :: cs =>
      match Register refuse c reg with
      | inr reg => register_all refuse cs reg
      | inl AlreadyRegistered => register_all refuse cs reg
      | inl (OtherError msg) => (Some ("register metric: " ++ msg)%string, reg)
      end
  end.

Definition RegisterMetrics (refuse : string -> option string) (reg : gset string) : option string * gset string :=
  register_all refuse collectors reg.

(** [channel.RegisterMetrics] stops at any error. *)
Definition gateway_collectors : list string := ["KeyRetiredTotal"; "AdmissionRefusedTotal"; "ForwardFailedTotal"].

Fixpoint register_each (refuse : string -> option string) (cs : list string) (reg : gset string) : option registerError * gset string :=
  match cs with
  | [] => (None, reg)
  | c :: cs => match Register refuse c reg with inr reg => register_each refuse cs reg | inl e => (Some e, reg) end
  end.

Definition gatewayRegisterMetrics (refuse : string -> option string) (reg : gset string) : option registerError * gset string :=
  register_each refuse gateway_collectors reg.

(** [Reset], on the families the handler writes. *)
Definition Reset (m : Demo.metrics) : Demo.metrics :=
  {| Demo.ConnectionsTotal := ∅; Demo.BytesTotal := ∅; Demo.RequestDuration := ∅; Demo.HelixChannelSessionTotal := ∅ |}.

(** ** Sessions and the tracer *)

(** A span of the context: whether it records, its attributes and its events. *)
Record span := { recording : bool; attributes : gmap string string; events : list (string * string) }.

Definition ObserveHelixChannelSession (outcome : string) (m : gmap string Z) (sp : span) : gmap string Z * span :=
  (Demo.bump outcome 1 m,
   if recording sp
   then {| recording := true; attributes := <["helixchannel.session.outcome" := outcome]> (attributes sp);
           events := events sp ++ [("helixchannel.session.outcome", outcome)]%string |}
   else sp).

(** The package's tracer: whether [tracerOnce] has run, and the name of
    [tracerInst]; [provider] is the service whose provider is installed. *)
Record tracing := { once : bool; inst : option string; provider : option string }.

Definition demoTracer : string := "llm-cluster-router-demo".

Definition Tracer (t : tracing) : option string * tracing :=
  if once t then (inst t, t)
  else (Some demoTracer, {| once := true; inst := Some demoTracer; provider := provider t |}).

(** [resourceErr] and [exporterErr] are the errors of the two libraries. *)
Definition InitTracer (endpoint serviceName : string) (resourceErr exporterErr : option string) (t : tracing) : option string * tracing :=
  if endpoint =s "" then (None, (Tracer t).2)
  else
    match resourceErr with
    | Some e => (Some ("otel resource: " ++ e)%string, t)
    | None =>
        match exporterErr with
        | Some e => (Some ("otlp exporter: " ++ e)%string, t)
        | None => (None, {| once := false; inst := Some serviceName; provider := Some serviceName |})
        end
    end.

(** ** Starting the listeners *)

Inductive socket := MockUpstream | AesListener | SocksListener.

#[export] Instance socket_eq_dec : EqDecision socket.
Proof. solve_decision. Defined.
#[export] Instance socket_countable : Countable socket.
Proof.
  refine (inj_countable' (fun s => match s with MockUpstream => 0 | AesListener => 1 | SocksListener => 2 end%nat)
            (fun n => match n with O => MockUpstream | S O => AesListener | _ => SocksListener end) _). by intros [].
Defined.

(** [bind] is the error of each listen.  The error that is returned, and the
    sockets that are open when it is. *)
Definition start (aesAddr socksAddr : string) (bind : socket -> option string) : option string * gset socket :=
  if (aesAddr =s "") || (socksAddr =s "") then (Some "dual-listener-demo: aes-addr and socks5-addr must both be set"%string, ∅)
  else
    match bind MockUpstream with
    | Some e => (Some ("start mock upstream: " ++ e)%string, ∅)
    | None =>
        match bind AesListener with
        | Some e => (Some ("aes-mtls listen: " ++ e)%string, {[ MockUpstream ]})
        | None =>
            match bind SocksListener with
            | Some e => (Some ("socks5 listen: " ++ e)%string, {[ MockUpstream; AesListener ]})
            | None => (None, {[ MockUpstream; AesListener; SocksListener ]})
            end
        end
    end.

(** ** Serving *)

Inductive leg := Aes | Socks | Metrics.

#[export] Instance leg_eq_dec : EqDecision leg.
Proof. solve_decision. Defined.

Inductive main := WaitsForCancel | Joins | Returned (err : option string).

Record run := { ctxDone : bool; alive : leg -> bool; errCh : list string; pc : main }.

Definition prefix_of (l : leg) : string :=
  match l with Aes => "aes-mtls serve: " | Socks => "socks5 serve: " | Metrics => "metrics serve: " end.

Definition ends (r : run) (l : leg) (err : option string) : run :=
  {| ctxDone := ctxDone r; alive := fun k => if decide (k = l) then false else alive r k;
     errCh := errCh r ++ match err with Some e => [prefix_of l ++ e]%string | None => [] end; pc := pc r |}.

Definition boot : run := {| ctxDone := false; alive := fun _ => true; errCh := []; pc := WaitsForCancel |}.

Inductive step : run -> run -> Prop :=
(* A leg fails; the SOCKS5 loop reports nothing once the context is done. *)
| D_fail r l e : alive r l = true -> (l = Socks -> ctxDone r = false) -> step r (ends r l (Some e))
| D_cancel r :
    step r {| ctxDone := true; alive := alive r; errCh := errCh r; pc := pc r |}
(* <-ctx.Done(), then the shutdown of the server and the close of both listeners. *)
| D_shutdown r :
    ctxDone r = true -> pc r = WaitsForCancel -> step r {| ctxDone := true; alive := alive r; errCh := errCh r; pc := Joins |}
(* The legs end cleanly: the HTTP server after its shutdown, the others once the context is done. *)
| D_aes_closed r : alive r Aes = true -> pc r = Joins -> step r (ends r Aes None)
| D_socks_closed r : alive r Socks = true -> ctxDone r = true -> step r (ends r Socks None)
| D_metrics_closed r : alive r Metrics = true -> ctxDone r = true -> step r (ends r Metrics None)
(* wg.Wait and the first error of the closed channel. *)
| D_return r :
    pc r = Joins -> (forall l, alive r l = false) ->
    step r {| ctxDone := ctxDone r; alive := alive r; errCh := errCh r; pc := Returned (head (errCh r)) |}.

Definition reachable (r : run) : Prop := rtc step boot r.

(** ** main *)

Definition demo_flags (logPath : string) : Flags.FlagSet :=
  Flags.NewFlagSet [("aes-addr", Flags.VStr "127.0.0.1:18080"); ("socks5-addr", Flags.VStr "127.0.0.1:11080");
                    ("metrics-addr", Flags.VStr "127.0.0.1:18090"); ("agentrace-log", Flags.VStr logPath);
                    ("mock-body", Flags.VStr "hello from the dual-listener demo mock upstream")]%string.

(** The flags are refused (exit 2), the start fails ([log.Fatalf], exit 1), or the
    legs run with the settings of the flags. *)
Inductive launch := BadFlags (e : Flags.flagError) | Fatal (msg : string) | Runs (aesAddr socksAddr metricsAddr logPath mockBody : string).

Definition demo_main (logPath : string) (bind : socket -> option string) (args : list string) : launch :=
  match Flags.Parse (demo_flags logPath) args with
  | inr e => BadFlags e
  | inl (fs, _) =>
      match (start (Flags.strOf fs "aes-addr") (Flags.strOf fs "socks5-addr") bind).1 with
      | Some e => Fatal ("dual-listener-demo: " ++ e)%string
      | None => Runs (Flags.strOf fs "aes-addr") (Flags.strOf fs "socks5-addr") (Flags.strOf fs "metrics-addr")
                     (Flags.strOf fs "agentrace-log") (Flags.strOf fs "mock-body")
      end
  end.

(** The run under [main].  Its goroutine cancels the context when a signal comes
    out of [sigCh], and nothing puts one in: [signal.Notify] is never called. *)
Inductive main_step : run -> run -> Prop :=
| D_main r r' : step r r' -> ctxDone r' = ctxDone r -> main_step r r'.

(** ** Properties *)

Definition live (r : run) : nat :=
  ((if alive r Aes then 1 else 0) + (if alive r Socks then 1 else 0) + (if alive r Metrics then 1 else 0))%nat.

Record inv (r : run) : Prop := {
  i_room : (length (errCh r) + live r <= 3)%nat;
  i_joins : pc r = Joins -> ctxDone r = true;
  i_returned : forall e, pc r = Returned e -> ctxDone r = true /\ (forall l, alive r l = false) /\ e = head (errCh r);
}.

Lemma live_ends r l e : alive r l = true -> live r = S (live (ends r l e)).
Proof. intros H. unfold live, ends. simpl. destruct l; rewrite H; simpl; lia. Qed.

Lemma inv_ends r l e : inv r -> alive r l = true -> inv (ends r l e).
Proof.
  intros [Hr Hj He] Hl. pose proof (live_ends r l e Hl) as Hn. split; simpl.
  - rewrite length_app. destruct e; simpl; lia.
  - exact Hj.
  - intros x Hx. destruct (He x Hx) as (_ & Hd & _). by rewrite Hd in Hl.
Qed.

Lemma demo_inv_step r r' : inv r -> step r r' -> inv r'.
Proof.
  intros Hi Hs. pose proof Hi as [Hr Hj He]. destruct Hs; try (by apply inv_ends).
  - split; [exact Hr|done|]. intros e Hx. destruct (He e Hx) as (_ & H1 & H2). done.
  - split; [exact Hr|done|]. done.
  - split; [exact Hr|done|]. intros e [= <-]. simpl. auto.
Qed.

Lemma demo_reachable_inv r : reachable r -> inv r.
Proof.
  revert r. apply (rtc_ind_r inv); [by split|]. intros r r' _ Hs Hi. by eapply demo_inv_step.
Qed.

(** The demonstration ends with its context and not before: it has returned only
    if the context was cancelled and every goroutine is gone, the result is the
    first error any of them reported and nil only if none did, and the error
    channel always had room, so no goroutine was ever held by it. *)
Theorem demo_ends_with_context r :
  reachable r ->
  (length (errCh r) + live r <= 3)%nat /\
  forall e, pc r = Returned e -> ctxDone r = true /\ (forall l, alive r l = false) /\ e = head (errCh r) /\ (e = None <-> errCh r = []).
Proof.
  intros Hi%demo_reachable_inv. split; [apply (i_room _ Hi)|]. intros e Hp. destruct (i_returned _ Hi e Hp) as (H1 & H2 & ->).
  split_and!; try done. destruct (errCh r); split; done.
Qed.

(** Under [main] the run never gets as far as its shutdown: whatever the legs do,
    the function waits for a cancellation that does not come. *)
Theorem demo_main_never_shuts_down r : rtc main_step boot r -> ctxDone r = false /\ pc r = WaitsForCancel.
Proof.
  revert r. apply (rtc_ind_r (fun r => ctxDone r = false /\ pc r = WaitsForCancel)); [done|].
  intros r r' _ [r1 r2 Hs Hc] [Hd Hp]. split; [by rewrite Hc|]. destruct Hs; simpl in *; congruence.
Qed.

(** Once the context is cancelled the demonstration can always return. *)
Theorem demo_drains r :
  reachable r -> ctxDone r = true -> exists r' e, rtc step r r' /\ pc r' = Returned e /\ e = head (errCh r).
Proof.
  intros Hi%demo_reachable_inv Hc.
  assert (Hjoin : exists r1, rtc step r r1 /\ (pc r1 = Joins \/ exists e, pc r1 = Returned e /\ e = head (errCh r)) /\ ctxDone r1 = true /\ errCh r1 = errCh r).
  { destruct (pc r) as [| |e] eqn:Hp.
    - eexists. split; [apply rtc_once, (D_shutdown r Hc Hp)|]. simpl. split_and!; auto.
    - exists r. split_and!; auto. reflexivity.
    - exists r. split_and!; auto; [reflexivity|]. right. exists e. split; [done|]. by apply (i_returned _ Hi). }
  destruct Hjoin as (r1 & Hr1 & [Hj|(e & He & Heq)] & Hc1 & Hch1); [|by exists r1, e].
  assert (Hend : forall l r, pc r = Joins -> ctxDone r = true -> exists r', rtc step r r' /\ pc r' = Joins /\ ctxDone r' = true /\
    errCh r' = errCh r /\ alive r' l = false /\ forall k, alive r k = false -> alive r' k = false).
  { clear. intros l r Hp Hc. destruct (alive r l) eqn:Hl; [|by exists r].
    exists (ends r l None). split; [apply rtc_once; destruct l; by constructor|]. simpl. rewrite app_nil_r, decide_True by done.
    split_and!; auto. intros k Hk. by destruct (decide (k = l)). }
  destruct (Hend Aes r1 Hj Hc1) as (r2 & Hr2 & Hp2 & Hc2 & Hch2 & Ha2 & _).
  destruct (Hend Socks r2 Hp2 Hc2) as (r3 & Hr3 & Hp3 & Hc3 & Hch3 & Ha3 & Hk3).
  destruct (Hend Metrics r3 Hp3 Hc3) as (r4 & Hr4 & Hp4 & Hc4 & Hch4 & Ha4 & Hk4).
  eexists _, _. split; [etrans; [exact Hr1|]; etrans; [exact Hr2|]; etrans; [exact Hr3|]; etrans; [exact Hr4|]|].
  - apply rtc_once, D_return; [done|]. intros []; auto.
  - simpl. split; [done|]. congruence.
Qed.

(** A failed start leaves sockets open: when the SOCKS5 address cannot be bound
    the AES listener, already bound, is not closed. *)
Theorem failed_start_leaks aesAddr socksAddr bind e :
  aesAddr <> ""%string -> socksAddr <> ""%string ->
  bind MockUpstream = None -> bind AesListener = None -> bind SocksListener = Some e ->
  exists msg, start aesAddr socksAddr bind = (Some msg, {[ MockUpstream; AesListener ]}).
Proof.
  intros Ha Hs H1 H2 H3. unfold start. destruct (String.eqb_spec aesAddr ""), (String.eqb_spec socksAddr ""); try done. simpl.
  rewrite H1, H2, H3. eauto.
Qed.

(** Registering twice is harmless on the demonstration's registry and an error
    on the gateway's. *)
Lemma register_all_idem cs reg : let '(e, reg') := register_all (fun _ => None) cs reg in
  e = None /\ reg ⊆ reg' /\ Forall (fun c => c ∈ reg') cs.
Proof.
  revert reg. induction cs as [|c cs IH]; intros reg; cbn [register_all]; [done|]. unfold Register.
  destruct (decide (c ∈ reg)) as [Hc|Hc].
  - specialize (IH reg). destruct (register_all _ cs reg) as [e reg']. destruct IH as (-> & H1 & H2). split_and!; [done|done|].
    constructor; [set_solver|done].
  - specialize (IH ({[ c ]} ∪ reg)). destruct (register_all _ cs _) as [e reg']. destruct IH as (-> & H1 & H2).
    split_and!; [done|set_solver|]. constructor; [set_solver|done].
Qed.

Example register_twice :
  (RegisterMetrics (fun _ => None) (RegisterMetrics (fun _ => None) ∅).2).1 = None /\
  (gatewayRegisterMetrics (fun _ => None) (gatewayRegisterMetrics (fun _ => None) ∅).2).1 = Some AlreadyRegistered.
Proof. vm_compute. done. Qed.

(** The tracer of the service that was initialised is never handed out: the
    reset of the once lets the next [Tracer] replace it by the demonstration's. *)
Theorem service_tracer_replaced endpoint serviceName t t' :
  endpoint <> ""%string -> InitTracer endpoint serviceName None None t = (None, t') ->
  inst t' = Some serviceName /\ (Tracer t').1 = Some demoTracer.
Proof.
  intros He. unfold InitTracer. destruct (String.eqb_spec endpoint ""); [done|]. intros [= <-]. done.
Qed.

(** Metrics and traces agree on a session: the outcome is counted once, and a
    recording span carries it as its last attribute and event. *)
Lemma session_observed outcome m sp m' sp' :
  ObserveHelixChannelSession outcome m sp = (m', sp') ->
  Demo.count m' outcome = Demo.count m outcome + 1 /\
  (recording sp = true -> attributes sp' !! "helixchannel.session.outcome"%string = Some outcome /\ length (events sp') = S (length (events sp))) /\
  (recording sp = false -> sp' = sp).
Proof.
  intros [= <- <-]. split_and!.
  - unfold Demo.count, Demo.bump. rewrite lookup_insert_eq. done.
  - intros ->. simpl. rewrite lookup_insert_eq, length_app. simpl. split; [done|lia].
  - by intros ->.
Qed.

(** ** Witnesses *)

Lemma ex_cancelled_reachable : reachable {| ctxDone := true; alive := fun _ => true; errCh := []; pc := WaitsForCancel |}.
Proof. apply rtc_once. exact (D_cancel boot). Defined.

Lemma demo_drains_witness :
  exists r' e, rtc step {| ctxDone := true; alive := fun _ => true; errCh := []; pc := WaitsForCancel |} r' /\ pc r' = Returned e /\ e = None.
Proof. exact (demo_drains _ ex_cancelled_reachable eq_refl). Defined.

Lemma demo_ends_with_context_witness : (length (errCh boot) + live boot <= 3)%nat.
Proof. exact (proj1 (demo_ends_with_context boot (rtc_refl _ _))). Defined.

Lemma failed_start_leaks_witness :
  exists msg, start ":1" ":2" (fun x => if decide (x = SocksListener) then Some "address already in use"%string else None) =
    (Some msg, {[ MockUpstream; AesListener ]}).
Proof. apply (failed_start_leaks ":1" ":2" _ "address already in use"); (discriminate || reflexivity). Defined.

Lemma service_tracer_replaced_witness :
  (Tracer (InitTracer "127.0.0.1:4317" "gateway" None None {| once := false; inst := None; provider := None |}).2).1 = Some demoTracer.
Proof.
  refine (proj2 (service_tracer_replaced "127.0.0.1:4317" "gateway" {| once := false; inst := None; provider := None |} _ _ _));
    [discriminate|reflexivity].
Defined.

(** A leg that dies is not noticed. *)
Lemma demo_main_never_shuts_down_witness : pc (ends boot Aes (Some "accept: too many open files"%string)) = WaitsForCancel.
Proof. apply (demo_main_never_shuts_down (ends boot Aes (Some "accept: too many open files"%string))). apply rtc_once. by constructor; [apply D_fail|]. Defined.

(** With an empty address the tool ends at once. *)
Example demo_empty_address :
  demo_main "/tmp/l" (fun _ => None) ["-aes-addr="]%string = Fatal "dual-listener-demo: dual-listener-demo: aes-addr and socks5-addr must both be set".
Proof. vm_compute. reflexivity. Qed.

End DemoRun.
